(* ===== verification/_CoqProject ===== *)
-Q . S2P
Prelude.v
WorkTypes.v
Queue.v
Retry.v
Cache.v
CategoryGraph.v
CategoryReconciler.v
Admission.v
AdmissionPolicies.v
Manager.v
DiskKeys.v
DiskStore.v
DiskSpec.v
DiskBatch.v
DiskPut.v
DiskRefine.v
DiskScan.v
DiskSnapshot.v
DiskFanout.v
DiskMerge.v
DiskSystem.v
DiskReady.v
DiskTheorems.v
DiskManager.v
DiskExamples.v
Runner.v
RunnerMirror.v
RunnerTheorems.v
RunnerExamples.v
Checkpoint.v
ReplayRunner.v
ReplayTheorems.v
StatusConditions.v
Reconcilers.v
ReconcilerTheorems.v
ProductReconciler.v
Pagination.v
WatchJournal.v
WatchCursor.v
Subscriber.v
SubscriberSystem.v
SubscriberTheorems.v
WatchFilter.v
ScyllaJournal.v
ScyllaSystem.v
ScyllaTheorems.v
ScyllaExamples.v
Materializer.v
CdcSequencer.v
CdcSystem.v
CdcLaws.v
CdcTheorems.v
CdcExamples.v
ResourceVersion.v
Wiring.v
ControllerExamples.v
Entities.v
CdcConsumer.v
CdcCatalog.v
DeletionStatus.v
MemTable.v
MemStore.v
MemCatalog.v
MemCategory.v
MemTenancy.v
MemLaws.v
MemOwners.v
MemWatch.v
MemExamples.v
GraphqlLimits.v
Auth.v
RbacPolicy.v
RbacEval.v
RbacLaws.v
RbacExact.v
RbacProvider.v
PushOperations.v
Sessions.v
ServiceAccounts.v
ServiceTokens.v
