(* ===== verification/Prelude.v ===== *)
(** * GitStore: a verification library

    GitStore is a catalogue service on top of Git. Its API server
    (src/gitstore-api) stores namespaces, repositories and catalogue resources
    in a datastore and answers GraphQL; its controller manager
    (src/gitstore-controller-manager) watches the API and reconciles resources
    until their status says what their specification asks for. This library
    models the Go code of both in which their own logic lies, and proves what
    makes it correct.

    ** The parts and how they interact

    A reconciler runs for a key. Keys come from the watch stream and wait in a
    queue, in memory or on disk; the manager takes ready keys, runs the
    reconciler with retries, and then completes, defers or quarantines the key.
    A runner per kind lists and watches the API: it keeps a mirror of the kind,
    in the durable store or in an informer cache with a checkpoint file, from
    which reconcilers read, and it queues what changed; while it replaces the
    mirror from a snapshot, dispatches are kept out. Reconcilers write status
    patches through the API. The API authenticates and authorises a request,
    bounds its cost, and reads or writes the datastore, whose commits appear in
    a watch journal the controllers follow. A push of manifests to a repository
    is admitted when its pusher may perform each of the operations it amounts to
    and the policies accept what it declares.

    ** Files

    Controller manager (src/gitstore-controller-manager/internal):
    - [WorkTypes]: types/types.go; keys, results and the errors that
      errors.Is and errors.As tell apart.
    - [Queue]: queue/queue.go; the record [Queue] and one definition per
      method, each a critical section; [qstep] interleaves them, [astep] is the
      abstract queue they implement.
    - [Retry]: retry/retry.go and retry/quarantine.go; [backoff.Retry] is a
      parameter with its documented contract [retry_spec].
    - [Cache]: cache/cache.go; the store, its events and the recovery gate.
    - [Manager]: manager/manager.go; registration, enqueue, requeue, the
      dispatch with retries as the effects it performs, the durable dispatch
      loop and the health report. Durable work is the class [DurableWork] of
      [WorkTypes].
    - [DiskKeys], [DiskStore]: checkpoint/filesystem.go, the type DiskStore;
      every operation on a map of byte strings, errors and failed writes
      included. [DiskSpec] is the abstract state and the relation [Repr];
      [DiskBatch], [DiskPut], [DiskRefine], [DiskScan], [DiskSnapshot],
      [DiskFanout] prove operation by operation that the code implements it;
      [DiskMerge] evaluates the publication of a snapshot; [DiskReady] is the
      ready index; [DiskSystem] interleaves everything with restarts and
      failures; [DiskTheorems] states the guarantees on the rows of the
      database; [DiskManager] has the store as an instance of [DurableWork] and
      composes it with the manager; [DiskExamples] has a serialisation and the
      runs of the witnesses.
    - [Runner]: listwatch/runner.go with a durable store; the handling of events
      and listings, and the loop as steps that interleave with the server, the
      dispatchers, restarts and failures. [RunnerMirror] has the effect of each
      step on the mirror, [RunnerTheorems] the guarantees, [RunnerExamples] a
      run.
    - [Checkpoint], [ReplayRunner]: checkpoint/checkpoint.go, memory.go and the
      FilesystemStore of filesystem.go (the class [CheckpointStore] and its two
      instances); listwatch/runner.go with a checkpoint file. [ReplayTheorems]
      interleaves it with completions, saves and crashes, and has a run in
      which a completion forgets an update.
    - [StatusConditions], [Reconcilers], [ProductReconciler]: the reconcilers of
      namespace, repository and product, with what they share;
      [ReconcilerTheorems] shows that they settle.
    - [Wiring]: cmd/controller/main.go and categorytaxonomy/watch.go; the runner
      of each kind, its relation indexes, related work and counters;
      [ControllerExamples] has the runs of the witnesses.
    - [CategoryGraph], [CategoryReconciler]: categorytaxonomy/*.go and
      status/patch.go, with the cycle detection and topological sort of
      src/gitstore-api/internal/admission/catalog.

    API server (src/gitstore-api/internal):
    - [Admission], [AdmissionPolicies]: admission/admission.go, chain.go,
      error.go, namespace_scope.go and admission/catalog; the chain of policies,
      the policies of catalogue resources and what a refusal tells a client.
    - [PushOperations]: cataloggrpc/admission_operations.go; the operations a
      push of manifests asks for, and the permission each of them needs.
    - [Pagination]: page parameters, keyset cursors and the window of a listing
      (datastore/datastore.go, memdb/backend.go, the resolver's cursors).
    - [WatchJournal]: datastore/memdb/namespace_watch.go; the retained journal,
      its leases and its readers.
    - [WatchCursor]: watchjournal/journal.go and errors.go; the text of cursors
      and the errors that end a watch. [Subscriber]: watchjournal/subscriber.go
      and subscriber_tailer.go; one definition per critical section of the
      shared poller and the subscriptions, against the class [WatchStore] of
      journals. [SubscriberSystem] interleaves writers, the poller, watches and
      failures; [SubscriberTheorems] has the guarantees, the
      in-memory journal as an instance and a run.
    - [ScyllaJournal]: datastore/scylla/namespace_watch.go; the journal in a
      database: leases, appends and their recovery from failed requests as
      machines that issue one conditional statement at a time. [ScyllaSystem]
      interleaves writers, lost replies and expiring rows; [ScyllaTheorems] has
      the guarantees, [ScyllaExamples] a change of leader, a race, and the
      cluster as an instance of [WatchStore].
    - [Materializer]: watchjournal/materializer.go, lease.go and readiness.go;
      from changes of rows to events. [CdcSequencer]: datastore/scylla/
      namespace_cdc.go; the sequencer that merges the change streams of a table
      into the journal, with the frontier and positions it saves. [CdcSystem]
      interleaves streams, readers and leaders that stop at any point;
      [CdcLaws] and [CdcTheorems] have the guarantees, [CdcExamples] a leader
      that stops half way. [CdcConsumer], [CdcCatalog]: the consumers of
      namespaces, catalogue kinds and repositories (also catalog_cdc.go and
      repository_cdc.go).
    - [WatchFilter]: catalog/selector.go and label_selector.go, watch.go,
      product_watch.go, repository_watch.go of the resolver; label selectors and
      what a filtered watch is sent. [MemWatch] follows the log along the
      operations of the in-memory datastore.
    - [ResourceVersion], [Entities], [DeletionStatus]: datastore/version.go,
      entities.go, the contracts, ownership.go and the deletion intents of
      catalog/status.go.
    - [MemTable], [MemStore], [MemCatalog], [MemCategory], [MemTenancy]:
      datastore/memdb; the tables (an interface with the laws of go-memdb,
      [MemTable]), references, fences, and the operations on catalogue
      resources, categories, namespaces and repositories. [MemLaws] and
      [MemOwners] have the invariants of every reachable store, [MemExamples]
      the concrete sessions.
    - [Auth]: auth/types.go, registry.go and the generated actions; principals
      and the chain of providers.
    - [RbacPolicy], [RbacEval], [RbacLaws], [RbacExact], [RbacProvider]:
      auth/provider/rbaclocal; the policy document and its validation, the
      compiled evaluator on 64-bit sets, its equivalence with the document, and
      the provider with its reloads.
    - [Sessions]: auth/provider/staticusers with the in-process revocations of
      datastore/memdb; the JWT library is the class [Jwt]; [session_step]
      interleaves the calls. [ServiceAccounts]: datastore/serviceaccount.go, the
      accounts of datastore/memdb, and used assertions as the class
      [ReplayStore] with the in-memory store and datastore/scylla/
      serviceaccount.go as instances. [ServiceTokens]:
      auth/provider/serviceaccountassertion and serviceaccountjwt.
    - [GraphqlLimits]: middleware/security/graphql_limits.go; the bounds on
      operations and the saturating complexity.

    This file has what they share: outcomes of fallible code and their bind,
    lemmas on strings in Go's byte order, 64-bit arithmetic, codes for the
    examples, and counting in maps.

    ** Conventions

    A method that changes its receiver takes and returns the record of its
    state; one that can fail returns a [result], with the state it leaves where
    it leaves one. A mutex makes an operation one step; concurrency is a
    relation that interleaves the steps. What a Go map iterates in no order is
    given as an argument. Times are integers in nanoseconds. Integers are [Z],
    with the wrap-around written out ([u64], [int]) where the code relies on
    it.

    ** What the theorems show

    - C1, C2, C5, C6, C9, C10: no key is processed twice at once, nothing
      queued is lost; a dispatch disposes of its work in exactly one way and
      quarantines only what failed for good or exhausted its budget; durable
      kinds stay within their workers; the recovery gate excludes dispatches.
      Further theorems: a worker blocks only when nothing is queued
      ([Dequeue_blocks_iff]), dispatch is first come first served, quarantined keys
      stay out and come back when requeued, the events of a replacement mirror
      it; [nil_transient_completes] is a transient failure without an error,
      which a retry takes for a success.
    - C13, C31, C4: the mirror of the runner. Lookups give what the server
      held since the cursor, changes are always queued, counters count what
      refers to a category; listings are staged in admissible pages
      ([visitPage_pages]).
    - C7: a clean checkpoint restores the runner.
    - C11: products settle after one status write, and so do repositories
      ([repository_settles]).
    - C8, C34: pushes. The operations are exactly the difference of the
      manifests, and a push passes only when its pusher may perform each of
      them. Further theorems: a chain of policies admits what all of them admit,
      in order ([Admit_exact]); the category policy and the selected options are
      checked exactly ([validateCategory_exact],
      [ValidateSelectedOptions_exact]); a refused read reveals nothing
      ([forbidden_reveals_nothing]).
    - C12, C26, C38, C39: the durable store. Work survives everything but its
      own acknowledgement, also through the manager ([effect_keeps_work]);
      [Ready] offers exactly
      what is due, in order; counters and indexes agree with the rows;
      publishing a snapshot ends and loses nothing.
    - C14 to C17: cycles and orders of categories, the bounded walk, idempotent
      reconciliation; further, children before status
      ([children_before_status]).
    - C19: pages list everything once.
    - C22, C37: the journal in the database. What is published is one gapless
      log under every interleaving of writers, lost replies and expiring rows,
      as long as no writer publishes the row of another lease; an append that
      returns is in the log. [append_may_publish_nothing] is the race in which
      that condition fails; [stale_lease_fenced] is the journal in memory.
    - C3, C20, C24: the change streams. Watchers mirror the committed
      namespaces; no change is skipped by a restart at any point; the next
      change is never refused as out of order. Further theorems: changes are
      published in order ([published_in_order]), events replay to the rows
      ([classified_replays]), and the images of a record are paired by their
      UIDs ([catalogChanges_paired]).
    - C21, C23, C32: watches. What a watch sends is exactly the log, and it
      never ends in silence; no wake-up of the shared poller is lost; a filtered
      watch mirrors what is stored. Further theorems: [watch_gapless] for
      readers without the poller, [ParseCursor_EncodeCursor].
    - C18, C25: credentials. Assertions are used once, on every store with the
      contract of [ReplayStore]; a session that was refreshed or logged out stays
      over, when calls are shorter than two minutes less the grace period for
      refreshing: [long_grace_revives] shows what a longer period allows. Further
      theorems: an assertion proves the possession of an enrolled key
      ([assertion_proves_possession]); access tokens end with their account or
      revocation ([access_token_sound], [revoked_access_token]) and are issued
      within bounds ([issued_within_bounds]); a name is one account
      ([account_by_name]), keys change from the version seen
      ([key_update_exact]).
    - Statuses and subjects: [deletion_intent_kept], [owner_subject_roundtrip],
      [ServiceAccountSubject_roundtrip] and [version_advances_once].
    - C27 to C30: the in-memory datastore. Names identify, no update is lost,
      the reverse index answers for the references, deletion is final; further,
      memberships are exact ([membership_replaced]).
      [mark_leaves_stale_dependents] is a listing that goes stale.
    - C33, C35, C36: identities, the evaluator decides exactly by the policy,
      reloads keep active users in; further, patterns of actions are expanded
      exactly ([ExpandActions_correct]). [effective_permission_hollow] is a
      check that can be fooled.
    - C40: the bounds on operations are enforced exactly, on cyclic documents
      too.

    ** Fuel

    Loops that are not structural take fuel and the theorems show that it is
    enough: the depth-first searches of [CategoryGraph] get two more than the
    number of categories, as every nested call blackens or greys a new one;
    [boundedHierarchy] stops at 128 names itself; [scanWord] gets 65, one more
    than the bits of a word; following cursors gets the number of items;
    [deletePages] and [mergePages] get one more than the rows of the database,
    as each page but the last holds a row; [GraphqlLimits.walk] gets two more
    than the budget of visits, as each selection costs one. C14 to C16, C19,
    C39 and C40 state that a result is returned.

    ** What is assumed

    LevelDB: a batch is written entirely or not at all, iterators follow the
    order of bytes, and a write that reports an error has not happened.
    go-memdb: the laws of [MemTable], proved of finite maps. golang-jwt: parsing
    gives the claims of the text, checks signature, expiry, issuer and audience
    ([Jwt], with an instance); tokens with one identifier share their expiry.
    encoding/json and base64: the laws of [DiskCodecLaws] and of the codecs of
    each file, each with an instance. ScyllaDB: a conditional statement is
    atomic; a request that fails may or may not have been applied; rows outlive
    the calls that read them. Its change streams deliver a stream in order, a
    window that was read stays as it is, and records of a stream have distinct
    times. Wall clocks do not go back. The clock of a store is positive and
    below 2^62 nanoseconds, the delay of a requeue below 2^63.

    ** Not modelled

    The ScyllaDB backend apart from the journal and the change streams, the
    GraphQL resolvers and the generated schema code, the gRPC services, Git over
    HTTP and the Git service are calls to other systems or generated glue;
    validation of manifests goes through third-party parsers; the OpenID Connect
    provider through an identity provider; the rest of the middleware is
    net/http. Left out of the modelled parts: metrics and logging, the editing
    of the file of users, and changes of the generation of the change streams.
    Backoff delays are not modelled; the server of the runner is a history of
    changes whose watches deliver it in order. *)

From stdpp Require Export base gmap sets list strings.
From stdpp Require Export option numbers relations.
From Stdlib Require Export ZArith Lia.
From Stdlib Require Import Ascii.

(** ** Outcomes of fallible Go code

    A Go function returning [(T, error)] is a function into [result]: the
    error value is an element of the component's own error type. *)

Inductive result (E A : Type) : Type :=
| Ok (a : A)
| Err (e : E).
Arguments Ok {E A} a.
Arguments Err {E A} e.

Definition bind_result {E A B} (r : result E A) (k : A → result E B) : result E B :=
  match r with
  | Ok a => k a
  | Err e => Err e
  end.

Declare Scope go_scope.
Delimit Scope go_scope with go.
Notation "'let!' x := r 'in' k" := (bind_result r (λ x, k))
  (at level 10, x pattern, r at level 100, k at level 200) : go_scope.

#[global] Instance result_eq_dec {E A} `{EqDecision E, EqDecision A} :
  EqDecision (result E A).
Proof. solve_decision. Defined.

Definition is_ok {E A} (r : result E A) : bool :=
  match r with Ok _ => true | Err _ => false end.

(** ** Tactics *)

(** Split every conjunction and existential of the context. *)
Ltac split_hyps :=
  repeat match goal with
  | H : _ ∧ _ |- _ => destruct H
  | H : ∃ _, _ |- _ => destruct H
  end.

(** Case on the scrutinee of a [match] in the goal or the context, keeping
    its equation, and close the contradictory branches. *)
Ltac case_goal :=
  match goal with
  | |- context [match ?x with _ => _ end] => destruct x eqn:?; simplify_eq/=
  end.
Ltac case_hyp H :=
  match type of H with
  | context [match ?x with _ => _ end] => destruct x eqn:?; simplify_eq/=
  end.

(** Membership goals that need to know whether the element is [k]. *)
Ltac set_cases k :=
  let k' := fresh "k'" in
  intros k'; destruct (decide (k' = k)) as [->|]; set_solver.

(** ** Hint databases

    [gitstore] holds the lemmas that close the routine side conditions. *)
Create HintDb gitstore.

(** ** Lists *)

Section lists.
Context {A : Type}.
Implicit Types l : list A.

Lemma NoDup_snoc l x : NoDup (l ++ [x]) ↔ (x ∉ l ∧ NoDup l).
Proof.
  rewrite NoDup_app. split.
  - intros (Hl & Hd & _). split; [|done]. intros Hx. apply (Hd x Hx). by left.
  - intros [Hx Hl]. split_and!; [done| |apply NoDup_singleton].
    intros y Hy Hy'. apply list_elem_of_singleton in Hy'. by subst.
Qed.

Lemma filter_all (P : A → Prop) `{∀ x, Decision (P x)} l : Forall P l → filter P l = l.
Proof. induction 1; [done|]. rewrite filter_cons_True by done. by f_equal. Qed.
Lemma filter_none (P : A → Prop) `{∀ x, Decision (P x)} l :
  Forall (λ x, ¬ P x) l → filter P l = [].
Proof. induction 1; [done|]. by rewrite filter_cons_False. Qed.
End lists.

(** ** Strings

    Go compares strings byte by byte, which is [String.compare]. *)

Definition str_le (a b : string) : Prop := String.leb a b = true.
#[global] Instance str_le_dec a b : Decision (str_le a b).
Proof. unfold str_le. apply _. Defined.

Lemma str_compare_refl a : String.compare a a = Eq.
Proof.
  pose proof (String.compare_antisym a a) as H. by destruct (String.compare a a).
Qed.

Lemma str_compare_trans_lt : ∀ a b c,
  String.compare a b = Lt → String.compare b c = Lt → String.compare a c = Lt.
Proof.
  induction a as [|x a IH]; intros [|y b] [|z c]; simpl; try done.
  unfold Ascii.compare. intros H1 H2.
  destruct (N.compare_spec (Ascii.N_of_ascii x) (Ascii.N_of_ascii y)) as [E1|L1|?]; [| |done];
    destruct (N.compare_spec (Ascii.N_of_ascii y) (Ascii.N_of_ascii z)) as [E2|L2|?]; try done.
  - rewrite E1, E2, N.compare_refl. by eapply IH.
  - by rewrite E1, (proj2 (N.compare_lt_iff _ _) L2).
  - by rewrite <- E2, (proj2 (N.compare_lt_iff _ _) L1).
  - by rewrite (proj2 (N.compare_lt_iff _ _) (N.lt_trans _ _ _ L1 L2)).
Qed.

Lemma str_le_not_lt a b : String.le a b → String.compare b a = Lt → False.
Proof.
  unfold String.le, String.leb. rewrite (String.compare_antisym a b).
  by destruct (String.compare b a).
Qed.
Lemma str_app_cons c a b : String c a +:+ b = String c (a +:+ b).
Proof. done. Qed.
Lemma str_app_assoc a b c : (a +:+ b) +:+ c = a +:+ (b +:+ c).
Proof. induction a as [|? a IH]; [done|]. by rewrite !str_app_cons, IH. Qed.
Lemma str_length_app a b : String.length (a +:+ b) = String.length a + String.length b.
Proof. induction a as [|? a IH]; [done|]. rewrite str_app_cons. simpl. by rewrite IH. Qed.
(** Two concatenations agree only part by part when the first parts have the
    same length, or the second parts are preceded by a character the first
    parts do not hold. *)
Lemma str_app_inj_len a b x y :
  String.length a = String.length b → a +:+ x = b +:+ y → a = b ∧ x = y.
Proof.
  revert b. induction a as [|c a IH]; intros [|d b]; try done.
  intros [= Hl]. rewrite !str_app_cons. intros [= -> H]. destruct (IH b Hl H) as [-> ->]. done.
Qed.

(** [strings.Cut] at a character; [strings.SplitN] with at most three parts. *)
Fixpoint cut (sep : Ascii.ascii) (s : string) : option (string * string) :=
  match s with
  | EmptyString => None
  | String c s => if bool_decide (c = sep) then Some (EmptyString, s)
                  else '(a, b) ← cut sep s; Some (String c a, b)
  end.
Definition splitN3 (sep : Ascii.ascii) (s : string) : list string :=
  match cut sep s with
  | None => [s]
  | Some (a, r) => match cut sep r with
                   | None => [a; r]
                   | Some (b, c) => [a; b; c]
                   end
  end.

Fixpoint hasChar (sep : Ascii.ascii) (s : string) : bool :=
  match s with
  | EmptyString => false
  | String c s => bool_decide (c = sep) || hasChar sep s
  end.

Lemma cut_app sep a b : hasChar sep a = false → cut sep (a +:+ String sep b) = Some (a, b).
Proof.
  induction a as [|c a IH]; simpl.
  - by rewrite bool_decide_eq_true_2.
  - intros [Hc Ha]%orb_false_iff. rewrite Hc. by rewrite (IH Ha).
Qed.

Lemma cut_inj sep a b x y :
  hasChar sep a = false → hasChar sep b = false →
  a +:+ String sep x = b +:+ String sep y → a = b ∧ x = y.
Proof.
  intros Ha Hb E. pose proof (cut_app sep a x Ha) as H.
  rewrite E, (cut_app sep b y Hb) in H. by simplify_eq.
Qed.
Lemma hasChar_app sep a b : hasChar sep (a +:+ b) = hasChar sep a || hasChar sep b.
Proof. induction a as [|c a IH]; [done|]. rewrite str_app_cons. simpl. by rewrite IH, orb_assoc. Qed.

(** A text for every positive number, and so for every value of a [Countable]
    type: the concrete codecs of the examples. *)
Fixpoint bitText (p : positive) : string :=
  match p with
  | xH => "."
  | xO p => String "0"%char (bitText p)
  | xI p => String "1"%char (bitText p)
  end.
Fixpoint bitRead (s : string) : option positive :=
  match s with
  | EmptyString => None
  | String "."%char EmptyString => Some xH
  | String "0"%char s => xO <$> bitRead s
  | String "1"%char s => xI <$> bitRead s
  | String _ _ => None
  end.
Lemma bitRead_bitText p : bitRead (bitText p) = Some p.
Proof. induction p as [p IH|p IH|]; simpl; rewrite ?IH; done. Qed.

Lemma bitText_chars p : hasChar "|" (bitText p) = false.
Proof. by induction p. Qed.

(** ** Maps *)

(** Setting or clearing one key changes the number of entries with a property
    by what the old and the new entry contribute. *)
Section map_counts.
Context `{Countable K} {A : Type} (P : K * A → Prop) `{!∀ x, Decision (P x)}.
Definition counts (i : K) (o : option A) : Z :=
  match o with Some x => if decide (P (i, x)) then 1 else 0 | None => 0 end.
Lemma size_filter_delete (m : gmap K A) i :
  Z.of_nat (size (filter P (delete i m))) =
    (Z.of_nat (size (filter P m)) - counts i (m !! i))%Z.
Proof.
  rewrite map_filter_delete. destruct (filter P m !! i) as [x|] eqn:Hx.
  - rewrite map_size_delete_Some by eauto.
    assert (size (filter P m) ≠ 0) by (apply map_size_ne_0_lookup; eauto).
    apply map_lookup_filter_Some in Hx as [-> Hx]. simpl. rewrite decide_True by done. lia.
  - rewrite map_size_delete_None by done.
    assert (counts i (m !! i) = 0%Z) as ->; [|lia].
    unfold counts. destruct (m !! i) as [y|] eqn:Hy; [|done]. apply decide_False.
    intros Hp. assert (filter P m !! i = Some y) by (by apply map_lookup_filter_Some). congruence.
Qed.
Lemma size_filter_insert (m : gmap K A) i x :
  Z.of_nat (size (filter P (<[i := x]> m))) =
    (Z.of_nat (size (filter P m)) - counts i (m !! i) + counts i (Some x))%Z.
Proof.
  rewrite <- size_filter_delete, <- insert_delete_eq. simpl. destruct (decide (P (i, x))).
  - rewrite map_filter_insert_True, map_size_insert_None; [lia| |done].
    apply map_lookup_filter_None. left. apply lookup_delete_eq.
  - rewrite map_filter_insert_False, delete_delete_eq by done. lia.
Qed.
Lemma size_filter_alter (m : gmap K A) i o :
  Z.of_nat (size (filter P (partial_alter (λ _, o) i m))) =
    (Z.of_nat (size (filter P m)) - counts i (m !! i) + counts i o)%Z.
Proof.
  destruct o; [apply size_filter_insert|]. rewrite Z.add_0_r. apply size_filter_delete.
Qed.
End map_counts.
Lemma size_alter `{Countable K} {A} (m : gmap K A) i o :
  Z.of_nat (size (partial_alter (λ _, o) i m)) =
    (Z.of_nat (size m) - (if m !! i then 1 else 0) + (if o then 1 else 0))%Z.
Proof.
  destruct o as [x|]; [change (partial_alter _ i m) with (<[i := x]> m)
                      |change (partial_alter _ i m) with (delete i m)].
  - rewrite map_size_insert. destruct (m !! i); simpl; lia.
  - rewrite map_size_delete. destruct (m !! i) eqn:E; simpl; [|lia].
    assert (size m ≠ 0) by (apply map_size_ne_0_lookup; eauto). lia.
Qed.

(** ** Machine integers *)

(** Arithmetic on [uint64]. *)
Definition u64 (z : Z) : Z := (z mod 2 ^ 64)%Z.
Lemma u64_small z : (0 ≤ z < 2 ^ 64)%Z → u64 z = z.
Proof. apply Z.mod_small. Qed.
Lemma u64_range z : (0 ≤ u64 z < 2 ^ 64)%Z.
Proof. unfold u64. apply Z.mod_pos_bound. lia. Qed.

(** ** Transition systems *)

(** An invariant of the steps holds of every reachable state. *)
Lemma rtc_preserves {A} (R : relation A) (P : A → Prop) :
  (∀ x y, P x → R x y → P y) → ∀ x y, rtc R x y → P x → P y.
Proof. induction 2; eauto. Qed.
