(* ===== verification/WorkTypes.v ===== *)
(** * Work items of the controller manager

    The shared primitives of [gitstore-controller-manager/internal/types]:
    the identity of a reconciliation work item and the sealed result type a
    reconciler returns. *)

From S2P Require Import Prelude.

(** [types.WorkItemKey]: the identity of a work item. *)
Record WorkItemKey : Type := mkKey {
  Kind : string;
  Namespace : string;
  Name : string;
}.

#[global] Instance WorkItemKey_eq_dec : EqDecision WorkItemKey.
Proof. solve_decision. Defined.

#[global] Program Instance WorkItemKey_countable : Countable WorkItemKey :=
  inj_countable' (λ k, (Kind k, Namespace k, Name k))
                 (λ t, mkKey t.1.1 t.1.2 t.2) _.
Next Obligation. by intros []. Qed.

(** ** Errors

    The sentinel errors of [types.go], with [checkpoint.ErrSnapshotInProgress].
    A Go error is a sentinel, an opaque error known by its message, an error
    that wraps another one ([fmt.Errorf] with a [%w] verb, a struct with an
    [Unwrap] method), or two errors joined by [errors.Join]. *)
Inductive Sentinel : Type :=
| ErrNotFound
| ErrQueueShutdown
| ErrKindNotRegistered
| ErrConflict
| ErrRateLimited
| ErrCredentialsUnavailable
| ErrSnapshotInProgress.

#[global] Instance Sentinel_eq_dec : EqDecision Sentinel.
Proof. solve_decision. Defined.

Inductive Error : Type :=
| ESentinel (s : Sentinel)
| EOpaque (msg : string)
| EWrap (msg : string) (cause : Error)
| EJoin (first second : Error)
| EPermanent (cause : Error) (* [backoff.PermanentError] *)
| EPanic (value : string) (* [manager.PanicError] *)
| ETerminalDuringRetry (cause : Error) (* [manager.terminalDuringRetryError] *)
| ERequeueDuringRetry (after : Z) (* [manager.requeueDuringRetryError] *).

#[global] Instance Error_eq_dec : EqDecision Error.
Proof. solve_decision. Defined.

(** The text of a sentinel, as [errors.New] was given it. *)
Definition sentinelText (s : Sentinel) : string :=
  match s with
  | ErrNotFound => "not found"
  | ErrQueueShutdown => "queue is shutting down"
  | ErrKindNotRegistered => "kind not registered"
  | ErrConflict => "optimistic concurrency conflict"
  | ErrRateLimited => "remote API rate limited request"
  | ErrCredentialsUnavailable => "controller credentials unavailable"
  | ErrSnapshotInProgress => "checkpoint: snapshot recovery is in progress"
  end.

(** [err.Error()]; an error made by [fmt.Errorf] carries its whole text. *)
Fixpoint ErrorText (e : Error) : string :=
  match e with
  | ESentinel s => sentinelText s
  | EOpaque m | EWrap m _ => m
  | EPermanent c | ETerminalDuringRetry c => ErrorText c
  | EPanic v => "reconciler panic: " +:+ v
  | ERequeueDuringRetry _ => "reconciliation deferred during retry"
  | EJoin a b => ErrorText a +:+ String (Ascii.ascii_of_nat 10) (ErrorText b)
  end.

(** [errors.Unwrap]. *)
Definition Unwrap (e : Error) : option Error :=
  match e with
  | EWrap _ c | EPermanent c | ETerminalDuringRetry c => Some c
  | _ => None
  end.

(** [errors.Is(err, sentinel)]: the unwrap chain holds the sentinel. *)
Fixpoint errorsIs (e : Error) (s : Sentinel) : bool :=
  match e with
  | ESentinel s' => bool_decide (s' = s)
  | EWrap _ c | EPermanent c | ETerminalDuringRetry c => errorsIs c s
  | EJoin a b => errorsIs a s || errorsIs b s
  | _ => false
  end.

(** [errors.As] at the two error types the manager looks for, and at the
    backoff library's permanent error. *)
Fixpoint asTerminal (e : Error) : option Error :=
  match e with
  | ETerminalDuringRetry c => Some c
  | EWrap _ c | EPermanent c => asTerminal c
  | EJoin a b => match asTerminal a with Some c => Some c | None => asTerminal b end
  | _ => None
  end.
Fixpoint asRequeue (e : Error) : option Z :=
  match e with
  | ERequeueDuringRetry d => Some d
  | EWrap _ c | EPermanent c | ETerminalDuringRetry c => asRequeue c
  | EJoin a b => match asRequeue a with Some d => Some d | None => asRequeue b end
  | _ => None
  end.
Fixpoint asPermanent (e : Error) : bool :=
  match e with
  | EPermanent _ => true
  | EWrap _ c | ETerminalDuringRetry c => asPermanent c
  | EJoin a b => asPermanent a || asPermanent b
  | _ => false
  end.
Fixpoint asPanic (e : Error) : bool :=
  match e with
  | EPanic _ => true
  | EWrap _ c | EPermanent c | ETerminalDuringRetry c => asPanic c
  | EJoin a b => asPanic a || asPanic b
  | _ => false
  end.

(** ** Reconcile results

    [time.Duration] is an [int64] count of nanoseconds, a [Z] here. [Err] of a
    [TransientFailure] may be nil. *)
Inductive ReconcileResult : Type :=
| Success
| RequeueAfter (After : Z)
| TransientFailure (TErr : option Error) (BackoffHint : Z)
| TerminalFailure (FErr : Error).

Definition errIs (e : option Error) (s : Sentinel) : bool :=
  match e with Some e => errorsIs e s | None => false end.

(** [time.Second], in nanoseconds. *)
Definition second : Z := 1000000000.
Definition millisecond : Z := 1000000.
Definition minute : Z := 60 * second.

(** ** Durable work: data and the interface the manager uses

    The records of [checkpoint/filesystem.go] and the operations of
    [checkpoint.DiskStore] the dispatcher calls, as an interface: the manager
    is verified against it, and [DiskManager] has the store as an instance. *)


(** Rows in a page of the store. *)
Definition DiskPageItems : Z := 256.

(** A stored projection of a resource, with the relation groups it is a member
    of and the owners to reconcile when the memberships change. The value is a
    [json.RawMessage], its bytes. *)
Record DiskItem : Type := mkItem {
  i_Key : WorkItemKey;
  i_Version : string;
  i_Value : string;
  i_Indexes : list string;
  i_Related : list WorkItemKey;
  i_RelatedVersion : string;
}.
Record DiskWork : Type := mkWork { w_Key : WorkItemKey; w_Token : Z; w_Cursor : string }.
(** [d_QuarantinedAt] is 0 for the zero time. *)
Record DiskSchedule : Type := mkSchedule {
  d_Token : Z;
  d_Due : Z;
  d_Priority : Z;
  d_Attempts : Z;
  d_LastError : string;
  d_QuarantinedAt : Z;
}.
Record DiskPoison : Type := mkDiskPoison { dp_Key : WorkItemKey; dp_Schedule : DiskSchedule }.
Record DiskCounts : Type := mkCounts { c_Pending : Z; c_Poison : Z }.

#[global] Instance DiskItem_eq_dec : EqDecision DiskItem.
Proof. solve_decision. Defined.
#[global] Instance DiskSchedule_eq_dec : EqDecision DiskSchedule.
Proof. solve_decision. Defined.
#[global] Instance DiskWork_eq_dec : EqDecision DiskWork.
Proof. solve_decision. Defined.

(** [item] as [var item DiskItem] leaves it. *)
Definition zeroItem : DiskItem := mkItem (mkKey "" "" "") "" "" [] [] "".

(** [D] is the state of the store; a token is the lease a worker took an item
    under. *)
Class DurableWork (D : Type) : Type := {
  dw_Enqueue : WorkItemKey → D → option Error * D;
  dw_Acknowledge : WorkItemKey → Z → D → option Error * D;
  dw_DeferWork : WorkItemKey → Z → Z → string → Z → D → option Error * D;
  dw_WorkSchedule : WorkItemKey → D → result Error DiskSchedule;
  dw_Ready : Z → D → result Error (list DiskWork);
}.
