(* ===== verification/Queue.v ===== *)
(** * The deduplicating work queue

    [gitstore-controller-manager/internal/queue/queue.go]: a FIFO of keys with
    the dirty/processing/queue sets, its operations, the invariant they keep,
    and the abstract queue they implement. *)

From S2P Require Import Prelude WorkTypes.

(** [Queue]: the mutex and the condition variable have no counterpart, since
    every operation below is one critical section. [q_stopped] is [stopCtx]
    being cancelled, which [ShutDown] does before it takes the lock. *)
Record Queue : Type := mkQueue {
  q_queue : list WorkItemKey;
  q_dirty : gset WorkItemKey;
  q_processing : gset WorkItemKey;
  q_shutdown : bool;
  q_stopped : bool;
}.

(** [New]: the limiter is built there and is an argument of [Enqueue] here. *)
Definition New : Queue := mkQueue [] ∅ ∅ false false.

Definition set_queue (q : Queue) (l : list WorkItemKey) : Queue :=
  mkQueue l (q_dirty q) (q_processing q) (q_shutdown q) (q_stopped q).
Definition set_dirty (q : Queue) (d : gset WorkItemKey) : Queue :=
  mkQueue (q_queue q) d (q_processing q) (q_shutdown q) (q_stopped q).
Definition set_processing (q : Queue) (p : gset WorkItemKey) : Queue :=
  mkQueue (q_queue q) (q_dirty q) p (q_shutdown q) (q_stopped q).

(** [Enqueue] after the rate limiter answered [wait]: [limiter.Wait(stopCtx)]
    returned nil ([true]) or an error ([false]). *)
Definition Enqueue (q : Queue) (wait : bool) (key : WorkItemKey)
  : option Sentinel * Queue :=
  if negb wait then (Some ErrQueueShutdown, q) else
  if q_shutdown q then (Some ErrQueueShutdown, q) else
  if bool_decide (key ∈ q_dirty q) then (None, q) else
  let q := set_dirty q ({[key]} ∪ q_dirty q) in
  if bool_decide (key ∈ q_processing q) then (None, q) else
  (None, set_queue q (q_queue q ++ [key])).

(** [Dequeue]: [None] when the caller stays blocked in [cond.Wait]; otherwise
    the returned key and shutdown flag, with the new state. *)
Definition Dequeue (q : Queue) : option ((WorkItemKey * bool) * Queue) :=
  match q_queue q with
  | [] => if q_shutdown q then Some ((mkKey "" "" "", true), q) else None
  | key :: rest =>
      let q := set_queue q rest in
      let q := set_dirty q (q_dirty q ∖ {[key]}) in
      Some ((key, false), set_processing q ({[key]} ∪ q_processing q))
  end.

Definition Done (q : Queue) (key : WorkItemKey) : Queue :=
  let q := set_processing q (q_processing q ∖ {[key]}) in
  if bool_decide (key ∈ q_dirty q) then set_queue q (q_queue q ++ [key]) else q.

Definition Len (q : Queue) : nat := length (q_queue q).

(** [ShutDown] cancels [stopCtx], then closes the queue under the lock: two
    steps an enqueuer can fall between. *)
Definition stopCancel (q : Queue) : Queue :=
  mkQueue (q_queue q) (q_dirty q) (q_processing q) (q_shutdown q) true.
Definition closeQueue (q : Queue) : Queue :=
  mkQueue (q_queue q) (q_dirty q) (q_processing q) true (q_stopped q).
Definition ShutDown (q : Queue) : Queue := closeQueue (stopCancel q).

Definition ShuttingDown (q : Queue) : bool := q_shutdown q.

Definition Forget (q : Queue) (key : WorkItemKey) : Queue :=
  set_dirty q (q_dirty q ∖ {[key]}).

(** [RateLimitedEnqueue]: the limiter is consulted here first ([wait1], an
    error being the limiter's own), then again by [Enqueue] ([wait2]). *)
Definition RateLimitedEnqueue (q : Queue) (wait1 : option Error) (wait2 : bool)
    (key : WorkItemKey) : option Error * Queue :=
  match wait1 with
  | Some e => (Some e, q)
  | None => let (e, q) := Enqueue q wait2 key in (ESentinel <$> e, q)
  end.

(** ** Well-formedness

    The queue holds, once each, the keys that are dirty and not being
    processed. *)
Record wf (q : Queue) : Prop := {
  wf_nodup : NoDup (q_queue q);
  wf_queue : ∀ k, k ∈ q_queue q ↔ (k ∈ q_dirty q ∧ k ∉ q_processing q);
}.

Ltac queue_unfold :=
  unfold Enqueue, Dequeue, Done, Forget, ShutDown, closeQueue, stopCancel,
    set_queue, set_dirty, set_processing in *; simpl in *.

Lemma wf_New : wf New.
Proof. split; [constructor | set_solver]. Qed.

Lemma wf_Enqueue q w k : wf q → wf (Enqueue q w k).2.
Proof.
  intros [Hnd Hq]. queue_unfold.
  destruct w, (q_shutdown q); simpl; [by split..| |by split|by split].
  repeat case_bool_decide; simpl; split; simpl; try done.
  - set_solver.
  - apply NoDup_snoc. set_solver.
  - set_solver.
Qed.

Lemma wf_Dequeue q r q' : wf q → Dequeue q = Some (r, q') → wf q'.
Proof.
  intros [Hnd Hq] Hd. queue_unfold.
  destruct (q_queue q) as [|k l] eqn:E; [by case_hyp Hd; split; rewrite ?E|].
  simplify_eq. apply NoDup_cons in Hnd as [Hk Hnd].
  split; simpl; [done|]. set_solver.
Qed.

Lemma wf_Done q k : k ∈ q_processing q → wf q → wf (Done q k).
Proof.
  intros Hp [Hnd Hq]. queue_unfold. case_bool_decide; split; simpl; try done.
  - apply NoDup_snoc. set_solver.
  - set_cases k.
  - set_cases k.
Qed.

Lemma wf_Forget q k : k ∈ q_processing q → wf q → wf (Forget q k).
Proof. intros Hp [Hnd Hq]. queue_unfold. split; simpl; [done|]. set_solver. Qed.

#[export] Hint Resolve wf_New wf_Enqueue wf_Dequeue wf_Done wf_Forget : gitstore.

(** ** Enqueuers and workers

    The queue shared by any number of goroutines: the keys the workers hold,
    and one step per critical section. A worker calls [Forget] and [Done] only
    for a key it holds, as [Manager.dispatch] does. *)
Record Sys : Type := mkSys { s_q : Queue; s_held : list WorkItemKey }.

Inductive Label : Type :=
| LEnqueue (key : WorkItemKey) (err : option Sentinel)
| LDequeue (key : WorkItemKey) (shutdown : bool)
| LDone (key : WorkItemKey)
| LForget (key : WorkItemKey)
| LStop
| LClose.

Inductive step : Sys → Label → Sys → Prop :=
| step_enqueue q h w k e q' :
    Enqueue q w k = (e, q') → step (mkSys q h) (LEnqueue k e) (mkSys q' h)
| step_dequeue q h k q' :
    Dequeue q = Some ((k, false), q') →
    step (mkSys q h) (LDequeue k false) (mkSys q' (k :: h))
| step_dequeue_shutdown q h k q' :
    Dequeue q = Some ((k, true), q') →
    step (mkSys q h) (LDequeue k true) (mkSys q' h)
| step_done q h1 k h2 :
    step (mkSys q (h1 ++ k :: h2)) (LDone k) (mkSys (Done q k) (h1 ++ h2))
| step_forget q h k :
    k ∈ h → step (mkSys q h) (LForget k) (mkSys (Forget q k) h)
| step_stop q h : step (mkSys q h) LStop (mkSys (stopCancel q) h)
| step_close q h : step (mkSys q h) LClose (mkSys (closeQueue q) h).

Inductive run : Sys → list Label → Sys → Prop :=
| run_nil s : run s [] s
| run_cons s l s' ls s'' : step s l s' → run s' ls s'' → run s (l :: ls) s''.

Record inv (s : Sys) : Prop := {
  inv_wf : wf (s_q s);
  inv_held : ∀ k, k ∈ s_held s ↔ k ∈ q_processing (s_q s);
  inv_once : NoDup (s_held s);
}.

Lemma inv_init : inv (mkSys New []).
Proof. split; simpl; [eauto with gitstore|set_solver|constructor]. Qed.

(** What [Dequeue] did when it returned. *)
Lemma Dequeue_key q k q' :
  Dequeue q = Some ((k, false), q') →
  ∃ l, q_queue q = k :: l ∧ q_queue q' = l ∧ q_shutdown q' = q_shutdown q ∧
    q_dirty q' = q_dirty q ∖ {[k]} ∧ q_processing q' = {[k]} ∪ q_processing q.
Proof.
  queue_unfold. destruct (q_queue q) as [|k' l]; [by destruct (q_shutdown q)|].
  intros ?; simplify_eq/=. eauto 10.
Qed.

Lemma Dequeue_stop q k q' :
  Dequeue q = Some ((k, true), q') →
  q_queue q = [] ∧ q_shutdown q = true ∧ q' = q ∧ k = mkKey "" "" "".
Proof.
  queue_unfold. destruct (q_queue q); [|done].
  destruct (q_shutdown q); intros ?; by simplify_eq/=.
Qed.

Lemma step_inv s l s' : inv s → step s l s' → inv s'.
Proof.
  intros [Hwf Hheld Hnd] Hs; destruct Hs; simpl in *.
  - assert (q_processing q' = q_processing q) as E
      by (queue_unfold; repeat case_match; simplify_eq/=; done).
    split; simpl; [|by rewrite E|done].
    replace q' with (Enqueue q w k).2 by (by rewrite H). eauto with gitstore.
  - destruct (Dequeue_key _ _ _ H) as (l & E & _ & _ & _ & Ep).
    assert (k ∉ h) as Hk.
    { rewrite Hheld. apply (wf_queue _ Hwf). rewrite E. by left. }
    split; simpl; [by eapply wf_Dequeue| |by constructor].
    intros k'. rewrite Ep. set_solver.
  - apply Dequeue_stop in H as (_ & _ & -> & _). by split.
  - apply NoDup_Permutation_proper with (y := k :: h1 ++ h2) in Hnd;
      [|by rewrite Permutation_middle].
    apply NoDup_cons in Hnd as [Hk Hnd].
    split; simpl; [apply wf_Done; [apply Hheld; set_solver|done]| |done].
    intros k'. assert (q_processing (Done q k) = q_processing q ∖ {[k]}) as ->
      by (queue_unfold; by case_bool_decide).
    rewrite elem_of_difference, not_elem_of_singleton, <- Hheld. clear Hwf Hheld Hnd.
    destruct (decide (k' = k)) as [->|]; set_solver.
  - split; simpl; [by apply wf_Forget; [apply Hheld|]|done|done].
  - by split; [destruct Hwf; constructor|..].
  - by split; [destruct Hwf; constructor|..].
Qed.

Lemma run_inv s ls s' : run s ls s' → inv s → inv s'.
Proof. induction 1; eauto using step_inv. Qed.

(** C1: in every interleaving of enqueuers, workers and shutdown from an empty
    queue, no key is held by two workers at a time, and the queue never lists
    a key twice or a key that is being processed. *)
Theorem no_concurrent_dispatch ls s :
  run (mkSys New []) ls s →
  NoDup (s_held s) ∧ NoDup (q_queue (s_q s)) ∧
  (∀ k, k ∈ s_held s → k ∉ q_queue (s_q s)).
Proof.
  intros Hr. destruct (run_inv _ _ _ Hr inv_init) as [[Hn Hq] Hh Hd].
  split_and!; [done..|]. set_solver.
Qed.

(** ** The abstract queue

    What the queue promises its clients: a set of pending keys and a set of
    running ones. Order, deduplication and the dirty set are invisible. *)
Record AQueue : Type := mkAQ {
  a_pending : gset WorkItemKey;
  a_running : gset WorkItemKey;
  a_closed : bool;
}.

Inductive astep : AQueue → Label → AQueue → Prop :=
| astep_enqueue P R k :
    astep (mkAQ P R false) (LEnqueue k None) (mkAQ ({[k]} ∪ P) R false)
| astep_enqueue_refused P R c k :
    astep (mkAQ P R c) (LEnqueue k (Some ErrQueueShutdown)) (mkAQ P R c)
| astep_dequeue P R c k :
    k ∈ P → k ∉ R →
    astep (mkAQ P R c) (LDequeue k false) (mkAQ (P ∖ {[k]}) ({[k]} ∪ R) c)
| astep_dequeue_closed P R k :
    P ⊆ R → astep (mkAQ P R true) (LDequeue k true) (mkAQ P R true)
| astep_done P R c k :
    k ∈ R → astep (mkAQ P R c) (LDone k) (mkAQ P (R ∖ {[k]}) c)
| astep_forget P R c k :
    k ∈ R → astep (mkAQ P R c) (LForget k) (mkAQ (P ∖ {[k]}) R c)
| astep_stop P R c : astep (mkAQ P R c) LStop (mkAQ P R c)
| astep_close P R c : astep (mkAQ P R c) LClose (mkAQ P R true).

Inductive arun : AQueue → list Label → AQueue → Prop :=
| arun_nil a : arun a [] a
| arun_cons a l a' ls a'' : astep a l a' → arun a' ls a'' → arun a (l :: ls) a''.

Definition abs (s : Sys) : AQueue :=
  mkAQ (q_dirty (s_q s)) (q_processing (s_q s)) (q_shutdown (s_q s)).

Lemma wf_blocked q : wf q → q_queue q = [] → q_dirty q ⊆ q_processing q.
Proof.
  intros [_ Hq] E k Hk. destruct (decide (k ∈ q_processing q)); [done|].
  exfalso. assert (k ∈ q_queue q) by (by apply Hq). rewrite E in *. set_solver.
Qed.

Lemma step_refines s l s' : inv s → step s l s' → astep (abs s) l (abs s').
Proof.
  intros [Hwf Hheld _] Hs; destruct Hs; unfold abs; simpl in *.
  - queue_unfold. destruct w; simplify_eq/=; [|constructor].
    destruct (q_shutdown q) eqn:E; simplify_eq/=; [rewrite E; constructor|].
    repeat case_bool_decide; simplify_eq/=; rewrite ?E; [|constructor..].
    replace (q_dirty q') with ({[k]} ∪ q_dirty q') at 2 by set_solver. constructor.
  - destruct (Dequeue_key _ _ _ H) as (l & E & _ & -> & -> & ->).
    constructor; apply (wf_queue _ Hwf); rewrite E; by left.
  - apply Dequeue_stop in H as (E & Hc & -> & _). rewrite Hc.
    constructor. by apply wf_blocked.
  - assert (k ∈ q_processing q) by (apply Hheld; set_solver).
    queue_unfold. case_bool_decide; by constructor.
  - constructor. by apply Hheld.
  - constructor.
  - constructor.
Qed.

(** C2: the queue implements the abstract queue. Every interleaving of
    enqueuers, workers and shutdown is, label by label, a run of the abstract
    queue: an accepted key stays pending until it is dispatched or forgotten,
    also when it was enqueued while being processed. *)
Theorem queue_refines ls s :
  run (mkSys New []) ls s → arun (mkAQ ∅ ∅ false) ls (abs s).
Proof.
  change (mkAQ ∅ ∅ false) with (abs (mkSys New [])).
  intros Hr. pose proof inv_init as Hi.
  induction Hr as [s|s l s' ls s'' Hs Hr IH]; [constructor|].
  econstructor; [by eapply step_refines|]. eauto using step_inv.
Qed.

(** A worker blocks in [Dequeue] exactly when the queue is open and every
    pending key is already running: no accepted key is stranded. *)
Theorem Dequeue_blocks_iff ls s :
  run (mkSys New []) ls s →
  Dequeue (s_q s) = None ↔
  a_closed (abs s) = false ∧ a_pending (abs s) ⊆ a_running (abs s).
Proof.
  intros Hr. destruct (run_inv _ _ _ Hr inv_init) as [Hwf _ _]. simpl.
  split.
  - unfold Dequeue. intros H. destruct (q_queue (s_q s)) eqn:E; [|done].
    destruct (q_shutdown (s_q s)); [done|]. split; [done|]. by apply wf_blocked.
  - intros [Hc Hs]. unfold Dequeue. rewrite Hc.
    destruct (q_queue (s_q s)) as [|k l] eqn:E; [done|].
    assert (k ∈ q_dirty (s_q s) ∧ k ∉ q_processing (s_q s)) as []
      by (apply (wf_queue _ Hwf); rewrite E; by left).
    set_solver.
Qed.

(** ** Order of dispatch *)

Definition dispatched (ls : list Label) : list WorkItemKey :=
  ls ≫= λ l, match l with LDequeue k false => [k] | _ => [] end.

(** A step takes the head, appends at the tail, or leaves the list alone. *)
Lemma step_fifo s l s' :
  step s l s' →
  ∃ new, q_queue (s_q s) ++ new = dispatched [l] ++ q_queue (s_q s').
Proof.
  intros Hs; destruct Hs; simpl.
  - queue_unfold. destruct w, (q_shutdown q); simplify_eq/=;
      try (by exists []; rewrite app_nil_r).
    repeat case_bool_decide; simplify_eq/=; try (by exists []; rewrite app_nil_r).
    by eexists.
  - destruct (Dequeue_key _ _ _ H) as (l & -> & -> & _).
    exists []. by rewrite app_nil_r.
  - apply Dequeue_stop in H as (_ & _ & -> & _). exists []. by rewrite app_nil_r.
  - queue_unfold. case_bool_decide; simpl; [by eexists|].
    exists []. by rewrite app_nil_r.
  - exists []. by rewrite app_nil_r.
  - exists []. by rewrite app_nil_r.
  - exists []. by rewrite app_nil_r.
Qed.

Lemma run_fifo s ls s' :
  run s ls s' → ∃ new, q_queue (s_q s) ++ new = dispatched ls ++ q_queue (s_q s').
Proof.
  induction 1 as [s|s l s' ls s'' Hs Hr [new' IH]].
  - exists []. by rewrite app_nil_r.
  - destruct (step_fifo _ _ _ Hs) as [new Hn].
    exists (new ++ new'). rewrite app_assoc, Hn, <- app_assoc, IH.
    unfold dispatched. cbn [mbind list_bind]. rewrite app_nil_r. by rewrite app_assoc.
Qed.

(** Dispatch is first come, first served. A key that waits at position [i]
    is the [i]-th key dispatched from then on, whatever is enqueued, finished
    or forgotten meanwhile: no key starves behind later arrivals. *)
Theorem dispatch_in_order s ls s' i k :
  run s ls s' → q_queue (s_q s) !! i = Some k → i < length (dispatched ls) →
  dispatched ls !! i = Some k.
Proof.
  intros Hr Hi Hlt. destruct (run_fifo _ _ _ Hr) as [new Hn].
  rewrite <- (lookup_app_l _ (q_queue (s_q s'))) by done.
  rewrite <- Hn. by apply lookup_app_l_Some.
Qed.

(** ** Concrete runs *)

Definition kA : WorkItemKey := mkKey "Product" "shop" "a".
Definition kB : WorkItemKey := mkKey "Product" "shop" "b".

(** Two keys, [kA] enqueued again while a worker holds it. *)
Definition trace1 : list Label :=
  [LEnqueue kA None; LEnqueue kB None; LDequeue kA false; LEnqueue kA None;
   LDone kA].
Definition state1 : Sys := mkSys (mkQueue [kB; kA] {[kA; kB]} ∅ false false) [].

Lemma run_trace1 : run (mkSys New []) trace1 state1.
Proof.
  unfold trace1, state1.
  eapply run_cons; [by apply (step_enqueue _ _ true)|].
  eapply run_cons; [by apply (step_enqueue _ _ true)|].
  eapply run_cons; [by apply step_dequeue|].
  eapply run_cons; [by apply (step_enqueue _ _ true)|].
  eapply run_cons; [by apply (step_done _ [] kA [])|].
  match goal with |- run ?s [] ?s' => replace s with s' by (by vm_compute) end.
  constructor.
Qed.

Lemma no_concurrent_dispatch_witness :
  NoDup (s_held state1) ∧ NoDup (q_queue (s_q state1)) ∧
  (∀ k, k ∈ s_held state1 → k ∉ q_queue (s_q state1)).
Proof. exact (no_concurrent_dispatch _ _ run_trace1). Defined.

Lemma queue_refines_witness :
  arun (mkAQ ∅ ∅ false) trace1 (mkAQ {[kA; kB]} ∅ false).
Proof. exact (queue_refines _ _ run_trace1). Defined.

Lemma Dequeue_blocks_iff_witness :
  Dequeue (s_q state1) = None ↔
  false = false ∧ ({[kA; kB]} : gset WorkItemKey) ⊆ ∅.
Proof. exact (Dequeue_blocks_iff _ _ run_trace1). Defined.

(** From [state1], [kB] was waiting at position 0 and is dispatched first. *)
Lemma dispatch_in_order_witness :
  ∃ s', run state1 [LDequeue kB false] s' ∧
        dispatched [LDequeue kB false] !! 0 = Some kB.
Proof.
  eexists. assert (Hr : run state1 [LDequeue kB false]
    (mkSys (mkQueue [kA] ({[kA; kB]} ∖ {[kB]}) ({[kB]} ∪ ∅) false false) [kB])).
  { eapply run_cons; [by apply step_dequeue|constructor]. }
  split; [exact Hr|].
  apply (dispatch_in_order _ _ _ 0 kB Hr); [reflexivity|simpl; lia].
Defined.
