(* ===== verification/Retry.v ===== *)
(** * Retry with backoff, and the quarantine store

    [gitstore-controller-manager/internal/retry]: [RunWithRetry] over the
    backoff library, and the store of poison items. *)

From S2P Require Import Prelude WorkTypes.

(** [Config]; the multiplier is a float the code only passes on. *)
Record Config : Type := mkConfig {
  MaxAttempts : Z;
  InitialInterval : Z;
  MaxInterval : Z;
}.

Inductive Result : Type := ResultOK | ResultQuarantine.

#[global] Instance Result_eq_dec : EqDecision Result.
Proof. solve_decision. Defined.

(** ** The backoff library

    [backoff.Retry] is third-party code: an operation of the world [W] that
    is given the first interval, the maximal one, the bound on tries and the
    function to retry, and yields the error it gives up with, the number of
    calls to the notify function, and the world it leaves. *)
Definition RetryFn (W : Type) : Type :=
  Z → Z → Z → (W → option Error * W) → W → (option Error * nat) * W.

Section retry.
Context {W : Type}.

(** One invocation of the retried function: world before, error, world after. *)
Definition Call : Type := (W * option Error) * W.
Definition call_of (fn : W → option Error * W) (c : Call) : Prop :=
  fn c.1.1 = (c.1.2, c.2).

(** What the library documents of [Retry] with [WithMaxTries] and
    [WithNotify]: it calls the function until it returns no error, returns a
    permanent error, the bound on tries is reached, or the backoff policy or
    the context ends the loop. The notify function is called before each wait,
    so once per failed call except the last, unless the context ended the last
    wait. The error it gives up with is the last call's, with the permanent
    wrapper removed or not, or the context's. [ctxErr] tells in which worlds
    the context is done. *)
Record retry_run (ctxErr : W → bool) (maxTries : Z) (fn : W → option Error * W)
    (out : (option Error * nat) * W) (before : list Call) (final : Call) : Prop := {
  rr_calls : Forall (call_of fn) (before ++ [final]);
  rr_before : Forall (λ c, ∃ e, c.1.2 = Some e ∧ asPermanent e = false) before;
  rr_tries : (0 < maxTries → Z.of_nat (length before) < maxTries)%Z;
  rr_notified : out.1.2 = length before ∨ ctxErr out.2 = true;
  rr_nil : final.1.2 = None ↔ out.1.1 = None;
  rr_err : ∀ e, out.1.1 = Some e →
    final.1.2 = Some e ∨ final.1.2 = Some (EPermanent e) ∨ ctxErr out.2 = true;
}.

Definition retry_spec (ctxErr : W → bool) (Retry : RetryFn W) : Prop :=
  ∀ i m maxTries fn w, ∃ before final,
    retry_run ctxErr maxTries fn (Retry i m maxTries fn w) before final.

(** [RunWithRetry]. [attempts] counts the calls to [notify]; the bound is
    passed to the library as an unsigned 64-bit integer. *)
Definition RunWithRetry (Retry : RetryFn W) (cfg : Config) (initialIntervalOverride : Z)
    (fn : W → option Error * W) (w : W) : (Result * Z * option Error) * W :=
  let initial := if (0 <? initialIntervalOverride)%Z
                 then initialIntervalOverride else InitialInterval cfg in
  let '((err, attempts), w) :=
    Retry initial (MaxInterval cfg) (MaxAttempts cfg mod 2 ^ 64)%Z fn w in
  match err with
  | Some e => ((ResultQuarantine, Z.of_nat attempts + 1, Some e)%Z, w)
  | None => ((ResultOK, Z.of_nat attempts + 1, None)%Z, w)
  end.

(** An instance of the library's contract: the loop without waiting. *)
Fixpoint retryLoop (tries : nat) (fn : W → option Error * W) (w : W)
  : (option Error * nat) * W :=
  match fn w with
  | (None, w) => ((None, 0), w)
  | (Some e, w) =>
      match tries with
      | S tries =>
          if asPermanent e then ((Some e, 0), w)
          else let '((err, n), w) := retryLoop tries fn w in ((err, S n), w)
      | 0 => ((Some e, 0), w)
      end
  end.
Definition simpleRetry : RetryFn W :=
  λ _ _ maxTries fn w, retryLoop (Z.to_nat (maxTries - 1)) fn w.

Lemma retryLoop_run ctxErr tries fn w :
  ∃ before final, length before ≤ tries ∧
    ∀ maxTries, (0 < maxTries → Z.of_nat tries < maxTries)%Z →
    retry_run ctxErr maxTries fn (retryLoop tries fn w) before final.
Proof.
  revert w; induction tries as [|tries IH]; intros w; simpl.
  - exists [], (w, (fn w).1, (fn w).2). split; [done|]. intros m Hm.
    destruct (fn w) as [[e|] w'] eqn:E; (split; simpl; [repeat constructor; done|..]);
      naive_solver.
  - destruct (fn w) as [[e|] w'] eqn:E.
    + destruct (asPermanent e) eqn:Ep.
      * exists [], (w, Some e, w'). split; [simpl; lia|]. intros m Hm.
        split; simpl; [repeat constructor; done|done|lia|by left|naive_solver..].
      * destruct (IH w') as (bef & fin & Hlen & Hrun).
        exists ((w, Some e, w') :: bef), fin. split; [simpl; lia|]. intros m Hm.
        destruct (Hrun (m - 1)%Z) as [Hc Hb Ht Hn Hnil He]; [lia|].
        destruct (retryLoop tries fn w') as [[err n] w''] eqn:El. simpl in *.
        split; simpl; [by constructor|constructor; eauto|lia|naive_solver..].
    + exists [], (w, None, w'). split; [simpl; lia|]. intros m Hm.
      split; simpl; [repeat constructor; done|done|lia|by left|naive_solver..].
Qed.

Lemma simpleRetry_spec ctxErr : retry_spec ctxErr simpleRetry.
Proof.
  intros i m maxTries fn w. unfold simpleRetry.
  destruct (retryLoop_run ctxErr (Z.to_nat (maxTries - 1)) fn w) as (b & f & _ & H).
  exists b, f. apply H. lia.
Qed.

End retry.

(** ** The quarantine store *)

(** [PoisonItem]; a zero [QuarantinedAt] is [time.Time]'s zero value. *)
Record PoisonItem : Type := mkPoison {
  p_Key : WorkItemKey;
  p_Attempts : Z;
  p_LastError : string;
  p_QuarantinedAt : Z;
}.

Definition QuarantineStore : Type := gmap WorkItemKey PoisonItem.
Definition NewQuarantineStore : gmap WorkItemKey PoisonItem := ∅.

(** [Put] stamps the item with the current time [now] unless it has one. *)
Definition Put (now : Z) (item : PoisonItem) (s : gmap WorkItemKey PoisonItem)
  : gmap WorkItemKey PoisonItem :=
  let item := if (p_QuarantinedAt item =? 0)%Z
              then mkPoison (p_Key item) (p_Attempts item) (p_LastError item) now
              else item in
  <[p_Key item := item]> s.

Definition Get (key : WorkItemKey) (s : gmap WorkItemKey PoisonItem) : option PoisonItem :=
  s !! key.
Definition Delete (key : WorkItemKey) (s : gmap WorkItemKey PoisonItem)
  : gmap WorkItemKey PoisonItem := delete key s.

(** [List]: Go iterates the map in an unspecified order; here the order is
    that of [map_to_list], and the callers that need one sort. *)
Definition ListPoison (kind : string) (s : gmap WorkItemKey PoisonItem) : list PoisonItem :=
  filter (λ item, kind = "" ∨ Kind (p_Key item) = kind) (map_to_list s).*2.
Definition LenPoison (s : gmap WorkItemKey PoisonItem) : nat := size s.

(** Every stored item sits under its own key. *)
Definition poison_wf (s : gmap WorkItemKey PoisonItem) : Prop :=
  ∀ k item, s !! k = Some item → p_Key item = k.

Lemma poison_wf_Put now item s : poison_wf s → poison_wf (Put now item s).
Proof.
  intros Hs k i. unfold Put. case_match; simpl; rewrite lookup_insert_Some;
    intros [[<- <-]|[_ ?]]; eauto.
Qed.

Lemma Put_lookup now item s :
  ∃ item', Put now item s !! p_Key item = Some item' ∧
    p_Key item' = p_Key item ∧ p_Attempts item' = p_Attempts item ∧
    p_LastError item' = p_LastError item.
Proof.
  unfold Put. case_match; simpl; rewrite lookup_insert_eq; eauto.
Qed.

Lemma elem_of_ListPoison kind s item :
  poison_wf s →
  item ∈ ListPoison kind s ↔
  s !! p_Key item = Some item ∧ (kind = "" ∨ Kind (p_Key item) = kind).
Proof.
  intros Hs. unfold ListPoison. rewrite list_elem_of_filter, list_elem_of_fmap.
  split.
  - intros [Hk [[k i] [-> Hin]]]. apply elem_of_map_to_list in Hin.
    split; [|done]. simpl in *. by rewrite (Hs _ _ Hin).
  - intros [Hin Hk]. split; [done|]. exists (p_Key item, item).
    by rewrite elem_of_map_to_list.
Qed.
