(* ===== verification/Cache.v ===== *)
(** * The informer cache

    [gitstore-controller-manager/internal/cache/cache.go]: the store that
    reconcilers read, the events that follow its mutations, and the recovery
    gate that keeps dispatches out while a snapshot is being replaced. *)

From S2P Require Import Prelude WorkTypes.

(** [RecoveryState]; times are nanoseconds, zero the zero [time.Time]. *)
Record RecoveryState : Type := mkRecovery {
  Recovering : bool;
  LastProgress : Z;
  CompletedAt : Z;
  Pages : Z;
  Rows : Z;
}.
Definition noRecovery : RecoveryState := mkRecovery false 0 0 0 0.

(** [EventHandler]: which of the three callbacks are set. *)
Record EventHandler : Type := mkHandler {
  OnAdd : bool;
  OnUpdate : bool;
  OnDelete : bool;
}.

Section cache.
Context {T : Type}.

(** A call to a callback of the handler registered at an index. *)
Inductive Event : Type :=
| Added (h : nat) (key : WorkItemKey) (obj : T)
| Updated (h : nat) (key : WorkItemKey) (oldObj newObj : T)
| Deleted (h : nat) (key : WorkItemKey) (obj : T).

(** [Cache], with the state of the recovery gate. The channel [drained] is
    kept by its identity: [c_drained] is the channel a waiter would get, and
    [c_closed] the channels that were closed. *)
Record Cache : Type := mkCache {
  c_store : gmap WorkItemKey T;
  c_handlers : list EventHandler;
  c_synced : bool;
  c_recovery : RecoveryState;
  c_dispatches : Z;
  c_drained : option nat;
  c_closed : gset nat;
  c_fresh : nat;
}.

Definition New : Cache := mkCache ∅ [] false noRecovery 0 None ∅ 0.

Definition set_store (c : Cache) (s : gmap WorkItemKey T) : Cache :=
  mkCache s (c_handlers c) (c_synced c) (c_recovery c) (c_dispatches c)
    (c_drained c) (c_closed c) (c_fresh c).
Definition set_recovery (c : Cache) (r : RecoveryState) : Cache :=
  mkCache (c_store c) (c_handlers c) (c_synced c) r (c_dispatches c)
    (c_drained c) (c_closed c) (c_fresh c).
Definition set_gate (c : Cache) (n : Z) (d : option nat) (cl : gset nat) (f : nat) : Cache :=
  mkCache (c_store c) (c_handlers c) (c_synced c) (c_recovery c) n d cl f.

(** ** The store *)

Definition AddEventHandler (c : Cache) (h : EventHandler) : Cache :=
  mkCache (c_store c) (c_handlers c ++ [h]) (c_synced c) (c_recovery c)
    (c_dispatches c) (c_drained c) (c_closed c) (c_fresh c).

(** The callbacks fired for one upserted or deleted key, handler by handler. *)
Definition notifyUpsert (hs : list EventHandler) (key : WorkItemKey) (old : option T) (obj : T)
  : list Event :=
  concat (imap (λ i h, match old with
    | Some o => if OnUpdate h then [Updated i key o obj] else []
    | None => if OnAdd h then [Added i key obj] else []
    end) hs).
Definition notifyDelete (hs : list EventHandler) (key : WorkItemKey) (obj : T) : list Event :=
  concat (imap (λ i h, if OnDelete h then [Deleted i key obj] else []) hs).

Definition SetKey (c : Cache) (key : WorkItemKey) (obj : T) : Cache * list Event :=
  (set_store c (<[key := obj]> (c_store c)),
   notifyUpsert (c_handlers c) key (c_store c !! key) obj).

Definition Get (c : Cache) (key : WorkItemKey) : option T := c_store c !! key.

Definition Delete (c : Cache) (key : WorkItemKey) : Cache * list Event :=
  match c_store c !! key with
  | Some old => (set_store c (delete key (c_store c)), notifyDelete (c_handlers c) key old)
  | None => (c, [])
  end.

(** [Replace]: [order] and [order'] are the orders in which Go iterates the new
    and the old map. *)
Definition Replace (c : Cache) (items : gmap WorkItemKey T)
    (order order' : list (WorkItemKey * T)) : Cache * list Event :=
  let old := c_store c in
  (set_store c items,
   (order ≫= λ '(key, item), notifyUpsert (c_handlers c) key (old !! key) item) ++
   (order' ≫= λ '(key, item),
      match items !! key with
      | Some _ => []
      | None => notifyDelete (c_handlers c) key item
      end)).

Definition ListValues (c : Cache) : list T := (map_to_list (c_store c)).*2.
Definition HasSynced (c : Cache) : bool := c_synced c.
Definition MarkSynced (c : Cache) : Cache :=
  mkCache (c_store c) (c_handlers c) true (c_recovery c) (c_dispatches c)
    (c_drained c) (c_closed c) (c_fresh c).

(** ** The recovery gate *)

(** The critical section of [BeginRecovery]: [None] when it returns at once
    because nothing is dispatched, otherwise the channel it then waits on. *)
Definition BeginRecovery (c : Cache) (now : Z) : option nat * Cache :=
  let c := if Recovering (c_recovery c) then c
           else set_recovery c (mkRecovery true now 0 0 0) in
  if (c_dispatches c =? 0)%Z then (None, c) else
  match c_drained c with
  | Some ch => (Some ch, c)
  | None => (Some (c_fresh c),
             set_gate c (c_dispatches c) (Some (c_fresh c)) (c_closed c) (S (c_fresh c)))
  end.

Definition ObserveListProgress (c : Cache) (now pages rows : Z) : Cache :=
  let r := c_recovery c in
  if Recovering r && (Pages r <? pages)%Z
  then set_recovery c (mkRecovery true now (CompletedAt r) pages rows) else c.

Definition EndRecovery (c : Cache) (now : Z) : Cache :=
  let r := c_recovery c in
  if Recovering r
  then set_recovery c (mkRecovery false (LastProgress r) now (Pages r) (Rows r)) else c.

(** [WaitForRecovery] returns nil at once unless a recovery is in progress. *)
Definition WaitForRecovery (c : Cache) : bool := negb (Recovering (c_recovery c)).

(** The critical section of [AcquireDispatch]: [None] while recovering (the
    caller loops), otherwise the dispatch is counted. *)
Definition AcquireDispatch (c : Cache) : option Cache :=
  if Recovering (c_recovery c) then None
  else Some (set_gate c (c_dispatches c + 1) (c_drained c) (c_closed c) (c_fresh c)).

(** The function [AcquireDispatch] returns. *)
Definition release (c : Cache) : Cache :=
  let n := (c_dispatches c - 1)%Z in
  match c_drained c with
  | Some ch => if (n =? 0)%Z then set_gate c n None ({[ch]} ∪ c_closed c) (c_fresh c)
               else set_gate c n (Some ch) (c_closed c) (c_fresh c)
  | None => set_gate c n None (c_closed c) (c_fresh c)
  end.

(** ** Recovery excludes dispatch

    One list-watch runner drives the recovery; any number of workers acquire
    and release. A runner whose context is cancelled leaves the gate closed. *)
Inductive Runner : Type := RIdle | RWaiting (ch : nat) | RQuiesced.
Record Gate : Type := mkGate { g_c : Cache; g_runner : Runner; g_workers : nat }.

Inductive gstep : Gate → Gate → Prop :=
| gstep_begin_now c n now c' :
    BeginRecovery c now = (None, c') → gstep (mkGate c RIdle n) (mkGate c' RQuiesced n)
| gstep_begin_wait c n now ch c' :
    BeginRecovery c now = (Some ch, c') →
    gstep (mkGate c RIdle n) (mkGate c' (RWaiting ch) n)
| gstep_drained c ch n :
    ch ∈ c_closed c → gstep (mkGate c (RWaiting ch) n) (mkGate c RQuiesced n)
| gstep_cancel c r n : gstep (mkGate c r n) (mkGate c RIdle n)
| gstep_progress c n now p rows :
    gstep (mkGate c RQuiesced n) (mkGate (ObserveListProgress c now p rows) RQuiesced n)
| gstep_end c n now : gstep (mkGate c RQuiesced n) (mkGate (EndRecovery c now) RIdle n)
| gstep_acquire c r n c' :
    AcquireDispatch c = Some c' → gstep (mkGate c r n) (mkGate c' r (S n))
| gstep_release c r n : gstep (mkGate c r (S n)) (mkGate (release c) r n).

Record ginv (g : Gate) : Prop := {
  gi_count : c_dispatches (g_c g) = Z.of_nat (g_workers g);
  gi_closed : ∀ ch, ch ∈ c_closed (g_c g) → ch < c_fresh (g_c g);
  gi_drained : ∀ ch, c_drained (g_c g) = Some ch →
    ch < c_fresh (g_c g) ∧ ch ∉ c_closed (g_c g) ∧ 0 < g_workers g;
  gi_waiting : ∀ ch, g_runner g = RWaiting ch →
    Recovering (c_recovery (g_c g)) = true ∧ ch < c_fresh (g_c g) ∧
    (c_drained (g_c g) = Some ch ∨ g_workers g = 0);
  gi_quiesced : g_runner g = RQuiesced →
    Recovering (c_recovery (g_c g)) = true ∧ g_workers g = 0;
}.

Lemma ginv_New : ginv (mkGate New RIdle 0).
Proof. split; simpl; [done|set_solver|done..]. Qed.

Lemma BeginRecovery_spec c now o c' :
  BeginRecovery c now = (o, c') →
  Recovering (c_recovery c') = true ∧ c_dispatches c' = c_dispatches c ∧
  c_closed c' = c_closed c ∧
  match o with
  | None => c_dispatches c = 0%Z ∧ c_drained c' = c_drained c ∧ c_fresh c' = c_fresh c
  | Some ch => c_dispatches c ≠ 0%Z ∧ c_drained c' = Some ch ∧
      (c_drained c = Some ch ∧ c_fresh c' = c_fresh c ∨
       c_drained c = None ∧ ch = c_fresh c ∧ c_fresh c' = S (c_fresh c))
  end.
Proof.
  unfold BeginRecovery. destruct (Recovering (c_recovery c)) eqn:Er; simpl;
    destruct (Z.eqb_spec (c_dispatches c) 0); destruct (c_drained c) eqn:Ed;
    intros ?; simplify_eq/=; eauto 10.
Qed.

Lemma release_spec c :
  c_dispatches (release c) = (c_dispatches c - 1)%Z ∧ c_fresh (release c) = c_fresh c ∧
  c_recovery (release c) = c_recovery c ∧
  match c_drained c with
  | None => c_drained (release c) = None ∧ c_closed (release c) = c_closed c
  | Some ch =>
      (c_dispatches c = 1%Z ∧ c_drained (release c) = None ∧
       c_closed (release c) = {[ch]} ∪ c_closed c) ∨
      (c_dispatches c ≠ 1%Z ∧ c_drained (release c) = Some ch ∧
       c_closed (release c) = c_closed c)
  end.
Proof.
  unfold release. destruct (c_drained c); simpl; [|done].
  destruct (Z.eqb_spec (c_dispatches c - 1) 0); simpl; split_and!; try done;
    [left|right]; split_and!; try done; lia.
Qed.

Lemma ginv_begin c n now o c' :
  ginv (mkGate c RIdle n) → BeginRecovery c now = (o, c') →
  ginv (mkGate c' (match o with Some ch => RWaiting ch | None => RQuiesced end) n).
Proof.
  intros [Hc Hcl Hd _ _] Hb. simpl in *.
  destruct (BeginRecovery_spec _ _ _ _ Hb) as (Hr & Hdi & Hclo & Ho).
  destruct o as [ch|]; simpl in *.
  - destruct Ho as (Hne & Hdr & [[Ed Ef]|(Ed & -> & Ef)]); split; simpl; try done;
      rewrite ?Hdi, ?Hclo, ?Hdr, ?Ef; try done.
    + intros ch' ?; simplify_eq. eauto.
    + intros ch' ?; simplify_eq. destruct (Hd ch' Ed) as (? & ? & ?). eauto.
    + intros ch Hin. specialize (Hcl _ Hin). lia.
    + intros ch' ?; simplify_eq. split_and!; [lia| |lia].
      intros Hin. specialize (Hcl _ Hin). lia.
    + intros ch' ?; simplify_eq. split_and!; [done|lia|by left].
  - destruct Ho as (Hz & Hdr & Hf). split; simpl; try done;
      rewrite ?Hdi, ?Hclo, ?Hdr, ?Hf; try done.
    intros _. split; [done|lia].
Qed.

Lemma ginv_release c r n : ginv (mkGate c r (S n)) → ginv (mkGate (release c) r n).
Proof.
  intros [Hc Hcl Hd Hw Hq]. simpl in *.
  destruct (release_spec c) as (Hn & Hf & Hr & Hx).
  destruct (c_drained c) as [ch|] eqn:Ed.
  - destruct (Hd ch eq_refl) as (Hlt & Hnin & _).
    destruct Hx as [(H1 & Edr & Ecl)|(H1 & Edr & Ecl)]; split; simpl; rewrite ?Hn, ?Hf, ?Hr, ?Edr, ?Ecl;
      try done; try lia.
    + set_solver.
    + intros ch' Hrun. destruct (Hw _ Hrun) as (? & ? & ?). split_and!; [done..|right; lia].
    + intros Hrun. destruct (Hq Hrun). lia.
    + intros ch' ?; simplify_eq. split_and!; [done..|lia].
    + intros ch' Hrun. destruct (Hw _ Hrun) as (? & ? & [?|?]); [|lia]. eauto.
    + intros Hrun. destruct (Hq Hrun). lia.
  - destruct Hx as [Edr Ecl]. split; simpl; rewrite ?Hn, ?Hf, ?Hr, ?Edr, ?Ecl; try done; try lia.
    + intros ch' Hrun. destruct (Hw _ Hrun) as (? & ? & [?|?]); [done|lia].
    + intros Hrun. destruct (Hq Hrun). lia.
Qed.

Lemma gstep_inv g g' : ginv g → gstep g g' → ginv g'.
Proof.
  intros Hi Hs. destruct Hs.
  - by eapply (ginv_begin _ _ _ None).
  - by eapply (ginv_begin _ _ _ (Some ch)).
  - destruct Hi as [Hc Hcl Hd Hw _]. simpl in *. split; simpl; try done.
    intros _. destruct (Hw ch eq_refl) as (Hr & _ & [Hdr|Hz]); [|done].
    by destruct (Hd _ Hdr) as (_ & ? & _).
  - destruct Hi. by split.
  - destruct Hi as [Hc Hcl Hd Hw Hq]. destruct (Hq eq_refl) as [Hr Hz].
    unfold ObserveListProgress. case_match; split; simpl in *; try done.
  - destruct Hi as [Hc Hcl Hd Hw Hq]. unfold EndRecovery.
    case_match; split; simpl in *; try done.
  - unfold AcquireDispatch in *. destruct (Recovering (c_recovery c)) eqn:Er; [done|].
    destruct Hi as [Hc Hcl Hd Hw Hq]. simplify_eq. split; simpl in *; [lia|done|..].
    + intros ch Hdr. destruct (Hd _ Hdr) as (? & ? & ?). split_and!; [done..|lia].
    + intros ch Hr. destruct (Hw _ Hr) as [? _]. congruence.
    + intros Hr. destruct (Hq Hr) as [? _]. congruence.
  - by apply ginv_release.
Qed.

(** C10: while the runner replaces a snapshot, from the moment [BeginRecovery]
    returns until [EndRecovery], no dispatch is running: a dispatch that read
    the old snapshot cannot acknowledge work the new one introduces. *)
Theorem recovery_excludes_dispatch g :
  rtc gstep (mkGate New RIdle 0) g → g_runner g = RQuiesced →
  g_workers g = 0 ∧ AcquireDispatch (g_c g) = None.
Proof.
  intros Hr Hq. apply (rtc_preserves gstep ginv gstep_inv) in Hr; [|apply ginv_New].
  destruct (gi_quiesced _ Hr Hq) as [Hrec ->]. split; [done|].
  unfold AcquireDispatch. by rewrite Hrec.
Qed.

(** ** Events mirror the store *)

(** The map a handler that sets all three callbacks rebuilds from its events. *)
Definition mirror (h : nat) (m : gmap WorkItemKey T) (e : Event) : gmap WorkItemKey T :=
  match e with
  | Added i key obj => if decide (i = h) then <[key := obj]> m else m
  | Updated i key _ obj => if decide (i = h) then <[key := obj]> m else m
  | Deleted i key _ => if decide (i = h) then delete key m else m
  end.

(** Only the handler's own events move its mirror. *)
Lemma imap_shift (f : nat → EventHandler → list Event) off hs :
  imap ((λ i, f (off + i)) ∘ S) hs = imap (λ i, f (S off + i)) hs.
Proof. apply imap_ext. intros i y _. simpl. by rewrite Nat.add_succ_r. Qed.

Lemma mirror_others (f : nat → EventHandler → list Event) hs off h m :
  (∀ i x m, i ≠ h → foldl (mirror h) m (f i x) = m) → h < off →
  foldl (mirror h) m (concat (imap (λ i, f (off + i)) hs)) = m.
Proof.
  intros Hf. revert off. induction hs as [|x hs IH]; intros off Ho; [done|].
  cbn [imap concat]. rewrite foldl_app, Hf by lia. rewrite imap_shift. apply IH. lia.
Qed.

Lemma mirror_handlers (f : nat → EventHandler → list Event) hs off h m :
  (∀ i x m, i ≠ h → foldl (mirror h) m (f i x) = m) → off ≤ h →
  foldl (mirror h) m (concat (imap (λ i, f (off + i)) hs)) =
  match hs !! (h - off) with
  | Some x => foldl (mirror h) m (f h x)
  | None => m
  end.
Proof.
  intros Hf. revert off m. induction hs as [|x hs IH]; intros off m Ho; [done|].
  cbn [imap concat]. rewrite foldl_app, Nat.add_0_r, imap_shift.
  destruct (decide (off = h)) as [->|Hne].
  - rewrite Nat.sub_diag. by apply (mirror_others f hs (S h)); [|lia].
  - rewrite Hf by done. rewrite IH by lia.
    replace (h - off) with (S (h - S off)) by lia. done.
Qed.

Definition allCallbacks : EventHandler := mkHandler true true true.

Lemma mirror_upsert hs h key old obj m :
  hs !! h = Some allCallbacks →
  foldl (mirror h) m (notifyUpsert hs key old obj) = <[key := obj]> m.
Proof.
  intros Hh. unfold notifyUpsert.
  rewrite (mirror_handlers (λ i x, match old with
    | Some o => if OnUpdate x then [Updated i key o obj] else []
    | None => if OnAdd x then [Added i key obj] else [] end) hs 0); [|clear|lia].
  - rewrite Nat.sub_0_r, Hh. destruct old; simpl; by rewrite decide_True.
  - intros i x m ?. destruct old, x as [[] [] []]; simpl; by rewrite ?decide_False.
Qed.

Lemma mirror_delete hs h key obj m :
  hs !! h = Some allCallbacks →
  foldl (mirror h) m (notifyDelete hs key obj) = delete key m.
Proof.
  intros Hh. unfold notifyDelete.
  rewrite (mirror_handlers (λ i x, if OnDelete x then [Deleted i key obj] else []) hs 0);
    [|clear|lia].
  - rewrite Nat.sub_0_r, Hh. simpl. by rewrite decide_True.
  - intros i x m ?. destruct x as [[] [] []]; simpl; by rewrite ?decide_False.
Qed.

(** The two loops of [Replace], on the mirror. *)
Lemma mirror_upserts hs h (old : gmap WorkItemKey T) order m :
  hs !! h = Some allCallbacks → NoDup order.*1 →
  foldl (mirror h) m (order ≫= λ '(key, item), notifyUpsert hs key (old !! key) item) =
  list_to_map order ∪ m.
Proof.
  intros Hh. revert m. induction order as [|[k v] order IH]; intros m Hnd.
  - simpl. by rewrite (left_id_L ∅ (∪)).
  - cbn [fmap list_fmap fst] in Hnd. apply NoDup_cons in Hnd as [Hk Hnd].
    cbn [mbind list_bind]. rewrite foldl_app, (mirror_upsert hs h) by done.
    rewrite IH by done. cbn [list_to_map foldr]. simpl.
    rewrite <- insert_union_l, <- insert_union_r; [done|].
    by apply not_elem_of_list_to_map.
Qed.

Lemma mirror_deletes hs h (items : gmap WorkItemKey T) order m k :
  hs !! h = Some allCallbacks →
  foldl (mirror h) m (order ≫= λ '(key, item),
    match items !! key with Some _ => [] | None => notifyDelete hs key item end) !! k =
  if decide (k ∈ order.*1 ∧ items !! k = None) then None else m !! k.
Proof.
  intros Hh. revert m. induction order as [|[k' v] order IH]; intros m.
  - case_decide as Hk; [|done]. destruct Hk; set_solver.
  - cbn [mbind list_bind]. rewrite foldl_app.
    assert (foldl (mirror h) m (match items !! k' with
      | Some _ => [] | None => notifyDelete hs k' v end) =
      match items !! k' with Some _ => m | None => delete k' m end) as ->
      by (destruct (items !! k'); [done|by apply mirror_delete]).
    rewrite IH. cbn [fmap list_fmap fst].
    destruct (items !! k') eqn:E, (decide (k = k')) as [->|Hne].
    all: rewrite ?lookup_delete_eq, ?lookup_delete_ne by congruence.
    all: repeat case_decide; try done; set_solver.
Qed.

(** A handler that sets all three callbacks can mirror the cache: in
    whatever order Go iterates the maps, the events of [Replace] turn a copy of
    the old store into the new one. *)
Theorem Replace_events_mirror (c : Cache) items order order' h :
  c_handlers c !! h = Some allCallbacks →
  order ≡ₚ map_to_list items → order' ≡ₚ map_to_list (c_store c) →
  foldl (mirror h) (c_store c) (Replace c items order order').2 = items.
Proof.
  intros Hh Ho Ho'. unfold Replace. cbn [snd]. rewrite foldl_app.
  assert (NoDup order.*1) as Hnd by (rewrite Ho; apply NoDup_fst_map_to_list).
  rewrite (mirror_upserts _ h) by done.
  assert (list_to_map order = items) as ->.
  { rewrite <- (list_to_map_to_list items). by apply list_to_map_proper. }
  apply map_eq. intros k. rewrite (mirror_deletes _ h) by done.
  rewrite lookup_union. case_decide as Hk.
  - destruct Hk as [_ ->]. done.
  - destruct (items !! k) eqn:Ei; [by rewrite union_Some_l|].
    rewrite (left_id_L None (∪)).
    destruct (c_store c !! k) as [v|] eqn:Es; [|done]. exfalso. apply Hk. split; [|done].
    rewrite Ho'. apply list_elem_of_fmap. exists (k, v). split; [done|].
    by apply elem_of_map_to_list.
Qed.
End cache.
Arguments Cache : clear implicits.
Arguments Event : clear implicits.
Arguments Gate : clear implicits.

(** ** Concrete runs *)

Definition k1 : WorkItemKey := mkKey "Product" "shop" "a".
Definition k2 : WorkItemKey := mkKey "Product" "shop" "b".
Definition k3 : WorkItemKey := mkKey "Product" "shop" "c".
Definition cache1 : Cache nat :=
  set_store (AddEventHandler New allCallbacks) (<[k1 := 1]> {[k2 := 2]}).
Definition items1 : gmap WorkItemKey nat := <[k2 := 5]> {[k3 := 3]}.

Lemma Replace_events_mirror_witness :
  foldl (mirror 0) (c_store cache1)
    (Replace cache1 items1 [(k3, 3); (k2, 5)] [(k1, 1); (k2, 2)]).2 = items1.
Proof.
  apply Replace_events_mirror; [reflexivity| |].
  - apply NoDup_Permutation; [|apply NoDup_map_to_list|].
    + refine (bool_decide_unpack _ _). vm_compute. exact I.
    + intros [k v]. rewrite elem_of_map_to_list. unfold items1.
      rewrite lookup_insert_Some, lookup_singleton_Some.
      assert (k2 ≠ k3) by done. set_solver.
  - apply NoDup_Permutation; [|apply NoDup_map_to_list|].
    + refine (bool_decide_unpack _ _). vm_compute. exact I.
    + intros [k v]. rewrite elem_of_map_to_list. simpl.
      rewrite lookup_insert_Some, lookup_singleton_Some.
      assert (k1 ≠ k2) by done. set_solver.
Defined.

(** A worker is running when recovery begins: the runner waits for it. *)
Definition gate1 : Cache nat := set_gate New 1 None ∅ 0.
Lemma recovery_excludes_dispatch_witness :
  ∃ g : Gate nat, rtc gstep (mkGate New RIdle 0) g ∧ g_runner g = RQuiesced ∧
    g_workers g = 0 ∧ AcquireDispatch (g_c g) = None.
Proof.
  set (c1 := (BeginRecovery gate1 9).2).
  set (g := mkGate (release c1) RQuiesced 0).
  assert (Hr : rtc gstep (mkGate New RIdle 0) g).
  { eapply rtc_l; [apply (gstep_acquire New RIdle 0 gate1); reflexivity|].
    eapply rtc_l; [apply (gstep_begin_wait gate1 1 9 0 c1); reflexivity|].
    eapply rtc_l; [apply (gstep_release c1 (RWaiting 0) 0)|].
    eapply rtc_once, gstep_drained. vm_compute. reflexivity. }
  exists g. split; [exact Hr|]. split; [reflexivity|].
  exact (recovery_excludes_dispatch g Hr eq_refl).
Defined.
