(* ===== verification/CategoryGraph.v ===== *)
(** * Category hierarchies

    The parent relation of categories is a partial function on names, so that
    cycles and chains are questions about iterating it. This file models the
    cycle detection and topological sort of admission
    ([gitstore-api/internal/admission/catalog/category_taxonomy_policy.go]) and
    the hierarchy walks of the category controller
    ([gitstore-controller-manager/internal/categorytaxonomy/hierarchy.go]). *)

From S2P Require Import Prelude.

(** ** Functional graphs *)

Section functional.
Context {A : Type} (next : A → option A).

Definition edge (x y : A) : Prop := next x = Some y.
Definition on_cycle (x : A) : Prop := tc edge x x.

Lemma on_cycle_step_back x y : on_cycle x → edge x y → rtc edge y x.
Proof.
  intros Hc He. unfold on_cycle, edge in *.
  inversion Hc as [? ? Hs|? z ? Hs Ht]; simplify_eq; [done|]. by apply tc_rtc.
Qed.

Lemma on_cycle_next x y : on_cycle x → edge x y → on_cycle y.
Proof.
  intros Hc He. eapply tc_rtc_l; [by apply on_cycle_step_back|]. by apply tc_once.
Qed.

Lemma on_cycle_reaches_back x y : on_cycle x → rtc edge x y → rtc edge y x.
Proof.
  intros Hc Hr. induction Hr as [x|x x1 y He Hr IH]; [done|].
  etrans; [apply IH; by eapply on_cycle_next|]. by apply on_cycle_step_back.
Qed.

Lemma on_cycle_has_next x : on_cycle x → is_Some (next x).
Proof. intros Hc. inversion Hc; simplify_eq; unfold edge in *; eauto. Qed.

(** [path s t]: each element of [s] has the following one as its next, and the
    last one has [t]. *)
Fixpoint path (s : list A) (t : A) : Prop :=
  match s with
  | [] => True
  | x :: s => edge x (default t (head s)) ∧ path s t
  end.

Lemma path_snoc s x t : path (s ++ [x]) t ↔ path s x ∧ edge x t.
Proof.
  induction s as [|y s IH]; simpl; [tauto|]. rewrite IH.
  destruct s; simpl; tauto.
Qed.

Lemma path_app s1 s2 t :
  path (s1 ++ s2) t ↔ path s1 (default t (head s2)) ∧ path s2 t.
Proof.
  induction s1 as [|y s1 IH]; simpl; [tauto|]. rewrite IH.
  destruct s1; simpl; tauto.
Qed.

Lemma path_reaches s t x : path s t → x ∈ s → tc edge x t.
Proof.
  revert x. induction s as [|y s IH]; intros x Hp Hx; [set_solver|].
  destruct Hp as [He Hp]. apply elem_of_cons in Hx as [->|Hx]; [|auto].
  destruct s as [|z s]; simpl in *; [by apply tc_once|].
  eapply tc_l; [exact He|]. apply IH; [done|by left].
Qed.

(** Whatever is reached from a set closed under [next] is in the set. *)
Lemma closed_reach (P : A → Prop) x y :
  (∀ a b, P a → edge a b → P b) → rtc edge x y → P x → P y.
Proof. intros Hcl. induction 1; eauto. Qed.

(** Running into a closed set that avoids the path: no cycle on the path. *)
Lemma path_into_closed (P : A → Prop) s t x :
  path s t → P t → (∀ a b, P a → edge a b → P b) →
  (∀ a, a ∈ s → ¬ P a) → x ∈ s → ¬ on_cycle x.
Proof.
  intros Hp Ht Hcl Hd Hx Hc. apply (Hd x Hx).
  eapply closed_reach; [done| |exact Ht].
  apply on_cycle_reaches_back; [done|]. apply tc_rtc. by eapply path_reaches.
Qed.

Lemma path_from_head y s t x : path (y :: s) t → x ∈ y :: s → rtc edge y x.
Proof.
  revert y. induction s as [|z s IH]; intros y [He Hp] Hx.
  - apply list_elem_of_singleton in Hx as ->. done.
  - apply elem_of_cons in Hx as [->|Hx]; [done|]. eapply rtc_l; [exact He|].
    by apply IH.
Qed.

Lemma path_next s t a b : path s t → a ∈ s → edge a b → b ∈ s ∨ b = t.
Proof.
  induction s as [|x s IH]; intros Hp Ha Hab; [set_solver|]. destruct Hp as [He Hp].
  apply elem_of_cons in Ha as [->|Ha].
  - unfold edge in *. simplify_eq. destruct s; [by right|left; set_solver].
  - destruct (IH Hp Ha Hab); [left; set_solver|by right].
Qed.

(** Running into one's own path: the tail from there on is the cycle. *)
Lemma path_loop s1 y s2 x :
  path (s1 ++ y :: s2) y → NoDup (s1 ++ y :: s2) →
  (x ∈ y :: s2 → on_cycle x) ∧ (x ∈ s1 → ¬ on_cycle x).
Proof.
  rewrite path_app. change (default y (head (y :: s2))) with y.
  intros [Hp1 Hp2] Hnd. split.
  - intros Hx. eapply tc_rtc_r; [by eapply path_reaches|].
    by eapply path_from_head.
  - intros Hx Hc. apply NoDup_app in Hnd as (_ & Hd & _). apply (Hd x Hx).
    assert (rtc edge y x) as Hr.
    { apply on_cycle_reaches_back; [done|]. apply tc_rtc.
      exact (path_reaches s1 y x Hp1 Hx). }
    eapply (closed_reach (λ z, z ∈ y :: s2)); [|exact Hr|by left].
    intros a b Ha Hab. destruct (path_next _ _ _ _ Hp2 Ha Hab) as [?| ->]; [done|by left].
Qed.
End functional.

(** ** Cycle detection *)

(** The state of the three-colour search: colours default to white. *)
Inductive Color : Type := White | Gray | Black.
#[global] Instance Color_eq_dec : EqDecision Color.
Proof. solve_decision. Defined.

Record Dfs : Type := mkDfs {
  inCycle : gset string;
  color : gmap string Color;
  grayStack : list string;
}.
Definition colorOf (st : Dfs) (name : string) : Color := default White (color st !! name).
Definition paint (st : Dfs) (name : string) (c : Color) : Dfs :=
  mkDfs (inCycle st) (<[name := c]> (color st)) (grayStack st).

(** Every element of the gray stack from the first [name] on. *)
Fixpoint dropUntil (name : string) (l : list string) : list string :=
  match l with
  | [] => []
  | n :: l' => if decide (n = name) then l else dropUntil name l'
  end.

(** [visit], with fuel for the recursion: [None] when it runs out. *)
Fixpoint visit (fuel : nat) (parentMap : gmap string string) (name : string) (st : Dfs)
  : option Dfs :=
  match fuel with
  | 0 => None
  | S fuel =>
      match colorOf st name with
      | Black => Some st
      | Gray =>
          Some (mkDfs (list_to_set (dropUntil name (grayStack st)) ∪ inCycle st)
                  (color st) (grayStack st))
      | White =>
          match parentMap !! name with
          | None | Some "" => Some (paint st name Black)
          | Some parent =>
              let st := paint st name Gray in
              let st := mkDfs (inCycle st) (color st) (grayStack st ++ [name]) in
              st ← visit fuel parentMap parent st;
              let st := mkDfs (inCycle st) (color st)
                          (take (length (grayStack st) - 1) (grayStack st)) in
              Some (paint st name Black)
          end
      end
  end.

(** The loop over the map: [order] is the order in which Go iterates it. *)
Fixpoint visitAll (fuel : nat) (parentMap : gmap string string) (order : list string) (st : Dfs)
  : option Dfs :=
  match order with
  | [] => Some st
  | name :: order => st ← visit fuel parentMap name st; visitAll fuel parentMap order st
  end.

Definition DetectCycles (parentMap : gmap string string) (order : list string)
  : option (gset string) :=
  inCycle <$> visitAll (S (S (size parentMap))) parentMap order (mkDfs ∅ ∅ []).

(** [detectCycles] of the category controller is the same search. *)
Definition detectCycles (parentMap : gmap string string) (order : list string)
  : option (gset string) := DetectCycles parentMap order.

(** The parent a name has in the map; the empty name means no parent. *)
Definition parentOf (parentMap : gmap string string) (name : string) : option string :=
  match parentMap !! name with
  | None | Some "" => None
  | Some parent => Some parent
  end.

Section detect.
Context (pm : gmap string string).
Notation nxt := (parentOf pm).

Definition black (st : Dfs) (x : string) : Prop := colorOf st x = Black.

(** Between two steps of the search: the gray nodes are the stack, a path to
    the node visited next; the black nodes are closed under [parentOf] up to
    gray ones, and judged. *)
Record dfs_inv (s : list string) (st : Dfs) : Prop := {
  di_stack : grayStack st = s;
  di_nodup : NoDup s;
  di_gray : ∀ x, colorOf st x = Gray ↔ x ∈ s;
  di_dom : ∀ x, x ∈ s → is_Some (pm !! x);
}.
Record judged (P : string → Prop) (st : Dfs) : Prop := {
  j_closed : ∀ x y, P x → edge nxt x y → P y;
  j_cycle : ∀ x, P x → x ∈ inCycle st ↔ on_cycle nxt x;
  j_in : ∀ x, x ∈ inCycle st → P x;
}.

Lemma colorOf_paint st n c x :
  colorOf (paint st n c) x = if decide (x = n) then c else colorOf st x.
Proof.
  unfold colorOf, paint. simpl. rewrite lookup_insert.
  repeat case_decide; by simplify_eq.
Qed.

Lemma dropUntil_app s1 y s2 : y ∉ s1 → dropUntil y (s1 ++ y :: s2) = y :: s2.
Proof.
  induction s1 as [|x s1 IH]; simpl; intros Hy; case_decide; try done.
  - set_solver.
  - apply IH. set_solver.
Qed.

Lemma judged_ext P Q st : (∀ x, P x ↔ Q x) → judged P st → judged Q st.
Proof. intros H [Hc Hy Hi]. split; naive_solver. Qed.

Lemma dfs_inv_bound s st : dfs_inv s st → length s ≤ size pm.
Proof.
  intros [_ Hnd _ Hd]. rewrite <- size_dom.
  rewrite <- (size_list_to_set (C := gset string) s) by done.
  apply subseteq_size. intros x. rewrite elem_of_list_to_set, elem_of_dom. apply Hd.
Qed.

(** The three ways a walk ends. *)
Lemma visit_black s st name :
  dfs_inv s st → path nxt s name → judged (black st) st → black st name →
  judged (λ x, black st x ∨ x ∈ s) st.
Proof.
  intros [_ Hnd Hg _] Hp [Hc Hy Hi] Hb.
  assert (∀ x, x ∈ s → ¬ black st x) as Hd
    by (intros x ?%Hg; unfold black; congruence).
  split.
  - intros x y [Hx|Hx] He; [left; eauto|].
    destruct (path_next _ _ _ _ _ Hp Hx He) as [?| ->]; auto.
  - intros x [Hx|Hx]; [auto|]. split.
    + intros ?%Hi. by destruct (Hd x).
    + intros Hcy. by destruct (path_into_closed _ (black st) s name x Hp Hb Hc Hd Hx).
  - intros x ?%Hi. by left.
Qed.

Lemma visit_gray s st name :
  dfs_inv s st → path nxt s name → judged (black st) st → name ∈ s →
  let st' := mkDfs (list_to_set (dropUntil name s) ∪ inCycle st) (color st) s in
  dfs_inv s st' ∧ judged (λ x, black st' x ∨ x ∈ s) st'.
Proof.
  intros [Hs Hnd Hg Hdom] Hp [Hc Hy Hi] Hin st'. split; [by split|].
  apply list_elem_of_split in Hin as (s1 & s2 & ->).
  assert (name ∉ s1) as Hn1 by (apply NoDup_app in Hnd as (_ & Hd & _); intros ?; eapply Hd; set_solver).
  assert (∀ x, x ∈ s1 ++ name :: s2 → ¬ black st x) as Hd
    by (intros x ?%Hg; unfold black; congruence).
  split.
  - intros x y [Hx|Hx] He; [left; by eapply Hc|].
    destruct (path_next _ _ _ _ _ Hp Hx He) as [?| ->]; [by right|right; set_solver].
  - unfold st'. cbn [inCycle]. rewrite dropUntil_app by done. intros x Hx.
    rewrite elem_of_union, elem_of_list_to_set.
    destruct (path_loop _ s1 name s2 x Hp Hnd) as [Hl1 Hl2].
    destruct Hx as [Hx|Hx].
    + rewrite (Hy x Hx). split; [|auto]. intros [?|?]; auto.
    + rewrite elem_of_app in Hx. split.
      * intros [?|Hx'%Hi]; [auto|]. by destruct (Hd x); [set_solver|].
      * intros Hcy. left. destruct Hx as [Hx|Hx]; [by destruct (Hl2 Hx)|done].
  - unfold st'. cbn [inCycle]. rewrite dropUntil_app by done. intros x.
    rewrite elem_of_union, elem_of_list_to_set. intros [Hx|Hx%Hi]; [right; set_solver|by left].
Qed.

Lemma visit_leaf s st name :
  dfs_inv s st → path nxt s name → judged (black st) st → colorOf st name = White →
  nxt name = None →
  let st' := paint st name Black in
  dfs_inv s st' ∧ judged (λ x, black st' x ∨ x ∈ s) st'.
Proof.
  intros Hinv Hp [Hc Hy Hi] Hw Hnx st'.
  assert (dfs_inv s st') as Hinv'.
  { destruct Hinv as [Hs Hnd Hg Hdom]. split; [done..| |done].
    intros x. unfold st'. rewrite colorOf_paint. case_decide as Hx; [|done].
    subst. split; [done|]. intros ?%Hg. congruence. }
  split; [done|]. apply (visit_black _ _ name); [done..| |].
  - split.
    + unfold black, st'. intros x y. rewrite !colorOf_paint.
      intros Hx He. destruct (decide (y = name)) as [|Hne]; [done|].
      destruct (decide (x = name)) as [->|Hne']; [unfold edge in He; congruence|by eapply Hc].
    + unfold black, st'. intros x. rewrite colorOf_paint. cbn [inCycle paint].
      destruct (decide (x = name)) as [->|]; [|by auto]. intros _. split.
      * intros Hin%Hi. unfold black in Hin. congruence.
      * intros [z Hz]%on_cycle_has_next. congruence.
    + intros x Hin%Hi. unfold black, st' in *. rewrite colorOf_paint. by case_decide.
  - unfold black, st'. rewrite colorOf_paint. by case_decide.
Qed.

Lemma visit_spec fuel : ∀ s st name,
  dfs_inv s st → path nxt s name → judged (black st) st →
  size pm + 2 ≤ fuel + length s →
  ∃ st', visit fuel pm name st = Some st' ∧ dfs_inv s st' ∧
    judged (λ x, black st' x ∨ x ∈ s) st' ∧ (black st' name ∨ name ∈ s) ∧
    (∀ x, black st x → black st' x).
Proof.
  induction fuel as [|fuel IH]; intros s st name Hinv Hp Hj Hfuel.
  { pose proof (dfs_inv_bound _ _ Hinv). lia. }
  simpl. destruct (colorOf st name) eqn:Hcol.
  2: { pose proof Hinv as [Hs _ Hg _]. apply Hg in Hcol as Hin. rewrite Hs.
       destruct (visit_gray s st name Hinv Hp Hj Hin) as [Hi' Hj'].
       eexists. split; [done|]. split_and!; [exact Hi'|exact Hj'|by right|done]. }
  2: { eexists. split; [done|]. split_and!; [done|by apply (visit_black s st name)|by left|done]. }
  destruct (nxt name) as [parent|] eqn:Hnx; unfold parentOf in Hnx.
  - (* a parent: push and recurse *)
    destruct (pm !! name) as [p|] eqn:Hpm; [|done].
    assert (p = parent ∧ p ≠ "") as [-> Hpne] by (destruct p; simplify_eq; done).
    set (st1 := mkDfs (inCycle st) (<[name := Gray]> (color st)) (grayStack st ++ [name])).
    assert (∀ x, colorOf st1 x = if decide (x = name) then Gray else colorOf st x) as Hc1
      by (intros x; apply (colorOf_paint st name Gray x)).
    assert (name ∉ s) as Hns by (intros ?%(di_gray _ _ Hinv); congruence).
    destruct Hinv as [Hs Hnd Hg Hdom].
    destruct (IH (s ++ [name]) st1 parent) as (st2 & Hv & Hinv2 & Hj2 & Hname & Hmono).
    + split; simpl; [by rewrite Hs|by apply NoDup_snoc| |].
      * intros x. rewrite Hc1. destruct (decide (x = name)) as [->|]; [set_solver|].
        rewrite Hg. set_solver.
      * intros x [Hx| ->%list_elem_of_singleton]%elem_of_app; [auto|]. by rewrite Hpm.
    + apply path_snoc. split; [done|]. unfold edge, parentOf. rewrite Hpm. by destruct parent.
    + eapply judged_ext with (P := black st).
      { intros x. unfold black. rewrite Hc1. case_decide; [subst; rewrite Hcol|]; done. }
      destruct Hj. by split.
    + rewrite length_app. simpl. lia.
    + exists (paint (mkDfs (inCycle st2) (color st2) s) name Black).
      assert (∀ x, colorOf (paint (mkDfs (inCycle st2) (color st2) s) name Black) x =
        if decide (x = name) then Black else colorOf st2 x) as Hc'
        by (intros x; exact (colorOf_paint (mkDfs (inCycle st2) (color st2) s) name Black x)).
      assert (∀ x, (black (paint (mkDfs (inCycle st2) (color st2) s) name Black) x ∨ x ∈ s) ↔
        (black st2 x ∨ x ∈ s ++ [name])) as Heq.
      { intros x. unfold black. rewrite Hc', elem_of_app, list_elem_of_singleton.
        destruct (decide (x = name)); naive_solver. }
      destruct Hinv2 as [Hs2 _ Hg2 _].
      split_and!.
      * replace (match parent with "" => Some (paint st name Black) | String _ _ => _ end)
          with (visit fuel pm parent st1 ≫= λ st, Some (paint (mkDfs (inCycle st) (color st)
            (take (length (grayStack st) - 1) (grayStack st))) name Black))
          by (by destruct parent).
        rewrite Hv. simpl. rewrite Hs2, length_app. simpl.
        by rewrite Nat.add_sub, take_app_length.
      * split; simpl; [done..| |done]. intros x. rewrite Hc'.
        destruct (decide (x = name)) as [->|]; [done|].
        rewrite Hg2, elem_of_app, list_elem_of_singleton. naive_solver.
      * eapply judged_ext; [intros x; symmetry; apply Heq|]. destruct Hj2. by split.
      * left. unfold black. rewrite Hc'. by case_decide.
      * intros x Hx. unfold black. rewrite Hc'. case_decide; [done|]. apply Hmono.
        unfold black. rewrite Hc1. by case_decide.
  - replace (match pm !! name with Some _ => _ | None => _ end)
      with (Some (paint st name Black))
      by (destruct (pm !! name) as [[]|]; simplify_eq; done).
    destruct (visit_leaf s st name) as [Hi' Hj']; [done..|].
    eexists. split; [done|]. split_and!; [done..|left; unfold black; rewrite colorOf_paint; by case_decide|].
    intros x Hx. unfold black. rewrite colorOf_paint. by case_decide.
Qed.

Lemma visitAll_spec fuel order : ∀ st,
  dfs_inv [] st → judged (black st) st → size pm + 2 ≤ fuel →
  ∃ st', visitAll fuel pm order st = Some st' ∧ judged (black st') st' ∧
    (∀ x, x ∈ order → black st' x) ∧ (∀ x, black st x → black st' x).
Proof.
  induction order as [|name order IH]; intros st Hinv Hj Hf; simpl.
  { exists st. split_and!; [done..|set_solver|done]. }
  destruct (visit_spec fuel [] st name) as (st1 & -> & Hinv1 & Hj1 & Hn & Hm1);
    [done..|simpl; lia|]. simpl.
  apply (judged_ext _ (black st1)) in Hj1; [|intros x; set_solver].
  destruct (IH st1) as (st2 & -> & Hj2 & Ho & Hm2); [done..|].
  exists st2. split_and!; [done..| |eauto].
  intros x [->|Hx]%elem_of_cons; [|auto]. apply Hm2. destruct Hn; [done|set_solver].
Qed.
End detect.

Lemma DetectCycles_spec pm order :
  (∀ x, x ∈ order ↔ x ∈ dom pm) →
  ∃ C, DetectCycles pm order = Some C ∧ ∀ x, x ∈ C ↔ on_cycle (parentOf pm) x.
Proof.
  intros Ho. unfold DetectCycles.
  destruct (visitAll_spec pm (S (S (size pm))) order (mkDfs ∅ ∅ []))
    as (st & -> & Hj & Hb & _); [| |lia|].
  - split; simpl; [done|constructor| |set_solver]. intros x. unfold colorOf. simpl.
    rewrite lookup_empty. set_solver.
  - assert (∀ x, ¬ black (mkDfs ∅ ∅ []) x) as Hno
      by (intros x; unfold black, colorOf; simpl; by rewrite lookup_empty).
    split; [intros x ? ?|intros x ?|simpl; set_solver]; by destruct (Hno x).
  - exists (inCycle st). split; [done|]. intros x. destruct Hj as [_ Hy Hi]. split.
    + intros Hx. apply Hy; [|done]. by apply Hi.
    + intros Hc. apply Hy; [|done]. apply Hb, Ho, elem_of_dom.
      apply on_cycle_has_next in Hc as [y Hy']. unfold parentOf in Hy'.
      destruct (pm !! x); [by eexists|done].
Qed.
(** C14: whatever the order in which Go iterates the map, the search ends and
    the names it reports are exactly those on a cycle of the parent relation:
    every member of a cycle, and nothing that merely leads into one. *)
Theorem DetectCycles_correct pm order :
  (∀ x, x ∈ order ↔ x ∈ dom pm) →
  ∃ C, DetectCycles pm order = Some C ∧ ∀ x, x ∈ C ↔ on_cycle (parentOf pm) x.
Proof. apply DetectCycles_spec. Qed.

(** ** Topological sort *)

Record Topo : Type := mkTopo { visited : gset string; order : list string }.

(** The closure [visit] of [TopoSortCategories]; reading a missing key of the
    map gives the empty name. *)
Fixpoint topoVisit (fuel : nat) (pm : gmap string string) (cyc : gset string)
    (name : string) (st : Topo) : option Topo :=
  match fuel with
  | 0 => None
  | S fuel =>
      if bool_decide (name ∈ visited st) || bool_decide (name ∈ cyc) then Some st else
      let st := mkTopo ({[name]} ∪ visited st) (order st) in
      let parent := default "" (pm !! name) in
      st ← (if bool_decide (parent = "") then Some st else
            match pm !! parent with
            | None => Some st
            | Some _ =>
                let st := if bool_decide (parent ∈ cyc) && bool_decide (parent ∉ visited st)
                          then mkTopo ({[parent]} ∪ visited st) (order st ++ [parent])
                          else st in
                topoVisit fuel pm cyc parent st
            end);
      Some (mkTopo (visited st) (order st ++ [name]))
  end.

Fixpoint topoVisitAll (fuel : nat) (pm : gmap string string) (cyc : gset string)
    (names : list string) (st : Topo) : option Topo :=
  match names with
  | [] => Some st
  | name :: names => st ← topoVisit fuel pm cyc name st; topoVisitAll fuel pm cyc names st
  end.

(** [TopoSortCategories]: [iter1] and [iter2] are the two iterations of the map. *)
Definition TopoSortCategories (pm : gmap string string) (cyc : gset string)
    (iter1 iter2 : list string) : option (list string) :=
  st ← topoVisitAll (S (S (size pm))) pm cyc iter1 (mkTopo ∅ []);
  Some (order st ++ filter (λ name, name ∈ cyc ∧ name ∉ visited st) iter2).

Definition before (l : list string) (p n : string) : Prop :=
  ∃ i j, i < j ∧ l !! i = Some p ∧ l !! j = Some n.

Lemma before_app l l' p n : before l p n → before (l ++ l') p n.
Proof.
  intros (i & j & ? & Hi & Hj). exists i, j.
  split_and!; [done|by apply lookup_app_l_Some..].
Qed.

Lemma before_snoc l p n : p ∈ l → before (l ++ [n]) p n.
Proof.
  intros [i Hi]%list_elem_of_lookup. exists i, (length l).
  split_and!; [by eapply lookup_lt_Some|by apply lookup_app_l_Some|].
  by apply list_lookup_middle.
Qed.

Section topo.
Context (pm : gmap string string) (cyc : gset string).
Context (Hcyc : ∀ x, x ∈ cyc ↔ on_cycle (parentOf pm) x).

(** The parent that must come first, when the map has one for the name. *)
Definition parentIn (n p : string) : Prop := parentOf pm n = Some p ∧ p ∈ dom pm.

(** [s] are the names being visited: visited, not yet ordered. *)
Record topo_inv (s : list string) (st : Topo) : Prop := {
  ti_visited : ∀ x, x ∈ visited st ↔ (x ∈ order st ∨ x ∈ s);
  ti_nodup : NoDup (order st ++ s);
  ti_dom : ∀ x, x ∈ order st ++ s → x ∈ dom pm;
  ti_acyclic : ∀ x, x ∈ s → x ∉ cyc;
  ti_before : ∀ n p, n ∈ order st → n ∉ cyc → parentIn n p → before (order st) p n;
}.

Lemma topo_inv_bound s st : topo_inv s st → length s ≤ size pm.
Proof.
  intros [_ Hnd Hd _ _]. apply NoDup_app in Hnd as (_ & _ & Hnd). rewrite <- size_dom.
  rewrite <- (size_list_to_set (C := gset string) s) by done.
  apply subseteq_size. intros x. rewrite elem_of_list_to_set. set_solver.
Qed.

(** Recording a cycle member ahead of its first child. *)
Lemma topo_inv_cycle_parent s st p :
  topo_inv s st → p ∈ cyc → p ∉ visited st → p ∈ dom pm →
  topo_inv s (mkTopo ({[p]} ∪ visited st) (order st ++ [p])).
Proof.
  intros [Hv Hnd Hd Ha Hb] Hp Hnv Hdom. split; simpl.
  - set_solver.
  - rewrite <- app_assoc. simpl. rewrite <- Permutation_middle. constructor; [|done].
    rewrite elem_of_app, <- Hv. done.
  - set_solver.
  - done.
  - intros n q Hn Hc Hq. apply before_app, Hb; [|done..]. set_solver.
Qed.

Lemma topo_inv_push s st n :
  topo_inv s st → n ∉ visited st → n ∉ cyc → n ∈ dom pm →
  topo_inv (s ++ [n]) (mkTopo ({[n]} ∪ visited st) (order st)).
Proof.
  intros [Hv Hnd Hd Ha Hb] Hn Hc Hdom. split; simpl.
  - set_solver.
  - rewrite app_assoc. apply NoDup_snoc. split; [|done]. rewrite elem_of_app, <- Hv. done.
  - set_solver.
  - set_solver.
  - done.
Qed.

Lemma topo_inv_pop s st n :
  topo_inv (s ++ [n]) st → (∀ p, parentIn n p → p ∈ order st) →
  topo_inv s (mkTopo (visited st) (order st ++ [n])).
Proof.
  intros [Hv Hnd Hd Ha Hb] Hp. split; simpl.
  - set_solver.
  - rewrite <- app_assoc. simpl. rewrite <- Permutation_middle.
    rewrite app_assoc in Hnd. by apply NoDup_cons, NoDup_snoc.
  - set_solver.
  - set_solver.
  - intros m q [Hm| ->%list_elem_of_singleton]%elem_of_app Hc Hq;
      [by apply before_app, Hb|by apply before_snoc, Hp].
Qed.

(** A visited name off the cycles is ordered: were it being visited, the path
    would close on it. *)
Lemma visited_ordered s st name :
  topo_inv s st → path (parentOf pm) s name → name ∈ visited st → name ∈ order st.
Proof using Hcyc.
  intros [Hv Hnd _ Ha _] Hp [?|Hin]%Hv; [done|]. exfalso.
  apply (Ha _ Hin), Hcyc. apply list_elem_of_split in Hin as (s1 & s2 & ->).
  apply NoDup_app in Hnd as (_ & _ & Hnd).
  destruct (path_loop _ s1 name s2 name Hp Hnd) as [Hl _]. apply Hl. by left.
Qed.

Lemma topoVisit_spec fuel : ∀ s st name,
  topo_inv s st → path (parentOf pm) s name → name ∈ dom pm →
  size pm + 2 ≤ fuel + length s → (name ∈ cyc → s ≠ [] → name ∈ visited st) →
  ∃ st', topoVisit fuel pm cyc name st = Some st' ∧ topo_inv s st' ∧
    (name ∉ cyc ∨ s ≠ [] → name ∈ order st') ∧ order st ⊆ order st'.
Proof using Hcyc.
  induction fuel as [|fuel IH]; intros s st name Hinv Hp Hdom Hf Hrec.
  { pose proof (topo_inv_bound _ _ Hinv). lia. }
  cbn [topoVisit]. cbv zeta. case_bool_decide as Hvis; cbn [orb].
  { exists st. split_and!; [done..| |done]. intros _. by eapply visited_ordered. }
  case_bool_decide as Hc.
  { exists st. split_and!; [done..| |done]. intros [?|Hs]; [done|].
    by destruct Hvis; apply Hrec. }
  set (st1 := mkTopo ({[name]} ∪ visited st) (order st)).
  assert (topo_inv (s ++ [name]) st1) as Hinv1 by (by apply topo_inv_push).
  (* the visit of the parent, when there is one to visit *)
  assert (∃ st2, (if bool_decide (default "" (pm !! name) = "") then Some st1 else
      match pm !! default "" (pm !! name) with
      | None => Some st1
      | Some _ => topoVisit fuel pm cyc (default "" (pm !! name))
          (if bool_decide (default "" (pm !! name) ∈ cyc) &&
              bool_decide (default "" (pm !! name) ∉ visited st1)
           then mkTopo ({[default "" (pm !! name)]} ∪ visited st1)
                       (order st1 ++ [default "" (pm !! name)]) else st1)
      end) = Some st2 ∧ topo_inv (s ++ [name]) st2 ∧
      (∀ p, parentIn name p → p ∈ order st2) ∧ order st1 ⊆ order st2) as Hpar.
  { set (parent := default "" (pm !! name)).
    assert (∀ p, parentIn name p → p = parent ∧ parent ≠ "" ∧ is_Some (pm !! parent)) as Hpi.
    { intros p [Hp1 Hp2]. apply elem_of_dom in Hp2. unfold parentOf in Hp1. unfold parent.
      destruct (pm !! name) as [[]|]; simplify_eq/=; done. }
    case_bool_decide as Hpe.
    { exists st1. split_and!; [done..| |done]. intros p (_ & ? & _)%Hpi. done. }
    destruct (pm !! parent) as [pp|] eqn:Hpp.
    2: { exists st1. split_and!; [done..| |done].
         intros p (_ & _ & [? ?])%Hpi. congruence. }
    assert (parent ∈ dom pm) as Hpd by (apply elem_of_dom; eauto).
    set (st2 := if bool_decide (parent ∈ cyc) && bool_decide (parent ∉ visited st1)
                then _ else st1).
    assert (topo_inv (s ++ [name]) st2 ∧ (parent ∈ cyc → parent ∈ visited st2) ∧
      order st1 ⊆ order st2) as (Hinv2 & Hcp & Hsub).
    { unfold st2. destruct (bool_decide_reflect (parent ∈ cyc)) as [Hpc|Hpc]; cbn [andb];
        [|by split_and!].
      destruct (bool_decide_reflect (parent ∉ visited st1)) as [Hpv|Hpv].
      - split_and!; [by apply topo_inv_cycle_parent|by intros _; apply elem_of_union_l, elem_of_singleton|].
        intros x Hx. apply elem_of_app. by left.
      - split_and!; [done| |done]. intros _. by apply dec_stable. }
    destruct (IH (s ++ [name]) st2 parent) as (st3 & Hv & Hinv3 & Hin & Hsub3); try done.
    - apply path_snoc. split; [done|]. unfold edge, parentOf. unfold parent in *.
      destruct (pm !! name) as [[]|]; done.
    - rewrite length_app. simpl. lia.
    - auto.
    - exists st3. split_and!; [done..| |set_solver].
      intros p (-> & _ & _)%Hpi. apply Hin. right. by destruct s. }
  destruct Hpar as (st2 & -> & Hinv2 & Hpo & Hsub). simpl.
  eexists. split; [done|]. split; [by apply topo_inv_pop|]. simpl. split.
  - intros _. set_solver.
  - set_solver.
Qed.

Lemma topoVisitAll_spec fuel names : ∀ st,
  topo_inv [] st → size pm + 2 ≤ fuel → (∀ x, x ∈ names → x ∈ dom pm) →
  ∃ st', topoVisitAll fuel pm cyc names st = Some st' ∧ topo_inv [] st' ∧
    (∀ x, x ∈ names → x ∉ cyc → x ∈ order st') ∧ order st ⊆ order st'.
Proof using Hcyc.
  induction names as [|n names IH]; intros st Hinv Hf Hd; simpl.
  { exists st. split_and!; [done..|set_solver|done]. }
  destruct (topoVisit_spec fuel [] st n) as (st1 & -> & Hinv1 & Hn & Hs1); try done.
  - apply Hd. by left.
  - simpl. lia.
  - simpl. destruct (IH st1) as (st2 & -> & Hinv2 & Hall & Hs2); [done..|set_solver|].
    exists st2. split_and!; [done..| |set_solver].
    intros x [->|Hx]%elem_of_cons Hc; [|auto]. apply Hs2, Hn. by left.
Qed.
End topo.

(** C15: given the cycle members, the sort ends, lists every category of the
    push exactly once, and lists the parent of each category that is on no cycle
    before the category itself, whatever the two iteration orders. *)
Theorem TopoSortCategories_correct pm cyc iter1 iter2 :
  (∀ x, x ∈ cyc ↔ on_cycle (parentOf pm) x) →
  (∀ x, x ∈ iter1 ↔ x ∈ dom pm) → NoDup iter2 → (∀ x, x ∈ iter2 ↔ x ∈ dom pm) →
  ∃ l, TopoSortCategories pm cyc iter1 iter2 = Some l ∧ NoDup l ∧
    (∀ x, x ∈ l ↔ x ∈ dom pm) ∧
    (∀ n p, n ∈ dom pm → n ∉ cyc → parentOf pm n = Some p → p ∈ dom pm → before l p n).
Proof.
  intros Hcyc H1 Hnd H2. unfold TopoSortCategories.
  destruct (topoVisitAll_spec pm cyc Hcyc (S (S (size pm))) iter1 (mkTopo ∅ []))
    as (st & -> & [Hv Hn Hd Ha Hb] & Hall & _); [|lia|naive_solver|].
  { split; simpl; [set_solver|constructor|set_solver..]. }
  simpl in *. rewrite app_nil_r in *.
  assert (∀ x, x ∈ visited st ↔ x ∈ order st) as Hv' by (intros x; rewrite Hv; set_solver).
  eexists. split; [done|]. split_and!.
  - apply NoDup_app. split_and!; [done| |by apply NoDup_filter].
    intros x Hx. rewrite list_elem_of_filter, Hv'. tauto.
  - intros x. rewrite elem_of_app, list_elem_of_filter, Hv', H2.
    destruct (decide (x ∈ cyc)), (decide (x ∈ order st)); naive_solver.
  - intros n p Hin Hc Hp Hpd. apply before_app, Hb; [|done|done].
    apply Hall; [|done]. by apply H1.
Qed.

(** ** Concrete hierarchies *)

(** [a → b → c → b], and [d] below [e] outside any cycle. *)
Definition pmap1 : gmap string string :=
  <["a" := "b"]> (<["b" := "c"]> (<["c" := "b"]> (<["d" := "e"]> {["e" := ""]}))).
Definition keys1 : list string := ["a"; "b"; "c"; "d"; "e"].

Lemma keys1_dom x : x ∈ keys1 ↔ x ∈ dom pmap1.
Proof. unfold pmap1, keys1. rewrite !dom_insert_L, dom_singleton_L. set_solver. Qed.

Lemma DetectCycles_correct_witness :
  DetectCycles pmap1 keys1 = Some {["b"; "c"]} ∧
  ∃ C, DetectCycles pmap1 keys1 = Some C ∧ ∀ x, x ∈ C ↔ on_cycle (parentOf pmap1) x.
Proof.
  split; [vm_compute; reflexivity|]. exact (DetectCycles_correct pmap1 keys1 keys1_dom).
Defined.

Lemma TopoSortCategories_correct_witness :
  ∃ C, DetectCycles pmap1 keys1 = Some C ∧
  ∃ l, TopoSortCategories pmap1 C keys1 keys1 = Some l ∧ NoDup l ∧
    (∀ x, x ∈ l ↔ x ∈ dom pmap1) ∧
    (∀ n p, n ∈ dom pmap1 → n ∉ C → parentOf pmap1 n = Some p → p ∈ dom pmap1 → before l p n).
Proof.
  destruct (DetectCycles_correct pmap1 keys1 keys1_dom) as (C & HC & Hin).
  exists C. split; [exact HC|].
  apply (TopoSortCategories_correct pmap1 C keys1 keys1 Hin keys1_dom); [|exact keys1_dom].
  refine (bool_decide_unpack _ _). vm_compute. exact I.
Defined.
