(* ===== verification/CategoryReconciler.v ===== *)
(** * The category reconciler

    [gitstore-controller-manager/internal/categorytaxonomy] and the status
    patches of [internal/status]: how a category's place in the hierarchy and
    its conditions are computed and written back. *)

From S2P Require Import Prelude WorkTypes CategoryGraph.

(** ** Status patches *)

Record Condition : Type := mkCond {
  c_Type : string;
  c_Status : string;
  c_ObservedGeneration : Z;
  c_LastTransitionTime : Z;
  c_Reason : string;
  c_Message : string;
}.
#[global] Instance Condition_eq_dec : EqDecision Condition.
Proof. solve_decision. Defined.

(** A raw JSON payload is its text; [None] is the nil slice. *)
Record ResourceStatus : Type := mkStatus {
  s_ResourceVersion : string;
  s_ObservedGeneration : Z;
  s_LastAppliedRevision : string;
  s_Conditions : list (option Condition);
  s_Resolved : option string;
}.
Record StatusPatch : Type := mkPatch {
  sp_ResourceVersion : string;
  sp_ObservedGeneration : option Z;
  sp_LastAppliedRevision : option string;
  sp_Conditions : option (list (option Condition));
  sp_Resolved : option string;
}.

(** [conditionsEqual]: elementwise, with nil equal to nil only. *)
Definition conditionsEqual (a b : list (option Condition)) : bool := bool_decide (a = b).

(** [bytes.Equal] does not tell nil from empty. *)
Definition IsNoOp (p : StatusPatch) (current : ResourceStatus) : bool :=
  if negb (bool_decide (sp_ResourceVersion p = s_ResourceVersion current)) then false else
  if negb (match sp_ObservedGeneration p with
           | None => (s_ObservedGeneration current =? 0)%Z
           | Some g => (g =? s_ObservedGeneration current)%Z end) then false else
  if negb (match sp_LastAppliedRevision p with
           | None => true
           | Some r => bool_decide (r = s_LastAppliedRevision current) end) then false else
  if negb (match sp_Conditions p with
           | None => true
           | Some cs => conditionsEqual cs (s_Conditions current) end) then false else
  match sp_Resolved p with
  | None => true
  | Some r => bool_decide (r = default "" (s_Resolved current))
  end.

(** ** Categories *)

Record MediaRef : Type := mkMedia { md_Name : string; md_Optional : bool }.

(** [CategoryTaxonomy]; owner references play no part in reconciliation. *)
Record CategoryTaxonomy : Type := mkCategory {
  ct_UID : string;
  ct_Namespace : string;
  ct_Name : string;
  ct_Generation : Z;
  ct_ResourceVersion : string;
  ct_Finalizers : list string;
  ct_DeletionTimestamp : option Z;
  ct_ParentRefName : string;
  ct_Media : list MediaRef;
  ct_Status : ResourceStatus;
}.

(** [ResolvedCategoryTaxonomy]: the depth is an [int8]. *)
Record ResolvedCategoryTaxonomy : Type := mkResolved {
  Depth : Z;
  Path : list string;
  ChildCount : Z;
  ProductCount : Z;
}.
#[global] Instance Resolved_eq_dec : EqDecision ResolvedCategoryTaxonomy.
Proof. solve_decision. Defined.

(** Conversion to [int8] keeps the low eight bits. *)
Definition int8 (z : Z) : Z := ((z + 128) mod 256 - 128)%Z.

(** ** Conditions *)

Definition conditionParentResolved : string := "ParentResolved".
Definition conditionAcyclic : string := "Acyclic".
Definition conditionReady : string := "Ready".
Definition conditionFileRefPrefix : string := "FileRefConfirmed".
Definition statusTrue : string := "TRUE".
Definition statusFalse : string := "FALSE".
Definition statusUnknown : string := "UNKNOWN".

(** The texts of messages are informative; the one with a format is built from
    the same pieces in the same order. *)
Definition parentResolvedCondition (now : Z) (self : CategoryTaxonomy) (found : bool) : Condition :=
  if negb found then
    mkCond conditionParentResolved statusFalse 0 now "ParentNotFound"
      ("parentRef " +:+ ct_ParentRefName self +:+
       " does not resolve to an existing CategoryTaxonomy in namespace " +:+ ct_Namespace self)
  else mkCond conditionParentResolved statusTrue 0 now "" "".

Definition computeAcyclic (now : Z) (inCycle : bool) : Condition :=
  if inCycle then
    mkCond conditionAcyclic statusFalse 0 now "CycleDetected"
      "this category participates in a parent-reference cycle"
  else mkCond conditionAcyclic statusTrue 0 now "" "".

Definition computeFileRefCondition (now : Z) (self : CategoryTaxonomy) : option Condition :=
  let required := filter (λ m, md_Optional m = false) (ct_Media self) in
  match required with
  | [] => None
  | _ => Some (mkCond conditionFileRefPrefix statusUnknown 0 now "FileNotQueryable"
      "required file reference(s) could not be confirmed: File resources are not yet queryable (issue #79)")
  end.

Definition computeReady (now : Z) (parentResolved acyclic : Condition) (fileRef : option Condition)
  : Condition :=
  let ready := bool_decide (c_Status parentResolved = statusTrue) &&
               bool_decide (c_Status acyclic = statusTrue) in
  let ready := match fileRef with
               | Some f => if bool_decide (c_Status f = statusTrue) then ready else false
               | None => ready end in
  if ready then mkCond conditionReady statusTrue 0 now "" ""
  else mkCond conditionReady statusFalse 0 now "ConditionsNotSatisfied"
         "one or more of ParentResolved/Acyclic/FileRefConfirmed is not True".

Fixpoint conditionStatusByType (cs : list (option Condition)) (condType : string) : string :=
  match cs with
  | [] => ""
  | Some c :: cs => if bool_decide (c_Type c = condType) then c_Status c
                    else conditionStatusByType cs condType
  | None :: cs => conditionStatusByType cs condType
  end.

(** [preserveLastTransitionTimes]: the map of prior conditions by type keeps
    the last one of each type. *)
Definition priorByType (prior : list (option Condition)) : gmap string Condition :=
  foldl (λ m o, match o with Some p => <[c_Type p := p]> m | None => m end) ∅ prior.
Definition preserveTime (prior : gmap string Condition) (f : Condition) : Condition :=
  match prior !! c_Type f with
  | Some p => if bool_decide (c_Status p = c_Status f)
              then mkCond (c_Type f) (c_Status f) (c_ObservedGeneration f)
                     (c_LastTransitionTime p) (c_Reason f) (c_Message f)
              else f
  | None => f
  end.
Definition preserveLastTransitionTimes (fresh : list Condition) (prior : list (option Condition))
  : list Condition := preserveTime (priorByType prior) <$> fresh.

Definition hierarchyChanged (previous : option ResolvedCategoryTaxonomy)
    (current : ResolvedCategoryTaxonomy) : bool :=
  match previous with
  | None => true
  | Some p => negb (Depth p =? Depth current)%Z || negb (bool_decide (Path p = Path current))
  end.

(** ** The hierarchy walk *)

Inductive HierarchyError : Type :=
| HDepth (* [errHierarchyDepth] *)
| HOther (e : Error).

(** The loop of [boundedHierarchy]. [lookup] answers for a name in the
    category's own namespace. [path] is from the category upwards; its names
    are the keys of [seen]. [None] is running out of fuel. *)
Fixpoint walk (fuel : nat) (lookup : string → result Error (option CategoryTaxonomy))
    (self : string) (path : list string) (current : CategoryTaxonomy) (parentFound : bool)
  : option (result HierarchyError (list string * bool * bool)) :=
  match fuel with
  | 0 => None
  | S fuel =>
      let p := ct_ParentRefName current in
      if bool_decide (p = "") then Some (Ok (path, false, parentFound)) else
      if bool_decide (p ∈ path) then Some (Ok (path, bool_decide (p = self), parentFound)) else
      match lookup p with
      | Err e => Some (Err (HOther e))
      | Ok found =>
          let parentFound := if bool_decide (length path = 1)
            then match found with Some _ => true | None => false end else parentFound in
          match found with
          | None => Some (Ok (path, false, parentFound))
          | Some parent =>
              if bool_decide (length path = 128) then Some (Err HDepth)
              else walk fuel lookup self (path ++ [ct_Name parent]) parent parentFound
          end
      end
  end.

(** [boundedHierarchy]: the resolved place, whether the category is on a
    cycle, and whether its parent was found. *)
Definition boundedHierarchy (lookup : string → result Error (option CategoryTaxonomy))
    (children : result Error Z) (self : CategoryTaxonomy) (products : Z)
  : option (result HierarchyError (ResolvedCategoryTaxonomy * bool * bool)) :=
  let parentFound := bool_decide (ct_ParentRefName self = "") ||
                     bool_decide (ct_ParentRefName self = ct_Name self) in
  r ← walk 129 lookup (ct_Name self) [ct_Name self] self parentFound;
  match r with
  | Err e => Some (Err e)
  | Ok (path, cycling, parentFound) =>
      match children with
      | Err e => Some (Err (HOther (EWrap ("count children: " +:+ ErrorText e) e)))
      | Ok n => Some (Ok (mkResolved (int8 (Z.of_nat (length path) - 1)) (reverse path) n products,
                          cycling, parentFound))
      end
  end.

(** ** The walk follows the parents *)

Section walk.
Context (lookup : string → result Error (option CategoryTaxonomy)).
(** The cache stores a category under its own name. *)
Context (Hname : ∀ n c, lookup n = Ok (Some c) → ct_Name c = n).

(** The parent a cached category names. *)
Definition cachedParent (n : string) : option string :=
  match lookup n with
  | Ok (Some c) => if bool_decide (ct_ParentRefName c = "") then None
                   else Some (ct_ParentRefName c)
  | _ => None
  end.

(** Each name of the list, from the category upwards, is cached and names the
    next one as its parent. *)
Definition ascends (l : list string) : Prop :=
  ∀ i a b, l !! i = Some a → l !! S i = Some b → edge cachedParent a b.

Lemma path_ascends s x : path cachedParent s x → ascends (s ++ [x]).
Proof.
  induction s as [|y s IH]; intros Hp i a b Ha Hb.
  - destruct i; simpl in *; [done|]. by rewrite lookup_nil in Ha.
  - destruct Hp as [He Hp]. destruct i as [|i]; [|by apply (IH Hp i)].
    simplify_eq/=. by destruct s; simplify_eq/=.
Qed.

Lemma walk_spec fuel self : ∀ s current pf,
  lookup (ct_Name current) = Ok (Some current) →
  head (s ++ [ct_Name current]) = Some self →
  path cachedParent s (ct_Name current) → NoDup (s ++ [ct_Name current]) →
  length s < 128 → 129 ≤ fuel + S (length s) →
  ∃ r, walk fuel lookup self (s ++ [ct_Name current]) current pf = Some r ∧
  ∀ l cycling pf', r = Ok (l, cycling, pf') →
    head l = Some self ∧ NoDup l ∧ length l ≤ 128 ∧ ascends l ∧
    (cycling = true ↔ on_cycle cachedParent self).
Proof.
  induction fuel as [|fuel IH]; intros s current pf Hcur Hhd Hp Hnd Hlen Hf; [lia|].
  cbn [walk]. cbv zeta.
  assert (∀ l, l = s ++ [ct_Name current] →
    head l = Some self ∧ NoDup l ∧ length l ≤ 128 ∧ ascends l) as Hend.
  { intros l ->. rewrite length_app. split_and!; [done..|simpl; lia|by apply path_ascends]. }
  assert (self ∈ s ++ [ct_Name current]) as Hself.
  { destruct (s ++ [ct_Name current]); simplify_eq/=. by left. }
  assert (Hdead : ∀ t (P : string → Prop), path cachedParent (s ++ [ct_Name current]) t → P t →
    (∀ a b, P a → edge cachedParent a b → P b) →
    (∀ a, a ∈ s ++ [ct_Name current] → ¬ P a) → ¬ on_cycle cachedParent self).
  { intros t P Hpt Ht Hcl Hd. by eapply path_into_closed. }
  case_bool_decide as Hroot.
  { eexists. split; [done|]. intros l c pf' ?; simplify_eq.
    destruct (Hend _ eq_refl) as (? & ? & ? & ?). split_and!; [done..|]. split; [done|].
    intros Hc. exfalso. assert (rtc (edge cachedParent) self (ct_Name current)) as Hr.
    { apply elem_of_app in Hself as [Hs| ->%list_elem_of_singleton]; [|done].
      apply tc_rtc. by eapply path_reaches. }
    apply (on_cycle_reaches_back _ _ _ Hc) in Hr as Hb.
    assert (on_cycle cachedParent (ct_Name current)) as [z Hz]%on_cycle_has_next.
    { eapply tc_rtc_l; [exact Hb|]. eapply tc_rtc_r; [exact Hc|exact Hr]. }
    unfold cachedParent in Hz. rewrite Hcur in Hz. by case_bool_decide. }
  assert (Hedge : edge cachedParent (ct_Name current) (ct_ParentRefName current)).
  { unfold edge, cachedParent. rewrite Hcur. by case_bool_decide. }
  assert (Hpp : path cachedParent (s ++ [ct_Name current]) (ct_ParentRefName current)).
  { by apply path_snoc. }
  case_bool_decide as Hseen.
  { eexists. split; [done|]. intros l c pf' ?; simplify_eq.
    destruct (Hend _ eq_refl) as (? & ? & ? & ?). split_and!; [done..|].
    rewrite bool_decide_eq_true.
    apply list_elem_of_split in Hseen as (l1 & l2 & El).
    rewrite El in Hpp, Hnd, Hself, Hhd.
    destruct (path_loop _ l1 (ct_ParentRefName current) l2 self Hpp Hnd) as [Hin Hout].
    destruct l1 as [|a l1]; simplify_eq/=.
    - split; [|done]. intros _. apply Hin. by left.
    - split; [|intros Hc; exfalso; apply Hout; [by left|done]].
      intros E. exfalso. rewrite E in Hnd. apply NoDup_cons in Hnd as [Hnd _]. set_solver. }
  destruct (lookup (ct_ParentRefName current)) as [[parent|]|e] eqn:Hl.
  - case_bool_decide as H128; [by eexists|].
    rewrite length_app in H128. simpl in H128.
    apply IH.
    + by rewrite (Hname _ _ Hl).
    + destruct s; done.
    + by rewrite (Hname _ _ Hl).
    + rewrite (Hname _ _ Hl). by apply NoDup_snoc.
    + rewrite length_app. simpl. lia.
    + rewrite length_app. simpl. lia.
  - eexists. split; [done|]. intros l c pf' ?; simplify_eq.
    destruct (Hend _ eq_refl) as (? & ? & ? & ?). split_and!; [done..|]. split; [done|].
    intros Hc. exfalso.
    eapply (Hdead _ (λ x, x = ct_ParentRefName current) Hpp eq_refl); [| |done].
    + intros a b -> He. unfold edge, cachedParent in He. by rewrite Hl in He.
    + intros a Ha ->. done.
  - eexists. split; [done|]. intros; simplify_eq.
Qed.

(** C16: the walk always ends. When it reports a place in the hierarchy, the
    path is duplicate-free, leads from some ancestor down to the category
    through the cached parents, and has at most 128 names, so that the depth is
    the length of the path minus one and fits its 8-bit field; and the category
    is reported as cycling exactly when it lies on a cycle. *)
Theorem boundedHierarchy_correct children self products :
  lookup (ct_Name self) = Ok (Some self) →
  ∃ r, boundedHierarchy lookup children self products = Some r ∧
  ∀ h cycling found, r = Ok (h, cycling, found) →
    last (Path h) = Some (ct_Name self) ∧ NoDup (Path h) ∧ ascends (reverse (Path h)) ∧
    Depth h = (Z.of_nat (length (Path h)) - 1)%Z ∧ (0 ≤ Depth h ≤ 127)%Z ∧
    (cycling = true ↔ on_cycle cachedParent (ct_Name self)).
Proof using Hname.
  intros Hself. unfold boundedHierarchy.
  destruct (walk_spec 129 (ct_Name self) [] self
    (bool_decide (ct_ParentRefName self = "") ||
     bool_decide (ct_ParentRefName self = ct_Name self))) as (r & Hw & Hr);
    [done|done|done|apply NoDup_singleton|cbn [length]; lia..|].
  cbn [app] in Hw. rewrite Hw. clear Hw. cbn [mbind option_bind].
  destruct r as [[[l c] pf]|e]; [|eexists; split; [done|]; intros; simplify_eq].
  destruct (Hr _ _ _ eq_refl) as (Hhd & Hnd & Hlen & Has & Hc).
  destruct children as [n|e]; (eexists; split; [done|]); intros h c' f ?; simplify_eq/=.
  assert (length l ≠ 0) by (by destruct l).
  rewrite reverse_involutive, length_reverse. unfold int8.
  rewrite Z.mod_small by lia. split_and!; try done; try lia.
  - destruct l; simplify_eq/=. by rewrite reverse_cons, last_snoc.
  - by rewrite reverse_Permutation.
Qed.
End walk.

(** ** Reconciliation *)

Definition foregroundFinalizer : string := "gitstore.dev/foreground-deletion".
Definition categoryConflictRequeueDelay : Z := 100 * millisecond.
Definition categoryDeletionRetryInterval : Z := second.

Definition terminating (current : CategoryTaxonomy) : bool :=
  match ct_DeletionTimestamp current with Some _ => true | None => false end ||
  bool_decide (foregroundFinalizer ∈ ct_Finalizers current).

(** The calls of a reconciliation that change something, in order. *)
Inductive Call : Type :=
| CallChildren
| CallApply (p : StatusPatch)
| CallDecouple
| CallComplete.

(** What the collaborators of the reconciler answer during one reconciliation.
    [e_clock i] is the [i]-th reading of the clock; an absent collaborator is a
    nil function or interface. *)
Record DeletionClient : Type := mkDeletion {
  dc_decouple : result Error bool;
  dc_complete : option Error;
}.
Record Env : Type := mkEnv {
  e_lookup : WorkItemKey → result Error (option CategoryTaxonomy);
  e_productCount : option (result Error Z);
  e_childCount : result Error Z;
  e_children : option (option Error);
  e_apply : StatusPatch → option Error;
  e_deletion : option DeletionClient;
  e_clock : nat → Z;
}.

Section reconcile.
(** [encoding/json] at the resolved payload. *)
Context (marshal : ResolvedCategoryTaxonomy → string).
Context (unmarshal : string → option ResolvedCategoryTaxonomy).

Definition previousResolved (raw : option string) : option ResolvedCategoryTaxonomy :=
  match raw with
  | None => None
  | Some r => if bool_decide (r = "") then None else unmarshal r
  end.

Definition reconcileDeletion (env : Env) (current : CategoryTaxonomy)
  : list Call * ReconcileResult :=
  match e_deletion env with
  | None => ([], Success)
  | Some d =>
      if negb (terminating current) then ([], Success) else
      match dc_decouple d with
      | Err e => ([CallDecouple], TransientFailure
                    (Some (EWrap ("categorytaxonomy: decouple Products: " +:+ ErrorText e) e)) 0)
      | Ok true => ([CallDecouple], RequeueAfter categoryDeletionRetryInterval)
      | Ok false =>
          ([CallDecouple; CallComplete],
           match dc_complete d with
           | Some e => TransientFailure
               (Some (EWrap ("categorytaxonomy: complete deletion: " +:+ ErrorText e) e)) 0
           | None => Success
           end)
      end
  end.

(** The conditions of a reconciliation, before their times are preserved. *)
Definition freshConditions (clock : nat → Z) (current : CategoryTaxonomy)
    (parentFound inCycle : bool) : list Condition :=
  let parentResolved := parentResolvedCondition (clock 0) current parentFound in
  let acyclic := computeAcyclic (clock 1) inCycle in
  let fileRef := computeFileRefCondition (clock 2) current in
  let ready := computeReady (clock 3) parentResolved acyclic fileRef in
  [parentResolved; acyclic] ++ option_list fileRef ++ [ready] ++
  (if terminating current then
     [mkCond "Terminating" statusTrue (ct_Generation current)
        (default (clock 4) (ct_DeletionTimestamp current)) "DeletionRequested"
        "CategoryTaxonomy is awaiting foreground deletion completion."] else []).

(** Cycle participants keep the path and depth last observed. *)
Definition resolvedInCycle (current : CategoryTaxonomy) (inCycle : bool)
    (previous : option ResolvedCategoryTaxonomy) (r : ResolvedCategoryTaxonomy)
  : ResolvedCategoryTaxonomy :=
  if negb inCycle then r else
  match previous with
  | Some p => mkResolved (Depth p) (Path p) (ChildCount r) (ProductCount r)
  | None => mkResolved (Depth r) [ct_Name current] (ChildCount r) (ProductCount r)
  end.

(** What is written once the hierarchy is known. *)
Definition writeStatus (env : Env) (current : CategoryTaxonomy) (h : ResolvedCategoryTaxonomy)
    (inCycle parentFound : bool) : list Call * ReconcileResult :=
  let previous := previousResolved (s_Resolved (ct_Status current)) in
  let resolved := resolvedInCycle current inCycle previous h in
  let prior := s_Conditions (ct_Status current) in
  let acyclicChanged := negb (bool_decide
    (conditionStatusByType prior conditionAcyclic =
     c_Status (computeAcyclic (e_clock env 1) inCycle))) in
  let conditions := preserveLastTransitionTimes
    (freshConditions (e_clock env) current parentFound inCycle) prior in
  let patch := mkPatch (ct_ResourceVersion current) (Some (ct_Generation current)) None
                 (Some (Some <$> conditions)) (Some (marshal resolved)) in
  if IsNoOp patch (ct_Status current) then reconcileDeletion env current else
  let notify := (hierarchyChanged previous resolved || acyclicChanged) in
  let '(calls, failed) :=
    match e_children env with
    | Some err => if notify then ([CallChildren], err) else ([], None)
    | None => ([], None)
    end in
  match failed with
  | Some e => (calls, TransientFailure
      (Some (EWrap ("categorytaxonomy: persist child reconciliation: " +:+ ErrorText e) e)) 0)
  | None =>
      (calls ++ [CallApply patch],
       match e_apply env patch with
       | Some e => if errorsIs e ErrConflict then RequeueAfter categoryConflictRequeueDelay
                   else TransientFailure (Some e) 0
       | None => if terminating current then RequeueAfter categoryDeletionRetryInterval
                 else Success
       end)
  end.

Definition Reconcile (env : Env) (key : WorkItemKey) : option (list Call * ReconcileResult) :=
  match e_lookup env key with
  | Err e => Some ([], TransientFailure
      (Some (EWrap ("categorytaxonomy: read projection: " +:+ ErrorText e) e)) 0)
  | Ok None => Some ([], Success)
  | Ok (Some current) =>
      match default (Ok 0%Z) (e_productCount env) with
      | Err e => Some ([], TransientFailure
          (Some (EWrap ("categorytaxonomy: count products: " +:+ ErrorText e) e)) 0)
      | Ok productCount =>
          r ← boundedHierarchy
                (λ n, e_lookup env (mkKey "CategoryTaxonomy" (ct_Namespace current) n))
                (e_childCount env) current productCount;
          match r with
          | Err HDepth => Some ([], TerminalFailure
              (EOpaque "category hierarchy exceeds the supported depth of 127"))
          | Err (HOther e) => Some ([], TransientFailure
              (Some (EWrap ("categorytaxonomy: resolve hierarchy: " +:+ ErrorText e) e)) 0)
          | Ok (h, inCycle, parentFound) =>
              Some (writeStatus env current h inCycle parentFound)
          end
      end
  end.

(** ** Status is written once *)

(** The category as the API returns it after applying a patch: the patch's
    fields are stored and both resource versions move to the new one. *)
Definition applied (c : CategoryTaxonomy) (p : StatusPatch) (rv : string) : CategoryTaxonomy :=
  mkCategory (ct_UID c) (ct_Namespace c) (ct_Name c) (ct_Generation c) rv (ct_Finalizers c)
    (ct_DeletionTimestamp c) (ct_ParentRefName c) (ct_Media c)
    (mkStatus rv (default (s_ObservedGeneration (ct_Status c)) (sp_ObservedGeneration p))
       (default (s_LastAppliedRevision (ct_Status c)) (sp_LastAppliedRevision p))
       (default (s_Conditions (ct_Status c)) (sp_Conditions p))
       (match sp_Resolved p with Some r => Some r | None => s_Resolved (ct_Status c) end)).

(** Conditions that differ at most in their transition time. *)
Definition sameButTime (a b : Condition) : Prop :=
  c_Type a = c_Type b ∧ c_Status a = c_Status b ∧
  c_ObservedGeneration a = c_ObservedGeneration b ∧
  c_Reason a = c_Reason b ∧ c_Message a = c_Message b.

Lemma preserveTime_same m f : sameButTime (preserveTime m f) f.
Proof. unfold preserveTime. repeat case_match; by repeat split. Qed.

Lemma priorByType_lookup cs g :
  NoDup (c_Type <$> cs) → g ∈ cs → priorByType (Some <$> cs) !! c_Type g = Some g.
Proof.
  unfold priorByType. intros Hnd Hin.
  assert (∀ m : gmap string Condition,
    foldl (λ m o, match o with Some p => <[c_Type p := p]> m | None => m end) m
    (Some <$> cs) !! c_Type g = Some g) as H; [|apply H].
  induction cs as [|c cs IH]; [set_solver|]. intros m.
  cbn [fmap list_fmap] in Hnd. apply NoDup_cons in Hnd as [Hc Hnd]. simpl.
  apply elem_of_cons in Hin as [->|Hin]; [|by apply IH].
  assert (∀ cs (m : gmap string Condition), c_Type c ∉ c_Type <$> cs →
    foldl (λ m o, match o with Some p => <[c_Type p := p]> m | None => m end) m
    (Some <$> cs) !! c_Type c = m !! c_Type c) as Hframe.
  { clear. induction cs as [|d cs IH]; intros m Hn; [done|]. simpl.
    rewrite IH by set_solver. apply lookup_insert_ne. set_solver. }
  rewrite Hframe by done. apply lookup_insert_eq.
Qed.

Lemma preserve_again l l' prior :
  NoDup (c_Type <$> l) → Forall2 sameButTime l' l →
  preserveLastTransitionTimes l' (Some <$> preserveLastTransitionTimes l prior) =
  preserveLastTransitionTimes l prior.
Proof.
  intros Hnd Hf. set (gs := preserveLastTransitionTimes l prior).
  assert (c_Type <$> gs = c_Type <$> l) as Ht.
  { unfold gs, preserveLastTransitionTimes. rewrite <- list_fmap_compose.
    apply list_fmap_ext. intros i x _. apply preserveTime_same. }
  assert (Forall2 sameButTime l' gs) as Hg.
  { unfold gs, preserveLastTransitionTimes. clear -Hf. induction Hf as [|x y l' l Hxy Hf IH];
      simpl; constructor; [|done].
    destruct (preserveTime_same (priorByType prior) y) as (? & ? & ? & ? & ?).
    destruct Hxy as (? & ? & ? & ? & ?). repeat split; congruence. }
  assert (∀ g, g ∈ gs → priorByType (Some <$> gs) !! c_Type g = Some g) as Hl.
  { intros g Hin. apply priorByType_lookup; [by rewrite Ht|done]. }
  unfold preserveLastTransitionTimes at 1. revert Hl.
  generalize (priorByType (Some <$> gs)). clear -Hg. intros m. induction Hg as [|f g l' gs Hfg Hg IH]; intros Hl; [done|].
  simpl. f_equal; [|apply IH; set_solver].
  destruct Hfg as (E1 & E2 & E3 & E4 & E5). unfold preserveTime. rewrite E1.
  rewrite (Hl g) by (by left). rewrite bool_decide_eq_true_2 by done.
  destruct g; simpl in *. by rewrite E2, E3, E4, E5.
Qed.

(** The walk never asks for a name it has already visited. *)
Lemma walk_ext lookup lookup' self : ∀ fuel l current current' pf,
  (∀ n, n ∉ l → lookup n = lookup' n) →
  ct_ParentRefName current = ct_ParentRefName current' →
  walk fuel lookup self l current pf = walk fuel lookup' self l current' pf.
Proof.
  induction fuel as [|fuel IH]; intros l current current' pf Hl Hc; [done|].
  cbn [walk]. cbv zeta. rewrite <- Hc. case_bool_decide; [done|].
  case_bool_decide as Hin; [done|]. rewrite <- Hl by done.
  destruct (lookup (ct_ParentRefName current)) as [[parent|]|]; [|done..].
  destruct (bool_decide (length l = 128)); [done|]. apply IH; [|done].
  intros n Hn. apply Hl. set_solver.
Qed.

Lemma boundedHierarchy_ext lookup lookup' children self self' products :
  (∀ n, n ≠ ct_Name self → lookup n = lookup' n) →
  ct_Name self = ct_Name self' → ct_ParentRefName self = ct_ParentRefName self' →
  boundedHierarchy lookup children self products =
  boundedHierarchy lookup' children self' products.
Proof.
  intros Hl Hn Hp. unfold boundedHierarchy. rewrite <- Hn, <- Hp.
  rewrite (walk_ext lookup lookup' (ct_Name self) 129 [ct_Name self] self self'); [done| |done].
  intros n Hx. apply Hl. set_solver.
Qed.

Lemma freshConditions_types clock current pf cy :
  NoDup (c_Type <$> freshConditions clock current pf cy).
Proof.
  unfold freshConditions, parentResolvedCondition, computeAcyclic, computeFileRefCondition,
    computeReady.
  repeat case_match; cbn; apply (bool_decide_unpack _); vm_compute; reflexivity.
Qed.

Lemma freshConditions_again clock clock' c c' pf cy :
  ct_Namespace c = ct_Namespace c' → ct_ParentRefName c = ct_ParentRefName c' →
  ct_Generation c = ct_Generation c' → ct_Finalizers c = ct_Finalizers c' →
  ct_DeletionTimestamp c = ct_DeletionTimestamp c' → ct_Media c = ct_Media c' →
  Forall2 sameButTime (freshConditions clock' c' pf cy) (freshConditions clock c pf cy).
Proof.
  intros E1 E2 E3 E4 E5 E6. unfold freshConditions, computeFileRefCondition, terminating.
  rewrite <- E3, <- E4, <- E5, <- E6.
  repeat apply Forall2_app; repeat constructor; simpl.
  1-5: unfold parentResolvedCondition; rewrite ?E1, ?E2; by destruct pf.
  1-5: by destruct cy.
  1: destruct (filter _ _); repeat constructor.
  1-5: unfold computeReady, parentResolvedCondition; rewrite ?E1, ?E2;
    destruct (filter _ _); by destruct pf, cy.
  destruct (_ || _); repeat constructor.
Qed.

(** The payload of a patch reads back as the value it was made from, as
    [encoding/json] promises for values whose names are valid UTF-8. *)
Definition readsBack (p : StatusPatch) : Prop :=
  ∀ r, sp_Resolved p = Some (marshal r) → unmarshal (marshal r) = Some r ∧ marshal r ≠ "".

(** The patch a write of the status applies, when it applies one. *)
Definition statusPatch (clock : nat → Z) (c : CategoryTaxonomy) (h : ResolvedCategoryTaxonomy)
    (cy pf : bool) : StatusPatch :=
  mkPatch (ct_ResourceVersion c) (Some (ct_Generation c)) None
    (Some (Some <$> preserveLastTransitionTimes (freshConditions clock c pf cy)
             (s_Conditions (ct_Status c))))
    (Some (marshal (resolvedInCycle c cy (previousResolved (s_Resolved (ct_Status c))) h))).

Lemma reconcileDeletion_no_apply env c p calls res :
  reconcileDeletion env c = (calls, res) → CallApply p ∉ calls.
Proof. unfold reconcileDeletion. intros E. repeat case_match; simplify_eq/=; set_solver. Qed.

Lemma writeStatus_patch env c h cy pf calls res p :
  writeStatus env c h cy pf = (calls, res) → CallApply p ∈ calls →
  p = statusPatch (e_clock env) c h cy pf.
Proof.
  unfold writeStatus. fold (statusPatch (e_clock env) c h cy pf).
  generalize (statusPatch (e_clock env) c h cy pf). intros q E Hin.
  destruct (IsNoOp q _); [by apply reconcileDeletion_no_apply with (p := p) in E|].
  destruct (e_children env) as [[e|]|]; repeat case_match; simplify_eq/=; set_solver.
Qed.

Lemma statusPatch_noop clock clock' c h cy pf rv :
  readsBack (statusPatch clock c h cy pf) →
  let c' := applied c (statusPatch clock c h cy pf) rv in
  IsNoOp (statusPatch clock' c' h cy pf) (ct_Status c') = true.
Proof.
  set (q := statusPatch clock c h cy pf). intros Hq. cbv zeta.
  assert (sp_Conditions (statusPatch clock' (applied c q rv) h cy pf) = sp_Conditions q) as Hc.
  { unfold q, statusPatch. cbn [sp_Conditions applied ct_Status s_Conditions default].
    do 2 f_equal. apply preserve_again; [apply freshConditions_types|].
    by apply freshConditions_again. }
  assert (sp_Resolved (statusPatch clock' (applied c q rv) h cy pf) = sp_Resolved q) as Hr.
  { assert (∀ r, sp_Resolved q = Some (marshal r) → previousResolved (Some (marshal r)) = Some r)
      as Hprev.
    { intros r [Hu Ht]%Hq. unfold previousResolved. by rewrite bool_decide_eq_false_2. }
    unfold q, statusPatch. cbn [sp_Resolved applied ct_Status s_Resolved].
    rewrite Hprev by done. do 2 f_equal.
    unfold resolvedInCycle. destruct cy; simpl; [|done]. by destruct (previousResolved _). }
  unfold IsNoOp. rewrite Hc, Hr. unfold statusPatch at 1 2 3, applied, q, statusPatch.
  cbn -[preserveLastTransitionTimes freshConditions fmap]. unfold conditionsEqual.
  by rewrite !bool_decide_eq_true_2, Z.eqb_refl by done.
Qed.

(** C17: reconciling writes a category's status once. When a reconciliation
    applied a patch and the API stored it, giving the category a new resource
    version, the next reconciliation of it with the same neighbours and counts,
    at any later clock readings, calls neither the children nor the status
    client: it goes straight to the deletion protocol. *)
Theorem Reconcile_idempotent env env' key current calls res p rv :
  e_lookup env key = Ok (Some current) →
  key = mkKey "CategoryTaxonomy" (ct_Namespace current) (ct_Name current) →
  Reconcile env key = Some (calls, res) → CallApply p ∈ calls →
  e_lookup env' key = Ok (Some (applied current p rv)) →
  (∀ k, k ≠ key → e_lookup env' k = e_lookup env k) →
  e_productCount env' = e_productCount env → e_childCount env' = e_childCount env →
  readsBack p →
  Reconcile env' key = Some (reconcileDeletion env' (applied current p rv)).
Proof.
  intros Hcur -> HR Hin Hcur' Hrest Hpc Hcc Hq. unfold Reconcile in *.
  rewrite Hcur in HR. rewrite Hcur', Hpc, Hcc.
  destruct (default (Ok 0%Z) (e_productCount env)) as [pc|]; [|simplify_eq; set_solver].
  cbn [applied ct_Namespace].
  rewrite <- (boundedHierarchy_ext
    (λ n, e_lookup env (mkKey "CategoryTaxonomy" (ct_Namespace current) n)) _ _ current);
    [|intros n Hn; rewrite Hrest by congruence; done|done..].
  destruct (boundedHierarchy _ _ _ _) as [[[[h cy] pf]|[|e]]|] eqn:Hb;
    cbn [mbind option_bind] in *; try (simplify_eq; set_solver).
  f_equal. injection HR as HW. pose proof (writeStatus_patch _ _ _ _ _ _ _ _ HW Hin) as ->.
  unfold writeStatus at 1.
  fold (statusPatch (e_clock env') (applied current
    (statusPatch (e_clock env) current h cy pf) rv) h cy pf).
  by rewrite statusPatch_noop.
Qed.

(** A changed place in the hierarchy reaches the children before it is
    recorded. Whenever a reconciliation applies a patch that changes the
    recorded place or the acyclicity of the category, and children can be
    enqueued at all, they were enqueued first and successfully: a failure to do
    so writes nothing, so the next attempt still sees the change. *)
Theorem children_before_status env key current calls res p h cy pf :
  e_lookup env key = Ok (Some current) →
  (∃ pc, default (Ok 0%Z) (e_productCount env) = Ok pc ∧
    boundedHierarchy (λ n, e_lookup env (mkKey "CategoryTaxonomy" (ct_Namespace current) n))
      (e_childCount env) current pc = Some (Ok (h, cy, pf))) →
  Reconcile env key = Some (calls, res) → CallApply p ∈ calls → e_children env ≠ None →
  let previous := previousResolved (s_Resolved (ct_Status current)) in
  hierarchyChanged previous (resolvedInCycle current cy previous h) = true ∨
  conditionStatusByType (s_Conditions (ct_Status current)) conditionAcyclic ≠
    (if cy then statusFalse else statusTrue) →
  calls = [CallChildren; CallApply p] ∧ e_children env = Some None.
Proof.
  intros Hcur (pc & Hpc & Hb) HR Hin Hch previous Hchg. unfold Reconcile in HR.
  rewrite Hcur, Hpc, Hb in HR. cbn [mbind option_bind] in HR. injection HR as HW.
  pose proof (writeStatus_patch _ _ _ _ _ _ _ _ HW Hin) as Hp. unfold writeStatus in HW.
  fold (statusPatch (e_clock env) current h cy pf) in HW. rewrite <- Hp in HW.
  fold previous in HW.
  assert (hierarchyChanged previous (resolvedInCycle current cy previous h) ||
    negb (bool_decide (conditionStatusByType (s_Conditions (ct_Status current)) conditionAcyclic =
      c_Status (computeAcyclic (e_clock env 1) cy))) = true) as Hnote.
  { apply orb_true_iff. destruct Hchg as [?|Hne]; [by left|right].
    rewrite bool_decide_eq_false_2; [done|]. by destruct cy. }
  rewrite Hnote in HW. clear Hnote Hchg.
  destruct (IsNoOp p _); [by apply reconcileDeletion_no_apply with (p := p) in HW|].
  destruct (e_children env) as [[e|]|]; simplify_eq/=; [set_solver|done].
Qed.
End reconcile.

(** ** Concrete reconciliations *)

(** A root with two levels below it; the middle one names its parent. *)
Definition exCat (name parent : string) : CategoryTaxonomy :=
  mkCategory "" "shop" name 1 "1" [] None parent [] (mkStatus "1" 0 "" [] None).
Definition exNames (n : string) : result Error (option CategoryTaxonomy) :=
  if bool_decide (n = "root") then Ok (Some (exCat "root" "")) else
  if bool_decide (n = "mid") then Ok (Some (exCat "mid" "root")) else
  if bool_decide (n = "leaf") then Ok (Some (exCat "leaf" "mid")) else Ok None.

Lemma exNames_named : ∀ n c, exNames n = Ok (Some c) → ct_Name c = n.
Proof. intros n c. unfold exNames. repeat case_bool_decide; intros; simplify_eq/=; done. Qed.

Lemma boundedHierarchy_correct_witness :
  exNames (ct_Name (exCat "leaf" "mid")) = Ok (Some (exCat "leaf" "mid")) ∧
  boundedHierarchy exNames (Ok 0%Z) (exCat "leaf" "mid") 3 =
    Some (Ok (mkResolved 2 ["root"; "mid"; "leaf"] 0 3, false, true)) ∧
  ∃ r, boundedHierarchy exNames (Ok 0%Z) (exCat "leaf" "mid") 3 = Some r ∧
  ∀ h cycling found, r = Ok (h, cycling, found) →
    last (Path h) = Some "leaf" ∧ NoDup (Path h) ∧ ascends exNames (reverse (Path h)) ∧
    Depth h = (Z.of_nat (length (Path h)) - 1)%Z ∧ (0 ≤ Depth h ≤ 127)%Z ∧
    (cycling = true ↔ on_cycle (cachedParent exNames) "leaf").
Proof.
  split_and!; [vm_compute; reflexivity..|].
  apply (boundedHierarchy_correct exNames exNames_named (Ok 0%Z) (exCat "leaf" "mid") 3).
  vm_compute; reflexivity.
Defined.

(** A payload format that reads back: the bits of a [Countable] code. *)
#[local] Instance Resolved_countable : Countable ResolvedCategoryTaxonomy.
Proof.
  refine (inj_countable' (λ r, (Depth r, Path r, ChildCount r, ProductCount r))
    (λ '(a, b, c, d), mkResolved a b c d) _). by intros [].
Defined.
Definition exMarshal (r : ResolvedCategoryTaxonomy) : string := bitText (encode r).
Definition exUnmarshal (s : string) : option ResolvedCategoryTaxonomy := bitRead s ≫= decode.

Lemma exReadsBack p : readsBack exMarshal exUnmarshal p.
Proof.
  intros r _. unfold exMarshal, exUnmarshal. rewrite bitRead_bitText. cbn [mbind option_bind].
  rewrite decode_encode. split; [done|]. by destruct (encode r).
Qed.

Definition exKey (n : string) : WorkItemKey := mkKey "CategoryTaxonomy" "shop" n.
(** The cache holds the three categories, [leaf] as given. *)
Definition exEnv (leaf : CategoryTaxonomy) (t : Z) : Env :=
  mkEnv (λ k, if bool_decide (k = exKey "leaf") then Ok (Some leaf) else
              if bool_decide (Namespace k = "shop") then exNames (Name k) else Ok None)
    (Some (Ok 3%Z)) (Ok 0%Z) (Some None) (λ _, None) None (λ i, t + Z.of_nat i)%Z.
Definition exLeaf : CategoryTaxonomy := exCat "leaf" "mid".
Definition exPatch : StatusPatch :=
  statusPatch exMarshal exUnmarshal (e_clock (exEnv exLeaf 10)) exLeaf
    (mkResolved 2 ["root"; "mid"; "leaf"] 0 3) false true.

Lemma Reconcile_idempotent_witness :
  Reconcile exMarshal exUnmarshal (exEnv exLeaf 10) (exKey "leaf") =
    Some ([CallChildren; CallApply exPatch], Success) ∧
  Reconcile exMarshal exUnmarshal (exEnv (applied exLeaf exPatch "2") 70) (exKey "leaf") =
    Some ([], Success).
Proof.
  assert (Reconcile exMarshal exUnmarshal (exEnv exLeaf 10) (exKey "leaf") =
    Some ([CallChildren; CallApply exPatch], Success)) as HR by (vm_compute; reflexivity).
  split; [exact HR|].
  apply (Reconcile_idempotent exMarshal exUnmarshal (exEnv exLeaf 10)
    (exEnv (applied exLeaf exPatch "2") 70) (exKey "leaf") exLeaf
    [CallChildren; CallApply exPatch] Success exPatch "2");
    [reflexivity|reflexivity|exact HR|right; left|reflexivity| |reflexivity|reflexivity|
     apply exReadsBack].
  intros k Hk. unfold exEnv. cbn [e_lookup]. rewrite !bool_decide_eq_false_2 by done. done.
Defined.

Lemma children_before_status_witness :
  ∃ calls, Reconcile exMarshal exUnmarshal (exEnv exLeaf 10) (exKey "leaf") =
    Some (calls, Success) ∧ calls = [CallChildren; CallApply exPatch] ∧
  e_children (exEnv exLeaf 10) = Some None.
Proof.
  exists [CallChildren; CallApply exPatch].
  assert (Reconcile exMarshal exUnmarshal (exEnv exLeaf 10) (exKey "leaf") =
    Some ([CallChildren; CallApply exPatch], Success)) as HR by (vm_compute; reflexivity).
  split; [exact HR|].
  apply (children_before_status exMarshal exUnmarshal (exEnv exLeaf 10) (exKey "leaf") exLeaf
    [CallChildren; CallApply exPatch] Success exPatch (mkResolved 2 ["root"; "mid"; "leaf"] 0 3) false true).
  - reflexivity.
  - exists 3%Z. split; [reflexivity|vm_compute; reflexivity].
  - exact HR.
  - right; left.
  - discriminate.
  - left. reflexivity.
Defined.
