(* ===== verification/Admission.v ===== *)
(** * The admission chain

    [gitstore-api/internal/admission]: the chain of mutating and validating
    policies and webhooks a manifest passes (admission.go, chain.go), the
    policies of catalogue kinds (catalog/*_policy.go), the errors clients are
    shown (error.go) and the scope of kinds (namespace_scope.go). *)

From S2P Require Import Prelude CategoryGraph.

(** ** Requests and decisions *)

Inductive Operation : Type := OperationCreate | OperationUpdate | OperationDelete.
Record AdmissionCondition : Type := mkCondition { ac_Type : string; ac_Status : bool; ac_Reason : string; ac_Message : string }.
(** A decision; a policy may also return nil, or panic. *)
Inductive AdmissionDecision : Type :=
| Allowed (conditions : list AdmissionCondition) (patches : list string)
| Denied (reason field : string).
Inductive Answer : Type := Decided (d : AdmissionDecision) | NilDecision | Panicked.
Definition DecisionAllow (conditions : list AdmissionCondition) : AdmissionDecision := Allowed conditions [].
Definition DecisionDeny (reason field : string) : AdmissionDecision := Denied reason field.

(** ** The chain *)

Section chain.
Context {Request : Type}.
Definition Policy : Type := Request → Answer.
Record Chain : Type := mkChain {
  mutatingPolicies : list Policy;
  mutatingWebhooks : list Policy;
  validatingPolicies : list Policy;
  validatingWebhooks : list Policy;
}.
Definition NewChain : Chain := mkChain [] [] [] [].
Definition RegisterMutatingPolicy (c : Chain) (p : Policy) : Chain :=
  mkChain (mutatingPolicies c ++ [p]) (mutatingWebhooks c) (validatingPolicies c) (validatingWebhooks c).
Definition RegisterMutatingWebhook (c : Chain) (p : Policy) : Chain :=
  mkChain (mutatingPolicies c) (mutatingWebhooks c ++ [p]) (validatingPolicies c) (validatingWebhooks c).
Definition RegisterValidatingPolicy (c : Chain) (p : Policy) : Chain :=
  mkChain (mutatingPolicies c) (mutatingWebhooks c) (validatingPolicies c ++ [p]) (validatingWebhooks c).
Definition RegisterValidatingWebhook (c : Chain) (p : Policy) : Chain :=
  mkChain (mutatingPolicies c) (mutatingWebhooks c) (validatingPolicies c) (validatingWebhooks c ++ [p]).

(** The inner loop replaces the first condition of the type. *)
Fixpoint replaceCondition (dst : list AdmissionCondition) (s : AdmissionCondition) : option (list AdmissionCondition) :=
  match dst with
  | [] => None
  | d :: dst => if bool_decide (ac_Type d = ac_Type s) then Some (s :: dst) else cons d <$> replaceCondition dst s
  end.
Definition mergeConditions (dst src : list AdmissionCondition) : list AdmissionCondition :=
  foldl (λ dst s, default (dst ++ [s]) (replaceCondition dst s)) dst src.
(** [safeCall] and [normalise]: a panic is a denial, nil is an approval. *)
Definition normalise (a : Answer) : AdmissionDecision :=
  match a with Decided d => d | NilDecision => Allowed [] [] | Panicked => Denied "InternalError" "" end.
(** One phase of [Admit]: patches count only while [mutating]. *)
Fixpoint runPhase (mutating : bool) (ps : list Policy) (req : Request) (conditions : list AdmissionCondition) (patches : list string)
  : AdmissionDecision :=
  match ps with
  | [] => Allowed conditions patches
  | p :: ps =>
      match normalise (p req) with
      | Denied reason field => Denied reason field
      | Allowed cs js =>
          runPhase mutating ps req (mergeConditions conditions cs) (if mutating then patches ++ js else patches)
      end
  end.
Definition andThen (d : AdmissionDecision) (k : list AdmissionCondition → list string → AdmissionDecision) : AdmissionDecision :=
  match d with Allowed cs js => k cs js | Denied reason field => Denied reason field end.
Definition Admit (c : Chain) (req : Request) : AdmissionDecision :=
  andThen (runPhase true (mutatingPolicies c) req [] []) (λ cs js,
  andThen (runPhase true (mutatingWebhooks c) req cs js) (λ cs js,
  andThen (runPhase false (validatingPolicies c) req cs js) (λ cs js,
  runPhase false (validatingWebhooks c) req cs js))).

(** ** What the chain decides *)

Definition stages (c : Chain) : list Policy :=
  mutatingPolicies c ++ mutatingWebhooks c ++ validatingPolicies c ++ validatingWebhooks c.
Definition conditionsOf (a : Answer) : list AdmissionCondition := match normalise a with Allowed cs _ => cs | Denied _ _ => [] end.
Definition patchesOf (a : Answer) : list string := match normalise a with Allowed _ js => js | Denied _ _ => [] end.
Definition approves (req : Request) (p : Policy) : Prop := ∃ cs js, normalise (p req) = Allowed cs js.
Definition mergeAll (css : list (list AdmissionCondition)) (cs : list AdmissionCondition) : list AdmissionCondition :=
  foldl mergeConditions cs css.

(** A phase ends at the first stage that does not approve. *)
Lemma runPhase_spec mutating ps req cs js :
  (Forall (approves req) ps ∧
   runPhase mutating ps req cs js =
     Allowed (mergeAll ((λ p, conditionsOf (p req)) <$> ps) cs)
       (if mutating then js ++ concat ((λ p, patchesOf (p req)) <$> ps) else js)) ∨
  ∃ pre p post reason field, ps = pre ++ p :: post ∧ Forall (approves req) pre ∧ normalise (p req) = Denied reason field ∧
    runPhase mutating ps req cs js = Denied reason field.
Proof.
  revert cs js. induction ps as [|p ps IH]; intros cs js; cbn [runPhase].
  - left. split; [constructor|]. simpl. destruct mutating; [by rewrite app_nil_r|done].
  - destruct (normalise (p req)) as [cs1 js1|reason field] eqn:En.
    + destruct (IH (mergeConditions cs cs1) (if mutating then js ++ js1 else js)) as [[Hall ->]|(pre & q & post & reason & field & -> & Hpre & Hq & ->)].
      * left. split; [constructor; [by exists cs1, js1|done]|]. cbn [fmap list_fmap]. unfold mergeAll, conditionsOf at 2, patchesOf at 2.
        rewrite En. simpl. destruct mutating; [by rewrite app_assoc|done].
      * right. exists (p :: pre), q, post, reason, field. split_and!; try done. constructor; [by exists cs1, js1|done].
    + right. exists [], p, ps, reason, field. by split_and!.
Qed.

(** The last condition of a type, and where it stands. *)
Definition conditionFor (ty : string) (cs : list AdmissionCondition) : option AdmissionCondition :=
  last (filter (λ c, ac_Type c = ty) cs).
Lemma replaceCondition_spec dst s :
  NoDup (ac_Type <$> dst) →
  match replaceCondition dst s with
  | Some dst' => ac_Type <$> dst' = ac_Type <$> dst ∧ ac_Type s ∈ ac_Type <$> dst ∧
      ∀ ty, conditionFor ty dst' = if decide (ac_Type s = ty) then Some s else conditionFor ty dst
  | None => ac_Type s ∉ ac_Type <$> dst
  end.
Proof.
  induction dst as [|d dst IH]; simpl; [intros _; apply not_elem_of_nil|]. intros [Hd Hnd]%NoDup_cons.
  destruct (bool_decide_reflect (ac_Type d = ac_Type s)) as [E|E].
  - rewrite <- E. split; [simpl; by rewrite E|]. split; [by left|]. intros ty. unfold conditionFor. rewrite !filter_cons, <- E.
    case_decide as Ht; [|done]. subst ty.
    assert (filter (λ c, ac_Type c = ac_Type d) dst = []) as ->; [|done].
    apply elem_of_nil_inv. intros c [Ht Hc]%list_elem_of_filter. apply Hd, list_elem_of_fmap. by exists c.
  - specialize (IH Hnd). destruct (replaceCondition dst s) as [dst'|]; simpl.
    + destruct IH as (H1 & H2 & H3). split; [exact (f_equal (cons (ac_Type d)) H1)|]. split; [by right|].
      intros ty. specialize (H3 ty). unfold conditionFor in *. rewrite !filter_cons.
      destruct (decide (ac_Type d = ty)) as [Ht|Ht]; [|exact H3]. rewrite !last_cons, H3. by rewrite !decide_False by congruence.
    + intros [Hs|Hs]%elem_of_cons; [congruence|done].
Qed.
Lemma conditionFor_app ty l l' :
  conditionFor ty (l ++ l') = match conditionFor ty l' with Some c => Some c | None => conditionFor ty l end.
Proof. unfold conditionFor. rewrite filter_app. apply last_app. Qed.
Lemma mergeConditions_spec dst src :
  NoDup (ac_Type <$> dst) →
  NoDup (ac_Type <$> mergeConditions dst src) ∧ ∀ ty, conditionFor ty (mergeConditions dst src) = conditionFor ty (dst ++ src).
Proof.
  unfold mergeConditions. revert dst. induction src as [|s src IH]; intros dst Hnd; cbn [foldl]; [by rewrite app_nil_r|].
  pose proof (replaceCondition_spec dst s Hnd) as Hr.
  assert (NoDup (ac_Type <$> default (dst ++ [s]) (replaceCondition dst s)) ∧
    ∀ ty, conditionFor ty (default (dst ++ [s]) (replaceCondition dst s)) = conditionFor ty (dst ++ [s])) as [Hn Hc].
  { destruct (replaceCondition dst s) as [dst'|]; simpl.
    - destruct Hr as (H1 & _ & H3). split; [by rewrite H1|]. intros ty. rewrite H3, conditionFor_app.
      unfold conditionFor at 2. rewrite filter_cons, filter_nil. by case_decide.
    - split; [|done]. rewrite fmap_app. apply NoDup_app. split; [done|]. split; [set_solver|apply NoDup_singleton]. }
  destruct (IH _ Hn) as [H1 H2]. split; [done|]. intros ty. rewrite H2, (cons_middle s dst src), app_assoc, !(conditionFor_app ty _ src).
  by rewrite Hc.
Qed.
Lemma mergeAll_spec css cs :
  NoDup (ac_Type <$> cs) →
  NoDup (ac_Type <$> mergeAll css cs) ∧ ∀ ty, conditionFor ty (mergeAll css cs) = conditionFor ty (cs ++ concat css).
Proof.
  unfold mergeAll. revert cs. induction css as [|c css IH]; intros cs Hnd; simpl; [by rewrite app_nil_r|].
  destruct (mergeConditions_spec cs c Hnd) as [H1 H2]. destruct (IH _ H1) as [H3 H4]. split; [done|].
  intros ty. rewrite H4, app_assoc, !(conditionFor_app ty _ (concat css)). by rewrite H2.
Qed.
Lemma mergeAll_app css css' cs : mergeAll (css ++ css') cs = mergeAll css' (mergeAll css cs).
Proof. unfold mergeAll. by rewrite foldl_app. Qed.

Notation conds := (λ req (ps : list Policy), (λ p, conditionsOf (p req)) <$> ps).
Notation jsons := (λ req (ps : list Policy), concat ((λ p, patchesOf (p req)) <$> ps)).
Definition refuses (req : Request) (ps : list Policy) (d : AdmissionDecision) : Prop :=
  ∃ pre p post reason field, ps = pre ++ p :: post ∧ Forall (approves req) pre ∧ normalise (p req) = Denied reason field ∧
    d = Denied reason field.
Lemma refuses_app_l req ps qs d : refuses req ps d → refuses req (ps ++ qs) d.
Proof.
  intros (pre & p & post & reason & field & -> & H). exists pre, p, (post ++ qs), reason, field. by rewrite <- app_assoc.
Qed.
Lemma refuses_app_r req ps qs d : Forall (approves req) ps → refuses req qs d → refuses req (ps ++ qs) d.
Proof.
  intros Hp (pre & p & post & reason & field & -> & Hpre & H). exists (ps ++ pre), p, post, reason, field.
  split; [by rewrite <- app_assoc|]. split; [by apply Forall_app|done].
Qed.
(** The chain refuses with the denial of the first stage that denies or panics;
    otherwise it approves, with the patches of the mutating stages in their
    order, and for every type the last condition a stage set. *)
Theorem Admit_exact c req :
  (Forall (approves req) (stages c) ∧ ∃ cs,
     Admit c req = Allowed cs (jsons req (mutatingPolicies c ++ mutatingWebhooks c)) ∧ NoDup (ac_Type <$> cs) ∧
     ∀ ty, conditionFor ty cs = conditionFor ty (concat (conds req (stages c)))) ∨
  refuses req (stages c) (Admit c req).
Proof.
  unfold Admit, stages.
  destruct (runPhase_spec true (mutatingPolicies c) req [] []) as [[H1 ->]|(pre & p & post & re & fi & E & Hpre & Hp & ->)];
    [cbn [andThen]|right; apply refuses_app_l; by exists pre, p, post, re, fi].
  set (cs1 := mergeAll _ []).
  match goal with |- context [runPhase true (mutatingWebhooks c) req cs1 ?js] =>
    destruct (runPhase_spec true (mutatingWebhooks c) req cs1 js) as [[H2 ->]|(pre & p & post & re & fi & E & Hpre & Hp & ->)] end;
    [cbn [andThen]|right; apply refuses_app_r, refuses_app_l; [done|]; by exists pre, p, post, re, fi].
  set (cs2 := mergeAll _ cs1).
  match goal with |- context [runPhase false (validatingPolicies c) req cs2 ?js] =>
    destruct (runPhase_spec false (validatingPolicies c) req cs2 js) as [[H3 ->]|(pre & p & post & re & fi & E & Hpre & Hp & ->)] end;
    [cbn [andThen]|right; apply refuses_app_r, refuses_app_r, refuses_app_l; [done..|]; by exists pre, p, post, re, fi].
  set (cs3 := mergeAll _ cs2).
  match goal with |- context [runPhase false (validatingWebhooks c) req cs3 ?js] =>
    destruct (runPhase_spec false (validatingWebhooks c) req cs3 js) as [[H4 ->]|(pre & p & post & re & fi & E & Hpre & Hp & ->)] end;
    [|right; apply refuses_app_r, refuses_app_r, refuses_app_r; [done..|]; by exists pre, p, post, re, fi].
  left. split; [by rewrite !Forall_app|]. eexists. split; [by rewrite fmap_app, concat_app|].
  subst cs1 cs2 cs3. rewrite <- !mergeAll_app, <- !fmap_app, <- ?app_assoc. apply mergeAll_spec, NoDup_nil_2.
Qed.
End chain.
Arguments Policy : clear implicits.
Arguments Chain : clear implicits.
