(* ===== verification/AdmissionPolicies.v ===== *)
(** * Policies and rejections

    [gitstore-api/internal/admission/catalog/*_policy.go]: what the policies of
    categories, products and variants say of a manifest; [error.go] and
    [namespace_scope.go] of the package admission: what a client is told. *)

From S2P Require Import Prelude CategoryGraph Admission.

(** ** Manifests, as the policies read them *)

(** A reference by name; a nil reference is [None]. *)
Record SelectedOption : Type := mkOption { so_Name : string; so_Value : string }.
Inductive Object : Type :=
| OCategory (namespace name : string) (parentRef : option string)
| OProduct (namespace name : string) (categoryRef : option string)
| OVariant (namespace name : string) (productRef : option string) (selectedOptions : list SelectedOption)
    (prices : option (list (option (list string))))
| OOther.
(** [AdmissionRequest], with the siblings of a push. *)
Record Sibling : Type := mkSibling { sb_Kind : string; sb_Object : Object }.
Record AdmissionRequest : Type := mkRequest {
  ar_Object : Object; ar_Operation : Operation; ar_Kind : string; ar_Name : string; ar_Namespace : string; ar_PushSet : list Sibling;
}.
Definition orDefault (namespace fallback : string) : string := if bool_decide (namespace = "") then fallback else namespace.
Definition condition (ty : string) (status : bool) : AdmissionCondition := mkCondition ty status "" "".

(** ** Categories *)

Section category.
(** [GetCategoryTaxonomyByName], if there is a store: whether it found one. *)
Context (found : option (string → string → bool)).
(** The order in which the parent map is iterated. *)
Context (order : list string).

Definition buildPushParentMap (pushSet : list Sibling) : gmap string string :=
  foldl (λ m s, match bool_decide (sb_Kind s = "CategoryTaxonomy"), sb_Object s with
                | true, OCategory _ name parent => <[name := default "" parent]> m
                | _, _ => m
                end) ∅ pushSet.
Definition parentMapOf (pushSet : list Sibling) (name : string) (parent : option string) : gmap string string :=
  <[name := default "" parent]> (buildPushParentMap pushSet).
Definition parentResolved (m : gmap string string) (namespace name : string) (parent : option string) : bool :=
  match parent with
  | None => true
  | Some p =>
      if bool_decide (p = "") then true else
      if bool_decide (p = name) then false else
      if bool_decide (is_Some (m !! p)) then true else
      match found with Some find => find namespace p | None => false end
  end.
Definition validateCategory (req : AdmissionRequest) : AdmissionDecision :=
  match bool_decide (ar_Kind req = "CategoryTaxonomy"), ar_Object req with
  | true, OCategory namespace name parent =>
      let m := parentMapOf (ar_PushSet req) name parent in
      let inCycle := match DetectCycles m order with Some c => bool_decide (name ∈ c) | None => false end in
      DecisionAllow [condition "ParentResolved" (parentResolved m (orDefault namespace (ar_Namespace req)) name parent);
                     condition "Acyclic" (negb inCycle)]
  | _, _ => DecisionAllow []
  end.
(** A category is never refused; its conditions say whether its parent is known,
    in the push or in the store, and whether the push puts it on a cycle. *)
Theorem validateCategory_exact req namespace name parent :
  ar_Kind req = "CategoryTaxonomy" → ar_Object req = OCategory namespace name parent →
  (∀ x, x ∈ order ↔ x ∈ dom (parentMapOf (ar_PushSet req) name parent)) →
  ∃ resolved acyclic, validateCategory req = DecisionAllow [condition "ParentResolved" resolved; condition "Acyclic" acyclic] ∧
    (acyclic = true ↔ ¬ on_cycle (parentOf (parentMapOf (ar_PushSet req) name parent)) name) ∧
    (resolved = false ↔ ∃ p, parent = Some p ∧ p ≠ "" ∧
       (p = name ∨ parentMapOf (ar_PushSet req) name parent !! p = None ∧
          ∀ find, found = Some find → find (orDefault namespace (ar_Namespace req)) p = false)).
Proof.
  intros Hk Ho Hord. unfold validateCategory. rewrite bool_decide_eq_true_2, Ho by done.
  destruct (DetectCycles_spec _ _ Hord) as (c & -> & Hc). eexists _, _. split; [done|]. split.
  - rewrite negb_true_iff, bool_decide_eq_false, Hc. done.
  - unfold parentResolved. destruct parent as [p|]; [|naive_solver].
    destruct (bool_decide_reflect (p = "")) as [E|E]; [naive_solver|]. destruct (bool_decide_reflect (p = name)) as [E'|E']; [naive_solver|].
    case_bool_decide as Hs; [|rewrite <- not_eq_None_Some in Hs; apply dec_stable in Hs].
    + split; [done|]. intros (q & [= <-] & _ & [?|[Hn _]]); [done|]. rewrite Hn in Hs. by destruct Hs.
    + destruct found as [find|]; naive_solver.
Qed.
End category.

(** ** Products *)

(** Whether the store has a category of the name, and whether it is being deleted. *)
Definition validateProduct (category : option (string → string → option bool)) (req : AdmissionRequest) : AdmissionDecision :=
  match ar_Object req, category with
  | OProduct namespace _ (Some ref), Some find =>
      if bool_decide (ref = "") then DecisionAllow [] else
      match find (orDefault namespace (ar_Namespace req)) ref with
      | Some true => DecisionDeny "CategoryTerminating" "spec.categoryRef.name"
      | _ => DecisionAllow []
      end
  | _, _ => DecisionAllow []
  end.

(** ** Variants *)

Section variant.
(** encoding/json on the options of a product, each with its values. *)
Context (unmarshalOptions : string → option (list (string * list string))).
(** The CEL parser, if there is one: the error of an expression. *)
Context (parseCEL : option (string → option string)).
(** [GetProductByName], if there is a store: the specification of the product. *)
Context (product : option (string → string → option string)).

Definition declaredOptions (options : list (string * list string)) : gmap string (gset string) :=
  foldl (λ m o, <[o.1 := list_to_set o.2]> m) ∅ options.
(** The reasons, without their quoting. *)
Inductive OptionsReason : Type := OptionsUnreadable | OptionUnknown (name : string) | ValueUnknown (name value : string).
Fixpoint checkSelected (declared : gmap string (gset string)) (selected : list SelectedOption) : option OptionsReason :=
  match selected with
  | [] => None
  | so :: selected =>
      match declared !! so_Name so with
      | None => Some (OptionUnknown (so_Name so))
      | Some values =>
          if negb (bool_decide (size values = 0)) && negb (bool_decide (so_Value so ∈ values)) then Some (ValueUnknown (so_Name so) (so_Value so))
          else checkSelected declared selected
      end
  end.
Definition ValidateSelectedOptions (selected : list SelectedOption) (parentSpec : string) : option OptionsReason :=
  match unmarshalOptions parentSpec with
  | None => Some OptionsUnreadable
  | Some options => checkSelected (declaredOptions options) selected
  end.
Lemma declaredOptions_last options name :
  declaredOptions options !! name = list_to_set ∘ snd <$> last (filter (λ o, o.1 = name) options).
Proof.
  unfold declaredOptions. induction options as [|o options IH] using rev_ind; [done|].
  rewrite foldl_app, filter_app, filter_cons, filter_nil. cbn [foldl]. destruct (decide (o.1 = name)) as [<-|Hn].
  - by rewrite lookup_insert_eq, last_snoc.
  - by rewrite lookup_insert_ne, app_nil_r by done.
Qed.
(** The options of a variant are accepted exactly if each names an option of the
    product, by its last declaration, and one of its values if it has any. *)
Theorem ValidateSelectedOptions_exact selected parentSpec options :
  unmarshalOptions parentSpec = Some options →
  ValidateSelectedOptions selected parentSpec = None ↔
  ∀ so, so ∈ selected → ∃ values, last (filter (λ o, o.1 = so_Name so) options) = Some (so_Name so, values) ∧
    (values = [] ∨ so_Value so ∈ values).
Proof.
  intros Hu. unfold ValidateSelectedOptions. rewrite Hu. induction selected as [|so selected IH]; [split; [by intros _ ? ?%elem_of_nil|done]|].
  cbn [checkSelected]. rewrite declaredOptions_last. destruct (last (filter (λ o, o.1 = so_Name so) options)) as [[n vs]|] eqn:El; simpl.
  - assert (n = so_Name so) as ->.
    { apply last_Some_elem_of, list_elem_of_filter in El. by destruct El. }
    assert (negb (bool_decide (size (list_to_set vs : gset string) = 0)) && negb (bool_decide (so_Value so ∈ (list_to_set vs : gset string))) = true ↔
      ¬ (vs = [] ∨ so_Value so ∈ vs)) as Hb.
    { rewrite andb_true_iff, !negb_true_iff, !bool_decide_eq_false, size_empty_iff, elem_of_list_to_set.
      assert ((list_to_set vs : gset string) ≡ ∅ ↔ vs = []) as ->; [|tauto]. destruct vs; [done|]. split; [set_solver|done]. }
    destruct (_ && _).
    + split; [done|]. intros H. destruct (H so) as (values & Hl & Hv); [by left|]. rewrite El in Hl.
      injection Hl as <-. by apply (proj1 Hb eq_refl) in Hv.
    + assert (vs = [] ∨ so_Value so ∈ vs) as Hok.
      { destruct (decide (vs = [])); [by left|]. destruct (decide (so_Value so ∈ vs)); [by right|]. destruct Hb as [_ Hb]. exfalso.
        enough (false = true) by done. apply Hb. tauto. }
      rewrite IH. split.
      * intros H s [->|Hs]%elem_of_cons; [by exists vs|by apply H].
      * intros H s Hs. apply H. by right.
  - split; [done|]. intros H. destruct (H so) as (values & Hl & _); [by left|]. by rewrite El in Hl.
Qed.

(** The prices of a variant: for each the expressions of its eligibility. The
    first that does not parse, with its place. *)
Fixpoint firstInvalid (parse : string → option string) (j : nat) (expressions : list string) : option (nat * string) :=
  match expressions with
  | [] => None
  | e :: expressions => match parse e with Some err => Some (j, err) | None => firstInvalid parse (S j) expressions end
  end.
Fixpoint invalidPrice (parse : string → option string) (i : nat) (prices : list (option (list string))) : option (nat * nat * string) :=
  match prices with
  | [] => None
  | eligibility :: prices =>
      match firstInvalid parse 0 (default [] eligibility) with
      | Some (j, err) => Some (i, j, err)
      | None => invalidPrice parse (S i) prices
      end
  end.
Definition ValidateCELExpressions (prices : option (list (option (list string)))) : option (nat * nat * string) :=
  match parseCEL, prices with Some parse, Some prices => invalidPrice parse 0 prices | _, _ => None end.

Definition validateVariant (optionsText : OptionsReason → string) (celText : nat * nat * string → string) (req : AdmissionRequest)
  : AdmissionDecision :=
  match bool_decide (ar_Kind req = "ProductVariant"), ar_Object req with
  | true, OVariant namespace name productRef selected prices =>
      let productConditions :=
        match productRef with
        | Some ref =>
            if bool_decide (ref = "") then [] else
            let parent := product ≫= λ get, get (orDefault namespace (ar_Namespace req)) ref in
            let reason := match parent with
                          | Some spec => if bool_decide (length selected = 0) then None else ValidateSelectedOptions selected spec
                          | None => None
                          end in
            [condition "ProductResolved" (bool_decide (is_Some parent));
             match reason with
             | Some r => mkCondition "OptionsAccepted" false "IncompatibleOptions" (optionsText r)
             | None => condition "OptionsAccepted" true
             end]
        | None => []
        end in
      DecisionAllow (productConditions ++
        [match ValidateCELExpressions prices with
         | Some e => mkCondition "PricingAccepted" false "InvalidCELExpression" (celText e)
         | None => condition "PricingAccepted" true
         end])
  | _, _ => DecisionAllow []
  end.
End variant.

(** ** Rejections *)

Inductive Code : Type :=
| CodeAdmissionRejected | CodeAlreadyExists | CodeNotFound | CodeConflict | CodeFailedPrecondition | CodeBadUserInput | CodeForbidden.
#[global] Instance Code_eq_dec : EqDecision Code.
Proof. solve_decision. Defined.
Definition codeText (c : Code) : string :=
  match c with
  | CodeAdmissionRejected => "ADMISSION_REJECTED"
  | CodeAlreadyExists => "ALREADY_EXISTS"
  | CodeNotFound => "NOT_FOUND"
  | CodeConflict => "CONFLICT"
  | CodeFailedPrecondition => "FAILED_PRECONDITION"
  | CodeBadUserInput => "BAD_USER_INPUT"
  | CodeForbidden => "FORBIDDEN"
  end.
(** [strings.ToLower] of the code with spaces for its underscores. *)
Definition codeWords (c : Code) : string :=
  match c with
  | CodeAdmissionRejected => "admission rejected"
  | CodeAlreadyExists => "already exists"
  | CodeNotFound => "not found"
  | CodeConflict => "conflict"
  | CodeFailedPrecondition => "failed precondition"
  | CodeBadUserInput => "bad user input"
  | CodeForbidden => "forbidden"
  end.
Record Diagnostic : Type := mkDiagnostic { dg_Reason : string; dg_Message : string; dg_Level : string; dg_File : string; dg_Field : string }.
(** The phase of a rejection; [None] is the empty one. *)
Inductive Phase : Type := PhasePreReceive | PhasePostReceive.
#[global] Instance Phase_eq_dec : EqDecision Phase.
Proof. solve_decision. Defined.
Record AdmissionError : Type := mkError {
  ae_Code : Code; ae_Phase : option Phase; ae_CommitSHA : string; ae_Diagnostics : list Diagnostic; ae_Message : string;
}.
Definition NewError (code : Code) (reason message : string) : AdmissionError :=
  mkError code None "" [mkDiagnostic reason message "FAILURE" "" ""] "".
Definition Rejected (phase : Phase) (commit : string) (ds : list Diagnostic) : AdmissionError :=
  mkError CodeAdmissionRejected (Some phase) commit ds "".
Definition Reason (e : AdmissionError) : string := match ae_Diagnostics e with d :: _ => dg_Reason d | [] => "" end.
(** [strings.Join] with a semicolon. *)
Fixpoint joinSemicolon (l : list string) : string :=
  match l with [] => "" | [s] => s | s :: l => s +:+ "; " +:+ joinSemicolon l end.
Definition FormatRejection (ds : list Diagnostic) : string :=
  joinSemicolon ((λ d, if bool_decide (dg_File d = "") then dg_Message d else dg_File d +:+ ": " +:+ dg_Message d) <$> ds).
Definition errorText (e : AdmissionError) : string :=
  if bool_decide (ae_Code e = CodeForbidden) then "forbidden" else
  if bool_decide (ae_Code e = CodeAdmissionRejected) then FormatRejection (ae_Diagnostics e) else
  if negb (bool_decide (ae_Message e = "")) then ae_Message e else
  let messages := filter (λ m, m ≠ "") (dg_Message <$> ae_Diagnostics e) in
  if bool_decide (length messages = 0) then codeWords (ae_Code e) else joinSemicolon messages.
Definition levelOrFailure (level : string) : string := if bool_decide (level = "") then "FAILURE" else level.
(** A GraphQL error: its message and the extensions that are set. *)
Record GqlError : Type := mkGql {
  ge_Message : string;
  ge_Code : string;
  ge_Diagnostics : option (list Diagnostic);
  ge_Phase : option Phase;
  ge_Commit : option string;
}.
Definition ToGQLError (e : AdmissionError) : GqlError :=
  mkGql (errorText e) (codeText (ae_Code e))
    (if negb (bool_decide (ae_Code e = CodeForbidden)) && (0 <? length (ae_Diagnostics e))
     then Some ((λ d, mkDiagnostic (dg_Reason d) (dg_Message d) (levelOrFailure (dg_Level d)) (dg_File d) (dg_Field d)) <$> ae_Diagnostics e)
     else None)
    (if bool_decide (ae_Code e = CodeAdmissionRejected) then ae_Phase e else None)
    (if bool_decide (ae_Code e = CodeAdmissionRejected) && bool_decide (ae_Phase e = Some PhasePostReceive) &&
        negb (bool_decide (ae_CommitSHA e = "")) then Some (ae_CommitSHA e) else None).

(** Whatever was found out about a forbidden request, its sender learns only
    that it is forbidden. *)
Theorem forbidden_reveals_nothing e : ae_Code e = CodeForbidden → ToGQLError e = mkGql "forbidden" "FORBIDDEN" None None None.
Proof. intros E. unfold ToGQLError, errorText. by rewrite E. Qed.
(** A commit is named only where it exists: after the ref moved. *)
Theorem commit_named_after_receive e commit :
  ge_Commit (ToGQLError e) = Some commit →
  ae_Code e = CodeAdmissionRejected ∧ ae_Phase e = Some PhasePostReceive ∧ commit = ae_CommitSHA e ∧ commit ≠ "".
Proof.
  simpl. destruct (_ && _) eqn:E; [|done]. intros [= <-].
  rewrite !andb_true_iff, negb_true_iff, !bool_decide_eq_true, bool_decide_eq_false in E. tauto.
Qed.

(** ** Scope *)

(** [strings.TrimSpace] leaves nothing: an argument. *)
Definition clusterScoped : list string := ["Namespace"; "ServiceAccount"].
Definition namespaceScoped : list string := ["Product"; "CategoryTaxonomy"; "Collection"; "ProductVariant"; "Repository"; "File"].
Definition ValidateNamespaceScope (blank : string → bool) (kind : string) (namespace : option string) : option AdmissionError :=
  let err reason message := Some (mkError CodeBadUserInput None "" [mkDiagnostic reason message "FAILURE" "" "metadata.namespace"] "") in
  if bool_decide (kind ∈ clusterScoped) then
    match namespace with
    | None => None
    | Some _ => err "NAMESPACE_FORBIDDEN" (kind +:+ " is cluster-scoped. Omit metadata.namespace or set it to null")
    end
  else if bool_decide (kind ∈ namespaceScoped) then
    match namespace with
    | Some n => if blank n then err "NAMESPACE_REQUIRED" (kind +:+ " requires a nonblank metadata.namespace. Supply the owning namespace") else None
    | None => err "NAMESPACE_REQUIRED" (kind +:+ " requires a nonblank metadata.namespace. Supply the owning namespace")
    end
  else None.
Definition ReasonForConstraint (lower : string → string) (field constraint : string) : string :=
  if bool_decide (constraint = "namespace-required") then "NAMESPACE_REQUIRED"
  else if bool_decide (constraint = "namespace-forbidden") then "NAMESPACE_FORBIDDEN"
  else if bool_decide (constraint = "required") then "REQUIRED_FIELD"
  else if bool_decide (constraint = "envelope") then "INVALID_ENVELOPE"
  else if bool_decide (constraint = "eq") then
    if bool_decide (lower field ∈ ["apiversion"; "kind"]) then "INVALID_ENVELOPE" else "INVALID_FIELD"
  else if bool_decide (constraint ∈ ["dns-label"; "max=200"; "read-only"; "system-managed"]) then "INVALID_FIELD"
  else if bool_decide (constraint = "self-parent") then "SELF_PARENT"
  else if bool_decide (constraint = "parent-terminating") then "PARENT_TERMINATING"
  else if bool_decide (constraint = "cross-namespace") then "CROSS_NAMESPACE_REFERENCE"
  else if bool_decide (constraint = "immutable") then
    if bool_decide (field = "metadata.namespace") then "IMMUTABLE_NAMESPACE" else "IMMUTABLE_NAME"
  else if String.prefix "policy/" constraint then "POLICY_DENIED"
  else "VALIDATION_FAILED".
