(* ===== verification/Manager.v ===== *)
(** * The controller manager

    [gitstore-controller-manager/internal/manager]: one controller (queue,
    worker pool, quarantine store, reconciler) per resource kind. Durable work
    is an interface, [DurableWork], so that the theorems hold for any store
    with the operations the manager calls. *)

From S2P Require Import Prelude WorkTypes Cache Queue Retry.

(** ** Registration *)

(** [ReconcilerRegistration]. The reconciler and the cache are interface
    values, present or nil; what they do is a parameter of [dispatch]. The
    multiplier is a float the manager only compares with zero; it is kept as
    whether it is positive. *)
Record Registration : Type := mkReg {
  r_Kind : string;
  r_HasReconciler : bool;
  r_HasCache : bool;
  r_HasOnSuccess : bool;
  r_MaxAttempts : Z;
  r_InitialInterval : Z;
  r_MaxInterval : Z;
  r_MultiplierPositive : bool;
  r_StallThreshold : Z;
  r_WorkerCount : Z;
}.

Definition defaultMaxAttempts : Z := 5.
Definition defaultInitialInterval : Z := 500 * millisecond.
Definition defaultMaxInterval : Z := 30 * second.
Definition defaultStallThreshold : Z := 5 * minute.
Definition defaultWorkerCount : Z := 4.

Definition positiveOr (v dflt : Z) : Z := if (v <=? 0)%Z then dflt else v.

Definition applyDefaults (reg : Registration) : Registration :=
  mkReg (r_Kind reg) (r_HasReconciler reg) (r_HasCache reg) (r_HasOnSuccess reg)
    (positiveOr (r_MaxAttempts reg) defaultMaxAttempts)
    (positiveOr (r_InitialInterval reg) defaultInitialInterval)
    (positiveOr (r_MaxInterval reg) defaultMaxInterval)
    true
    (positiveOr (r_StallThreshold reg) defaultStallThreshold)
    (positiveOr (r_WorkerCount reg) defaultWorkerCount).

(** ** State *)

Section manager.
Context {D : Type} `{!DurableWork D}.

(** [kindState]. [k_completed] logs the calls to [OnSuccess] and [k_timers]
    the [time.AfterFunc] timers that will enqueue a key. *)
Record kindState : Type := mkKS {
  k_reg : Registration;
  k_q : Queue;
  k_quarantine : gmap WorkItemKey PoisonItem;
  k_lastSuccess : Z;
  k_startedAt : Z;
  k_leases : gmap WorkItemKey Z;
  k_storageFailed : bool;
  k_runnable : bool;
  k_disk : option D;
  k_completed : list WorkItemKey;
  k_timers : list (WorkItemKey * Z);
}.

Definition set_q (ks : kindState) (q : Queue) : kindState :=
  mkKS (k_reg ks) q (k_quarantine ks) (k_lastSuccess ks) (k_startedAt ks)
    (k_leases ks) (k_storageFailed ks) (k_runnable ks) (k_disk ks)
    (k_completed ks) (k_timers ks).
Definition set_quarantine (ks : kindState) (s : gmap WorkItemKey PoisonItem) : kindState :=
  mkKS (k_reg ks) (k_q ks) s (k_lastSuccess ks) (k_startedAt ks)
    (k_leases ks) (k_storageFailed ks) (k_runnable ks) (k_disk ks)
    (k_completed ks) (k_timers ks).
Definition set_lastSuccess (ks : kindState) (t : Z) : kindState :=
  mkKS (k_reg ks) (k_q ks) (k_quarantine ks) t (k_startedAt ks)
    (k_leases ks) (k_storageFailed ks) (k_runnable ks) (k_disk ks)
    (k_completed ks) (k_timers ks).
Definition set_leases (ks : kindState) (l : gmap WorkItemKey Z) : kindState :=
  mkKS (k_reg ks) (k_q ks) (k_quarantine ks) (k_lastSuccess ks) (k_startedAt ks)
    l (k_storageFailed ks) (k_runnable ks) (k_disk ks) (k_completed ks) (k_timers ks).
Definition set_runnable (ks : kindState) (b : bool) : kindState :=
  mkKS (k_reg ks) (k_q ks) (k_quarantine ks) (k_lastSuccess ks) (k_startedAt ks)
    (k_leases ks) (k_storageFailed ks) b (k_disk ks) (k_completed ks) (k_timers ks).
Definition set_disk (ks : kindState) (d : D) : kindState :=
  mkKS (k_reg ks) (k_q ks) (k_quarantine ks) (k_lastSuccess ks) (k_startedAt ks)
    (k_leases ks) (k_storageFailed ks) (k_runnable ks) (Some d) (k_completed ks)
    (k_timers ks).
Definition add_completed (ks : kindState) (key : WorkItemKey) : kindState :=
  mkKS (k_reg ks) (k_q ks) (k_quarantine ks) (k_lastSuccess ks) (k_startedAt ks)
    (k_leases ks) (k_storageFailed ks) (k_runnable ks) (k_disk ks)
    (k_completed ks ++ [key]) (k_timers ks).
Definition add_timer (ks : kindState) (key : WorkItemKey) (after : Z) : kindState :=
  mkKS (k_reg ks) (k_q ks) (k_quarantine ks) (k_lastSuccess ks) (k_startedAt ks)
    (k_leases ks) (k_storageFailed ks) (k_runnable ks) (k_disk ks)
    (k_completed ks) (k_timers ks ++ [(key, after)]).

(** [storageError]: every durable call records whether it failed. *)
Definition storageError (ks : kindState) (err : option Error) : kindState :=
  mkKS (k_reg ks) (k_q ks) (k_quarantine ks) (k_lastSuccess ks) (k_startedAt ks)
    (k_leases ks) (match err with Some _ => true | None => false end)
    (k_runnable ks) (k_disk ks) (k_completed ks) (k_timers ks).

(** [lease]: a missing key reads as token zero. *)
Definition lease (ks : kindState) (key : WorkItemKey) : Z :=
  default 0%Z (k_leases ks !! key).

Definition Manager : Type := gmap string kindState.

(** ** Operations of the manager *)

(** [Register]; the pool is sized and the gauges set elsewhere. *)
Definition Register (m : gmap string kindState) (reg : Registration) (disk : option D)
  : result string (gmap string kindState) :=
  if bool_decide (r_Kind reg = "") then Err "Kind must not be empty" else
  if negb (r_HasReconciler reg) then Err "Reconciler must not be nil" else
  if negb (r_HasCache reg) then Err "Cache must not be nil" else
  match m !! r_Kind reg with
  | Some _ => Err "already registered"
  | None =>
      let reg := applyDefaults reg in
      Ok (<[r_Kind reg := mkKS reg Queue.New NewQuarantineStore 0 0 ∅ false false
                            disk [] []]> m)
  end.

(** The outcome of an operation on one kind. *)
Definition with_kind {A} (m : gmap string kindState) (kind : string) (none : A)
    (f : kindState → A * kindState) : A * gmap string kindState :=
  match m !! kind with
  | None => (none, m)
  | Some ks => let (a, ks) := f ks in (a, <[kind := ks]> m)
  end.

(** [Enqueue]; the queues are built with an infinite rate ([queue.New(1000,
    0)]), so the limiter fails only once the queue's context is cancelled:
    [wait] is its answer. *)
Definition enqueueKind (wait : bool) (key : WorkItemKey) (ks : kindState)
  : option Error * kindState :=
  match k_disk ks with
  | Some d => let (e, d) := dw_Enqueue key d in (e, set_disk ks d)
  | None => let (e, q) := Queue.Enqueue (k_q ks) wait key in
            (ESentinel <$> e, set_q ks q)
  end.
Definition Enqueue (m : gmap string kindState) (wait : bool) (key : WorkItemKey)
  : option Error * gmap string kindState :=
  with_kind m (Kind key) (Some (ESentinel ErrKindNotRegistered)) (enqueueKind wait key).

Definition IsQuarantined (m : gmap string kindState) (key : WorkItemKey)
  : bool * gmap string kindState :=
  with_kind m (Kind key) false (λ ks,
    match k_disk ks with
    | Some d => match dw_WorkSchedule key d with
                | Err e => (true, storageError ks (Some e))
                | Ok st => (negb (d_QuarantinedAt st =? 0)%Z, ks)
                end
    | None => (match Get key (k_quarantine ks) with Some _ => true | None => false end, ks)
    end).

(** [Requeue] removes the key from quarantine before it enqueues it. *)
Definition requeueKind (wait : bool) (key : WorkItemKey) (ks : kindState)
  : option Error * kindState :=
  match k_disk ks with
  | Some d =>
      match dw_WorkSchedule key d with
      | Err e => (Some e, ks)
      | Ok st => if (d_QuarantinedAt st =? 0)%Z then (Some (ESentinel ErrNotFound), ks)
                 else let (e, d) := dw_Enqueue key d in (e, set_disk ks d)
      end
  | None =>
      match Get key (k_quarantine ks) with
      | None => (Some (ESentinel ErrNotFound), ks)
      | Some _ =>
          let ks := set_quarantine ks (Delete key (k_quarantine ks)) in
          let (e, q) := Queue.Enqueue (k_q ks) wait key in
          (ESentinel <$> e, set_q ks q)
      end
  end.
Definition Requeue (m : gmap string kindState) (wait : bool) (key : WorkItemKey)
  : option Error * gmap string kindState :=
  with_kind m (Kind key) (Some (ESentinel ErrKindNotRegistered)) (requeueKind wait key).

(** ** Effects of a dispatch

    A dispatch runs concurrently with enqueuers and other workers. What it
    does to the shared state is a sequence of critical sections, one [Effect]
    each; which effects it performs depends only on what the reconciler, the
    clock and the context answer. *)
Inductive Effect : Type :=
| EffForget (key : WorkItemKey)
| EffQuarantine (item : PoisonItem)
| EffLastSuccess
| EffComplete (key : WorkItemKey)
| EffScheduleRequeue (key : WorkItemKey) (after : Z)
| EffEnqueue (key : WorkItemKey)
| EffDone (key : WorkItemKey).

(** [quarantine]: with durable work the item is deferred for ever with its
    failure, which must not be empty. *)
Definition quarantine (now : Z) (ks : kindState) (item : PoisonItem) : kindState :=
  match k_disk ks with
  | None => set_quarantine ks (Put now item (k_quarantine ks))
  | Some d =>
      let failure := if bool_decide (p_LastError item = "")
                     then "reconciliation failed without error detail"
                     else p_LastError item in
      let (err, d) := dw_DeferWork (p_Key item) (lease ks (p_Key item)) 0 failure
                        (p_Attempts item) d in
      storageError (set_disk ks d) err
  end.

(** [complete]; its result only decides whether success is counted. *)
Definition complete (ks : kindState) (key : WorkItemKey) : bool * kindState :=
  match k_disk ks with
  | Some d =>
      let (err, d) := dw_Acknowledge key (lease ks key) d in
      (match err with Some _ => false | None => true end,
       storageError (set_disk ks d) err)
  | None => (true, if r_HasOnSuccess (k_reg ks) then add_completed ks key else ks)
  end.

(** [scheduleRequeue]: durable work is deferred, volatile work gets a timer. *)
Definition scheduleRequeue (ks : kindState) (key : WorkItemKey) (after : Z) : kindState :=
  match k_disk ks with
  | Some d =>
      let (err, d) := dw_DeferWork key (lease ks key) (Z.max 0 after) "" 0 d in
      storageError (set_disk ks d) err
  | None => add_timer ks key after
  end.

Definition applyEffect (now : Z) (wait : bool) (eff : Effect) (ks : kindState) : kindState :=
  match eff with
  | EffForget key => set_q ks (Forget (k_q ks) key)
  | EffQuarantine item => quarantine now ks item
  | EffLastSuccess => set_lastSuccess ks now
  | EffComplete key => (complete ks key).2
  | EffScheduleRequeue key after => scheduleRequeue ks key after
  | EffEnqueue key => set_q ks (Queue.Enqueue (k_q ks) wait key).2
  | EffDone key => set_q ks (Done (k_q ks) key)
  end.

End manager.
Arguments kindState : clear implicits.

(** ** Dispatch *)

Section dispatch.

(** The world: time, the context, and whatever the reconciler reads and
    writes. [Reconcile] is the registered reconciler, which may panic;
    [ctxErr] is [ctx.Err() != nil]; [sleep d] waits for [d] or for the context,
    and tells whether the timer fired. *)
Context {W : Type}.
Inductive Outcome : Type :=
| Returned (r : ReconcileResult)
| Panicked (value : string).
Context (Reconcile : WorkItemKey → W → Outcome * W).
Context (ctxErr : W → bool).
Context (sleep : Z → W → bool * W).
Context (Retry : RetryFn W).
(** Whether the kind has a durable store. *)
Context (durable : bool).

(** [safeReconcile], which [reconcileAttempt] traces. *)
Definition safeReconcile (key : WorkItemKey) (w : W) : ReconcileResult * W :=
  match Reconcile key w with
  | (Returned r, w) => (r, w)
  | (Panicked v, w) => (TransientFailure (Some (EPanic v)) 0, w)
  end.

(** [requeueUnavailable] holds the worker for [delay] unless the work is
    durable. *)
Definition requeueUnavailable (key : WorkItemKey) (delay : Z) (w : W) : list Effect * W :=
  if durable then ([EffScheduleRequeue key delay], w) else
  let (fired, w) := sleep delay w in
  if fired then ([EffEnqueue key], w) else ([], w).

(** The function [handleTransient] hands to [RunWithRetry]: an error the
    manager treats itself is made permanent, so that it ends the loop. *)
Definition unavailable (e : option Error) : bool :=
  errIs e ErrRateLimited || errIs e ErrCredentialsUnavailable || errIs e ErrSnapshotInProgress.

Definition retryError (r : ReconcileResult) : option Error :=
  match r with
  | TransientFailure err _ =>
      if unavailable err then EPermanent <$> err else err
  | RequeueAfter after => Some (EPermanent (ERequeueDuringRetry after))
  | TerminalFailure err => Some (EPermanent (ETerminalDuringRetry err))
  | Success => None
  end.
Definition retryBody (key : WorkItemKey) (w : W) : option Error * W :=
  let (inner, w) := safeReconcile key w in (retryError inner, w).

Definition errText (e : option Error) : string :=
  match e with Some e => ErrorText e | None => "" end.

(** What [handleTransient] does once the retry loop has ended. *)
Definition afterRetry (key : WorkItemKey) (res : Result) (attempts : Z)
    (lastErr : option Error) (w : W) : list Effect * W :=
  if ctxErr w then ([], w) else
  if errIs lastErr ErrSnapshotInProgress then ([EffScheduleRequeue key second], w) else
  if errIs lastErr ErrRateLimited then requeueUnavailable key second w else
  if errIs lastErr ErrCredentialsUnavailable then requeueUnavailable key second w else
  match lastErr ≫= asRequeue with
  | Some after => ([EffScheduleRequeue key after], w)
  | None =>
  match lastErr ≫= asTerminal with
  | Some cause =>
      ([EffForget key; EffQuarantine (mkPoison key (attempts + 1) (ErrorText cause) 0)], w)
  | None =>
  match res with
  | ResultOK => ([EffLastSuccess; EffComplete key], w)
  | ResultQuarantine =>
      ([EffForget key; EffQuarantine (mkPoison key (attempts + 1) (errText lastErr) 0)], w)
  end end end.

Definition handleTransient (key : WorkItemKey) (err : option Error) (hint : Z)
    (cfg : Config) (w : W) : list Effect * W :=
  if ctxErr w then ([], w) else
  if errIs err ErrSnapshotInProgress
  then ([EffScheduleRequeue key (Z.max second hint)], w) else
  if errIs err ErrRateLimited then requeueUnavailable key (Z.max second hint) w else
  if errIs err ErrCredentialsUnavailable
  then requeueUnavailable key (Z.max second hint) w else
  let (fired, w) := if (0 <? hint)%Z then sleep hint w else (true, w) in
  if negb fired then ([], w) else
  let retryAttempts := (MaxAttempts cfg - 1)%Z in
  if (retryAttempts <=? 0)%Z
  then ([EffForget key; EffQuarantine (mkPoison key 1 (errText err) 0)], w) else
  let cfg := mkConfig retryAttempts (InitialInterval cfg) (MaxInterval cfg) in
  let '((res, attempts, lastErr), w) := RunWithRetry Retry cfg 0 (retryBody key) w in
  afterRetry key res attempts lastErr w.

(** [dispatch] once the recovery gate let it in. *)
Definition dispatchBody (reg : Registration) (key : WorkItemKey) (w : W) : list Effect * W :=
  let cfg := mkConfig (r_MaxAttempts reg) (r_InitialInterval reg) (r_MaxInterval reg) in
  let (r, w) := safeReconcile key w in
  match r with
  | Success => ([EffLastSuccess; EffComplete key], w)
  | TerminalFailure err =>
      ([EffForget key; EffQuarantine (mkPoison key 1 (ErrorText err) 0)], w)
  | TransientFailure err hint => handleTransient key err hint cfg w
  | RequeueAfter after => ([EffScheduleRequeue key after], w)
  end.

(** [dispatch]: [acquired] is whether the cache's recovery gate let it in
    ([AcquireDispatch] fails only when the context is done). [Done] is
    deferred, so it is the last effect on every path. *)
Definition dispatch (acquired : bool) (reg : Registration) (key : WorkItemKey) (w : W)
  : list Effect * W :=
  if negb acquired then ([EffDone key], w) else
  let (effs, w) := dispatchBody reg key w in (effs ++ [EffDone key], w).

(** ** What a dispatch does *)

(** The ways a dispatch can end. *)
Inductive disposition (key : WorkItemKey) : list Effect → Prop :=
| disp_complete : disposition key [EffLastSuccess; EffComplete key]
| disp_quarantine item :
    p_Key item = key → disposition key [EffForget key; EffQuarantine item]
| disp_schedule after : disposition key [EffScheduleRequeue key after]
| disp_enqueue : disposition key [EffEnqueue key].

Definition disposed (key : WorkItemKey) (out : list Effect * W) : Prop :=
  disposition key out.1 ∨ (out.1 = [] ∧ ctxErr out.2 = true).

Section dispositions.
(** The wait ends early only because the context is done. *)
Context (Hsleep : ∀ d w, (sleep d w).1 = false → ctxErr (sleep d w).2 = true).

Lemma requeueUnavailable_disposed key d w : disposed key (requeueUnavailable key d w).
Proof using Hsleep.
  unfold requeueUnavailable, disposed. destruct durable; simpl; [left; constructor|].
  pose proof (Hsleep d w). destruct (sleep d w) as [[] w']; simpl in *;
    eauto using disposition.
Qed.

Lemma afterRetry_disposed key res n err w : disposed key (afterRetry key res n err w).
Proof using Hsleep.
  unfold afterRetry. destruct (ctxErr w) eqn:Ec; [by right|].
  repeat case_match; eauto using requeueUnavailable_disposed;
    left; by constructor.
Qed.

Lemma handleTransient_disposed key err hint cfg w :
  disposed key (handleTransient key err hint cfg w).
Proof using Hsleep.
  unfold handleTransient. destruct (ctxErr w) eqn:Ec; [by right|].
  destruct (errIs err ErrSnapshotInProgress); [left; constructor|].
  destruct (errIs err ErrRateLimited); [eauto using requeueUnavailable_disposed|].
  destruct (errIs err ErrCredentialsUnavailable);
    [eauto using requeueUnavailable_disposed|].
  destruct (if (0 <? hint)%Z then _ else _) as [fired w'] eqn:Es.
  destruct fired; simpl.
  - destruct (_ <=? 0)%Z; [left; by constructor|].
    destruct (RunWithRetry _ _ _ _ _) as [[[res n] e] w'']. apply afterRetry_disposed.
  - right. split; [done|]. case_match; simplify_eq.
    pose proof (Hsleep hint w) as Hs. rewrite Es in Hs. by apply Hs.
Qed.

Lemma dispatchBody_disposed reg key w : disposed key (dispatchBody reg key w).
Proof using Hsleep.
  unfold dispatchBody. destruct (safeReconcile key w) as [[|after|err hint|err] w1];
    eauto using handleTransient_disposed; left; by constructor.
Qed.

(** C5: a dispatch that the context does not cut short disposes of its work in
    exactly one way: it is completed, quarantined after having been forgotten,
    deferred, or enqueued again; and [Done] comes last. Work is dropped only
    when the context is done. *)
Theorem dispatch_disposes reg key w :
  ∃ effs, (dispatch true reg key w).1 = effs ++ [EffDone key] ∧
  (disposition key effs ∨ (effs = [] ∧ ctxErr (dispatch true reg key w).2 = true)).
Proof using Hsleep.
  unfold dispatch. simpl. pose proof (dispatchBody_disposed reg key w) as Hd.
  destruct (dispatchBody reg key w) as [effs w']. eauto.
Qed.
End dispositions.

(** ** Quarantine *)

Definition returned (key : WorkItemKey) (r : ReconcileResult) : Prop :=
  ∃ w, (safeReconcile key w).1 = r.

(** A failure that counts against the budget. *)
Definition retryable (r : ReconcileResult) : Prop :=
  ∃ e h, r = TransientFailure e h ∧ unavailable e = false.

(** Why an item was quarantined: the last invocation failed for good, or it
    failed transiently for a reason of its own. *)
Definition fatal (r : ReconcileResult) (text : string) : Prop :=
  (∃ e, r = TerminalFailure e ∧ text = ErrorText e) ∨
  (∃ e h, r = TransientFailure e h ∧ unavailable e = false ∧ text = errText e).

Section quarantine_sound.
Context (key : WorkItemKey).

Lemma requeueUnavailable_no_quarantine d w item :
  EffQuarantine item ∉ (requeueUnavailable key d w).1.
Proof.
  unfold requeueUnavailable. destruct durable; simpl; [set_solver|].
  destruct (sleep d w) as [[] w']; set_solver.
Qed.

Lemma afterRetry_quarantine res n err w item :
  EffQuarantine item ∈ (afterRetry key res n err w).1 →
  ctxErr w = false ∧ unavailable err = false ∧ err ≫= asRequeue = None ∧
  p_Key item = key ∧ p_Attempts item = (n + 1)%Z ∧
  match err ≫= asTerminal with
  | Some cause => p_LastError item = ErrorText cause
  | None => res = ResultQuarantine ∧ p_LastError item = errText err
  end.
Proof.
  unfold afterRetry, unavailable.
  destruct (ctxErr w); [set_solver|].
  destruct (errIs err ErrSnapshotInProgress); [set_solver|].
  destruct (errIs err ErrRateLimited);
    [by intros ?%requeueUnavailable_no_quarantine|].
  destruct (errIs err ErrCredentialsUnavailable);
    [by intros ?%requeueUnavailable_no_quarantine|].
  destruct (err ≫= asRequeue); [set_solver|].
  destruct (err ≫= asTerminal); simpl.
  - rewrite !elem_of_cons, elem_of_nil. intros [?|[?|[]]]; by simplify_eq/=.
  - destruct res; simpl; rewrite !elem_of_cons, elem_of_nil;
      intros [?|[?|[]]]; by simplify_eq/=.
Qed.

(** The error a reconcile result turns into, seen from the caller. *)
Lemma retryError_nonpermanent r e :
  retryError r = Some e → asPermanent e = false → retryable r.
Proof.
  unfold retryable. destruct r as [|after|[e'|] h|e']; simpl; [done|..].
  - intros ?; by simplify_eq/=.
  - destruct (unavailable (Some e')) eqn:Eu; intros ?; simplify_eq/=; [done|eauto].
  - done.
  - intros ?; by simplify_eq/=.
Qed.

Context (Hretry : retry_spec ctxErr Retry).

(** What the retry loop reports, in terms of reconciler invocations. *)
Lemma RunWithRetry_results maxTries i m w res n err w' :
  (0 < maxTries < 2 ^ 64)%Z →
  RunWithRetry Retry (mkConfig maxTries i m) 0 (retryBody key) w = ((res, n, err), w') →
  ctxErr w' = false →
  ∃ rs last, Forall (returned key) (rs ++ [last]) ∧ Forall retryable rs ∧
    n = Z.of_nat (length (rs ++ [last])) ∧ (n ≤ maxTries)%Z ∧
    (err = None ↔ retryError last = None) ∧
    (∀ e, err = Some e → retryError last = Some e ∨ retryError last = Some (EPermanent e)) ∧
    (res = ResultOK ↔ err = None).
Proof using Hretry.
  clear sleep. intros Hm. unfold RunWithRetry. cbn [MaxAttempts InitialInterval MaxInterval].
  rewrite Z.mod_small by lia.
  destruct (Hretry (if (0 <? 0)%Z then 0%Z else i) m maxTries (retryBody key) w)
    as (before & final & Hr).
  destruct (Retry _ _ _ _ _) as [[err' k] w1].
  destruct Hr as [Hcalls Hbef Htries Hnot Hnil Herr]. simpl in *.
  intros Heq Hctx.
  assert (w1 = w' ∧ n = (Z.of_nat k + 1)%Z ∧ err' = err ∧ (res = ResultOK ↔ err = None))
    as (-> & -> & -> & Hres) by (destruct err'; simplify_eq; naive_solver).
  destruct Hnot as [->|?]; [|congruence].
  assert (∀ c, call_of (retryBody key) c →
    ∃ r, returned key r ∧ retryError r = c.1.2) as Hcall.
  { intros [[v e] v'] Hc. unfold call_of, retryBody in Hc. simpl in *.
    destruct (safeReconcile key v) as [r v''] eqn:E. simplify_eq.
    exists r. split; [|done]. exists v. by rewrite E. }
  apply Forall_app in Hcalls as [Hcb Hcf].
  rewrite Forall_singleton in Hcf. destruct (Hcall _ Hcf) as (last & Hlast & Elast).
  assert (∃ rs, length rs = length before ∧ Forall (returned key) rs ∧
    Forall retryable rs) as (rs & Hlen & Hret & Hrt).
  { clear Htries Hnil Herr Heq. induction before as [|c before IH]; [by exists []|].
    apply Forall_cons in Hcb as [Hc Hcb]. apply Forall_cons in Hbef as [(e & He & Hp) Hbef].
    destruct IH as (rs & ? & ? & ?); [done..|].
    destruct (Hcall _ Hc) as (r & Hr & Er). exists (r :: rs).
    split_and!; simpl; [congruence|by constructor|]. constructor; [|done].
    eapply retryError_nonpermanent; [rewrite Er; exact He|done]. }
  exists rs, last. rewrite length_app, Hlen. simpl.
  split_and!; [by rewrite Forall_app, Forall_singleton|done|lia|lia| |..].
  - by rewrite Elast, Hnil.
  - intros e ->. rewrite Elast. destruct (Herr e eq_refl) as [?|[?|?]]; [by auto..|congruence].
  - done.
Qed.

(** [terminalDuringRetryError] and [requeueDuringRetryError] are unexported: no
    reconciler returns an error that wraps one. *)
Context (Hplain : ∀ w e h,
  (safeReconcile key w).1 = TransientFailure (Some e) h ∨
  (safeReconcile key w).1 = TerminalFailure e →
  asTerminal e = None ∧ asRequeue e = None).

(** A quarantined item blames the last invocation. *)
Lemma blame_last last n res err w item :
  returned key last →
  (err = None ↔ retryError last = None) →
  (∀ e, err = Some e → retryError last = Some e ∨ retryError last = Some (EPermanent e)) →
  (res = ResultOK ↔ err = None) →
  EffQuarantine item ∈ (afterRetry key res n err w).1 →
  fatal last (p_LastError item).
Proof using Hplain.
  clear Hretry Retry. intros [v Hv] Hnone Hsome Hres (_ & Hu & Hreq & _ & _ & Ht)%afterRetry_quarantine.
  assert (is_Some err) as [e ->].
  { destruct err; [eauto|]. simpl in Ht. naive_solver. }
  simpl in *. destruct last as [|after|[e'|] h|e']; simpl in *.
  - naive_solver.
  - destruct (Hsome e eq_refl) as [?|?]; simplify_eq/=.
  - destruct (Hplain v e' h) as [Hpt Hpr]; [by left|].
    right. exists (Some e'), h. split; [done|].
    destruct (unavailable (Some e')) eqn:Eu; simpl in *.
    { exfalso. assert (unavailable (Some e) = unavailable (Some e')); [|congruence].
      by destruct (Hsome e eq_refl) as [?|?]; simplify_eq/=. }
    split; [done|]. destruct (Hsome e eq_refl) as [?|?]; simplify_eq/=.
    + rewrite Hpt in Ht. by destruct Ht.
    + rewrite Hpt in Ht. by destruct Ht.
  - naive_solver.
  - left. exists e'. split; [done|].
    destruct (Hsome e eq_refl) as [?|?]; by simplify_eq/=.
Qed.

End quarantine_sound.
End dispatch.

(** ** Effects on the shared state *)

Section effects.
Context {D : Type} `{!DurableWork D}.

Definition applyEffects (now : Z) (wait : bool) (effs : list Effect) (ks : kindState D)
  : kindState D :=
  foldl (λ ks eff, applyEffect now wait eff ks) ks effs.

(** When a worker without durable store quarantines the key it holds, the
    key leaves the queue altogether, even if it was enqueued again meanwhile:
    after the deferred [Done] it is in quarantine and neither waiting, dirty
    nor processing. *)
Theorem quarantined_stays_out now wait (ks : kindState D) item :
  k_disk ks = None → wf (k_q ks) → p_Key item ∈ q_processing (k_q ks) →
  let key := p_Key item in
  let ks' := applyEffects now wait [EffForget key; EffQuarantine item; EffDone key] ks in
  key ∉ q_dirty (k_q ks') ∧ key ∉ q_queue (k_q ks') ∧ key ∉ q_processing (k_q ks') ∧
  (∃ item', k_quarantine ks' !! key = Some item' ∧
     p_Attempts item' = p_Attempts item ∧ p_LastError item' = p_LastError item) ∧
  wf (k_q ks').
Proof.
  intros Hd Hwf Hp. simpl. unfold quarantine. simpl. rewrite Hd. simpl.
  set (q1 := Forget (k_q ks) (p_Key item)).
  assert (wf q1) as Hwf1 by (by apply wf_Forget).
  assert (p_Key item ∉ q_dirty q1) as Hnd by (unfold q1, Forget; set_solver).
  assert (wf (Done q1 (p_Key item))) as Hwf2 by (by apply wf_Done).
  assert (q_dirty (Done q1 (p_Key item)) = q_dirty q1) as Ed
    by (unfold Done; case_bool_decide; done).
  split_and!; [by rewrite Ed| | | |done].
  - rewrite (wf_queue _ Hwf2), Ed. tauto.
  - unfold Done. case_bool_decide; simpl; set_solver.
  - destruct (Put_lookup now item (k_quarantine ks)) as (i & ? & ? & ? & ?). eauto.
Qed.

(** ** Requeue *)

Lemma with_kind_lookup {A} (m : gmap string (kindState D)) kind (none : A) f ks :
  m !! kind = Some ks →
  with_kind m kind none f = ((f ks).1, <[kind := (f ks).2]> m).
Proof. unfold with_kind. intros ->. by destruct (f ks). Qed.

Lemma Enqueue_open q key :
  q_shutdown q = false → ∃ q', Queue.Enqueue q true key = (None, q') ∧
  key ∈ q_dirty q' ∧ q_processing q' = q_processing q.
Proof.
  unfold Queue.Enqueue. intros ->. simpl.
  repeat case_bool_decide; eexists; (split; [done|]); split; simpl; set_solver.
Qed.

(** Requeueing a quarantined key of a kind without durable store gives it a
    fresh budget: it leaves quarantine and is pending again, other kinds and
    other keys' quarantine entries are untouched, and a second requeue reports
    it is not quarantined. *)
Theorem Requeue_quarantined (m : gmap string (kindState D)) key ks item :
  m !! Kind key = Some ks → k_disk ks = None → q_shutdown (k_q ks) = false →
  k_quarantine ks !! key = Some item →
  ∃ ks', Requeue m true key = (None, <[Kind key := ks']> m) ∧
    key ∈ q_dirty (k_q ks') ∧ k_quarantine ks' = delete key (k_quarantine ks) ∧
    (Requeue (<[Kind key := ks']> m) true key).1 = Some (ESentinel ErrNotFound).
Proof.
  intros Hm Hd Hs Hi. unfold Requeue. rewrite (with_kind_lookup _ _ _ _ _ Hm).
  unfold requeueKind. rewrite Hd. unfold Get. rewrite Hi. simpl.
  destruct (Enqueue_open (k_q ks) key Hs) as (q' & E & Hin & _). rewrite E. simpl.
  eexists. split_and!; [done|done|done|].
  erewrite with_kind_lookup by apply lookup_insert_eq. simpl. rewrite Hd.
  unfold Delete. by rewrite lookup_delete_eq.
Qed.

(** ** The durable dispatch loop

    [runDiskDispatchLoop]: each turn asks the store for ready work and reserves
    a lease per item, up to the worker count; the worker's deferred function
    drops the lease. *)

(** The body of the loop over a page: [Some] when the item is submitted. *)
Definition reserve (ks : kindState D) (work : DiskWork) : option DiskWork * kindState D :=
  match k_leases ks !! w_Key work with
  | Some _ => (None, ks)
  | None =>
      if (Z.of_nat (size (k_leases ks)) <? r_WorkerCount (k_reg ks))%Z
      then (Some work, set_leases ks (<[w_Key work := w_Token work]> (k_leases ks)))
      else (None, ks)
  end.

Fixpoint reservePage (ks : kindState D) (page : list DiskWork)
  : list DiskWork * kindState D :=
  match page with
  | [] => ([], ks)
  | work :: page =>
      let (s, ks) := reserve ks work in
      let (ss, ks) := reservePage ks page in
      (match s with Some work => work :: ss | None => ss end, ks)
  end.

Definition diskTurn (ks : kindState D) : list DiskWork * kindState D :=
  match k_disk ks with
  | None => ([], ks)
  | Some d =>
      let available := (r_WorkerCount (k_reg ks) - Z.of_nat (size (k_leases ks)))%Z in
      if (0 <? available)%Z then
        match dw_Ready (Z.min DiskPageItems (r_WorkerCount (k_reg ks))) d with
        | Err e => ([], if errorsIs e ErrSnapshotInProgress then ks
                        else storageError ks (Some e))
        | Ok page =>
            reservePage (set_runnable ks (match page with [] => false | _ => true end)) page
        end
      else ([], ks)
  end.

Definition dropLease (ks : kindState D) (key : WorkItemKey) : kindState D :=
  set_leases ks (delete key (k_leases ks)).

(** The workers a durable kind has running, and the steps of the kind: a turn
    of the loop, an effect of any worker or enqueuer, the end of a worker. *)
Record DiskSys : Type := mkDS { ds_ks : kindState D; ds_running : list WorkItemKey }.

Inductive dstep : DiskSys → DiskSys → Prop :=
| dstep_turn ks run works ks' :
    diskTurn ks = (works, ks') →
    dstep (mkDS ks run) (mkDS ks' ((w_Key <$> works) ++ run))
| dstep_effect ks run now wait eff :
    dstep (mkDS ks run) (mkDS (applyEffect now wait eff ks) run)
| dstep_enqueue ks run wait key :
    dstep (mkDS ks run) (mkDS (enqueueKind wait key ks).2 run)
| dstep_finish ks run1 key run2 :
    dstep (mkDS ks (run1 ++ key :: run2)) (mkDS (dropLease ks key) (run1 ++ run2)).

(** The leases are the running workers, one each, within the worker count. *)
Record leased (s : DiskSys) : Prop := {
  leased_once : NoDup (ds_running s);
  leased_dom : ∀ k, k ∈ ds_running s ↔ is_Some (k_leases (ds_ks s) !! k);
  leased_bound :
    (Z.of_nat (size (k_leases (ds_ks s))) ≤ r_WorkerCount (k_reg (ds_ks s)))%Z;
}.

Lemma applyEffect_frame now wait eff (ks : kindState D) :
  k_leases (applyEffect now wait eff ks) = k_leases ks ∧
  k_reg (applyEffect now wait eff ks) = k_reg ks.
Proof.
  destruct eff; simpl; unfold quarantine, complete, scheduleRequeue, storageError;
    try done; destruct (k_disk ks); simpl; repeat case_match; done.
Qed.

Lemma enqueueKind_frame wait key (ks : kindState D) :
  k_leases (enqueueKind wait key ks).2 = k_leases ks ∧
  k_reg (enqueueKind wait key ks).2 = k_reg ks.
Proof. unfold enqueueKind. repeat case_match; simplify_eq/=; done. Qed.

Lemma reservePage_leased page (ks : kindState D) run works ks' :
  leased (mkDS ks run) → reservePage ks page = (works, ks') →
  leased (mkDS ks' ((w_Key <$> works) ++ run)).
Proof.
  revert ks run works ks'. induction page as [|work page IH]; intros ks run works ks' Hl Hr;
    simpl in Hr; [by simplify_eq|].
  unfold reserve in Hr. destruct Hl as [Hnd Hdom Hb]. simpl in *.
  destruct (k_leases ks !! w_Key work) eqn:El.
  { destruct (reservePage ks page) as [ss ks''] eqn:E. simplify_eq. by eapply IH. }
  destruct (Z.ltb_spec (Z.of_nat (size (k_leases ks))) (r_WorkerCount (k_reg ks))).
  2: { destruct (reservePage ks page) as [ss ks''] eqn:E. simplify_eq. by eapply IH. }
  destruct (reservePage (set_leases _ _) page) as [ss ks''] eqn:E. simplify_eq.
  cut (leased (mkDS ks' ((w_Key <$> ss) ++ w_Key work :: run))).
  { intros [H1 H2 H3]. simpl in *. split; simpl; [| |done].
    - rewrite <- Permutation_middle in H1. done.
    - intros k. rewrite <- H2. set_solver. }
  eapply IH; [|exact E]. split; simpl.
  - constructor; [|done]. rewrite Hdom, El. by intros [].
  - intros k. rewrite elem_of_cons, Hdom, lookup_insert_is_Some.
    destruct (decide (k = w_Key work)); naive_solver.
  - rewrite map_size_insert_None by done. lia.
Qed.

Lemma dstep_leased s s' : leased s → dstep s s' → leased s'.
Proof.
  intros Hl Hs. destruct Hs as [ks run works ks' Ht|ks run now wait eff|ks run wait key|ks r1 key r2].
  - unfold diskTurn in Ht. destruct (k_disk ks); [|by simplify_eq].
    destruct (0 <? _)%Z; [|by simplify_eq].
    destruct (dw_Ready _ _) as [page|e].
    + eapply reservePage_leased; [|exact Ht]. by destruct Hl; split.
    + simplify_eq/=. case_match; [done|]. by destruct Hl; split.
  - destruct Hl as [? ? ?], (applyEffect_frame now wait eff ks) as [El Er].
    by split; simpl in *; rewrite ?El, ?Er.
  - destruct Hl as [? ? ?], (enqueueKind_frame wait key ks) as [El Er].
    by split; simpl in *; rewrite ?El, ?Er.
  - destruct Hl as [Hnd Hdom Hb]. simpl in *.
    rewrite <- Permutation_middle in Hnd. apply NoDup_cons in Hnd as [Hk Hnd].
    split; simpl; [done| |].
    + intros k. rewrite lookup_delete_is_Some, <- Hdom. clear Hdom.
      destruct (decide (k = key)) as [->|]; set_solver.
    + rewrite map_size_delete. destruct (k_leases ks !! key); simpl; lia.
Qed.

(** C9: a durable kind never runs two workers on one key, nor more workers than
    its worker count, whatever work the store reports as ready and however the
    turns of the loop interleave with effects, enqueues and ending workers. *)
Theorem disk_dispatch_bounded ks s :
  k_leases ks = ∅ → (0 ≤ r_WorkerCount (k_reg ks))%Z →
  rtc dstep (mkDS ks []) s →
  NoDup (ds_running s) ∧
  (Z.of_nat (length (ds_running s)) ≤ r_WorkerCount (k_reg (ds_ks s)))%Z.
Proof.
  intros He Hw Hr.
  assert (leased s) as [Hnd Hdom Hb].
  { apply (rtc_preserves dstep leased dstep_leased _ _ Hr).
    split; simpl; [constructor| |rewrite He, map_size_empty; lia].
    intros k. rewrite He, lookup_empty. split; [set_solver|by intros []]. }
  split; [done|].
  replace (length (ds_running s)) with (size (k_leases (ds_ks s))); [done|].
  rewrite <- size_dom. rewrite <- (size_list_to_set (C := gset WorkItemKey)) by done.
  f_equal. apply set_eq. intros k. rewrite elem_of_list_to_set, Hdom. apply elem_of_dom.
Qed.

(** ** Health

    [KindStats] for one kind. The pool reports its running workers and waiting
    tasks; [counts] are the pending and poison counts of a durable store,
    [recovery] the state of a cache that can recover, [synced] whether the
    cache has completed its first list. *)
Record KindStat : Type := mkStat {
  st_ActiveWorkers : Z;
  st_QueueDepth : Z;
  st_PoisonItems : Z;
  st_Stalled : bool;
  st_Registered : bool;
  st_Recovering : bool;
}.

Definition kindStat (now active waiting : Z) (counts : option (Z * Z))
    (recovery : option RecoveryState) (synced : bool) (ks : kindState D) : KindStat :=
  let poison := match counts with
    | Some (_, poison) => poison
    | None => Z.of_nat (LenPoison (k_quarantine ks)) end in
  let depth := match counts with
    | Some (pending, poison) => Z.max 0 (pending - poison - active)
    | None => (Z.of_nat (Len (k_q ks)) + waiting)%Z end in
  let stallBaseline := if (k_lastSuccess ks =? 0)%Z then k_startedAt ks
                       else k_lastSuccess ks in
  let hasWork := match counts with
    | Some _ => (0 <? active)%Z || k_runnable ks
    | None => (0 <? active)%Z || (0 <? depth)%Z end in
  let longSince t := (r_StallThreshold (k_reg ks) <? now - t)%Z in
  let stalled := hasWork && negb (stallBaseline =? 0)%Z && longSince stallBaseline in
  let stalled := match recovery with
    | None => stalled
    | Some r => if Recovering r then longSince (LastProgress r)
                else if (stallBaseline <? CompletedAt r)%Z
                then hasWork && longSince (CompletedAt r) else stalled
    end in
  mkStat active depth poison (stalled || k_storageFailed ks) true
    (match recovery with Some r => Recovering r | None => false end || negb synced).

(** A kind is reported stalled only for a reason: its store failed, a
    recovery made no progress for longer than the threshold, or work is
    running or runnable while neither a success, a start nor a completed
    recovery happened within the threshold. In particular an idle kind is
    healthy, however old its last success. *)
Theorem stalled_for_a_reason now active waiting counts recovery synced (ks : kindState D) :
  st_Stalled (kindStat now active waiting counts recovery synced ks) = true →
  k_storageFailed ks = true ∨
  (∃ r, recovery = Some r ∧ Recovering r = true ∧
     (r_StallThreshold (k_reg ks) < now - LastProgress r)%Z) ∨
  (((0 < active)%Z ∨ match counts with
     | Some _ => k_runnable ks = true
     | None => (0 < Z.of_nat (length (q_queue (k_q ks))) + waiting)%Z end) ∧
   (k_lastSuccess ks ≠ 0%Z → (r_StallThreshold (k_reg ks) < now - k_lastSuccess ks)%Z) ∧
   (k_lastSuccess ks = 0%Z → (r_StallThreshold (k_reg ks) < now - k_startedAt ks)%Z) ∧
   (∀ r, recovery = Some r → (k_startedAt ks < CompletedAt r)%Z →
      (k_lastSuccess ks < CompletedAt r)%Z →
      (r_StallThreshold (k_reg ks) < now - CompletedAt r)%Z)).
Proof.
  unfold kindStat. simpl. rewrite orb_true_iff. intros [Hs|Hs]; [|by left]. right.
  set (base := if (k_lastSuccess ks =? 0)%Z then _ else _) in Hs.
  assert (Hb : (k_lastSuccess ks = 0 ∧ base = k_startedAt ks ∨
    k_lastSuccess ks ≠ 0 ∧ base = k_lastSuccess ks)%Z)
    by (unfold base; destruct (Z.eqb_spec (k_lastSuccess ks) 0); auto).
  clearbody base.
  destruct recovery as [r|]; [destruct (Recovering r) eqn:Er|].
  - left. exists r. split_and!; [done|done|]. by apply Z.ltb_lt.
  - right. destruct (Z.ltb_spec base (CompletedAt r));
      destruct counts as [[? ?]|]; unfold Len in Hs; rewrite ?andb_true_iff, ?orb_true_iff,
        ?Z.ltb_lt, ?negb_true_iff, ?Z.eqb_neq in Hs;
      (split_and!; [tauto|lia|lia|]); intros r' ? ? ?; simplify_eq; lia.
  - right. destruct counts as [[? ?]|]; unfold Len in Hs; rewrite ?andb_true_iff, ?orb_true_iff,
      ?Z.ltb_lt, ?negb_true_iff, ?Z.eqb_neq in Hs; (split_and!; [tauto|lia|lia|done]).
Qed.
End effects.

(** ** Concrete runs *)

(** A reconciler that always fails transiently; the world counts its calls. *)
Definition failing (_ : WorkItemKey) (n : nat) : Outcome * nat :=
  (Returned (TransientFailure (Some (EOpaque "boom")) 0), S n).
(** One that fails with an error once, then reports a transient failure
    without one. *)
Definition failingNil (_ : WorkItemKey) (n : nat) : Outcome * nat :=
  (Returned (TransientFailure (if decide (n = 0) then Some (EOpaque "boom") else None) 0), S n).
Definition running (_ : nat) : bool := false.
Definition noWait (_ : Z) (n : nat) : bool * nat := (true, n).
Definition reg1 : Registration :=
  applyDefaults (mkReg "Product" true true true 3 0 0 false 0 2).
Definition poison1 : PoisonItem := mkPoison kA 3 "boom" 0.

(** A transient failure whose error is nil, returned by a retry, is taken
    for a success: the retry function returns a nil error, and the work is
    completed although no invocation succeeded. *)
Example nil_transient_completes :
  (dispatch failingNil running noWait simpleRetry false true reg1 kA 0).1 =
  [EffLastSuccess; EffComplete kA; EffDone kA].
Proof. reflexivity. Qed.

Lemma dispatch_disposes_witness :
  ∃ effs, (dispatch failing running noWait simpleRetry false true reg1 kA 0).1 =
    effs ++ [EffDone kA] ∧
  (disposition kA effs ∨ (effs = [] ∧
   running (dispatch failing running noWait simpleRetry false true reg1 kA 0).2 = true)).
Proof. apply dispatch_disposes. intros d w. unfold noWait. simpl. discriminate. Defined.


(** A durable store that reports a fixed page of ready work. *)
#[export] Instance fixedWork : DurableWork (list DiskWork) := {|
  dw_Enqueue := λ _ d, (None, d);
  dw_Acknowledge := λ _ _ d, (None, d);
  dw_DeferWork := λ _ _ _ _ _ d, (None, d);
  dw_WorkSchedule := λ _ _, Err (ESentinel ErrNotFound);
  dw_Ready := λ _ d, Ok d;
|}.
Definition page1 : list DiskWork := [mkWork kA 1 ""; mkWork kB 2 ""; mkWork kA 1 ""].
Definition ks1 (disk : option (list DiskWork)) : kindState (list DiskWork) :=
  mkKS reg1 (mkQueue [] {[kA]} {[kA]} false false) ∅ 0 0 ∅ false false disk [] [].

Lemma quarantined_stays_out_witness :
  let ks' := applyEffects 7 true [EffForget kA; EffQuarantine poison1; EffDone kA] (ks1 None) in
  kA ∉ q_dirty (k_q ks') ∧ kA ∉ q_queue (k_q ks') ∧ kA ∉ q_processing (k_q ks') ∧
  (∃ item', k_quarantine ks' !! kA = Some item' ∧
     p_Attempts item' = 3%Z ∧ p_LastError item' = "boom") ∧ wf (k_q ks').
Proof.
  apply (quarantined_stays_out 7 true (ks1 None) poison1); [reflexivity| |set_solver].
  split; [constructor|]. simpl. set_solver.
Defined.

Definition m1 : gmap string (kindState (list DiskWork)) :=
  {["Product" := set_quarantine (ks1 None) {[kA := poison1]}]}.
Lemma Requeue_quarantined_witness :
  ∃ ks', Requeue m1 true kA = (None, <[Kind kA := ks']> m1) ∧
    kA ∈ q_dirty (k_q ks') ∧
    k_quarantine ks' =
      delete kA (k_quarantine (set_quarantine (ks1 None) {[kA := poison1]})) ∧
    (Requeue (<[Kind kA := ks']> m1) true kA).1 = Some (ESentinel ErrNotFound).
Proof. eapply Requeue_quarantined; reflexivity. Defined.

(** A turn submits [kA] and [kB] once each, filling the two workers. *)
Lemma disk_dispatch_bounded_witness :
  ∃ ks', rtc dstep (mkDS (ks1 (Some page1)) []) (mkDS ks' [kA; kB]) ∧ NoDup [kA; kB] ∧
    (Z.of_nat (length [kA; kB]) ≤ r_WorkerCount (k_reg ks'))%Z.
Proof.
  assert (Hr : rtc dstep (mkDS (ks1 (Some page1)) [])
    (mkDS (diskTurn (ks1 (Some page1))).2 [kA; kB])).
  { eapply rtc_once.
    exact (dstep_turn (ks1 (Some page1)) [] [mkWork kA 1 ""; mkWork kB 2 ""] _ eq_refl). }
  eexists. split; [exact Hr|].
  apply (disk_dispatch_bounded (ks1 (Some page1)) _ eq_refl) in Hr; [exact Hr|].
  vm_compute. discriminate.
Defined.

(** Work is running and the last success is older than the threshold. *)
Lemma stalled_for_a_reason_witness :
  st_Stalled (kindStat (400 * second) 1 0 None None true
    (set_lastSuccess (ks1 None) second)) = true ∧
  (r_StallThreshold (k_reg (ks1 None)) < 400 * second - second)%Z.
Proof.
  split; [reflexivity|].
  destruct (stalled_for_a_reason (400 * second) 1 0 None None true
    (set_lastSuccess (ks1 None) second) eq_refl) as [H|[(r & H & _)|(_ & H & _)]].
  - discriminate H.
  - discriminate H.
  - apply H. discriminate.
Defined.
