(* ===== verification/DiskKeys.v ===== *)
(** * The key space of the durable store

    [checkpoint.DiskStore] keeps everything in one ordered map of byte strings
    (LevelDB). This file has the encodings of its keys and numbers, and the
    rows the keys stand for: [rowKey] builds the key of a row the way the code
    does and is injective, so that the rows never overlap. *)

From S2P Require Import Prelude WorkTypes.
From stdpp Require Import pretty.
From Stdlib Require Import Ascii.

(** ** Numbers: eight bytes, big endian *)

Definition byteOf (n : Z) : ascii := ascii_of_N (Z.to_N (n mod 256)).
Fixpoint beBytes (w : nat) (n : Z) : string :=
  match w with
  | 0 => ""
  | S w => String (byteOf (n / 256 ^ Z.of_nat w)) (beBytes w n)
  end.
Fixpoint beRead (acc : Z) (s : string) : Z :=
  match s with
  | "" => acc
  | String c s => beRead (acc * 256 + Z.of_N (N_of_ascii c)) s
  end.

(** [diskNumber] and [binary.BigEndian.Uint64]. *)
Definition diskNumber (n : Z) : string := beBytes 8 n.
Definition readNumber (s : string) : Z := beRead 0 s.

#[global] Arguments diskNumber : simpl never.
#[global] Arguments readNumber : simpl never.

Definition isU64 (n : Z) : Prop := (0 ≤ n < 2 ^ 64)%Z.

Lemma byteOf_value n : Z.of_N (N_of_ascii (byteOf n)) = (n mod 256)%Z.
Proof.
  unfold byteOf. pose proof (Z.mod_pos_bound n 256 ltac:(lia)).
  rewrite N_ascii_embedding by lia. lia.
Qed.
Lemma ascii_value_range c : (0 ≤ Z.of_N (N_of_ascii c) < 256)%Z.
Proof. pose proof (N_ascii_bounded c). lia. Qed.

Lemma beBytes_length w n : String.length (beBytes w n) = w.
Proof. induction w as [|w IH]; simpl; congruence. Qed.
Lemma diskNumber_length n : String.length (diskNumber n) = 8.
Proof. apply beBytes_length. Qed.

Lemma beRead_app acc s t : beRead acc (s +:+ t) = beRead (beRead acc s) t.
Proof. revert acc. induction s as [|c s IH]; intros acc; [done|]. rewrite str_app_cons. simpl. apply IH. Qed.

Lemma beRead_beBytes w acc n :
  beRead acc (beBytes w n) = (acc * 256 ^ Z.of_nat w + n mod 256 ^ Z.of_nat w)%Z.
Proof.
  revert acc. induction w as [|w IH]; intros acc.
  - cbn. rewrite Z.mod_1_r. lia.
  - cbn [beBytes beRead]. rewrite IH, byteOf_value, Nat2Z.inj_succ, Z.pow_succ_r by lia.
    rewrite (Z.mul_comm 256), Z.rem_mul_r by lia. lia.
Qed.
Lemma readNumber_diskNumber n : isU64 n → readNumber (diskNumber n) = n.
Proof.
  intros H. unfold readNumber, diskNumber. rewrite beRead_beBytes.
  change (256 ^ Z.of_nat 8)%Z with (2 ^ 64)%Z. rewrite Z.mod_small by done. lia.
Qed.
Lemma beRead_range s acc :
  (acc * 256 ^ Z.of_nat (String.length s) ≤ beRead acc s <
   (acc + 1) * 256 ^ Z.of_nat (String.length s))%Z.
Proof.
  revert acc. induction s as [|c s IH]; intros acc; cbn [beRead String.length]; [cbn; lia|].
  pose proof (ascii_value_range c). specialize (IH (acc * 256 + Z.of_N (N_of_ascii c))%Z).
  rewrite Nat2Z.inj_succ, Z.pow_succ_r by lia.
  pose proof (Z.pow_pos_nonneg 256 (Z.of_nat (String.length s)) ltac:(lia) ltac:(lia)). nia.
Qed.
Lemma readNumber_range s : String.length s = 8 → isU64 (readNumber s).
Proof.
  intros H. unfold readNumber, isU64. pose proof (beRead_range s 0) as Hr. rewrite H in Hr.
  change (256 ^ Z.of_nat 8)%Z with (2 ^ 64)%Z in Hr. lia.
Qed.
Lemma diskNumber_inj a b : isU64 a → isU64 b → diskNumber a = diskNumber b → a = b.
Proof. intros Ha Hb E. rewrite <- (readNumber_diskNumber a), <- (readNumber_diskNumber b), E; done. Qed.

(** Fixed-width big-endian numbers are ordered as their bytes are. *)
Lemma beBytes_lt w a b x y :
  (0 ≤ a < 256 ^ Z.of_nat w)%Z → (0 ≤ b < 256 ^ Z.of_nat w)%Z → (a < b)%Z →
  String.compare (beBytes w a +:+ x) (beBytes w b +:+ y) = Lt.
Proof.
  assert (∀ w q r, (0 ≤ r < 256 ^ Z.of_nat w)%Z →
    beBytes w (q * 256 ^ Z.of_nat w + r) = beBytes w r) as Hlow.
  { clear. induction w as [|w IH]; intros q r Hr; [done|]. cbn [beBytes].
    rewrite Nat2Z.inj_succ, Z.pow_succ_r in * by lia.
    set (p := (256 ^ Z.of_nat w)%Z) in *. assert (0 < p)%Z by (apply Z.pow_pos_nonneg; lia).
    f_equal.
    - unfold byteOf. do 2 f_equal.
      replace (q * (256 * p) + r)%Z with (q * 256 * p + r)%Z by lia.
      rewrite Z.div_add_l by lia. rewrite Z.add_comm, Z_mod_plus_full. done.
    - rewrite (Z.div_mod r p) by lia. pose proof (Z.mod_pos_bound r p).
      replace (q * (256 * p) + (p * (r / p) + r mod p))%Z
        with ((q * 256 + r / p) * p + r mod p)%Z by lia.
      rewrite (Z.mul_comm p). rewrite !IH; [done|lia|lia]. }
  revert a b. induction w as [|w IH]; intros a b Ha Hb Hlt; [cbn in *; lia|].
  cbn [beBytes]. rewrite !str_app_cons. cbn [String.compare].
  rewrite Nat2Z.inj_succ, Z.pow_succ_r in * by lia.
  set (p := (256 ^ Z.of_nat w)%Z) in *. assert (0 < p)%Z as Hp by (apply Z.pow_pos_nonneg; lia).
  assert (∀ n, 0 ≤ n < 256 * p → (n / p) mod 256 = n / p)%Z as Hq.
  { intros n Hn. apply Z.mod_small. split; [apply Z.div_pos; lia|apply Z.div_lt_upper_bound; lia]. }
  unfold Ascii.compare. rewrite <- N2Z.inj_compare, !byteOf_value, !Hq by done.
  pose proof (Z.div_mod a p ltac:(lia)) as Ea. pose proof (Z.div_mod b p ltac:(lia)) as Eb.
  pose proof (Z.mod_pos_bound a p Hp). pose proof (Z.mod_pos_bound b p Hp).
  destruct (Z.compare_spec (a / p) (b / p)) as [E|L|G]; [|done|nia].
  rewrite Ea, Eb, !(Z.mul_comm p) by lia. unfold p. rewrite !Hlow by done.
  fold p. apply IH; [done..|]. rewrite E in Ea. lia.
Qed.

(** ** Keys *)

Definition NUL : ascii := "000"%char.

(** [diskPrefix]. *)
Definition diskPrefix (generation : Z) (family : string) : string :=
  "g/" +:+ diskNumber generation +:+ "/" +:+ family.

(** [diskLogical]: the name of a resource within the store of its kind. *)
Definition diskLogical (key : WorkItemKey) : result Error string :=
  if bool_decide (Kind key = "") || bool_decide (Name key = "") ||
     bool_decide (1024 < String.length (Kind key) + String.length (Namespace key) +
                         String.length (Name key)) ||
     hasChar NUL (Kind key +:+ Namespace key +:+ Name key)
  then Err (EOpaque "checkpoint: invalid resource key")
  else Ok (Namespace key +:+ String NUL (Name key)).

(** [strings.SplitN(logical, "\x00", 2)] read back as a key of the kind. *)
Definition splitLogical (kind logical : string) : option WorkItemKey :=
  '(ns, name) ← cut NUL logical; Some (mkKey kind ns name).

(** The name under which a related owner, of any kind, is recorded, and
    [strings.Split] of it into exactly three parts. *)
Definition relatedLogical (key : WorkItemKey) : string :=
  Kind key +:+ String NUL (Namespace key +:+ String NUL (Name key)).
Definition splitRelated (logical : string) : option WorkItemKey :=
  '(kind, r) ← cut NUL logical;
  '(ns, name) ← cut NUL r;
  if hasChar NUL name then None else Some (mkKey kind ns name).

Lemma diskLogical_Ok key l :
  diskLogical key = Ok l →
  l = Namespace key +:+ String NUL (Name key) ∧ Kind key ≠ "" ∧ Name key ≠ "" ∧
  hasChar NUL (Kind key) = false ∧ hasChar NUL (Namespace key) = false ∧
  hasChar NUL (Name key) = false ∧
  String.length (Kind key) + String.length (Namespace key) + String.length (Name key) ≤ 1024.
Proof.
  unfold diskLogical. rewrite !hasChar_app.
  destruct (hasChar NUL (Kind key)), (hasChar NUL (Namespace key)), (hasChar NUL (Name key));
    rewrite ?orb_true_r; try done; simpl.
  rewrite orb_false_r. repeat case_bool_decide; simpl; try done.
  intros [= <-]. split_and!; done || lia.
Qed.
Lemma splitLogical_diskLogical key l :
  diskLogical key = Ok l → splitLogical (Kind key) l = Some key.
Proof.
  intros (-> & _ & _ & _ & H & _)%diskLogical_Ok. unfold splitLogical.
  rewrite cut_app by done. simpl. by destruct key.
Qed.
Lemma splitRelated_relatedLogical key l :
  diskLogical key = Ok l → splitRelated (relatedLogical key) = Some key.
Proof.
  intros (_ & _ & _ & H1 & H2 & H3 & _)%diskLogical_Ok. unfold splitRelated, relatedLogical.
  rewrite cut_app by done. simpl. rewrite cut_app by done. simpl. rewrite H3. by destruct key.
Qed.
Lemma diskLogical_inj k1 k2 l :
  Kind k1 = Kind k2 → diskLogical k1 = Ok l → diskLogical k2 = Ok l → k1 = k2.
Proof.
  intros E H1%splitLogical_diskLogical H2%splitLogical_diskLogical. rewrite E in H1. congruence.
Qed.

(** ** Rows *)

Inductive Meta : Type :=
| MSchema | MActive | MCursor | MGeneration | MStaging | MGarbage | MSequence.
#[global] Instance Meta_eq_dec : EqDecision Meta.
Proof. solve_decision. Defined.
Definition metaKey (m : Meta) : string :=
  match m with
  | MSchema => "schema" | MActive => "active" | MCursor => "cursor"
  | MGeneration => "generation" | MStaging => "staging" | MGarbage => "garbage"
  | MSequence => "sequence"
  end.

(** The rows of a generation: the items, the pending work with its token, its
    schedule, its quarantine record and its place in the ready index, the
    related owners to reconcile, the relation indexes and the counters. *)
Inductive GenRow : Type :=
| GData (l : string)
| GWork (l : string)
| GSched (l : string)
| GPoison (l : string)
| GReady (priority due token : Z) (l : string)
| GRelated (l : string)
| GIndex (b l : string)
| GIndexCount (b : string)
| GPendingCount
| GPoisonCount.
#[global] Instance GenRow_eq_dec : EqDecision GenRow.
Proof. solve_decision. Defined.

(** [diskReadyKey] after its generation. *)
Definition readySuffix (priority due token : Z) (l : string) : string :=
  "q/" +:+ pretty priority +:+ "/" +:+ diskNumber (u64 due) +:+ diskNumber token +:+ l.
Definition genSuffix (f : GenRow) : string :=
  match f with
  | GData l => "d/" +:+ l
  | GWork l => "w/" +:+ l
  | GSched l => "s/" +:+ l
  | GPoison l => "p/" +:+ l
  | GReady p d t l => readySuffix p d t l
  | GRelated l => "r/" +:+ l
  | GIndex b l => "i/" +:+ b +:+ "/" +:+ l
  | GIndexCount b => "ic/" +:+ b
  | GPendingCount => "pending-count"
  | GPoisonCount => "poison-count"
  end.

Inductive Row : Type :=
| RMeta (m : Meta)
| RFanout (b : string)
| RGen (g : Z) (f : GenRow).
#[global] Instance Row_eq_dec : EqDecision Row.
Proof. solve_decision. Defined.
Definition rowKey (r : Row) : string :=
  match r with
  | RMeta m => metaKey m
  | RFanout b => "fanout/" +:+ b
  | RGen g f => diskPrefix g (genSuffix f)
  end.

(** The rows the store can hold: the numbers in range, and the encoded name of
    an index without the separator. *)
Definition okGen (f : GenRow) : Prop :=
  match f with
  | GReady p d t _ => (0 ≤ p ≤ 1)%Z ∧ (0 ≤ d < 2 ^ 63)%Z ∧ isU64 t
  | GIndex b _ => hasChar "/" b = false
  | _ => True
  end.
Definition okRow (r : Row) : Prop :=
  match r with RGen g f => isU64 g ∧ okGen f | _ => True end.

Lemma readySuffix_inj p d t l p' d' t' l' :
  okGen (GReady p d t l) → okGen (GReady p' d' t' l') →
  readySuffix p d t l = readySuffix p' d' t' l' → p = p' ∧ d = d' ∧ t = t' ∧ l = l'.
Proof.
  intros (Hp & Hd & Ht) (Hp' & Hd' & Ht') E. unfold readySuffix in E.
  rewrite !u64_small in E by lia.
  apply (inj (String.append "q/")) in E.
  assert (p = p' ∧ diskNumber d +:+ diskNumber t +:+ l = diskNumber d' +:+ diskNumber t' +:+ l')
    as [-> E'].
  { assert (p = 0 ∨ p = 1)%Z as [-> | ->] by lia; assert (p' = 0 ∨ p' = 1)%Z as [-> | ->] by lia;
      change (pretty 0%Z) with "0" in E; change (pretty 1%Z) with "1" in E; try discriminate E;
      (split; [done|]);
      match type of E with ?a +:+ ?b +:+ _ = _ => apply (inj (String.append a)) in E;
        apply (inj (String.append b)) in E end; done. }
  apply str_app_inj_len in E' as [E1 E']; [|by rewrite !diskNumber_length].
  apply str_app_inj_len in E' as [E2 ->]; [|by rewrite !diskNumber_length].
  apply diskNumber_inj in E1; [|unfold isU64; lia..]. by apply diskNumber_inj in E2.
Qed.

Lemma genSuffix_inj f f' : okGen f → okGen f' → genSuffix f = genSuffix f' → f = f'.
Proof.
  intros Hf Hf'. destruct f, f'; simpl;
    try (unfold readySuffix; rewrite !str_app_cons; intros E; discriminate E);
    try done; intros E.
  1-4,6: apply (inj (String.append _)) in E; by subst.
  - apply readySuffix_inj in E as (-> & -> & -> & ->); done.
  - apply (inj (String.append "i/")) in E. apply (cut_inj "/") in E as [-> ->]; done.
  - apply (inj (String.append "ic/")) in E. by subst.
Qed.

Lemma diskPrefix_inj g g' s s' :
  isU64 g → isU64 g' → diskPrefix g s = diskPrefix g' s' → g = g' ∧ s = s'.
Proof.
  intros Hg Hg' E. unfold diskPrefix in E. apply (inj (String.append "g/")) in E.
  apply str_app_inj_len in E as [E1 E2]; [|by rewrite !diskNumber_length].
  apply (inj (String.append "/")) in E2. split; [by apply diskNumber_inj|done].
Qed.

Lemma rowKey_inj r r' : okRow r → okRow r' → rowKey r = rowKey r' → r = r'.
Proof.
  intros Hr Hr'. destruct r as [m|b|g f], r' as [m'|b'|g' f'].
  - by destruct m, m'.
  - destruct m; intros E; discriminate E.
  - destruct m; intros E; discriminate E.
  - destruct m'; intros E; discriminate E.
  - intros E. apply (inj (String.append "fanout/")) in E. by subst.
  - intros E; discriminate E.
  - destruct m'; intros E; discriminate E.
  - intros E; discriminate E.
  - destruct Hr as [Hg Hf], Hr' as [Hg' Hf']. simpl. intros E.
    apply diskPrefix_inj in E as [-> E]; [|done..]. f_equal. by apply genSuffix_inj.
Qed.
Lemma rowKey_ne r r' : okRow r → okRow r' → r ≠ r' → rowKey r ≠ rowKey r'.
Proof. eauto using rowKey_inj. Qed.

#[global] Arguments rowKey : simpl never.
