(* ===== verification/DiskStore.v ===== *)
(** * The durable checkpoint store

    [checkpoint.DiskStore]: the projections of a kind's resources, the work
    they owe and the cursor of the watch stream, in one LevelDB database. Each
    mutation prepares a batch of puts and deletes and commits it with one
    synchronous write, which is atomic. A snapshot is staged in a generation of
    its own and published by one write of the generation pointer.

    The engine is a finite map of byte strings. An operation is atomic (the
    store holds its mutex); it returns its result and the store it leaves, also
    when it fails. [encoding/json], [encoding/base64] and the size of a
    serialised batch are the operations of [DiskCodec]. *)

From S2P Require Import Prelude WorkTypes DiskKeys.
From Stdlib Require Import Ascii.
From stdpp Require Import sorting.
Open Scope go_scope.

Definition DiskPageBytes : Z := 4 * 2 ^ 20.
Definition DiskItemBytes : Z := 2 ^ 20.
Definition len (s : string) : Z := Z.of_nat (String.length s).

(** ** Batches *)

(** [leveldb.Batch]: puts and deletes, applied in order. *)
Inductive Op : Type :=
| OpPut (k v : string)
| OpDelete (k : string).
Notation DB := (gmap string string).
Definition applyOp (db : DB) (op : Op) : DB :=
  match op with OpPut k v => <[k := v]> db | OpDelete k => delete k db end.
Definition applyOps (ops : list Op) (db : DB) : DB := foldl applyOp db ops.

Record diskBatch : Type := mkBatch { b_ops : list Op; b_counts : gmap string Z }.
Definition newDiskBatch : diskBatch := mkBatch [] ∅.
Definition bPut (b : diskBatch) (k v : string) : diskBatch :=
  mkBatch (b_ops b ++ [OpPut k v]) (b_counts b).
Definition bDelete (b : diskBatch) (k : string) : diskBatch :=
  mkBatch (b_ops b ++ [OpDelete k]) (b_counts b).
Definition count (b : diskBatch) (generation : Z) (name : string) (delta : Z) : diskBatch :=
  let k := diskPrefix generation name in
  mkBatch (b_ops b) (<[k := (default 0 (b_counts b !! k) + delta)%Z]> (b_counts b)).

Record diskFanout : Type := mkFanout { f_Generation : Z; f_After : string }.

(** What the store uses of the standard library and of the engine: JSON of its
    records ([unmarshalSchedule] decodes onto a value that is there already),
    [json.Valid], [base64.RawURLEncoding] and [len(batch.Dump())]. *)
Class DiskCodec : Type := {
  marshalItem : DiskItem → string;
  unmarshalItem : string → option DiskItem;
  marshalSchedule : DiskSchedule → string;
  unmarshalSchedule : DiskSchedule → string → option DiskSchedule;
  marshalFanout : diskFanout → string;
  unmarshalFanout : string → option diskFanout;
  validJSON : string → bool;
  encodeIndex : string → string;
  decodeIndex : string → option string;
  dumpSize : list Op → Z;
}.

(** ** The store

    [s_ctx] is the error of the caller's context as the call starts; a context
    cancelled later and a failure of the engine show as a failed write, in the
    order of [s_faults]. [s_now] is the clock, in nanoseconds. *)
Record Disk : Type := mkDisk {
  s_db : DB;
  s_kind : string;
  s_counts : DiskCounts;
  s_longOperations : Z;
  s_lastWrite : Z;
  s_writeFailures : Z;
  s_now : Z;
  s_ctx : option Error;
  s_faults : list (option Error);
}.
Definition set_db (s : Disk) (db : DB) : Disk :=
  mkDisk db (s_kind s) (s_counts s) (s_longOperations s) (s_lastWrite s)
    (s_writeFailures s) (s_now s) (s_ctx s) (s_faults s).
Definition addLong (s : Disk) (n : Z) : Disk :=
  mkDisk (s_db s) (s_kind s) (s_counts s) (s_longOperations s + n) (s_lastWrite s)
    (s_writeFailures s) (s_now s) (s_ctx s) (s_faults s).
Definition wrote (s : Disk) (c : DiskCounts) : Disk :=
  mkDisk (s_db s) (s_kind s) c (s_longOperations s) (s_now s / second)
    (s_writeFailures s) (s_now s) (s_ctx s) (s_faults s).
Definition failed (s : Disk) : Disk :=
  mkDisk (s_db s) (s_kind s) (s_counts s) (s_longOperations s) (s_lastWrite s)
    (u64 (s_writeFailures s + 1)) (s_now s) (s_ctx s) (s_faults s).
(** The outcome of the next engine write. *)
Definition engine (s : Disk) : option Error * Disk :=
  (mjoin (head (s_faults s)),
   mkDisk (s_db s) (s_kind s) (s_counts s) (s_longOperations s) (s_lastWrite s)
     (s_writeFailures s) (s_now s) (s_ctx s) (tail (s_faults s))).

(** A pure step of an operation: an error ends it with the store as it is. *)
Notation "'let?' x := r 'on' s 'in' k" :=
  (match r with Ok x => k | Err e => (Err e, s) end)
  (at level 10, x pattern, r at level 100, s at level 9, k at level 200) : go_scope.

Definition refuse {A} (msg : string) : result Error A := Err (EOpaque msg).

(** ** Reading *)

(** [number] on a database: a missing row counts as zero. *)
Definition getNumber (db : DB) (name : string) : result Error Z :=
  match db !! name with
  | None => Ok 0%Z
  | Some v => if (len v =? 8)%Z then Ok (readNumber v)
              else refuse ("checkpoint: invalid " +:+ name +:+ " metadata")
  end.
Definition number (s : Disk) (name : string) : result Error Z := getNumber (s_db s) name.

(** [token]. *)
Definition tokenAt (s : Disk) (prefix logical : string) : result Error Z :=
  match s_db s !! (prefix +:+ logical) with
  | None => Ok 0%Z
  | Some v => if (len v =? 8)%Z then Ok (readNumber v)
              else refuse "checkpoint: invalid work token"
  end.

Definition logical (s : Disk) (key : WorkItemKey) : result Error string :=
  if bool_decide (Kind key = s_kind s) then diskLogical key
  else refuse "checkpoint: resource kind does not match disk store".

(** [readLock]: readers are turned away while a long operation runs. *)
Definition readLock (s : Disk) : result Error unit :=
  match s_ctx s with
  | Some e => Err e
  | None => if (s_longOperations s =? 0)%Z then Ok tt else Err (ESentinel ErrSnapshotInProgress)
  end.

(** [scan] copies one page of the rows under a prefix, in the order of their
    keys, from the one after [after] on; the prefix is cut off. *)
Definition stripPrefix (prefix : string) (kv : string * string) : option (string * string) :=
  if String.prefix prefix kv.1
  then Some (String.substring (String.length prefix)
               (String.length kv.1 - String.length prefix) kv.1, kv.2)
  else None.
Definition rowBefore (a b : string * string) : Prop := String.le a.1 b.1.
#[global] Instance rowBefore_dec : RelDecision rowBefore.
Proof. intros a b. unfold rowBefore. apply _. Defined.
Definition prefixRows (db : DB) (prefix : string) : list (string * string) :=
  merge_sort rowBefore (omap (stripPrefix prefix) (map_to_list db)).
Fixpoint scanPage (after : string) (limit size : Z) (rows : list (string * string))
  : result Error (list (string * string)) :=
  match rows with
  | [] => Ok []
  | (key, value) :: rows =>
      if negb (bool_decide (after = "")) && bool_decide (key = after)
      then scanPage after limit size rows else
      let n := (len key + len value)%Z in
      if (DiskPageBytes <? n)%Z
      then refuse "checkpoint: stored row exceeds page byte bound" else
      if (limit =? 0)%Z || (DiskPageBytes <? size + n)%Z then Ok [] else
      let! page := scanPage after (limit - 1) (size + n) rows in
      Ok ((key, value) :: page)
  end.
Definition scan (s : Disk) (prefix after : string) (limit : Z)
  : result Error (list (string * string)) :=
  match s_ctx s with
  | Some e => Err e
  | None =>
      if (limit <? 1)%Z || (DiskPageItems <? limit)%Z || (4096 <? len after)%Z
      then refuse "checkpoint: invalid disk scan limit"
      else scanPage after limit 0
             (filter (λ kv, String.le after kv.1) (prefixRows (s_db s) prefix))
  end.

(** ** Writing *)

(** The counters a batch changes, read and added to it; Go visits them in no
    particular order, and they are distinct rows. *)
Fixpoint addCounts (db : DB) (counts : list (string * Z)) (ops : list Op)
  : result Error (list Op) :=
  match counts with
  | [] => Ok ops
  | (name, delta) :: counts =>
      let! current := getNumber db name in
      if ((delta <? 0)%Z && (current <? - delta)%Z) ||
         ((0 <? delta)%Z && (2 ^ 64 - 1 - delta <? current)%Z)
      then refuse "checkpoint: invalid work count"
      else addCounts db counts (ops ++ [OpPut name (diskNumber (u64 (current + delta)))])
  end.

(** [refreshCounts], on the database just written. *)
Definition readCounts (db : DB) : result Error DiskCounts :=
  let! active := getNumber db "active" in
  let! pending := getNumber db (diskPrefix active "pending-count") in
  let! poison := getNumber db (diskPrefix active "poison-count") in
  Ok (mkCounts pending poison).

Section store.
Context {DC : DiskCodec}.

Definition write (s : Disk) (b : diskBatch) : result Error unit * Disk :=
  match s_ctx s with
  | Some e => (Err e, failed s)
  | None =>
  match addCounts (s_db s) (map_to_list (b_counts b)) (b_ops b) with
  | Err e => (Err e, failed s)
  | Ok ops =>
  if (DiskPageBytes <? dumpSize ops)%Z
  then (refuse "checkpoint: disk batch exceeds byte bound", failed s) else
  let (fault, s) := engine s in
  match fault with
  | Some e => (Err (EWrap ("checkpoint: durable disk write: " +:+ ErrorText e) e), failed s)
  | None =>
      let s := set_db s (applyOps ops (s_db s)) in
      match readCounts (s_db s) with
      | Err e => (Err e, failed s)
      | Ok c => (Ok tt, wrote s c)
      end
  end end end.

(** [diskItem] checks a projection and serialises it. *)
Fixpoint checkIndexes (seen : gset string) (indexes : list string) : result Error unit :=
  match indexes with
  | [] => Ok tt
  | index :: indexes =>
      if bool_decide (index = "") || (1024 <? len index)%Z
      then refuse "checkpoint: invalid relation index" else
      if bool_decide (index ∈ seen) then refuse "checkpoint: duplicate relation index" else
      checkIndexes ({[index]} ∪ seen) indexes
  end.
Fixpoint checkRelated (keys : list WorkItemKey) : result Error unit :=
  match keys with
  | [] => Ok tt
  | key :: keys => let! _ := diskLogical key in checkRelated keys
  end.
Definition diskItem (it : DiskItem) : result Error string :=
  if bool_decide (i_Version it = "") || (1024 <? len (i_Version it))%Z ||
     (1024 <? len (i_RelatedVersion it))%Z || (DiskItemBytes <? len (i_Value it))%Z ||
     negb (validJSON (i_Value it)) || bool_decide (32 < length (i_Indexes it)) ||
     bool_decide (32 < length (i_Related it))
  then refuse "checkpoint: invalid or oversized resource projection" else
  let! _ := checkIndexes ∅ (i_Indexes it) in
  let! _ := checkRelated (i_Related it) in
  Ok (marshalItem it).

Definition diskIndexPrefix (generation : Z) (index : string) : string :=
  diskPrefix generation ("i/" +:+ encodeIndex index +:+ "/").

(** [item]: the zero item and [false] when there is none. *)
Definition item (s : Disk) (generation : Z) (l : string) : result Error (DiskItem * bool) :=
  match s_db s !! (diskPrefix generation "d/" +:+ l) with
  | None => Ok (zeroItem, false)
  | Some data =>
      if (2 * DiskItemBytes <? len data)%Z
      then refuse "checkpoint: oversized stored projection" else
      match unmarshalItem data with
      | None => refuse "checkpoint: invalid stored projection"
      | Some it =>
          match logical s (i_Key it) with
          | Err _ => refuse "checkpoint: inconsistent stored projection"
          | Ok actual =>
              if negb (bool_decide (actual = l)) || bool_decide (i_Version it = "") ||
                 (DiskItemBytes <? len (i_Value it))%Z || negb (validJSON (i_Value it))
              then refuse "checkpoint: inconsistent stored projection" else Ok (it, true)
          end
      end
  end.

Definition diskReadyKey (generation : Z) (l : string) (state : DiskSchedule) : string :=
  diskPrefix generation (readySuffix (d_Priority state) (d_Due state) (d_Token state) l).
Definition quarantined (state : DiskSchedule) : bool := negb (d_QuarantinedAt state =? 0)%Z.

Definition schedule (s : Disk) (generation : Z) (l : string) (token : Z)
  : result Error DiskSchedule :=
  let state := mkSchedule token 0 1 0 "" 0 in
  match s_db s !! (diskPrefix generation "s/" +:+ l) with
  | None => Ok state
  | Some data =>
      match unmarshalSchedule state data with
      | None => refuse "checkpoint: invalid work schedule"
      | Some state =>
          if negb (d_Token state =? token)%Z || (1 <? d_Priority state)%Z || (d_Due state <? 0)%Z
          then refuse "checkpoint: inconsistent work schedule" else Ok state
      end
  end.

Definition forgetWork (s : Disk) (b : diskBatch) (generation : Z) (l : string)
  : result Error diskBatch :=
  let! token := tokenAt s (diskPrefix generation "w/") l in
  if (token =? 0)%Z then Ok b else
  let! state := schedule s generation l token in
  let b := bDelete b (diskReadyKey generation l state) in
  let b := bDelete b (diskPrefix generation "w/" +:+ l) in
  let b := bDelete b (diskPrefix generation "s/" +:+ l) in
  let b := bDelete b (diskPrefix generation "p/" +:+ l) in
  let b := count b generation "pending-count" (-1) in
  Ok (if quarantined state then count b generation "poison-count" (-1) else b).

Definition setDue (state : DiskSchedule) (due : Z) : DiskSchedule :=
  mkSchedule (d_Token state) due (d_Priority state) (d_Attempts state) (d_LastError state)
    (d_QuarantinedAt state).
Definition setToken (state : DiskSchedule) (token : Z) : DiskSchedule :=
  mkSchedule token (d_Due state) (d_Priority state) (d_Attempts state) (d_LastError state)
    (d_QuarantinedAt state).

(** Live work without a due time is due now. *)
Definition stamp (s : Disk) (state : DiskSchedule) : DiskSchedule :=
  if (d_Priority state =? 0)%Z && (d_Due state =? 0)%Z
  then setDue state (s_now s / millisecond) else state.
Definition queueWork (s : Disk) (b : diskBatch) (generation : Z) (l : string)
    (state : DiskSchedule) : result Error diskBatch :=
  let state := stamp s state in
  let! b := forgetWork s b generation l in
  let b := bPut b (diskPrefix generation "w/" +:+ l) (diskNumber (d_Token state)) in
  let b := count b generation "pending-count" 1 in
  let b := if negb (d_Priority state =? 1)%Z || negb (d_Due state =? 0)%Z || quarantined state
           then bPut b (diskPrefix generation "s/" +:+ l) (marshalSchedule state) else b in
  Ok (if quarantined state
      then count (bPut b (diskPrefix generation "p/" +:+ l) (marshalSchedule state))
             generation "poison-count" 1
      else bPut b (diskReadyKey generation l state) "").

Definition diskRelated (b : diskBatch) (generation : Z) (keys : list WorkItemKey) (token : Z)
  : diskBatch :=
  foldl (λ b key, bPut b (diskPrefix generation "r/" +:+ relatedLogical key) (diskNumber token))
    b keys.

Definition dropIndex (generation : Z) (l : string) (b : diskBatch) (index : string) : diskBatch :=
  count (bDelete b (diskIndexPrefix generation index +:+ l)) generation
    ("ic/" +:+ encodeIndex index) (-1).
Definition addIndex (generation : Z) (l : string) (b : diskBatch) (index : string) : diskBatch :=
  count (bPut b (diskIndexPrefix generation index +:+ l) "") generation
    ("ic/" +:+ encodeIndex index) 1.
(** The memberships or owners of an item changed. *)
Definition relationsChanged (old it : DiskItem) : bool :=
  negb (bool_decide (i_RelatedVersion old = i_RelatedVersion it)) ||
  negb (bool_decide (i_Indexes old = i_Indexes it)) ||
  negb (bool_decide (i_Related old = i_Related it)).

Definition put (s : Disk) (b : diskBatch) (generation : Z) (it : DiskItem) (data : string)
    (token : Z) (deleted enqueue : bool) : result Error diskBatch :=
  let! l := logical s (i_Key it) in
  let! (old, exists_) := item s generation l in
  let b := foldl (dropIndex generation l) b (i_Indexes old) in
  let b :=
    if deleted
    then diskRelated (bDelete b (diskPrefix generation "d/" +:+ l)) generation (i_Related old) token
    else
      let b := bPut b (diskPrefix generation "d/" +:+ l) data in
      let b := foldl (addIndex generation l) b (i_Indexes it) in
      if negb exists_ || relationsChanged old it
      then diskRelated (diskRelated b generation (i_Related old) token)
             generation (i_Related it) token
      else b in
  if enqueue then
    let! staging := number s "staging" in
    queueWork s b generation l
      (mkSchedule token 0 (if (staging =? generation)%Z then 1 else 0) 0 "" 0)
  else Ok b.

(** [token++] with its overflow check. *)
Definition nextToken (token : Z) : result Error Z :=
  let token := u64 (token + 1) in
  if (token =? 0)%Z then refuse "checkpoint: work token overflow" else Ok token.

(** ** Snapshots *)

(** The rest of the pages of [deleteGeneration]; [None] when the fuel runs out. *)
Fixpoint deletePages (fuel : nat) (s : Disk) (prefix after : string)
  : option (result Error unit * Disk) :=
  match fuel with
  | 0 => None
  | S fuel =>
      match scan s prefix after DiskPageItems with
      | Err e => Some (Err e, s)
      | Ok [] => Some (Ok tt, s)
      | Ok page =>
          let b := foldl (λ b row, bDelete b (prefix +:+ row.1)) newDiskBatch page in
          match write s b with
          | (Err e, s) => Some (Err e, s)
          | (Ok _, s) => deletePages fuel s prefix (default "" (fst <$> last page))
          end
      end
  end.
(** One page per row is enough, and a last one to find the end. *)
Definition deleteGeneration (s : Disk) (generation : Z) : option (result Error unit * Disk) :=
  deletePages (S (size (s_db s))) s (diskPrefix generation "") "".

(** An operation that turns readers away while it runs. *)
Definition long {A} (f : Disk → option (result Error A * Disk)) (s : Disk)
  : option (result Error A * Disk) :=
  '(r, s) ← f (addLong s 1); Some (r, addLong s (-1)).
(** Go on with the store when a step succeeded. *)
Definition andThen {A B} (r : option (result Error A * Disk))
    (k : A → Disk → option (result Error B * Disk)) : option (result Error B * Disk) :=
  match r with
  | None => None
  | Some (Err e, s) => Some (Err e, s)
  | Some (Ok a, s) => k a s
  end.

Definition retired (s : Disk) (active next : Z) (name : string) : result Error Z :=
  let! generation := number s name in
  if (negb (generation =? 0)%Z && (generation =? active)%Z) || (next <? generation)%Z ||
     (next <? active)%Z
  then refuse "checkpoint: inconsistent generation metadata" else Ok generation.
Definition reclaim (s : Disk) (generation : Z) : option (result Error unit * Disk) :=
  if (generation =? 0)%Z then Some (Ok tt, s) else deleteGeneration s generation.

Definition BeginSnapshot : Disk → option (result Error Z * Disk) := long (λ s,
  match
    (let! active := number s "active" in
     let! next := number s "generation" in
     let! staging := retired s active next "staging" in
     let! garbage := retired s active next "garbage" in
     Ok (next, staging, garbage)) with
  | Err e => Some (Err e, s)
  | Ok (next, staging, garbage) =>
      andThen (reclaim s staging) (λ _ s,
      andThen (reclaim s garbage) (λ _ s,
      let next := u64 (next + 1) in
      if (next =? 0)%Z then Some (refuse "checkpoint: generation overflow", s) else
      let b := bPut newDiskBatch "generation" (diskNumber next) in
      let b := bPut b "staging" (diskNumber next) in
      let b := bDelete b "garbage" in
      match write s b with
      | (Err e, s) => Some (Err e, s)
      | (Ok _, s) => Some (Ok next, s)
      end))
  end).

(** The items of a page, prepared one by one in one batch. *)
Fixpoint putPage (s : Disk) (generation : Z) (items : list DiskItem) (seen : gset WorkItemKey)
    (token : Z) (b : diskBatch) : result Error (Z * diskBatch) :=
  match items with
  | [] => Ok (token, b)
  | it :: items =>
      if bool_decide (i_Key it ∈ seen)
      then refuse "checkpoint: duplicate resource in snapshot page" else
      let! data := diskItem it in
      let! token := nextToken token in
      let! b := put s b generation it data token false true in
      if (DiskPageBytes <? dumpSize (b_ops b))%Z
      then refuse "checkpoint: snapshot page exceeds byte bound"
      else putPage s generation items ({[i_Key it]} ∪ seen) token b
  end.
Definition PutSnapshotPage (s : Disk) (generation : Z) (items : list DiskItem)
  : result Error unit * Disk :=
  if bool_decide (items = []) || (DiskPageItems <? Z.of_nat (length items))%Z
  then (refuse "checkpoint: invalid snapshot page size", s) else
  let? staging := number s "staging" on s in
  if (staging =? 0)%Z || negb (staging =? generation)%Z
  then (refuse "checkpoint: snapshot generation is not writable", s) else
  let? token := number s "sequence" on s in
  let? (token, b) := putPage s generation items ∅ token newDiskBatch on s in
  write s (bPut b "sequence" (diskNumber token)).

(** *** Publication

    One row of the old generation carried over into the new one, by family. *)
Definition mergeRelated (generation : Z) (l : string) (st : Z * diskBatch)
  : result Error (Z * diskBatch) :=
  let! sequence := nextToken st.1 in
  Ok (sequence, bPut st.2 (diskPrefix generation "r/" +:+ l) (diskNumber sequence)).
Definition mergeData (s : Disk) (generation old : Z) (l data : string) (st : Z * diskBatch)
  : result Error (Z * diskBatch) :=
  let! (current, exists_) := item s generation l in
  match unmarshalItem data with
  | None => refuse "json: invalid item"
  | Some prior =>
      if negb exists_ then
        let! sequence := nextToken st.1 in
        let! b := queueWork s st.2 generation l (mkSchedule sequence 0 1 0 "" 0) in
        Ok (sequence, diskRelated b generation (i_Related prior) sequence)
      else if relationsChanged current prior then
        let! sequence := nextToken st.1 in
        Ok (sequence, diskRelated (diskRelated st.2 generation (i_Related prior) sequence)
                        generation (i_Related current) sequence)
      else if bool_decide (i_Version current = i_Version prior) &&
              bool_decide (i_Value current = i_Value prior) then
        let! token := tokenAt s (diskPrefix old "w/") l in
        if (token =? 0)%Z
        then let! b := forgetWork s st.2 generation l in Ok (st.1, b)
        else Ok st
      else Ok st
  end.
(** The projections differ in more than their keys. *)
Definition projectionChanged (prior current : DiskItem) : bool :=
  negb (bool_decide (i_Version prior = i_Version current)) ||
  relationsChanged prior current ||
  negb (bool_decide (i_Value prior = i_Value current)).
Definition mergeWork (s : Disk) (generation old : Z) (l value : string) (st : Z * diskBatch)
  : result Error (Z * diskBatch) :=
  let! sequence := nextToken st.1 in
  if negb (len value =? 8)%Z then refuse "checkpoint: invalid old work token" else
  let! state := schedule s old l (readNumber value) in
  let! (prior, _) := item s old l in
  let! (current, _) := item s generation l in
  let state := if projectionChanged prior current then mkSchedule 0 0 1 0 "" 0 else state in
  let! b := queueWork s st.2 generation l (setToken state sequence) in
  Ok (sequence, b).
Definition mergeRow (s : Disk) (family : string) (generation old : Z) (row : string * string)
    (st : Z * diskBatch) : result Error (Z * diskBatch) :=
  if bool_decide (family = "r/") then mergeRelated generation row.1 st else
  if bool_decide (family = "d/") then mergeData s generation old row.1 row.2 st else
  mergeWork s generation old row.1 row.2 st.
Fixpoint mergePage (s : Disk) (family : string) (generation old : Z)
    (page : list (string * string)) (st : Z * diskBatch) : result Error (Z * diskBatch) :=
  match page with
  | [] => Ok st
  | row :: page =>
      let! st := mergeRow s family generation old row st in
      mergePage s family generation old page st
  end.
Fixpoint mergePages (fuel : nat) (s : Disk) (family : string) (generation old sequence : Z)
    (after : string) : option (result Error Z * Disk) :=
  match fuel with
  | 0 => None
  | S fuel =>
      match scan s (diskPrefix old family) after DiskPageItems with
      | Err e => Some (Err e, s)
      | Ok [] => Some (Ok sequence, s)
      | Ok page =>
          match mergePage s family generation old page (sequence, newDiskBatch) with
          | Err e => Some (Err e, s)
          | Ok (sequence, b) =>
              match write s (bPut b "sequence" (diskNumber sequence)) with
              | (Err e, s) => Some (Err e, s)
              | (Ok _, s) =>
                  mergePages fuel s family generation old sequence (default "" (fst <$> last page))
              end
          end
      end
  end.
Definition mergeFamily (s : Disk) (family : string) (generation old sequence : Z)
  : option (result Error Z * Disk) :=
  if (old =? 0)%Z && bool_decide (family = "d/") then Some (Ok sequence, s)
  else mergePages (S (size (s_db s))) s family generation old sequence "".

Definition FinishSnapshot (generation : Z) (cursor : string) (s : Disk)
  : option (result Error unit * Disk) :=
  if bool_decide (cursor = "") || (4096 <? len cursor)%Z
  then Some (refuse "checkpoint: invalid snapshot cursor", s) else
  long (λ s,
  match
    (let! staging := number s "staging" in
     if negb (staging =? generation)%Z || (staging =? 0)%Z
     then refuse "checkpoint: snapshot is not staged" else
     let! old := number s "active" in
     let! sequence := number s "sequence" in
     Ok (old, sequence)) with
  | Err e => Some (Err e, s)
  | Ok (old, sequence) =>
      andThen (mergeFamily s "d/" generation old sequence) (λ sequence s,
      andThen (mergeFamily s "w/" generation old sequence) (λ sequence s,
      andThen (mergeFamily s "r/" generation old sequence) (λ sequence s,
      let b := bPut newDiskBatch "active" (diskNumber generation) in
      let b := bPut b "cursor" cursor in
      let b := bPut b "garbage" (diskNumber old) in
      let b := bDelete b "staging" in
      Some (write s b))))
  end) s.

Definition CollectGarbage : Disk → option (result Error unit * Disk) := long (λ s,
  match (let! active := number s "active" in let! garbage := number s "garbage" in
         Ok (active, garbage)) with
  | Err e => Some (Err e, s)
  | Ok (active, garbage) =>
      if (active =? 0)%Z
      then Some (refuse "checkpoint: cannot collect before snapshot publication", s) else
      if (garbage =? active)%Z
      then Some (refuse "checkpoint: refusing to collect the active generation", s) else
      andThen (deleteGeneration s garbage) (λ _ s,
      Some (write s (bDelete newDiskBatch "garbage")))
  end).

Definition DiscardStaging : Disk → option (result Error unit * Disk) := long (λ s,
  match number s "staging" with
  | Err e => Some (Err e, s)
  | Ok staging =>
      if (staging =? 0)%Z then Some (Ok tt, s) else
      match number s "active" with
      | Err e => Some (Err e, s)
      | Ok active =>
          if (staging =? active)%Z
          then Some (refuse "checkpoint: refusing to discard active generation", s) else
          andThen (deleteGeneration s staging) (λ _ s,
          Some (write s (bDelete newDiskBatch "staging")))
      end
  end).

(** ** The watch stream *)

Definition badCursor (cursor : string) : bool :=
  bool_decide (cursor = "") || (4096 <? len cursor)%Z.
Definition Apply (s : Disk) (it : DiskItem) (deleted enqueue : bool) (cursor : string)
  : result Error unit * Disk :=
  if badCursor cursor then (refuse "checkpoint: invalid watch cursor", s) else
  let? staging := number s "staging" on s in
  if negb (staging =? 0)%Z then (Err (ESentinel ErrSnapshotInProgress), s) else
  let? active := number s "active" on s in
  if (active =? 0)%Z then (refuse "checkpoint: no active disk snapshot", s) else
  let? sequence := number s "sequence" on s in
  let? sequence := nextToken sequence on s in
  let? data := (if deleted then Ok "" else diskItem it) on s in
  let? b := put s newDiskBatch active it data sequence deleted enqueue on s in
  let b := bPut b "sequence" (diskNumber sequence) in
  write s (bPut b "cursor" cursor).

Definition AdvanceCursor (s : Disk) (cursor : string) : result Error unit * Disk :=
  if badCursor cursor then (refuse "checkpoint: invalid watch cursor", s) else
  let? staging := number s "staging" on s in
  if negb (staging =? 0)%Z then (Err (ESentinel ErrSnapshotInProgress), s) else
  let? active := number s "active" on s in
  if (active =? 0)%Z then (refuse "checkpoint: no active disk snapshot", s) else
  write s (bPut newDiskBatch "cursor" cursor).

(** ** Work *)

Definition Enqueue (s : Disk) (key : WorkItemKey) : result Error unit * Disk :=
  let? l := logical s key on s in
  let? active := number s "active" on s in
  let? token := number s "sequence" on s in
  let? token := nextToken token on s in
  let? b := queueWork s newDiskBatch active l (mkSchedule token 0 0 0 "" 0) on s in
  write s (bPut b "sequence" (diskNumber token)).

(** The boolean a successful write returns. *)
Definition acked (r : result Error unit * Disk) : result Error bool * Disk :=
  match r with (Ok _, s) => (Ok true, s) | (Err e, s) => (Err e, s) end.

Definition Acknowledge (s : Disk) (key : WorkItemKey) (token : Z) : result Error bool * Disk :=
  if (token =? 0)%Z then (refuse "checkpoint: missing acknowledgement token", s) else
  let? l := logical s key on s in
  let? active := number s "active" on s in
  let? current := tokenAt s (diskPrefix active "w/") l on s in
  if negb (current =? token)%Z then (Ok false, s) else
  let? b := forgetWork s newDiskBatch active l on s in
  acked (write s b).

(** [state.LastError], cut at 2048 bytes. *)
Definition clipError (failure : string) : string :=
  if (2048 <? len failure)%Z then String.substring 0 2048 failure +:+ " [truncated]" else failure.
Definition DeferWork (s : Disk) (key : WorkItemKey) (token delay : Z) (failure : string)
    (attempts : Z) : result Error bool * Disk :=
  if (token =? 0)%Z || (delay <? 0)%Z || (attempts <? 0)%Z
  then (refuse "checkpoint: invalid deferred work", s) else
  let? l := logical s key on s in
  let? active := number s "active" on s in
  let? current := tokenAt s (diskPrefix active "w/") l on s in
  if negb (current =? token)%Z then (Ok false, s) else
  let due := ((s_now s + delay) / millisecond)%Z in
  let state := if bool_decide (failure = "") then mkSchedule token due 0 attempts "" 0
               else mkSchedule token due 0 attempts (clipError failure) (s_now s) in
  let? b := queueWork s newDiskBatch active l state on s in
  acked (write s b).

Definition AcknowledgeRelated (s : Disk) (key : WorkItemKey) (token : Z)
  : result Error bool * Disk :=
  match s_ctx s with
  | Some e => (Err e, s)
  | None =>
  if (token =? 0)%Z then (refuse "checkpoint: missing related acknowledgement token", s) else
  let? l := diskLogical key on s in
  let l := Kind key +:+ String NUL l in
  let? active := number s "active" on s in
  let? current := tokenAt s (diskPrefix active "r/") l on s in
  if negb (current =? token)%Z then (Ok false, s) else
  acked (write s (bDelete newDiskBatch (diskPrefix active "r/" +:+ l)))
  end.

(** ** Fan-out *)

Definition fanoutKey (index : string) : string := "fanout/" +:+ encodeIndex index.
Definition RequestFanout (s : Disk) (index : string) : result Error unit * Disk :=
  if bool_decide (index = "") || (1024 <? len index)%Z
  then (refuse "checkpoint: invalid fanout index", s) else
  if bool_decide (index = "*") && bool_decide (is_Some (s_db s !! fanoutKey index))
  then (match s_ctx s with Some e => Err e | None => Ok tt end, s) else
  write s (bPut newDiskBatch (fanoutKey index) "{}").

Fixpoint fanoutPage (s : Disk) (active : Z) (everything : bool) (page : list (string * string))
    (st : Z * diskBatch) : result Error (Z * diskBatch) :=
  match page with
  | [] => Ok st
  | (l, _) :: page =>
      let! pending := (if everything then tokenAt s (diskPrefix active "w/") l else Ok 0%Z) in
      if negb (pending =? 0)%Z then fanoutPage s active everything page st else
      let! token := nextToken st.1 in
      let! b := queueWork s st.2 active l
                  (mkSchedule token 0 (if everything then 1 else 0) 0 "" 0) in
      fanoutPage s active everything page (token, b)
  end.
Definition ProcessFanout (s : Disk) : result Error bool * Disk :=
  let? staging := number s "staging" on s in
  if negb (staging =? 0)%Z then (Err (ESentinel ErrSnapshotInProgress), s) else
  let? active := number s "active" on s in
  if (active =? 0)%Z then (refuse "checkpoint: no active disk snapshot", s) else
  let? tasks := scan s "fanout/" "" 1 on s in
  match tasks with
  | [] => (Ok false, s)
  | (name, data) :: _ =>
      match decodeIndex name with
      | None => (refuse "checkpoint: invalid fanout index", s)
      | Some index =>
      match unmarshalFanout data with
      | None => (refuse "checkpoint: invalid fanout task", s)
      | Some task =>
          let task := if (f_Generation task =? active)%Z then task else mkFanout active "" in
          let everything := bool_decide (index = "*") in
          let prefix := if everything then diskPrefix active "d/" else diskIndexPrefix active index in
          let? page := scan s prefix (f_After task) DiskPageItems on s in
          match page with
          | [] => acked (write s (bDelete newDiskBatch ("fanout/" +:+ name)))
          | _ =>
              let? token := number s "sequence" on s in
              let? (token, b) := fanoutPage s active everything page (token, newDiskBatch) on s in
              let task := mkFanout (f_Generation task) (default "" (fst <$> last page)) in
              let b := bPut b ("fanout/" +:+ name) (marshalFanout task) in
              acked (write s (bPut b "sequence" (diskNumber token)))
          end
      end end
  end.

(** ** Readers *)

(** Convert the rows of a page one by one. *)
Fixpoint mapRows {A} (f : string * string → result Error A) (page : list (string * string))
  : result Error (list A) :=
  match page with
  | [] => Ok []
  | row :: page => let! a := f row in let! rest := mapRows f page in Ok (a :: rest)
  end.
(** The cursor of the next page: the last key, or where this one started. *)
Definition nextAfter (after : string) (page : list (string * string)) : string :=
  default after (fst <$> last page).

Definition Active (s : Disk) : result Error (Z * string) :=
  let! _ := readLock s in
  let! generation := number s "active" in
  if (generation =? 0)%Z then Ok (0%Z, "") else
  match s_db s !! "cursor" with
  | None => Err (EOpaque "leveldb: not found")
  | Some "" => refuse "checkpoint: active disk snapshot has no cursor"
  | Some cursor => Ok (generation, cursor)
  end.

Definition dataRow (s : Disk) (row : string * string) : result Error DiskItem :=
  match unmarshalItem row.2 with
  | None => refuse "checkpoint: invalid stored projection"
  | Some it =>
      match logical s (i_Key it) with
      | Ok l => if bool_decide (l = row.1) then Ok it
                else refuse "checkpoint: stored projection key mismatch"
      | Err _ => refuse "checkpoint: stored projection key mismatch"
      end
  end.
Definition DataPage (s : Disk) (after : string) (limit : Z)
  : result Error (list DiskItem * string) :=
  let! _ := readLock s in
  let! active := number s "active" in
  if (active =? 0)%Z then refuse "checkpoint: no active disk snapshot" else
  let! page := scan s (diskPrefix active "d/") after limit in
  let! items := mapRows (dataRow s) page in
  Ok (items, nextAfter after page).

Definition Read (s : Disk) (key : WorkItemKey) : result Error (DiskItem * bool * Z) :=
  let! _ := readLock s in
  let! l := logical s key in
  let! active := number s "active" in
  if (active =? 0)%Z then refuse "checkpoint: no active disk snapshot" else
  let! (it, exists_) := item s active l in
  let! token := tokenAt s (diskPrefix active "w/") l in
  Ok (it, exists_, token).

Definition pendingRow (s : Disk) (row : string * string) : result Error DiskWork :=
  match splitLogical (s_kind s) row.1 with
  | Some key => if (len row.2 =? 8)%Z then Ok (mkWork key (readNumber row.2) row.1)
                else refuse "checkpoint: invalid pending work"
  | None => refuse "checkpoint: invalid pending work"
  end.
Definition Pending (s : Disk) (after : string) (limit : Z) : result Error (list DiskWork) :=
  let! _ := readLock s in
  let! active := number s "active" in
  let! page := scan s (diskPrefix active "w/") after limit in
  mapRows (pendingRow s) page.

(** The due rows of one priority, up to the first one that is not. *)
Fixpoint readyRows (s : Disk) (now : Z) (page : list (string * string))
  : result Error (list DiskWork) :=
  match page with
  | [] => Ok []
  | (row, _) :: page =>
      if (len row <? 17)%Z then refuse "checkpoint: invalid ready index" else
      if (now <? readNumber (String.substring 0 8 row))%Z then Ok [] else
      let l := String.substring 16 (String.length row - 16) row in
      match splitLogical (s_kind s) l with
      | None => refuse "checkpoint: invalid ready key"
      | Some key =>
          let! work := readyRows s now page in
          Ok (mkWork key (readNumber (String.substring 8 8 row)) l :: work)
      end
  end.
Definition Ready (s : Disk) (limit : Z) : result Error (list DiskWork) :=
  let! _ := readLock s in
  if (limit <? 1)%Z || (DiskPageItems <? limit)%Z
  then refuse "checkpoint: invalid ready page size" else
  let! active := number s "active" in
  let now := u64 (s_now s / millisecond) in
  let! page := scan s (diskPrefix active "q/0/") "" limit in
  let! live := readyRows s now page in
  if (Z.of_nat (length live) =? limit)%Z then Ok live else
  let! page := scan s (diskPrefix active "q/1/") "" (limit - Z.of_nat (length live)) in
  let! replay := readyRows s now page in
  Ok (live ++ replay).

Definition WorkCounts (s : Disk) : result Error (Z * Z) :=
  let! _ := readLock s in
  let! active := number s "active" in
  let! pending := number s (diskPrefix active "pending-count") in
  let! poison := number s (diskPrefix active "poison-count") in
  Ok (pending, poison).
Definition Counts (s : Disk) : DiskCounts := s_counts s.
Definition PersistenceStats (s : Disk) : Z * Z := (s_lastWrite s, s_writeFailures s).

Definition WorkSchedule (s : Disk) (key : WorkItemKey) : result Error DiskSchedule :=
  let! _ := readLock s in
  let! l := logical s key in
  let! active := number s "active" in
  let! token := tokenAt s (diskPrefix active "w/") l in
  schedule s active l token.

Definition poisonRow (s : Disk) (row : string * string) : result Error DiskPoison :=
  match splitLogical (s_kind s) row.1 with
  | None => refuse "checkpoint: invalid quarantined key"
  | Some key =>
      match unmarshalSchedule (mkSchedule 0 0 0 0 "" 0) row.2 with
      | None => refuse "checkpoint: invalid quarantine record"
      | Some state => Ok (mkDiskPoison key state)
      end
  end.
Definition PoisonPage (s : Disk) (after : string) (limit : Z)
  : result Error (list DiskPoison * string) :=
  let! _ := readLock s in
  let! active := number s "active" in
  let! page := scan s (diskPrefix active "p/") after limit in
  let! items := mapRows (poisonRow s) page in
  Ok (items, nextAfter after page).

Definition relatedRow (row : string * string) : result Error DiskWork :=
  match splitRelated row.1 with
  | Some key => if (len row.2 =? 8)%Z then Ok (mkWork key (readNumber row.2) row.1)
                else refuse "checkpoint: invalid related work"
  | None => refuse "checkpoint: invalid related work"
  end.
Definition RelatedPending (s : Disk) (after : string) (limit : Z) : result Error (list DiskWork) :=
  let! _ := readLock s in
  let! active := number s "active" in
  let! page := scan s (diskPrefix active "r/") after limit in
  mapRows relatedRow page.

Definition IndexCount (s : Disk) (index : string) : result Error Z :=
  let! _ := readLock s in
  if bool_decide (index = "") || (1024 <? len index)%Z
  then refuse "checkpoint: invalid index" else
  let! active := number s "active" in
  if (active =? 0)%Z then refuse "checkpoint: no active disk snapshot" else
  number s (diskPrefix active ("ic/" +:+ encodeIndex index)).

Definition indexRow (s : Disk) (row : string * string) : result Error WorkItemKey :=
  match splitLogical (s_kind s) row.1 with
  | Some key => Ok key
  | None => refuse "checkpoint: invalid indexed key"
  end.
Definition IndexPage (s : Disk) (index after : string) (limit : Z)
  : result Error (list WorkItemKey * string) :=
  let! _ := readLock s in
  if bool_decide (index = "") || (1024 <? len index)%Z
  then refuse "checkpoint: invalid index" else
  let! active := number s "active" in
  let! page := scan s (diskIndexPrefix active index) after limit in
  let! keys := mapRows (indexRow s) page in
  Ok (keys, nextAfter after page).

(** ** Opening a store

    The directory is made and LevelDB opened by the caller of this definition:
    [db] is what the files hold. A context starts live and the engine works. *)
Definition kindChar (c : ascii) : bool :=
  let n := N_of_ascii c in
  ((65 <=? n) && (n <=? 90) || (97 <=? n) && (n <=? 122) || (48 <=? n) && (n <=? 57))%N.
Fixpoint kindChars (kind : string) : bool :=
  match kind with "" => true | String c kind => kindChar c && kindChars kind end.
Definition openSchema (db : DB) : result Error DB :=
  match db !! "schema" with
  | None => if bool_decide (db = ∅) then Ok (<["schema" := "2"]> db)
            else refuse "checkpoint: disk schema: disk checkpoint schema is missing from a nonempty store"
  | Some v => if bool_decide (v = "2") then Ok db
              else refuse "checkpoint: disk schema: unsupported disk checkpoint schema"
  end.
Definition OpenDiskStore (db : DB) (kind : string) (now : Z) : result Error Disk :=
  if bool_decide (kind = "") then refuse "checkpoint: disk store kind is empty" else
  if negb (kindChars kind) then refuse "checkpoint: invalid disk store kind" else
  let! db := openSchema db in
  let! c := readCounts db in
  Ok (mkDisk db kind c 0 0 0 now None []).
End store.
