(* ===== verification/DiskSpec.v ===== *)
(** * What the durable store means

    The abstract state of [checkpoint.DiskStore]: per generation, a map of
    items, a map of pending work with its schedule and a map of related owners.
    [Repr] relates it to the rows of the database: besides the data it fixes
    the ready index, the quarantine records, the relation indexes and the
    counters, all of which the code keeps as separate rows. [Prepared] is the
    same relation in the middle of an operation: the batch built so far, once
    applied, represents the state the operation is about to reach. *)

From S2P Require Import Prelude WorkTypes DiskKeys DiskStore.
From Stdlib Require Import Ascii.

(** The laws of [encoding/json] and [base64.RawURLEncoding] the store relies
    on. JSON replaces what is not UTF-8 in a text, so a schedule is read back
    up to the text of its error. *)
Class DiskCodecLaws `{!DiskCodec} : Type := {
  jsonText : string → string;
  unmarshal_marshal_schedule init st :
    unmarshalSchedule init (marshalSchedule st) =
      Some (mkSchedule (d_Token st) (d_Due st) (d_Priority st) (d_Attempts st)
              (jsonText (d_LastError st)) (d_QuarantinedAt st));
  encodeIndex_inj : Inj (=) (=) encodeIndex;
  encodeIndex_chars index : hasChar "/" (encodeIndex index) = false;
}.
#[export] Existing Instance encodeIndex_inj.

Section spec.
Context {DC : DiskCodec} {DL : DiskCodecLaws}.

Definition cleanSchedule (st : DiskSchedule) : DiskSchedule :=
  mkSchedule (d_Token st) (d_Due st) (d_Priority st) (d_Attempts st)
    (jsonText (d_LastError st)) (d_QuarantinedAt st).

(** ** Abstract state *)

Record Gen : Type := mkGen {
  g_items : gmap string DiskItem;
  g_work : gmap string DiskSchedule;
  g_related : gmap string Z;
}.
Definition emptyGen : Gen := mkGen ∅ ∅ ∅.

(** [a_junk] are the generations being deleted, or left half deleted by a
    failure: nothing is known of their rows. *)
Record Spec : Type := mkSpec {
  a_gens : gmap Z Gen;
  a_active : Z;
  a_next : Z;
  a_staging : Z;
  a_garbage : Z;
  a_sequence : Z;
  a_cursor : option string;
  a_fanout : gmap string string;
  a_junk : gset Z;
}.
Definition gen (a : Spec) (g : Z) : Gen := default emptyGen (a_gens a !! g).
Definition setGen (a : Spec) (g : Z) (G : Gen) : Spec :=
  mkSpec (<[g := G]> (a_gens a)) (a_active a) (a_next a) (a_staging a) (a_garbage a)
    (a_sequence a) (a_cursor a) (a_fanout a) (a_junk a).

Lemma gen_setGen a g G : gen (setGen a g G) g = G.
Proof. unfold gen, setGen. simpl. by rewrite lookup_insert_eq. Qed.
Lemma gen_setGen_ne a g g' G : g ≠ g' → gen (setGen a g G) g' = gen a g'.
Proof. intros. unfold gen, setGen. simpl. by rewrite lookup_insert_ne. Qed.

(** Changes of one generation: the work, the item or the related owner under a
    name is set, or cleared with [None]. *)
Definition setWork (a : Spec) (g : Z) (l : string) (o : option DiskSchedule) : Spec :=
  let G := gen a g in
  setGen a g (mkGen (g_items G) (partial_alter (λ _, o) l (g_work G)) (g_related G)).
Definition setItem (a : Spec) (g : Z) (l : string) (o : option DiskItem) : Spec :=
  let G := gen a g in
  setGen a g (mkGen (partial_alter (λ _, o) l (g_items G)) (g_work G) (g_related G)).
Definition setRelated (a : Spec) (g : Z) (l : string) (o : option Z) : Spec :=
  let G := gen a g in
  setGen a g (mkGen (g_items G) (g_work G) (partial_alter (λ _, o) l (g_related G))).

(** Changes of the metadata. *)
Definition setMeta (a : Spec) (m : Meta) (n : Z) : Spec :=
  let pick m' old := if decide (m = m') then n else old in
  mkSpec (a_gens a) (pick MActive (a_active a)) (pick MGeneration (a_next a))
    (pick MStaging (a_staging a)) (pick MGarbage (a_garbage a)) (pick MSequence (a_sequence a))
    (a_cursor a) (a_fanout a) (a_junk a).
Definition setCursor (a : Spec) (cursor : string) : Spec :=
  mkSpec (a_gens a) (a_active a) (a_next a) (a_staging a) (a_garbage a) (a_sequence a)
    (Some cursor) (a_fanout a) (a_junk a).
Definition setFanout (a : Spec) (b : string) (o : option string) : Spec :=
  mkSpec (a_gens a) (a_active a) (a_next a) (a_staging a) (a_garbage a) (a_sequence a)
    (a_cursor a) (partial_alter (λ _, o) b (a_fanout a)) (a_junk a).

Lemma setWork_setWork a g l o o' : setWork (setWork a g l o) g l o' = setWork a g l o'.
Proof.
  unfold setWork. rewrite gen_setGen. unfold setGen. simpl. f_equal.
  rewrite insert_insert_eq. do 2 f_equal. by rewrite partial_alter_partial_alter_eq.
Qed.

(** ** Rows of the abstract state *)

Definition member (b : string) (it : DiskItem) : Prop := b ∈ encodeIndex <$> i_Indexes it.
#[global] Instance member_dec b it : Decision (member b it).
Proof. unfold member. apply _. Defined.

Definition isPlain (st : DiskSchedule) : bool :=
  (d_Priority st =? 1)%Z && (d_Due st =? 0)%Z && negb (quarantined st).
Definition workRowOf (o : option DiskSchedule) (f : GenRow) : option string :=
  match o, f with
  | Some st, GWork _ => Some (diskNumber (d_Token st))
  | Some st, GSched _ => if isPlain st then None else Some (marshalSchedule st)
  | Some st, GPoison _ => if quarantined st then Some (marshalSchedule st) else None
  | Some st, GReady p d t _ =>
      if quarantined st then None
      else if decide (p = d_Priority st ∧ d = d_Due st ∧ t = d_Token st) then Some "" else None
  | _, _ => None
  end.
Definition itemRowOf (o : option DiskItem) (f : GenRow) : option string :=
  match o, f with
  | Some it, GData _ => Some (marshalItem it)
  | Some it, GIndex b _ => if decide (member b it) then Some "" else None
  | _, _ => None
  end.
Definition genRowOf (G : Gen) (f : GenRow) : option string :=
  match f with
  | GData l | GIndex _ l => itemRowOf (g_items G !! l) f
  | GWork l | GSched l | GPoison l | GReady _ _ _ l => workRowOf (g_work G !! l) f
  | GRelated l => diskNumber <$> g_related G !! l
  | GIndexCount _ | GPendingCount | GPoisonCount => None
  end.

(** The counters are numbers: a missing row is zero. *)
Definition isCount (f : GenRow) : bool :=
  match f with GIndexCount _ | GPendingCount | GPoisonCount => true | _ => false end.
Definition isQuarantined (kv : string * DiskSchedule) : Prop := quarantined kv.2 = true.
Definition genNum (G : Gen) (f : GenRow) : Z :=
  match f with
  | GPendingCount => Z.of_nat (size (g_work G))
  | GPoisonCount => Z.of_nat (size (filter isQuarantined (g_work G)))
  | GIndexCount b => Z.of_nat (size (filter (λ kv, member b kv.2) (g_items G)))
  | _ => 0
  end.

Definition rowOf (a : Spec) (r : Row) : option string :=
  match r with
  | RMeta MCursor => a_cursor a
  | RMeta MSchema => Some "2"
  | RMeta _ => None
  | RFanout b => a_fanout a !! b
  | RGen g f => genRowOf (gen a g) f
  end.
(** The rows whose content the abstract state fixes exactly. *)
Definition isRow (a : Spec) (r : Row) : Prop :=
  match r with
  | RMeta MCursor | RMeta MSchema | RFanout _ => True
  | RMeta _ => False
  | RGen g f => g ∉ a_junk a ∧ isCount f = false
  end.
Definition metaNum (a : Spec) (m : Meta) : Z :=
  match m with
  | MActive => a_active a | MGeneration => a_next a | MStaging => a_staging a
  | MGarbage => a_garbage a | MSequence => a_sequence a | _ => 0
  end.
Definition isNumber (m : Meta) : bool :=
  match m with MCursor | MSchema => false | _ => true end.

(** The rows of [db] are those of [a], its counters those of [c]. *)
Record View (db : DB) (a c : Spec) : Prop := {
  v_row r : okRow r → isRow a r → db !! rowKey r = rowOf a r;
  v_meta m : isNumber m = true → getNumber db (metaKey m) = Ok (metaNum a m);
  v_count g f : isU64 g → g ∉ a_junk a → isCount f = true →
    getNumber db (rowKey (RGen g f)) = Ok (genNum (gen c g) f);
  v_cover k v : db !! k = Some v → ∃ r, okRow r ∧ rowKey r = k;
}.

(** ** Well-formed states *)

Record okSchedule (seq : Z) (st : DiskSchedule) : Prop := {
  os_token : (0 < d_Token st ≤ seq)%Z;
  os_due : (0 ≤ d_Due st < 2 ^ 63)%Z;
  os_priority : (0 ≤ d_Priority st ≤ 1)%Z;
}.
(** An item that survives serialisation, as [encoding/json] writes the values
    the runner marshals. *)
Definition storable (it : DiskItem) : Prop :=
  unmarshalItem (marshalItem it) = Some it ∧ (len (marshalItem it) ≤ 2 * DiskItemBytes)%Z.
Record okItem (kind l : string) (it : DiskItem) : Prop := {
  oi_kind : Kind (i_Key it) = kind;
  oi_logical : diskLogical (i_Key it) = Ok l;
  oi_data : diskItem it = Ok (marshalItem it);
  oi_storable : storable it;
}.
(** The names work is recorded under. *)
Definition okName (kind l : string) : Prop := ∃ key, Kind key = kind ∧ diskLogical key = Ok l.
Definition okRelated (l : string) : Prop :=
  ∃ key l', diskLogical key = Ok l' ∧ l = relatedLogical key.
Record okGenState (kind : string) (seq : Z) (G : Gen) : Prop := {
  og_items : map_Forall (okItem kind) (g_items G);
  og_work : map_Forall (λ l st, okName kind l ∧ okSchedule seq st) (g_work G);
  og_related : map_Forall (λ l t, okRelated l ∧ (0 < t ≤ seq)%Z) (g_related G);
}.
Record okSpec (kind : string) (a : Spec) : Prop := {
  ok_seq : isU64 (a_sequence a);
  ok_next : isU64 (a_next a);
  ok_active : (0 ≤ a_active a ≤ a_next a)%Z;
  ok_staging : (0 ≤ a_staging a ≤ a_next a)%Z;
  ok_garbage : (0 ≤ a_garbage a ≤ a_next a)%Z;
  ok_staging_ne : a_staging a ≠ 0%Z → a_staging a ≠ a_active a;
  ok_garbage_ne : a_garbage a ≠ 0%Z → a_garbage a ≠ a_active a;
  ok_active_kept : a_active a ∉ a_junk a;
  ok_unused g : (a_next a < g)%Z → g ∉ a_junk a ∧ gen a g = emptyGen;
  ok_gens g : g ∉ a_junk a → okGenState kind (a_sequence a) (gen a g);
}.

(** The store represents the abstract state. *)
Record Repr (s : Disk) (a : Spec) : Prop := {
  rp_view : View (s_db s) a a;
  rp_ok : okSpec (s_kind s) a;
  rp_counts : s_counts s = mkCounts (genNum (gen a (a_active a)) GPendingCount)
                                    (genNum (gen a (a_active a)) GPoisonCount);
  rp_now : (0 < s_now s < 2 ^ 62)%Z;
}.

(** The changes of the counters a batch announces. *)
Definition delta (b : diskBatch) (g : Z) (f : GenRow) : Z :=
  default 0%Z (b_counts b !! rowKey (RGen g f)).
Definition countKeys (junk : gset Z) (b : diskBatch) : Prop :=
  ∀ k d, b_counts b !! k = Some d →
    ∃ g f, isU64 g ∧ g ∉ junk ∧ isCount f = true ∧ k = rowKey (RGen g f).
Record Prepared (s : Disk) (a : Spec) (b : diskBatch) (a' : Spec) : Prop := {
  pr_view : View (applyOps (b_ops b) (s_db s)) a' a;
  pr_junk : a_junk a' = a_junk a;
  pr_delta g f : isU64 g → g ∉ a_junk a → isCount f = true →
    genNum (gen a' g) f = (genNum (gen a g) f + delta b g f)%Z;
  pr_keys : countKeys (a_junk a) b;
}.
End spec.
