(* ===== verification/DiskBatch.v ===== *)
(** * Batches of the durable store

    What the operations put into a batch, in terms of the abstract state: each
    builder of [DiskStore] takes a batch prepared for one state to a batch
    prepared for the next ([Prepared]), and [write] makes it the state of the
    store. *)

From S2P Require Import Prelude WorkTypes DiskKeys DiskStore DiskSpec.
From Stdlib Require Import Ascii.

(** ** Keys the code builds, as rows *)

Lemma diskPrefix_app g f l : diskPrefix g f +:+ l = diskPrefix g (f +:+ l).
Proof. unfold diskPrefix. by rewrite !str_app_assoc. Qed.
Lemma dataKey g l : diskPrefix g "d/" +:+ l = rowKey (RGen g (GData l)).
Proof. apply diskPrefix_app. Qed.
Lemma workKey g l : diskPrefix g "w/" +:+ l = rowKey (RGen g (GWork l)).
Proof. apply diskPrefix_app. Qed.
Lemma schedKey g l : diskPrefix g "s/" +:+ l = rowKey (RGen g (GSched l)).
Proof. apply diskPrefix_app. Qed.
Lemma poisonKey g l : diskPrefix g "p/" +:+ l = rowKey (RGen g (GPoison l)).
Proof. apply diskPrefix_app. Qed.
Lemma relatedKey g l : diskPrefix g "r/" +:+ l = rowKey (RGen g (GRelated l)).
Proof. apply diskPrefix_app. Qed.
Lemma readyKey g l st :
  diskReadyKey g l st = rowKey (RGen g (GReady (d_Priority st) (d_Due st) (d_Token st) l)).
Proof. done. Qed.
Lemma indexKey `{!DiskCodec} g index l :
  diskIndexPrefix g index +:+ l = rowKey (RGen g (GIndex (encodeIndex index) l)).
Proof. unfold diskIndexPrefix. by rewrite diskPrefix_app, !str_app_assoc. Qed.
Lemma pendingCountKey g : diskPrefix g "pending-count" = rowKey (RGen g GPendingCount).
Proof. done. Qed.
Lemma poisonCountKey g : diskPrefix g "poison-count" = rowKey (RGen g GPoisonCount).
Proof. done. Qed.
Lemma indexCountKey g b : diskPrefix g ("ic/" +:+ b) = rowKey (RGen g (GIndexCount b)).
Proof. done. Qed.
Lemma metaKeyActive : "active" = metaKey MActive. Proof. done. Qed.

(** ** Operations on rows *)

Definition RowOp : Type := Row * option string.
Definition toOp (o : RowOp) : Op :=
  match o.2 with Some v => OpPut (rowKey o.1) v | None => OpDelete (rowKey o.1) end.
(** What a list of operations leaves in a row, if it touches it. *)
Fixpoint opFor (ops : list RowOp) (r : Row) : option (option string) :=
  match ops with
  | [] => None
  | o :: ops =>
      match opFor ops r with
      | Some v => Some v
      | None => if decide (o.1 = r) then Some o.2 else None
      end
  end.

Lemma applyOps_app ops ops' db : applyOps (ops ++ ops') db = applyOps ops' (applyOps ops db).
Proof. apply foldl_app. Qed.

Lemma applyOps_lookup ops db r :
  okRow r → Forall (okRow ∘ fst) ops →
  applyOps (toOp <$> ops) db !! rowKey r = default (db !! rowKey r) (opFor ops r).
Proof.
  intros Hr Hops. revert db. induction Hops as [|[r' v] ops Ho Hops IH]; intros db; [done|].
  cbn [fmap list_fmap applyOps foldl opFor]. fold (applyOps (toOp <$> ops) (applyOp db (toOp (r', v)))).
  rewrite IH. destruct (opFor ops r); [done|]. simpl.
  destruct (decide (r' = r)) as [->|Hne]; simpl.
  - destruct v; simpl; [apply lookup_insert_eq|apply lookup_delete_eq].
  - assert (rowKey r' ≠ rowKey r) by (by apply rowKey_ne).
    destruct v; simpl; [by apply lookup_insert_ne|by apply lookup_delete_ne].
Qed.

Lemma applyOps_cover ops db k v :
  Forall (okRow ∘ fst) ops → (∀ k v, db !! k = Some v → ∃ r, okRow r ∧ rowKey r = k) →
  applyOps (toOp <$> ops) db !! k = Some v → ∃ r, okRow r ∧ rowKey r = k.
Proof.
  intros Hops. revert db. induction Hops as [|[r' o] ops Ho Hops IH]; intros db Hdb; [apply Hdb|].
  apply (IH (applyOp db (toOp (r', o)))). intros k' v'. destruct o as [w|]; cbn [applyOp toOp fst snd].
  - destruct (decide (rowKey r' = k')) as [<-|Hne]; [eauto|].
    rewrite lookup_insert_ne by done. apply Hdb.
  - intros [_ H]%lookup_delete_Some. by eapply Hdb.
Qed.

Lemma opFor_app ops ops' r :
  opFor (ops ++ ops') r = match opFor ops' r with Some v => Some v | None => opFor ops r end.
Proof.
  induction ops as [|o ops IH]; simpl; [by destruct (opFor ops' r)|].
  rewrite IH. by destruct (opFor ops' r).
Qed.

Lemma opFor_None ops r : r ∉ fst <$> ops → opFor ops r = None.
Proof.
  induction ops as [|o ops IH]; simpl; [done|]. rewrite not_elem_of_cons. intros [Hne Hr].
  rewrite IH by done. rewrite decide_False; [done|congruence].
Qed.

Lemma delta_bPut b k v g f : delta (bPut b k v) g f = delta b g f.
Proof. done. Qed.
Lemma delta_bDelete b k g f : delta (bDelete b k) g f = delta b g f.
Proof. done. Qed.

(** ** Tactics

    Which of the operations touches a row. *)
Ltac op_cases :=
  cbn [opFor app fst snd];
  repeat match goal with
  | |- context [decide (RGen _ _ = RGen _ _)] => case_decide; [simplify_eq|]
  end.

(** Every row of a list of operations is one the store can hold. *)
Ltac ok_rows :=
  repeat first [apply Forall_nil_2 | apply Forall_cons_2]; cbn;
  repeat split; solve [done | by left | lia | unfold isU64 in *; lia].

(** Compare the counters of two states, counter by counter. *)
Ltac count_cases :=
  rewrite ?delta_bPut, ?delta_bDelete;
  repeat match goal with
  | |- context [decide (RGen _ _ = RGen _ _)] => case_decide; simplify_eq/=
  | |- context [decide (_ = _ :> Z)] => case_decide; simplify_eq/=
  end; try lia;
  try match goal with
  | H : isCount ?f = true |- _ => destruct f; simplify_eq/=; solve [done | lia | exfalso; eauto]
  end.

Section batch.
Context {DC : DiskCodec} {DL : DiskCodecLaws}.

(** ** Reading through a view *)

Lemma getNumber_put db k n : isU64 n → getNumber (<[k := diskNumber n]> db) k = Ok n.
Proof.
  intros Hn. unfold getNumber. rewrite lookup_insert_eq. unfold len.
  rewrite diskNumber_length. simpl. by rewrite readNumber_diskNumber.
Qed.
Lemma getNumber_lookup db db' k : db !! k = db' !! k → getNumber db k = getNumber db' k.
Proof. unfold getNumber. by intros ->. Qed.

(** What [valueNumber o] reads from a row. *)
Definition holds (o : option string) (n : Z) : Prop :=
  (o = Some (diskNumber n) ∧ isU64 n) ∨ (o = None ∧ n = 0%Z).
Lemma getNumber_holds db k o n : db !! k = o → holds o n → getNumber db k = Ok n.
Proof.
  intros E [[-> Hn]|[-> ->]]; unfold getNumber; rewrite E; [|done].
  unfold len. rewrite diskNumber_length. simpl. by rewrite readNumber_diskNumber.
Qed.

(** ** Preparing one more change *)

Lemma Prepared_start s a : View (s_db s) a a → Prepared s a newDiskBatch a.
Proof.
  intros HV. split; simpl; [done|done| |].
  - intros. unfold delta. simpl. rewrite lookup_empty. simpl. lia.
  - intros k d Hd. simpl in Hd. by rewrite lookup_empty in Hd.
Qed.

(** A change [ops] of rows other than counters, to a state whose rows it
    fixes, with the counters announced. *)
Lemma Prepared_ops s a b a1 b' ops a2 :
  Prepared s a b a1 →
  b_ops b' = b_ops b ++ (toOp <$> ops) →
  Forall (okRow ∘ fst) ops →
  Forall (λ o, match o.1 with RGen g f => isCount f = false ∨ g ∈ a_junk a | _ => True end) ops →
  a_junk a2 = a_junk a →
  (∀ r, okRow r → isRow a2 r →
    match opFor ops r with Some v => v = rowOf a2 r | None => rowOf a1 r = rowOf a2 r end) →
  (∀ m, isNumber m = true →
    match opFor ops (RMeta m) with
    | Some v => holds v (metaNum a2 m) | None => metaNum a1 m = metaNum a2 m end) →
  (∀ g f, isU64 g → g ∉ a_junk a → isCount f = true →
    (genNum (gen a2 g) f = genNum (gen a1 g) f + (delta b' g f - delta b g f))%Z) →
  (countKeys (a_junk a) b → countKeys (a_junk a) b') →
  Prepared s a b' a2.
Proof.
  intros [HV HJ HD HK] Eops Hok Hnc HJ2 Hrow Hmeta Hdelta Hkeys.
  assert (∀ r, okRow r → opFor ops r = None →
    applyOps (b_ops b') (s_db s) !! rowKey r = applyOps (b_ops b) (s_db s) !! rowKey r) as Hkeep.
  { intros r Hr E. rewrite Eops, applyOps_app, applyOps_lookup by done. by rewrite E. }
  assert (∀ r v, okRow r → opFor ops r = Some v →
    applyOps (b_ops b') (s_db s) !! rowKey r = v) as Hset.
  { intros r v Hr E. rewrite Eops, applyOps_app, applyOps_lookup by done. by rewrite E. }
  split; [split|congruence| |].
  - intros r Hr Hi. specialize (Hrow r Hr Hi). destruct (opFor ops r) as [v|] eqn:E.
    + rewrite (Hset r v) by done. done.
    + rewrite (Hkeep r) by done. rewrite <- Hrow. apply (v_row _ _ _ HV); [done|].
      destruct r as [[]| |]; simpl in *; try done. destruct Hi. split; [congruence|done].
  - intros m Hm. specialize (Hmeta m Hm). destruct (opFor ops (RMeta m)) as [v|] eqn:E.
    + eapply getNumber_holds; [|exact Hmeta]. by apply (Hset (RMeta m)).
    + rewrite <- Hmeta, <- (v_meta _ _ _ HV m Hm). apply getNumber_lookup. by apply (Hkeep (RMeta m)).
  - intros g f Hg HgJ Hf. rewrite <- (v_count _ _ _ HV g f Hg) by congruence.
    apply getNumber_lookup. apply (Hkeep (RGen g f)).
    + split; [done|]. by destruct f.
    + apply opFor_None. intros Hin. apply list_elem_of_fmap in Hin as ([r v] & E & Hin).
      rewrite Forall_forall in Hnc. specialize (Hnc _ Hin). simpl in *. subst r.
      destruct Hnc; [congruence|]. by rewrite HJ2 in HgJ.
  - intros k v. rewrite Eops, applyOps_app. apply applyOps_cover; [done|apply (v_cover _ _ _ HV)].
  - intros g f Hg HgJ Hf. rewrite Hdelta, HD by done. lia.
  - by apply Hkeys.
Qed.

(** ** Checked items *)

Lemma checkIndexes_NoDup seen l :
  checkIndexes seen l = Ok tt → NoDup l ∧ ∀ i, i ∈ l → i ∉ seen.
Proof.
  revert seen. induction l as [|i l IH]; intros seen; simpl; [intros _; split; [constructor|set_solver]|].
  destruct (_ || _); [done|]. case_bool_decide as Hi; [done|]. intros [Hl Hs]%IH.
  split; [apply NoDup_cons; set_solver|set_solver].
Qed.
Lemma checkRelated_Ok keys :
  checkRelated keys = Ok tt → Forall (λ key, ∃ l, diskLogical key = Ok l) keys.
Proof.
  induction keys as [|key keys IH]; simpl; [constructor|].
  destruct (diskLogical key) eqn:E; simpl; [|done]. eauto.
Qed.
Lemma diskItem_Ok it data :
  diskItem it = Ok data →
  data = marshalItem it ∧ i_Version it ≠ "" ∧ (len (i_Value it) ≤ DiskItemBytes)%Z ∧
  validJSON (i_Value it) = true ∧ NoDup (i_Indexes it) ∧
  Forall (λ key, ∃ l, diskLogical key = Ok l) (i_Related it).
Proof.
  unfold diskItem. case_bool_decide as Hv; [done|].
  destruct (1024 <? len (i_Version it))%Z; [done|].
  destruct (1024 <? len (i_RelatedVersion it))%Z; [done|].
  destruct (DiskItemBytes <? len (i_Value it))%Z eqn:El; [done|].
  destruct (validJSON (i_Value it)) eqn:Ej; [|done]. simpl.
  destruct (_ || _); [done|].
  destruct (checkIndexes ∅ (i_Indexes it)) as [[]|] eqn:E1; simpl; [|done].
  destruct (checkRelated (i_Related it)) as [[]|] eqn:E2; simpl; [|done]. intros [= <-].
  apply checkIndexes_NoDup in E1 as [? _]. apply checkRelated_Ok in E2.
  apply Z.ltb_ge in El. done.
Qed.

(** ** Pending work *)

(** What [schedule] reads back of a stored schedule. *)
Definition readBack (st : DiskSchedule) : DiskSchedule :=
  if isPlain st then mkSchedule (d_Token st) 0 1 0 "" 0 else cleanSchedule st.
Lemma readBack_key st :
  d_Token (readBack st) = d_Token st ∧ d_Due (readBack st) = d_Due st ∧
  d_Priority (readBack st) = d_Priority st ∧ quarantined (readBack st) = quarantined st.
Proof.
  unfold readBack. destruct (isPlain st) eqn:E; [|done]. unfold isPlain in E.
  apply andb_true_iff in E as [[E1%Z.eqb_eq E2%Z.eqb_eq]%andb_true_iff E3%negb_true_iff].
  simpl. rewrite E3. done.
Qed.

Lemma delta_count b g0 name f0 d g f :
  diskPrefix g0 name = rowKey (RGen g0 f0) → okRow (RGen g0 f0) → isU64 g → isCount f = true →
  delta (count b g0 name d) g f = (delta b g f + if decide (RGen g0 f0 = RGen g f) then d else 0)%Z.
Proof.
  intros E Hok0 Hg Hf. unfold delta, count. simpl b_counts. rewrite E.
  assert (okRow (RGen g f)) as Hok by (split; [done|by destruct f]).
  destruct (decide (RGen g0 f0 = RGen g f)) as [->|Hne].
  - rewrite lookup_insert_eq. done.
  - rewrite lookup_insert_ne by (by apply rowKey_ne). simpl. lia.
Qed.

Lemma countKeys_count J b g name f d :
  diskPrefix g name = rowKey (RGen g f) → isCount f = true → isU64 g → g ∉ J →
  countKeys J b → countKeys J (count b g name d).
Proof.
  intros E Hf Hg HJ Hb k d'. simpl. rewrite lookup_insert_Some.
  intros [[<- _]|[_ H]]; [eauto 10|by eapply Hb].
Qed.
Lemma countKeys_bPut J b k v : countKeys J b → countKeys J (bPut b k v).
Proof. done. Qed.
Lemma countKeys_pending J b g d :
  isU64 g → g ∉ J → countKeys J b → countKeys J (count b g "pending-count" d).
Proof. by apply (countKeys_count J b g _ GPendingCount). Qed.
Lemma countKeys_poison J b g d :
  isU64 g → g ∉ J → countKeys J b → countKeys J (count b g "poison-count" d).
Proof. by apply (countKeys_count J b g _ GPoisonCount). Qed.

Section work.
Context (s : Disk) (a : Spec) (g : Z).
Hypothesis HV : View (s_db s) a a.
Hypothesis Hg : isU64 g.
Hypothesis HgJ : g ∉ a_junk a.
Hypothesis Hseq : isU64 (a_sequence a).
Hypothesis Hgen : okGenState (s_kind s) (a_sequence a) (gen a g).

Lemma read_row f : okGen f → isCount f = false → s_db s !! rowKey (RGen g f) = genRowOf (gen a g) f.
Proof. intros. by apply (v_row _ _ _ HV (RGen g f)). Qed.

Lemma work_ok l st :
  g_work (gen a g) !! l = Some st → okName (s_kind s) l ∧ okSchedule (a_sequence a) st.
Proof. apply (og_work _ _ _ Hgen). Qed.
Lemma token_range st : okSchedule (a_sequence a) st → isU64 (d_Token st).
Proof. intros [H _ _]. unfold isU64 in *. lia. Qed.

Lemma tokenAt_work l :
  tokenAt s (diskPrefix g "w/") l = Ok (default 0%Z (d_Token <$> g_work (gen a g) !! l)).
Proof.
  unfold tokenAt. rewrite workKey, read_row by done. simpl.
  destruct (g_work (gen a g) !! l) as [st|] eqn:E; simpl; [|done].
  destruct (work_ok l st E) as [_ Hst]. rewrite readNumber_diskNumber; [done|by apply token_range].
Qed.

Lemma schedule_work l st :
  g_work (gen a g) !! l = Some st → schedule s g l (d_Token st) = Ok (readBack st).
Proof.
  intros E. destruct (work_ok l st E) as [_ [Ht Hd Hp]].
  unfold schedule, readBack. rewrite schedKey, read_row by done. simpl. rewrite E. simpl.
  destruct (isPlain st); [done|]. rewrite unmarshal_marshal_schedule. simpl.
  rewrite Z.eqb_refl. rewrite (proj2 (Z.ltb_ge _ _)), (proj2 (Z.ltb_ge _ _)) by lia. done.
Qed.

(** The rows of a work item. *)
Definition forgetOps (l : string) (st : DiskSchedule) : list RowOp :=
  [(RGen g (GReady (d_Priority st) (d_Due st) (d_Token st) l), None);
   (RGen g (GWork l), None); (RGen g (GSched l), None); (RGen g (GPoison l), None)].
Definition putOps (l : string) (st : DiskSchedule) : list RowOp :=
  [(RGen g (GWork l), Some (diskNumber (d_Token st)))] ++
  (if isPlain st then [] else [(RGen g (GSched l), Some (marshalSchedule st))]) ++
  [if quarantined st then (RGen g (GPoison l), Some (marshalSchedule st))
   else (RGen g (GReady (d_Priority st) (d_Due st) (d_Token st) l), Some "")].

Lemma isRow_setGen a1 g' G r : isRow (setGen a1 g' G) r ↔ isRow a1 r.
Proof. by destruct r as [[]| |]. Qed.
Lemma rowOf_setGen a1 G r :
  match r with RGen g' _ => g' ≠ g | _ => True end → rowOf (setGen a1 g G) r = rowOf a1 r.
Proof. destruct r as [| |g' f]; simpl; [done..|]. intros. by rewrite gen_setGen_ne. Qed.

(** Rows outside the work of [l] are not touched by a change of it. *)
Definition workRow (l : string) (f : GenRow) : bool :=
  match f with
  | GWork l' | GSched l' | GPoison l' | GReady _ _ _ l' => bool_decide (l' = l)
  | _ => false
  end.
Lemma rowOf_setWork a1 l o r :
  rowOf (setWork a1 g l o) r =
    match r with
    | RGen g' f => if decide (g' = g) then if workRow l f then workRowOf o f else rowOf a1 r
                   else rowOf a1 r
    | _ => rowOf a1 r
    end.
Proof.
  destruct r as [| |g' f]; [done..|]. destruct (decide (g' = g)) as [->|Hne];
    [|by apply rowOf_setGen]. simpl rowOf. unfold setWork. rewrite gen_setGen.
  destruct f as [l'|l'|l'|l'|p d t l'|l'|b l'|b| |]; simpl; try done;
    (case_bool_decide; [subst; by rewrite lookup_partial_alter_eq
                       |rewrite lookup_partial_alter_ne by done; done]).
Qed.
Lemma rowOf_workRow a1 l f :
  workRow l f = true → rowOf a1 (RGen g f) = workRowOf (g_work (gen a1 g) !! l) f.
Proof. destruct f; simpl; try done; intros ->%bool_decide_eq_true; done. Qed.
Lemma genNum_setWork a1 l o g' f :
  isCount f = true →
  genNum (gen (setWork a1 g l o) g') f =
    (genNum (gen a1 g') f +
     if decide (g' = g) then
       match f with
       | GPendingCount => (if o then 1 else 0) - (if g_work (gen a1 g) !! l then 1 else 0)
       | GPoisonCount => counts isQuarantined l o - counts isQuarantined l (g_work (gen a1 g) !! l)
       | _ => 0
       end else 0)%Z.
Proof.
  intros Hf. destruct (decide (g' = g)) as [->|Hne].
  - unfold setWork. rewrite gen_setGen. destruct f; try done; simpl; [lia| |].
    + rewrite size_alter. lia.
    + rewrite size_filter_alter. lia.
  - unfold setWork. rewrite gen_setGen_ne by done. lia.
Qed.

Lemma forgetWork_Prepared b a1 l :
  Prepared s a b a1 → g_work (gen a1 g) !! l = g_work (gen a g) !! l →
  ∃ b', forgetWork s b g l = Ok b' ∧ Prepared s a b' (setWork a1 g l None).
Proof.
  intros HP Hsame. unfold forgetWork. rewrite tokenAt_work. cbn [bind_result].
  destruct (g_work (gen a g) !! l) as [st|] eqn:E; cbn [fmap option_fmap option_map from_option id].
  - destruct (work_ok l st E) as [_ Hst]. pose proof (token_range st Hst) as Ht.
    destruct Hst as [Htok Hdue Hprio]. rewrite (proj2 (Z.eqb_neq _ _)) by lia.
    rewrite (schedule_work l st E). cbn [bind_result].
    destruct (readBack_key st) as (E1 & E2 & E3 & E4). rewrite E4.
    eexists. split; [reflexivity|].
    eapply (Prepared_ops _ _ _ _ _ (forgetOps l st)); [exact HP|..].
    + rewrite readyKey, workKey, schedKey, poisonKey, E1, E2, E3.
      destruct (quarantined st); cbn; by rewrite <- !app_assoc.
    + ok_rows.
    + ok_rows.
    + apply (pr_junk _ _ _ _ HP).
    + intros r Hr Hi. rewrite rowOf_setWork. unfold forgetOps. destruct r as [m|x|g' f]; [done..|].
      destruct (decide (g' = g)) as [->|Hne]; [|by op_cases].
      assert (workRow l f = true → rowOf a1 (RGen g f) = workRowOf (Some st) f) as Hold
        by (rewrite <- Hsame; apply rowOf_workRow).
      destruct (workRow l f) eqn:Hw; [specialize (Hold eq_refl)
        |op_cases; try done; cbn in Hw; by rewrite (bool_decide_eq_true_2 _ eq_refl) in Hw].
      op_cases; try done. rewrite Hold.
      destruct f; try done; apply bool_decide_eq_true in Hw; subst; try done.
      simpl. destruct (quarantined st); [done|]. case_decide as Hm; [|done].
      destruct Hm as (-> & -> & ->). done.
    + intros [] Hm; done.
    + intros g' f Hg' Hj Hf. rewrite genNum_setWork, Hsame by done.
      assert (counts isQuarantined l (Some st) = if quarantined st then 1 else 0)%Z as Hc.
      { simpl. unfold isQuarantined. simpl. by destruct (quarantined st). }
      destruct (quarantined st);
        rewrite ?(delta_count _ _ _ GPoisonCount), ?(delta_count _ _ _ GPendingCount)
          by (done || by split); count_cases.
    + intros. destruct (quarantined st); eauto 10 using countKeys_pending, countKeys_poison.
  - exists b. split; [done|].
    eapply (Prepared_ops _ _ _ _ _ []); [exact HP|..]; try by constructor.
    + cbn. by rewrite app_nil_r.
    + apply (pr_junk _ _ _ _ HP).
    + intros r Hr Hi. rewrite rowOf_setWork. destruct r as [| |g' f]; [done..|].
      destruct (decide (g' = g)) as [->|]; [|done]. destruct (workRow l f) eqn:Hw; [|done].
      by rewrite (rowOf_workRow a1 l f Hw), Hsame.
    + intros g' f Hg' Hj Hf. rewrite genNum_setWork, Hsame by done. count_cases.
    + eauto.
Qed.
(** A schedule whose rows the store can hold. *)
Definition okFields (st : DiskSchedule) : Prop :=
  isU64 (d_Token st) ∧ (0 ≤ d_Due st < 2 ^ 63)%Z ∧ (0 ≤ d_Priority st ≤ 1)%Z.

Lemma putWork_Prepared b a1 l st :
  Prepared s a b a1 → g_work (gen a1 g) !! l = None → okFields st →
  Prepared s a
    (let b := bPut b (diskPrefix g "w/" +:+ l) (diskNumber (d_Token st)) in
     let b := count b g "pending-count" 1 in
     let b := if negb (d_Priority st =? 1)%Z || negb (d_Due st =? 0)%Z || quarantined st
              then bPut b (diskPrefix g "s/" +:+ l) (marshalSchedule st) else b in
     if quarantined st
     then count (bPut b (diskPrefix g "p/" +:+ l) (marshalSchedule st)) g "poison-count" 1
     else bPut b (diskReadyKey g l st) "") (setWork a1 g l (Some st)).
Proof.
  intros HP Hnone (Ht & Hdue & Hprio). cbv zeta.
  assert (negb (d_Priority st =? 1)%Z || negb (d_Due st =? 0)%Z || quarantined st =
          negb (isPlain st)) as ->.
  { unfold isPlain. by rewrite !negb_andb, negb_involutive. }
  eapply (Prepared_ops _ _ _ _ _ (putOps l st)); [exact HP|..].
  - unfold putOps. rewrite readyKey, workKey, schedKey, poisonKey.
    destruct (isPlain st), (quarantined st); cbn; by rewrite <- ?app_assoc.
  - unfold putOps. destruct (isPlain st), (quarantined st); ok_rows.
  - unfold putOps. destruct (isPlain st), (quarantined st); ok_rows.
  - apply (pr_junk _ _ _ _ HP).
  - intros r Hr Hi. rewrite rowOf_setWork. unfold putOps.
    destruct r as [m|x|g' f]; [by destruct (isPlain st), (quarantined st)..|].
    destruct (decide (g' = g)) as [->|Hne];
      [|by destruct (isPlain st), (quarantined st); op_cases].
    destruct (workRow l f) eqn:Hw.
    + assert (rowOf a1 (RGen g f) = None) as Hold.
      { rewrite (rowOf_workRow a1 l f Hw), Hnone. by destruct f. }
      destruct f; try done; apply bool_decide_eq_true in Hw; subst;
        destruct (isPlain st) eqn:Ep, (quarantined st) eqn:Eq; op_cases; rewrite ?Hold; simpl;
        rewrite ?Ep, ?Eq; try done; try (by rewrite decide_True by done).
      all: case_decide as Hm; [|done]; by destruct Hm as (-> & -> & ->).
    + destruct (isPlain st), (quarantined st); op_cases; try done; cbn in Hw;
        by rewrite (bool_decide_eq_true_2 _ eq_refl) in Hw.
  - unfold putOps. intros [] Hm; destruct (isPlain st), (quarantined st); done.
  - intros g' f Hg' Hj Hf. rewrite genNum_setWork, Hnone by done.
    assert (counts isQuarantined l (Some st) = if quarantined st then 1 else 0)%Z as Hc.
    { simpl. unfold isQuarantined. simpl. by destruct (quarantined st). }
    destruct (isPlain st), (quarantined st); cbn [negb];
      rewrite ?(delta_count _ _ _ GPoisonCount), ?delta_bPut,
        ?(delta_count _ _ _ GPendingCount) by (done || by split); count_cases.
  - intros. destruct (isPlain st), (quarantined st); cbn [negb];
      eauto 10 using countKeys_pending, countKeys_poison, countKeys_bPut.
Qed.

Lemma queueWork_Prepared b a1 l st :
  Prepared s a b a1 → g_work (gen a1 g) !! l = g_work (gen a g) !! l →
  okFields (stamp s st) →
  ∃ b', queueWork s b g l st = Ok b' ∧ Prepared s a b' (setWork a1 g l (Some (stamp s st))).
Proof.
  intros HP Hsame Hst. destruct (forgetWork_Prepared b a1 l HP Hsame) as (b1 & E & HP1).
  unfold queueWork. rewrite E. cbn [bind_result]. eexists. split; [reflexivity|].
  rewrite <- (setWork_setWork a1 g l None). apply putWork_Prepared; [done| |done].
  unfold setWork. rewrite gen_setGen. simpl. apply lookup_partial_alter_eq.
Qed.

(** ** Items and their indexes *)

Lemma item_read l :
  item s g l = Ok (match g_items (gen a g) !! l with
                   | Some it => (it, true) | None => (zeroItem, false) end).
Proof.
  unfold item. rewrite dataKey, read_row by done. simpl.
  destruct (g_items (gen a g) !! l) as [it|] eqn:E; [|done]. simpl.
  destruct (og_items _ _ _ Hgen l it E) as [Hk Hl Hd [Hrt Hlen]].
  apply diskItem_Ok in Hd as (_ & Hv & Hval & Hjson & _).
  rewrite (proj2 (Z.ltb_ge _ _)), Hrt by done. unfold logical.
  rewrite bool_decide_eq_true_2, Hl, bool_decide_eq_true_2, bool_decide_eq_false_2 by done.
  rewrite (proj2 (Z.ltb_ge _ _)), Hjson by done. done.
Qed.

End work.

Section index.
Context (g : Z).
Hypothesis Hg : isU64 g.

Definition indexOps (l : string) (v : option string) (indexes : list string) : list RowOp :=
  (λ i, (RGen g (GIndex (encodeIndex i) l), v)) <$> indexes.
Lemma opFor_indexOps l v indexes r :
  opFor (indexOps l v indexes) r =
    match r with
    | RGen g' (GIndex c l') =>
        if decide (g' = g ∧ l' = l ∧ c ∈ encodeIndex <$> indexes) then Some v else None
    | _ => None
    end.
Proof.
  clear Hg. induction indexes as [|i indexes IH].
  - destruct r as [| |g' []]; try done. rewrite decide_False; [done|]. set_solver.
  - change (indexOps l v (i :: indexes))
      with ((RGen g (GIndex (encodeIndex i) l), v) :: indexOps l v indexes).
    cbn [opFor]. rewrite IH, fmap_cons. destruct r as [| |g' []]; try done; op_cases; try done.
    all: repeat case_decide; try done; set_solver.
Qed.
Definition occurs (c : string) (indexes : list string) : Z :=
  if decide (c ∈ encodeIndex <$> indexes) then 1 else 0.
Lemma indexOps_ok l v indexes :
  Forall (okRow ∘ fst) (indexOps l v indexes) ∧
  ∀ J : gset Z, Forall (λ o, match o.1 with RGen g f => isCount f = false ∨ g ∈ J | _ => True end)
    (indexOps l v indexes).
Proof.
  unfold indexOps. rewrite !Forall_fmap. split; [|intros J; rewrite Forall_fmap];
    apply Forall_true; [|by left].
  intros i. split; [done|apply encodeIndex_chars].
Qed.

(** The index rows a batch drops or adds, with their counters. *)
Lemma dropIndex_ops l b indexes :
  b_ops (foldl (dropIndex g l) b indexes) = b_ops b ++ (toOp <$> indexOps l None indexes).
Proof.
  revert b. induction indexes as [|i indexes IH]; intros b; simpl; [by rewrite app_nil_r|].
  rewrite IH. simpl. rewrite indexKey, <- app_assoc. done.
Qed.
Lemma addIndex_ops l b indexes :
  b_ops (foldl (addIndex g l) b indexes) = b_ops b ++ (toOp <$> indexOps l (Some "") indexes).
Proof.
  revert b. induction indexes as [|i indexes IH]; intros b; simpl; [by rewrite app_nil_r|].
  rewrite IH. simpl. rewrite indexKey, <- app_assoc. done.
Qed.
Lemma occurs_cons c i indexes :
  NoDup (i :: indexes) →
  occurs c (i :: indexes) = (occurs c indexes + if decide (encodeIndex i = c) then 1 else 0)%Z.
Proof.
  clear Hg. intros [Hi _]%NoDup_cons. unfold occurs. rewrite fmap_cons.
  repeat case_decide; try done; subst; try set_solver.
Qed.
Lemma index_delta step d l b indexes g' f :
  (∀ b i, step b i = count (if (0 <? d)%Z then bPut b (diskIndexPrefix g i +:+ l) ""
                            else bDelete b (diskIndexPrefix g i +:+ l)) g
                       ("ic/" +:+ encodeIndex i) d) →
  NoDup indexes → isU64 g' → isCount f = true →
  delta (foldl step b indexes) g' f =
    (delta b g' f + match f with
                    | GIndexCount c => if decide (g' = g) then d * occurs c indexes else 0
                    | _ => 0 end)%Z.
Proof.
  intros Hstep Hnd Hg' Hf. revert b. induction indexes as [|i indexes IH]; intros b.
  - simpl. destruct f; try lia. case_decide; [|lia].
    unfold occurs. rewrite (decide_False (P := _ ∈ _)) by set_solver. lia.
  - simpl. rewrite IH by (by inversion Hnd). rewrite Hstep.
    rewrite (delta_count _ g _ (GIndexCount (encodeIndex i))) by (done || by split).
    assert (∀ b, delta (if (0 <? d)%Z then bPut b (diskIndexPrefix g i +:+ l) ""
                  else bDelete b (diskIndexPrefix g i +:+ l)) g' f = delta b g' f) as ->.
    { intros b0. by destruct (0 <? d)%Z. }
    destruct f as [| | | | | | |c| |]; try done; try (rewrite decide_False by congruence; lia).
    rewrite occurs_cons by done. repeat case_decide; simplify_eq; lia.
Qed.
End index.
End batch.
