(* ===== verification/DiskPut.v ===== *)
(** * Items, related owners and commits of the durable store

    The rest of the builders ([put], [diskRelated]), the metadata rows, and
    [write]: a prepared batch becomes the state of the store, or nothing
    changes. *)

From S2P Require Import Prelude WorkTypes DiskKeys DiskStore DiskSpec DiskBatch.
From Stdlib Require Import Ascii.

Section put.
Context {DC : DiskCodec} {DL : DiskCodecLaws}.

Section gen_rows.
Context (s : Disk) (a : Spec) (g : Z).
Hypothesis Hg : isU64 g.
Hypothesis HgJ : g ∉ a_junk a.

(** ** Items *)

Definition itemRow (l : string) (f : GenRow) : bool :=
  match f with GData l' | GIndex _ l' => bool_decide (l' = l) | _ => false end.
Lemma rowOf_setItem a1 l o r :
  rowOf (setItem a1 g l o) r =
    match r with
    | RGen g' f => if decide (g' = g) then if itemRow l f then itemRowOf o f else rowOf a1 r
                   else rowOf a1 r
    | _ => rowOf a1 r
    end.
Proof.
  destruct r as [| |g' f]; [done..|]. destruct (decide (g' = g)) as [->|Hne];
    [|by apply rowOf_setGen]. simpl rowOf. unfold setItem. rewrite gen_setGen.
  destruct f as [l'|l'|l'|l'|p d t l'|l'|b l'|b| |]; simpl; try done;
    (case_bool_decide; [subst; by rewrite lookup_partial_alter_eq
                       |rewrite lookup_partial_alter_ne by done; done]).
Qed.
Lemma rowOf_itemRow a1 l f :
  itemRow l f = true → rowOf a1 (RGen g f) = itemRowOf (g_items (gen a1 g) !! l) f.
Proof. destruct f; simpl; try done; intros ->%bool_decide_eq_true; done. Qed.
Lemma genNum_setItem a1 l o g' f :
  isCount f = true →
  genNum (gen (setItem a1 g l o) g') f =
    (genNum (gen a1 g') f +
     if decide (g' = g) then
       match f with
       | GIndexCount c => counts (λ kv, member c kv.2) l o -
                          counts (λ kv, member c kv.2) l (g_items (gen a1 g) !! l)
       | _ => 0
       end else 0)%Z.
Proof.
  intros Hf. destruct (decide (g' = g)) as [->|Hne].
  - unfold setItem. rewrite gen_setGen. destruct f; try done; simpl; [|lia..].
    rewrite size_filter_alter. lia.
  - unfold setItem. rewrite gen_setGen_ne by done. lia.
Qed.

Lemma countKeys_foldl {A} J (step : diskBatch → A → diskBatch) b xs :
  (∀ b x, countKeys J b → countKeys J (step b x)) → countKeys J b → countKeys J (foldl step b xs).
Proof. intros Hs. revert b. induction xs; simpl; auto. Qed.
Lemma countKeys_bDelete J b k : countKeys J b → countKeys J (bDelete b k).
Proof. done. Qed.

(** The item under a name, as the code holds it when there is none. *)
Definition itemOr (o : option DiskItem) : DiskItem := default zeroItem o.
Definition itemOps (l : string) (old new : option DiskItem) : list RowOp :=
  indexOps g l None (i_Indexes (itemOr old)) ++
  [(RGen g (GData l), marshalItem <$> new)] ++
  indexOps g l (Some "") (i_Indexes (itemOr new)).
Definition itemBatch (b : diskBatch) (l : string) (old new : option DiskItem) : diskBatch :=
  let b := foldl (dropIndex g l) b (i_Indexes (itemOr old)) in
  match new with
  | None => bDelete b (diskPrefix g "d/" +:+ l)
  | Some it => foldl (addIndex g l) (bPut b (diskPrefix g "d/" +:+ l) (marshalItem it))
                 (i_Indexes it)
  end.
Lemma itemBatch_ops b l old new :
  b_ops (itemBatch b l old new) = b_ops b ++ (toOp <$> itemOps l old new).
Proof.
  unfold itemBatch, itemOps. rewrite dataKey, !fmap_app. destruct new as [it|].
  - rewrite addIndex_ops. cbn [b_ops bPut]. rewrite dropIndex_ops, <- !app_assoc. done.
  - cbn [b_ops bDelete]. rewrite dropIndex_ops, <- !app_assoc. done.
Qed.
Lemma opFor_itemOps l old new r :
  opFor (itemOps l old new) r =
    match r with
    | RGen g' (GData l') => if decide (g' = g ∧ l' = l) then Some (marshalItem <$> new) else None
    | RGen g' (GIndex c l') =>
        if decide (g' = g ∧ l' = l) then
          if decide (c ∈ encodeIndex <$> i_Indexes (itemOr new)) then Some (Some "")
          else if decide (c ∈ encodeIndex <$> i_Indexes (itemOr old)) then Some None else None
        else None
    | _ => None
    end.
Proof.
  unfold itemOps. rewrite !opFor_app, !opFor_indexOps. cbn [opFor fst snd].
  destruct r as [| |g' []]; try done; repeat case_decide; try done; simplify_eq; naive_solver.
Qed.
Lemma counts_occurs c l o :
  counts (λ kv : string * DiskItem, member c kv.2) l o = occurs c (i_Indexes (itemOr o)).
Proof.
  unfold counts, occurs, member. destruct o as [it|]; [done|].
  change (i_Indexes (itemOr None)) with (@nil string). by rewrite decide_False by set_solver.
Qed.

Lemma itemRowOf_index o c l :
  itemRowOf o (GIndex c l) =
    if decide (c ∈ encodeIndex <$> i_Indexes (itemOr o)) then Some "" else None.
Proof. destruct o as [it|]; [done|]. symmetry. apply decide_False. set_solver. Qed.

Lemma setItem_Prepared b a1 l new :
  Prepared s a b a1 →
  NoDup (i_Indexes (itemOr (g_items (gen a1 g) !! l))) → NoDup (i_Indexes (itemOr new)) →
  Prepared s a (itemBatch b l (g_items (gen a1 g) !! l) new) (setItem a1 g l new).
Proof.
  set (old := g_items (gen a1 g) !! l). intros HP Hn1 Hn2.
  eapply (Prepared_ops _ _ _ _ _ (itemOps l old new)); [exact HP|apply itemBatch_ops|..].
  - unfold itemOps. rewrite !Forall_app. split_and!; [by apply indexOps_ok| |by apply indexOps_ok].
    ok_rows.
  - unfold itemOps. rewrite !Forall_app. split_and!; [by apply indexOps_ok| |by apply indexOps_ok].
    ok_rows.
  - apply (pr_junk _ _ _ _ HP).
  - intros r Hr Hi. rewrite rowOf_setItem, opFor_itemOps. destruct r as [| |g' f]; [done..|].
    destruct (decide (g' = g)) as [->|Hne].
    + destruct f as [l'|l'|l'|l'|p d t l'|l'|c l'|c| |]; try done; simpl itemRow;
        case_bool_decide as Hl.
      * rewrite decide_True by done. by destruct new.
      * rewrite decide_False; [done|naive_solver].
      * rewrite decide_True by done. subst l'. rewrite itemRowOf_index.
        case_decide; [done|]. case_decide; [done|].
        change (rowOf a1 _) with (itemRowOf old (GIndex c l)). rewrite itemRowOf_index.
        by rewrite decide_False.
      * rewrite decide_False; [done|naive_solver].
    + destruct f; try done; rewrite decide_False; [done|naive_solver|done|naive_solver].
  - intros m Hm. by rewrite opFor_itemOps.
  - intros g' f Hg' Hj Hf. rewrite genNum_setItem by done.
    fold old. unfold itemBatch. destruct new as [it|].
    + rewrite (index_delta g Hg (addIndex g l) 1 l), delta_bPut,
        (index_delta g Hg (dropIndex g l) (-1) l) by done.
      destruct f as [| | | | | | |c| |]; try done; case_decide; try lia.
      rewrite !counts_occurs. change (i_Indexes (itemOr (Some it))) with (i_Indexes it). lia.
    + rewrite delta_bDelete, (index_delta g Hg (dropIndex g l) (-1) l) by done.
      destruct f as [| | | | | | |c| |]; try done; case_decide; try lia.
      rewrite !counts_occurs. unfold occurs at 1. rewrite decide_False; [lia|set_solver].
  - intros Hk. unfold itemBatch. destruct new; [|apply countKeys_bDelete];
      repeat apply countKeys_foldl; try done; intros b0 i ?;
      by apply (countKeys_count _ _ _ _ (GIndexCount (encodeIndex i))).
Qed.

(** ** Related owners *)

Lemma setRelated_Prepared b b' a1 l o :
  Prepared s a b a1 → b_counts b' = b_counts b →
  b_ops b' = b_ops b ++ (toOp <$> [(RGen g (GRelated l), diskNumber <$> o)]) →
  Prepared s a b' (setRelated a1 g l o).
Proof.
  intros HP Ec Eo.
  assert (∀ g', gen (setRelated a1 g l o) g' =
    if decide (g' = g) then mkGen (g_items (gen a1 g)) (g_work (gen a1 g))
                              (partial_alter (λ _, o) l (g_related (gen a1 g)))
    else gen a1 g') as Hgen.
  { intros g'. unfold setRelated. case_decide; [subst; by rewrite gen_setGen|].
    by rewrite gen_setGen_ne. }
  eapply (Prepared_ops _ _ _ _ _ [(RGen g (GRelated l), diskNumber <$> o)]);
    [exact HP|exact Eo|ok_rows|ok_rows|apply (pr_junk _ _ _ _ HP)| | | |].
  - intros r Hr Hi. destruct r as [| |g' f]; [done..|]. simpl rowOf. rewrite Hgen. op_cases.
    + rewrite decide_True by done. simpl. by rewrite lookup_partial_alter_eq.
    + destruct (decide (g' = g)) as [->|]; [|done]. destruct f as [| | | | |l'| | | |]; try done.
      simpl. rewrite lookup_partial_alter_ne; [done|congruence].
  - by intros [] Hm.
  - intros g' f Hg' Hj Hf. rewrite Hgen. unfold delta. rewrite Ec.
    case_decide; [subst; destruct f; try done; simpl; lia|lia].
  - unfold countKeys. by rewrite Ec.
Qed.

Definition relateAll (a : Spec) (keys : list WorkItemKey) (token : Z) : Spec :=
  foldl (λ a key, setRelated a g (relatedLogical key) (Some token)) a keys.
Lemma diskRelated_Prepared b a1 keys token :
  Prepared s a b a1 → Prepared s a (diskRelated b g keys token) (relateAll a1 keys token).
Proof.
  revert b a1. induction keys as [|key keys IH]; intros b a1 HP; [done|].
  apply IH. eapply setRelated_Prepared; [exact HP|done|]. simpl. by rewrite relatedKey.
Qed.
End gen_rows.

(** ** Metadata *)

Section meta_rows.
Context (s : Disk) (a : Spec).

Lemma setMeta_Prepared b b' a1 m n o :
  Prepared s a b a1 → isNumber m = true → holds o n → b_counts b' = b_counts b →
  b_ops b' = b_ops b ++ (toOp <$> [(RMeta m, o)]) → Prepared s a b' (setMeta a1 m n).
Proof.
  intros HP Hm Ho Ec Eo.
  eapply (Prepared_ops _ _ _ _ _ [(RMeta m, o)]);
    [exact HP|exact Eo|ok_rows|ok_rows|apply (pr_junk _ _ _ _ HP)| | | |].
  - intros r Hr Hi. destruct r as [m'| |g' f]; [|done..]. cbn [opFor fst snd].
    case_decide; simplify_eq; by destruct m'.
  - intros m' Hm'. cbn [opFor fst snd]. case_decide as E; [simplify_eq|];
      destruct m'; simplify_eq/=; try done; try by destruct m.
  - intros g' f Hg' Hj Hf. unfold delta. rewrite Ec. unfold gen. simpl. lia.
  - unfold countKeys. by rewrite Ec.
Qed.
Lemma putMeta_Prepared b a1 m n :
  Prepared s a b a1 → isNumber m = true → isU64 n →
  Prepared s a (bPut b (metaKey m) (diskNumber n)) (setMeta a1 m n).
Proof. intros HP Hm Hn. eapply (setMeta_Prepared _ _ _ m n); [exact HP|done|by left|done..]. Qed.
Lemma deleteMeta_Prepared b a1 m :
  Prepared s a b a1 → isNumber m = true →
  Prepared s a (bDelete b (metaKey m)) (setMeta a1 m 0).
Proof. intros HP Hm. eapply (setMeta_Prepared _ _ _ m 0); [exact HP|done|by right|done..]. Qed.
Lemma putCursor_Prepared b a1 cursor :
  Prepared s a b a1 → Prepared s a (bPut b "cursor" cursor) (setCursor a1 cursor).
Proof.
  intros HP. eapply (Prepared_ops _ _ _ _ _ [(RMeta MCursor, Some cursor)]);
    [exact HP|done|ok_rows|ok_rows|apply (pr_junk _ _ _ _ HP)| | | |].
  - intros [[]| |]; done.
  - by intros [].
  - intros. rewrite delta_bPut. unfold gen. simpl. lia.
  - done.
Qed.
Lemma setFanout_Prepared b b' a1 x o :
  Prepared s a b a1 → b_counts b' = b_counts b →
  b_ops b' = b_ops b ++ (toOp <$> [(RFanout x, o)]) → Prepared s a b' (setFanout a1 x o).
Proof.
  intros HP Ec Eo. eapply (Prepared_ops _ _ _ _ _ [(RFanout x, o)]);
    [exact HP|exact Eo|ok_rows|ok_rows|apply (pr_junk _ _ _ _ HP)| | | |].
  - intros [m|y|g f]; [by destruct m| |done]. intros _ _. cbn [opFor fst snd]. simpl rowOf.
    case_decide; simplify_eq; [by rewrite lookup_partial_alter_eq|].
    rewrite lookup_partial_alter_ne; [done|congruence].
  - by intros [].
  - intros. unfold delta. rewrite Ec. unfold gen. simpl. lia.
  - unfold countKeys. by rewrite Ec.
Qed.
End meta_rows.

(** ** Projections *)

Lemma gen_setItem a g l o :
  g_work (gen (setItem a g l o) g) = g_work (gen a g) ∧
  g_related (gen (setItem a g l o) g) = g_related (gen a g) ∧
  g_items (gen (setItem a g l o) g) = partial_alter (λ _, o) l (g_items (gen a g)).
Proof. unfold setItem. by rewrite gen_setGen. Qed.
Lemma gen_setWork a g l o :
  g_items (gen (setWork a g l o) g) = g_items (gen a g) ∧
  g_related (gen (setWork a g l o) g) = g_related (gen a g) ∧
  g_work (gen (setWork a g l o) g) = partial_alter (λ _, o) l (g_work (gen a g)).
Proof. unfold setWork. by rewrite gen_setGen. Qed.
Lemma gen_relateAll g a keys token :
  g_items (gen (relateAll g a keys token) g) = g_items (gen a g) ∧
  g_work (gen (relateAll g a keys token) g) = g_work (gen a g).
Proof.
  revert a. induction keys as [|key keys IH]; intros a; [done|]. simpl.
  destruct (IH (setRelated a g (relatedLogical key) (Some token))) as [E1 E2].
  unfold relateAll in *. rewrite E1, E2. unfold setRelated. by rewrite gen_setGen.
Qed.

(** The owners to reconcile when the item under a name is replaced. *)
Definition putRelated (old new : option DiskItem) : list WorkItemKey :=
  match new with
  | None => i_Related (itemOr old)
  | Some it => if negb (if old then true else false) || relationsChanged (itemOr old) it
               then i_Related (itemOr old) ++ i_Related it else []
  end.
(** [put]: the item under [l] is replaced, its owners are recorded under the
    token and, at a priority, so is the work. *)
Definition specPut (s : Disk) (a : Spec) (g : Z) (l : string) (new : option DiskItem) (token : Z)
    (priority : option Z) : Spec :=
  let a2 := relateAll g (setItem a g l new) (putRelated (g_items (gen a g) !! l) new) token in
  match priority with
  | Some p => setWork a2 g l (Some (stamp s (mkSchedule token 0 p 0 "" 0)))
  | None => a2
  end.

Section put_item.
Context (s : Disk) (a : Spec) (g : Z).
Hypothesis HV : View (s_db s) a a.
Hypothesis Hg : isU64 g.
Hypothesis HgJ : g ∉ a_junk a.
Hypothesis Hseq : isU64 (a_sequence a).
Hypothesis Hgen : okGenState (s_kind s) (a_sequence a) (gen a g).

Lemma stored_NoDup l : NoDup (i_Indexes (itemOr (g_items (gen a g) !! l))).
Proof.
  destruct (g_items (gen a g) !! l) as [it|] eqn:E; [|constructor].
  destruct (og_items _ _ _ Hgen l it E) as [_ _ Hd _]. by apply diskItem_Ok in Hd as (_ & _ & _ & _ & ? & _).
Qed.

Lemma put_Prepared b a1 it l data token deleted enqueue :
  Prepared s a b a1 → logical s (i_Key it) = Ok l →
  g_items (gen a1 g) !! l = g_items (gen a g) !! l →
  g_work (gen a1 g) !! l = g_work (gen a g) !! l →
  (deleted = false → diskItem it = Ok data) → isU64 token → (0 < s_now s < 2 ^ 62)%Z →
  ∃ b', put s b g it data token deleted enqueue = Ok b' ∧
    Prepared s a b' (specPut s a1 g l (if deleted then None else Some it) token
      (if enqueue then Some (if (a_staging a =? g)%Z then 1 else 0)%Z else None)).
Proof.
  intros HP El Hi Hw Hdata Htok Hnow. set (new := if deleted then None else Some it).
  unfold put. rewrite El. cbn [bind_result]. rewrite (item_read s a g) by done.
  set (old := g_items (gen a g) !! l) in *.
  assert (∀ r, (match old with Some it => (it, true) | None => (zeroItem, false) end) = r →
    r = (itemOr old, if old then true else false)) as Hpair by (intros r <-; by destruct old).
  rewrite (Hpair _ eq_refl). cbn [bind_result]. clear Hpair.
  set (b1 := if deleted then _ else _).
  assert (Prepared s a b1 (relateAll g (setItem a1 g l new) (putRelated old new) token)) as HP1.
  { assert (NoDup (i_Indexes (itemOr new))) as Hnew.
    { unfold new. destruct deleted; [constructor|].
      by apply diskItem_Ok in Hdata as (_ & _ & _ & _ & ? & _). }
    pose proof (setItem_Prepared s a g Hg HgJ b a1 l new HP) as H1.
    rewrite Hi in H1. specialize (H1 (stored_NoDup l) Hnew). fold old in H1.
    unfold b1, new in *. destruct deleted.
    - by apply diskRelated_Prepared.
    - destruct (diskItem_Ok it data (Hdata eq_refl)) as [-> _]. cbn [itemBatch putRelated] in *.
      destruct (negb _ || _); [|done].
      unfold relateAll. rewrite foldl_app. by repeat apply diskRelated_Prepared. }
  clearbody b1. unfold specPut. rewrite Hi. fold old. destruct enqueue; [|by exists b1].
  pose proof (v_meta _ _ _ HV MStaging eq_refl) as Hs. simpl in Hs. unfold number. rewrite Hs.
  cbn [bind_result]. apply (queueWork_Prepared s a g); try done.
  - destruct (gen_relateAll g (setItem a1 g l new) (putRelated old new) token) as [_ ->].
    destruct (gen_setItem a1 g l new) as [-> _]. done.
  - assert (0 ≤ s_now s / millisecond < 2 ^ 63)%Z.
    { unfold millisecond. split; [apply Z.div_pos; lia|apply Z.div_lt_upper_bound; lia]. }
    unfold okFields, stamp. destruct (a_staging a =? g)%Z; simpl; split_and!; done || lia.
Qed.
End put_item.

(** ** Commits *)

Lemma getNumber_range db k n : getNumber db k = Ok n → isU64 n.
Proof.
  unfold getNumber. destruct (db !! k) as [v|]; [|intros [= <-]; unfold isU64; lia].
  destruct (len v =? 8)%Z eqn:E; [|done]. intros [= <-]. apply readNumber_range.
  apply Z.eqb_eq in E. unfold len in E. lia.
Qed.

(** The puts [addCounts] adds, and what they leave. *)
Lemma addCounts_Ok db cs ops ops' :
  addCounts db cs ops = Ok ops' →
  ∃ kvs, ops' = ops ++ ((λ kv, OpPut kv.1 kv.2) <$> kvs) ∧ kvs.*1 = cs.*1 ∧
    ∀ k d, (k, d) ∈ cs → ∃ n, getNumber db k = Ok n ∧ (k, diskNumber (u64 (n + d))) ∈ kvs ∧
      ((0 < d)%Z → (n + d < 2 ^ 64)%Z).
Proof.
  revert ops. induction cs as [|[k d] cs IH]; intros ops; simpl.
  - intros [= <-]. exists []. rewrite app_nil_r. split_and!; [done..|]. set_solver.
  - destruct (getNumber db k) as [n|] eqn:E; simpl; [|done].
    destruct (_ || _) eqn:Ec; [done|]. intros (kvs & -> & Hk & Hv)%IH.
    exists ((k, diskNumber (u64 (n + d))) :: kvs). split_and!.
    + by rewrite <- app_assoc.
    + rewrite fmap_cons, Hk. done.
    + intros k' d' [[= -> ->]|Hin]%elem_of_cons.
      * exists n. split_and!; [done|by left|]. apply orb_false_iff in Ec as [_ Ec].
        intros Hd. rewrite (proj2 (Z.ltb_lt _ _)) in Ec by done. apply Z.ltb_ge in Ec. lia.
      * destruct (Hv k' d' Hin) as (n' & ? & ? & ?). exists n'. split_and!; [done|by right|done].
Qed.
Lemma applyPuts (kvs : list (string * string)) db :
  NoDup kvs.*1 →
  (∀ k v, (k, v) ∈ kvs → applyOps ((λ kv, OpPut kv.1 kv.2) <$> kvs) db !! k = Some v) ∧
  (∀ k, k ∉ kvs.*1 → applyOps ((λ kv, OpPut kv.1 kv.2) <$> kvs) db !! k = db !! k).
Proof.
  revert db. induction kvs as [|[k0 v0] kvs IH]; intros db; simpl; [set_solver|].
  intros [Hk0 Hnd]%NoDup_cons. destruct (IH (<[k0 := v0]> db) Hnd) as [Hin Hout]. split.
  - intros k v [[= -> ->]|H]%elem_of_cons; [|by apply Hin].
    fold (applyOps ((λ kv, OpPut kv.1 kv.2) <$> kvs) (<[k0 := v0]> db)).
    rewrite Hout by done. apply lookup_insert_eq.
  - intros k [Hne Hk]%not_elem_of_cons.
    fold (applyOps ((λ kv, OpPut kv.1 kv.2) <$> kvs) (<[k0 := v0]> db)).
    rewrite Hout by done. by apply lookup_insert_ne.
Qed.

(** The database a prepared batch leaves. *)
Lemma addCounts_View s a b a' ops :
  View (s_db s) a a → Prepared s a b a' →
  addCounts (s_db s) (map_to_list (b_counts b)) (b_ops b) = Ok ops →
  View (applyOps ops (s_db s)) a' a'.
Proof.
  intros HV HP. intros (kvs & -> & Hk & Hv)%addCounts_Ok.
  rewrite applyOps_app. set (db := applyOps (b_ops b) (s_db s)).
  assert (NoDup kvs.*1) as Hnd by (rewrite Hk; apply NoDup_fst_map_to_list).
  destruct (applyPuts kvs db Hnd) as [Hin Hout]. clear Hnd.
  assert (∀ k, k ∈ kvs.*1 → ∃ g f, isU64 g ∧ g ∉ a_junk a ∧ isCount f = true ∧
    k = rowKey (RGen g f)) as Hkeys.
  { rewrite Hk. intros k ([k' d] & -> & Hd)%list_elem_of_fmap.
    apply elem_of_map_to_list in Hd. by apply (pr_keys _ _ _ _ HP) in Hd. }
  assert (∀ r, okRow r → (∀ g f, r = RGen g f → isCount f = false) → rowKey r ∉ kvs.*1) as Hrow.
  { intros r Hr Hc Hin'. destruct (Hkeys _ Hin') as (g & f & Hg & _ & Hf & E).
    apply rowKey_inj in E; [|done|split; [done|by destruct f]]. specialize (Hc g f E). congruence. }
  destruct (pr_view _ _ _ _ HP) as [V1 V2 V3 V4]. fold db in V1, V2, V3, V4. split.
  - intros r Hr Hi. rewrite Hout; [by apply V1|]. apply Hrow; [done|].
    intros g f ->. apply Hi.
  - intros m Hm. rewrite <- V2 by done. apply getNumber_lookup. apply Hout.
    by apply (Hrow (RMeta m)).
  - intros g f Hg HgJ Hf. rewrite (pr_junk _ _ _ _ HP) in HgJ.
    rewrite (pr_delta _ _ _ _ HP) by done. unfold delta.
    pose proof (v_count _ _ _ HV g f Hg HgJ Hf) as Hnum.
    destruct (b_counts b !! rowKey (RGen g f)) as [d|] eqn:Ed; simpl.
    + apply elem_of_map_to_list in Ed. destruct (Hv _ _ Ed) as (n & En & Hput & Hup).
      rewrite Hnum in En. injection En as <-. apply Hin in Hput.
      eapply getNumber_holds; [exact Hput|]. left.
      apply getNumber_range in Hnum.
      assert (isU64 (genNum (gen a g) f + d)) as Hu; [|by rewrite u64_small].
      pose proof (pr_delta _ _ _ _ HP g f Hg HgJ Hf) as Hd. unfold delta in Hd.
      apply elem_of_map_to_list in Ed. rewrite Ed in Hd. simpl in Hd.
      assert (0 ≤ genNum (gen a' g) f)%Z by (destruct f; simpl; lia).
      unfold isU64 in *. destruct (Z.lt_ge_cases 0 d); [specialize (Hup ltac:(done))|]; lia.
    + rewrite Z.add_0_r, <- Hnum, Hnum, <- (V3 g f Hg) by (done || by rewrite (pr_junk _ _ _ _ HP)).
      apply getNumber_lookup, Hout. rewrite Hk.
      intros ([k d] & Ek & Hd)%list_elem_of_fmap. simpl in Ek. subst k.
      apply elem_of_map_to_list in Hd. congruence.
  - intros k v Hkv. destruct (decide (k ∈ kvs.*1)) as [Hin'|Hn].
    + destruct (Hkeys _ Hin') as (g & f & ? & _ & ? & ->). exists (RGen g f).
      split; [|done]. split; [done|by destruct f].
    + rewrite Hout in Hkv by done. by eapply V4.
Qed.

(** What a failed step leaves of the store: everything but its statistics. *)
Record sameData (s s' : Disk) : Prop := {
  sd_db : s_db s' = s_db s;
  sd_kind : s_kind s' = s_kind s;
  sd_counts : s_counts s' = s_counts s;
  sd_now : s_now s' = s_now s;
  sd_ctx : s_ctx s' = s_ctx s;
  sd_long : s_longOperations s' = s_longOperations s;
}.
#[global] Instance sameData_refl : Reflexive sameData.
Proof. by split. Qed.
Lemma Repr_same s s' a : sameData s s' → Repr s a → Repr s' a.
Proof. intros [E1 E2 E3 E4 _ _] [HV HO HC HN]. split; congruence. Qed.

(** [write] commits what was prepared, or changes nothing. *)
Lemma write_Prepared s a b a' :
  Repr s a → Prepared s a b a' → okSpec (s_kind s) a' →
  match write s b with
  | (Ok _, s') => Repr s' a' ∧ s_kind s' = s_kind s ∧ s_now s' = s_now s ∧ s_ctx s' = s_ctx s ∧
                  s_longOperations s' = s_longOperations s
  | (Err _, s') => sameData s s'
  end.
Proof.
  intros HR HP HO. unfold write. destruct (s_ctx s) as [e|] eqn:Ectx; [by split|].
  destruct (addCounts _ _ _) as [ops|e] eqn:Eops; [|by split].
  destruct (DiskPageBytes <? dumpSize ops)%Z; [by split|]. unfold engine. simpl.
  destruct (mjoin (head (s_faults s))) as [e|]; [by split|].
  pose proof (addCounts_View s a b a' ops (rp_view _ _ HR) HP Eops) as HV'.
  assert (readCounts (applyOps ops (s_db s)) =
    Ok (mkCounts (genNum (gen a' (a_active a')) GPendingCount)
                 (genNum (gen a' (a_active a')) GPoisonCount))) as Hc.
  { assert (isU64 (a_active a')) as Hu.
    { destruct (ok_active _ _ HO), (ok_next _ _ HO). unfold isU64. lia. }
    pose proof (v_meta _ _ _ HV' MActive eq_refl) as Ha. simpl in Ha.
    unfold readCounts. rewrite Ha. cbn [bind_result].
    rewrite pendingCountKey, poisonCountKey.
    rewrite !(v_count _ _ _ HV') by (done || apply (ok_active_kept _ _ HO)). done. }
  simpl. rewrite Hc. split_and!; [|done..]. split; [done|done|done|apply (rp_now _ _ HR)].
Qed.
End put.
