(* ===== verification/DiskRefine.v ===== *)
(** * The operations of the durable store

    Each operation of [checkpoint.DiskStore] on a store that represents an
    abstract state ([DiskSpec.Repr]): when it succeeds the store represents
    the state the specification names, and when it fails nothing it holds has
    changed. *)

From S2P Require Import Prelude WorkTypes DiskKeys DiskStore DiskSpec DiskBatch DiskPut.
From Stdlib Require Import Ascii.

Section refine.
Context {DC : DiskCodec} {DL : DiskCodecLaws}.

(** ** Reading the metadata *)

Lemma number_meta s a m : Repr s a → isNumber m = true → number s (metaKey m) = Ok (metaNum a m).
Proof. intros HR Hm. apply (v_meta _ _ _ (rp_view _ _ HR) m Hm). Qed.
Lemma number_active s a : Repr s a → number s "active" = Ok (a_active a).
Proof. intros HR. by apply (number_meta s a MActive). Qed.
Lemma number_staging s a : Repr s a → number s "staging" = Ok (a_staging a).
Proof. intros HR. by apply (number_meta s a MStaging). Qed.
Lemma number_sequence s a : Repr s a → number s "sequence" = Ok (a_sequence a).
Proof. intros HR. by apply (number_meta s a MSequence). Qed.
Lemma number_generation s a : Repr s a → number s "generation" = Ok (a_next a).
Proof. intros HR. by apply (number_meta s a MGeneration). Qed.
Lemma number_garbage s a : Repr s a → number s "garbage" = Ok (a_garbage a).
Proof. intros HR. by apply (number_meta s a MGarbage). Qed.

Lemma active_range kind a : okSpec kind a → isU64 (a_active a).
Proof. intros HO. destruct (ok_active _ _ HO), (ok_next _ _ HO). unfold isU64. lia. Qed.
Lemma staging_range kind a : okSpec kind a → isU64 (a_staging a).
Proof. intros HO. destruct (ok_staging _ _ HO), (ok_next _ _ HO). unfold isU64. lia. Qed.
Lemma active_gen kind a : okSpec kind a → okGenState kind (a_sequence a) (gen a (a_active a)).
Proof. intros HO. apply (ok_gens _ _ HO), (ok_active_kept _ _ HO). Qed.
Hint Resolve active_range staging_range active_gen rp_view rp_ok rp_now ok_seq ok_active_kept : disk.

Lemma nextToken_Ok t t' : isU64 t → nextToken t = Ok t' → t' = (t + 1)%Z ∧ isU64 t' ∧ (0 < t')%Z.
Proof.
  unfold nextToken, isU64, u64. intros Ht. destruct (Z.eqb_spec ((t + 1) mod 2 ^ 64) 0) as [|Hne]; [done|].
  intros [= <-]. destruct (Z.eq_dec (t + 1) (2 ^ 64)) as [E|].
  - rewrite E, Z_mod_same_full in Hne. done.
  - rewrite Z.mod_small in * by lia. lia.
Qed.
Lemma logical_Ok s key l : logical s key = Ok l → Kind key = s_kind s ∧ diskLogical key = Ok l.
Proof. unfold logical. case_bool_decide; [done|discriminate]. Qed.
Lemma logical_name s key l : logical s key = Ok l → okName (s_kind s) l.
Proof. intros [? ?]%logical_Ok. by exists key. Qed.

(** A generation whose rows are known. *)
Record usable (s : Disk) (a : Spec) (g : Z) : Prop := {
  us_view : View (s_db s) a a;
  us_range : isU64 g;
  us_kept : g ∉ a_junk a;
  us_seq : isU64 (a_sequence a);
  us_gen : okGenState (s_kind s) (a_sequence a) (gen a g);
}.
Lemma Repr_usable s a g : Repr s a → isU64 g → g ∉ a_junk a → usable s a g.
Proof. intros HR Hg HJ. split; eauto with disk. apply (ok_gens _ _ (rp_ok _ _ HR)), HJ. Qed.
Lemma active_usable s a : Repr s a → usable s a (a_active a).
Proof. intros HR. apply Repr_usable; eauto with disk. Qed.
Lemma queueWork_usable s a g b a1 l st :
  usable s a g → Prepared s a b a1 → g_work (gen a1 g) !! l = g_work (gen a g) !! l →
  okFields (stamp s st) →
  ∃ b', queueWork s b g l st = Ok b' ∧ Prepared s a b' (setWork a1 g l (Some (stamp s st))).
Proof. intros []. by apply queueWork_Prepared. Qed.
Lemma forgetWork_usable s a g b a1 l :
  usable s a g → Prepared s a b a1 → g_work (gen a1 g) !! l = g_work (gen a g) !! l →
  ∃ b', forgetWork s b g l = Ok b' ∧ Prepared s a b' (setWork a1 g l None).
Proof. intros []. by apply forgetWork_Prepared. Qed.
Lemma tokenAt_usable s a g l :
  usable s a g →
  tokenAt s (diskPrefix g "w/") l = Ok (default 0%Z (d_Token <$> g_work (gen a g) !! l)).
Proof. intros []. by apply tokenAt_work. Qed.
Lemma item_usable s a g l :
  usable s a g →
  item s g l = Ok (match g_items (gen a g) !! l with
                   | Some it => (it, true) | None => (zeroItem, false) end).
Proof. intros []. by apply item_read. Qed.
Lemma schedule_usable s a g l st :
  usable s a g → g_work (gen a g) !! l = Some st → schedule s g l (d_Token st) = Ok (readBack st).
Proof. intros []. by apply schedule_work. Qed.
Hint Resolve active_usable : disk.

(** ** Keeping states well formed *)

Lemma okSchedule_mono n n' st : (n ≤ n')%Z → okSchedule n st → okSchedule n' st.
Proof. intros Hn [? ? ?]. split; [lia|done..]. Qed.
Lemma okGenState_mono kind n n' G : (n ≤ n')%Z → okGenState kind n G → okGenState kind n' G.
Proof.
  intros Hn [H1 H2 H3]. split; [done| |].
  - intros l st Hl. destruct (H2 l st Hl). eauto using okSchedule_mono.
  - intros l t Hl. destruct (H3 l t Hl). split; [done|lia].
Qed.
Lemma okGenState_work kind n G l o :
  okGenState kind n G → (∀ st, o = Some st → okName kind l ∧ okSchedule n st) →
  okGenState kind n (mkGen (g_items G) (partial_alter (λ _, o) l (g_work G)) (g_related G)).
Proof.
  intros [H1 H2 H3] Ho. split; [done| |done]. simpl. intros l' st. simpl.
  destruct (decide (l' = l)) as [->|].
  - rewrite lookup_partial_alter_eq. apply Ho.
  - rewrite lookup_partial_alter_ne by done. apply H2.
Qed.
Lemma okGenState_related kind n G l o :
  okGenState kind n G → (∀ t, o = Some t → okRelated l ∧ (0 < t ≤ n)%Z) →
  okGenState kind n (mkGen (g_items G) (g_work G) (partial_alter (λ _, o) l (g_related G))).
Proof.
  intros [H1 H2 H3] Ho. split; [done|done|]. simpl. intros l' st. simpl.
  destruct (decide (l' = l)) as [->|].
  - rewrite lookup_partial_alter_eq. apply Ho.
  - rewrite lookup_partial_alter_ne by done. apply H3.
Qed.
Lemma okGenState_item kind n G l o :
  okGenState kind n G → (∀ it, o = Some it → okItem kind l it) →
  okGenState kind n (mkGen (partial_alter (λ _, o) l (g_items G)) (g_work G) (g_related G)).
Proof.
  intros [H1 H2 H3] Ho. split; [|done|done]. simpl. intros l' st. simpl.
  destruct (decide (l' = l)) as [->|].
  - rewrite lookup_partial_alter_eq. apply Ho.
  - rewrite lookup_partial_alter_ne by done. apply H1.
Qed.

(** A state that differs in one generation in use and in its sequence number. *)
Record oneGen (a a' : Spec) (g : Z) : Prop := {
  og_active : a_active a' = a_active a;
  og_next : a_next a' = a_next a;
  og_staging : a_staging a' = a_staging a;
  og_garbage : a_garbage a' = a_garbage a;
  og_junk : a_junk a' = a_junk a;
  og_others g' : g' ≠ g → gen a' g' = gen a g';
}.
Lemma okSpec_oneGen kind a a' g :
  okSpec kind a → oneGen a a' g → (g ≤ a_next a)%Z → (a_sequence a ≤ a_sequence a')%Z →
  isU64 (a_sequence a') → (g ∉ a_junk a → okGenState kind (a_sequence a') (gen a' g)) →
  okSpec kind a'.
Proof.
  intros [O1 O2 O3 O4 O5 O6 O7 O8 O9 O10] [E1 E2 E3 E4 E5 E6] Hg Hn Hu HG.
  split; rewrite ?E1, ?E2, ?E3, ?E4, ?E5; try done.
  - intros g' Hg'. destruct (O9 g' Hg'). split; [done|]. rewrite E6 by lia. done.
  - intros g' Hg'. destruct (decide (g' = g)) as [->|]; [by apply HG|].
    rewrite E6 by done. eauto using okGenState_mono.
Qed.

Lemma oneGen_setGen a g G : oneGen a (setGen a g G) g.
Proof. split; try done. intros. by rewrite gen_setGen_ne. Qed.
Lemma oneGen_trans a a' a'' g : oneGen a a' g → oneGen a' a'' g → oneGen a a'' g.
Proof.
  intros [? ? ? ? ? H1] [? ? ? ? ? H2]. split; try congruence.
  intros g' Hne. by rewrite H2, H1.
Qed.
Lemma oneGen_sequence a a' g n : oneGen a a' g → oneGen a (setMeta a' MSequence n) g.
Proof. intros []. by split. Qed.
Lemma oneGen_refl a g : oneGen a a g.
Proof. by split. Qed.

(** ** Work *)

(** The environment of a call is the same when it returns. *)
Record sameEnv (s s' : Disk) : Prop := {
  se_kind : s_kind s' = s_kind s;
  se_now : s_now s' = s_now s;
  se_ctx : s_ctx s' = s_ctx s;
  se_long : s_longOperations s' = s_longOperations s;
}.
#[global] Instance sameEnv_refl : Reflexive sameEnv.
Proof. by split. Qed.
#[global] Instance sameEnv_trans : Transitive sameEnv.
Proof. intros ??? [] []. split; congruence. Qed.
Lemma sameData_env s s' : sameData s s' → sameEnv s s'.
Proof. by intros []. Qed.

(** The outcome of an operation that commits at most one batch. *)
Definition commits {A} (s : Disk) (P : A → Spec → Prop) (out : result Error A * Disk) : Prop :=
  match out with
  | (Ok r, s') => sameEnv s s' ∧ ∃ a', P r a' ∧ Repr s' a'
  | (Err _, s') => sameData s s'
  end.

Lemma commits_write s a b a' :
  Repr s a → Prepared s a b a' → okSpec (s_kind s) a' →
  commits s (λ _ a1, a1 = a') (write s b).
Proof.
  intros HR HP HO. pose proof (write_Prepared s a b a' HR HP HO) as H.
  unfold commits. destruct (write s b) as [[[]|e] s']; [|done].
  destruct H as (? & ? & ? & ? & ?). split; [by split|eauto].
Qed.
Lemma commits_acked s (P : bool → Spec → Prop) out :
  commits s (λ _, P true) out → commits s P (acked out).
Proof. by destruct out as [[[]|e] s']. Qed.
Lemma commits_mono {A} s (P Q : A → Spec → Prop) out :
  (∀ r a, P r a → Q r a) → commits s P out → commits s Q out.
Proof. intros HPQ. destruct out as [[r|e] s']; simpl; [|done]. naive_solver. Qed.

(** Live work is queued under a fresh token. *)
Definition specQueue (s : Disk) (a : Spec) (g : Z) (l : string) (st : DiskSchedule) : Spec :=
  setWork a g l (Some (stamp s st)).
Definition specEnqueue (s : Disk) (a : Spec) (l : string) : Spec :=
  let t := (a_sequence a + 1)%Z in
  setMeta (specQueue s a (a_active a) l (mkSchedule t 0 0 0 "" 0)) MSequence t.

Lemma stamp_due s a : Repr s a → (0 ≤ s_now s / millisecond < 2 ^ 63)%Z.
Proof.
  intros HR. pose proof (rp_now _ _ HR). unfold millisecond.
  split; [apply Z.div_pos; lia|apply Z.div_lt_upper_bound; lia].
Qed.
Lemma stamp_ok s a n st :
  Repr s a → okSchedule n st → okSchedule n (stamp s st).
Proof.
  intros HR [H1 H2 H3]. pose proof (stamp_due s a HR). unfold stamp.
  destruct (_ && _); [|done]. by split.
Qed.
Lemma okSchedule_fields n st : isU64 n → okSchedule n st → okFields st.
Proof. intros Hn [H1 H2 H3]. unfold okFields, isU64 in *. lia. Qed.

Theorem Enqueue_spec s a key :
  Repr s a →
  commits s (λ _ a', ∃ l, logical s key = Ok l ∧ a' = specEnqueue s a l) (Enqueue s key).
Proof.
  intros HR. unfold Enqueue. destruct (logical s key) as [l|e] eqn:El; [|done].
  rewrite (number_active s a HR), (number_sequence s a HR).
  destruct (nextToken (a_sequence a)) as [t|e] eqn:Et; [|done].
  apply nextToken_Ok in Et as (-> & Hu & Hpos); [|eauto with disk].
  assert (okSchedule (a_sequence a + 1) (stamp s (mkSchedule (a_sequence a + 1) 0 0 0 "" 0))) as Hst.
  { eapply stamp_ok; [exact HR|]. split; simpl; lia. }
  destruct (queueWork_usable s a (a_active a) newDiskBatch a l
    (mkSchedule (a_sequence a + 1) 0 0 0 "" 0)) as (b & Eb & HP);
    [eauto with disk|apply Prepared_start; eauto with disk|done|eauto using okSchedule_fields|].
  rewrite Eb. eapply commits_mono; [|eapply commits_write; [exact HR| |]].
  - intros _ a1 ->. exists l. split; [done|reflexivity].
  - by apply (putMeta_Prepared s a b _ MSequence).
  - eapply (okSpec_oneGen _ a _ (a_active a)); [eauto with disk| | | | |].
    + apply oneGen_sequence, oneGen_setGen.
    + apply (ok_active _ _ (rp_ok _ _ HR)).
    + simpl. lia.
    + done.
    + intros _. unfold gen at 1. simpl. rewrite lookup_insert_eq. simpl.
      apply okGenState_work; [eapply okGenState_mono; [|eauto with disk]; lia|].
      intros st [= <-]. split; [by eapply logical_name|done].
Qed.

(** The active work under a name has the token. *)
Definition holdsToken (a : Spec) (l : string) (t : Z) : Prop :=
  ∃ st, g_work (gen a (a_active a)) !! l = Some st ∧ d_Token st = t.
Lemma holdsToken_iff a l t :
  t ≠ 0%Z → default 0%Z (d_Token <$> g_work (gen a (a_active a)) !! l) = t ↔ holdsToken a l t.
Proof.
  intros Ht. unfold holdsToken. destruct (g_work (gen a (a_active a)) !! l) as [st|]; simpl.
  - naive_solver.
  - split; [done|naive_solver].
Qed.

(** Setting or clearing one piece of active work keeps the state well formed. *)
Lemma okSpec_setWork kind a l o :
  okSpec kind a → (∀ st, o = Some st → okName kind l ∧ okSchedule (a_sequence a) st) →
  okSpec kind (setWork a (a_active a) l o).
Proof.
  intros HO Ho. eapply (okSpec_oneGen _ a _ (a_active a)); [done|apply oneGen_setGen| |done| |].
  - apply (ok_active _ _ HO).
  - apply (ok_seq _ _ HO).
  - intros _. unfold setWork. rewrite gen_setGen. apply okGenState_work; [exact (active_gen _ _ HO)|exact Ho].
Qed.

Theorem Acknowledge_spec s a key t :
  Repr s a →
  commits s (λ r a', ∃ l, logical s key = Ok l ∧
    if r : bool then holdsToken a l t ∧ a' = setWork a (a_active a) l None
    else ¬ holdsToken a l t ∧ a' = a) (Acknowledge s key t).
Proof.
  intros HR. unfold Acknowledge. destruct (Z.eqb_spec t 0) as [|Ht]; [done|].
  destruct (logical s key) as [l|e] eqn:El; [|done].
  rewrite (number_active s a HR), (tokenAt_usable s a) by eauto with disk.
  pose proof (holdsToken_iff a l t Ht) as Hiff.
  destruct (Z.eqb_spec (default 0%Z (d_Token <$> g_work (gen a (a_active a)) !! l)) t) as [E|E];
    rewrite Hiff in E; simpl negb.
  - destruct (forgetWork_usable s a (a_active a) newDiskBatch a l) as (b & Eb & HP);
      [eauto with disk|apply Prepared_start; eauto with disk|done|]. rewrite Eb.
    apply commits_acked. eapply commits_mono; [|eapply commits_write; [exact HR|exact HP|]].
    + intros _ a1 ->. eauto.
    + apply okSpec_setWork; [eauto with disk|done].
  - split; [done|]. exists a. eauto.
Qed.

(** The schedule [DeferWork] stores. *)
Definition deferred (s : Disk) (t delay : Z) (failure : string) (attempts : Z) : DiskSchedule :=
  let due := ((s_now s + delay) / millisecond)%Z in
  if bool_decide (failure = "") then mkSchedule t due 0 attempts "" 0
  else mkSchedule t due 0 attempts (clipError failure) (s_now s).

Theorem DeferWork_spec s a key t delay failure attempts :
  Repr s a → (delay < 2 ^ 63)%Z →
  commits s (λ r a', ∃ l, logical s key = Ok l ∧
    if r : bool then holdsToken a l t ∧
      a' = setWork a (a_active a) l (Some (stamp s (deferred s t delay failure attempts)))
    else ¬ holdsToken a l t ∧ a' = a) (DeferWork s key t delay failure attempts).
Proof.
  intros HR Hd. unfold DeferWork. destruct (_ || _) eqn:Eg; [done|].
  apply orb_false_iff in Eg as [[Ht%Z.eqb_neq Hdl%Z.ltb_ge]%orb_false_iff Ha%Z.ltb_ge].
  destruct (logical s key) as [l|e] eqn:El; [|done].
  rewrite (number_active s a HR), (tokenAt_usable s a) by eauto with disk.
  pose proof (holdsToken_iff a l t Ht) as Hiff.
  destruct (Z.eqb_spec (default 0%Z (d_Token <$> g_work (gen a (a_active a)) !! l)) t) as [E|E];
    rewrite Hiff in E; simpl negb; [|split; [done|]; exists a; by eauto].
  fold (deferred s t delay failure attempts).
  assert (okSchedule (a_sequence a) (stamp s (deferred s t delay failure attempts))) as Hst.
  { eapply stamp_ok; [exact HR|]. destruct E as (st & Est & <-).
    destruct (og_work _ _ _ (active_gen _ _ (rp_ok _ _ HR)) l st Est) as [_ [Htok _ _]].
    pose proof (rp_now _ _ HR).
    assert (0 ≤ (s_now s + delay) / millisecond < 2 ^ 63)%Z.
    { unfold millisecond. split; [apply Z.div_pos; lia|apply Z.div_lt_upper_bound; lia]. }
    unfold deferred. case_bool_decide; split; done || (simpl; lia). }
  destruct (queueWork_usable s a (a_active a) newDiskBatch a l (deferred s t delay failure attempts))
    as (b & Eb & HP);
    [eauto with disk|apply Prepared_start; eauto with disk|done|eauto using okSchedule_fields with disk|].
  rewrite Eb. apply commits_acked. eapply commits_mono; [|eapply commits_write; [exact HR|exact HP|]].
  - intros _ a1 ->. eauto.
  - apply okSpec_setWork; [eauto with disk|]. intros st [= <-].
    split; [by eapply logical_name|done].
Qed.

(** Owners to reconcile are acknowledged by their token too. *)
Theorem AcknowledgeRelated_spec s a key t :
  Repr s a →
  commits s (λ r a', let g := a_active a in let l := relatedLogical key in
    if r : bool then g_related (gen a g) !! l = Some t ∧ a' = setRelated a g l None
    else g_related (gen a g) !! l ≠ Some t ∧ a' = a) (AcknowledgeRelated s key t).
Proof.
  intros HR. unfold AcknowledgeRelated. destruct (s_ctx s); [done|].
  destruct (Z.eqb_spec t 0) as [|Ht]; [done|].
  destruct (diskLogical key) as [l|e] eqn:El; [|done].
  assert (Kind key +:+ String NUL l = relatedLogical key) as ->.
  { apply diskLogical_Ok in El as [-> _]. done. }
  rewrite (number_active s a HR). destruct (active_usable s a HR) as [HV Hu HJ Hs HG].
  assert (tokenAt s (diskPrefix (a_active a) "r/") (relatedLogical key) =
    Ok (default 0%Z (g_related (gen a (a_active a)) !! relatedLogical key))) as ->.
  { unfold tokenAt. rewrite relatedKey, (read_row s a (a_active a)) by done. simpl.
    destruct (g_related _ !! _) as [t'|] eqn:E; [|done]. simpl. rewrite readNumber_diskNumber; [done|].
    destruct (og_related _ _ _ HG _ _ E) as [_ ?]. unfold isU64 in *. lia. }
  destruct (Z.eqb_spec (default 0%Z (g_related (gen a (a_active a)) !! relatedLogical key)) t)
    as [E|E]; simpl negb.
  - destruct (g_related _ !! _) as [t'|] eqn:Et; simpl in E; [subst t'|done].
    apply commits_acked. eapply commits_mono; [|eapply commits_write; [exact HR| |]].
    + intros _ a1 ->. split; [done|reflexivity].
    + eapply (setRelated_Prepared s a (a_active a)); [done|done|by apply Prepared_start|done|].
      simpl. by rewrite relatedKey.
    + eapply (okSpec_oneGen _ a _ (a_active a)); [eauto with disk|apply oneGen_setGen| |done|done|].
      * apply (ok_active _ _ (rp_ok _ _ HR)).
      * intros _. unfold setRelated. rewrite gen_setGen. by apply okGenState_related.
  - split; [done|]. exists a. split; [|done]. split; [|done].
    intros Et. rewrite Et in E. done.
Qed.

(** ** The watch stream *)

Lemma okItem_intro s it l data :
  logical s (i_Key it) = Ok l → diskItem it = Ok data → storable it → okItem (s_kind s) l it.
Proof.
  intros [? ?]%logical_Ok Hd ?. split; try done.
  by destruct (diskItem_Ok it data Hd) as [-> _].
Qed.
Lemma okItem_related kind l it :
  okItem kind l it → Forall (λ key, ∃ l, diskLogical key = Ok l) (i_Related it).
Proof. intros [_ _ Hd _]. by apply diskItem_Ok in Hd as (_ & _ & _ & _ & _ & ?). Qed.

Lemma relateAll_ok kind n g a keys t :
  okGenState kind n (gen a g) → Forall (λ key, ∃ l, diskLogical key = Ok l) keys → (0 < t ≤ n)%Z →
  okGenState kind n (gen (relateAll g a keys t) g) ∧ oneGen a (relateAll g a keys t) g ∧
  a_sequence (relateAll g a keys t) = a_sequence a.
Proof.
  intros HG Hk Ht. revert a HG. induction Hk as [|key keys [l Hl] Hk IH]; intros a HG.
  - split; [done|]. split; [apply oneGen_refl|done].
  - destruct (IH (setRelated a g (relatedLogical key) (Some t))) as (H1 & H2 & H3).
    + unfold setRelated. rewrite gen_setGen. apply okGenState_related; [done|].
      intros t' [= <-]. split; [by exists key, l|done].
    + split_and!; [exact H1| |exact H3]. eapply oneGen_trans; [apply oneGen_setGen|exact H2].
Qed.
(** [put] keeps a generation well formed. *)
Lemma specPut_ok s kind n a g l new t p :
  okGenState kind n (gen a g) → okName kind l → (∀ it, new = Some it → okItem kind l it) →
  (0 < t ≤ n)%Z →
  (∀ q, p = Some q → okSchedule n (stamp s (mkSchedule t 0 q 0 "" 0))) →
  okGenState kind n (gen (specPut s a g l new t p) g) ∧ oneGen a (specPut s a g l new t p) g ∧
  a_sequence (specPut s a g l new t p) = a_sequence a.
Proof.
  intros HG Hl Hnew Ht Hp. unfold specPut.
  set (a1 := setItem a g l new). set (keys := putRelated _ new).
  assert (okGenState kind n (gen a1 g)) as HG1.
  { unfold a1, setItem. rewrite gen_setGen. by apply okGenState_item. }
  assert (Forall (λ key, ∃ l, diskLogical key = Ok l) keys) as Hkeys.
  { assert (Forall (λ key, ∃ l, diskLogical key = Ok l)
      (i_Related (itemOr (g_items (gen a g) !! l)))) as Hold.
    { destruct (g_items (gen a g) !! l) as [ot|] eqn:E; [|constructor].
      apply (okItem_related kind l), (og_items _ _ _ HG l ot E). }
    unfold keys, putRelated. destruct new as [it|]; [|done].
    destruct (_ || _); [|constructor]. apply Forall_app. split; [done|].
    by eapply okItem_related, Hnew. }
  destruct (relateAll_ok kind n g a1 keys t HG1 Hkeys Ht) as (H1 & H2 & H3).
  assert (oneGen a (relateAll g a1 keys t) g) as H2'
    by (eapply oneGen_trans; [apply oneGen_setGen|exact H2]).
  destruct p as [q|]; [|by split_and!]. split_and!; [| |exact H3].
  - unfold setWork. rewrite gen_setGen. apply okGenState_work; [done|].
    intros st [= <-]. split; [done|by apply Hp].
  - eapply oneGen_trans; [exact H2'|apply oneGen_setGen].
Qed.

(** An event of the watch stream: the item, the work it owes and the cursor
    change together. *)
Definition specApply (s : Disk) (a : Spec) (l : string) (new : option DiskItem) (enqueue : bool)
    (cursor : string) : Spec :=
  let t := (a_sequence a + 1)%Z in
  setCursor (setMeta (specPut s a (a_active a) l new t (if enqueue then Some 0%Z else None))
               MSequence t) cursor.

Lemma okSpec_setCursor kind a cursor : okSpec kind a → okSpec kind (setCursor a cursor).
Proof. intros []. by split. Qed.

Theorem Apply_spec s a it deleted enqueue cursor :
  Repr s a → (deleted = false → storable it) →
  commits s (λ _ a', a_staging a = 0%Z ∧ a_active a ≠ 0%Z ∧
    ∃ l, logical s (i_Key it) = Ok l ∧
      a' = specApply s a l (if deleted then None else Some it) enqueue cursor)
    (Apply s it deleted enqueue cursor).
Proof.
  intros HR Hst. unfold Apply. destruct (badCursor cursor); [done|].
  rewrite (number_staging s a HR). destruct (Z.eqb_spec (a_staging a) 0) as [Es|]; [|done]. simpl negb.
  rewrite (number_active s a HR). destruct (Z.eqb_spec (a_active a) 0) as [|Hact]; [done|].
  rewrite (number_sequence s a HR).
  destruct (nextToken (a_sequence a)) as [t|e] eqn:Et; [|done].
  apply nextToken_Ok in Et as (-> & Hu & Hpos); [|eauto with disk].
  destruct (if deleted then Ok "" else diskItem it) as [data|e] eqn:Ed; [|done].
  destruct (logical s (i_Key it)) as [l|e] eqn:El; [|by unfold put; rewrite El].
  destruct (active_usable s a HR) as [HV Hr HJ Hs HG].
  destruct (put_Prepared s a (a_active a) HV Hr HJ Hs HG newDiskBatch a it l data
    (a_sequence a + 1) deleted enqueue) as (b & Eb & HP);
    [by apply Prepared_start|done..| |done|eauto with disk|].
  { by intros ->. }
  rewrite Eb. rewrite Es, (proj2 (Z.eqb_neq 0 (a_active a))) in HP by done.
  destruct (specPut_ok s (s_kind s) (a_sequence a + 1) a (a_active a) l
    (if deleted then None else Some it) (a_sequence a + 1)
    (if enqueue then Some 0%Z else None)) as (H1 & H2 & H3).
  { eapply okGenState_mono; [|exact HG]. lia. }
  { by eapply logical_name. }
  { intros it' E. destruct deleted; [done|]. injection E as <-. by eapply okItem_intro; [|exact Ed|apply Hst]. }
  { lia. }
  { intros q Hq. eapply stamp_ok; [exact HR|]. destruct enqueue; simplify_eq. split; simpl; lia. }
  eapply commits_mono; [|eapply commits_write; [exact HR| |]].
  - intros _ a1 ->. split_and!; [done..|]. exists l. split; [done|reflexivity].
  - apply putCursor_Prepared. by apply (putMeta_Prepared s a b _ MSequence).
  - apply okSpec_setCursor. eapply (okSpec_oneGen _ a _ (a_active a)); [eauto with disk| | | | |].
    + by apply oneGen_sequence.
    + apply (ok_active _ _ (rp_ok _ _ HR)).
    + simpl. lia.
    + done.
    + intros _. exact H1.
Qed.

Theorem AdvanceCursor_spec s a cursor :
  Repr s a →
  commits s (λ _ a', a_staging a = 0%Z ∧ a_active a ≠ 0%Z ∧ a' = setCursor a cursor)
    (AdvanceCursor s cursor).
Proof.
  intros HR. unfold AdvanceCursor. destruct (badCursor cursor); [done|].
  rewrite (number_staging s a HR). destruct (Z.eqb_spec (a_staging a) 0) as [Es|]; [|done]. simpl negb.
  rewrite (number_active s a HR). destruct (Z.eqb_spec (a_active a) 0) as [|Hact]; [done|].
  eapply commits_mono; [|eapply commits_write; [exact HR| |]].
  - intros _ a1 ->. split_and!; [done..|reflexivity].
  - apply putCursor_Prepared, Prepared_start. eauto with disk.
  - apply okSpec_setCursor. eauto with disk.
Qed.

(** ** Pages of a snapshot *)

(** The name an item is stored under. *)
Definition nameOf (it : DiskItem) : string :=
  match diskLogical (i_Key it) with Ok l => l | Err _ => "" end.
Fixpoint specPage (s : Disk) (a : Spec) (g : Z) (items : list DiskItem) (t : Z) : Spec :=
  match items with
  | [] => a
  | it :: items =>
      specPage s (specPut s a g (nameOf it) (Some it) (t + 1) (Some 1%Z)) g items (t + 1)
  end.

Lemma specPut_elsewhere s a g l new t p l' :
  l' ≠ l →
  g_items (gen (specPut s a g l new t p) g) !! l' = g_items (gen a g) !! l' ∧
  g_work (gen (specPut s a g l new t p) g) !! l' = g_work (gen a g) !! l'.
Proof.
  intros Hne. unfold specPut. set (keys := putRelated _ new).
  destruct (gen_relateAll g (setItem a g l new) keys t) as [E1 E2].
  destruct (gen_setItem a g l new) as (E3 & _ & E4).
  destruct p as [q|].
  - destruct (gen_setWork (relateAll g (setItem a g l new) keys t) g l
      (Some (stamp s (mkSchedule t 0 q 0 "" 0)))) as (-> & _ & ->).
    rewrite lookup_partial_alter_ne, E1, E2, E3, E4, lookup_partial_alter_ne by done. done.
  - rewrite E1, E2, E3, E4, lookup_partial_alter_ne by done. done.
Qed.

Section page.
Context (s : Disk) (a : Spec) (g : Z).
Hypothesis HR : Repr s a.
Hypothesis Hg : g = a_staging a.
Hypothesis Hg0 : g ≠ 0%Z.
Hypothesis HJ : g ∉ a_junk a.

(** The names a page has not reached yet. *)
Definition untouched (seen : gset WorkItemKey) (a1 : Spec) : Prop :=
  ∀ l, (∀ key, key ∈ seen → diskLogical key ≠ Ok l) →
    g_items (gen a1 g) !! l = g_items (gen a g) !! l ∧
    g_work (gen a1 g) !! l = g_work (gen a g) !! l.

Lemma putPage_Prepared items seen t b a1 t' b' :
  Prepared s a b a1 → untouched seen a1 → (∀ key, key ∈ seen → Kind key = s_kind s) →
  okGenState (s_kind s) t (gen a1 g) → oneGen a a1 g → a_sequence a1 = a_sequence a →
  isU64 t → (a_sequence a ≤ t)%Z → Forall storable items →
  putPage s g items seen t b = Ok (t', b') →
  let a2 := specPage s a1 g items t in
  Prepared s a b' a2 ∧ t' = (t + Z.of_nat (length items))%Z ∧ isU64 t' ∧
  okGenState (s_kind s) t' (gen a2 g) ∧ oneGen a a2 g ∧ a_sequence a2 = a_sequence a.
Proof.
  revert seen t b a1. induction items as [|it items IH]; intros seen t b a1 HP Hun Hkind HG H1 Hs1
    Ht Hle Hst; simpl.
  - intros [= <- <-]. rewrite Z.add_0_r. done.
  - case_bool_decide as Hseen; [done|].
    destruct (diskItem it) as [data|e] eqn:Ed; [|done]. cbn [bind_result].
    destruct (nextToken t) as [t1|e] eqn:Et; [|done]. cbn [bind_result].
    apply nextToken_Ok in Et as (-> & Hu & Hpos); [|done].
    apply Forall_cons in Hst as [Hst1 Hst].
    destruct (logical s (i_Key it)) as [l|e] eqn:El; [|by unfold put; rewrite El].
    pose proof (logical_Ok s _ l El) as [Hk Hl].
    assert (∀ key, key ∈ seen → diskLogical key ≠ Ok l) as Hfresh.
    { intros key Hin E. assert (key = i_Key it) as ->; [|done].
      eapply diskLogical_inj; [|exact E|exact Hl]. rewrite Hk. by apply Hkind. }
    destruct (Hun l Hfresh) as [Hi Hw].
    destruct (Repr_usable s a g HR) as [HV Hr _ Hsq HGa]; [rewrite Hg; eauto with disk|done|].
    destruct (put_Prepared s a g HV Hr HJ Hsq HGa b a1 it l data (t + 1) false true)
      as (b1 & Eb & HP1); [done..|eauto with disk|]. rewrite Eb. cbn [bind_result].
    destruct (DiskPageBytes <? dumpSize (b_ops b1))%Z; [done|].
    rewrite <- Hg, Z.eqb_refl in HP1.
    assert (nameOf it = l) as En by (unfold nameOf; by rewrite Hl).
    destruct (specPut_ok s (s_kind s) (t + 1) a1 g l (Some it) (t + 1) (Some 1%Z)) as (G1 & G2 & G3).
    { eapply okGenState_mono; [|exact HG]. lia. }
    { by eapply logical_name. }
    { intros it' [= <-]. by eapply okItem_intro. }
    { pose proof (ok_seq _ _ (rp_ok _ _ HR)). unfold isU64 in *. lia. }
    { intros q [= <-]. eapply stamp_ok; [exact HR|]. split; simpl; lia. }
    intros Hrest. rewrite En.
    destruct (IH ({[i_Key it]} ∪ seen) (t + 1)%Z b1 (specPut s a1 g l (Some it) (t + 1) (Some 1%Z)))
      as (R1 & R2 & R3); try done.
    + intros l' Hl'. assert (l' ≠ l) as Hne by (intros ->; eapply (Hl' (i_Key it)); [set_solver|done]).
      destruct (specPut_elsewhere s a1 g l (Some it) (t + 1) (Some 1%Z) l' Hne) as [-> ->].
      apply Hun. intros key Hin. apply Hl'. set_solver.
    + intros key [->%elem_of_singleton|]%elem_of_union; [done|by apply Hkind].
    + by eapply oneGen_trans.
    + congruence.
    + lia.
    + split; [done|]. split; [lia|done].
Qed.
End page.

Theorem PutSnapshotPage_spec s a g items :
  Repr s a → (a_staging a = g → g ∉ a_junk a) → Forall storable items →
  commits s (λ _ a', a_staging a = g ∧ g ≠ 0%Z ∧
    a' = setMeta (specPage s a g items (a_sequence a)) MSequence
           (a_sequence a + Z.of_nat (length items)))
    (PutSnapshotPage s g items).
Proof.
  intros HR HJ Hst. unfold PutSnapshotPage. destruct (_ || _); [done|].
  rewrite (number_staging s a HR). destruct (Z.eqb_spec (a_staging a) 0) as [|H0]; [done|].
  destruct (Z.eqb_spec (a_staging a) g) as [Eg|]; [|done]. simpl orb. cbn iota.
  rewrite (number_sequence s a HR).
  destruct (putPage s g items ∅ (a_sequence a) newDiskBatch) as [[t b]|e] eqn:Ep; [|done].
  assert (g ∉ a_junk a) as HJ' by auto. assert (g ≠ 0%Z) as Hg0 by congruence.
  destruct (Repr_usable s a g HR) as [HV Hr _ Hsq HG]; [rewrite <- Eg; eauto with disk|done|].
  destruct (putPage_Prepared s a g HR (eq_sym Eg) Hg0 HJ' items ∅ (a_sequence a) newDiskBatch a t b)
    as (P1 & P2 & P3 & P4 & P5 & P6); try done.
  { by apply Prepared_start. }
  eapply commits_mono; [|eapply commits_write; [exact HR| |]].
  - intros _ a1 ->. split_and!; [done..|]. rewrite <- P2. reflexivity.
  - by apply (putMeta_Prepared s a b _ MSequence).
  - eapply (okSpec_oneGen _ a _ g); [eauto with disk| | | | |].
    + by apply oneGen_sequence.
    + rewrite <- Eg. apply (ok_staging _ _ (rp_ok _ _ HR)).
    + simpl. lia.
    + done.
    + intros _. exact P4.
Qed.
End refine.
