(* ===== verification/DiskScan.v ===== *)
(** * Scans of the durable store

    A page of [scan] is the next part of the sorted rows under a prefix, so a
    loop over pages visits every row once and ends: the deletion of a
    generation removes all its rows. *)

From S2P Require Import Prelude WorkTypes DiskKeys DiskStore DiskSpec DiskBatch DiskPut.
From S2P Require Import DiskRefine.
From stdpp Require Import sorting.
From Stdlib Require Import Ascii.

(** ** Rows under a prefix *)

Lemma prefix_app p t : String.prefix p (p +:+ t) = true.
Proof.
  induction p as [|c p IH]; [by destruct t|]. rewrite str_app_cons. simpl.
  by destruct (ascii_dec c c).
Qed.
Lemma prefix_true p k : String.prefix p k = true → ∃ t, k = p +:+ t.
Proof.
  revert k. induction p as [|c p IH]; intros k; [by exists k|].
  destruct k as [|d k]; simpl; [done|]. destruct (ascii_dec c d) as [->|]; [|done].
  intros [t ->]%IH. by exists t.
Qed.
Lemma substring_all t : String.substring 0 (String.length t) t = t.
Proof. induction t as [|c t IH]; simpl; congruence. Qed.
Lemma substring_app p t :
  String.substring (String.length p) (String.length (p +:+ t) - String.length p) (p +:+ t) = t.
Proof.
  induction p as [|c p IH]; [simpl; rewrite Nat.sub_0_r; apply substring_all|].
  rewrite str_app_cons. simpl. exact IH.
Qed.
Lemma stripPrefix_Some prefix k v k' v' :
  stripPrefix prefix (k, v) = Some (k', v') ↔ k = prefix +:+ k' ∧ v = v'.
Proof.
  unfold stripPrefix. simpl. split.
  - destruct (String.prefix prefix k) eqn:E; [|done]. apply prefix_true in E as [t ->].
    rewrite substring_app. by intros [= -> ->].
  - intros [-> ->]. by rewrite prefix_app, substring_app.
Qed.

#[global] Instance rowBefore_total : Total rowBefore.
Proof. intros a b. unfold rowBefore. apply String.le_total. Qed.
#[global] Instance rowBefore_trans : Transitive rowBefore.
Proof. intros a b c. unfold rowBefore. apply transitivity. Qed.

Lemma omap_cons {A B} (f : A → option B) x l :
  omap f (x :: l) = match f x with Some y => y :: omap f l | None => omap f l end.
Proof. done. Qed.

Lemma prefixRows_elem db prefix k v :
  (k, v) ∈ prefixRows db prefix ↔ db !! (prefix +:+ k) = Some v.
Proof.
  unfold prefixRows. rewrite merge_sort_Permutation, list_elem_of_omap. split.
  - intros ([k' v'] & Hin & E). apply elem_of_map_to_list in Hin.
    apply stripPrefix_Some in E as [-> ->]. done.
  - intros H. exists (prefix +:+ k, v). rewrite elem_of_map_to_list, stripPrefix_Some. done.
Qed.
Lemma prefixRows_length db prefix : length (prefixRows db prefix) ≤ size db.
Proof.
  unfold prefixRows. rewrite (Permutation_length (merge_sort_Permutation _ _)).
  rewrite <- length_map_to_list. generalize (map_to_list db). intros l.
  induction l as [|x l IH]; [done|]. rewrite omap_cons.
  destruct (stripPrefix prefix x); cbn [length]; lia.
Qed.

(** Strictly sorted by key. *)
Definition rowLt (a b : string * string) : Prop := String.le a.1 b.1 ∧ a.1 ≠ b.1.
Lemma omap_strip_NoDup prefix (l : list (string * string)) :
  NoDup l.*1 → NoDup (omap (stripPrefix prefix) l).*1.
Proof.
  induction l as [|[k v] l IH]; [constructor|]. intros [Hk Hl]%NoDup_cons. rewrite omap_cons.
  destruct (stripPrefix prefix (k, v)) as [[k' v']|] eqn:E; [|by apply IH].
  apply stripPrefix_Some in E as [-> ->]. simpl. apply NoDup_cons. split; [|by apply IH].
  intros ([k2 v2] & -> & ([k3 v3] & Hin & E)%list_elem_of_omap)%list_elem_of_fmap.
  apply stripPrefix_Some in E as [-> ->]. apply Hk. apply list_elem_of_fmap.
  eexists. split; [|exact Hin]. done.
Qed.
Lemma prefixRows_sorted db prefix : StronglySorted rowLt (prefixRows db prefix).
Proof.
  unfold prefixRows. set (l := omap (stripPrefix prefix) (map_to_list db)).
  assert (NoDup (merge_sort rowBefore l).*1) as Hnd.
  { rewrite merge_sort_Permutation. apply omap_strip_NoDup, NoDup_fst_map_to_list. }
  pose proof (StronglySorted_merge_sort rowBefore l) as Hs. revert Hs Hnd.
  generalize (merge_sort rowBefore l). clear l. intros l Hs Hnd. induction Hs as [|x xs Hs IH Hx]; [constructor|].
  cbn in Hnd. apply NoDup_cons in Hnd as [Hx' Hnd]. constructor; [by apply IH|].
  rewrite Forall_forall in *. intros y Hy. split; [by apply Hx|].
  intros E. apply Hx'. rewrite E. apply list_elem_of_fmap. eauto.
Qed.

(** ** Pages *)

(** The rows a scan has yet to visit. *)
Definition isLater (after : string) (kv : string * string) : Prop :=
  after = "" ∨ (String.le after kv.1 ∧ after ≠ kv.1).
#[global] Instance isLater_dec after kv : Decision (isLater after kv).
Proof. unfold isLater. apply _. Defined.
Definition later (after : string) (rows : list (string * string)) : list (string * string) :=
  filter (isLater after) rows.
Lemma later_start rows : later "" rows = rows.
Proof. apply filter_all. apply Forall_forall. intros. by left. Qed.

Lemma scanPage_prefix after limit size rows page :
  scanPage after limit size rows = Ok page →
  ∃ rest, filter (λ kv, ¬ (after ≠ "" ∧ kv.1 = after)) rows = page ++ rest ∧
    (page = [] → (limit ≠ 0)%Z → size = 0%Z → rest = []).
Proof.
  revert limit size page. induction rows as [|[k v] rows IH]; intros limit size page; simpl.
  - intros [= <-]. by exists [].
  - destruct (negb (bool_decide (after = "")) && bool_decide (k = after)) eqn:Es.
    + apply andb_true_iff in Es as [E1%negb_true_iff%bool_decide_eq_false E2%bool_decide_eq_true].
      intros H. rewrite filter_cons_False by (simpl; tauto). by apply IH.
    + assert (¬ (after ≠ "" ∧ k = after)) as Hk.
      { intros [H1 H2]. by rewrite bool_decide_eq_false_2, bool_decide_eq_true_2 in Es by done. }
      rewrite filter_cons_True by done.
      destruct (Z.ltb_spec DiskPageBytes (len k + len v)) as [|Hn]; [done|].
      destruct (_ || _) eqn:Eb.
      * intros [= <-]. eexists. split; [reflexivity|]. intros _ Hl ->.
        apply orb_true_iff in Eb as [E%Z.eqb_eq|E%Z.ltb_lt]; [done|lia].
      * destruct (scanPage after (limit - 1) (size + (len k + len v)) rows) as [p|e] eqn:Ep; simpl; [|done].
        intros [= <-]. destruct (IH _ _ _ Ep) as (rest & -> & _). by exists rest.
Qed.

Lemma scan_later s prefix after page :
  scan s prefix after DiskPageItems = Ok page →
  ∃ rest, later after (prefixRows (s_db s) prefix) = page ++ rest ∧ (page = [] → rest = []).
Proof.
  unfold scan. destruct (s_ctx s); [done|]. destruct (_ || _); [done|].
  intros (rest & E & Hr)%scanPage_prefix. exists rest. split; [|intros; by apply Hr].
  rewrite <- E. unfold later. rewrite list_filter_filter. apply list_filter_iff.
  intros [k v]. unfold isLater. simpl. split.
  - intros [->|[H1 H2]]; [split; [naive_solver|]|naive_solver].
    unfold String.le. by destruct k.
  - intros [H1 H2]. destruct (decide (after = "")); [by left|right]. naive_solver.
Qed.

Lemma later_sorted after rows : StronglySorted rowLt rows → StronglySorted rowLt (later after rows).
Proof.
  unfold later. induction 1 as [|x xs Hs IH Hx]; [constructor|].
  destruct (decide (isLater after x)).
  - rewrite filter_cons_True by done. constructor; [done|].
    rewrite Forall_forall in *. intros y [_ Hy]%list_elem_of_filter. auto.
  - by rewrite filter_cons_False.
Qed.
Lemma sorted_keys_NoDup rows : StronglySorted rowLt rows → NoDup rows.*1.
Proof.
  induction 1 as [|x xs _ IH Hx]; [constructor|]. rewrite fmap_cons.
  constructor; [|done]. intros (y & Ey & Hy)%list_elem_of_fmap.
  rewrite Forall_forall in Hx. by destruct (Hx y Hy).
Qed.

(** The next page starts after the last row of this one. *)
Lemma later_next rows after page rest k v :
  StronglySorted rowLt rows → later after rows = page ++ rest → last page = Some (k, v) → k ≠ "" →
  later k rows = rest.
Proof.
  intros Hs Hp Hl Hk. apply last_Some in Hl as [init ->]. rewrite <- app_assoc in Hp. simpl in Hp.
  assert (later k rows = later k (later after rows)) as ->.
  { unfold later. rewrite list_filter_filter. apply list_filter_iff. intros [k' v']. unfold isLater. simpl.
    assert ((k, v) ∈ later after rows) as Hin by (rewrite Hp; set_solver).
    unfold later in Hin. apply list_elem_of_filter in Hin as [Ha _]. unfold isLater in Ha. simpl in Ha.
    split; [|tauto]. intros [?|[H1 H2]]; [done|]. split; [by right|].
    destruct Ha as [->|[H3 H4]]; [by left|right]. split; [by etrans|].
    intros ->. apply H2. by apply (anti_symm String.le). }
  pose proof (later_sorted after rows Hs) as Hs'.
  rewrite Hp in Hs' |- *. unfold later. rewrite filter_app.
  rewrite (filter_none (isLater k) init).
  - rewrite filter_cons_False by (unfold isLater; simpl; tauto). apply filter_all.
    apply StronglySorted_app in Hs' as (_ & _ & Hs'). inversion Hs' as [|? ? _ Hx]; subst.
    eapply Forall_impl; [exact Hx|]. intros [k' v'] [H1 H2]. by right.
  - apply StronglySorted_app in Hs' as (H & _ & _). apply Forall_forall. intros [k' v'] Hin [?|[H1 H2]]; [done|].
    destruct (H (k', v') (k, v)) as [H3 H4]; [done|set_solver|]. apply H4. simpl in *.
    by apply (anti_symm String.le).
Qed.

(** Strictly sorted lists with the same rows are equal. *)
Lemma rowLt_irrefl x : ¬ rowLt x x.
Proof. by intros [_ ?]. Qed.
#[global] Instance rowLt_antisymm : AntiSymm (=) rowLt.
Proof. intros x y [H1 H2] [H3 _]. destruct H2. by apply (anti_symm String.le). Qed.
Lemma sorted_NoDup rows : StronglySorted rowLt rows → NoDup rows.
Proof.
  induction 1 as [|x xs _ IH Hx]; constructor; [|done]. intros Hin.
  rewrite Forall_forall in Hx. by apply (rowLt_irrefl x), Hx.
Qed.
Lemma sorted_ext rows rows' :
  StronglySorted rowLt rows → StronglySorted rowLt rows' → (∀ x, x ∈ rows ↔ x ∈ rows') →
  rows = rows'.
Proof.
  intros H1 H2 E. apply (StronglySorted_unique rowLt); [done..|].
  apply NoDup_Permutation; [by apply sorted_NoDup..|done].
Qed.

Section delete.
Context {DC : DiskCodec} {DL : DiskCodecLaws}.

(** ** Deleting a generation *)

(** A batch without counters writes its operations and nothing else. *)
Lemma write_db s b s' :
  b_counts b = ∅ → write s b = (Ok tt, s') → s_db s' = applyOps (b_ops b) (s_db s).
Proof.
  intros Hc. unfold write. destruct (s_ctx s); [done|]. rewrite Hc, map_to_list_empty. simpl.
  destruct (DiskPageBytes <? dumpSize (b_ops b))%Z; [done|].
  destruct (mjoin (head (s_faults s))); [done|]. destruct (readCounts _); [|done].
  by intros [= <-].
Qed.

Definition junked (a : Spec) (g : Z) : Spec :=
  mkSpec (a_gens a) (a_active a) (a_next a) (a_staging a) (a_garbage a) (a_sequence a)
    (a_cursor a) (a_fanout a) ({[g]} ∪ a_junk a).
Definition cleared (a : Spec) (g : Z) : Spec :=
  mkSpec (delete g (a_gens a)) (a_active a) (a_next a) (a_staging a) (a_garbage a) (a_sequence a)
    (a_cursor a) (a_fanout a) (a_junk a ∖ {[g]}).

Lemma Repr_junked s a g : Repr s a → g ≠ a_active a → (g ≤ a_next a)%Z → Repr s (junked a g).
Proof.
  intros [HV HO HC HN] Hg Hn. split; [|split| |]; try apply HO; try done.
  - destruct HV as [V1 V2 V3 V4]. split; [|exact V2| |exact V4].
    + intros r Hr Hi. apply (V1 r Hr). destruct r as [| |g' f]; try done. simpl in Hi.
      destruct Hi. split; [set_solver|done].
    + intros g' f Hg' HJ Hf. apply (V3 g' f Hg'); [|done]. simpl in HJ. set_solver.
  - simpl. pose proof (ok_active_kept _ _ HO). set_solver.
  - intros g' Hg'. simpl in *. destruct (ok_unused _ _ HO g' Hg') as [H1 H2].
    split; [|exact H2]. set_unfold. intros [->|?]; [lia|done].
  - intros g' Hg'. apply (ok_gens _ _ HO g'). simpl in Hg'. set_solver.
Qed.

(** The deletes of a page of rows of one generation. *)
Lemma deletes_rows g (page : list (string * string)) :
  isU64 g → (∀ k v, (k, v) ∈ page → ∃ f, okGen f ∧ k = genSuffix f) →
  ∃ ops, (λ row : string * string, OpDelete (diskPrefix g "" +:+ row.1)) <$> page = toOp <$> ops ∧
    Forall (okRow ∘ fst) ops ∧ Forall (λ o, ∃ f, o = (RGen g f, None)) ops.
Proof.
  intros Hg. induction page as [|[k v] page IH]; intros Hp; [by exists []|].
  destruct IH as (ops & E & H1 & H2); [intros; eapply Hp; by right|].
  destruct (Hp k v) as (f & Hf & ->); [by left|].
  exists ((RGen g f, None) :: ops). split_and!.
  - by rewrite !fmap_cons, E.
  - by constructor.
  - constructor; eauto.
Qed.
Lemma foldl_bDelete prefix (page : list (string * string)) b :
  foldl (λ b row, bDelete b (prefix +:+ row.1)) b page =
    mkBatch (b_ops b ++ ((λ row : string * string, OpDelete (prefix +:+ row.1)) <$> page)) (b_counts b).
Proof.
  revert b. induction page as [|row page IH]; intros b; simpl.
  - rewrite app_nil_r. by destruct b.
  - rewrite IH. simpl. by rewrite <- app_assoc.
Qed.
Lemma applyDeletes_lookup (ks : list string) db k :
  applyOps (OpDelete <$> ks) db !! k = if decide (k ∈ ks) then None else db !! k.
Proof.
  revert db. induction ks as [|k0 ks IH]; intros db.
  - rewrite decide_False by set_solver. done.
  - change (applyOps (OpDelete <$> k0 :: ks) db) with (applyOps (OpDelete <$> ks) (delete k0 db)).
    rewrite IH. destruct (decide (k = k0)) as [->|Hne].
    + rewrite lookup_delete_eq, (decide_True (P := k0 ∈ k0 :: ks)) by set_solver. by case_decide.
    + rewrite lookup_delete_ne by done. repeat case_decide; set_solver.
Qed.

Lemma genSuffix_ne f : genSuffix f ≠ "".
Proof. by destruct f. Qed.

Lemma deletePages_spec fuel s a g after :
  Repr s a → isU64 g → g ∈ a_junk a →
  let rows := prefixRows (s_db s) (diskPrefix g "") in
  later after rows = rows → length rows < fuel →
  ∃ r s', deletePages fuel s (diskPrefix g "") after = Some (r, s') ∧ sameEnv s s' ∧ Repr s' a ∧
    (r = Ok tt → prefixRows (s_db s') (diskPrefix g "") = []).
Proof.
  intros HR Hg HJ. revert s after HR. induction fuel as [|fuel IH]; intros s after HR rows Hl Hf; [lia|].
  cbn [deletePages]. destruct (scan s (diskPrefix g "") after DiskPageItems) as [page|e] eqn:Es;
    [|by exists (Err e), s].
  destruct (scan_later _ _ _ _ Es) as (rest & Hp & Hend). fold rows in Hp. rewrite Hl in Hp.
  destruct page as [|row page]; [exists (Ok tt), s; split_and!; try done; intros _; rewrite (Hend eq_refl) in Hp; done|].
  set (pg := row :: page) in *.
  assert (∀ k v, (k, v) ∈ rows → ∃ f, okGen f ∧ k = genSuffix f) as Hsuf.
  { intros k v Hin. apply prefixRows_elem in Hin. rewrite diskPrefix_app in Hin.
    destruct (v_cover _ _ _ (rp_view _ _ HR) _ _ Hin) as (r & Hr & E).
    destruct r as [m|x|g' f]; [by destruct m|done|]. destruct Hr as [Hg' Hf'].
    apply diskPrefix_inj in E as [_ E]; [|done..]. by exists f. }
  destruct (deletes_rows g pg Hg) as (ops & Eops & Hok & Hgen).
  { intros k v Hin. apply (Hsuf k v). rewrite Hp. set_solver. }
  rewrite foldl_bDelete. cbn [b_ops b_counts newDiskBatch app].
  set (b := mkBatch _ _).
  assert (Prepared s a b a) as HP.
  { eapply (Prepared_ops _ _ newDiskBatch a _ ops);
      [apply Prepared_start; apply HR|exact Eops|exact Hok| |done| | | |done].
    - eapply Forall_impl; [exact Hgen|]. intros o [f ->]. by right.
    - intros r Hr Hi. rewrite opFor_None; [done|]. intros ([r' o] & -> & Hin)%list_elem_of_fmap.
      rewrite Forall_forall in Hgen. destruct (Hgen _ Hin) as [f [= -> ->]]. by destruct Hi.
    - intros m Hm. rewrite opFor_None; [done|]. intros ([r' o] & E & Hin)%list_elem_of_fmap.
      rewrite Forall_forall in Hgen. destruct (Hgen _ Hin) as [f [= -> ->]]. done.
    - intros. unfold delta. simpl. lia. }
  pose proof (write_Prepared s a b a HR HP (rp_ok _ _ HR)) as Hw.
  destruct (write s b) as [[[]|e] s1] eqn:Ew.
  2: { exists (Err e), s1. split_and!; [done|by apply sameData_env|by eapply Repr_same|done]. }
  destruct Hw as (HR1 & E1 & E2 & E3 & E4). apply write_db in Ew; [|done].
  destruct (last pg) as [[k v]|] eqn:El; [|by apply last_None in El]. cbn [fmap option_fmap option_map from_option id fst].
  assert (later k rows = rest) as Hk.
  { eapply (later_next rows after pg rest k v); [apply prefixRows_sorted|by rewrite Hl|done|].
    destruct (Hsuf k v) as (f & _ & ->); [|apply genSuffix_ne].
    rewrite Hp. apply elem_of_app. left. by apply last_Some_elem_of. }
  assert (prefixRows (s_db s1) (diskPrefix g "") = rest) as Hrows.
  { apply sorted_ext; [apply prefixRows_sorted| |].
    - eapply StronglySorted_app_1_r. rewrite <- Hp. apply prefixRows_sorted.
    - intros [k' v']. rewrite prefixRows_elem, Ew. unfold b. cbn [b_ops].
      assert ((λ row : string * string, OpDelete (diskPrefix g "" +:+ row.1)) <$> pg =
        OpDelete <$> ((λ row : string * string, diskPrefix g "" +:+ row.1) <$> pg)) as ->
        by (rewrite <- list_fmap_compose; done).
      rewrite applyDeletes_lookup.
      assert (NoDup rows.*1) as Hnd by apply sorted_keys_NoDup, prefixRows_sorted.
      case_decide as Hin.
      + split; [done|]. intros Hr.
        apply list_elem_of_fmap in Hin as ([k2 v2] & E & Hin). apply (inj (String.append _)) in E as ->.
        rewrite Hp, fmap_app in Hnd. apply NoDup_app in Hnd as (_ & Hd & _).
        destruct (Hd k2); apply list_elem_of_fmap; by eexists (_, _).
      + rewrite <- prefixRows_elem. fold rows. rewrite Hp, elem_of_app. split; [|tauto].
        intros [Hpg|]; [|done]. destruct Hin. apply list_elem_of_fmap. by exists (k', v'). }
  destruct (IH s1 k HR1) as (r & s2 & R1 & R2 & R3 & R4).
  - rewrite Hrows, <- Hk. unfold later. rewrite list_filter_filter. apply list_filter_iff. tauto.
  - rewrite Hrows. rewrite Hp, length_app in Hf. simpl in Hf. lia.
  - exists r, s2. split_and!; [done| |done|done]. etrans; [|exact R2]. by split.
Qed.

Theorem deleteGeneration_spec s a g :
  Repr s a → isU64 g → g ≠ a_active a → (g ≤ a_next a)%Z →
  ∃ r s', deleteGeneration s g = Some (r, s') ∧ sameEnv s s' ∧
    match r with Ok _ => Repr s' (cleared a g) | Err _ => Repr s' (junked a g) end.
Proof.
  intros HR Hg Hact Hn. pose proof (Repr_junked s a g HR Hact Hn) as HR'.
  destruct (deletePages_spec (S (size (s_db s))) s (junked a g) g "" HR' Hg) as (r & s' & E & He & HR1 & Hr).
  - simpl. set_solver.
  - apply later_start.
  - pose proof (prefixRows_length (s_db s) (diskPrefix g "")). lia.
  - exists r, s'. split; [exact E|]. split; [exact He|]. destruct r as [[]|e]; [|done].
    specialize (Hr eq_refl).
    assert (∀ f, s_db s' !! rowKey (RGen g f) = None) as Hgone.
    { intros f. destruct (s_db s' !! rowKey (RGen g f)) as [v|] eqn:Ev; [|done]. exfalso.
      assert ((genSuffix f, v) ∈ prefixRows (s_db s') (diskPrefix g "")) as Hin
        by (rewrite prefixRows_elem, diskPrefix_app; done).
      rewrite Hr in Hin. set_solver. }
    assert (gen (cleared a g) g = emptyGen) as Hempty.
    { unfold gen, cleared. simpl. by rewrite lookup_delete_eq. }
    assert (∀ g', g' ≠ g → gen (cleared a g) g' = gen a g') as Hother.
    { intros g' Hne. unfold gen, cleared. simpl. by rewrite lookup_delete_ne. }
    destruct HR1 as [[V1 V2 V3 V4] HO HC HN]. split.
    + split; [|exact V2| |exact V4].
      * intros r' Hr' Hi. destruct r' as [| |g' f]; [by apply V1..|]. destruct (decide (g' = g)) as [->|Hne].
        -- rewrite Hgone. simpl. rewrite Hempty. by destruct f.
        -- simpl rowOf. rewrite Hother by done. apply (V1 (RGen g' f)); [done|].
           destruct Hi as [HJ Hf]. split; [|done]. simpl in *. set_solver.
      * intros g' f Hg' HJ Hf. destruct (decide (g' = g)) as [->|Hne].
        -- rewrite Hempty. unfold getNumber. rewrite Hgone. by destruct f.
        -- rewrite Hother by done. apply (V3 g' f Hg'); [|done]. simpl in *. set_solver.
    + destruct HO as [O1 O2 O3 O4 O5 O6 O7 O8 O9 O10]. split; try done.
      * simpl in *. set_solver.
      * intros g' Hg'. destruct (O9 g' Hg') as [H1 H2]. split; [simpl in *; set_solver|].
        destruct (decide (g' = g)) as [->|]; [done|]. by rewrite Hother.
      * intros g' HJ. destruct (decide (g' = g)) as [->|Hne].
        -- rewrite Hempty. split; apply map_Forall_empty.
        -- rewrite Hother by done. apply (O10 g'). simpl in *. set_solver.
    + rewrite HC. rewrite Hother by (simpl; congruence). done.
    + done.
Qed.
End delete.
