(* ===== verification/DiskSnapshot.v ===== *)
(** * Snapshots of the durable store

    The generations of a snapshot: [BeginSnapshot] stages an empty one,
    [FinishSnapshot] carries the unfinished work of the active generation over
    and publishes the staged one, [CollectGarbage] and [DiscardStaging] delete
    what is left. The merge is characterised as a pure fold over the names of
    the old generation. *)

From S2P Require Import Prelude WorkTypes DiskKeys DiskStore DiskSpec DiskBatch DiskPut.
From S2P Require Import DiskRefine DiskScan.
From stdpp Require Import sorting.
From Stdlib Require Import Ascii.

Section snapshot.
Context {DC : DiskCodec} {DL : DiskCodecLaws}.

(** ** Long operations *)

Lemma Repr_addLong s a n : Repr s a → Repr (addLong s n) a.
Proof. intros [HV HO HC HN]. by split. Qed.
Lemma long_spec {A} (f : Disk → option (result Error A * Disk)) s (Q : result Error A → Disk → Prop) :
  (∀ r s', Q r s' → Q r (addLong s' (-1))) →
  (∃ r s', f (addLong s 1) = Some (r, s') ∧ sameEnv (addLong s 1) s' ∧ Q r s') →
  ∃ r s', long f s = Some (r, s') ∧ sameEnv s s' ∧ Q r s'.
Proof.
  intros HQ (r & s' & E & [E1 E2 E3 E4] & Hs). exists r, (addLong s' (-1)).
  unfold long. rewrite E. split; [done|]. split; [|by apply HQ].
  split; simpl in *; try done. lia.
Qed.

(** What an operation on other generations leaves alone. *)
Record keepsActive (a a' : Spec) : Prop := {
  ka_active : a_active a' = a_active a;
  ka_gen : gen a' (a_active a) = gen a (a_active a);
  ka_cursor : a_cursor a' = a_cursor a;
  ka_fanout : a_fanout a' = a_fanout a;
  ka_sequence : (a_sequence a ≤ a_sequence a')%Z;
}.
Lemma keepsActive_refl a : keepsActive a a.
Proof. by split. Qed.
Lemma keepsActive_trans a a' a'' : keepsActive a a' → keepsActive a' a'' → keepsActive a a''.
Proof. intros [] []. split; try congruence. lia. Qed.
Lemma keepsActive_junked a g : keepsActive a (junked a g).
Proof. by split. Qed.
Lemma keepsActive_cleared a g : g ≠ a_active a → keepsActive a (cleared a g).
Proof. intros. split; try done. unfold gen, cleared. simpl. by rewrite lookup_delete_ne. Qed.
Lemma gen_setMeta a m n g : gen (setMeta a m n) g = gen a g.
Proof. done. Qed.

Lemma reclaim_spec s a g :
  Repr s a → isU64 g → (g ≠ 0%Z → g ≠ a_active a) → (g ≤ a_next a)%Z →
  ∃ r s', reclaim s g = Some (r, s') ∧ sameEnv s s' ∧
    match r with
    | Ok _ => Repr s' (if (g =? 0)%Z then a else cleared a g)
    | Err _ => Repr s' (junked a g)
    end.
Proof.
  intros HR Hg Hact Hn. unfold reclaim. destruct (Z.eqb_spec g 0) as [|H0].
  - exists (Ok tt), s. done.
  - destruct (deleteGeneration_spec s a g HR Hg (Hact H0) Hn) as (r & s' & E & He & H).
    exists r, s'. done.
Qed.

(** The state after the retired generations are gone. *)
Definition reclaimed (a : Spec) : Spec :=
  let a := if (a_staging a =? 0)%Z then a else cleared a (a_staging a) in
  if (a_garbage a =? 0)%Z then a else cleared a (a_garbage a).
Definition specBegin (a : Spec) : Spec :=
  let next := (a_next a + 1)%Z in
  setMeta (setMeta (setMeta (reclaimed a) MGeneration next) MStaging next) MGarbage 0.

Lemma reclaimed_meta a :
  a_active (reclaimed a) = a_active a ∧ a_next (reclaimed a) = a_next a ∧
  a_sequence (reclaimed a) = a_sequence a ∧ a_cursor (reclaimed a) = a_cursor a ∧
  a_fanout (reclaimed a) = a_fanout a.
Proof.
  unfold reclaimed. destruct (a_staging a =? 0)%Z; [destruct (a_garbage a =? 0)%Z; done|].
  cbn [a_garbage cleared]. by destruct (a_garbage a =? 0)%Z.
Qed.

Lemma okSpec_begin kind a :
  okSpec kind a → okSpec kind (reclaimed a) → isU64 (a_next a + 1) → okSpec kind (specBegin a).
Proof.
  intros HO HR Hn. destruct (reclaimed_meta a) as (E1 & E2 & E3 & E4 & E5).
  pose proof (ok_active _ _ HO). pose proof (ok_staging _ _ HO).
  destruct HR as [O1 O2 O3 O4 O5 O6 O7 O8 O9 O10]. rewrite E1, E2 in *.
  unfold isU64 in *. split; simpl; rewrite ?E1; unfold isU64; try done; try lia.
  intros g Hg. destruct (O9 g) as [H1 H2]; [lia|]. split; [exact H1|exact H2].
Qed.

(** Staging a snapshot. On success the new generation is empty and fresh; on
    failure the active one is as it was. *)
Theorem BeginSnapshot_spec s a :
  Repr s a →
  ∃ r s', BeginSnapshot s = Some (r, s') ∧ sameEnv s s' ∧
    match r with
    | Ok g => g = (a_next a + 1)%Z ∧ Repr s' (specBegin a)
    | Err _ => ∃ a', keepsActive a a' ∧ Repr s' a'
    end.
Proof.
  intros HR. unfold BeginSnapshot. apply long_spec.
  { intros [g|e] s'; [intros [-> H]; eauto using Repr_addLong|].
    intros (a' & Hk & H). eauto using Repr_addLong. }
  apply (Repr_addLong s a 1) in HR. revert HR. generalize (addLong s 1) as s0. clear s. intros s HR.
  pose proof (rp_ok _ _ HR) as HO.
  rewrite (number_active s a HR), (number_generation s a HR). cbn [bind_result].
  assert (∀ m g, isNumber m = true → metaNum a m = g → (0 ≤ g ≤ a_next a)%Z →
    (g ≠ 0%Z → g ≠ a_active a) → retired s (a_active a) (a_next a) (metaKey m) = Ok g) as Hret.
  { intros m g Hm Eg Hr Hne. unfold retired. rewrite (number_meta s a m HR Hm), Eg. cbn [bind_result].
    destruct (Z.eqb_spec g 0), (Z.eqb_spec g (a_active a)); simpl; try (exfalso; tauto);
      rewrite !(proj2 (Z.ltb_ge _ _)); try done; try lia; apply (ok_active _ _ HO). }
  assert (retired s (a_active a) (a_next a) "staging" = Ok (a_staging a)) as ->
    by (apply (Hret MStaging); done || apply HO). cbn [bind_result].
  assert (retired s (a_active a) (a_next a) "garbage" = Ok (a_garbage a)) as ->
    by (apply (Hret MGarbage); done || apply HO). cbn [bind_result]. clear Hret.
  destruct (reclaim_spec s a (a_staging a)) as (r1 & s1 & E1 & He1 & H1);
    [done|by eapply staging_range|apply HO|apply HO|]. rewrite E1.
  destruct r1 as [[]|e]; cbn [andThen].
  2: { exists (Err e), s1. split_and!; [done..|]. exists (junked a (a_staging a)).
       split; [apply keepsActive_junked|done]. }
  set (a1 := if (a_staging a =? 0)%Z then a else cleared a (a_staging a)) in *.
  assert (keepsActive a a1) as K1.
  { unfold a1. destruct (Z.eqb_spec (a_staging a) 0); [apply keepsActive_refl|].
    apply keepsActive_cleared. by apply HO. }
  assert (a_garbage a1 = a_garbage a ∧ a_next a1 = a_next a ∧ a_active a1 = a_active a)
    as (G1 & G2 & G3) by (unfold a1; by destruct (a_staging a =? 0)%Z).
  destruct (reclaim_spec s1 a1 (a_garbage a)) as (r2 & s2 & E2 & He2 & H2);
    [done| | | |].
  { destruct (ok_garbage _ _ HO), (ok_next _ _ HO). unfold isU64. lia. }
  { rewrite G3. apply HO. } { rewrite G2. apply HO. }
  rewrite E2. destruct r2 as [[]|e]; cbn [andThen].
  2: { exists (Err e), s2. split_and!; [done|by etrans|]. exists (junked a1 (a_garbage a)).
       split; [|done]. eapply keepsActive_trans; [exact K1|apply keepsActive_junked]. }
  assert ((if (a_garbage a =? 0)%Z then a1 else cleared a1 (a_garbage a)) = reclaimed a) as Ea2.
  { unfold reclaimed. fold a1. by rewrite G1. }
  rewrite Ea2 in H2. assert (keepsActive a (reclaimed a)) as K2.
  { rewrite <- Ea2. destruct (Z.eqb_spec (a_garbage a) 0); [done|].
    eapply keepsActive_trans; [exact K1|]. apply keepsActive_cleared. rewrite G3. by apply HO. }
  unfold u64. destruct (Z.eqb_spec ((a_next a + 1) mod 2 ^ 64) 0) as [|Hne].
  { eexists _, s2. split_and!; [reflexivity|by etrans|]. by exists (reclaimed a). }
  assert (isU64 (a_next a + 1)) as Hu.
  { pose proof (ok_next _ _ HO). unfold isU64 in *.
    destruct (Z.eq_dec (a_next a + 1)%Z (2 ^ 64)%Z) as [E|]; [by rewrite E in Hne|lia]. }
  rewrite Z.mod_small by done.
  set (b := bDelete _ _).
  assert (Prepared s2 (reclaimed a) b (specBegin a)) as HP.
  { apply (deleteMeta_Prepared s2 (reclaimed a) _ _ MGarbage); [|done].
    apply (putMeta_Prepared s2 (reclaimed a) _ _ MStaging); [|done..].
    apply (putMeta_Prepared s2 (reclaimed a) _ _ MGeneration); [|done..].
    apply Prepared_start. apply H2. }
  assert (s_kind s2 = s_kind s) as Ek by (destruct He1, He2; congruence).
  pose proof (write_Prepared s2 _ b _ H2 HP) as Hw. rewrite Ek in Hw.
  specialize (Hw (okSpec_begin _ a HO ltac:(rewrite <- Ek; apply H2) Hu)).
  destruct (write s2 b) as [[[]|e] s3].
  - destruct Hw as (HR3 & ? & ? & ? & ?). exists (Ok (a_next a + 1)%Z), s3.
    split_and!; [done| |done|done]. etrans; [exact He1|]. etrans; [exact He2|]. split; congruence.
  - exists (Err e), s3. split_and!; [done| |].
    + etrans; [exact He1|]. etrans; [exact He2|]. by apply sameData_env.
    + exists (reclaimed a). split; [done|]. by eapply Repr_same.
Qed.

(** Clearing a pointer to a generation. *)
Lemma okSpec_clearMeta kind a m :
  okSpec kind a → m = MStaging ∨ m = MGarbage → okSpec kind (setMeta a m 0).
Proof.
  intros [O1 O2 O3 O4 O5 O6 O7 O8 O9 O10] [-> | ->]; split; simpl; try done; lia.
Qed.
(** Deleting a generation and then the pointer to it. *)
Lemma deleteAndClear s a g m :
  Repr s a → m = MStaging ∨ m = MGarbage → isU64 g → g ≠ a_active a → (g ≤ a_next a)%Z →
  ∃ r s', andThen (deleteGeneration s g)
            (λ _ s, Some (write s (bDelete newDiskBatch (metaKey m)))) = Some (r, s') ∧
    sameEnv s s' ∧
    match r with
    | Ok _ => Repr s' (setMeta (cleared a g) m 0)
    | Err _ => ∃ a', keepsActive a a' ∧ Repr s' a'
    end.
Proof.
  intros HR Hm Hg Hne Hn.
  destruct (deleteGeneration_spec s a g HR Hg Hne Hn) as (r & s1 & E & He & H). rewrite E.
  destruct r as [[]|e]; cbn [andThen].
  2: { exists (Err e), s1. split_and!; [done..|]. exists (junked a g). split; [by split|done]. }
  assert (Prepared s1 (cleared a g) (bDelete newDiskBatch (metaKey m)) (setMeta (cleared a g) m 0)) as HP.
  { apply deleteMeta_Prepared; [apply Prepared_start, H|by destruct Hm as [-> | ->]]. }
  pose proof (write_Prepared s1 _ _ _ H HP (okSpec_clearMeta _ _ m (rp_ok _ _ H) Hm)) as Hw.
  destruct (write s1 _) as [[[]|e] s2].
  - destruct Hw as (HR2 & ? & ? & ? & ?). exists (Ok tt), s2. split_and!; [done| |done].
    etrans; [exact He|by split].
  - exists (Err e), s2. split_and!; [done|etrans; [exact He|by apply sameData_env]|].
    exists (cleared a g). split; [by apply keepsActive_cleared|by eapply Repr_same].
Qed.

Theorem CollectGarbage_spec s a :
  Repr s a →
  ∃ r s', CollectGarbage s = Some (r, s') ∧ sameEnv s s' ∧
    match r with
    | Ok _ => a_active a ≠ 0%Z ∧ Repr s' (setMeta (cleared a (a_garbage a)) MGarbage 0)
    | Err _ => ∃ a', keepsActive a a' ∧ Repr s' a'
    end.
Proof.
  intros HR. unfold CollectGarbage. apply long_spec.
  { intros [[]|e] s'; [intros [? H]; eauto using Repr_addLong|].
    intros (a' & Hk & H). eauto using Repr_addLong. }
  apply (Repr_addLong s a 1) in HR. revert HR. generalize (addLong s 1) as s0. clear s. intros s HR.
  pose proof (rp_ok _ _ HR) as HO. rewrite (number_active s a HR), (number_garbage s a HR). cbn [bind_result].
  destruct (Z.eqb_spec (a_active a) 0) as [|Ha].
  { eexists _, s. split_and!; [done..|]. exists a. split; [apply keepsActive_refl|done]. }
  destruct (Z.eqb_spec (a_garbage a) (a_active a)) as [|Hg].
  { eexists _, s. split_and!; [done..|]. exists a. split; [apply keepsActive_refl|done]. }
  destruct (deleteAndClear s a (a_garbage a) MGarbage HR) as (r & s' & E & He & H); [by right| |done|apply HO|].
  { destruct (ok_garbage _ _ HO), (ok_next _ _ HO). unfold isU64. lia. }
  exists r, s'. split_and!; [exact E|done|]. by destruct r.
Qed.

Theorem DiscardStaging_spec s a :
  Repr s a →
  ∃ r s', DiscardStaging s = Some (r, s') ∧ sameEnv s s' ∧
    match r with
    | Ok _ => Repr s' (if (a_staging a =? 0)%Z then a
                       else setMeta (cleared a (a_staging a)) MStaging 0)
    | Err _ => ∃ a', keepsActive a a' ∧ Repr s' a'
    end.
Proof.
  intros HR. unfold DiscardStaging. apply long_spec.
  { intros [[]|e] s'; [eauto using Repr_addLong|].
    intros (a' & Hk & H). eauto using Repr_addLong. }
  apply (Repr_addLong s a 1) in HR. revert HR. generalize (addLong s 1) as s0. clear s. intros s HR.
  pose proof (rp_ok _ _ HR) as HO. rewrite (number_staging s a HR).
  destruct (Z.eqb_spec (a_staging a) 0) as [|H0]; [by exists (Ok tt), s|].
  rewrite (number_active s a HR).
  destruct (Z.eqb_spec (a_staging a) (a_active a)) as [|Hg].
  { eexists _, s. split_and!; [done..|]. exists a. split; [apply keepsActive_refl|done]. }
  destruct (deleteAndClear s a (a_staging a) MStaging HR) as (r & s' & E & He & H);
    [by left|by eapply staging_range|done|apply HO|].
  exists r, s'. split_and!; [exact E|done|]. by destruct r.
Qed.

(** ** The merge, purely

    What carrying one name of the old generation over does to the staged one
    and to the sequence number. *)
Definition workG (G : Gen) (l : string) (o : option DiskSchedule) : Gen :=
  mkGen (g_items G) (partial_alter (λ _, o) l (g_work G)) (g_related G).
Definition relateG (G : Gen) (keys : list WorkItemKey) (t : Z) : Gen :=
  mkGen (g_items G) (g_work G)
    (foldl (λ m key, <[relatedLogical key := t]> m) (g_related G) keys).
Definition dataStep (Go : Gen) (st : Gen * Z) (l : string) : Gen * Z :=
  let (G, seq) := st in
  match g_items Go !! l with
  | None => st
  | Some prior =>
      match g_items G !! l with
      | None => (relateG (workG G l (Some (mkSchedule (seq + 1) 0 1 0 "" 0))) (i_Related prior) (seq + 1),
                 (seq + 1)%Z)
      | Some current =>
          if relationsChanged current prior
          then (relateG (relateG G (i_Related prior) (seq + 1)) (i_Related current) (seq + 1), (seq + 1)%Z)
          else if bool_decide (i_Version current = i_Version prior) &&
                  bool_decide (i_Value current = i_Value prior)
          then match g_work Go !! l with None => (workG G l None, seq) | Some _ => st end
          else st
      end
  end.
(** The schedule unfinished work keeps: its own, or a fresh one when the item
    changed. *)
Definition carried (s : Disk) (prior current : option DiskItem) (st : DiskSchedule) (t : Z) : DiskSchedule :=
  stamp s (setToken (if projectionChanged (itemOr prior) (itemOr current)
                     then mkSchedule 0 0 1 0 "" 0 else readBack st) t).
Definition workStep (s : Disk) (Go : Gen) (st : Gen * Z) (l : string) : Gen * Z :=
  let (G, seq) := st in
  match g_work Go !! l with
  | None => st
  | Some w => (workG G l (Some (carried s (g_items Go !! l) (g_items G !! l) w (seq + 1))), (seq + 1)%Z)
  end.
Definition relatedStep (st : Gen * Z) (l : string) : Gen * Z :=
  let (G, seq) := st in
  (mkGen (g_items G) (g_work G) (<[l := (seq + 1)%Z]> (g_related G)), (seq + 1)%Z).
Definition mergeStep (s : Disk) (family : string) (Go : Gen) (st : Gen * Z) (l : string) : Gen * Z :=
  if bool_decide (family = "r/") then relatedStep st l
  else if bool_decide (family = "d/") then dataStep Go st l
  else workStep s Go st l.

Lemma setWork_setGen a g G l o : setWork (setGen a g G) g l o = setGen a g (workG G l o).
Proof. unfold setWork, workG. rewrite gen_setGen. unfold setGen. simpl. f_equal. by rewrite insert_insert_eq. Qed.
Lemma relateAll_setGen a g G keys t : relateAll g (setGen a g G) keys t = setGen a g (relateG G keys t).
Proof.
  revert G. induction keys as [|key keys IH]; intros G.
  - unfold relateG. simpl. by destruct G.
  - change (relateAll g (setGen a g G) (key :: keys) t)
      with (relateAll g (setRelated (setGen a g G) g (relatedLogical key) (Some t)) keys t).
    assert (setRelated (setGen a g G) g (relatedLogical key) (Some t) =
      setGen a g (mkGen (g_items G) (g_work G) (<[relatedLogical key := t]> (g_related G)))) as ->.
    { unfold setRelated. rewrite gen_setGen. unfold setGen. simpl. f_equal. by rewrite insert_insert_eq. }
    by rewrite IH.
Qed.

(** The rows of a family. *)
Definition familyRow (family l : string) : GenRow :=
  if bool_decide (family = "r/") then GRelated l
  else if bool_decide (family = "d/") then GData l else GWork l.
Definition isFamily (family : string) : Prop := family ∈ ["d/"; "w/"; "r/"].

Lemma okGenState_relateG kind n G keys t :
  okGenState kind n G → Forall (λ key, ∃ l, diskLogical key = Ok l) keys → (0 < t ≤ n)%Z →
  okGenState kind n (relateG G keys t).
Proof.
  intros [H1 H2 H3] Hk Ht. split; [done..|]. simpl. revert H3. generalize (g_related G) as m.
  induction Hk as [|key keys [l Hl] _ IH]; intros m Hm; [done|]. simpl. apply IH.
  intros l' t' [[<- <-]|[_ H]]%lookup_insert_Some; [|by apply Hm]. split; [by exists key, l|done].
Qed.

Section merge.
Context (s : Disk) (a : Spec) (g old : Z).
Hypothesis HR : Repr s a.
Hypothesis HUg : usable s a g.
Hypothesis HUo : usable s a old.
Notation Go := (gen a old).

(** The batch of a page so far, for the staged generation [G] it leads to. *)
Record merging (b : diskBatch) (G : Gen) (seq : Z) : Prop := {
  mg_batch : Prepared s a b (setGen a g G);
  mg_items : g_items G = g_items (gen a g);
  mg_ok : okGenState (s_kind s) seq G;
  mg_seq : isU64 seq;
  mg_fresh : (a_sequence a ≤ seq)%Z;
}.

Lemma merging_next b G seq b' G' seq' :
  merging b G seq → Prepared s a b' (setGen a g G') → g_items G' = g_items G →
  okGenState (s_kind s) seq' G' → isU64 seq' → (seq ≤ seq')%Z → merging b' G' seq'.
Proof. intros []. intros. split; try done; [congruence|lia]. Qed.

Lemma mergeRelated_merging b G seq l st :
  merging b G seq → is_Some (g_related Go !! l) → mergeRelated g l (seq, b) = Ok st →
  let '(G', seq') := relatedStep (G, seq) l in
  st.1 = seq' ∧ merging st.2 G' seq' ∧ g_work G' = g_work G.
Proof.
  intros HM [t Ht]. unfold mergeRelated. cbn [fst snd].
  destruct (nextToken seq) as [n|e] eqn:En; [|done].
  apply nextToken_Ok in En as (-> & Hu & Hpos); [|apply HM]. intros [= <-]. cbn [fst snd relatedStep].
  split; [done|]. split; [|done].
  eapply (merging_next b G seq); [done| |done| |done|lia].
  - assert (setRelated (setGen a g G) g l (Some (seq + 1)%Z) =
      setGen a g (mkGen (g_items G) (g_work G) (<[l := (seq + 1)%Z]> (g_related G)))) as <-.
    { unfold setRelated. rewrite gen_setGen. unfold setGen. simpl. f_equal. by rewrite insert_insert_eq. }
    eapply (setRelated_Prepared s a g); [apply HUg|apply HUg|apply HM|done|].
    simpl. by rewrite relatedKey.
  - apply (okGenState_related _ _ G l (Some (seq + 1)%Z)).
    + eapply okGenState_mono; [|apply HM]. lia.
    + intros t' [= <-]. destruct (og_related _ _ _ (us_gen _ _ _ HUo) l t Ht) as [? _]. split; [done|lia].
Qed.

Lemma mergeData_merging b G seq l data st :
  merging b G seq → g_work G !! l = g_work (gen a g) !! l →
  marshalItem <$> g_items Go !! l = Some data →
  mergeData s g old l data (seq, b) = Ok st →
  let '(G', seq') := dataStep Go (G, seq) l in
  st.1 = seq' ∧ merging st.2 G' seq' ∧ (∀ l', l' ≠ l → g_work G' !! l' = g_work G !! l').
Proof.
  intros HM Hw. destruct (g_items Go !! l) as [prior|] eqn:Ep; [|done]. cbn [fmap option_fmap option_map].
  intros [= <-]. destruct (og_items _ _ _ (us_gen _ _ _ HUo) l prior Ep) as [Hk Hl Hd [Hrt _]].
  assert (Forall (λ key, ∃ l, diskLogical key = Ok l) (i_Related prior)) as Hrel
    by (by apply diskItem_Ok in Hd as (_ & _ & _ & _ & _ & ?)).
  unfold mergeData, dataStep. rewrite (item_usable s a g) by done. rewrite Hrt, Ep, <- (mg_items _ _ _ HM).
  destruct (g_items G !! l) as [current|] eqn:Ec; cbn [bind_result negb fst snd].
  - assert (Forall (λ key, ∃ l, diskLogical key = Ok l) (i_Related current)) as Hrel2.
    { apply (okItem_related (s_kind s) l). apply (og_items _ _ _ (mg_ok _ _ _ HM) l current Ec). }
    destruct (relationsChanged current prior).
    + destruct (nextToken seq) as [n|e] eqn:En; [|done].
      apply nextToken_Ok in En as (-> & Hu & Hpos); [|apply HM]. intros [= <-]. cbn [fst snd].
      split; [done|]. split; [|done]. eapply (merging_next b G seq); [done| |done| |done|lia].
      * rewrite <- !relateAll_setGen.
        apply diskRelated_Prepared; [apply HUg|apply HUg|]. apply diskRelated_Prepared; [apply HUg|apply HUg|apply HM].
      * pose proof (mg_seq _ _ _ HM). unfold isU64 in *.
        apply okGenState_relateG; [apply okGenState_relateG|done|lia]; [|done|lia].
        eapply okGenState_mono; [|apply HM]. lia.
    + destruct (_ && _); [|intros [= <-]; done].
      rewrite (tokenAt_usable s a old) by done. cbn [bind_result].
      destruct (g_work Go !! l) as [w|] eqn:Ew; cbn [fmap option_fmap option_map from_option id].
      * destruct (og_work _ _ _ (us_gen _ _ _ HUo) l w Ew) as [_ [Htok _ _]].
        rewrite (proj2 (Z.eqb_neq _ _)) by lia. intros [= <-]. done.
      * simpl Z.eqb. cbn iota.
        destruct (forgetWork_usable s a g b (setGen a g G) l HUg) as (b' & Eb & HP);
          [apply HM|by rewrite gen_setGen|].
        rewrite Eb. cbn [bind_result]. intros [= <-]. cbn [fst snd]. split; [done|].
        rewrite setWork_setGen in HP. split.
        -- eapply (merging_next b G seq); [done|done|done| |apply HM|lia]. by apply okGenState_work; [apply HM|].
        -- intros l' Hne. simpl. by apply lookup_partial_alter_ne.
  - destruct (nextToken seq) as [n|e] eqn:En; [|done].
    apply nextToken_Ok in En as (-> & Hu & Hpos); [|apply HM]. cbn [bind_result].
    assert (okSchedule (seq + 1) (mkSchedule (seq + 1) 0 1 0 "" 0)) as Hst by (split; simpl; lia).
    destruct (queueWork_usable s a g b (setGen a g G) l (mkSchedule (seq + 1) 0 1 0 "" 0) HUg)
      as (b' & Eb & HP); [apply HM|by rewrite gen_setGen|by eapply okSchedule_fields|].
    rewrite Eb. cbn [bind_result]. intros [= <-]. cbn [fst snd]. split; [done|].
    change (stamp s _) with (mkSchedule (seq + 1) 0 1 0 "" 0) in HP. rewrite setWork_setGen in HP. split.
    + eapply (merging_next b G seq); [done| |done| |done|lia].
      * rewrite <- relateAll_setGen. apply diskRelated_Prepared; [apply HUg|apply HUg|done].
      * apply okGenState_relateG; [|done|lia]. apply okGenState_work.
        -- eapply okGenState_mono; [|apply HM]. lia.
        -- intros st' [= <-]. split; [by exists (i_Key prior)|done].
    + intros l' Hne. simpl. by apply lookup_partial_alter_ne.
Qed.

Lemma carried_ok prior current w seq t :
  okSchedule seq w → (0 < t)%Z → okSchedule t (carried s prior current w t).
Proof.
  intros [Ht Hd Hp] Hpos. eapply stamp_ok; [exact HR|]. destruct (projectionChanged _ _); [split; simpl; lia|].
  destruct (readBack_key w) as (E1 & E2 & E3 & _). split; cbn [d_Token d_Due d_Priority setToken]; [lia| |]; congruence.
Qed.
Lemma mergeWork_merging b G seq l value st :
  merging b G seq → g_work G !! l = g_work (gen a g) !! l →
  diskNumber ∘ d_Token <$> g_work Go !! l = Some value →
  mergeWork s g old l value (seq, b) = Ok st →
  let '(G', seq') := workStep s Go (G, seq) l in
  st.1 = seq' ∧ merging st.2 G' seq' ∧ (∀ l', l' ≠ l → g_work G' !! l' = g_work G !! l').
Proof.
  intros HM Hw. destruct (g_work Go !! l) as [w|] eqn:Ew; [|done]. cbn [fmap option_fmap option_map].
  intros [= <-]. destruct (og_work _ _ _ (us_gen _ _ _ HUo) l w Ew) as [Hname Hwok].
  assert (isU64 (d_Token w)) as Htok.
  { pose proof (us_seq _ _ _ HUo). destruct Hwok. unfold isU64 in *. lia. }
  unfold mergeWork, workStep. rewrite Ew. cbn [fst snd].
  destruct (nextToken seq) as [n|e] eqn:En; [|done].
  apply nextToken_Ok in En as (-> & Hu & Hpos); [|apply HM]. cbn [bind_result].
  unfold len, compose. rewrite diskNumber_length. cbn [Z.of_nat Z.eqb negb].
  rewrite readNumber_diskNumber, (schedule_usable s a old l w) by done. cbn [bind_result].
  rewrite !(item_usable s a) by done. cbn [bind_result].
  assert (∀ o : option DiskItem, ∃ x, match o with Some it => (it, true) | None => (zeroItem, false) end =
    (itemOr o, x)) as Hpair by (intros [it|]; by eexists).
  destruct (Hpair (g_items Go !! l)) as [x1 ->]. cbn [bind_result].
  destruct (Hpair (g_items (gen a g) !! l)) as [x2 ->]. cbn [bind_result]. rewrite <- (mg_items _ _ _ HM).
  assert (okSchedule (seq + 1) (carried s (g_items Go !! l) (g_items G !! l) w (seq + 1))) as Hst
    by (by eapply carried_ok).
  destruct (queueWork_usable s a g b (setGen a g G) l
    (setToken (if projectionChanged (itemOr (g_items Go !! l)) (itemOr (g_items G !! l))
               then mkSchedule 0 0 1 0 "" 0 else readBack w) (seq + 1)) HUg)
    as (b' & Eb & HP); [apply HM|by rewrite gen_setGen|by eapply okSchedule_fields|].
  rewrite Eb. cbn [bind_result]. intros [= <-]. cbn [fst snd]. split; [done|].
  rewrite setWork_setGen in HP. split.
  - eapply (merging_next b G seq); [done|exact HP|done| |done|lia].
    apply okGenState_work; [eapply okGenState_mono; [|apply HM]; lia|].
    intros st' [= <-]. split; done.
  - intros l' Hne. simpl. by apply lookup_partial_alter_ne.
Qed.

(** A page of the merge is a fold over its names. *)
Lemma mergePage_merging family page b G seq st :
  isFamily family → merging b G seq → NoDup page.*1 →
  (∀ l v, (l, v) ∈ page → genRowOf Go (familyRow family l) = Some v) →
  (∀ l, l ∈ page.*1 → g_work G !! l = g_work (gen a g) !! l) →
  mergePage s family g old page (seq, b) = Ok st →
  let '(G', seq') := foldl (mergeStep s family Go) (G, seq) page.*1 in
  st.1 = seq' ∧ merging st.2 G' seq'.
Proof.
  intros Hfam. revert b G seq. induction page as [|[l v] page IH]; intros b G seq HM Hnd Hrows Hun.
  - simpl. by intros [= <-].
  - rewrite fmap_cons in *. apply NoDup_cons in Hnd as [Hl Hnd].
    cbn [mergePage foldl fst]. intros Hm.
    destruct (mergeRow s family g old (l, v) (seq, b)) as [[seq1 b1]|e] eqn:Er; [|done].
    cbn [bind_result] in Hm.
    assert (Hrow : genRowOf Go (familyRow family l) = Some v) by (apply Hrows; by left).
    assert (Hw : g_work G !! l = g_work (gen a g) !! l) by (apply Hun; by left).
    assert (let '(G', seq') := mergeStep s family Go (G, seq) l in
      seq1 = seq' ∧ merging b1 G' seq' ∧ (∀ l', l' ≠ l → g_work G' !! l' = g_work G !! l')) as Hstep.
    { unfold mergeRow in Er. unfold mergeStep, familyRow in *. cbn [fst snd] in Er.
      case_bool_decide; [|case_bool_decide]; simpl in Hrow.
      - assert (is_Some (g_related Go !! l)) as Hs by (destruct (g_related Go !! l); [eauto|done]).
        pose proof (mergeRelated_merging b G seq l (seq1, b1) HM Hs Er) as H1.
        cbn [relatedStep fst snd] in *. destruct H1 as (H1 & H2 & H3). rewrite H3. done.
      - destruct (g_items Go !! l) as [it|] eqn:Ei; [|done].
        apply (mergeData_merging b G seq l v (seq1, b1)); [done|done|by rewrite Ei|done].
      - destruct (g_work Go !! l) as [w|] eqn:Ei; [|done].
        apply (mergeWork_merging b G seq l v (seq1, b1)); [done|done|by rewrite Ei|done]. }
    destruct (mergeStep s family Go (G, seq) l) as [G1 n1]. destruct Hstep as (-> & HM1 & Hk).
    apply (IH b1 G1 n1); [done|done|intros; apply Hrows; by right| |done].
    intros l' Hl'. rewrite Hk by (intros ->; done). apply Hun. by right.
Qed.
End merge.

(** The clock is all a merge reads of the store besides its rows. *)
Lemma mergeStep_env s s' family Go st l :
  s_now s' = s_now s → mergeStep s' family Go st l = mergeStep s family Go st l.
Proof.
  intros E. unfold mergeStep. do 2 (case_bool_decide; [done|]). unfold workStep. destruct st as [G n].
  destruct (g_work Go !! l); [|done]. unfold carried, stamp. by rewrite E.
Qed.
Lemma mergeFold_env s s' family Go st ls :
  s_now s' = s_now s →
  foldl (mergeStep s' family Go) st ls = foldl (mergeStep s family Go) st ls.
Proof.
  intros E. revert st. induction ls as [|l ls IH]; intros st; [done|]. simpl.
  by rewrite (mergeStep_env s s') by done.
Qed.

Lemma mergeFold_mono s family Go st ls : (st.2 ≤ (foldl (mergeStep s family Go) st ls).2)%Z.
Proof.
  revert st. induction ls as [|l ls IH]; intros [G n]; simpl; [done|].
  etrans; [|apply IH]. unfold mergeStep, relatedStep, dataStep, workStep.
  repeat case_match; simpl; lia.
Qed.

Definition mergedSpec (a : Spec) (g : Z) (G : Gen) (n : Z) : Spec := setMeta (setGen a g G) MSequence n.
Lemma mergedSpec_again a g G n G' n' : mergedSpec (mergedSpec a g G n) g G' n' = mergedSpec a g G' n'.
Proof. unfold mergedSpec, setMeta, setGen. simpl. f_equal. by rewrite insert_insert_eq. Qed.

(** The rows of a family are those the abstract state gives it. *)
Lemma familyRows s a old family l v :
  Repr s a → isU64 old → old ∉ a_junk a → isFamily family →
  (l, v) ∈ prefixRows (s_db s) (diskPrefix old family) ↔
  genRowOf (gen a old) (familyRow family l) = Some v.
Proof.
  intros HR Ho HJ Hfam. rewrite prefixRows_elem.
  assert (diskPrefix old family +:+ l = rowKey (RGen old (familyRow family l))) as ->.
  { rewrite diskPrefix_app. unfold isFamily in Hfam. set_unfold.
    destruct Hfam as [-> | [-> | [-> | []]]]; done. }
  rewrite (v_row _ _ _ (rp_view _ _ HR) (RGen old (familyRow family l))); [done| |].
  - split; [done|]. unfold familyRow. by repeat case_bool_decide.
  - split; [done|]. unfold familyRow. by repeat case_bool_decide.
Qed.
Lemma diskLogical_ne key l : diskLogical key = Ok l → l ≠ "".
Proof. intros [-> _]%diskLogical_Ok. by destruct (Namespace key). Qed.
Lemma familyRow_ne kind seq G family l v :
  okGenState kind seq G → isFamily family → genRowOf G (familyRow family l) = Some v → l ≠ "".
Proof.
  intros [H1 H2 H3] Hfam Hv. unfold familyRow in Hv. repeat case_bool_decide; simpl in Hv.
  - destruct (g_related G !! l) as [t|] eqn:E; [|done].
    destruct (H3 l t E) as [(key & l' & _ & ->) _]. unfold relatedLogical. by destruct (Kind key).
  - destruct (g_items G !! l) as [it|] eqn:E; [|done].
    destruct (H1 l it E) as [_ Hl _ _]. by eapply diskLogical_ne.
  - destruct (g_work G !! l) as [w|] eqn:E; [|done].
    destruct (H2 l w E) as [(key & _ & Hl) _]. by eapply diskLogical_ne.
Qed.

Lemma gen_setGen_same a g g' : gen (setGen a g (gen a g)) g' = gen a g'.
Proof. destruct (decide (g = g')) as [->|]; [by rewrite gen_setGen|by rewrite gen_setGen_ne]. Qed.
Lemma merging_start s a g :
  Repr s a → usable s a g → merging s a g newDiskBatch (gen a g) (a_sequence a).
Proof.
  intros HR HU. split; try done; try apply HU. eapply Prepared_ops with (ops := []);
    [apply Prepared_start, HR|done|constructor|constructor|done| |by intros []| |done].
  - intros r Hr Hi. destruct r as [| |g' f]; [done..|]. simpl. by rewrite gen_setGen_same.
  - intros g' f Hg' HJ Hc. rewrite gen_setGen_same. lia.
Qed.
(** Nothing carried over yet. *)
Lemma Repr_merged_same s a g : Repr s a → Repr s (mergedSpec a g (gen a g) (a_sequence a)).
Proof.
  intros [[V1 V2 V3 V4] HO HC HN].
  assert (∀ g', gen (mergedSpec a g (gen a g) (a_sequence a)) g' = gen a g') as Eg
    by (intros g'; unfold mergedSpec; rewrite gen_setMeta; apply gen_setGen_same).
  split; [split; [|exact V2| |exact V4]| | |done].
  - intros r Hr Hi. rewrite (V1 r Hr) by done. destruct r as [| |g' f]; [done..|]. simpl. by rewrite Eg.
  - intros g' f Hg' HJ Hc. rewrite Eg. by apply V3.
  - destruct HO as [O1 O2 O3 O4 O5 O6 O7 O8 O9 O10]. split; try done.
    + intros g' Hg'. rewrite Eg. by apply O9.
    + intros g' Hg'. rewrite Eg. by apply O10.
  - rewrite HC. simpl. by rewrite Eg.
Qed.

Lemma mergePages_spec fuel s a g old family after :
  Repr s a → isFamily family → isU64 g → g ∉ a_junk a → (g ≤ a_next a)%Z →
  isU64 old → old ∉ a_junk a → g ≠ old →
  let names := (later after (prefixRows (s_db s) (diskPrefix old family))).*1 in
  length names < fuel →
  ∃ r s', mergePages fuel s family g old (a_sequence a) after = Some (r, s') ∧ sameEnv s s' ∧
    match r with
    | Ok n => ∃ G, foldl (mergeStep s family (gen a old)) (gen a g, a_sequence a) names = (G, n) ∧
                   Repr s' (mergedSpec a g G n)
    | Err _ => ∃ G n, (a_sequence a ≤ n)%Z ∧ Repr s' (mergedSpec a g G n)
    end.
Proof.
  intros HR Hfam Hg HgJ Hgn Ho HoJ Hne. revert s a after HR HgJ Hgn HoJ.
  induction fuel as [|fuel IH]; intros s a after HR HgJ Hgn HoJ names Hf; [lia|].
  cbn [mergePages].
  destruct (scan s (diskPrefix old family) after DiskPageItems) as [page|e] eqn:Es.
  2: { exists (Err e), s. split_and!; [done..|]. exists (gen a g), (a_sequence a).
       split; [done|by apply Repr_merged_same]. }
  set (rows := prefixRows (s_db s) (diskPrefix old family)) in *.
  destruct (scan_later _ _ _ _ Es) as (rest & Hp & Hend). fold rows in Hp.
  destruct page as [|row0 page0].
  { rewrite (Hend eq_refl) in Hp. unfold names. rewrite Hp.
    exists (Ok (a_sequence a)), s. split_and!; [done..|]. eauto using Repr_merged_same. }
  set (page := row0 :: page0) in *.
  assert (∀ l v, (l, v) ∈ rows → genRowOf (gen a old) (familyRow family l) = Some v) as Hrows.
  { intros l v. by apply familyRows. }
  assert (∀ x, x ∈ page → x ∈ rows) as Hsub.
  { intros x Hx. assert (x ∈ later after rows) as Hin by (rewrite Hp; set_solver).
    by apply list_elem_of_filter in Hin as [_ ?]. }
  assert (NoDup (later after rows).*1) as Hnd.
  { apply (sorted_keys_NoDup (later after rows)). apply later_sorted, prefixRows_sorted. }
  destruct (mergePage s family g old page (a_sequence a, newDiskBatch)) as [[n b]|e] eqn:Em.
  2: { exists (Err e), s. split_and!; [done..|]. exists (gen a g), (a_sequence a).
       split; [done|by apply Repr_merged_same]. }
  pose proof (Repr_usable s a g HR Hg HgJ) as HUg. pose proof (Repr_usable s a old HR Ho HoJ) as HUo.
  pose proof (merging_start s a g HR HUg) as HM0.
  pose proof (mergePage_merging s a g old HR HUg HUo family page newDiskBatch (gen a g)
    (a_sequence a) (n, b) Hfam HM0) as Hpage.
  rewrite Hp, fmap_app in Hnd. apply NoDup_app in Hnd as (Hnd1 & _ & _).
  specialize (Hpage Hnd1 ltac:(intros; by apply Hrows, Hsub) ltac:(done) Em).
  destruct (foldl (mergeStep s family (gen a old)) (gen a g, a_sequence a) page.*1) as [G1 n1] eqn:Efold.
  cbn [fst snd] in Hpage. destruct Hpage as [-> HM1].
  assert (Prepared s a (bPut b "sequence" (diskNumber n1)) (mergedSpec a g G1 n1)) as HP.
  { apply (putMeta_Prepared s a b _ MSequence); [apply HM1|done|apply HM1]. }
  assert (okSpec (s_kind s) (mergedSpec a g G1 n1)) as HO1.
  { eapply (okSpec_oneGen _ a _ g); [apply HR|apply oneGen_sequence, oneGen_setGen|done| | |].
    - simpl. apply HM1.
    - simpl. apply HM1.
    - intros _. unfold mergedSpec. rewrite gen_setMeta, gen_setGen. apply HM1. }
  pose proof (write_Prepared s a _ _ HR HP HO1) as Hw.
  destruct (write s (bPut b "sequence" (diskNumber n1))) as [[[]|e] s1].
  2: { exists (Err e), s1. split_and!; [done|by apply sameData_env|].
       exists (gen a g), (a_sequence a). split; [done|]. apply Repr_merged_same. by eapply Repr_same. }
  destruct Hw as (HR1 & E1 & E2 & E3 & E4).
  set (a1 := mergedSpec a g G1 n1) in *.
  assert (gen a1 old = gen a old) as Eold by (unfold a1, mergedSpec; rewrite gen_setMeta, gen_setGen_ne; done).
  assert (prefixRows (s_db s1) (diskPrefix old family) = rows) as Erows.
  { apply sorted_ext; [apply prefixRows_sorted..|]. intros [l v]. unfold rows.
    rewrite (familyRows s1 a1), (familyRows s a), Eold by done. done. }
  destruct (last page) as [[k v]|] eqn:El; [|by apply last_None in El].
  cbn [fmap option_fmap option_map from_option id fst].
  assert (later k rows = rest) as Hk.
  { eapply (later_next rows after page rest k v); [apply prefixRows_sorted|done|done|].
    eapply familyRow_ne; [apply HUo|exact Hfam|]. apply (Hrows k v), Hsub. by apply last_Some_elem_of. }
  destruct (IH s1 a1 k HR1) as (r & s2 & R1 & R2 & R3); [done..| |].
  { rewrite Erows, Hk. unfold names in Hf. rewrite Hp, fmap_app, length_app in Hf. simpl in Hf. lia. }
  change (a_sequence a1) with n1 in *. exists r, s2. split_and!; [exact R1| |].
  - etrans; [|exact R2]. by split.
  - rewrite Eold, Erows, Hk, (mergeFold_env s s1) in R3 by done.
    assert (gen a1 g = G1) as Eg by (unfold a1, mergedSpec; by rewrite gen_setMeta, gen_setGen).
    rewrite Eg in R3. destruct r as [n|e].
    + destruct R3 as (G & EG & HG). exists G. unfold names. rewrite Hp, fmap_app, foldl_app, Efold.
      split; [done|]. unfold a1 in HG. by rewrite mergedSpec_again in HG.
    + destruct R3 as (G & n & Hn & HG). exists G, n. unfold a1 in HG. rewrite mergedSpec_again in HG.
      split; [|done]. pose proof (mg_fresh _ _ _ _ _ _ HM1). lia.
Qed.

(** ** Publication *)

(** The names of a family, each once. *)
Definition lists {A} (m : gmap string A) (names : list string) : Prop :=
  NoDup names ∧ ∀ l, l ∈ names ↔ is_Some (m !! l).

Lemma mergeFamily_spec s a g old family :
  Repr s a → isFamily family → isU64 g → g ∉ a_junk a → (g ≤ a_next a)%Z →
  isU64 old → old ∉ a_junk a → g ≠ old →
  ∃ r s', mergeFamily s family g old (a_sequence a) = Some (r, s') ∧ sameEnv s s' ∧
    match r with
    | Ok n => ∃ names G,
        NoDup names ∧
        (if (old =? 0)%Z && bool_decide (family = "d/") then names = []
         else ∀ l, l ∈ names ↔ is_Some (genRowOf (gen a old) (familyRow family l))) ∧
        foldl (mergeStep s family (gen a old)) (gen a g, a_sequence a) names = (G, n) ∧
        Repr s' (mergedSpec a g G n)
    | Err _ => ∃ G n, (a_sequence a ≤ n)%Z ∧ Repr s' (mergedSpec a g G n)
    end.
Proof.
  intros HR Hfam Hg HgJ Hgn Ho HoJ Hne. unfold mergeFamily. destruct (_ && _) eqn:E0.
  - exists (Ok (a_sequence a)), s. split_and!; [done..|]. exists [], (gen a g).
    split_and!; [constructor|done|done|by apply Repr_merged_same].
  - destruct (mergePages_spec (S (size (s_db s))) s a g old family "" HR Hfam Hg HgJ Hgn Ho HoJ Hne)
      as (r & s' & E & He & H).
    { rewrite later_start, length_fmap. pose proof (prefixRows_length (s_db s) (diskPrefix old family)). lia. }
    exists r, s'. split; [exact E|]. split; [exact He|]. destruct r as [n|e]; [|done].
    destruct H as (G & EG & HG). eexists _, G. split_and!; [| |exact EG|done].
    + rewrite later_start. apply sorted_keys_NoDup, prefixRows_sorted.
    + intros l. rewrite later_start, list_elem_of_fmap. split.
      * intros ([l' v] & -> & Hin). rewrite (familyRows s a) in Hin by done. simpl. rewrite Hin. eauto.
      * intros [v Hv]. exists (l, v). split; [done|]. by apply (familyRows s a).
Qed.

Definition specPublish (a : Spec) (g : Z) (G : Gen) (n : Z) (cursor : string) : Spec :=
  setMeta (setMeta (setCursor (setMeta (mergedSpec a g G n) MActive g) cursor)
             MGarbage (a_active a)) MStaging 0.

Lemma okSpec_publish kind a g G n cursor g' :
  okSpec kind (mergedSpec a g G n) → (g ≤ a_next a)%Z → a_staging a ≠ 0%Z → a_staging a = g →
  g ∉ a_junk a → g' = a_active a → g ≠ g' → okSpec kind (specPublish a g G n cursor).
Proof.
  intros [O1 O2 O3 O4 O5 O6 O7 O8 O9 O10] Hg H0 Eg HJ -> Hne. simpl in *. split; simpl; try done; lia.
Qed.

(** The items of the generation a snapshot replaces; there is none before the
    first one. *)
Definition priorGen (a : Spec) : Gen :=
  let Go := gen a (a_active a) in
  mkGen (if (a_active a =? 0)%Z then ∅ else g_items Go) (g_work Go) (g_related Go).

(** The three passes over the old generation. *)
Definition mergedBy (s : Disk) (a : Spec) (g : Z) (G : Gen) (n : Z) : Prop :=
  let Go := gen a (a_active a) in
  ∃ dn wn rn, lists (g_items (priorGen a)) dn ∧ lists (g_work Go) wn ∧ lists (g_related Go) rn ∧
    foldl (mergeStep s "r/" Go) (foldl (mergeStep s "w/" Go)
      (foldl (mergeStep s "d/" Go) (gen a g, a_sequence a) dn) wn) rn = (G, n).

Theorem FinishSnapshot_spec s a g cursor :
  Repr s a → (a_staging a = g → g ∉ a_junk a) →
  ∃ r s', FinishSnapshot g cursor s = Some (r, s') ∧ sameEnv s s' ∧
    match r with
    | Ok _ => a_staging a = g ∧ g ≠ 0%Z ∧
        ∃ G n, mergedBy s a g G n ∧ Repr s' (specPublish a g G n cursor)
    | Err _ => ∃ a', keepsActive a a' ∧ a_staging a' = a_staging a ∧ a_junk a' = a_junk a ∧ Repr s' a'
    end.
Proof.
  intros HR HJ. unfold FinishSnapshot.
  assert (∀ s', Repr s' a → ∃ a', keepsActive a a' ∧ a_staging a' = a_staging a ∧ a_junk a' = a_junk a ∧
    Repr s' a') as Hid by (intros; exists a; split_and!; auto using keepsActive_refl).
  destruct (_ || _); [exists (refuse "checkpoint: invalid snapshot cursor"), s; split_and!; [done..|by apply Hid]|].
  assert (mergedBy (addLong s 1) a g = mergedBy s a g) as Emb.
  { unfold mergedBy. reflexivity. }
  rewrite <- Emb. clear Emb. apply long_spec.
  { intros [[]|e] s'.
    - intros (? & ? & G & n & ? & ?). split_and!; [done..|]. exists G, n. eauto using Repr_addLong.
    - intros (a' & ? & ? & ? & ?). exists a'. eauto using Repr_addLong. }
  apply (Repr_addLong s a 1) in HR. revert HR. generalize (addLong s 1) as s0. clear s. intros s HR.
  pose proof (rp_ok _ _ HR) as HO.
  rewrite (number_staging s a HR). cbn [bind_result].
  destruct (Z.eqb_spec (a_staging a) g) as [Eg|].
  2: { simpl. eexists _, s. split_and!; [done..|]. by apply Hid. }
  destruct (Z.eqb_spec (a_staging a) 0) as [|H0]; simpl.
  { eexists _, s. split_and!; [done..|]. by apply Hid. }
  rewrite (number_active s a HR), (number_sequence s a HR). cbn [bind_result].
  set (old := a_active a).
  assert (isU64 g) as Hg by (rewrite <- Eg; by eapply staging_range).
  assert (g ∉ a_junk a) as HgJ by auto.
  assert (g ≤ a_next a)%Z as Hgn by (rewrite <- Eg; apply HO).
  assert (isU64 old) as Ho by (by eapply active_range).
  assert (old ∉ a_junk a) as HoJ by apply HO.
  assert (g ≠ old) as Hne by (rewrite <- Eg; by apply HO).
  assert (∀ G n s', (a_sequence a ≤ n)%Z → Repr s' (mergedSpec a g G n) →
    ∃ a', keepsActive a a' ∧ a_staging a' = a_staging a ∧ a_junk a' = a_junk a ∧ Repr s' a') as Hpart.
  { intros G n s' Hn HR'. exists (mergedSpec a g G n). split_and!; [|done..].
    split; try done. fold old. unfold mergedSpec. by rewrite gen_setMeta, gen_setGen_ne. }
  destruct (mergeFamily_spec s a g old "d/") as (r1 & s1 & E1 & He1 & H1); try done.
  { unfold isFamily. set_solver. }
  rewrite E1. destruct r1 as [n1|e]; cbn [andThen].
  2: { destruct H1 as (G & n & Hn & H1). eexists _, s1. split_and!; [done..|]. by eapply Hpart. }
  destruct H1 as (dn & G1 & Hdn1 & Hdn2 & Ed & HR1).
  assert (a_sequence a ≤ n1)%Z as Hn1.
  { pose proof (mergeFold_mono s "d/" (gen a old) (gen a g, a_sequence a) dn) as Hm. by rewrite Ed in Hm. }
  set (a1 := mergedSpec a g G1 n1) in *.
  assert (∀ G n, gen (mergedSpec a g G n) old = gen a old ∧ gen (mergedSpec a g G n) g = G) as Hgens.
  { intros. unfold mergedSpec. by rewrite !gen_setMeta, gen_setGen, gen_setGen_ne. }
  destruct (mergeFamily_spec s1 a1 g old "w/") as (r2 & s2 & E2 & He2 & H2); try done.
  { unfold isFamily. set_solver. }
  change (a_sequence a1) with n1 in *. rewrite E2. destruct r2 as [n2|e]; cbn [andThen].
  2: { destruct H2 as (G & n & Hn & H2). unfold a1 in H2. rewrite mergedSpec_again in H2.
       eexists _, s2. split_and!; [done|by etrans|]. eapply Hpart; [|exact H2]. lia. }
  destruct H2 as (wn & G2 & Hwn1 & Hwn2 & Ew & HR2).
  unfold a1 in HR2, Ew, Hwn2. rewrite mergedSpec_again in HR2.
  rewrite (proj1 (Hgens _ _)), (proj2 (Hgens _ _)), (mergeFold_env s s1) in Ew by apply He1.
  rewrite (proj1 (Hgens _ _)) in Hwn2.
  assert (n1 ≤ n2)%Z as Hn2.
  { pose proof (mergeFold_mono s "w/" (gen a old) (G1, n1) wn) as Hm. by rewrite Ew in Hm. }
  set (a2 := mergedSpec a g G2 n2) in *.
  destruct (mergeFamily_spec s2 a2 g old "r/") as (r3 & s3 & E3 & He3 & H3); try done.
  { unfold isFamily. set_solver. }
  change (a_sequence a2) with n2 in *. rewrite E3. destruct r3 as [n3|e]; cbn [andThen].
  2: { destruct H3 as (G & n & Hn & H3). unfold a2 in H3. rewrite mergedSpec_again in H3.
       eexists _, s3. split_and!; [done|etrans; [exact He1|by etrans]|].
       eapply Hpart; [|exact H3]. lia. }
  destruct H3 as (rn & G3 & Hrn1 & Hrn2 & Er & HR3).
  unfold a2 in HR3, Er, Hrn2. rewrite mergedSpec_again in HR3.
  rewrite (proj1 (Hgens _ _)), (proj2 (Hgens _ _)), (mergeFold_env s s2) in Er
    by (destruct He1, He2; congruence).
  rewrite (proj1 (Hgens _ _)) in Hrn2.
  assert (n2 ≤ n3)%Z as Hn3.
  { pose proof (mergeFold_mono s "r/" (gen a old) (G2, n2) rn) as Hm. by rewrite Er in Hm. }
  assert (sameEnv s s3) as He by (etrans; [exact He1|by etrans]).
  set (b := bDelete _ _).
  assert (Prepared s3 (mergedSpec a g G3 n3) b (specPublish a g G3 n3 cursor)) as HP.
  { apply (deleteMeta_Prepared _ _ _ _ MStaging); [|done].
    apply (putMeta_Prepared _ _ _ _ MGarbage); [|done..]. apply putCursor_Prepared.
    apply (putMeta_Prepared _ _ _ _ MActive); [|done..]. apply Prepared_start. apply HR3. }
  pose proof (write_Prepared s3 _ b _ HR3 HP) as Hw.
  specialize (Hw (okSpec_publish _ _ _ _ _ _ _ (rp_ok _ _ HR3) Hgn H0 Eg HgJ eq_refl Hne)).
  destruct (write s3 b) as [[[]|e] s4].
  - destruct Hw as (HR4 & ? & ? & ? & ?). exists (Ok tt), s4. split_and!; [done| |done|congruence|].
    { etrans; [exact He|by split]. }
    exists G3, n3. split; [|exact HR4]. exists dn, wn, rn. fold old. split_and!.
    + split; [done|]. unfold priorGen. fold old. simpl g_items.
      destruct (Z.eqb_spec old 0); simpl in Hdn2.
      * rewrite Hdn2. intros l. rewrite lookup_empty. split; [set_solver|by intros []].
      * intros l. rewrite Hdn2. simpl. destruct (g_items (gen a old) !! l); split; intros []; eauto; done.
    + split; [done|]. rewrite andb_false_r in Hwn2. intros l. rewrite Hwn2. simpl.
      destruct (g_work (gen a old) !! l); split; intros []; eauto; done.
    + split; [done|]. rewrite andb_false_r in Hrn2. intros l. rewrite Hrn2. simpl.
      destruct (g_related (gen a old) !! l); split; intros []; eauto; done.
    + by rewrite Ed, Ew, Er.
  - exists (Err e), s4. split_and!; [done|etrans; [exact He|by apply sameData_env]|].
    eapply Hpart; [|eapply Repr_same; [exact Hw|exact HR3]]. lia.
Qed.
End snapshot.
