(* ===== verification/DiskFanout.v ===== *)
(** * Fan-out of the durable store

    [RequestFanout] records a sweep over a relation index (or over everything,
    under the index ["*"]); [ProcessFanout] advances it by a page, queueing the
    resources it finds. *)

From S2P Require Import Prelude WorkTypes DiskKeys DiskStore DiskSpec DiskBatch DiskPut.
From S2P Require Import DiskRefine DiskScan DiskSnapshot.
From stdpp Require Import sorting.
From Stdlib Require Import Ascii.

(** A page holds rows under the prefix, each once. *)
Lemma scan_sub s prefix after limit page :
  scan s prefix after limit = Ok page →
  NoDup page.*1 ∧ ∀ k v, (k, v) ∈ page → s_db s !! (prefix +:+ k) = Some v.
Proof.
  unfold scan. destruct (s_ctx s); [done|]. destruct (_ || _); [done|].
  intros (rest & E & _)%scanPage_prefix. rewrite list_filter_filter in E.
  pose proof (prefixRows_sorted (s_db s) prefix) as Hs. apply sorted_keys_NoDup in Hs. split.
  - match type of E with filter ?P ?l = _ =>
      assert (sublist (filter P l) l) as Hsub by apply sublist_filter end.
    rewrite E in Hsub. eapply sublist_NoDup; [exact Hs|].
    etrans; [|apply fmap_sublist, Hsub]. rewrite fmap_app. by apply sublist_inserts_r.
  - intros k v Hin. rewrite <- prefixRows_elem.
    assert ((k, v) ∈ page ++ rest) as Hin' by set_solver.
    rewrite <- E in Hin'. by apply list_elem_of_filter in Hin' as [_ ?].
Qed.

Section fanout.
Context {DC : DiskCodec} {DL : DiskCodecLaws}.

Lemma okSpec_setFanout kind a x o : okSpec kind a → okSpec kind (setFanout a x o).
Proof. intros []. by split. Qed.

Theorem RequestFanout_spec s a index :
  Repr s a →
  commits s (λ _ a', a' = a ∨ a' = setFanout a (encodeIndex index) (Some "{}"))
    (RequestFanout s index).
Proof.
  intros HR. unfold RequestFanout. destruct (_ || _); [done|].
  destruct (_ && _); [destruct (s_ctx s); [done|]; split; [done|]; eauto|].
  eapply commits_mono; [|eapply commits_write; [exact HR| |]].
  - intros _ a1 ->. by right.
  - eapply setFanout_Prepared; [apply Prepared_start, HR|done|done].
  - apply okSpec_setFanout, HR.
Qed.

(** ** Sweeps

    The active work after a page: every resource of the page is pending, and
    nothing else changed. *)
Record swept (a a' : Spec) (names : list string) : Prop := {
  sw_items : g_items (gen a' (a_active a)) = g_items (gen a (a_active a));
  sw_related : g_related (gen a' (a_active a)) = g_related (gen a (a_active a));
  sw_work l : if decide (l ∈ names) then is_Some (g_work (gen a' (a_active a)) !! l)
              else g_work (gen a' (a_active a)) !! l = g_work (gen a (a_active a)) !! l;
}.

Section page.
Context (s : Disk) (a : Spec) (everything : bool).
Hypothesis HR : Repr s a.
Notation g := (a_active a).

Lemma fanoutPage_merging page b G seq st :
  merging s a g b G seq → NoDup page.*1 → (∀ l v, (l, v) ∈ page → okName (s_kind s) l) →
  (∀ l, l ∈ page.*1 → g_work G !! l = g_work (gen a g) !! l) →
  fanoutPage s g everything page (seq, b) = Ok st →
  ∃ G', merging s a g st.2 G' st.1 ∧ (seq ≤ st.1)%Z ∧ g_related G' = g_related G ∧
    ∀ l, if decide (l ∈ page.*1) then is_Some (g_work G' !! l) else g_work G' !! l = g_work G !! l.
Proof.
  revert b G seq. induction page as [|[l v] page IH]; intros b G seq HM Hnd Hname Hun.
  - cbn [fanoutPage]. intros [= <-]. exists G. split_and!; [done..|]. intros l'. by rewrite decide_False by set_solver.
  - rewrite fmap_cons in *. apply NoDup_cons in Hnd as [Hl Hnd]. cbn [fanoutPage].
    assert (∀ l', l' ∈ page.*1 → l' ≠ l) as Hne by (intros l' ? ->; done).
    rewrite (tokenAt_usable s a g l (active_usable s a HR)).
    destruct ((if everything then Ok (default 0%Z (d_Token <$> g_work (gen a g) !! l)) else Ok 0%Z)
      : result Error Z) as [p|e] eqn:Ep; [|by destruct everything]. cbn [bind_result].
    destruct (Z.eqb_spec p 0) as [->|Hp]; simpl negb; cbn iota.
    + destruct (nextToken (seq, b).1) as [t|e] eqn:Et; [|done]. cbn [bind_result fst snd] in *.
      apply nextToken_Ok in Et as (-> & Hu & Hpos); [|apply HM].
      set (w := mkSchedule (seq + 1) 0 (if everything then 1 else 0) 0 "" 0).
      assert (okSchedule (seq + 1) (stamp s w)) as Hw.
      { eapply stamp_ok; [exact HR|]. unfold w. split; simpl; [lia|lia|destruct everything; lia]. }
      destruct (queueWork_usable s a g b (setGen a g G) l w (active_usable s a HR))
        as (b1 & Eb & HP); [apply HM|rewrite gen_setGen; apply Hun; set_solver|by eapply okSchedule_fields|].
      rewrite Eb. cbn [bind_result]. rewrite setWork_setGen in HP. intros Hrest.
      destruct (IH b1 (workG G l (Some (stamp s w))) (seq + 1)%Z) as (G' & HM' & Hs & Hr' & Hw'); try done.
      * eapply merging_next; [exact HM|exact HP|done| |done|lia].
        apply okGenState_work; [eapply okGenState_mono; [|apply HM]; lia|].
        intros st' [= <-]. split; [|done]. eapply Hname. by left.
      * intros l' v' Hin. eapply Hname. by right.
      * intros l' Hin. simpl. rewrite lookup_partial_alter_ne by (apply not_eq_sym, Hne, Hin).
        apply Hun. by right.
      * exists G'. split_and!; [done|lia|done|]. intros l'. specialize (Hw' l').
        destruct (decide (l' ∈ page.*1)).
        -- rewrite decide_True by set_solver. done.
        -- rewrite Hw'. simpl. destruct (decide (l' = l)) as [->|].
           ++ rewrite decide_True, lookup_partial_alter_eq by set_solver. eauto.
           ++ rewrite decide_False, lookup_partial_alter_ne by set_solver. done.
    + destruct everything; [|simplify_eq]. injection Ep as <-. intros Hrest.
      destruct (IH b G seq HM Hnd) as (G' & HM' & Hs & Hr' & Hw'); [|intros; apply Hun; by right|done|].
      { intros l' v' Hin. eapply Hname. by right. }
      exists G'. split_and!; [done..|]. intros l'. specialize (Hw' l').
      destruct (decide (l' ∈ page.*1)); [by rewrite decide_True by set_solver|].
      destruct (decide (l' = l)) as [->|]; [|by rewrite decide_False by set_solver].
      rewrite decide_True by set_solver. rewrite Hw', (Hun l) by set_solver.
      destruct (g_work (gen a g) !! l); [eauto|done].
Qed.
End page.

Theorem ProcessFanout_spec s a :
  Repr s a →
  commits s (λ more a', a_staging a = 0%Z ∧ ∃ names, swept a a' names ∧
    a_active a' = a_active a ∧ a_cursor a' = a_cursor a ∧ a_staging a' = 0%Z ∧ a_junk a' = a_junk a ∧
    (a_sequence a ≤ a_sequence a')%Z ∧ (more = false → a' = a)) (ProcessFanout s).
Proof.
  intros HR. unfold ProcessFanout. pose proof (rp_ok _ _ HR) as HO.
  rewrite (number_staging s a HR). destruct (Z.eqb_spec (a_staging a) 0) as [Es|]; [|done]. simpl negb. cbn iota.
  rewrite (number_active s a HR). destruct (Z.eqb_spec (a_active a) 0) as [|Hact]; [done|].
  assert (∀ a', swept a a' [] ↔ gen a' (a_active a) = gen a (a_active a)) as Hnone.
  { intros a'. split.
    - intros [E1 E2 E3].
      assert (g_work (gen a' (a_active a)) = g_work (gen a (a_active a))) as E4.
      { apply map_eq. intros l. specialize (E3 l). by rewrite decide_False in E3 by set_solver. }
      clear E3. destruct (gen a' (a_active a)), (gen a (a_active a)). simpl in *. congruence.
    - intros E. split; by rewrite ?E. }
  destruct (scan s "fanout/" "" 1) as [tasks|e] eqn:Et; [|done].
  destruct tasks as [|[name data] tasks].
  { split; [done|]. exists a. split; [|done]. split; [done|]. exists []. rewrite Hnone. done. }
  destruct (decodeIndex name) as [index|]; [|done]. destruct (unmarshalFanout data) as [task|]; [|done].
  set (task' := if (f_Generation task =? a_active a)%Z then task else mkFanout (a_active a) "").
  set (everything := bool_decide (index = "*")).
  destruct (scan s (if everything then _ else _) (f_After task') DiskPageItems) as [page|e] eqn:Ep; [|done].
  apply scan_sub in Ep as [Hnd Hrows].
  assert (∀ l v, (l, v) ∈ page → okName (s_kind s) l) as Hname.
  { assert (∀ f l v, okGen f → isCount f = false → s_db s !! rowKey (RGen (a_active a) f) = Some v →
      f = GData l ∨ f = GIndex (encodeIndex index) l → okName (s_kind s) l) as Hit.
    { intros f l v Hf Hc Hdb Hor. rewrite (v_row _ _ _ (rp_view _ _ HR)) in Hdb;
        [|split; [by eapply active_range|done]|split; [apply HO|done]]. simpl in Hdb.
      assert (∃ it, g_items (gen a (a_active a)) !! l = Some it) as [it Hi].
      { destruct Hor as [-> | ->]; simpl in Hdb; destruct (g_items _ !! l); eauto; done. }
      destruct (og_items _ _ _ (active_gen _ _ HO) l it Hi). by exists (i_Key it). }
    intros l v Hin. specialize (Hrows l v Hin). destruct everything.
    - apply (Hit (GData l) l v); [done|done| |by left]. by rewrite <- dataKey.
    - apply (Hit (GIndex (encodeIndex index) l) l v); [apply encodeIndex_chars|done| |by right].
      by rewrite <- indexKey. }
  destruct page as [|row page0].
  - apply commits_acked.
    eapply commits_mono; [|apply (commits_write s a _ (setFanout a name None)); [exact HR| |]].
    + intros _ a1 ->. split; [done|]. exists []. rewrite Hnone. done.
    + eapply (setFanout_Prepared _ _ _ _ _ name None); [apply Prepared_start, HR|done|done].
    + by apply okSpec_setFanout.
  - set (page := row :: page0) in *. rewrite (number_sequence s a HR).
    destruct (fanoutPage s (a_active a) everything page (a_sequence a, newDiskBatch)) as [[t b]|e] eqn:Ef; [|done].
    assert (merging s a (a_active a) newDiskBatch (gen a (a_active a)) (a_sequence a)) as HM0.
    { apply merging_start; [done|eauto using active_usable]. }
    destruct (fanoutPage_merging s a everything HR page newDiskBatch _ _ (t, b) HM0 Hnd Hname ltac:(done) Ef)
      as (G & HM & Hs & Hrel & Hw). cbn [fst snd] in *.
    set (task2 := mkFanout _ _).
    apply commits_acked.
    set (a' := setMeta (setFanout (setGen a (a_active a) G) name (Some (marshalFanout task2))) MSequence t).
    eapply commits_mono; [|apply (commits_write s a _ a'); [exact HR| |]].
    + intros _ a1 ->. split; [done|]. exists page.*1. split_and!; try done.
      * split.
        -- unfold gen at 1. simpl. rewrite lookup_insert_eq. simpl. apply HM.
        -- unfold gen at 1. simpl. rewrite lookup_insert_eq. simpl. exact Hrel.
        -- intros l. specialize (Hw l). case_decide; unfold gen at 1; simpl; rewrite lookup_insert_eq; done.
    + apply (putMeta_Prepared s a _ _ MSequence); [|done|apply HM].
      eapply (setFanout_Prepared _ _ _ _ _ name (Some (marshalFanout task2))); [apply HM|done|done].
    + eapply (okSpec_oneGen _ a _ (a_active a)); [done| |apply HO| | |].
      * split; try done. intros g' Hg'. unfold gen. simpl. by rewrite lookup_insert_ne.
      * exact Hs.
      * apply HM.
      * intros _. unfold gen. simpl. rewrite lookup_insert_eq. simpl. apply HM.
Qed.
End fanout.
