(* ===== verification/DiskMerge.v ===== *)
(** * What publishing a snapshot keeps

    The fold of [DiskSnapshot] evaluated: which names are pending in the
    generation [FinishSnapshot] publishes, and under which schedule. *)

From S2P Require Import Prelude WorkTypes DiskKeys DiskStore DiskSpec DiskBatch DiskPut.
From S2P Require Import DiskRefine DiskScan DiskSnapshot.

Section merge_facts.
Context {DC : DiskCodec} {DL : DiskCodecLaws}.

(** ** One step *)

Lemma mergeStep_d s Go st l : mergeStep s "d/" Go st l = dataStep Go st l.
Proof. done. Qed.
Lemma mergeStep_w s Go st l : mergeStep s "w/" Go st l = workStep s Go st l.
Proof. done. Qed.
Lemma mergeStep_r s Go st l : mergeStep s "r/" Go st l = relatedStep st l.
Proof. done. Qed.

Lemma mergeStep_items s family Go st l : g_items (mergeStep s family Go st l).1 = g_items st.1.
Proof.
  destruct st as [G n]. unfold mergeStep, relatedStep, dataStep, workStep.
  repeat case_match; done.
Qed.
Lemma mergeStep_elsewhere s family Go st l l' :
  l' ≠ l → g_work (mergeStep s family Go st l).1 !! l' = g_work st.1 !! l'.
Proof.
  intros Hne. destruct st as [G n]. unfold mergeStep, relatedStep, dataStep, workStep.
  repeat case_match; try done; simpl; by rewrite lookup_partial_alter_ne.
Qed.
Lemma relateG_keeps G keys t k :
  is_Some (g_related G !! k) → is_Some (g_related (relateG G keys t) !! k).
Proof.
  unfold relateG. simpl. generalize (g_related G) as m. induction keys as [|key keys IH]; intros m Hm; [done|].
  simpl. apply IH. destruct (decide (relatedLogical key = k)) as [<-|];
    [rewrite lookup_insert_eq; eauto|by rewrite lookup_insert_ne].
Qed.
Lemma mergeStep_related s family Go st l k :
  is_Some (g_related st.1 !! k) → is_Some (g_related (mergeStep s family Go st l).1 !! k).
Proof.
  destruct st as [G n]. unfold mergeStep, relatedStep, dataStep, workStep. intros Hk.
  repeat case_match; try done; repeat apply relateG_keeps; try done.
  simpl. destruct (decide (l = k)) as [<-|]; [rewrite lookup_insert_eq; eauto|by rewrite lookup_insert_ne].
Qed.

(** ** Folds *)

Lemma mergeFold_items s family Go st ls : g_items (foldl (mergeStep s family Go) st ls).1 = g_items st.1.
Proof.
  revert st. induction ls as [|l ls IH]; intros st; [done|]. simpl. by rewrite IH, mergeStep_items.
Qed.
Lemma mergeFold_elsewhere s family Go st ls l' :
  l' ∉ ls → g_work (foldl (mergeStep s family Go) st ls).1 !! l' = g_work st.1 !! l'.
Proof.
  revert st. induction ls as [|l ls IH]; intros st Hl; [done|]. apply not_elem_of_cons in Hl as [Hne Hl].
  simpl. rewrite IH by done. by apply mergeStep_elsewhere.
Qed.
Lemma mergeFold_related s family Go st ls k :
  is_Some (g_related st.1 !! k) → is_Some (g_related (foldl (mergeStep s family Go) st ls).1 !! k).
Proof.
  revert st. induction ls as [|l ls IH]; intros st Hk; [done|]. simpl. apply IH.
  by apply mergeStep_related.
Qed.
Lemma mergeFold_r_work s Go st ls : g_work (foldl (mergeStep s "r/" Go) st ls).1 = g_work st.1.
Proof.
  revert st. induction ls as [|x ls IH]; intros st; [done|]. simpl. rewrite IH. by destruct st.
Qed.
(** A name is changed by its own step only. *)
Lemma mergeFold_at s family Go st ls l :
  NoDup ls → l ∈ ls →
  ∃ st', g_items st'.1 = g_items st.1 ∧ g_work st'.1 !! l = g_work st.1 !! l ∧ (st.2 ≤ st'.2)%Z ∧
    g_work (foldl (mergeStep s family Go) st ls).1 !! l = g_work (mergeStep s family Go st' l).1 !! l.
Proof.
  revert st. induction ls as [|x ls IH]; intros st Hnd Hl; [set_solver|].
  apply NoDup_cons in Hnd as [Hx Hnd]. simpl. apply elem_of_cons in Hl as [->|Hl].
  - exists st. split_and!; [done..|]. by apply mergeFold_elsewhere.
  - destruct (IH (mergeStep s family Go st x) Hnd Hl) as (st' & E1 & E2 & E3 & E4).
    assert (l ≠ x) by congruence. exists st'. split_and!; [..|done].
    + by rewrite E1, mergeStep_items.
    + by rewrite E2, mergeStep_elsewhere.
    + pose proof (mergeFold_mono s family Go st [x]) as Hm. simpl in Hm. lia.
Qed.

(** ** The published generation *)

(** The projections of a name agree in both generations. *)
Definition sameItem (prior current : option DiskItem) : Prop :=
  match prior, current with
  | Some p, Some c => projectionChanged p c = false
  | _, _ => False
  end.
Lemma unchanged_iff c p :
  relationsChanged c p = false ∧
  (bool_decide (i_Version c = i_Version p) && bool_decide (i_Value c = i_Value p)) = true ↔
  projectionChanged p c = false.
Proof.
  unfold projectionChanged, relationsChanged. repeat case_bool_decide; simpl; split; intros;
    try done; destruct_and?; congruence.
Qed.

Section published.
Context (s : Disk) (a : Spec) (g : Z) (G : Gen) (n : Z).
Hypothesis HM : mergedBy s a g G n.
Notation Go := (priorGen a).
Notation staged := (gen a g).

Lemma published_items : g_items G = g_items staged.
Proof.
  destruct HM as (dn & wn & rn & _ & _ & _ & E).
  apply (f_equal (g_items ∘ fst)) in E. simpl in E. by rewrite !mergeFold_items in E.
Qed.

(** Unfinished work is carried over: under a fresh token, on its own schedule
    unless the item changed. *)
Lemma published_carried l w :
  g_work Go !! l = Some w →
  ∃ t, (a_sequence a < t)%Z ∧
    g_work G !! l = Some (carried s (g_items (gen a (a_active a)) !! l) (g_items staged !! l) w t).
Proof.
  intros Hw. destruct HM as (dn & wn & rn & _ & [Hwn1 Hwn2] & [Hrn1 Hrn2] & E).
  set (Ga := gen a (a_active a)) in *.
  set (st1 := foldl (mergeStep s "d/" Ga) (staged, a_sequence a) dn) in *.
  assert (a_sequence a ≤ st1.2)%Z as Hn1 by apply (mergeFold_mono s "d/" Ga (staged, a_sequence a) dn).
  destruct (mergeFold_at s "w/" Ga st1 wn l Hwn1) as (st' & E1 & E2 & E3 & E4).
  { rewrite Hwn2. eauto. }
  apply (f_equal (λ x, g_work x.1 !! l)) in E. simpl in E.
  set (st2 := foldl (mergeStep s "w/" Ga) st1 wn) in *.
  exists (st'.2 + 1)%Z. split; [lia|]. rewrite <- E, mergeFold_r_work, E4, mergeStep_w. destruct st' as [G' n'].
  assert (g_work Ga !! l = Some w) as Hwa by exact Hw.
  unfold workStep. rewrite Hwa. simpl. rewrite lookup_partial_alter_eq. simpl in E1.
  rewrite E1. unfold st1. by rewrite mergeFold_items.
Qed.

Lemma published_related k : is_Some (g_related Go !! k) → is_Some (g_related G !! k).
Proof.
  intros Hk. destruct HM as (dn & wn & rn & _ & _ & [Hrn1 Hrn2] & E).
  apply (f_equal (λ x, g_related x.1 !! k)) in E. simpl in E. rewrite <- E. clear E.
  assert (k ∈ rn) as Hin by (by rewrite Hrn2).
  set (st := foldl (mergeStep s "w/" _) _ wn). clearbody st. revert st Hin. clear.
  induction rn as [|x rn IH]; intros st Hin; [set_solver|]. simpl.
  apply elem_of_cons in Hin as [->|Hin]; [|by apply IH].
  apply mergeFold_related. destruct st as [G' n']. rewrite mergeStep_r. simpl. rewrite lookup_insert_eq. eauto.
Qed.

(** What is pending once a snapshot is published: the unfinished work, the
    deleted resources, and the staged ones except those that are unchanged. *)
Lemma published_pending l :
  is_Some (g_work G !! l) ↔
    is_Some (g_work Go !! l) ∨
    (is_Some (g_items Go !! l) ∧ g_items staged !! l = None) ∨
    (is_Some (g_work staged !! l) ∧ ¬ sameItem (g_items Go !! l) (g_items staged !! l)).
Proof.
  destruct (g_work Go !! l) as [w|] eqn:Hw.
  { destruct (published_carried l w Hw) as (t & _ & ->). split; [eauto|]. eauto. }
  destruct HM as (dn & wn & rn & [Hdn1 Hdn2] & [Hwn1 Hwn2] & [Hrn1 Hrn2] & E).
  set (Ga := gen a (a_active a)) in *.
  apply (f_equal (λ x, g_work x.1 !! l)) in E. simpl in E. rewrite <- E. clear E.
  set (st1 := foldl (mergeStep s "d/" Ga) (staged, a_sequence a) dn).
  rewrite mergeFold_r_work, mergeFold_elsewhere by (rewrite Hwn2; unfold Ga in *; simpl in Hw; rewrite Hw; by intros []).
  unfold st1. clear st1. assert (g_work Ga !! l = None) as Hwa by exact Hw.
  destruct (g_items Go !! l) as [p|] eqn:Hp.
  - destruct (mergeFold_at s "d/" Ga (staged, a_sequence a) dn l Hdn1) as ([G' n'] & E1 & E2 & _ & ->).
    { rewrite Hdn2, Hp. eauto. }
    assert (g_items Ga !! l = Some p) as Hpa.
    { unfold priorGen in Hp. simpl in Hp. fold Ga in Hp. destruct (a_active a =? 0)%Z; [done|exact Hp]. }
    rewrite mergeStep_d. simpl in E1, E2. unfold dataStep. rewrite Hpa, E1.
    destruct (g_items staged !! l) as [c|] eqn:Hc.
    + pose proof (unchanged_iff c p) as Hu. unfold sameItem.
      destruct (relationsChanged c p).
      * simpl. rewrite E2. split; [|naive_solver]. intros ?. right; right. split; [done|].
        rewrite <- Hu. naive_solver.
      * destruct (bool_decide (i_Version c = i_Version p) && _).
        -- rewrite Hwa. simpl. rewrite lookup_partial_alter_eq. split; [by intros []|]. naive_solver.
        -- simpl. rewrite E2. split; [|naive_solver]. intros ?. right; right. split; [done|].
           rewrite <- Hu. naive_solver.
    + simpl. rewrite lookup_partial_alter_eq. split; [eauto|]. eauto.
  - rewrite mergeFold_elsewhere by (rewrite Hdn2, Hp; by intros []). simpl. naive_solver.
Qed.
End published.
End merge_facts.
