(* ===== verification/DiskSystem.v ===== *)
(** * The durable store as a system

    Any interleaving of the operations on one store: the dispatcher enqueues,
    acknowledges and defers work, the runner of the kind applies the watch
    stream and takes snapshots, the process stops and opens the store again,
    and at any point the context is cancelled or the engine fails. Every
    reachable store represents an abstract state, and the work it owes
    disappears by acknowledgement only. *)

From S2P Require Import Prelude WorkTypes DiskKeys DiskStore DiskSpec DiskBatch DiskPut.
From S2P Require Import DiskRefine DiskScan DiskSnapshot DiskFanout DiskMerge.

Section system.
Context {DC : DiskCodec} {DL : DiskCodecLaws}.

(** ** Opening *)

Definition initialSpec : Spec := mkSpec ∅ 0 0 0 0 0 None ∅ ∅.
Lemma okSpec_initial kind : okSpec kind initialSpec.
Proof.
  assert (∀ g, gen initialSpec g = emptyGen) as Hg by done.
  split; simpl; unfold isU64; try done; try lia.
Qed.
Lemma View_initial : View {["schema" := "2"]} initialSpec initialSpec.
Proof.
  assert (∀ r, okRow r → r ≠ RMeta MSchema → ({["schema" := "2"]} : DB) !! rowKey r = None) as Hnone.
  { intros r Hr Hne. apply lookup_singleton_ne. change "schema" with (rowKey (RMeta MSchema)).
    by apply rowKey_ne. }
  split.
  - intros r Hr Hi. destruct (decide (r = RMeta MSchema)) as [->|Hne]; [done|]. rewrite Hnone by done.
    destruct r as [[]|b|g f]; try done. destruct Hi as [_ Hf]. by destruct f.
  - intros m Hm. unfold getNumber. change (metaKey m) with (rowKey (RMeta m)).
    rewrite Hnone; [by destruct m|done|by intros [= ->]].
  - intros g f Hg _ Hf. unfold getNumber. rewrite (Hnone (RGen g f)); [by destruct f| |done].
    split; [done|by destruct f].
  - intros k v [<- _]%lookup_singleton_Some. by exists (RMeta MSchema).
Qed.

(** [openSchema] accepts an empty database and one a store wrote. *)
Theorem OpenDiskStore_empty kind now s :
  (0 < now < 2 ^ 62)%Z → OpenDiskStore ∅ kind now = Ok s → Repr s initialSpec.
Proof.
  intros Hnow. unfold OpenDiskStore. destruct (bool_decide _); [done|]. destruct (negb _); [done|].
  unfold openSchema. rewrite lookup_empty, bool_decide_eq_true_2 by done. cbn [bind_result].
  change (<["schema" := "2"]> ∅) with ({["schema" := "2"]} : DB).
  pose proof View_initial as HV. unfold readCounts.
  pose proof (v_meta _ _ _ HV MActive eq_refl) as Ha. cbn [metaKey metaNum] in Ha. rewrite Ha. cbn [bind_result].
  rewrite pendingCountKey, poisonCountKey.
  rewrite !(v_count _ _ _ HV) by (done || unfold isU64; simpl; lia). cbn [bind_result].
  intros [= <-]. split; simpl; [done|apply okSpec_initial|done|done].
Qed.
Theorem OpenDiskStore_again s a kind now s' :
  Repr s a → s_kind s = kind → (0 < now < 2 ^ 62)%Z →
  OpenDiskStore (s_db s) kind now = Ok s' → Repr s' a.
Proof.
  intros [HV HO HC HN] Hk Hnow. unfold OpenDiskStore. destruct (bool_decide _); [done|].
  destruct (negb _); [done|]. unfold openSchema.
  pose proof (v_row _ _ _ HV (RMeta MSchema) I I) as Hs. change (rowKey (RMeta MSchema)) with "schema" in Hs.
  rewrite Hs. simpl rowOf. cbv iota beta. rewrite (bool_decide_eq_true_2 ("2" = "2")) by done. cbn [bind_result]. unfold readCounts.
  pose proof (v_meta _ _ _ HV MActive eq_refl) as Ha. cbn [metaKey metaNum] in Ha. rewrite Ha. cbn [bind_result].
  rewrite pendingCountKey, poisonCountKey.
  rewrite !(v_count _ _ _ HV) by (done || (by eapply active_range) || apply HO). cbn [bind_result].
  intros [= <-]. by split; simpl; subst.
Qed.

(** ** Steps

    The runner holds the generation it is staging between [BeginSnapshot] and
    [FinishSnapshot]; it starts over when one of them fails. *)
Record Sys : Type := mkSys { y_disk : Disk; y_handle : option Z }.

Inductive Label : Type :=
| LAcknowledge (key : WorkItemKey) (token : Z)
| LAcknowledgeRelated (key : WorkItemKey) (token : Z)
| LOther.

Inductive sys_step : Label → Sys → Sys → Prop :=
| st_Enqueue s h key r s' : Enqueue s key = (r, s') → sys_step LOther (mkSys s h) (mkSys s' h)
| st_Acknowledge s h key t r s' :
    Acknowledge s key t = (r, s') → sys_step (LAcknowledge key t) (mkSys s h) (mkSys s' h)
| st_DeferWork s h key t delay failure attempts r s' :
    (delay < 2 ^ 63)%Z → DeferWork s key t delay failure attempts = (r, s') →
    sys_step LOther (mkSys s h) (mkSys s' h)
| st_AcknowledgeRelated s h key t r s' :
    AcknowledgeRelated s key t = (r, s') → sys_step (LAcknowledgeRelated key t) (mkSys s h) (mkSys s' h)
| st_Apply s h it deleted enqueue cursor r s' :
    (deleted = false → storable it) → Apply s it deleted enqueue cursor = (r, s') →
    sys_step LOther (mkSys s h) (mkSys s' h)
| st_AdvanceCursor s h cursor r s' :
    AdvanceCursor s cursor = (r, s') → sys_step LOther (mkSys s h) (mkSys s' h)
| st_RequestFanout s h index r s' :
    RequestFanout s index = (r, s') → sys_step LOther (mkSys s h) (mkSys s' h)
| st_ProcessFanout s h r s' :
    ProcessFanout s = (r, s') → sys_step LOther (mkSys s h) (mkSys s' h)
| st_BeginSnapshot s h r s' :
    BeginSnapshot s = Some (r, s') →
    sys_step LOther (mkSys s h) (mkSys s' (match r with Ok g => Some g | Err _ => None end))
| st_PutSnapshotPage s g items r s' :
    Forall storable items → PutSnapshotPage s g items = (r, s') →
    sys_step LOther (mkSys s (Some g)) (mkSys s' (Some g))
| st_FinishSnapshot s g cursor r s' :
    FinishSnapshot g cursor s = Some (r, s') → sys_step LOther (mkSys s (Some g)) (mkSys s' None)
| st_CollectGarbage s r s' :
    CollectGarbage s = Some (r, s') → sys_step LOther (mkSys s None) (mkSys s' None)
| st_DiscardStaging s r s' :
    DiscardStaging s = Some (r, s') → sys_step LOther (mkSys s None) (mkSys s' None)
| st_reopen s h now s' :
    (0 < now < 2 ^ 62)%Z → OpenDiskStore (s_db s) (s_kind s) now = Ok s' →
    sys_step LOther (mkSys s h) (mkSys s' None)
| st_environment s h now ctx faults :
    (0 < now < 2 ^ 62)%Z →
    sys_step LOther (mkSys s h)
      (mkSys (mkDisk (s_db s) (s_kind s) (s_counts s) (s_longOperations s) (s_lastWrite s)
                (s_writeFailures s) now ctx faults) h).

(** The store represents [a], and what the runner stages is intact. *)
Record Inv (y : Sys) (a : Spec) : Prop := {
  iv_repr : Repr (y_disk y) a;
  iv_handle g : y_handle y = Some g → a_staging a = g ∧ g ∉ a_junk a;
}.
(** What a generation owes: resources to reconcile and owners to revisit. *)
Inductive Owed : Type := OWork (l : string) | ORelated (l : string).
#[global] Instance Owed_eq_dec : EqDecision Owed.
Proof. solve_decision. Defined.
Definition owes (G : Gen) (o : Owed) : Prop :=
  match o with OWork l => is_Some (g_work G !! l) | ORelated l => is_Some (g_related G !! l) end.
Definition pending (a : Spec) (o : Owed) : Prop := owes (gen a (a_active a)) o.
(** The call acknowledges what is owed, with the token it is owed under. *)
Definition settles (s : Disk) (a : Spec) (lab : Label) (o : Owed) : Prop :=
  match lab, o with
  | LAcknowledge key t, OWork l => logical s key = Ok l ∧ holdsToken a l t
  | LAcknowledgeRelated key t, ORelated l =>
      relatedLogical key = l ∧ g_related (gen a (a_active a)) !! l = Some t
  | _, _ => False
  end.
(** Whatever was pending stays so, the acknowledged piece apart. *)
Definition survives (lab : Label) (s : Disk) (a a' : Spec) : Prop :=
  ∀ o, pending a o → pending a' o ∨ settles s a lab o.

(** ** Changes that only add to what is owed *)

Definition grows (G G' : Gen) : Prop := ∀ o, owes G o → owes G' o.
#[local] Instance grows_refl : Reflexive grows.
Proof. by intros G o. Qed.
#[local] Instance grows_trans : Transitive grows.
Proof. intros G1 G2 G3 H1 H2 o Ho. by apply H2, H1. Qed.

Lemma grows_setWork a g l st : grows (gen a g) (gen (setWork a g l (Some st)) g).
Proof.
  unfold setWork. rewrite gen_setGen. intros [l'|l']; simpl; [|done].
  destruct (decide (l = l')) as [<-|]; [rewrite lookup_partial_alter_eq; eauto|by rewrite lookup_partial_alter_ne].
Qed.
Lemma grows_setRelated a g l t : grows (gen a g) (gen (setRelated a g l (Some t)) g).
Proof.
  unfold setRelated. rewrite gen_setGen. intros [l'|l']; simpl; [done|].
  destruct (decide (l = l')) as [<-|]; [rewrite lookup_partial_alter_eq; eauto|by rewrite lookup_partial_alter_ne].
Qed.
Lemma grows_relateAll a g keys t : grows (gen a g) (gen (relateAll g a keys t) g).
Proof.
  revert a. induction keys as [|key keys IH]; intros a; [done|].
  etrans; [apply (grows_setRelated a g (relatedLogical key) t)|apply IH].
Qed.
Lemma grows_specPut s a g l new t p : grows (gen a g) (gen (specPut s a g l new t p) g).
Proof.
  unfold specPut. set (keys := putRelated _ new).
  assert (grows (gen a g) (gen (relateAll g (setItem a g l new) keys t) g)) as H.
  { etrans; [|apply grows_relateAll]. unfold setItem. rewrite gen_setGen. by intros []. }
  destruct p; [|done]. etrans; [exact H|apply grows_setWork].
Qed.

Lemma survives_grows lab s a a' :
  a_active a' = a_active a → grows (gen a (a_active a)) (gen a' (a_active a)) → survives lab s a a'.
Proof. intros E Hg o Ho. left. unfold pending. rewrite E. by apply Hg. Qed.
Lemma survives_keeps lab s a a' : keepsActive a a' → survives lab s a a'.
Proof. intros [E1 E2 _ _ _]. apply survives_grows; [done|by rewrite E2]. Qed.

(** A step that commits at most one batch: its successor, given what happens
    on success. *)
Lemma commits_step {A} lab s h a (P : A → Spec → Prop) r s' :
  Inv (mkSys s h) a → commits s P (r, s') →
  (∀ x a', r = Ok x → P x a' →
     a_staging a' = a_staging a ∧ a_junk a' = a_junk a ∧ survives lab s a a') →
  ∃ a', Inv (mkSys s' h) a' ∧ survives lab s a a'.
Proof.
  intros [HR Hh] Hc HP. simpl in HR, Hh. destruct r as [x|e]; simpl in Hc.
  - destruct Hc as (_ & a' & Hx & HR'). destruct (HP x a' eq_refl Hx) as (E1 & E2 & Hs).
    exists a'. split; [|done]. split; [done|]. simpl. intros g Hg. rewrite E1, E2. by apply Hh.
  - exists a. split; [split; [by eapply Repr_same|done]|]. by apply survives_grows.
Qed.

Lemma specPut_meta s a g l new t p :
  a_active (specPut s a g l new t p) = a_active a ∧ a_staging (specPut s a g l new t p) = a_staging a ∧
  a_junk (specPut s a g l new t p) = a_junk a ∧
  ∀ g', g' ≠ g → gen (specPut s a g l new t p) g' = gen a g'.
Proof.
  unfold specPut. set (keys := putRelated _ new).
  assert (∀ a, a_active (relateAll g a keys t) = a_active a ∧ a_staging (relateAll g a keys t) = a_staging a ∧
    a_junk (relateAll g a keys t) = a_junk a ∧ ∀ g', g' ≠ g → gen (relateAll g a keys t) g' = gen a g') as Hr.
  { induction keys as [|key keys IH]; intros a0; [done|].
    destruct (IH (setRelated a0 g (relatedLogical key) (Some t))) as (E1 & E2 & E3 & E4).
    unfold relateAll in *. simpl. split_and!; [exact E1|exact E2|exact E3|].
    intros g' Hne. rewrite E4 by done. unfold setRelated. by rewrite gen_setGen_ne. }
  destruct (Hr (setItem a g l new)) as (E1 & E2 & E3 & E4).
  destruct p; (split_and!; [exact E1|exact E2|exact E3|]); intros g' Hne.
  - unfold setWork. rewrite gen_setGen_ne, E4 by done. unfold setItem. by rewrite gen_setGen_ne.
  - rewrite E4 by done. unfold setItem. by rewrite gen_setGen_ne.
Qed.
Lemma specPage_meta s a g items t :
  a_active (specPage s a g items t) = a_active a ∧ a_staging (specPage s a g items t) = a_staging a ∧
  a_junk (specPage s a g items t) = a_junk a ∧
  ∀ g', g' ≠ g → gen (specPage s a g items t) g' = gen a g'.
Proof.
  revert a t. induction items as [|it items IH]; intros a t; [done|]. simpl.
  destruct (IH (specPut s a g (nameOf it) (Some it) (t + 1) (Some 1%Z)) (t + 1)%Z) as (E1 & E2 & E3 & E4).
  destruct (specPut_meta s a g (nameOf it) (Some it) (t + 1) (Some 1%Z)) as (F1 & F2 & F3 & F4).
  split_and!; [by rewrite <- F1|by rewrite <- F2|by rewrite <- F3|]. intros g' Hne. by rewrite E4, F4.
Qed.

Lemma publish_gen a g G n cursor : gen (specPublish a g G n cursor) g = G.
Proof.
  unfold specPublish. rewrite !gen_setMeta. unfold gen, setCursor, mergedSpec. simpl.
  by rewrite lookup_insert_eq.
Qed.
Lemma publish_survives s a g G n cursor lab :
  mergedBy s a g G n → survives lab s a (specPublish a g G n cursor).
Proof.
  intros HM o Ho. left. unfold pending.
  change (a_active (specPublish a g G n cursor)) with g. rewrite publish_gen. destruct o as [l|l].
  - apply (published_pending s a g G n HM l). left. exact Ho.
  - apply (published_related s a g G n HM l). exact Ho.
Qed.

Lemma junk_reclaimed a : a_junk (reclaimed a) ⊆ a_junk a.
Proof.
  unfold reclaimed. destruct (a_staging a =? 0)%Z; simpl.
  - destruct (a_garbage a =? 0)%Z; simpl; set_solver.
  - destruct (a_garbage a =? 0)%Z; simpl; set_solver.
Qed.
Lemma gen_cleared_ne a g g' : g' ≠ g → gen (cleared a g) g' = gen a g'.
Proof. intros Hne. unfold gen, cleared. simpl. by rewrite lookup_delete_ne. Qed.
Lemma specBegin_keeps kind a : okSpec kind a → keepsActive a (specBegin a).
Proof.
  intros HO. destruct (reclaimed_meta a) as (E1 & E2 & E3 & E4 & E5).
  split; simpl; [done| |done|done|by rewrite E3].
  unfold specBegin. rewrite !gen_setMeta. unfold reclaimed.
  pose proof (ok_staging_ne _ _ HO) as H1. pose proof (ok_garbage_ne _ _ HO) as H2.
  destruct (Z.eqb_spec (a_staging a) 0); cbn [a_garbage cleared];
    destruct (Z.eqb_spec (a_garbage a) 0); rewrite ?gen_cleared_ne by (intros E; symmetry in E; tauto); done.
Qed.

(** ** Preservation, operation by operation *)

Section steps.
Context (s : Disk) (h : option Z) (a : Spec).
Hypothesis HI : Inv (mkSys s h) a.
#[local] Notation next lab out h' :=
  (∃ a', Inv (mkSys out h') a' ∧ survives lab s a a').

Lemma keep_step lab s' h' a' :
  Repr s' a' → keepsActive a a' → (∀ g, h' = Some g → a_staging a' = g ∧ g ∉ a_junk a') → next lab s' h'.
Proof. intros HR Hk Hh. exists a'. split; [by split|by apply survives_keeps]. Qed.

Lemma Enqueue_step lab key r s' : Enqueue s key = (r, s') → next lab s' h.
Proof.
  intros E. pose proof (Enqueue_spec s a key (iv_repr _ _ HI)) as Hc. rewrite E in Hc.
  eapply commits_step; [done|exact Hc|]. intros _ a' _ (l & _ & ->). split_and!; [done..|].
  apply survives_grows; [done|]. apply grows_setWork.
Qed.
Lemma Acknowledge_step key t r s' : Acknowledge s key t = (r, s') → next (LAcknowledge key t) s' h.
Proof.
  intros E. pose proof (Acknowledge_spec s a key t (iv_repr _ _ HI)) as Hc. rewrite E in Hc.
  eapply commits_step; [done|exact Hc|]. intros [] a' _ (l & Hl & Ht & ->); (split_and!; [done..|]);
    [|by apply survives_grows].
  intros o Ho. destruct (decide (o = OWork l)) as [->|Hne]; [by right|left].
  unfold pending, setWork. cbn [a_active setGen]. rewrite gen_setGen. destruct o as [l'|l']; [|done]. simpl.
  rewrite lookup_partial_alter_ne by congruence. exact Ho.
Qed.
Lemma DeferWork_step lab key t delay failure attempts r s' :
  (delay < 2 ^ 63)%Z → DeferWork s key t delay failure attempts = (r, s') → next lab s' h.
Proof.
  intros Hd E. pose proof (DeferWork_spec s a key t delay failure attempts (iv_repr _ _ HI) Hd) as Hc.
  rewrite E in Hc. eapply commits_step; [done|exact Hc|].
  intros [] a' _ (l & Hl & Ht & ->); (split_and!; [done..|]); apply survives_grows; [done| |done..].
  apply grows_setWork.
Qed.
Lemma AcknowledgeRelated_step key t r s' :
  AcknowledgeRelated s key t = (r, s') → next (LAcknowledgeRelated key t) s' h.
Proof.
  intros E. pose proof (AcknowledgeRelated_spec s a key t (iv_repr _ _ HI)) as Hc. rewrite E in Hc.
  eapply commits_step; [done|exact Hc|]. intros [] a' _ (Ht & ->); (split_and!; [done..|]);
    [|by apply survives_grows].
  intros o Ho. destruct (decide (o = ORelated (relatedLogical key))) as [->|Hne]; [by right|left].
  unfold pending, setRelated. cbn [a_active setGen]. rewrite gen_setGen. destruct o as [l'|l']; [done|]. simpl.
  rewrite lookup_partial_alter_ne by congruence. exact Ho.
Qed.
Lemma Apply_step lab it deleted enqueue cursor r s' :
  (deleted = false → storable it) → Apply s it deleted enqueue cursor = (r, s') → next lab s' h.
Proof.
  intros Hst E. pose proof (Apply_spec s a it deleted enqueue cursor (iv_repr _ _ HI) Hst) as Hc.
  rewrite E in Hc. eapply commits_step; [done|exact Hc|]. intros _ a' _ (_ & _ & l & _ & ->).
  destruct (specPut_meta s a (a_active a) l (if deleted then None else Some it) (a_sequence a + 1)
    (if enqueue then Some 0%Z else None)) as (E1 & E2 & E3 & _).
  split_and!; [exact E2|exact E3|]. apply survives_grows; [exact E1|apply grows_specPut].
Qed.
Lemma AdvanceCursor_step lab cursor r s' : AdvanceCursor s cursor = (r, s') → next lab s' h.
Proof.
  intros E. pose proof (AdvanceCursor_spec s a cursor (iv_repr _ _ HI)) as Hc. rewrite E in Hc.
  eapply commits_step; [done|exact Hc|]. intros _ a' _ (_ & _ & ->). split_and!; [done..|].
  by apply survives_grows.
Qed.
Lemma RequestFanout_step lab index r s' : RequestFanout s index = (r, s') → next lab s' h.
Proof.
  intros E. pose proof (RequestFanout_spec s a index (iv_repr _ _ HI)) as Hc. rewrite E in Hc.
  eapply commits_step; [done|exact Hc|]. intros _ a' _ [-> | ->]; (split_and!; [done..|]);
    by apply survives_grows.
Qed.
Lemma ProcessFanout_step lab r s' : ProcessFanout s = (r, s') → next lab s' h.
Proof.
  intros E. pose proof (ProcessFanout_spec s a (iv_repr _ _ HI)) as Hc. rewrite E in Hc.
  eapply commits_step; [done|exact Hc|].
  intros _ a' _ (Hs & names & Hsw & Ha & _ & Hst & Hj & _). split_and!; [congruence|done|].
  apply survives_grows; [done|]. intros [l|l] Ho; simpl in *; [|by rewrite (sw_related _ _ _ Hsw)].
  pose proof (sw_work _ _ _ Hsw l) as Hw. case_decide; [done|by rewrite Hw].
Qed.
Lemma BeginSnapshot_step lab r s' :
  BeginSnapshot s = Some (r, s') → next lab s' (match r with Ok g => Some g | Err _ => None end).
Proof.
  intros E. pose proof (rp_ok _ _ (iv_repr _ _ HI)) as HO. simpl in HO.
  destruct (BeginSnapshot_spec s a (iv_repr _ _ HI)) as (r0 & s0 & E0 & _ & H). rewrite E in E0. injection E0 as <- <-.
  destruct r as [g|e].
  - destruct H as [-> HR]. eapply keep_step; [exact HR|by eapply specBegin_keeps|].
    intros g [= <-]. split; [done|]. intros Hj%junk_reclaimed.
    by destruct (ok_unused _ _ HO (a_next a + 1)); [lia|].
  - destruct H as (a' & Hk & HR). by eapply keep_step.
Qed.
Lemma PutSnapshotPage_step lab g items r s' :
  h = Some g → Forall storable items → PutSnapshotPage s g items = (r, s') → next lab s' h.
Proof.
  intros Hg Hst E. destruct (iv_handle _ _ HI g Hg) as [Es Hj]. pose proof (rp_ok _ _ (iv_repr _ _ HI)) as HO.
  pose proof (PutSnapshotPage_spec s a g items (iv_repr _ _ HI) (λ _, Hj) Hst) as Hc. rewrite E in Hc.
  eapply commits_step; [done|exact Hc|]. intros _ a' _ (_ & H0 & ->).
  destruct (specPage_meta s a g items (a_sequence a)) as (E1 & E2 & E3 & E4).
  split_and!; [exact E2|exact E3|]. apply survives_grows; [exact E1|].
  rewrite gen_setMeta, E4; [done|]. rewrite <- Es in *. intros E5.
  by apply (ok_staging_ne _ _ HO).
Qed.
Lemma FinishSnapshot_step lab g cursor r s' :
  h = Some g → FinishSnapshot g cursor s = Some (r, s') → next lab s' None.
Proof.
  intros Hg E. destruct (iv_handle _ _ HI g Hg) as [Es Hj].
  destruct (FinishSnapshot_spec s a g cursor (iv_repr _ _ HI) (λ _, Hj)) as (r0 & s0 & E0 & _ & H).
  rewrite E in E0. injection E0 as <- <-. destruct r as [[]|e].
  - destruct H as (_ & _ & G & n & HM & HR). eexists. split; [split; [exact HR|done]|by apply publish_survives].
  - destruct H as (a' & Hk & _ & _ & HR). by eapply keep_step.
Qed.
Lemma CollectGarbage_step lab r s' : CollectGarbage s = Some (r, s') → next lab s' None.
Proof.
  intros E. pose proof (rp_ok _ _ (iv_repr _ _ HI)) as HO. simpl in HO.
  destruct (CollectGarbage_spec s a (iv_repr _ _ HI)) as (r0 & s0 & E0 & _ & H). rewrite E in E0. injection E0 as <- <-.
  destruct r as [[]|e].
  - destruct H as [H0 HR]. eapply keep_step; [exact HR| |done].
    split; try done. rewrite gen_setMeta. simpl. apply gen_cleared_ne. intros Eg.
    destruct (decide (a_garbage a = 0%Z)); [congruence|]. by apply (ok_garbage_ne _ _ HO).
  - destruct H as (a' & Hk & HR). by eapply keep_step.
Qed.
Lemma DiscardStaging_step lab r s' : DiscardStaging s = Some (r, s') → next lab s' None.
Proof.
  intros E. pose proof (rp_ok _ _ (iv_repr _ _ HI)) as HO. simpl in HO.
  destruct (DiscardStaging_spec s a (iv_repr _ _ HI)) as (r0 & s0 & E0 & _ & H). rewrite E in E0. injection E0 as <- <-.
  destruct r as [[]|e].
  - eapply keep_step; [exact H| |done]. destruct (Z.eqb_spec (a_staging a) 0) as [|Hs]; [apply keepsActive_refl|].
    split; try done. rewrite gen_setMeta. simpl. apply gen_cleared_ne. intros Eg.
    by apply (ok_staging_ne _ _ HO).
  - destruct H as (a' & Hk & HR). by eapply keep_step.
Qed.
End steps.

Lemma step_preserves lab y y' a :
  Inv y a → sys_step lab y y' → ∃ a', Inv y' a' ∧ survives lab (y_disk y) a a'.
Proof.
  intros HI Hs. destruct Hs; simpl.
  - by eapply Enqueue_step.
  - by eapply Acknowledge_step.
  - by eapply DeferWork_step.
  - by eapply AcknowledgeRelated_step.
  - by eapply Apply_step.
  - by eapply AdvanceCursor_step.
  - by eapply RequestFanout_step.
  - by eapply ProcessFanout_step.
  - by eapply BeginSnapshot_step.
  - by eapply PutSnapshotPage_step.
  - by eapply FinishSnapshot_step.
  - by eapply CollectGarbage_step.
  - by eapply DiscardStaging_step.
  - exists a. split; [|by apply survives_grows]. split; [|done].
    eapply OpenDiskStore_again; [apply HI|done..].
  - exists a. split; [|by apply survives_grows]. destruct HI as [[] Hh]. split; [by split|exact Hh].
Qed.
End system.
