(* ===== verification/DiskReady.v ===== *)
(** * The ready index

    [Ready] reads the index of due work and nothing else. On a store that
    represents an abstract state it offers the due work that is not
    quarantined, live work before replayed work, the longest due first, and
    leaves out only what does not fit the page. *)

From S2P Require Import Prelude WorkTypes DiskKeys DiskStore DiskSpec DiskBatch DiskPut.
From S2P Require Import DiskRefine DiskScan.
From stdpp Require Import pretty sorting.

Section ready.
Context {DC : DiskCodec} {DL : DiskCodecLaws}.

(** ** Small rows never fill a page *)

Lemma scanPage_small bound limit size rows :
  (0 ≤ bound)%Z → (0 ≤ limit)%Z → (size + limit * bound ≤ DiskPageBytes)%Z → (bound ≤ DiskPageBytes)%Z →
  Forall (λ kv, len kv.1 + len kv.2 ≤ bound)%Z rows →
  scanPage "" limit size rows = Ok (take (Z.to_nat limit) rows).
Proof.
  intros Hb. revert limit size. induction rows as [|[k v] rows IH]; intros limit size Hl Hs Hd Hr.
  - by rewrite take_nil.
  - apply Forall_cons in Hr as [H1 H2]. simpl in H1. simpl scanPage.
    rewrite (proj2 (Z.ltb_ge DiskPageBytes (len k + len v))) by lia.
    destruct (Z.eqb_spec limit 0) as [->|Hne]; [done|]. simpl orb.
    rewrite (proj2 (Z.ltb_ge DiskPageBytes (size + (len k + len v)))) by nia.
    rewrite IH; [|lia|nia|done|done]. cbn [bind_result].
    replace (Z.to_nat limit) with (S (Z.to_nat (limit - 1))) by lia. done.
Qed.
Lemma scan_small s prefix limit bound :
  s_ctx s = None → (1 ≤ limit ≤ DiskPageItems)%Z → (0 ≤ bound)%Z → (DiskPageItems * bound ≤ DiskPageBytes)%Z →
  Forall (λ kv, len kv.1 + len kv.2 ≤ bound)%Z (prefixRows (s_db s) prefix) →
  scan s prefix "" limit = Ok (take (Z.to_nat limit) (prefixRows (s_db s) prefix)).
Proof.
  intros Hc Hl Hb Hd Hr. unfold scan. rewrite Hc.
  rewrite (proj2 (Z.ltb_ge limit 1)), (proj2 (Z.ltb_ge DiskPageItems limit)) by lia. cbn [orb].
  change (4096 <? len "")%Z with false. cbn iota.
  rewrite filter_all; [|apply Forall_forall; intros [k v] _; unfold String.le; by destruct k].
  apply (scanPage_small bound); unfold DiskPageItems, DiskPageBytes in *; try done; nia.
Qed.

(** ** Rows of the index *)

Definition readyKeyOf (due token : Z) (l : string) : string := diskNumber due +:+ diskNumber token +:+ l.
Definition queuePrefix (g p : Z) : string := diskPrefix g ("q/" +:+ pretty p +:+ "/").

Lemma queuePrefix_row g p d t l :
  (0 ≤ d < 2 ^ 64)%Z → queuePrefix g p +:+ readyKeyOf d t l = rowKey (RGen g (GReady p d t l)).
Proof.
  intros Hd. unfold queuePrefix, readyKeyOf. rewrite diskPrefix_app. unfold rowKey, genSuffix, readySuffix.
  rewrite u64_small by done. by rewrite !str_app_assoc.
Qed.
Lemma queue_row_inv g p k r :
  isU64 g → (0 ≤ p ≤ 1)%Z → okRow r → rowKey r = queuePrefix g p +:+ k →
  ∃ d t l, (0 ≤ d < 2 ^ 63)%Z ∧ isU64 t ∧ r = RGen g (GReady p d t l) ∧ k = readyKeyOf d t l.
Proof.
  intros Hg Hp Hr E. unfold queuePrefix in E. rewrite diskPrefix_app in E.
  destruct r as [m|b|g' f]; [destruct m; discriminate E|discriminate E|].
  destruct Hr as [Hg' Hf]. unfold rowKey in E. apply diskPrefix_inj in E as [-> E]; [|done..].
  assert (p = 0 ∨ p = 1)%Z as Hp' by lia.
  destruct f as [| | | |p' d t l| | | | |];
    try (destruct Hp' as [-> | ->]; discriminate E).
  destruct Hf as (Hp2 & Hd & Ht). exists d, t, l. split_and!; [lia|lia|exact Ht| |].
  - f_equal. simpl in E. unfold readySuffix in E.
    assert (p' = 0 ∨ p' = 1)%Z as Hp3 by lia.
    destruct Hp' as [-> | ->], Hp3 as [-> | ->]; try done; discriminate E.
  - simpl in E. unfold readySuffix in E. rewrite u64_small in E by lia.
    assert (p' = 0 ∨ p' = 1)%Z as Hp3 by lia. unfold readyKeyOf.
    destruct Hp' as [-> | ->], Hp3 as [-> | ->]; try discriminate E;
      change (pretty 0%Z) with "0" in E; change (pretty 1%Z) with "1" in E; rewrite !str_app_assoc in E.
    + by apply (inj (String.append "q/")), (inj (String.append "0")), (inj (String.append "/")) in E.
    + by apply (inj (String.append "q/")), (inj (String.append "1")), (inj (String.append "/")) in E.
Qed.

(** The order of the index is the order of its numbers. *)
Lemma compare_app_same x a b : String.compare (x +:+ a) (x +:+ b) = String.compare a b.
Proof.
  induction x as [|c x IH]; [done|]. rewrite !str_app_cons. cbn [String.compare].
  unfold Ascii.compare. by rewrite N.compare_refl.
Qed.
Definition numbersLe (d t d' t' : Z) : Prop := (d < d' ∨ (d = d' ∧ t ≤ t'))%Z.
Lemma readyKeyOf_le d t l d' t' l' :
  isU64 d → isU64 t → isU64 d' → isU64 t' →
  String.le (readyKeyOf d t l) (readyKeyOf d' t' l') → numbersLe d t d' t'.
Proof.
  intros Hd Ht Hd' Ht' Hle. unfold numbersLe.
  assert (∀ x y u v, isU64 x → isU64 y → (y < x)%Z →
    String.compare (diskNumber y +:+ v) (diskNumber x +:+ u) = Lt) as Hlt.
  { intros x y u v Hx Hy. unfold diskNumber, isU64 in *. by apply beBytes_lt. }
  destruct (Z.lt_trichotomy d d') as [|[->|Hgt]]; [by left| |exfalso].
  - right. split; [done|]. destruct (Z.le_gt_cases t t') as [|Hgt]; [done|exfalso].
    apply (str_le_not_lt _ _ Hle). unfold readyKeyOf. rewrite compare_app_same. by apply Hlt.
  - apply (str_le_not_lt _ _ Hle). by apply Hlt.
Qed.

Section state.
Context (s : Disk) (a : Spec).
Hypothesis HR : Repr s a.
Notation g := (a_active a).
Notation G := (gen a (a_active a)).

(** Work the index of a priority lists. *)
Definition listed (p : Z) (l : string) (st : DiskSchedule) : Prop :=
  g_work G !! l = Some st ∧ quarantined st = false ∧ d_Priority st = p.
Lemma listed_ok p l st : listed p l st → okName (s_kind s) l ∧ okSchedule (a_sequence a) st.
Proof. intros (H & _). by apply (og_work _ _ _ (active_gen _ _ (rp_ok _ _ HR))). Qed.
Lemma listed_numbers p l st : listed p l st → isU64 (d_Due st) ∧ isU64 (d_Token st).
Proof.
  intros [_ [H1 H2 H3]]%listed_ok. pose proof (ok_seq _ _ (rp_ok _ _ HR)). unfold isU64 in *. lia.
Qed.
Lemma queue_rows p k v :
  (0 ≤ p ≤ 1)%Z →
  (k, v) ∈ prefixRows (s_db s) (queuePrefix g p) ↔
  v = "" ∧ ∃ l st, listed p l st ∧ k = readyKeyOf (d_Due st) (d_Token st) l.
Proof.
  intros Hp. pose proof (rp_ok _ _ HR) as HO. rewrite prefixRows_elem.
  assert (∀ d t l, okGen (GReady p d t l) →
    s_db s !! rowKey (RGen g (GReady p d t l)) = workRowOf (g_work G !! l) (GReady p d t l)) as Hrow.
  { intros d t l Hf. rewrite (v_row _ _ _ (rp_view _ _ HR)); [done| |].
    - split; [by eapply active_range|done].
    - split; [apply HO|done]. }
  split.
  - intros Hk. destruct (v_cover _ _ _ (rp_view _ _ HR) _ _ Hk) as (r & Hr & Er).
    destruct (queue_row_inv g p k r) as (d & t & l & Hd & Ht & -> & ->); [by eapply active_range|done..|].
    rewrite <- Er, Hrow in Hk by (destruct Hr; done).
    destruct (g_work G !! l) as [st|] eqn:Ew; [|done]. simpl in Hk. destruct (quarantined st) eqn:Eq; [done|].
    case_decide as Hc; [|done]. destruct Hc as (-> & -> & ->). injection Hk as <-.
    split; [done|]. by exists l, st.
  - intros [-> (l & st & Hst & ->)]. destruct (listed_ok p l st Hst) as [_ Hok].
    destruct (listed_numbers p l st Hst) as [H1 H2]. destruct Hst as (Ew & Eq & Ep). destruct Hok as [_ Hd _].
    rewrite queuePrefix_row, Hrow by (cbn [okGen]; unfold isU64 in *; split_and?; lia).
    rewrite Ew. simpl. rewrite Eq. by rewrite decide_True.
Qed.

(** The work an entry of the index stands for. *)
Definition offers (p : Z) (w : DiskWork) (st : DiskSchedule) : Prop :=
  listed p (w_Cursor w) st ∧ w_Token w = d_Token st ∧ logical s (w_Key w) = Ok (w_Cursor w).
Definition rowWork (p : Z) (kv : string * string) (w : DiskWork) : Prop :=
  ∃ st, offers p w st ∧ kv.1 = readyKeyOf (d_Due st) (d_Token st) (w_Cursor w).
Definition isDue (now : Z) (w : DiskWork) : Prop :=
  ∃ st, g_work G !! w_Cursor w = Some st ∧ (d_Due st ≤ now)%Z.
(** Live work first, then by due time, then by age. *)
Definition before (w w' : DiskWork) : Prop :=
  ∃ st st', g_work G !! w_Cursor w = Some st ∧ g_work G !! w_Cursor w' = Some st' ∧
    (d_Priority st < d_Priority st' ∨
     d_Priority st = d_Priority st' ∧ numbersLe (d_Due st) (d_Token st) (d_Due st') (d_Token st'))%Z.

Lemma queue_row_work p kv :
  (0 ≤ p ≤ 1)%Z → kv ∈ prefixRows (s_db s) (queuePrefix g p) → ∃ w, rowWork p kv w.
Proof.
  intros Hp Hin. destruct kv as [k v]. apply queue_rows in Hin as [_ (l & st & Hst & ->)]; [|done].
  destruct (listed_ok p l st Hst) as [(key & Hk & Hl) _]. exists (mkWork key (d_Token st) l), st.
  split; [|done]. split_and!; [done..|]. unfold logical. simpl. by rewrite bool_decide_eq_true_2.
Qed.
Lemma rowWork_before p kv kv' w w' :
  rowLt kv kv' → rowWork p kv w → rowWork p kv' w' → before w w'.
Proof.
  intros [Hle _] (st & (Hst & _) & Ek) (st' & (Hst' & _) & Ek'). rewrite Ek, Ek' in Hle.
  pose proof (listed_numbers _ _ _ Hst) as [? ?]. pose proof (listed_numbers _ _ _ Hst') as [? ?].
  apply readyKeyOf_le in Hle; [|done..]. destruct Hst as (? & _ & ?), Hst' as (? & _ & ?).
  exists st, st'. split_and!; [done..|]. right. split; [congruence|done].
Qed.
Lemma rowWork_fun p kv w w' : rowWork p kv w → rowWork p kv w' → w = w'.
Proof.
  intros (st & (Hst & Et & Hl) & Ek) (st' & (Hst' & Et' & Hl') & Ek').
  pose proof (listed_numbers _ _ _ Hst) as [? ?]. pose proof (listed_numbers _ _ _ Hst') as [? ?].
  rewrite Ek in Ek'. unfold readyKeyOf in Ek'.
  apply str_app_inj_len in Ek' as [E1 E2]; [|by rewrite !diskNumber_length].
  apply str_app_inj_len in E2 as [E2 E3]; [|by rewrite !diskNumber_length].
  apply diskNumber_inj in E2; [|done..].
  apply logical_Ok in Hl as [Hk Hl], Hl' as [Hk' Hl']. destruct w as [key t l], w' as [key' t' l'].
  simpl in *. subst. f_equal; [|done]. eapply diskLogical_inj; [|done..]. congruence.
Qed.

Lemma substring_first p t : String.substring 0 (String.length p) (p +:+ t) = p.
Proof. induction p as [|c p IH]; [by destruct t|]. rewrite str_app_cons. simpl. by rewrite IH. Qed.
Lemma substring_mid p q t :
  String.substring (String.length p) (String.length q) (p +:+ q +:+ t) = q.
Proof. induction p as [|c p IH]; [exact (substring_first q t)|]. rewrite str_app_cons. simpl. exact IH. Qed.

(** One entry of the index, read. *)
Lemma readyRows_cons p now kv w page :
  rowWork p kv w → isU64 now →
  (isDue now w ∧ readyRows s now (kv :: page) =
     match readyRows s now page with Ok work => Ok (w :: work) | Err e => Err e end) ∨
  (¬ isDue now w ∧ readyRows s now (kv :: page) = Ok []).
Proof.
  intros (st & (Hst & Et & Hl) & Ek) Hnow. destruct kv as [k v]. simpl in Ek. subst k.
  pose proof (listed_numbers _ _ _ Hst) as [Hd Ht]. apply logical_Ok in Hl as [Hk Hl].
  pose proof (proj1 Hst) as Ew.
  set (d := d_Due st) in *. set (t := d_Token st) in *. set (l := w_Cursor w) in *.
  assert (String.substring 0 8 (readyKeyOf d t l) = diskNumber d) as S1.
  { pose proof (substring_first (diskNumber d) (diskNumber t +:+ l)) as H. by rewrite diskNumber_length in H. }
  assert (String.substring 8 8 (readyKeyOf d t l) = diskNumber t) as S2.
  { pose proof (substring_mid (diskNumber d) (diskNumber t) l) as H. by rewrite !diskNumber_length in H. }
  assert (String.substring 16 (String.length (readyKeyOf d t l) - 16) (readyKeyOf d t l) = l) as S3.
  { pose proof (DiskScan.substring_app (diskNumber d +:+ diskNumber t) l) as H.
    rewrite str_length_app, !diskNumber_length, str_app_assoc in H. exact H. }
  assert (17 ≤ len (readyKeyOf d t l))%Z as Hlen.
  { unfold len, readyKeyOf. rewrite !str_length_app, !diskNumber_length.
    assert (l ≠ "") by (intros E; rewrite E in Hl; apply diskLogical_Ok in Hl as [Hl _];
      by destruct (Namespace (w_Key w))).
    destruct l; [done|]. simpl. lia. }
  cbn [readyRows]. rewrite (proj2 (Z.ltb_ge _ 17)) by done. rewrite S1, S2, S3, !readNumber_diskNumber by done.
  rewrite <- Hk, (splitLogical_diskLogical _ _ Hl).
  destruct (Z.ltb_spec now d) as [Hlt|Hge].
  - right. split; [|done]. intros (st' & E' & Hd'). unfold l in Ew. rewrite Ew in E'. injection E' as <-. unfold d in *. lia.
  - left. split; [by exists st|]. cbn [bind_result]. destruct (readyRows s now page); [|done]. cbn [bind_result].
    do 2 f_equal. destruct w as [key tok cur]. simpl in *. by subst.
Qed.

(** A page of the entries of one priority. *)
Lemma readyRows_page p now n rows :
  isU64 now → StronglySorted rowLt rows → Forall (λ kv, ∃ w, rowWork p kv w) rows →
  ∃ works, readyRows s now (take n rows) = Ok works ∧ length works ≤ n ∧
    Forall (λ w, isDue now w ∧ ∃ kv, kv ∈ rows ∧ rowWork p kv w) works ∧ StronglySorted before works ∧
    ∀ kv w, kv ∈ rows → rowWork p kv w → isDue now w →
      w ∈ works ∨ (length works = n ∧ Forall (λ w', before w' w) works).
Proof.
  intros Hnow Hs. revert n. induction Hs as [|kv rows Hs IH Hlt]; intros n Hr.
  { exists []. rewrite take_nil. split_and!; [done|simpl; lia|by constructor..|]. intros kv w Hin. set_solver. }
  destruct n as [|n].
  { exists []. split_and!; [done|done|by constructor..|]. intros; by right. }
  apply Forall_cons in Hr as [[w0 Hw0] Hr]. rewrite firstn_cons. rewrite Forall_forall in Hlt.
  destruct (readyRows_cons p now kv w0 (take n rows) Hw0 Hnow) as [[Hdue E]|[Hdue E]].
  - destruct (IH n Hr) as (works & E1 & H1 & H2 & H3 & H4). rewrite E1 in E. exists (w0 :: works).
    assert (Forall (λ w, before w0 w) works) as Hb.
    { apply (Forall_impl _ _ _ H2). intros w (_ & kv' & Hin & Hw). by eapply rowWork_before; [apply Hlt| |]. }
    split_and!; [done|simpl; lia| |by constructor|].
    + constructor; [split; [done|]; exists kv; split; [left|done]|].
      eapply Forall_impl; [exact H2|]. intros w (? & kv' & ? & ?). split; [done|]. exists kv'. by split; [right|].
    + intros kv' w Hin Hw Hd. apply elem_of_cons in Hin as [->|Hin].
      * left. rewrite (rowWork_fun p kv w w0) by done. left.
      * destruct (H4 kv' w Hin Hw Hd) as [?|[El Hall]]; [left; by right|right].
        split; [simpl; lia|]. constructor; [|done]. by eapply rowWork_before; [apply Hlt| |].
  - exists []. split_and!; [done|simpl; lia|by constructor..|]. intros kv' w Hin Hw Hd. exfalso. apply Hdue.
    apply elem_of_cons in Hin as [->|Hin]; [by rewrite (rowWork_fun p kv w0 w)|].
    destruct (rowWork_before p kv kv' w0 w (Hlt _ Hin) Hw0 Hw) as (st & st' & E1 & E2 & Hor).
    destruct Hw0 as (st0 & ((E3 & _ & P3) & _) & _), Hw as (st1 & ((E4 & _ & P4) & _) & _).
    destruct Hd as (st2 & E5 & Hd). exists st. split; [done|]. unfold numbersLe in Hor. simplify_eq. lia.
Qed.
Lemma offers_row p w st :
  (0 ≤ p ≤ 1)%Z → offers p w st →
  ∃ kv, kv ∈ prefixRows (s_db s) (queuePrefix g p) ∧ rowWork p kv w.
Proof.
  intros Hp Ho. exists (readyKeyOf (d_Due st) (d_Token st) (w_Cursor w), ""). split; [|by exists st].
  apply queue_rows; [done|]. split; [done|]. exists (w_Cursor w), st. split; [apply Ho|done].
Qed.

(** The entries are short: a page of them stays below the byte bound. *)
Lemma queue_rows_small p :
  (0 ≤ p ≤ 1)%Z →
  Forall (λ kv, len kv.1 + len kv.2 ≤ 2048)%Z (prefixRows (s_db s) (queuePrefix g p)).
Proof.
  intros Hp. apply Forall_forall. intros [k v] Hin. apply queue_rows in Hin as [-> (l & st & Hst & ->)]; [|done].
  destruct (listed_ok p l st Hst) as [(key & _ & Hl) _].
  apply diskLogical_Ok in Hl as (-> & _ & _ & _ & _ & _ & Hlen). cbn [fst snd]. unfold len, readyKeyOf.
  rewrite !str_length_app, !diskNumber_length. cbn [String.length]. lia.
Qed.

(** [scan] and [readyRows] of a priority. *)
Record ReadyPage (p now : Z) (n : Z) (works : list DiskWork) : Prop := {
  rq_length : (Z.of_nat (length works) ≤ n)%Z;
  rq_sound : Forall (λ w, isDue now w ∧ ∃ st, offers p w st) works;
  rq_sorted : StronglySorted before works;
  rq_complete w st : offers p w st → isDue now w →
    w ∈ works ∨ (Z.of_nat (length works) = n ∧ Forall (λ w', before w' w) works);
}.
Lemma ready_page p now limit :
  (0 ≤ p ≤ 1)%Z → isU64 now → s_ctx s = None → (1 ≤ limit ≤ DiskPageItems)%Z →
  ∃ page works, scan s (queuePrefix g p) "" limit = Ok page ∧ readyRows s now page = Ok works ∧
    ReadyPage p now limit works.
Proof.
  intros Hp Hnow Hc Hl. set (rows := prefixRows (s_db s) (queuePrefix g p)).
  destruct (readyRows_page p now (Z.to_nat limit) rows) as (works & E1 & H1 & H2 & H3 & H4); [done| | |].
  { apply prefixRows_sorted. }
  { apply Forall_forall. intros kv Hin. by apply queue_row_work. }
  eexists _, works. split; [apply (scan_small _ _ _ 2048); try done|split; [exact E1|]].
  { by apply queue_rows_small. }
  split; [lia| |done|].
  - eapply Forall_impl; [exact H2|]. intros w (Hd & kv & _ & st & Ho & _). eauto.
  - intros w st Ho Hd. destruct (offers_row p w st Hp Ho) as (kv & Hin & Hw).
    destruct (H4 kv w Hin Hw Hd) as [?|[? ?]]; [by left|right]. split; [lia|done].
Qed.

(** Work [Ready] may offer: pending, not quarantined, due. *)
Definition offered (w : DiskWork) : Prop :=
  ∃ st, g_work G !! w_Cursor w = Some st ∧ quarantined st = false ∧
    (d_Due st ≤ s_now s / millisecond)%Z ∧ w_Token w = d_Token st ∧
    logical s (w_Key w) = Ok (w_Cursor w).
Lemma offered_iff w :
  offered w ↔ ∃ p st, (0 ≤ p ≤ 1)%Z ∧ offers p w st ∧ isDue (s_now s / millisecond) w.
Proof.
  split.
  - intros (st & Ew & Eq & Hd & Et & Hl). exists (d_Priority st), st.
    destruct (og_work _ _ _ (active_gen _ _ (rp_ok _ _ HR)) _ _ Ew) as [_ [_ _ Hp]].
    split_and!; [lia|lia|done..|by exists st].
  - intros (p & st & Hp & ((Ew & Eq & _) & Et & Hl) & (st' & Ew' & Hd)). simplify_eq. by exists st.
Qed.
Lemma before_priority w w' st st' : offers 0 w st → offers 1 w' st' → before w w'.
Proof.
  intros ((E1 & _ & P1) & _) ((E2 & _ & P2) & _). exists st, st'. split_and!; [done..|]. left. lia.
Qed.

(** C26: dispatch sees exactly what is due. On a store that is neither
    recovering nor cancelled, [Ready] returns without error a page of at most
    [limit] entries: each is pending work of the active generation, under its
    current token, not quarantined and due; live work comes before replayed
    work, then the earlier due time, then the older token. Whatever else is
    ready is left out only because the page is full, and then everything on the
    page goes before it. *)
Theorem Ready_exact limit :
  s_ctx s = None → s_longOperations s = 0%Z → (1 ≤ limit ≤ DiskPageItems)%Z →
  ∃ works, Ready s limit = Ok works ∧ (Z.of_nat (length works) ≤ limit)%Z ∧
    Forall offered works ∧ StronglySorted before works ∧
    ∀ w, offered w → w ∈ works ∨ (Z.of_nat (length works) = limit ∧ Forall (λ w', before w' w) works).
Proof.
  intros Hc Hlo Hl. set (now := (s_now s / millisecond)%Z).
  assert (isU64 now) as Hnow by (pose proof (stamp_due s a HR); unfold isU64; fold now in H; lia).
  destruct (ready_page 0 now limit) as (page0 & live & E1 & E2 & [L1 L2 L3 L4]); [lia|done..|].
  unfold Ready, readLock. rewrite Hc, Hlo. cbn [Z.eqb bind_result].
  rewrite (proj2 (Z.ltb_ge limit 1)), (proj2 (Z.ltb_ge DiskPageItems limit)) by lia. cbn [orb].
  rewrite (number_active s a HR). cbn [bind_result]. fold now. rewrite u64_small by exact Hnow.
  change (diskPrefix g "q/0/") with (queuePrefix g 0). change (diskPrefix g "q/1/") with (queuePrefix g 1).
  rewrite E1. cbn [bind_result]. rewrite E2. cbn [bind_result].
  assert (∀ p works, (0 ≤ p ≤ 1)%Z → Forall (λ w, isDue now w ∧ ∃ st, offers p w st) works →
    Forall offered works) as Hof.
  { intros p works Hp H. eapply Forall_impl; [exact H|]. intros w (Hd & st & Ho). apply offered_iff. by exists p, st. }
  destruct (Z.eqb_spec (Z.of_nat (length live)) limit) as [El|Hne].
  - exists live. split_and!; [done..|by apply (Hof 0%Z)|done|]. intros w (p & st & Hp & Ho & Hd)%offered_iff.
    assert (p = 0 ∨ p = 1)%Z as [-> | ->] by lia; [by eapply L4|]. right. split; [done|].
    eapply Forall_impl; [exact L2|]. intros w' (_ & st' & Ho'). by eapply before_priority.
  - destruct (ready_page 1 now (limit - Z.of_nat (length live))) as (page1 & replay & E3 & E4 & [R1 R2 R3 R4]);
      [lia|done..|lia|].
    rewrite E3. cbn [bind_result]. rewrite E4. cbn [bind_result]. exists (live ++ replay).
    rewrite length_app. split_and!; [done|lia| | |].
    + apply Forall_app. split; [by apply (Hof 0%Z)|by apply (Hof 1%Z)].
    + apply StronglySorted_app. split_and!; [|done..]. rewrite Forall_forall in L2, R2. intros w w' Hw Hw'.
      destruct (L2 w Hw) as (_ & st & Ho), (R2 w' Hw') as (_ & st' & Ho'). by eapply before_priority.
    + intros w (p & st & Hp & Ho & Hd)%offered_iff.
      assert (p = 0 ∨ p = 1)%Z as [-> | ->] by lia.
      * destruct (L4 w st Ho Hd) as [?|[? _]]; [left; apply elem_of_app; by left|done].
      * destruct (R4 w st Ho Hd) as [?|[? Hall]]; [left; apply elem_of_app; by right|right].
        split; [lia|]. apply Forall_app. split; [|done].
        eapply Forall_impl; [exact L2|]. intros w' (_ & st' & Ho'). by eapply before_priority.
Qed.
End state.
End ready.
