(* ===== verification/DiskTheorems.v ===== *)
(** * What the durable store guarantees

    The refinement read off the rows: in every store the steps of
    [DiskSystem] reach, the counters, the ready index and the quarantine agree
    with the work, and work disappears by acknowledgement only. *)

From S2P Require Import Prelude WorkTypes DiskKeys DiskStore DiskSpec DiskBatch DiskPut.
From S2P Require Import DiskRefine DiskScan DiskSnapshot DiskFanout DiskMerge DiskSystem DiskReady.
From stdpp Require Import sorting.

Section theorems.
Context {DC : DiskCodec} {DL : DiskCodecLaws}.

(** ** Reachable stores *)

Definition step (y y' : Sys) : Prop := ∃ lab, sys_step lab y y'.
(** The store was empty when it was first opened. *)
Definition reachable (y : Sys) : Prop :=
  ∃ kind now s, (0 < now < 2 ^ 62)%Z ∧ OpenDiskStore ∅ kind now = Ok s ∧ rtc step (mkSys s None) y.

Lemma reachable_Inv y : reachable y → ∃ a, Inv y a.
Proof.
  intros (kind & now & s & Hnow & Ho & Hr).
  assert (∃ a, Inv (mkSys s None) a) as H0.
  { exists initialSpec. split; [by eapply OpenDiskStore_empty|done]. }
  induction Hr as [y|y1 y2 y3 [lab Hs] _ IH]; [done|]. apply IH. clear IH.
  destruct H0 as [a Ha]. destruct (step_preserves lab y1 y2 a Ha Hs) as (a' & Ha' & _). by exists a'.
Qed.

Lemma reachable_step lab y y' : reachable y → sys_step lab y y' → reachable y'.
Proof.
  intros (kind & now & s & Hnow & Ho & Hr) Hs. exists kind, now, s. do 2 (split; [done|]).
  eapply rtc_r; [exact Hr|by exists lab].
Qed.

(** ** Rows of the abstract state *)

Section rows.
Context (s : Disk) (a : Spec).
Hypothesis HR : Repr s a.
Notation g := (a_active a).
Notation G := (gen a (a_active a)).

Lemma active_row f : okGen f → isCount f = false → s_db s !! rowKey (RGen g f) = genRowOf G f.
Proof.
  intros Hf Hc. apply (v_row _ _ _ (rp_view _ _ HR) (RGen g f)).
  - split; [by eapply active_range, HR|done].
  - split; [apply HR|done].
Qed.
Lemma active_count f : isCount f = true → getNumber (s_db s) (rowKey (RGen g f)) = Ok (genNum G f).
Proof. intros Hc. apply (v_count _ _ _ (rp_view _ _ HR)); [by eapply active_range, HR|apply HR|done]. Qed.

(** As many rows under a prefix as names in a map. *)
Lemma prefixRows_size {A} prefix (m : gmap string A) :
  (∀ l, is_Some (s_db s !! (prefix +:+ l)) ↔ is_Some (m !! l)) →
  length (prefixRows (s_db s) prefix) = size m.
Proof.
  intros Hm. pose proof (sorted_keys_NoDup _ (prefixRows_sorted (s_db s) prefix)) as Hnd.
  rewrite <- size_dom, <- (length_fmap fst (prefixRows (s_db s) prefix)).
  rewrite <- (size_list_to_set (C := gset string)) by done. f_equal. apply set_eq. intros l.
  rewrite elem_of_list_to_set, list_elem_of_fmap, elem_of_dom, <- Hm. split.
  - intros ([l' v] & -> & Hin). apply prefixRows_elem in Hin. eauto.
  - intros [v Hv]. exists (l, v). split; [done|by apply prefixRows_elem].
Qed.
Lemma work_rows : length (prefixRows (s_db s) (diskPrefix g "w/")) = size (g_work G).
Proof.
  apply prefixRows_size. intros l. rewrite workKey, active_row by done. simpl.
  destruct (g_work G !! l); split; intros []; eauto; done.
Qed.
Lemma poison_rows : length (prefixRows (s_db s) (diskPrefix g "p/")) = size (filter isQuarantined (g_work G)).
Proof.
  apply prefixRows_size. intros l. rewrite poisonKey, active_row by done. simpl.
  unfold is_Some. setoid_rewrite map_lookup_filter_Some. unfold isQuarantined. simpl.
  destruct (g_work G !! l) as [st|]; simpl; [|by split; intros (? & ?); destruct_and?].
  destruct (quarantined st) eqn:E; (split; [intros [x Hx]|intros (x & [= <-] & Hx)]); eauto; congruence.
Qed.
Lemma index_rows index :
  length (prefixRows (s_db s) (diskIndexPrefix g index)) =
  size (filter (λ kv, member (encodeIndex index) kv.2) (g_items G)).
Proof.
  apply prefixRows_size. intros l. rewrite indexKey, active_row by (done || apply encodeIndex_chars). simpl.
  unfold is_Some. setoid_rewrite map_lookup_filter_Some. simpl.
  destruct (g_items G !! l) as [it|]; simpl; [|by split; intros (? & ?); destruct_and?].
  case_decide; (split; [intros [x Hx]|intros (x & [= <-] & Hx)]); eauto; done.
Qed.

(** The row of a piece of work, with the token it is owed under. *)
Lemma owed_row o v :
  s_db s !! (diskPrefix g (match o with OWork _ => "w/" | ORelated _ => "r/" end) +:+
             match o with OWork l | ORelated l => l end) = Some v ↔
  match o with
  | OWork l => ∃ st, g_work G !! l = Some st ∧ v = diskNumber (d_Token st)
  | ORelated l => ∃ t, g_related G !! l = Some t ∧ v = diskNumber t
  end.
Proof.
  destruct o as [l|l].
  - rewrite workKey, active_row by done. simpl. destruct (g_work G !! l); simpl; naive_solver.
  - rewrite relatedKey, active_row by done. simpl. destruct (g_related G !! l); simpl; naive_solver.
Qed.
Lemma token_row_inj t t' :
  (0 < t ≤ a_sequence a)%Z → isU64 t' → diskNumber t = diskNumber t' → t = t'.
Proof.
  intros Ht Ht' E. pose proof (ok_seq _ _ (rp_ok _ _ HR)). apply diskNumber_inj in E; [done| |done].
  unfold isU64 in *. lia.
Qed.
End rows.

(** ** Work is never lost *)

(** The store owes [o] in the active generation, under the row [v]. *)
Definition owedRow (s : Disk) (o : Owed) (v : string) : Prop :=
  ∃ g, number s "active" = Ok g ∧
    s_db s !! (diskPrefix g (match o with OWork _ => "w/" | ORelated _ => "r/" end) +:+
               match o with OWork l | ORelated l => l end) = Some v.
(** The step acknowledges it, with the token in the row. *)
Definition acknowledges (s : Disk) (lab : Label) (o : Owed) (v : string) : Prop :=
  match lab, o with
  | LAcknowledge key t, OWork l => logical s key = Ok l ∧ v = diskNumber t
  | LAcknowledgeRelated key t, ORelated l => relatedLogical key = l ∧ v = diskNumber t
  | _, _ => False
  end.
Lemma owedRow_pending s a o v : Repr s a → owedRow s o v → pending a o.
Proof.
  intros HR (g & Eg & Hv). rewrite (number_active s a HR) in Eg. injection Eg as <-.
  apply (owed_row s a HR) in Hv. unfold pending, owes. destruct o; naive_solver.
Qed.
Lemma pending_owedRow s a o : Repr s a → pending a o → ∃ v, owedRow s o v.
Proof.
  intros HR Hp. destruct o as [l|l]; destruct Hp as [x Hx].
  - exists (diskNumber (d_Token x)), (a_active a). split; [by apply number_active|].
    apply (owed_row s a HR (OWork l)). eauto.
  - exists (diskNumber x), (a_active a). split; [by apply number_active|].
    apply (owed_row s a HR (ORelated l)). eauto.
Qed.

(** Survival, read off the rows. *)
Lemma survives_rows lab s s' a a' o v :
  Repr s a → Repr s' a' → survives lab s a a' → owedRow s o v →
  (∃ v', owedRow s' o v') ∨ acknowledges s lab o v.
Proof.
  intros HR HR' Hsv Hv. pose proof (owedRow_pending _ _ _ _ HR Hv) as Hp.
  destruct (Hsv o Hp) as [Hp'|Hset]; [left; by eapply pending_owedRow|right].
  destruct Hv as (g & Eg & Hv). rewrite (number_active _ a HR) in Eg. injection Eg as <-.
  apply (owed_row _ a HR) in Hv.
  destruct lab as [key t|key t|], o as [l|l]; simpl in *; try done.
  - destruct Hset as [Hl (st & Est & <-)]. destruct Hv as (st' & Est' & ->). split; [done|congruence].
  - destruct Hset as [<- Et]. destruct Hv as (t' & Et' & ->). split; [done|congruence].
Qed.

(** C12: durable work is never lost. Take any store reached from an empty one
    by any interleaving of enqueues, deferrals, watch events, fan-outs,
    snapshots, garbage collection, restarts, cancelled contexts and failed
    writes. One more step loses a resource to reconcile, or an owner to
    revisit, only when it acknowledges it with the very token it is owed under;
    publishing a snapshot, quarantining, deleting the resource and stopping the
    process in the middle of any of them do not. *)
Theorem work_survives lab y y' o v :
  reachable y → sys_step lab y y' → owedRow (y_disk y) o v →
  (∃ v', owedRow (y_disk y') o v') ∨ acknowledges (y_disk y) lab o v.
Proof.
  intros [a Ha]%reachable_Inv Hs. destruct (step_preserves lab y y' a Ha Hs) as (a' & Ha' & Hsv).
  by apply (survives_rows lab _ _ a a'); [apply Ha|apply Ha'|].
Qed.

(** ** The rows agree *)


(** ** Snapshots *)

(** What is pending once the snapshot staged in [g] replaced the state [a]: the
    unfinished work, what the snapshot no longer lists, and what it lists new or
    changed. *)
Definition owedAfter (a : Spec) (g : Z) (l : string) : Prop :=
  is_Some (g_work (priorGen a) !! l) ∨
  (is_Some (g_items (priorGen a) !! l) ∧ g_items (gen a g) !! l = None) ∨
  (is_Some (g_work (gen a g) !! l) ∧ ¬ sameItem (g_items (priorGen a) !! l) (g_items (gen a g) !! l)).

(** C39: publishing a snapshot always ends, and loses nothing. With a snapshot
    staged in generation [g], [FinishSnapshot] returns after finitely many
    pages. If it succeeds, [g] is active with exactly the staged items and the
    snapshot's cursor; exactly the following is pending: what was unfinished,
    what the snapshot no longer lists, and what it lists new or changed;
    unfinished work keeps its schedule and its quarantine under a fresh token
    unless its item changed; no owner to revisit is dropped. If it fails, the
    old generation and its cursor are as they were. *)
Theorem snapshot_published s g a cursor :
  Inv (mkSys s (Some g)) a →
  ∃ r s' a', FinishSnapshot g cursor s = Some (r, s') ∧ Inv (mkSys s' None) a' ∧
    match r with
    | Ok _ =>
        a_active a' = g ∧ a_cursor a' = Some cursor ∧ a_staging a' = 0%Z ∧
        g_items (gen a' g) = g_items (gen a g) ∧
        (∀ l, is_Some (g_work (gen a' g) !! l) ↔ owedAfter a g l) ∧
        (∀ l w, g_work (priorGen a) !! l = Some w → ∃ t, (a_sequence a < t)%Z ∧
           g_work (gen a' g) !! l =
             Some (carried s (g_items (gen a (a_active a)) !! l) (g_items (gen a g) !! l) w t)) ∧
        (∀ k, is_Some (g_related (priorGen a) !! k) → is_Some (g_related (gen a' g) !! k))
    | Err _ =>
        a_active a' = a_active a ∧ gen a' (a_active a) = gen a (a_active a) ∧ a_cursor a' = a_cursor a
    end.
Proof.
  intros [HR Hh]. simpl in *. destruct (Hh g eq_refl) as [Es Hj].
  destruct (FinishSnapshot_spec s a g cursor HR (λ _, Hj)) as (r & s' & E & _ & H). exists r, s'.
  destruct r as [[]|e].
  - destruct H as (_ & _ & G & n & HM & HR'). exists (specPublish a g G n cursor). split; [done|]. split; [done|].
    rewrite publish_gen. split_and!; [done..| | | |].
    + by eapply published_items.
    + intros l. by eapply published_pending.
    + intros l w. by eapply published_carried.
    + intros k. by eapply published_related.
  - destruct H as (a' & [K1 K2 K3 _ _] & _ & _ & HR'). by exists a'.
Qed.
End theorems.
