(* ===== verification/DiskManager.v ===== *)
(** * The manager over the durable store

    [DiskStore] implements the interface the manager is verified against, and
    every call the manager makes through it is a step of the store's own
    system: the store's guarantees hold while workers, enqueuers and the
    dispatch loop drive it. *)

From S2P Require Import Prelude WorkTypes Queue Retry Cache Manager DiskKeys DiskStore DiskSpec.
From S2P Require Import DiskBatch DiskPut DiskRefine DiskSystem DiskReady DiskTheorems.

Section manager.
Context {DC : DiskCodec} {DL : DiskCodecLaws}.

Definition errorOf {A} (r : result Error A) : option Error :=
  match r with Ok _ => None | Err e => Some e end.
#[export] Instance diskWork : DurableWork Disk := {|
  dw_Enqueue key d := let (r, d) := DiskStore.Enqueue d key in (errorOf r, d);
  dw_Acknowledge key token d := let (r, d) := DiskStore.Acknowledge d key token in (errorOf r, d);
  dw_DeferWork key token delay failure attempts d :=
    let (r, d) := DiskStore.DeferWork d key token delay failure attempts in (errorOf r, d);
  dw_WorkSchedule key d := DiskStore.WorkSchedule d key;
  dw_Ready limit d := DiskStore.Ready d limit;
|}.

(** What an effect does to the store: nothing, or one step of it, which is an
    acknowledgement only when the effect completes a key, under its lease. *)
Definition effectLabel (ks : kindState Disk) (eff : Effect) (lab : Label) : Prop :=
  match lab with
  | LAcknowledge key t => eff = EffComplete key ∧ t = lease ks key
  | LAcknowledgeRelated _ _ => False
  | LOther => True
  end.
Definition boundedDelay (eff : Effect) : Prop :=
  match eff with EffScheduleRequeue _ after => (after < 2 ^ 63)%Z | _ => True end.

Lemma applyEffect_step now wait eff (ks : kindState Disk) d h :
  k_disk ks = Some d → boundedDelay eff →
  ∃ d', k_disk (applyEffect now wait eff ks) = Some d' ∧
    (d' = d ∨ ∃ lab, effectLabel ks eff lab ∧ sys_step lab (mkSys d h) (mkSys d' h)).
Proof.
  intros Hd Hb. destruct eff as [key|item| |key|key after|key|key]; cbn [applyEffect].
  1,3,6,7: by exists d; split; [|left].
  - unfold quarantine. rewrite Hd. cbn [dw_DeferWork diskWork].
    destruct (DiskStore.DeferWork _ _ _ _ _ _) as [r d'] eqn:E. exists d'. split; [done|right].
    exists LOther. split; [done|]. eapply st_DeferWork; [|exact E]. lia.
  - unfold complete. rewrite Hd. cbn [dw_Acknowledge diskWork].
    destruct (DiskStore.Acknowledge _ _ _) as [r d'] eqn:E. exists d'. split; [done|right].
    exists (LAcknowledge key (lease ks key)). split; [done|]. by eapply st_Acknowledge.
  - unfold scheduleRequeue. rewrite Hd. cbn [dw_DeferWork diskWork].
    destruct (DiskStore.DeferWork _ _ _ _ _ _) as [r d'] eqn:E. exists d'. split; [done|right].
    exists LOther. split; [done|]. eapply st_DeferWork; [|exact E]. simpl in Hb. lia.
Qed.

(** A worker of the manager settles only the work it leased. Whatever
    effect of a dispatch reaches a store in its reachable states, the store
    stays reachable and still owes everything it owed, unless the effect
    completes a key whose lease is the very token the work is owed under: work
    enqueued again while the worker ran, under a newer token, survives its
    completion, its requeue and its quarantine. *)
Theorem effect_keeps_work now wait eff (ks : kindState Disk) d h o v :
  k_disk ks = Some d → reachable (mkSys d h) → boundedDelay eff → owedRow d o v →
  ∃ d', k_disk (applyEffect now wait eff ks) = Some d' ∧ reachable (mkSys d' h) ∧
    ((∃ v', owedRow d' o v') ∨
     ∃ key l t, eff = EffComplete key ∧ o = OWork l ∧ logical d key = Ok l ∧
       k_leases ks !! key = Some t ∧ v = diskNumber t).
Proof.
  intros Hd Hr Hb Hv. destruct (applyEffect_step now wait eff ks d h Hd Hb) as (d' & E & Hs).
  exists d'. split; [done|]. destruct Hs as [->|(lab & Hlab & Hs)]; [by eauto|].
  split; [by eapply reachable_step|]. destruct (reachable_Inv _ Hr) as [a Ha].
  destruct (step_preserves lab _ _ a Ha Hs) as (a' & Ha' & Hsv). pose proof (iv_repr _ _ Ha) as HR. simpl in HR.
  destruct (survives_rows lab d d' a a' o v HR (iv_repr _ _ Ha') Hsv Hv) as [?|Hack]; [by left|right].
  destruct lab as [key t|key t|], o as [l|l]; try done. destruct Hack as [Hl Ev]. destruct Hlab as [-> ->].
  exists key, l, (lease ks key). split_and!; [done..| |done]. unfold lease in *.
  destruct (k_leases ks !! key) as [t|]; [done|exfalso].
  destruct Hv as (g & Eg & Hv). rewrite (number_active _ a HR) in Eg. injection Eg as <-.
  apply (owed_row _ a HR (OWork l)) in Hv as (st & Est & ->).
  destruct (og_work _ _ _ (active_gen _ _ (rp_ok _ _ HR)) l st Est) as [_ [Ht _ _]].
  apply (token_row_inj d a HR) in Ev; [simpl in Ev; lia|done|by unfold isU64].
Qed.
End manager.
