(* ===== verification/DiskExamples.v ===== *)
(** * Runs of the durable store

    A serialisation that satisfies the laws the store relies on, and concrete
    runs at which the store's theorems apply. *)

From S2P Require Import Prelude WorkTypes Queue Retry Cache Manager DiskKeys DiskStore DiskSpec.
From S2P Require Import DiskBatch DiskPut DiskRefine DiskSystem DiskReady DiskTheorems DiskManager.
From Stdlib Require Import Ascii.

(** ** A serialisation *)

(** Fields separated by bars; numbers and lists as the bits of their code. *)
Definition field {A} `{Countable A} (x : A) : string := bitText (encode x).
Definition unfield {A} `{Countable A} (v : string) : option A := bitRead v ≫= decode.
Lemma unfield_field {A} `{Countable A} (x : A) : unfield (field x) = Some x.
Proof. unfold unfield, field. rewrite bitRead_bitText. cbn [mbind option_bind]. apply decode_encode. Qed.
Lemma field_inj {A} `{Countable A} (x y : A) : field x = field y → x = y.
Proof. intros E. apply (inj Some). by rewrite <- !unfield_field, E. Qed.

Definition exMarshalSchedule (st : DiskSchedule) : string :=
  field (d_Token st) +:+ String "|" (field (d_Due st) +:+ String "|" (field (d_Priority st) +:+ String "|"
    (field (d_Attempts st) +:+ String "|" (field (d_QuarantinedAt st) +:+ String "|" (d_LastError st))))).
Definition exUnmarshalSchedule (v : string) : option DiskSchedule :=
  '(t, v) ← cut "|" v; '(d, v) ← cut "|" v; '(p, v) ← cut "|" v; '(n, v) ← cut "|" v; '(q, e) ← cut "|" v;
  t ← unfield t; d ← unfield d; p ← unfield p; n ← unfield n; q ← unfield q;
  Some (mkSchedule t d p n e q).
Lemma exUnmarshal_marshal st : exUnmarshalSchedule (exMarshalSchedule st) = Some st.
Proof.
  unfold exUnmarshalSchedule, exMarshalSchedule.
  do 5 (rewrite cut_app by apply bitText_chars; cbn [mbind option_bind]).
  do 5 (rewrite unfield_field; cbn [mbind option_bind]). by destruct st.
Qed.
(** An item needs reading back where it is stored only. *)
Definition exMarshalItem (it : DiskItem) : string :=
  Kind (i_Key it) +:+ String "|" (Namespace (i_Key it) +:+ String "|" (Name (i_Key it) +:+ String "|"
    (i_Version it +:+ String "|" (i_Value it +:+ String "|" (field (i_Indexes it)))))).
Definition exUnmarshalItem (v : string) : option DiskItem :=
  '(k, v) ← cut "|" v; '(ns, v) ← cut "|" v; '(n, v) ← cut "|" v; '(ver, v) ← cut "|" v; '(val, v) ← cut "|" v;
  ix ← unfield v; Some (mkItem (mkKey k ns n) ver val ix [] "").

#[export] Instance exCodec : DiskCodec := {|
  marshalItem := exMarshalItem;
  unmarshalItem := exUnmarshalItem;
  marshalSchedule := exMarshalSchedule;
  unmarshalSchedule _ := exUnmarshalSchedule;
  marshalFanout f := field (f_Generation f, f_After f);
  unmarshalFanout v := c ← unfield v; Some (mkFanout c.1 c.2);
  validJSON v := negb (bool_decide (v = ""));
  encodeIndex index := field index;
  decodeIndex v := unfield v;
  dumpSize ops := foldl (λ n op, n + match op with OpPut k v => len k + len v + 12 | OpDelete k => len k + 6 end)%Z 12%Z ops;
|}.
#[export] Instance exCodecLaws : DiskCodecLaws.
Proof.
  refine {| jsonText := id |}.
  - intros init st. cbn [unmarshalSchedule marshalSchedule exCodec]. rewrite exUnmarshal_marshal. by destruct st.
  - intros x y E. by apply field_inj in E.
  - intros index. cbn [encodeIndex exCodec]. unfold field. generalize (encode index). intros p. by induction p.
Defined.

(** ** A run

    The store of products is opened, works off its first snapshot and is given
    more work. Times are in nanoseconds. *)
Definition exNow : Z := 10 ^ 15.
Definition kP (n : string) : WorkItemKey := mkKey "Product" "shop" n.
Definition lP (n : string) : string := "shop" +:+ String NUL n.
Definition exItem (n version : string) : DiskItem := mkItem (kP n) version "{}" ["brand"] [] "".
Definition okOr {A} (r : result Error A) (x : A) : A := match r with Ok y => y | Err _ => x end.
Definition noDisk : Disk := mkDisk ∅ "" (mkCounts 0 0) 0 0 0 0 None [].
Definition openD : Disk := okOr (OpenDiskStore ∅ "Product" exNow) noDisk.
Definition afterLong {A} (o : option (result Error A * Disk)) : Disk :=
  match o with Some (_, s) => s | None => noDisk end.
(** A snapshot of two products, staged and published. *)
Definition begunD : Disk := afterLong (BeginSnapshot openD).
Definition stagedD : Disk := (PutSnapshotPage begunD 1 [exItem "tea" "1"; exItem "cup" "1"]).2.
Definition publishedD : Disk := afterLong (FinishSnapshot 1 "c1" stagedD).
(** One of them is done, the other is enqueued again. *)
Definition doneD : Disk := (Acknowledge publishedD (kP "tea") 1).2.
Definition againD : Disk := (DiskStore.Enqueue doneD (kP "cup")).2.

Example published_counts : Counts publishedD = mkCounts 2 0.
Proof. vm_compute. reflexivity. Qed.
Example again_ready :
  DiskStore.Ready againD 10 = Ok [mkWork (kP "cup") 3 (lP "cup")].
Proof. vm_compute. reflexivity. Qed.

Lemma exPage_storable : Forall storable [exItem "tea" "1"; exItem "cup" "1"].
Proof. repeat constructor; by vm_compute. Qed.

(** What a run of a long operation is, from its result alone. *)
Definition resultIs {A} (P : A → bool) (o : option (result Error A * Disk)) : bool :=
  match o with Some (Ok x, _) => P x | _ => false end.
Lemma resultIs_eq {A} (P : A → bool) o :
  resultIs P o = true → ∃ x, P x = true ∧ o = Some (Ok x, afterLong o).
Proof. destruct o as [[[x|] s]|]; simpl; try done. eauto. Qed.
Definition opens (r : result Error Disk) : bool := match r with Ok _ => true | Err _ => false end.
Lemma opens_eq r x : opens r = true → r = Ok (okOr r x).
Proof. by destruct r. Qed.

Lemma open_reachable : reachable (mkSys openD None).
Proof.
  exists "Product", exNow, openD. split; [by vm_compute|]. split; [|apply rtc_refl].
  apply opens_eq. vm_compute. reflexivity.
Qed.
Lemma staged_reachable : reachable (mkSys stagedD (Some 1%Z)).
Proof.
  eapply (reachable_step LOther (mkSys begunD (Some 1%Z))).
  - eapply (reachable_step LOther); [exact open_reachable|].
    destruct (resultIs_eq (Z.eqb 1) (BeginSnapshot openD)) as (g & <-%Z.eqb_eq & E); [vm_compute; reflexivity|].
    apply (st_BeginSnapshot openD None (Ok 1%Z) begunD E).
  - eapply (st_PutSnapshotPage begunD 1 _ _ stagedD exPage_storable). apply surjective_pairing.
Qed.
Lemma published_reachable : reachable (mkSys publishedD None).
Proof.
  eapply (reachable_step LOther); [exact staged_reachable|].
  destruct (resultIs_eq (λ _, true) (FinishSnapshot 1 "c1" stagedD)) as (x & _ & E); [vm_compute; reflexivity|].
  exact (st_FinishSnapshot stagedD 1 "c1" (Ok x) publishedD E).
Qed.
Lemma ack_step : sys_step (LAcknowledge (kP "tea") 1) (mkSys publishedD None) (mkSys doneD None).
Proof. eapply (st_Acknowledge publishedD None (kP "tea") 1). apply surjective_pairing. Qed.
Lemma again_reachable : reachable (mkSys againD None).
Proof.
  eapply (reachable_step LOther (mkSys doneD None)).
  - eapply reachable_step; [exact published_reachable|exact ack_step].
  - eapply (st_Enqueue doneD None (kP "cup")). apply surjective_pairing.
Qed.

(** ** The theorems at these runs *)

(** Acknowledging one product keeps the other. *)
Lemma work_survives_witness :
  owedRow publishedD (OWork (lP "cup")) (diskNumber 2) ∧
  ((∃ v', owedRow doneD (OWork (lP "cup")) v') ∨
   acknowledges publishedD (LAcknowledge (kP "tea") 1) (OWork (lP "cup")) (diskNumber 2)).
Proof.
  assert (owedRow publishedD (OWork (lP "cup")) (diskNumber 2)) as Ho.
  { exists 1%Z. split; vm_compute; reflexivity. }
  split; [exact Ho|].
  apply (work_survives (LAcknowledge (kP "tea") 1) (mkSys publishedD None) (mkSys doneD None)).
  - exact published_reachable.
  - exact ack_step.
  - exact Ho.
Defined.


Lemma Ready_exact_witness :
  ∃ a, Repr againD a ∧ ∃ works, DiskStore.Ready againD 10 = Ok works ∧
    (Z.of_nat (length works) ≤ 10)%Z ∧ Forall (offered againD a) works.
Proof.
  destruct (reachable_Inv _ again_reachable) as [a Ha]. exists a. split; [exact (iv_repr _ _ Ha)|].
  destruct (Ready_exact againD a (iv_repr _ _ Ha) 10) as (works & E & Hl & Ho & _).
  - vm_compute. reflexivity.
  - vm_compute. reflexivity.
  - split; vm_compute; discriminate.
  - exists works. exact (conj E (conj Hl Ho)).
Defined.

Lemma snapshot_published_witness :
  ∃ a, Inv (mkSys stagedD (Some 1%Z)) a ∧
    ∃ r s' a', FinishSnapshot 1 "c1" stagedD = Some (r, s') ∧ Inv (mkSys s' None) a'.
Proof.
  destruct (reachable_Inv _ staged_reachable) as [a Ha]. exists a. split; [exact Ha|].
  destruct (snapshot_published stagedD 1 a "c1" Ha) as (r & s' & a' & E & Hi & _).
  exists r, s', a'. exact (conj E Hi).
Defined.

(** A worker that leased the product before it was enqueued again does not
    settle the newer work. *)
Definition exKind : kindState Disk :=
  mkKS reg1 Queue.New NewQuarantineStore 0 0 {[kP "cup" := 2%Z]} false false (Some againD) [] [].
Lemma effect_keeps_work_witness :
  ∃ d', k_disk (applyEffect 0 true (EffComplete (kP "cup")) exKind) = Some d' ∧ reachable (mkSys d' None) ∧
    ((∃ v', owedRow d' (OWork (lP "cup")) v') ∨
     ∃ key l t, EffComplete (kP "cup") = EffComplete key ∧ OWork (lP "cup") = OWork l ∧
       logical againD key = Ok l ∧ k_leases exKind !! key = Some t ∧ diskNumber 3 = diskNumber t).
Proof.
  apply (effect_keeps_work 0 true (EffComplete (kP "cup")) exKind againD None (OWork (lP "cup")) (diskNumber 3)).
  - reflexivity.
  - exact again_reachable.
  - exact I.
  - exists 1%Z. split; vm_compute; reflexivity.
Defined.
