(* ===== verification/Runner.v ===== *)
(** * The list-watch runner over the durable store

    [gitstore-controller-manager/internal/listwatch]: the loop that mirrors the
    resources of one kind. It lists them page by page into a staged generation
    of the store, publishes it, and then applies the watch stream, one event and
    its cursor per write, reconnecting and listing again as the stream demands.
    This file has the operations and the loop as a step relation;
    [RunnerMirror] proves what the mirror is worth. *)

From S2P Require Import Prelude WorkTypes DiskKeys DiskStore Cache.
Open Scope go_scope.

(** ** Events *)

Inductive EventType : Type :=
| Added
| Modified
| Deleted
| Bookmark
| OtherEvent (n : Z).
#[global] Instance EventType_eq_dec : EqDecision EventType.
Proof. solve_decision. Defined.

Record WatchEvent (T : Type) : Type := mkEvent {
  e_Type : EventType;
  e_Object : T;
  e_ResourceVersion : string;
}.
Arguments mkEvent {T}.
Arguments e_Type {T}.
Arguments e_Object {T}.
Arguments e_ResourceVersion {T}.

(** The JSON of a resource, as [encoding/json] derives it from the type. *)
Class Json (T : Type) : Type := {
  jsonMarshal : T → result Error string;
  jsonUnmarshal : string → result Error T;
}.

(** The fields of [Runner] its disk mode reads; a function that may be nil is
    an option. *)
Record Runner (T : Type) : Type := mkRunner {
  r_Kind : string;
  DiskIndexes : option (T → list string);
  DiskRelated : option (T → list WorkItemKey);
  DiskRelatedVersion : option (T → string);
  KeyFunc : T → WorkItemKey;
  RevisionFunc : T → string;
  AcceptUpdate : option (T → T → bool);
  ShouldEnqueueUpdate : option (T → T → bool);
  WaitForWatchBookmark : bool;
}.
Arguments r_Kind {T}.
Arguments DiskIndexes {T}.
Arguments DiskRelated {T}.
Arguments DiskRelatedVersion {T}.
Arguments KeyFunc {T}.
Arguments RevisionFunc {T}.
Arguments AcceptUpdate {T}.
Arguments ShouldEnqueueUpdate {T}.
Arguments WaitForWatchBookmark {T}.

(** [nextListCursor]: pages follow one another until the last; a missing, empty
    or repeated cursor is an error. *)
Definition nextListCursor (hasNext : bool) (next previous : option string)
  : result Error (option string) :=
  if negb hasNext then Ok None else
  match next with
  | None => refuse "listwatch: pagination did not advance"
  | Some n => if bool_decide (n = "") || bool_decide (previous = Some n)
              then refuse "listwatch: pagination did not advance" else Ok (Some n)
  end.

Section runner.
Context {DC : DiskCodec} {T : Type} {J : Json T} (r : Runner T).

(** ** Reading the mirror *)

Definition Lookup (c : Cache T) (s : Disk) (key : WorkItemKey) : result Error (option T) :=
  if negb (HasSynced c) || Recovering (c_recovery c) then Err (ESentinel ErrSnapshotInProgress) else
  let! (it, found, _) := Read s key in
  if negb found then Ok None else
  match jsonUnmarshal (i_Value it) with
  | Err e => Err (EWrap ("decode " +:+ r_Kind r +:+ " projection: " +:+ ErrorText e) e)
  | Ok value =>
      if negb (bool_decide (KeyFunc r value = key)) || negb (bool_decide (RevisionFunc r value = i_Version it))
      then refuse (r_Kind r +:+ " stored projection identity mismatch") else Ok (Some value)
  end.

(** ** Writing the mirror *)

(** [Runner.diskItem]: the projection of a resource. *)
Definition projection (value : T) : result Error DiskItem :=
  let! data := jsonMarshal value in
  Ok (mkItem (KeyFunc r value) (RevisionFunc r value) data
        (match DiskIndexes r with Some f => f value | None => [] end)
        (match DiskRelated r with Some f => f value | None => [] end)
        (match DiskRelatedVersion r with Some f => f value | None => "" end)).

Definition flush (s : Disk) (generation : Z) (page : list DiskItem) : result Error unit * Disk :=
  if bool_decide (page = []) then (Ok tt, s) else PutSnapshotPage s generation page.
(** The visitor [listToDisk] hands to [ListPages]: a listed page is cut into
    pages the store takes. *)
Fixpoint visit (generation : Z) (items : list T) (page : list DiskItem) (size : Z) (s : Disk)
  : result Error unit * Disk :=
  match items with
  | [] => flush s generation page
  | value :: items =>
      match projection value with
      | Err e => (Err e, s)
      | Ok it =>
          let n := len (marshalItem it) in
          if (Z.of_nat (length page) =? DiskPageItems)%Z || (DiskPageBytes / 4 <? size + n)%Z then
            match flush s generation page with
            | (Err e, s) => (Err e, s)
            | (Ok _, s) => visit generation items [it] n s
            end
          else visit generation items (page ++ [it]) (size + n) s
      end
  end.
Definition visitPage (generation : Z) (items : list T) (s : Disk) : result Error unit * Disk :=
  visit generation items [] 0 s.

Definition applyDiskEvent (s : Disk) (event : WatchEvent T) : result Error unit * Disk :=
  let cursor := e_ResourceVersion event in
  match e_Type event with
  | Bookmark => AdvanceCursor s cursor
  | OtherEvent n => (refuse ("unknown " +:+ r_Kind r +:+ " watch event type"), s)
  | Deleted => Apply s (mkItem (KeyFunc r (e_Object event)) "" "" [] [] "") true true cursor
  | Added | Modified =>
      let? it := projection (e_Object event) on s in
      let? (prior, exists_, _) := Read s (i_Key it) on s in
      if exists_ : bool then
        let? old := jsonUnmarshal (i_Value prior) on s in
        if bool_decide (i_Version prior = i_Version it) ||
           (match AcceptUpdate r with Some f => negb (f old (e_Object event)) | None => false end)
        then AdvanceCursor s cursor
        else Apply s it false
               (match ShouldEnqueueUpdate r with Some f => f old (e_Object event) | None => true end) cursor
      else Apply s it false true cursor
  end.

(** ** The server

    What the transport delivers is not the program's: the history of the kind
    is the list of its changes, a cursor stands for a position in it, and the
    watch from a cursor delivers the changes after that position in order. *)
Inductive Change : Type :=
| Upserted (created : bool) (obj : T)
| Removed (obj : T).
Definition changed (c : Change) : T := match c with Upserted _ obj | Removed obj => obj end.
Definition changeKey (c : Change) : WorkItemKey := KeyFunc r (changed c).
Definition after (c : Change) : option T :=
  match c with Upserted _ obj => Some obj | Removed _ => None end.
Definition eventOf (c : Change) (cursor : string) : WatchEvent T :=
  mkEvent (match c with Upserted true _ => Added | Upserted false _ => Modified | Removed _ => Deleted end)
    (changed c) cursor.
(** The object under a key once the changes happened, from the object before. *)
Definition replay (key : WorkItemKey) (o : option T) (cs : list Change) : option T :=
  foldl (λ o c, if decide (changeKey c = key) then after c else o) o cs.
Definition stateAt (hist : list Change) (p : nat) (key : WorkItemKey) : option T :=
  replay key None (take p hist).
(** An update of an object the kind accepts: it changes the version, or nothing. *)
Definition okChange (hist : list Change) (c : Change) : Prop :=
  ∀ old new, stateAt hist (length hist) (changeKey c) = Some old → after c = Some new →
    (RevisionFunc r old = RevisionFunc r new → old = new) ∧
    (∀ f, AcceptUpdate r = Some f → f old new = true).
(** The last object a listing showed under a key. *)
Definition lastSeen (seen : list T) (key : WorkItemKey) : option T :=
  last (filter (λ v, KeyFunc r v = key) seen).
(** A listing that began at position [n] shows each key as it was at some time
    since: pages are read one after the other while the kind changes. *)
Definition listed (hist : list Change) (n : nat) (seen : list T) : Prop :=
  ∀ key, ∃ p, n ≤ p ≤ length hist ∧ lastSeen seen key = stateAt hist p key.

(** ** The loop

    Where [runDisk] is between two operations that may block. A snapshot being
    listed has the generation it is staged in, the cursor [ListPages] will
    return and what was visited; a watch has the position of its stream.
    [PWait] is [BeginRecovery] waiting for running dispatches to drain. *)
Inductive Phase : Type :=
| PDown
| PStart
| PList
| PListing (generation : Z) (cursor : string) (seen : list T)
| PCollect
| PConnect
| PWatching (pos : nat)
| PWait (ch : nat) (next : Phase).

Record Run : Type := mkRun {
  u_disk : Disk;
  u_cache : Cache T;
  u_phase : Phase;
  u_currentRV : string;
  u_hist : list Change;
}.

(** [Cache.BeginRecovery], then on to [next] once nothing is dispatched. *)
Definition recover (c : Cache T) (now : Z) (next : Phase) : Cache T * Phase :=
  match Cache.BeginRecovery c now with
  | (None, c) => (c, next)
  | (Some ch, c) => (c, PWait ch next)
  end.
(** [runDisk] until it lists or watches: a store without a snapshot is listed
    into, one with a snapshot resumes from its cursor. *)
Definition resume (s : Disk) : option (result Error (option string) * Disk) :=
  match Active s with
  | Err e => Some (Err e, s)
  | Ok (active, cursor) =>
      if (active =? 0)%Z then Some (Ok None, s) else
      match DiscardStaging s with
      | None => None
      | Some (Err e, s) => Some (Err e, s)
      | Some (Ok _, s) => Some (Ok (Some cursor), s)
      end
  end.
(** [consumeDiskWatch] for one event: on failure the runner recovers and tries
    the event again. *)
Definition consume (s : Disk) (c : Cache T) (now : Z) (rv : string) (pos pos' : nat)
    (event : WatchEvent T) : Disk * Cache T * Phase * string :=
  match applyDiskEvent s event with
  | (Err e, s) => let (c, p) := recover c now (PWatching pos) in (s, c, p, rv)
  | (Ok _, s) =>
      (s, if negb (WaitForWatchBookmark r) || bool_decide (e_Type event = Bookmark)
          then Cache.EndRecovery c now else c, PWatching pos', e_ResourceVersion event)
  end.

(** What dispatchers and other components do to the store meanwhile. *)
Inductive managerOp : Disk → Disk → Prop :=
| mo_Enqueue s key x s' : DiskStore.Enqueue s key = (x, s') → managerOp s s'
| mo_Acknowledge s key t x s' : DiskStore.Acknowledge s key t = (x, s') → managerOp s s'
| mo_DeferWork s key t delay failure attempts x s' :
    (delay < 2 ^ 63)%Z → DiskStore.DeferWork s key t delay failure attempts = (x, s') → managerOp s s'
| mo_AcknowledgeRelated s key t x s' : AcknowledgeRelated s key t = (x, s') → managerOp s s'
| mo_RequestFanout s index x s' : RequestFanout s index = (x, s') → managerOp s s'
| mo_ProcessFanout s x s' : ProcessFanout s = (x, s') → managerOp s s'
| mo_environment s now ctx faults :
    (0 < now < 2 ^ 62)%Z →
    managerOp s (mkDisk (s_db s) (s_kind s) (s_counts s) (s_longOperations s) (s_lastWrite s)
                   (s_writeFailures s) now ctx faults).

(** [position] is how the server reads a cursor. *)
Variable position : string → nat.

Inductive run_step : Run → Run → Prop :=
| rs_server s c p rv h ch :
    okChange h ch → run_step (mkRun s c p rv h) (mkRun s c p rv (h ++ [ch]))
| rs_manager s s' c p rv h :
    managerOp s s' → run_step (mkRun s c p rv h) (mkRun s' c p rv h)
| rs_dispatch s c c' p rv h :
    AcquireDispatch c = Some c' → run_step (mkRun s c p rv h) (mkRun s c' p rv h)
| rs_release s c p rv h :
    (0 < c_dispatches c)%Z → run_step (mkRun s c p rv h) (mkRun s (release c) p rv h)
| rs_drained s c ch p rv h :
    ch ∈ c_closed c → run_step (mkRun s c (PWait ch p) rv h) (mkRun s c p rv h)
| rs_stop s c p rv h : run_step (mkRun s c p rv h) (mkRun s c PDown rv h)
| rs_start s s' c p rv h now :
    (0 < now < 2 ^ 62)%Z → OpenDiskStore (s_db s) (s_kind s) now = Ok s' →
    run_step (mkRun s c p rv h) (mkRun s' (Cache.BeginRecovery Cache.New now).2 PStart "" h)
| rs_resume s s' c rv h x :
    resume s = Some (x, s') →
    run_step (mkRun s c PStart rv h)
      match x with
      | Err _ => mkRun s' c PDown rv h
      | Ok None => mkRun s' c PList rv h
      | Ok (Some cursor) => mkRun s' (Cache.MarkSynced c) PCollect cursor h
      end
| rs_begin s s' c rv h x cursor :
    BeginSnapshot s = Some (x, s') → position cursor ≤ length h →
    run_step (mkRun s c PList rv h)
      (mkRun s' c (match x with Ok g => PListing g cursor [] | Err _ => PList end) rv h)
| rs_visit s s' c rv h g cursor seen items x :
    visitPage g items s = (x, s') →
    run_step (mkRun s c (PListing g cursor seen) rv h)
      (mkRun s' c (match x with Ok _ => PListing g cursor (seen ++ items) | Err _ => PList end) rv h)
| rs_progress s c p rv h now pages rows :
    run_step (mkRun s c p rv h) (mkRun s (Cache.ObserveListProgress c now pages rows) p rv h)
| rs_abandon s c rv h g cursor seen :
    run_step (mkRun s c (PListing g cursor seen) rv h) (mkRun s c PList rv h)
| rs_finish s s' c rv h g cursor seen x :
    listed h (position cursor) seen → FinishSnapshot g cursor s = Some (x, s') →
    run_step (mkRun s c (PListing g cursor seen) rv h)
      match x with
      | Ok _ => mkRun s' (Cache.MarkSynced c) PCollect cursor h
      | Err _ => mkRun s' c PList rv h
      end
| rs_collect s s' c rv h x :
    CollectGarbage s = Some (x, s') →
    run_step (mkRun s c PCollect rv h)
      (mkRun s' c (match x with Ok _ => PConnect | Err _ => PCollect end) rv h)
| rs_connect s c rv h now :
    run_step (mkRun s c PConnect rv h)
      (mkRun s (if WaitForWatchBookmark r then c else Cache.EndRecovery c now) (PWatching (position rv)) rv h)
| rs_expired s c p rv h now :
    p = PConnect ∨ (∃ pos, p = PWatching pos) →
    run_step (mkRun s c p rv h) (let (c, p) := recover c now PList in mkRun s c p rv h)
| rs_disconnect s c pos rv h : run_step (mkRun s c (PWatching pos) rv h) (mkRun s c PConnect rv h)
| rs_event s c rv h pos ch cursor now :
    h !! pos = Some ch → position cursor = S pos →
    run_step (mkRun s c (PWatching pos) rv h)
      (let '(s, c, p, rv) := consume s c now rv pos (S pos) (eventOf ch cursor) in mkRun s c p rv h)
| rs_bookmark s c rv h pos obj cursor now :
    position cursor = pos →
    run_step (mkRun s c (PWatching pos) rv h)
      (let '(s, c, p, rv) := consume s c now rv pos pos (mkEvent Bookmark obj cursor) in mkRun s c p rv h).

(** A process that starts on an empty store, before the kind has a history. *)
Definition run_reachable (u : Run) : Prop :=
  ∃ kind now s, (0 < now < 2 ^ 62)%Z ∧ OpenDiskStore ∅ kind now = Ok s ∧
    rtc run_step (mkRun s Cache.New PDown "" []) u.
End runner.
