(* ===== verification/RunnerMirror.v ===== *)
(** * The mirror of a kind

    What the runner keeps in the durable store, against the history of the
    kind: every item of the active generation is the resource as it was at some
    time since the stored cursor, whatever listings, streams, retries, restarts
    and dispatchers did meanwhile. *)

From S2P Require Import Prelude WorkTypes DiskKeys DiskStore DiskSpec DiskBatch DiskPut.
From S2P Require Import DiskRefine DiskScan DiskSnapshot DiskFanout DiskMerge DiskSystem Cache Runner.

Section items.
Context {DC : DiskCodec} {DL : DiskCodecLaws}.

(** ** The items under the operations *)

Lemma specPut_items s a g l new t p :
  g_items (gen (specPut s a g l new t p) g) = partial_alter (λ _, new) l (g_items (gen a g)).
Proof.
  unfold specPut. set (keys := putRelated _ new).
  destruct (gen_relateAll g (setItem a g l new) keys t) as [E1 _].
  destruct (gen_setItem a g l new) as (_ & _ & E2).
  destruct p as [q|]; [|by rewrite E1].
  destruct (gen_setWork (relateAll g (setItem a g l new) keys t) g l
    (Some (stamp s (mkSchedule t 0 q 0 "" 0)))) as (-> & _). by rewrite E1.
Qed.
Lemma specPut_cursor s a g l new t p : a_cursor (specPut s a g l new t p) = a_cursor a.
Proof.
  unfold specPut. set (keys := putRelated _ new).
  assert (∀ a, a_cursor (relateAll g a keys t) = a_cursor a) as Hr.
  { induction keys as [|key keys IH]; intros a0; [done|]. exact (IH (setRelated a0 g (relatedLogical key) (Some t))). }
  destruct p; exact (Hr (setItem a g l new)).
Qed.

(** What staging items one after the other leaves. *)
Definition stageAll (m : gmap string DiskItem) (its : list DiskItem) : gmap string DiskItem :=
  foldl (λ m it, <[nameOf it := it]> m) m its.
Lemma stageAll_app m its its' : stageAll m (its ++ its') = stageAll (stageAll m its) its'.
Proof. apply foldl_app. Qed.
Lemma specPage_items s a g items t :
  g_items (gen (specPage s a g items t) g) = stageAll (g_items (gen a g)) items ∧
  a_cursor (specPage s a g items t) = a_cursor a.
Proof.
  revert a t. induction items as [|it items IH]; intros a t; [done|]. cbn [specPage].
  destruct (IH (specPut s a g (nameOf it) (Some it) (t + 1) (Some 1%Z)) (t + 1)%Z) as [-> ->].
  split; [|apply specPut_cursor]. rewrite specPut_items. done.
Qed.

(** Every item of the generation has work. *)
Definition covered (G : Gen) : Prop := ∀ l, is_Some (g_items G !! l) → is_Some (g_work G !! l).
Lemma specPut_covered s a g l new t q :
  covered (gen a g) → covered (gen (specPut s a g l new t (Some q)) g).
Proof.
  intros Hc l'. rewrite specPut_items. destruct (decide (l = l')) as [<-|Hne].
  - intros _. unfold specPut. destruct (gen_setWork (relateAll g (setItem a g l new)
      (putRelated (g_items (gen a g) !! l) new) t) g l (Some (stamp s (mkSchedule t 0 q 0 "" 0)))) as (_ & _ & ->).
    rewrite lookup_partial_alter_eq. eauto.
  - rewrite lookup_partial_alter_ne by done. intros Hi%Hc. exact (grows_specPut s a g l new t (Some q) (OWork l') Hi).
Qed.
Lemma specPage_covered s a g items t : covered (gen a g) → covered (gen (specPage s a g items t) g).
Proof.
  revert a t. induction items as [|it items IH]; intros a t Hc; [done|]. cbn [specPage].
  by apply IH, specPut_covered.
Qed.

(** The part of the state the mirror is. *)
Record sameMirror (a a' : Spec) : Prop := {
  sm_active : a_active a' = a_active a;
  sm_cursor : a_cursor a' = a_cursor a;
  sm_items : g_items (gen a' (a_active a)) = g_items (gen a (a_active a));
}.
#[global] Instance sameMirror_refl : Reflexive sameMirror.
Proof. by split. Qed.
#[global] Instance sameMirror_trans : Transitive sameMirror.
Proof. intros ??? [] []. split; congruence. Qed.
Lemma keepsActive_mirror a a' : keepsActive a a' → sameMirror a a'.
Proof. intros [E1 E2 E3 _ _]. split; [done..|by rewrite E2]. Qed.

(** A dispatcher leaves the items alone, those being staged included. *)
Record sameItems (a a' : Spec) : Prop := {
  si_mirror : sameMirror a a';
  si_staging : a_staging a' = a_staging a;
  si_junk : a_junk a' = a_junk a;
  si_staged : a_staging a ≠ 0%Z → gen a' (a_staging a) = gen a (a_staging a);
}.
Lemma sameItems_refl a : sameItems a a.
Proof. by split. Qed.
Lemma setGen_sameItems kind a G :
  okSpec kind a → g_items G = g_items (gen a (a_active a)) → sameItems a (setGen a (a_active a) G).
Proof.
  intros HO E. split; [split| | |]; try done; [by rewrite gen_setGen|].
  intros Hs. apply gen_setGen_ne. intros Ha. by apply (ok_staging_ne _ _ HO).
Qed.
Lemma setSequence_sameItems a a' n : sameItems a a' → sameItems a (setMeta a' MSequence n).
Proof. intros [[] ???]. by split; [split|..]. Qed.

Lemma commits_sameItems {A} s a (P : A → Spec → Prop) x s' :
  Repr s a → commits s P (x, s') → (∀ y a', P y a' → sameItems a a') →
  s_kind s' = s_kind s ∧ ∃ a', Repr s' a' ∧ sameItems a a'.
Proof.
  intros HR Hc HP. destruct x as [y|e]; simpl in Hc.
  - destruct Hc as (He & a' & Hy & HR'). split; [apply He|]. eauto.
  - split; [apply Hc|]. exists a. split; [by eapply Repr_same|apply sameItems_refl].
Qed.
Lemma managerOp_items s s' a :
  Repr s a → managerOp s s' → s_kind s' = s_kind s ∧ ∃ a', Repr s' a' ∧ sameItems a a'.
Proof.
  intros HR Hm. pose proof (rp_ok _ _ HR) as HO. destruct Hm as [s key x s' E|s key t x s' E|s key t delay failure attempts x s' Hd E|
    s key t x s' E|s index x s' E|s x s' E|s now ctx faults Hnow].
  - pose proof (Enqueue_spec s a key HR) as Hc. rewrite E in Hc.
    eapply commits_sameItems; [done|exact Hc|]. intros _ a' (l & _ & ->). apply setSequence_sameItems. by eapply setGen_sameItems.
  - pose proof (Acknowledge_spec s a key t HR) as Hc. rewrite E in Hc.
    eapply commits_sameItems; [done|exact Hc|].
    intros [] a' (l & _ & _ & ->); [by eapply setGen_sameItems|apply sameItems_refl].
  - pose proof (DeferWork_spec s a key t delay failure attempts HR Hd) as Hc. rewrite E in Hc.
    eapply commits_sameItems; [done|exact Hc|].
    intros [] a' (l & _ & _ & ->); [by eapply setGen_sameItems|apply sameItems_refl].
  - pose proof (AcknowledgeRelated_spec s a key t HR) as Hc. rewrite E in Hc.
    eapply commits_sameItems; [done|exact Hc|].
    intros [] a' (_ & ->); [by eapply setGen_sameItems|apply sameItems_refl].
  - pose proof (RequestFanout_spec s a index HR) as Hc. rewrite E in Hc.
    eapply commits_sameItems; [done|exact Hc|]. intros _ a' [->| ->]; [apply sameItems_refl|by split].
  - pose proof (ProcessFanout_spec s a HR) as Hc. rewrite E in Hc.
    eapply commits_sameItems; [done|exact Hc|].
    intros _ a' (E0 & names & [Hi _ _] & E1 & E2 & E3 & E4 & _). split; [by split| |done|done]. congruence.
  - split; [done|]. exists a. split; [by destruct HR; split|apply sameItems_refl].
Qed.
End items.

Section mirror.
Context {DC : DiskCodec} {DL : DiskCodecLaws} {T : Type} {J : Json T} (r : Runner T).
(** What a resource decodes to is what was encoded, and a projection the store
    admits survives the store's own encoding. *)
Definition jsonRoundTrips : Prop := ∀ v data, jsonMarshal v = Ok data → jsonUnmarshal data = Ok v.
Definition projectionsStorable : Prop :=
  ∀ v it, projection r v = Ok it → diskItem it = Ok (marshalItem it) → storable it.
Hypothesis Hjson : jsonRoundTrips.
Hypothesis Hstorable : projectionsStorable.

Lemma projection_fields v it :
  projection r v = Ok it →
  i_Key it = KeyFunc r v ∧ i_Version it = RevisionFunc r v ∧ jsonUnmarshal (i_Value it) = Ok v.
Proof.
  unfold projection. destruct (jsonMarshal v) as [data|] eqn:E; [|done]. intros [= <-]. eauto.
Qed.

(** ** The stored item of a resource *)

Definition projects (o : option T) (x : option DiskItem) : Prop :=
  match o, x with
  | None, None => True
  | Some v, Some it => projection r v = Ok it
  | _, _ => False
  end.

(** An item as the store takes it. *)
Definition named (kind : string) (it : DiskItem) : Prop :=
  Kind (i_Key it) = kind ∧ diskLogical (i_Key it) = Ok (nameOf it).
Lemma logical_named s it l : logical s (i_Key it) = Ok l → named (s_kind s) it ∧ nameOf it = l.
Proof. intros [Hk Hl]%logical_Ok. unfold named, nameOf. rewrite Hl. done. Qed.

(** Objects listed one after the other, as a generation holds them. *)
Record stagedAs (kind : string) (seen : list T) (m : gmap string DiskItem) (its : list DiskItem) : Prop := {
  sg_items : Forall2 (λ v it, projection r v = Ok it) seen its;
  sg_named : Forall (named kind) its;
  sg_map : m = stageAll ∅ its;
}.
Lemma staged_projects kind seen m its key l :
  stagedAs kind seen m its → Kind key = kind → diskLogical key = Ok l →
  projects (lastSeen r seen key) (m !! l).
Proof.
  intros [Hits Hn ->] Hk Hl. revert its Hits Hn.
  induction seen as [|v seen IH] using rev_ind; intros its Hits Hn.
  { apply Forall2_nil_inv_l in Hits as ->. unfold stageAll. simpl. by rewrite lookup_empty. }
  apply Forall2_app_inv_l in Hits as (its' & tl & Hits & Htl & ->).
  apply Forall2_cons_inv_l in Htl as (it & tl' & Hp & Htl & ->). apply Forall2_nil_inv_l in Htl as ->.
  apply Forall_app in Hn as [Hn Hit]. apply Forall_singleton in Hit as [Hik Hil].
  destruct (projection_fields v it Hp) as (Ek & _ & _).
  rewrite stageAll_app. cbn [stageAll foldl]. unfold lastSeen. rewrite filter_app, filter_cons, filter_nil.
  destruct (decide (KeyFunc r v = key)) as [E|E].
  - rewrite last_snoc. assert (nameOf it = l) as -> by (unfold nameOf; rewrite Ek, E, Hl; done).
    rewrite lookup_insert_eq. exact Hp.
  - rewrite app_nil_r, lookup_insert_ne; [by apply IH|]. intros En. apply E. rewrite <- Ek.
    eapply diskLogical_inj; [|exact Hil|by rewrite En]. congruence.
Qed.

(** ** Staging a page *)

Lemma putPage_named s g items seen t b x :
  putPage s g items seen t b = Ok x →
  Forall (λ it, named (s_kind s) it ∧ diskItem it = Ok (marshalItem it)) items.
Proof.
  revert seen t b. induction items as [|it items IH]; intros seen t b; [constructor|]. simpl.
  case_bool_decide; [done|]. destruct (diskItem it) as [data|] eqn:Ed; [|done]. cbn [bind_result].
  destruct (nextToken t) as [t'|]; [|done]. cbn [bind_result].
  destruct (put s b g it data t' false true) as [b'|] eqn:Ep; [|done]. cbn [bind_result].
  destruct (_ <? _)%Z; [done|]. intros Hr. constructor; [|by eapply IH].
  split.
  - unfold put in Ep. destruct (logical s (i_Key it)) as [l|] eqn:El; [|done]. by apply (logical_named s it l).
  - by destruct (diskItem_Ok it data Ed) as [-> _].
Qed.
Lemma PutSnapshotPage_items s a g vs its x s' :
  Inv (mkSys s (Some g)) a → Forall2 (λ v it, projection r v = Ok it) vs its →
  PutSnapshotPage s g its = (x, s') →
  ∃ a', Inv (mkSys s' (Some g)) a' ∧ s_kind s' = s_kind s ∧ sameMirror a a' ∧
    (x = Ok tt → Forall (named (s_kind s)) its ∧
       g_items (gen a' g) = stageAll (g_items (gen a g)) its ∧ (covered (gen a g) → covered (gen a' g))).
Proof.
  intros HI Hits E. destruct (iv_handle _ _ HI g eq_refl) as [Es HJ]. pose proof (iv_repr _ _ HI) as HR.
  simpl in HR. pose proof (rp_ok _ _ HR) as HO.
  destruct (putPage s g its ∅ (a_sequence a) newDiskBatch) as [[t b]|e] eqn:Ep.
  - pose proof (putPage_named _ _ _ _ _ _ _ Ep) as Hn. apply Forall_and in Hn as [Hn Hd].
    assert (Forall storable its) as Hst.
    { clear Ep E Hn. induction Hits as [|v it vs its Hp _ IH]; constructor; apply Forall_cons in Hd as [? ?]; eauto. }
    pose proof (PutSnapshotPage_spec s a g its HR (λ _, HJ) Hst) as Hc. rewrite E in Hc.
    destruct x as [[]|e]; simpl in Hc.
    + destruct Hc as (He & a' & (_ & Hg0 & ->) & HR').
      destruct (specPage_meta s a g its (a_sequence a)) as (M1 & M2 & M3 & M4).
      destruct (specPage_items s a g its (a_sequence a)) as [I1 I2].
      assert (g ≠ a_active a) as Hga by (rewrite <- Es; apply (ok_staging_ne _ _ HO); congruence).
      eexists. split; [split; [exact HR'|]|]; simpl.
      { intros g' [= <-]. rewrite M2, M3. done. }
      split; [apply He|]. split.
      { split; simpl; [by rewrite M1|done|]. rewrite gen_setMeta, M4; done. }
      intros _. split; [done|]. rewrite gen_setMeta. split; [done|apply specPage_covered].
    + exists a. split; [split; [by eapply Repr_same|exact (iv_handle _ _ HI)]|]. split; [apply Hc|]. done.
  - assert (s' = s ∧ x ≠ Ok tt) as [-> Hx].
    { unfold PutSnapshotPage in E. rewrite (number_staging s a HR), (number_sequence s a HR), Ep in E.
      repeat case_match; injection E as <- <-; done. }
    exists a. done.
Qed.

(** Staging more objects after those seen so far. *)
Definition stages (g : Z) (s : Disk) (a : Spec) (seen vs : list T) (x : result Error unit) (s' : Disk) : Prop :=
  ∃ a', Inv (mkSys s' (Some g)) a' ∧ s_kind s' = s_kind s ∧ sameMirror a a' ∧
    (x = Ok tt → covered (gen a' g) ∧ ∃ its, stagedAs (s_kind s) (seen ++ vs) (g_items (gen a' g)) its).
Lemma flush_items g s a page seen vs its0 x s' :
  Inv (mkSys s (Some g)) a → covered (gen a g) → stagedAs (s_kind s) seen (g_items (gen a g)) its0 →
  Forall2 (λ v it, projection r v = Ok it) vs page → flush s g page = (x, s') → stages g s a seen vs x s'.
Proof.
  intros HI HC HS Hvs E. unfold flush in E. case_bool_decide as Hp.
  - injection E as <- <-. subst page. apply Forall2_nil_inv_r in Hvs as ->.
    exists a. split_and!; try done. intros _. split; [done|]. exists its0. by rewrite app_nil_r.
  - destruct (PutSnapshotPage_items s a g vs page x s' HI Hvs E) as (a' & HI' & Hk & Hm & Hx).
    exists a'. split_and!; [done..|]. intros Hok. destruct (Hx Hok) as (Hn & Hi & Hc), HS as [S1 S2 S3].
    split; [auto|]. exists (its0 ++ page). split; [by apply Forall2_app|by apply Forall_app|by rewrite Hi, S3, stageAll_app].
Qed.
(** The visitor stages what it is shown, after what it was shown before. *)
Lemma visit_items g items page size s a seen vs its0 x s' :
  Inv (mkSys s (Some g)) a → covered (gen a g) → stagedAs (s_kind s) seen (g_items (gen a g)) its0 →
  Forall2 (λ v it, projection r v = Ok it) vs page →
  visit r g items page size s = (x, s') → stages g s a seen (vs ++ items) x s'.
Proof.
  revert page size s a seen vs its0.
  induction items as [|v items IH]; intros page size s a seen vs its0 HI HC HS Hvs; cbn [visit].
  - rewrite app_nil_r. by eapply flush_items.
  - destruct (projection r v) as [it|e] eqn:Ep; [|intros [= <- <-]; by exists a].
    destruct (_ || _).
    + destruct (flush s g page) as [[[]|e] s1] eqn:Ef; intros E.
      2: { injection E as <- <-. eapply flush_items in Ef as (a' & ? & ? & ? & _); [|done..]. by exists a'. }
      destruct (flush_items g s a page seen vs its0 _ s1 HI HC HS Hvs Ef) as (a1 & HI1 & Hk1 & Hm1 & Hx1).
      destruct (Hx1 eq_refl) as [HC1 [its1 HS1]]. rewrite <- Hk1 in HS1.
      destruct (IH [it] _ s1 a1 (seen ++ vs) [v] its1 HI1 HC1 HS1 ltac:(by repeat constructor) E)
        as (a' & HI' & Hk' & Hm' & Hx').
      exists a'. split_and!; [done|congruence|by etrans|]. intros Hok.
      rewrite <- Hk1. rewrite (app_assoc seen vs). by apply Hx'.
    + intros E. replace (vs ++ v :: items) with ((vs ++ [v]) ++ items) by by rewrite <- app_assoc.
      eapply IH; [exact HI|exact HC|exact HS| |exact E]. apply Forall2_app; [done|by repeat constructor].
Qed.

(** ** Events *)

Lemma Read_stored s a key :
  Repr s a →
  match Read s key with
  | Ok (it, found, _) => ∃ l, logical s key = Ok l ∧ a_active a ≠ 0%Z ∧
      g_items (gen a (a_active a)) !! l = if found : bool then Some it else None
  | Err _ => readLock s ≠ Ok tt ∨ a_active a = 0%Z ∨ ∀ l, logical s key ≠ Ok l
  end.
Proof.
  intros HR. unfold Read. destruct (readLock s) as [[]|e] eqn:El; cbn [bind_result]; [|by left].
  destruct (logical s key) as [l|e]; cbn [bind_result]; [|by right; right].
  rewrite (number_active s a HR). cbn [bind_result].
  destruct (Z.eqb_spec (a_active a) 0) as [|H0]; [by right; left|].
  pose proof (active_usable s a HR) as Hu. rewrite (item_usable s a _ l Hu), (tokenAt_usable s a _ l Hu).
  destruct (g_items _ !! l) as [it|] eqn:E; cbn [bind_result]; exists l; rewrite E; done.
Qed.

(** The outcome of an event on the state of the store. *)
Definition refused (old new : T) : bool :=
  match AcceptUpdate r with Some f => negb (f old new) | None => false end.
Definition wakes (old new : T) : bool :=
  match ShouldEnqueueUpdate r with Some f => f old new | None => true end.
Definition eventEffect (s : Disk) (a : Spec) (event : WatchEvent T) (a' : Spec) : Prop :=
  let obj := e_Object event in
  let cursor := e_ResourceVersion event in
  a_staging a = 0%Z ∧ a_active a ≠ 0%Z ∧
  match e_Type event with
  | Bookmark => a' = setCursor a cursor
  | OtherEvent _ => False
  | Deleted => ∃ l, logical s (KeyFunc r obj) = Ok l ∧ a' = specApply s a l None true cursor
  | Added | Modified => ∃ it l, projection r obj = Ok it ∧ logical s (KeyFunc r obj) = Ok l ∧
      match g_items (gen a (a_active a)) !! l with
      | None => a' = specApply s a l (Some it) true cursor
      | Some prior => ∃ old, jsonUnmarshal (i_Value prior) = Ok old ∧
          a' = if bool_decide (i_Version prior = i_Version it) || refused old obj
               then setCursor a cursor else specApply s a l (Some it) (wakes old obj) cursor
      end
  end.

Lemma Apply_projected s a v it enqueue cursor :
  Repr s a → projection r v = Ok it →
  commits s (λ _ a', a_staging a = 0%Z ∧ a_active a ≠ 0%Z ∧
    ∃ l, logical s (i_Key it) = Ok l ∧ a' = specApply s a l (Some it) enqueue cursor)
    (Apply s it false enqueue cursor).
Proof.
  intros HR Hp. destruct (diskItem it) as [data|e] eqn:Ed.
  - apply (Apply_spec s a it false enqueue cursor HR). intros _. apply (Hstorable v); [done|].
    by destruct (diskItem_Ok it data Ed) as [-> _].
  - unfold Apply. destruct (badCursor cursor); [done|]. rewrite (number_staging s a HR).
    destruct (negb _); [done|]. rewrite (number_active s a HR). destruct (_ =? _)%Z; [done|].
    rewrite (number_sequence s a HR). destruct (nextToken _); [|done]. by rewrite Ed.
Qed.
Lemma applyDiskEvent_effect s a event :
  Repr s a → commits s (λ _ a', eventEffect s a event a') (applyDiskEvent r s event).
Proof.
  intros HR. unfold applyDiskEvent, eventEffect. destruct event as [ty obj cursor]. simpl.
  assert (commits s (λ _ a', a_staging a = 0%Z ∧ a_active a ≠ 0%Z ∧
    ∃ it l, projection r obj = Ok it ∧ logical s (KeyFunc r obj) = Ok l ∧
      match g_items (gen a (a_active a)) !! l with
      | None => a' = specApply s a l (Some it) true cursor
      | Some prior => ∃ old, jsonUnmarshal (i_Value prior) = Ok old ∧
          a' = if bool_decide (i_Version prior = i_Version it) || refused old obj
               then setCursor a cursor else specApply s a l (Some it) (wakes old obj) cursor
      end)
    (applyDiskEvent r s (mkEvent Added obj cursor))) as Hup.
  { unfold applyDiskEvent. simpl. destruct (projection r obj) as [it|e] eqn:Ep; [|done].
    destruct (projection_fields obj it Ep) as (Ek & _ & _). rewrite <- Ek.
    pose proof (Read_stored s a (i_Key it) HR) as Hread.
    destruct (Read s (i_Key it)) as [[[prior found] tok]|e]; [|done].
    destruct Hread as (l & El & H0 & Hi). destruct found.
    - destruct (jsonUnmarshal (i_Value prior)) as [old|e] eqn:Eo; [|done]. fold (refused old obj) (wakes old obj).
      destruct (bool_decide _ || _) eqn:Eb.
      + eapply commits_mono; [|apply (AdvanceCursor_spec s a cursor HR)].
        intros _ a' (E1 & E2 & ->). split_and!; [done..|]. exists it, l. rewrite Hi. split_and!; [done..|].
        exists old. rewrite Eb. done.
      + eapply commits_mono; [|apply (Apply_projected s a obj it _ cursor HR Ep)].
        intros _ a' (E1 & E2 & l' & El' & ->). rewrite El in El'. injection El' as <-.
        split_and!; [done..|]. exists it, l. rewrite Hi. split_and!; [done..|]. exists old. rewrite Eb. done.
    - eapply commits_mono; [|apply (Apply_projected s a obj it _ cursor HR Ep)].
      intros _ a' (E1 & E2 & l' & El' & ->). rewrite El in El'. injection El' as <-.
      split_and!; [done..|]. exists it, l. rewrite Hi. done. }
  destruct ty; [exact Hup|exact Hup| | |done].
  - eapply commits_mono; [|by apply (Apply_spec s a _ true true cursor HR)]. intros _ a' (E1 & E2 & l & ? & ->). eauto.
  - eapply commits_mono; [|apply (AdvanceCursor_spec s a cursor HR)]. done.
Qed.
End mirror.
