(* ===== verification/RunnerTheorems.v ===== *)
(** * What the runner guarantees

    The invariant of the runner's loop against the history of the kind, and
    what follows for the readers of the mirror. *)

From S2P Require Import Prelude WorkTypes DiskKeys DiskStore DiskSpec DiskBatch DiskPut.
From S2P Require Import DiskRefine DiskScan DiskSnapshot DiskFanout DiskMerge DiskSystem DiskTheorems Cache Runner RunnerMirror.

Section history.
Context {T : Type} (r : Runner T).

(** ** Histories *)

Lemma stateAt_app h cs p key : p ≤ length h → stateAt r (h ++ cs) p key = stateAt r h p key.
Proof. intros Hp. unfold stateAt. by rewrite take_app_le. Qed.
Lemma stateAt_next h n c key :
  h !! n = Some c →
  stateAt r h (S n) key = if decide (changeKey r c = key) then after c else stateAt r h n key.
Proof.
  intros Hn. unfold stateAt, replay. rewrite (take_S_r _ _ c) by done. by rewrite foldl_app.
Qed.
Definition okHistory (h : list Change) : Prop := ∀ n c, h !! n = Some c → okChange r (take n h) c.
Lemma okHistory_next h c : okHistory h → okChange r h c → okHistory (h ++ [c]).
Proof.
  intros Hh Hc n c' Hn. apply lookup_app_Some in Hn as [Hn|[Hlen Hn]].
  - rewrite take_app_le by (apply lookup_lt_Some in Hn; lia). by apply Hh.
  - apply list_lookup_singleton_Some in Hn as [Hn <-]. rewrite take_app_le by lia.
    by rewrite take_ge by lia.
Qed.
(** An update of the history, against the object it replaces. *)
Lemma okHistory_update h n c old new :
  okHistory h → h !! n = Some c → stateAt r h n (changeKey r c) = Some old → after c = Some new →
  (RevisionFunc r old = RevisionFunc r new → old = new) ∧ refused r old new = false.
Proof.
  intros Hh Hn Ho Ha. pose proof (lookup_lt_Some _ _ _ Hn).
  destruct (Hh n c Hn old new) as [H1 H2]; [|done|].
  - unfold stateAt in *. rewrite take_take, length_take. by rewrite !Nat.min_l by lia.
  - split; [done|]. unfold refused. destruct (AcceptUpdate r) as [f|]; [|done]. by rewrite (H2 f).
Qed.
End history.

Section theorems.
Context {DC : DiskCodec} {DL : DiskCodecLaws} {T : Type} {J : Json T} (r : Runner T).
Hypothesis Hjson : jsonRoundTrips (T := T).
Hypothesis Hstorable : projectionsStorable r.
Variable position : string → nat.

(** ** The mirror *)

(** Every resource is stored as it was at some time since position [n]. *)
Definition mirrors (kind : string) (h : list Change) (n : nat) (items : gmap string DiskItem) : Prop :=
  ∀ key l, Kind key = kind → diskLogical key = Ok l →
    ∃ p, n ≤ p ≤ length h ∧ projects r (stateAt r h p key) (items !! l).

Lemma mirrors_app kind h cs n items : mirrors kind h n items → mirrors kind (h ++ cs) n items.
Proof.
  intros Hm key l Hk Hl. destruct (Hm key l Hk Hl) as (p & Hp & Hx). exists p.
  rewrite length_app, stateAt_app by lia. split; [lia|done].
Qed.
(** A resource other than the changed one is as it was. *)
Lemma mirrors_other kind h n c items key l :
  h !! n = Some c → mirrors kind h n items → Kind key = kind → diskLogical key = Ok l →
  changeKey r c ≠ key → ∃ p, S n ≤ p ≤ length h ∧ projects r (stateAt r h p key) (items !! l).
Proof.
  intros Hn Hm Hk Hl Hne. destruct (Hm key l Hk Hl) as (p & Hp & Hx).
  pose proof (lookup_lt_Some _ _ _ Hn). destruct (decide (p = n)) as [->|]; [|exists p; split; [lia|done]].
  exists (S n). split; [lia|]. rewrite (stateAt_next r h n c) by done. by rewrite decide_False.
Qed.
(** A change stored brings the mirror past it. *)
Lemma mirrors_stored kind h n c items l x :
  h !! n = Some c → mirrors kind h n items → Kind (changeKey r c) = kind →
  diskLogical (changeKey r c) = Ok l → projects r (after c) x →
  mirrors kind h (S n) (partial_alter (λ _, x) l items).
Proof.
  intros Hn Hm Hk Hl Hx key l' Hk' Hl'. pose proof (lookup_lt_Some _ _ _ Hn).
  destruct (decide (changeKey r c = key)) as [<-|Hne].
  - assert (l' = l) as -> by congruence. exists (S n). split; [lia|].
    rewrite lookup_partial_alter_eq, (stateAt_next r h n c), decide_True by done. done.
  - rewrite lookup_partial_alter_ne; [by eapply mirrors_other|].
    intros ->. apply Hne. by eapply diskLogical_inj; [|exact Hl|exact Hl']; congruence.
Qed.
(** A change that is passed over was stored already, or a later one was. *)
Lemma mirrors_skipped kind h n c items l new it prior old :
  okHistory r h → h !! n = Some c → mirrors kind h n items → Kind (changeKey r c) = kind →
  diskLogical (changeKey r c) = Ok l → after c = Some new → projection r new = Ok it →
  items !! l = Some prior → jsonUnmarshal (i_Value prior) = Ok old →
  bool_decide (i_Version prior = i_Version it) || refused r old new = true →
  mirrors kind h (S n) items.
Proof.
  intros Hh Hn Hm Hk Hl Ha Hp Hi Ho Hskip key l' Hk' Hl'. pose proof (lookup_lt_Some _ _ _ Hn).
  destruct (decide (changeKey r c = key)) as [<-|Hne]; [|by eapply mirrors_other].
  assert (l' = l) as -> by congruence. destruct (Hm _ _ Hk Hl) as (p & Hpos & Hx).
  destruct (decide (p = n)) as [->|]; [|exists p; split; [lia|done]].
  exists (S n). split; [lia|]. rewrite Hi in *. rewrite (stateAt_next r h n c), decide_True by done.
  destruct (stateAt r h n (changeKey r c)) as [old'|] eqn:Es; [|done]. simpl in Hx.
  destruct (projection_fields r Hjson _ _ Hx) as (_ & Ev & Eo). rewrite Ho in Eo. injection Eo as <-.
  destruct (okHistory_update r h n c old new Hh Hn Es Ha) as [H1 H2]. rewrite H2, orb_false_r in Hskip.
  apply bool_decide_eq_true in Hskip. rewrite Ha. simpl.
  destruct (projection_fields r Hjson _ _ Hp) as (_ & Ev' & _). rewrite <- (H1 ltac:(congruence)). done.
Qed.
(** Consuming the next event of the stream. *)
Lemma mirrors_event s a h n c cursor a' :
  okHistory r h → h !! n = Some c → mirrors (s_kind s) h n (g_items (gen a (a_active a))) →
  eventEffect r s a (eventOf c cursor) a' →
  a_active a' = a_active a ∧ a_staging a' = a_staging a ∧ a_junk a' = a_junk a ∧ a_cursor a' = Some cursor ∧
  mirrors (s_kind s) h (S n) (g_items (gen a' (a_active a))).
Proof.
  intros Hh Hn Hm (_ & _ & He).
  assert (∀ l x p, let a1 := specApply s a l x p cursor in
    a_active a1 = a_active a ∧ a_staging a1 = a_staging a ∧ a_junk a1 = a_junk a ∧ a_cursor a1 = Some cursor ∧
    g_items (gen a1 (a_active a)) = partial_alter (λ _, x) l (g_items (gen a (a_active a)))) as Happly.
  { intros l x p. destruct (specPut_meta s a (a_active a) l x (a_sequence a + 1) (if p then Some 0%Z else None))
      as (E1 & E2 & E3 & _). split_and!; [exact E1|exact E2|exact E3|done|]. apply specPut_items. }
  destruct c as [created new|gone]; cbn [eventOf e_Type e_Object e_ResourceVersion changed] in He.
  - assert (∃ it l, projection r new = Ok it ∧ logical s (KeyFunc r new) = Ok l ∧
      match g_items (gen a (a_active a)) !! l with
      | None => a' = specApply s a l (Some it) true cursor
      | Some prior => ∃ old, jsonUnmarshal (i_Value prior) = Ok old ∧
          a' = if bool_decide (i_Version prior = i_Version it) || refused r old new
               then setCursor a cursor else specApply s a l (Some it) (wakes r old new) cursor
      end) as (it & l & Hp & [Hk Hl]%logical_Ok & Hc) by (by destruct created). clear He.
    assert (∀ p, a' = specApply s a l (Some it) p cursor →
      a_active a' = a_active a ∧ a_staging a' = a_staging a ∧ a_junk a' = a_junk a ∧ a_cursor a' = Some cursor ∧
      mirrors (s_kind s) h (S n) (g_items (gen a' (a_active a)))) as Hput.
    { intros p ->. destruct (Happly l (Some it) p) as (E1 & E2 & E3 & E4 & E5). split_and!; [done..|].
      rewrite E5. by apply (mirrors_stored _ h n (Upserted created new)). }
    destruct (g_items _ !! l) as [prior|] eqn:Ei; [|by eapply Hput].
    destruct Hc as (old & Ho & ->). destruct (bool_decide _ || _) eqn:Eb; [|by eapply Hput].
    split_and!; [done..|]. by eapply (mirrors_skipped _ h n (Upserted created new) _ l new it prior old).
  - destruct He as (l & [Hk Hl]%logical_Ok & ->). destruct (Happly l None true) as (E1 & E2 & E3 & E4 & E5).
    split_and!; [done..|]. rewrite E5. by apply (mirrors_stored _ h n (Removed gone)).
Qed.

(** ** The invariant of the loop *)

Fixpoint handleOf (p : Phase (T := T)) : option Z :=
  match p with PListing g _ _ => Some g | PWait _ p => handleOf p | _ => None end.
(** The runner follows the stored cursor. *)
Definition follows (a : Spec) (rv : string) : Prop := a_active a ≠ 0%Z ∧ a_cursor a = Some rv.
Fixpoint okPhase (kind : string) (a : Spec) (rv : string) (h : list (Change (T := T))) (p : Phase (T := T)) : Prop :=
  match p with
  | PListing g cursor seen => g ≠ 0%Z ∧ position cursor ≤ length h ∧ covered (gen a g) ∧
      ∃ its, stagedAs r kind seen (g_items (gen a g)) its
  | PCollect | PConnect => follows a rv
  | PWatching pos => follows a rv ∧ position rv = pos
  | PWait _ p => okPhase kind a rv h p
  | _ => True
  end.
Record RunInv (u : Run (T := T)) (a : Spec) : Prop := {
  ri_inv : Inv (mkSys (u_disk u) (handleOf (u_phase u))) a;
  ri_history : okHistory r (u_hist u);
  ri_mirror : a_active a ≠ 0%Z → ∃ cursor, a_cursor a = Some cursor ∧ position cursor ≤ length (u_hist u) ∧
    mirrors (s_kind (u_disk u)) (u_hist u) (position cursor) (g_items (gen a (a_active a)));
  ri_phase : okPhase (s_kind (u_disk u)) a (u_currentRV u) (u_hist u) (u_phase u);
  ri_synced : HasSynced (u_cache u) = true → a_active a ≠ 0%Z;
}.

(** What a reader of the mirror finds under a name. *)
Definition storedIn (a : Spec) (l : string) : option DiskItem :=
  if (a_active a =? 0)%Z then None else g_items (gen a (a_active a)) !! l.
(** An update that need not be reconciled. *)
Definition quiet (o o' : option DiskItem) : Prop :=
  ∃ it it' old new, o = Some it ∧ o' = Some it' ∧ jsonUnmarshal (i_Value it) = Ok old ∧
    projection r new = Ok it' ∧ wakes r old new = false.
(** What changed in the mirror is owed, or was quiet. *)
Definition owing (a a' : Spec) : Prop :=
  ∀ l, storedIn a' l ≠ storedIn a l →
    is_Some (g_work (gen a' (a_active a')) !! l) ∨ quiet (storedIn a l) (storedIn a' l).
Lemma sameMirror_owing a a' : sameMirror a a' → owing a a'.
Proof. intros [M1 _ M3] l. unfold storedIn. by rewrite M1, M3. Qed.

(** The mirror is as it was: only the phase is to be checked. *)
Lemma RunInv_same u a s' c' p' rv' a' :
  RunInv u a → Inv (mkSys s' (handleOf p')) a' → s_kind s' = s_kind (u_disk u) → sameMirror a a' →
  okPhase (s_kind s') a' rv' (u_hist u) p' →
  (HasSynced c' = true → HasSynced (u_cache u) = true ∨ a_active a ≠ 0%Z) →
  RunInv (mkRun s' c' p' rv' (u_hist u)) a' ∧ owing a a'.
Proof.
  intros [H1 H2 H3 H4 H5] HI Hk HM Hp Hs. split; [|by apply sameMirror_owing]. destruct HM as [M1 M2 M3].
  split; simpl; [done|done| |done|].
  - rewrite M1, M2, M3, Hk. exact H3.
  - rewrite M1. intros [?|?]%Hs; auto.
Qed.
Lemma okPhase_mirror kind a a' rv h p :
  sameMirror a a' → (∀ g, handleOf p = Some g → g ≠ 0%Z → gen a' g = gen a g) →
  okPhase kind a rv h p → okPhase kind a' rv h p.
Proof.
  intros [M1 M2 _]. induction p as [| | |g cursor seen| | |pos|ch p IH]; simpl; unfold follows; rewrite ?M1, ?M2; try done.
  - intros Hg (H1 & H2 & H3). rewrite Hg by done. done.
Qed.
Lemma okPhase_history kind a rv h c p : okPhase kind a rv h p → okPhase kind a rv (h ++ [c]) p.
Proof.
  induction p as [| | |g cursor seen| | |pos|ch p IH]; simpl; try done.
  intros (H1 & H2 & H3). rewrite length_app. split; [done|]. split; [lia|done].
Qed.
(** The recovery gate does not say whether the cache is synced. *)
Lemma recover_synced (c : Cache T) now p : HasSynced (recover c now p).1 = HasSynced c.
Proof. unfold recover, Cache.BeginRecovery, set_recovery, set_gate. repeat case_match; by simplify_eq. Qed.
Lemma recover_phase kind a rv h (c : Cache T) now p :
  okPhase kind a rv h p → okPhase kind a rv h (recover c now p).2 ∧ handleOf (recover c now p).2 = handleOf p.
Proof. intros Hp. unfold recover. destruct (Cache.BeginRecovery c now) as [[ch|] c']; done. Qed.

Lemma specApply_owing s a l x p cursor :
  (p = false → quiet (storedIn a l) x) → a_active a ≠ 0%Z → owing a (specApply s a l x p cursor).
Proof.
  intros Hq Ha l'. unfold storedIn.
  assert (a_active (specApply s a l x p cursor) = a_active a) as ->.
  { unfold specApply. apply specPut_meta. }
  rewrite (proj2 (Z.eqb_neq _ _) Ha). unfold specApply.
  change (gen (setCursor (setMeta ?a0 _ _) _)) with (gen a0). rewrite specPut_items.
  destruct (decide (l = l')) as [<-|]; [|by rewrite lookup_partial_alter_ne].
  rewrite lookup_partial_alter_eq. intros _. destruct p; [left|].
  - unfold specPut. destruct (gen_setWork (relateAll (a_active a) (setItem a (a_active a) l x)
      (putRelated (g_items (gen a (a_active a)) !! l) x) (a_sequence a + 1)) (a_active a) l
      (Some (stamp s (mkSchedule (a_sequence a + 1) 0 0 0 "" 0)))) as (_ & _ & ->).
    rewrite lookup_partial_alter_eq. eauto.
  - right. specialize (Hq eq_refl). unfold storedIn in Hq. by rewrite (proj2 (Z.eqb_neq _ _) Ha) in Hq.
Qed.
Lemma effect_owing s a ev a' : eventEffect r s a ev a' → owing a a'.
Proof.
  intros (_ & Ha & He).
  assert (∀ cursor, owing a (setCursor a cursor)) as Hcur by by intros cursor l.
  assert ((∃ it l, projection r (e_Object ev) = Ok it ∧ logical s (KeyFunc r (e_Object ev)) = Ok l ∧
      match g_items (gen a (a_active a)) !! l with
      | None => a' = specApply s a l (Some it) true (e_ResourceVersion ev)
      | Some prior => ∃ old, jsonUnmarshal (i_Value prior) = Ok old ∧
          a' = if bool_decide (i_Version prior = i_Version it) || refused r old (e_Object ev)
               then setCursor a (e_ResourceVersion ev)
               else specApply s a l (Some it) (wakes r old (e_Object ev)) (e_ResourceVersion ev)
      end) → owing a a') as Hup.
  { intros (it & l & Hp & _ & Hc). destruct (g_items _ !! l) as [prior|] eqn:Ei.
    - destruct Hc as (old & Ho & ->). destruct (bool_decide _ || _); [apply Hcur|].
      apply specApply_owing; [|done]. intros Hw. exists prior, it, old, (e_Object ev).
      unfold storedIn. rewrite (proj2 (Z.eqb_neq _ _) Ha). done.
    - subst a'. by apply specApply_owing. }
  destruct (e_Type ev); [by apply Hup|by apply Hup| | |done].
  - destruct He as (l & _ & ->). by apply specApply_owing.
  - subst a'. apply Hcur.
Qed.

Lemma consume_inv s c now rv h a pos pos' ev (u := mkRun s c (PWatching pos) rv h) :
  RunInv u a →
  (∀ a', eventEffect r s a ev a' → follows a rv → position rv = pos →
     a_active a' = a_active a ∧ a_staging a' = a_staging a ∧ a_junk a' = a_junk a ∧
     a_cursor a' = Some (e_ResourceVersion ev) ∧
     mirrors (s_kind s) h pos' (g_items (gen a' (a_active a)))) →
  position (e_ResourceVersion ev) = pos' → pos' ≤ length h →
  ∃ a', RunInv (let '(s, c, p, rv) := consume r s c now rv pos pos' ev in mkRun s c p rv h) a' ∧ owing a a'.
Proof.
  intros HI Heff Hpos Hlen. pose proof (iv_repr _ _ (ri_inv _ _ HI)) as HR. simpl in HR.
  pose proof (applyDiskEvent_effect r Hjson Hstorable s a ev HR) as Hc. unfold consume.
  destruct (applyDiskEvent r s ev) as [[[]|e] s']; simpl in Hc.
  - destruct Hc as (He & a' & Hev & HR'). destruct (ri_phase _ _ HI) as [Hf Hrv]. simpl in Hf, Hrv.
    destruct (Heff a' Hev Hf Hrv) as (E1 & E2 & E3 & E4 & Hm). exists a'. pose proof (se_kind _ _ He) as Hk.
    split; [|by eapply effect_owing]. split; simpl.
    + split; [done|]. by intros.
    + apply HI.
    + intros _. exists (e_ResourceVersion ev). rewrite E1, E4, Hk, Hpos. done.
    + split; [|done]. split; [rewrite E1; apply Hf|done].
    + intros _. rewrite E1. apply Hf.
  - exists a. destruct (recover c now (PWatching pos)) as [c' p'] eqn:Er.
    pose proof (recover_synced c now (PWatching pos)) as Hs. rewrite Er in Hs. simpl in Hs.
    destruct (recover_phase (s_kind s') a rv h c now (PWatching pos)) as [Hp Hh]; [apply (ri_phase _ _ HI)|].
    rewrite Er in Hp, Hh. simpl in Hh.
    apply (RunInv_same u a s' c' p' rv a HI); simpl.
    + rewrite Hh. split; [by eapply Repr_same|done].
    + apply Hc.
    + reflexivity.
    + exact Hp.
    + rewrite Hs. by left.
Qed.

(** ** Every step keeps it *)

Lemma storedIn_same s a l old new :
  Repr s a → storedIn a l = Some old → okItem (s_kind s) l new → projectionChanged old new = false → new = old.
Proof.
  intros HR Eo [Hk Hl _ _] Hc. unfold storedIn in Eo. destruct (_ =? _)%Z; [done|].
  destruct (og_items _ _ _ (active_gen _ _ (rp_ok _ _ HR)) l old Eo) as [Hk' Hl' _ _].
  assert (i_Key new = i_Key old) as E by (eapply diskLogical_inj; [congruence|done..]).
  unfold projectionChanged, relationsChanged in Hc. destruct old, new. simpl in *.
  repeat case_bool_decide; simpl in Hc; congruence.
Qed.

Lemma gen_begin kind a : okSpec kind a → gen (specBegin a) (a_next a + 1) = emptyGen.
Proof.
  intros HO. destruct (ok_unused _ _ HO (a_next a + 1)%Z) as [_ E]; [lia|].
  unfold specBegin. rewrite !gen_setMeta. unfold reclaimed.
  assert (∀ a' g, gen a' (a_next a + 1) = emptyGen → gen (cleared a' g) (a_next a + 1) = emptyGen) as Hc.
  { intros a' g E'. destruct (decide (a_next a + 1 = g)%Z) as [->|]; [|by rewrite gen_cleared_ne].
    unfold gen, cleared. simpl. by rewrite lookup_delete_eq. }
  destruct (a_staging a =? 0)%Z; cbn [a_garbage cleared]; (destruct (a_garbage a =? 0)%Z; [|apply Hc]); auto.
Qed.

Section steps.
Context (s : Disk) (c : Cache T) (rv : string) (h : list (Change (T := T))) (a : Spec).
#[local] Notation next u := (∃ a', RunInv u a' ∧ owing a a').

Lemma begin_inv x s' cursor :
  RunInv (mkRun s c PList rv h) a → BeginSnapshot s = Some (x, s') → position cursor ≤ length h →
  next (mkRun s' c (match x with Ok g => PListing g cursor [] | Err _ => PList end) rv h).
Proof.
  intros HI E Hpos. pose proof (iv_repr _ _ (ri_inv _ _ HI)) as HR. simpl in HR. pose proof (rp_ok _ _ HR) as HO.
  destruct (BeginSnapshot_spec s a HR) as (x0 & s0 & E0 & He & H). rewrite E in E0. injection E0 as <- <-.
  destruct x as [g|e].
  - destruct H as [-> HR']. exists (specBegin a).
    apply (RunInv_same _ a _ _ _ _ _ HI); simpl; [|apply He|by eapply keepsActive_mirror, specBegin_keeps| |by left].
    + split; [done|]. intros g [= <-]. split; [done|]. intros Hin.
      destruct (ok_unused _ _ HO (a_next a + 1)%Z) as [Hn _]; [lia|]. apply Hn, (junk_reclaimed a), Hin.
    + split; [pose proof (ok_next _ _ HO); unfold isU64 in *; lia|]. rewrite (gen_begin _ _ HO). split; [done|].
      split; [by intros l [? ?]|]. exists []. by split.
  - destruct H as (a' & Hk & HR'). exists a'.
    apply (RunInv_same _ a _ _ _ _ _ HI); simpl; [by split|apply He|by apply keepsActive_mirror|done|by left].
Qed.
Lemma visit_inv g cursor seen items x s' :
  RunInv (mkRun s c (PListing g cursor seen) rv h) a → visitPage r g items s = (x, s') →
  next (mkRun s' c (match x with Ok _ => PListing g cursor (seen ++ items) | Err _ => PList end) rv h).
Proof.
  intros HI E. destruct (ri_phase _ _ HI) as (H0 & Hpos & Hcov & its & Hits). simpl in *.
  destruct (visit_items r Hstorable g items [] 0 s a seen [] its x s') as (a' & HI' & Hk & Hm & Hx);
    [apply HI|done|done|constructor|exact E|]. exists a'.
  destruct x as [[]|e]; apply (RunInv_same _ a _ _ _ _ _ HI); simpl; try done; try by left.
  - destruct (Hx eq_refl) as [Hcov' [its' Hits']]. split_and!; [done..|]. exists its'. by rewrite Hk.
  - split; [apply HI'|done].
Qed.
Lemma finish_inv g cursor seen x s' :
  RunInv (mkRun s c (PListing g cursor seen) rv h) a → listed r h (position cursor) seen →
  FinishSnapshot g cursor s = Some (x, s') →
  next (match x with
        | Ok _ => mkRun s' (Cache.MarkSynced c) PCollect cursor h
        | Err _ => mkRun s' c PList rv h
        end).
Proof.
  intros HI Hl E. destruct (ri_phase _ _ HI) as (H0 & Hpos & Hcov & its & Hits). simpl in *.
  pose proof (ri_inv _ _ HI) as HY. destruct (iv_handle _ _ HY g eq_refl) as [Es HJ].
  destruct (FinishSnapshot_spec s a g cursor (iv_repr _ _ HY) (λ _, HJ)) as (x0 & s0 & E0 & He & H). simpl in *.
  rewrite E in E0. injection E0 as <- <-. pose proof (se_kind _ _ He) as Hk. destruct x as [[]|e].
  - destruct H as (_ & _ & G & n & HM & HR'). exists (specPublish a g G n cursor). split; [split; simpl|].
    + by split.
    + apply HI.
    + intros _. exists cursor. split_and!; [done..|].
      change (a_active (specPublish a g G n cursor)) with g. rewrite publish_gen, (published_items s a g G n HM).
      intros key l Hkey Hlog. destruct (Hl key) as (p & Hp & Hseen). exists p. split; [done|]. rewrite <- Hseen.
      apply (staged_projects r Hjson (s_kind s) seen _ its); [done|congruence|done].
    + by split.
    + by intros _.
    + intros l. unfold storedIn at 1 3. change (a_active (specPublish a g G n cursor)) with g.
      rewrite (proj2 (Z.eqb_neq _ _) H0), publish_gen, (published_items s a g G n HM). intros Hne. left.
      apply (published_pending s a g G n HM l). right.
      assert (g_items (priorGen a) !! l = storedIn a l) as -> by (unfold priorGen, storedIn; by destruct (_ =? _)%Z).
      destruct (g_items (gen a g) !! l) as [new|] eqn:En; [right|].
      * split; [by apply Hcov; rewrite En|]. unfold sameItem. destruct (storedIn a l) as [old|] eqn:Eo; [|by intros []].
        intros Hsame. apply Hne. f_equal. eapply storedIn_same; [exact (iv_repr _ _ HY)|exact Eo| |exact Hsame].
        apply (og_items _ _ _ (ok_gens _ _ (rp_ok _ _ (iv_repr _ _ HY)) g HJ) l new En).
      * left. destruct (storedIn a l); [eauto|done].
  - destruct H as (a' & Hka & _ & _ & HR'). exists a'.
    apply (RunInv_same _ a _ _ _ _ _ HI); simpl; [by split|done|by apply keepsActive_mirror|done|by left].
Qed.
Lemma collect_inv x s' :
  RunInv (mkRun s c PCollect rv h) a → CollectGarbage s = Some (x, s') →
  next (mkRun s' c (match x with Ok _ => PConnect | Err _ => PCollect end) rv h).
Proof.
  intros HI E. pose proof (iv_repr _ _ (ri_inv _ _ HI)) as HR. simpl in HR. pose proof (rp_ok _ _ HR) as HO.
  destruct (CollectGarbage_spec s a HR) as (x0 & s0 & E0 & He & H). rewrite E in E0. injection E0 as <- <-.
  assert (∃ a', Repr s' a' ∧ sameMirror a a') as (a' & HR' & Hm).
  { destruct x as [[]|e].
    - destruct H as [H0 HR']. eexists. split; [exact HR'|]. split; [done..|]. rewrite gen_setMeta, gen_cleared_ne; [done|].
      intros Eg. apply (ok_garbage_ne _ _ HO); congruence.
    - destruct H as (a' & Hk & HR'). exists a'. split; [done|by apply keepsActive_mirror]. }
  exists a'. apply (RunInv_same _ a _ _ _ _ _ HI); simpl; [by split; destruct x|apply He|done| |by left].
  pose proof (ri_phase _ _ HI) as Hf. simpl in Hf. destruct Hm as [M1 M2 _].
  destruct x; simpl; unfold follows; by rewrite M1, M2.
Qed.
Lemma resume_inv x s' :
  RunInv (mkRun s c PStart rv h) a → resume s = Some (x, s') →
  next (match x with
        | Err _ => mkRun s' c PDown rv h
        | Ok None => mkRun s' c PList rv h
        | Ok (Some cursor) => mkRun s' (Cache.MarkSynced c) PCollect cursor h
        end).
Proof.
  intros HI E. pose proof (iv_repr _ _ (ri_inv _ _ HI)) as HR. simpl in HR. pose proof (rp_ok _ _ HR) as HO.
  assert (∀ s' p, handleOf p = None → okPhase (s_kind s) a rv h p → s' = s → next (mkRun s' c p rv h)) as Hstay.
  { intros s1 p Hh Hp ->. exists a. apply (RunInv_same _ a _ _ _ _ _ HI); simpl; [|done|reflexivity|done|by left].
    rewrite Hh. apply HI. }
  unfold resume in E. destruct (Active s) as [[active cursor]|e] eqn:Ea; [|injection E as <- <-; by apply Hstay].
  unfold Active in Ea. destruct (readLock s) as [[]|]; [|done]. cbn [bind_result] in Ea.
  rewrite (number_active s a HR) in Ea. cbn [bind_result] in Ea.
  destruct (Z.eqb_spec (a_active a) 0) as [H0|H0].
  { injection Ea as <- <-. simpl in E. injection E as <- <-. by apply Hstay. }
  assert (a_cursor a = Some cursor ∧ active = a_active a) as [Hcur ->].
  { pose proof (v_row _ _ _ (rp_view _ _ HR) (RMeta MCursor) I I) as Hrow. change (rowKey (RMeta MCursor)) with "cursor" in Hrow.
    cbn [rowOf] in Hrow. rewrite <- Hrow. destruct (s_db s !! "cursor") as [v|]; [|done].
    destruct v; [done|]. by injection Ea as <- <-. }
  destruct (Z.eqb_spec (a_active a) 0) as [|_]; [done|].
  destruct (DiscardStaging_spec s a HR) as (x0 & s0 & E0 & He & H). rewrite E0 in E.
  assert (∃ a', Repr s0 a' ∧ sameMirror a a') as (a' & HR' & Hm).
  { destruct x0 as [[]|e].
    - eexists. split; [exact H|]. destruct (Z.eqb_spec (a_staging a) 0) as [|Hs]; [reflexivity|].
      split; [done..|]. rewrite gen_setMeta, gen_cleared_ne; [done|]. intros Eg. by apply (ok_staging_ne _ _ HO).
    - destruct H as (a' & Hk & HR'). exists a'. split; [done|by apply keepsActive_mirror]. }
  exists a'. destruct x0 as [[]|e]; injection E as <- <-;
    apply (RunInv_same _ a _ _ _ _ _ HI); simpl; try done; try apply He; auto.
  destruct Hm as [M1 M2 _]. split; [by rewrite M1|by rewrite M2].
Qed.
End steps.

Lemma run_step_inv u u' a :
  RunInv u a → run_step r position u u' → ∃ a', RunInv u' a' ∧ owing a a'.
Proof.
  intros HI Hs. destruct Hs as [s c p rv h ch Hch|s s' c p rv h Hm|s c c' p rv h Hd|s c p rv h Hd|s c ch p rv h Hc|
    s c p rv h|s s' c p rv h now Hnow Ho|s s' c rv h x E|s s' c rv h x cursor E Hpos|s s' c rv h g cursor seen items x E|
    s c p rv h now pages rows|s c rv h g cursor seen|s s' c rv h g cursor seen x Hl E|s s' c rv h x E|s c rv h now|
    s c p rv h now Hp|s c pos rv h|s c rv h pos ch cursor now Hn Hpos|s c rv h pos obj cursor now Hpos].
  - exists a. split; [|by apply sameMirror_owing]. destruct HI as [H1 H2 H3 H4 H5]. split; simpl in *; [done| | | |done].
    + by apply okHistory_next.
    + intros Ha. destruct (H3 Ha) as (cursor & E & Hle & Hm). exists cursor. rewrite length_app.
      split; [done|]. split; [lia|]. by apply mirrors_app.
    + by apply okPhase_history.
  - destruct (managerOp_items s s' a (iv_repr _ _ (ri_inv _ _ HI)) Hm) as (Hk & a' & HR' & [Hsm Hst Hj Hg]).
    exists a'. pose proof (iv_handle _ _ (ri_inv _ _ HI)) as Hh. simpl in Hh.
    apply (RunInv_same _ a _ _ _ _ _ HI); simpl; [|done|done| |by left].
    + split; [done|]. simpl. rewrite Hst, Hj. exact Hh.
    + rewrite Hk. eapply okPhase_mirror; [exact Hsm| |apply HI]. intros g Hgp Hg0. destruct (Hh g Hgp) as [<- _]. by apply Hg.
  - exists a. apply (RunInv_same _ a _ _ _ _ _ HI); simpl; [apply HI|done|reflexivity|apply HI|].
    unfold AcquireDispatch in Hd. destruct (Recovering _); [done|]. injection Hd as <-. by left.
  - exists a. apply (RunInv_same _ a _ _ _ _ _ HI); simpl; [apply HI|done|reflexivity|apply HI|].
    unfold release. destruct (c_drained c); [destruct (_ =? _)%Z|]; by left.
  - exists a. apply (RunInv_same _ a _ _ _ _ _ HI); simpl; [apply HI|done|reflexivity|apply HI|by left].
  - exists a. apply (RunInv_same _ a _ _ _ _ _ HI); simpl; [|done|reflexivity|done|by left].
    split; [apply HI|done].
  - exists a. pose proof (iv_repr _ _ (ri_inv _ _ HI)) as HR. simpl in HR.
    apply (RunInv_same _ a _ _ _ _ _ HI); simpl; [| |reflexivity|done|done].
    + split; [|done]. by eapply OpenDiskStore_again.
    + unfold OpenDiskStore in Ho. destruct (bool_decide _); [done|]. destruct (negb _); [done|].
      destruct (openSchema _); [|done]. simpl in Ho. destruct (readCounts _); [|done]. by injection Ho as <-.
  - by apply (resume_inv s c rv h a).
  - by apply (begin_inv s c rv h a).
  - by apply (visit_inv s c rv h a).
  - exists a. apply (RunInv_same _ a _ _ _ _ _ HI); simpl; [apply HI|done|reflexivity|apply HI|].
    unfold Cache.ObserveListProgress. destruct (_ && _); by left.
  - exists a. apply (RunInv_same _ a _ _ _ _ _ HI); simpl; [|done|reflexivity|done|by left]. split; [apply HI|done].
  - by eapply (finish_inv s c rv h a).
  - by apply (collect_inv s c rv h a).
  - exists a. apply (RunInv_same _ a _ _ _ _ _ HI); simpl; [apply HI|done|reflexivity|split; [apply HI|done]|].
    destruct (WaitForWatchBookmark r); [by left|]. unfold Cache.EndRecovery. destruct (Recovering _); by left.
  - exists a. pose proof (recover_synced c now PList) as Hs.
    destruct (recover_phase (s_kind s) a rv h c now PList I) as [Hp' Hh].
    destruct (recover c now PList) as [c' p']. simpl in Hs, Hp', Hh.
    apply (RunInv_same _ a _ _ _ _ _ HI); simpl; [rewrite Hh; split; [apply HI|done]|done|reflexivity|done|].
    rewrite Hs. by left.
  - exists a. apply (RunInv_same _ a _ _ _ _ _ HI); simpl; [apply HI|done|reflexivity|apply (ri_phase _ _ HI)|by left].
  - eapply consume_inv; [exact HI| |done|by eapply lookup_lt_Some].
    intros a' Hev [Ha Hcur] Hrv. eapply mirrors_event; [apply HI|done| |exact Hev].
    destruct (ri_mirror _ _ HI Ha) as (cur & E & _ & Hm). simpl in *.
    assert (cur = rv) as -> by congruence. by rewrite Hrv in Hm.
  - eapply consume_inv; [exact HI| |done|].
    + intros a' (_ & _ & ->) [Ha Hcur] Hrv. split_and!; [done..|].
      destruct (ri_mirror _ _ HI Ha) as (cur & E & _ & Hm). simpl in *.
      assert (cur = rv) as -> by congruence. by rewrite Hrv in Hm.
    + destruct (ri_phase _ _ HI) as [[Ha Hcur] Hrv]. simpl in *.
      destruct (ri_mirror _ _ HI Ha) as (cur & E & Hle & _). simpl in *. congruence.
Qed.
Lemma run_reachable_inv u : run_reachable r position u → ∃ a, RunInv u a.
Proof.
  intros (kind & now & s & Hnow & Ho & Hr).
  assert (∃ a, RunInv (mkRun s Cache.New PDown "" []) a) as H0.
  { exists initialSpec. split; simpl; [|done|done|done|done]. split; [by eapply OpenDiskStore_empty|done]. }
  induction Hr as [u|u1 u2 u3 Hs _ IH]; [done|]. apply IH.
  destruct H0 as [a Ha]. destruct (run_step_inv u1 u2 a Ha Hs) as (a' & Ha' & _). by exists a'.
Qed.

(** ** Readers *)

Lemma stateAt_key h p key v : stateAt r h p key = Some v → KeyFunc r v = key.
Proof.
  unfold stateAt, replay. revert v. induction (take p h) as [|c cs IH] using rev_ind; intros v; [done|].
  rewrite foldl_app. simpl. case_decide as Hk; [|apply IH]. destruct c as [b obj|obj]; [|done].
  intros [= <-]. exact Hk.
Qed.

(** C13: reconcilers read what the server held, and nothing older than the
    cursor. Take any interleaving of changes on the server, listings that fail
    and start over, streams that break, expire and resume, restarts in the
    middle of any of them, failed writes and running dispatchers. Whenever the
    cache is synced and not recovering, a lookup of a resource of the kind
    succeeds, and returns the resource (or its absence) as it was on the server
    at some time since the stored cursor: exactly the current one when the
    cursor is at the end of the history. *)
Theorem Lookup_mirrors u key l :
  run_reachable r position u →
  HasSynced (u_cache u) = true → Recovering (c_recovery (u_cache u)) = false →
  readLock (u_disk u) = Ok tt → logical (u_disk u) key = Ok l →
  ∃ cursor p, s_db (u_disk u) !! "cursor" = Some cursor ∧ position cursor ≤ p ≤ length (u_hist u) ∧
    Lookup r (u_cache u) (u_disk u) key = Ok (stateAt r (u_hist u) p key).
Proof.
  intros [a HI]%run_reachable_inv Hsync Hrec Hlock Hlog. pose proof (iv_repr _ _ (ri_inv _ _ HI)) as HR. simpl in HR.
  pose proof (ri_synced _ _ HI Hsync) as Ha. destruct (ri_mirror _ _ HI Ha) as (cursor & Hc & _ & Hm).
  destruct (logical_Ok _ _ _ Hlog) as [Hk Hl]. destruct (Hm key l Hk Hl) as (p & Hp & Hx).
  exists cursor, p. split; [|split; [done|]].
  { pose proof (v_row _ _ _ (rp_view _ _ HR) (RMeta MCursor) I I) as Hrow.
    change (rowKey (RMeta MCursor)) with "cursor" in Hrow. by rewrite Hrow. }
  unfold Lookup. rewrite Hsync, Hrec. simpl orb. cbn iota. pose proof (Read_stored (u_disk u) a key HR) as Hread.
  destruct (Read (u_disk u) key) as [[[it found] tok]|e].
  2: { destruct Hread as [?|[?|Hn]]; [done|done|by destruct (Hn l)]. }
  destruct Hread as (l' & Hl' & _ & Hi). assert (l' = l) as -> by congruence. cbn [bind_result]. rewrite Hi in Hx.
  destruct found; simpl negb; cbn iota.
  - destruct (stateAt r (u_hist u) p key) as [v|] eqn:Es; [|done].
    destruct (projection_fields r Hjson v it Hx) as (_ & Ev & ->).
    rewrite !bool_decide_eq_true_2; [done|by rewrite Ev|by eapply stateAt_key].
  - by destruct (stateAt r (u_hist u) p key).
Qed.

(** What a reader finds under a name, in the rows. *)
Definition storedItem (s : Disk) (l : string) : option DiskItem :=
  match number s "active" with
  | Ok g => if (g =? 0)%Z then None else
            match item s g l with Ok (it, true) => Some it | _ => None end
  | Err _ => None
  end.
Lemma storedItem_in s a l : Repr s a → storedItem s l = storedIn a l.
Proof.
  intros HR. unfold storedItem, storedIn. rewrite (number_active s a HR). destruct (_ =? _)%Z; [done|].
  rewrite (item_usable s a _ l (active_usable s a HR)). by destruct (g_items _ !! l).
Qed.

(** C31: nothing changes in the mirror behind the reconcilers' back. Whatever
    step of the runner, of a dispatcher or of the process changes the stored
    projection of a resource, makes it appear or disappear - an event of the
    stream or a new snapshot being published - the resource is pending
    afterwards, unless it is an update [ShouldEnqueueUpdate] declines. *)
Theorem changes_are_owed u u' l :
  run_reachable r position u → run_step r position u u' →
  storedItem (u_disk u') l ≠ storedItem (u_disk u) l →
  (∃ v, owedRow (u_disk u') (OWork l) v) ∨ quiet (storedItem (u_disk u) l) (storedItem (u_disk u') l).
Proof.
  intros [a HI]%run_reachable_inv Hs. destruct (run_step_inv u u' a HI Hs) as (a' & HI' & Ho).
  pose proof (iv_repr _ _ (ri_inv _ _ HI)) as HR. pose proof (iv_repr _ _ (ri_inv _ _ HI')) as HR'. simpl in HR, HR'.
  rewrite (storedItem_in _ a l HR), (storedItem_in _ a' l HR'). intros Hne.
  destruct (Ho l Hne) as [Hw|Hq]; [left|by right]. by apply (pending_owedRow _ a' (OWork l) HR').
Qed.
End theorems.

(** ** The pages of a listing *)

Section pages.
Context {DC : DiskCodec} {T : Type} {J : Json T} (r : Runner T).

Definition encodedSize (page : list DiskItem) : Z := foldr (λ it n, len (marshalItem it) + n)%Z 0%Z page.
(** The pages a listed page is cut into: as many items as fit in 256 items and
    1 MiB, greedily; [page] is the one being filled. *)
Fixpoint cutPages (page : list DiskItem) (its : list DiskItem) : list (list DiskItem) :=
  match its with
  | [] => if bool_decide (page = []) then [] else [page]
  | it :: its =>
      if (Z.of_nat (length page) =? DiskPageItems)%Z || (DiskPageBytes / 4 <? encodedSize page + len (marshalItem it))%Z
      then (if bool_decide (page = []) then [] else [page]) ++ cutPages [it] its
      else cutPages (page ++ [it]) its
  end.
Fixpoint putPages (generation : Z) (pages : list (list DiskItem)) (s : Disk) : result Error unit * Disk :=
  match pages with
  | [] => (Ok tt, s)
  | page :: pages =>
      match PutSnapshotPage s generation page with
      | (Err e, s) => (Err e, s)
      | (Ok _, s) => putPages generation pages s
      end
  end.
Definition okPage (page : list DiskItem) : Prop :=
  page ≠ [] ∧ (Z.of_nat (length page) ≤ DiskPageItems)%Z ∧
  (length page = 1 ∨ (encodedSize page ≤ DiskPageBytes / 4)%Z).

Lemma encodedSize_snoc page it : encodedSize (page ++ [it]) = (encodedSize page + len (marshalItem it))%Z.
Proof. induction page as [|x page IH]; simpl; [lia|]. unfold encodedSize in *. simpl. rewrite IH. lia. Qed.
Lemma visit_cut g vs its page s :
  Forall2 (λ v it, projection r v = Ok it) vs its →
  visit r g vs page (encodedSize page) s = putPages g (cutPages page its) s.
Proof.
  intros Hits. revert page s. induction Hits as [|v it vs its Hp _ IH]; intros page s; cbn [visit cutPages].
  - unfold flush. case_bool_decide; [done|]. simpl. destruct (PutSnapshotPage s g page) as [[[]|] s']; done.
  - rewrite Hp. assert (∀ s, visit r g vs [it] (len (marshalItem it)) s = putPages g (cutPages [it] its) s) as Hone.
    { intros s'. rewrite <- IH. f_equal. unfold encodedSize. simpl. lia. }
    destruct (_ || _).
    + unfold flush. case_bool_decide; simpl app; [apply Hone|]. cbn [putPages].
      destruct (PutSnapshotPage s g page) as [[[]|] s']; [apply Hone|done].
    + rewrite <- encodedSize_snoc. apply IH.
Qed.
Lemma cutPages_ok page its :
  (page = [] ∨ okPage page) → Forall okPage (cutPages page its) ∧ concat (cutPages page its) = page ++ its.
Proof.
  revert page. induction its as [|it its IH]; intros page Hpage; cbn [cutPages].
  - case_bool_decide as Hp; [by subst|]. destruct Hpage; [done|]. split; [by constructor|]. simpl. by rewrite !app_nil_r.
  - assert (okPage [it]) as H1 by (split_and!; [done|by vm_compute|by left]).
    destruct (_ || _) eqn:Eb.
    + destruct (IH [it]) as [H2 H3]; [by right|]. case_bool_decide as Hp.
      * subst page. rewrite app_nil_l. split; [done|exact H3].
      * destruct Hpage as [|Hpage]; [done|]. split; [by constructor|]. simpl. by rewrite H3.
    + apply orb_false_iff in Eb as [Hn%Z.eqb_neq Hb%Z.ltb_ge].
      destruct (IH (page ++ [it])) as [H2 H3]; [right|by rewrite <- app_assoc in H3].
      split_and!; [by destruct page| |right; by rewrite encodedSize_snoc].
      rewrite length_app. simpl. destruct Hpage as [->|(_ & ? & _)]; [by vm_compute|lia].
Qed.

(** a listed page is staged in pages the store admits. The visitor of a
    listing writes the projections of all the objects it is shown, in their
    order, in pages of one to 256 items whose encoding is at most 1 MiB, one
    single larger item apart; it stops at the first page the store refuses. *)
Theorem visitPage_pages g vs its s :
  Forall2 (λ v it, projection r v = Ok it) vs its →
  ∃ pages, visitPage r g vs s = putPages g pages s ∧ concat pages = its ∧ Forall okPage pages.
Proof.
  intros Hits. destruct (cutPages_ok [] its) as [H1 H2]; [by left|]. exists (cutPages [] its).
  split; [by apply (visit_cut g vs its [])|done].
Qed.
End pages.
