(* ===== verification/RunnerExamples.v ===== *)
(** * Runs of the runner

    Two products with two versions each: one is listed, and updated while the
    stream is open. The theorems of [RunnerTheorems] at this run. *)

From S2P Require Import Prelude WorkTypes DiskKeys DiskStore DiskSpec DiskSystem DiskTheorems DiskExamples.
From S2P Require Import Cache Runner RunnerMirror RunnerTheorems.

(** Which product, and whether it is the updated one. *)
Definition Prod : Type := bool * bool.
Definition prodName (v : Prod) : string := if v.1 then "tea" else "cup".
Definition prodVersion (v : Prod) : string := if v.2 then "2" else "1".
Definition prodText (v : Prod) : string := prodName v +:+ " " +:+ prodVersion v.
#[export] Instance prodJson : Json Prod := {|
  jsonMarshal v := Ok (prodText v);
  jsonUnmarshal data :=
    match filter (λ v, prodText v = data) [(true, false); (true, true); (false, false); (false, true)] with
    | v :: _ => Ok v
    | [] => Err (EOpaque "json: invalid product")
    end;
|}.
Definition prodRunner : Runner Prod :=
  mkRunner Prod "Product" (Some (λ _, ["brand"])) None None (λ v, kP (prodName v)) prodVersion
    (Some (λ old new, implb old.2 new.2)) None false.
Definition exItemOf (v : Prod) : DiskItem :=
  mkItem (kP (prodName v)) (prodVersion v) (prodText v) ["brand"] [] "".
Lemma prod_json : jsonRoundTrips (T := Prod).
Proof. intros [[] []] data [= <-]; vm_compute; reflexivity. Qed.
Lemma prod_storable : projectionsStorable prodRunner.
Proof. intros [[] []] it [= <-] _; by vm_compute. Qed.

(** The server understands three cursors. *)
Definition prodPosition (cursor : string) : nat :=
  if bool_decide (cursor = "c1") then 1 else if bool_decide (cursor = "c2") then 2 else 0.

(** The listing starts after the product was created. *)
Definition prodHist : list (Change (T := Prod)) := [Upserted true (true, false)].
Definition prodHist' : list (Change (T := Prod)) := prodHist ++ [Upserted false (true, true)].
Definition startedD : Disk := okOr (OpenDiskStore (s_db openD) (s_kind openD) exNow) noDisk.
Definition startedC : Cache Prod := (Cache.BeginRecovery Cache.New exNow).2.
Definition listingD : Disk := afterLong (BeginSnapshot startedD).
Definition shownD : Disk := (visitPage prodRunner 1 [(true, false)] listingD).2.
Definition mirroredD : Disk := afterLong (FinishSnapshot 1 "c1" shownD).
Definition sweptD : Disk := afterLong (CollectGarbage mirroredD).
Definition openC : Cache Prod := Cache.EndRecovery (Cache.MarkSynced startedC) exNow.
Definition watchingU : Run := mkRun sweptD openC (PWatching 1) "c1" prodHist'.
Definition updatedU : Run :=
  let '(s, c, p, rv) := consume prodRunner sweptD openC exNow "c1" 1 2
    (eventOf (Upserted false (true, true)) "c2") in mkRun s c p rv prodHist'.

Lemma watching_reachable : run_reachable prodRunner prodPosition watchingU.
Proof.
  exists "Product", exNow, openD. split; [by vm_compute|]. split.
  { apply opens_eq. vm_compute. reflexivity. }
  eapply rtc_l; [apply (rs_server _ _ _ _ _ _ [] (Upserted true (true, false)))|].
  { by intros old new [= Ho]. }
  eapply rtc_l; [apply (rs_start _ _ openD startedD _ _ _ prodHist exNow)|].
  { by vm_compute. }
  { apply opens_eq. vm_compute. reflexivity. }
  eapply rtc_l; [apply (rs_resume _ _ startedD startedD startedC "" prodHist (Ok None))|].
  { vm_compute. reflexivity. }
  eapply rtc_l.
  { destruct (resultIs_eq (Z.eqb 1) (BeginSnapshot startedD)) as (g & <-%Z.eqb_eq & E); [vm_compute; reflexivity|].
    apply (rs_begin _ _ startedD listingD startedC "" prodHist (Ok 1%Z) "c1" E). vm_compute. lia. }
  eapply rtc_l.
  { apply (rs_visit _ _ listingD shownD startedC "" prodHist 1 "c1" [] [(true, false)] (Ok tt)).
    apply injective_projections; [vm_compute|]; reflexivity. }
  eapply rtc_l.
  { destruct (resultIs_eq (λ _, true) (FinishSnapshot 1 "c1" shownD)) as ([] & _ & E); [vm_compute; reflexivity|].
    eapply (rs_finish _ _ shownD mirroredD startedC "" prodHist 1 "c1" [(true, false)] (Ok tt)); [|exact E].
    intros key. exists 1. split; [vm_compute; lia|]. unfold lastSeen, stateAt, replay, changeKey. simpl.
    rewrite filter_cons, filter_nil. by destruct (decide _). }
  eapply rtc_l.
  { destruct (resultIs_eq (λ _, true) (CollectGarbage mirroredD)) as ([] & _ & E); [vm_compute; reflexivity|].
    apply (rs_collect _ _ mirroredD sweptD (Cache.MarkSynced startedC) "c1" prodHist (Ok tt) E). }
  eapply rtc_l; [apply (rs_connect _ _ sweptD (Cache.MarkSynced startedC) "c1" prodHist exNow)|].
  apply rtc_once. apply (rs_server _ _ sweptD openC (PWatching 1) "c1" prodHist (Upserted false (true, true))).
  intros old new Ho Hn. vm_compute in Ho. injection Ho as <-. injection Hn as <-. split; [by vm_compute|].
  intros f [= <-]. reflexivity.
Qed.
Lemma updated_step : run_step prodRunner prodPosition watchingU updatedU.
Proof.
  apply (rs_event prodRunner prodPosition sweptD openC "c1" prodHist' 1 (Upserted false (true, true)) "c2" exNow);
    reflexivity.
Qed.
Lemma updated_reachable : run_reachable prodRunner prodPosition updatedU.
Proof.
  destruct watching_reachable as (kind & now & s & Hnow & Ho & Hr). exists kind, now, s. do 2 (split; [done|]).
  eapply rtc_r; [exact Hr|exact updated_step].
Qed.

(** ** The theorems at this run *)

Example updated_lookup :
  Lookup prodRunner (u_cache updatedU) (u_disk updatedU) (kP "tea") = Ok (Some (true, true)).
Proof. vm_compute. reflexivity. Qed.

Lemma Lookup_mirrors_witness :
  ∃ cursor p, s_db (u_disk updatedU) !! "cursor" = Some cursor ∧
    prodPosition cursor ≤ p ≤ length (u_hist updatedU) ∧
    Lookup prodRunner (u_cache updatedU) (u_disk updatedU) (kP "tea") =
      Ok (stateAt prodRunner (u_hist updatedU) p (kP "tea")).
Proof.
  apply (Lookup_mirrors prodRunner prod_json prod_storable prodPosition updatedU (kP "tea") (lP "tea")).
  - exact updated_reachable.
  - vm_compute. reflexivity.
  - vm_compute. reflexivity.
  - vm_compute. reflexivity.
  - vm_compute. reflexivity.
Defined.

Lemma changes_are_owed_witness :
  storedItem (u_disk updatedU) (lP "tea") ≠ storedItem (u_disk watchingU) (lP "tea") ∧
  ((∃ v, owedRow (u_disk updatedU) (OWork (lP "tea")) v) ∨
   quiet prodRunner (storedItem (u_disk watchingU) (lP "tea")) (storedItem (u_disk updatedU) (lP "tea"))).
Proof.
  assert (storedItem (u_disk updatedU) (lP "tea") ≠ storedItem (u_disk watchingU) (lP "tea")) as Hne.
  { vm_compute. discriminate. }
  split; [exact Hne|].
  apply (changes_are_owed prodRunner prod_json prod_storable prodPosition watchingU updatedU (lP "tea")).
  - exact watching_reachable.
  - exact updated_step.
  - exact Hne.
Defined.

Lemma visitPage_pages_witness :
  ∃ pages, visitPage prodRunner 1 [(true, false); (false, false)] listingD = putPages 1 pages listingD ∧
    concat pages = [exItemOf (true, false); exItemOf (false, false)] ∧ Forall okPage pages.
Proof.
  apply (visitPage_pages prodRunner 1 [(true, false); (false, false)]
    [exItemOf (true, false); exItemOf (false, false)] listingD).
  repeat constructor.
Defined.
