(* ===== verification/Checkpoint.v ===== *)
(** * Checkpoint records

    [gitstore-controller-manager/internal/checkpoint]: the record that lets a
    runner resume a kind without listing it again, its validation, and the two
    stores that keep it. A store's promise to the runner is an interface. *)

From S2P Require Import Prelude WorkTypes.
Open Scope go_scope.

Record CheckpointRecord : Type := mkRecord {
  k_Kind : string;
  k_ResourceVersion : string;
  k_Snapshot : string;
  k_ReplayKeys : list WorkItemKey;
  k_RelatedReplayKeys : list WorkItemKey;
  k_WrittenAt : Z;
}.

(** [encoding/json] of a record, and whether a text decodes to an array that is
    not null. *)
Class RecordJson : Type := {
  marshalRecord : CheckpointRecord → result Error string;
  unmarshalRecord : string → result Error CheckpointRecord;
  isArray : string → bool;
}.

(** What a runner is promised of a store: a saved record is the one loaded, of
    its own kind only, and a save that fails changes nothing. *)
Class CheckpointStore (S : Type) : Type := {
  st_Load : S → string → result Error CheckpointRecord;
  (** [fault] is the failure of the medium, if any. *)
  st_Save : S → option Error → CheckpointRecord → result Error unit * S;
}.
Class CheckpointStoreLaws (S : Type) `{!CheckpointStore S} : Prop := {
  load_saved s fault rec s' : st_Save s fault rec = (Ok tt, s') → st_Load s' (k_Kind rec) = Ok rec;
  load_other s fault rec r s' kind :
    st_Save s fault rec = (r, s') → kind ≠ k_Kind rec → st_Load s' kind = st_Load s kind;
  load_kind s kind rec : st_Load s kind = Ok rec → k_Kind rec = kind;
  load_failed s fault rec e s' kind : st_Save s fault rec = (Err e, s') → st_Load s' kind = st_Load s kind;
}.

Section stores.
Context {RJ : RecordJson}.

Fixpoint replayKinds (kind : string) (keys : list WorkItemKey) : result Error unit :=
  match keys with
  | [] => Ok tt
  | key :: keys =>
      if bool_decide (Kind key = kind) then replayKinds kind keys
      else Err (EOpaque ("checkpoint: replay key kind " +:+ Kind key +:+ " does not match " +:+ kind))
  end.
Definition validateRecord (kind : string) (rec : CheckpointRecord) : result Error unit :=
  if bool_decide (k_Kind rec = "") || negb (bool_decide (k_Kind rec = kind))
  then Err (EOpaque ("checkpoint: invalid kind " +:+ k_Kind rec +:+ " for " +:+ kind)) else
  if bool_decide (k_ResourceVersion rec = "")
  then Err (EOpaque ("checkpoint: resourceVersion is empty for " +:+ kind)) else
  if bool_decide (k_Snapshot rec = "") || negb (isArray (k_Snapshot rec))
  then Err (EOpaque ("checkpoint: snapshot is missing or invalid for " +:+ kind)) else
  replayKinds kind (k_ReplayKeys rec).

(** [MemoryStore]. Records are values: [cloneRecord] is what makes them so. *)
Record MemoryStore : Type := mkMemory { m_records : gmap string CheckpointRecord }.
Definition NewMemoryStore : MemoryStore := mkMemory ∅.
Definition MemoryLoad (s : MemoryStore) (kind : string) : result Error CheckpointRecord :=
  match m_records s !! kind with
  | None => Err (EOpaque ("checkpoint: no record for kind " +:+ kind))
  | Some rec => let! _ := validateRecord kind rec in Ok rec
  end.
Definition MemorySave (s : MemoryStore) (rec : CheckpointRecord) : result Error unit * MemoryStore :=
  match validateRecord (k_Kind rec) rec with
  | Err e => (Err e, s)
  | Ok _ => (Ok tt, mkMemory (<[k_Kind rec := rec]> (m_records s)))
  end.

(** [FilesystemStore]: the files of its directory, by kind. The record is
    written to a temporary file and renamed into place, so only the rename
    shows; any of the calls before it may fail. *)
Record FilesystemStore : Type := mkFiles { f_files : gmap string string }.
Definition FileLoad (s : FilesystemStore) (kind : string) : result Error CheckpointRecord :=
  match f_files s !! kind with
  | None => Err (EOpaque ("checkpoint: failed to read " +:+ kind))
  | Some data =>
      match unmarshalRecord data with
      | Err e => Err (EWrap ("checkpoint: failed to parse " +:+ kind) e)
      | Ok rec => let! _ := validateRecord kind rec in Ok rec
      end
  end.
Definition FileSave (s : FilesystemStore) (fault : option Error) (rec : CheckpointRecord)
  : result Error unit * FilesystemStore :=
  match validateRecord (k_Kind rec) rec with
  | Err e => (Err e, s)
  | Ok _ =>
      match marshalRecord rec with
      | Err e => (Err (EWrap ("checkpoint: failed to marshal " +:+ k_Kind rec) e), s)
      | Ok data =>
          match fault with
          | Some e => (Err (EWrap ("checkpoint: failed to write " +:+ k_Kind rec) e), s)
          | None => (Ok tt, mkFiles (<[k_Kind rec := data]> (f_files s)))
          end
      end
  end.

#[export] Instance memoryStore : CheckpointStore MemoryStore :=
  {| st_Load := MemoryLoad; st_Save s _ rec := MemorySave s rec |}.
#[export] Instance filesystemStore : CheckpointStore FilesystemStore :=
  {| st_Load := FileLoad; st_Save := FileSave |}.

Lemma validateRecord_kind kind rec : validateRecord kind rec = Ok tt → k_Kind rec = kind.
Proof. unfold validateRecord. repeat case_bool_decide; simpl; done. Qed.

#[export] Instance memoryStore_laws : CheckpointStoreLaws MemoryStore.
Proof.
  split; simpl; unfold MemorySave, MemoryLoad.
  - intros s _ rec s'. destruct (validateRecord _ rec) as [[]|] eqn:Ev; [|done]. intros [= <-].
    simpl. by rewrite lookup_insert_eq, Ev.
  - intros s _ rec r s' kind. destruct (validateRecord _ rec); intros [= <- <-] Hne; [|done].
    simpl. by rewrite lookup_insert_ne.
  - intros s kind rec. destruct (m_records s !! kind) as [rec'|]; [|done].
    destruct (validateRecord kind rec') as [[]|] eqn:Ev; [|done]. intros [= <-]. by apply validateRecord_kind.
  - intros s _ rec e s' kind. destruct (validateRecord _ rec); by intros [= <- <-].
Qed.

(** A record is read back as it was written. *)
Definition recordRoundTrips : Prop := ∀ rec data, marshalRecord rec = Ok data → unmarshalRecord data = Ok rec.
Lemma filesystemStore_laws : recordRoundTrips → CheckpointStoreLaws FilesystemStore.
Proof.
  intros Hjson. split; simpl; unfold FileSave, FileLoad.
  - intros s fault rec s'. destruct (validateRecord _ rec) as [[]|] eqn:Ev; [|done].
    destruct (marshalRecord rec) as [data|] eqn:Em; [|done]. destruct fault; [done|]. intros [= <-].
    simpl. rewrite lookup_insert_eq, (Hjson _ _ Em). simpl. by rewrite Ev.
  - intros s fault rec r s' kind. destruct (validateRecord _ rec); [|by intros [= <- <-]].
    destruct (marshalRecord rec); [|by intros [= <- <-]]. destruct fault; intros [= <- <-] Hne; [done|].
    simpl. by rewrite lookup_insert_ne.
  - intros s kind rec. destruct (f_files s !! kind) as [data|]; [|done].
    destruct (unmarshalRecord data) as [rec'|]; [|done].
    destruct (validateRecord kind rec') as [[]|] eqn:Ev; simpl; [|done]. intros [= <-]. by apply validateRecord_kind.
  - intros s fault rec e s' kind. destruct (validateRecord _ rec); [|by intros [= <- <-]].
    destruct (marshalRecord rec); [|by intros [= <- <-]]. destruct fault; by intros [= <- <-].
Qed.
End stores.
