(* ===== verification/ReplayRunner.v ===== *)
(** * The list-watch runner with checkpoint files

    The other mode of [listwatch.Runner]: the mirror is the in-memory cache, a
    checkpoint record is saved every so many events, and the record names the
    keys whose reconciliation has not completed, to be enqueued again by the
    next process. *)

From S2P Require Import Prelude WorkTypes DiskKeys DiskStore Cache Runner Checkpoint.
Open Scope go_scope.

(** The fields of [Runner] this mode reads besides those of [Runner.Runner]. *)
Record ReplayOptions : Type := mkOptions {
  DisableReplay : bool;
  HasReplayEnqueue : bool;
  FlushIntervalEvents : Z;
  MaxBackoff : Z;
}.
(** Durations in nanoseconds. *)
Definition applyDefaults (o : ReplayOptions) : ReplayOptions :=
  mkOptions (DisableReplay o) (HasReplayEnqueue o)
    (if (FlushIntervalEvents o <=? 0)%Z then 100 else FlushIntervalEvents o)
    (if (MaxBackoff o <=? 0)%Z then 30 * second else MaxBackoff o).

Record ListResponse (T : Type) : Type := mkListResponse { l_Items : list T; l_ResourceVersion : string }.
Arguments l_Items {T}.
Arguments l_ResourceVersion {T}.

(** JSON of the snapshot, a list of resources. *)
Class JsonList (T : Type) : Type := {
  marshalList : list T → result Error string;
  unmarshalList : string → result Error (list T);
}.

Section replay.
Context {T : Type} {JL : JsonList T} (r : Runner T) (o : ReplayOptions).

(** The runner's own state. *)
Record Replay : Type := mkReplay {
  y_cache : Cache T;
  y_currentRV : string;
  y_eventsSinceFlush : Z;
  y_checkpointDirty : bool;
  y_checkpointVersion : Z;
  y_replayKeys : gset WorkItemKey;
  y_relatedReplayKeys : gset WorkItemKey;
}.
Definition newReplay : Replay := mkReplay Cache.New "" 0 false 0 ∅ ∅.
Definition set_cache (y : Replay) (c : Cache T) : Replay :=
  mkReplay c (y_currentRV y) (y_eventsSinceFlush y) (y_checkpointDirty y) (y_checkpointVersion y)
    (y_replayKeys y) (y_relatedReplayKeys y).
Definition set_currentRV (y : Replay) (rv : string) : Replay :=
  mkReplay (y_cache y) rv (y_eventsSinceFlush y) (y_checkpointDirty y) (y_checkpointVersion y)
    (y_replayKeys y) (y_relatedReplayKeys y).
Definition set_events (y : Replay) (n : Z) : Replay :=
  mkReplay (y_cache y) (y_currentRV y) n (y_checkpointDirty y) (y_checkpointVersion y)
    (y_replayKeys y) (y_relatedReplayKeys y).
(** The key sets change under [replayMu], which also marks the checkpoint. *)
Definition set_keys (y : Replay) (keys related : gset WorkItemKey) : Replay :=
  mkReplay (y_cache y) (y_currentRV y) (y_eventsSinceFlush y) true (u64 (y_checkpointVersion y + 1)) keys related.

Definition markCheckpointDirty (y : Replay) : Replay := set_keys y (y_replayKeys y) (y_relatedReplayKeys y).
Definition isCheckpointDirty (y : Replay) : bool := y_checkpointDirty y.
Definition clearCheckpointDirty (version : Z) (y : Replay) : Replay :=
  if (y_checkpointVersion y =? version)%Z
  then mkReplay (y_cache y) (y_currentRV y) (y_eventsSinceFlush y) false (y_checkpointVersion y)
         (y_replayKeys y) (y_relatedReplayKeys y)
  else y.

Definition rememberForReplay (key : WorkItemKey) (y : Replay) : Replay :=
  if DisableReplay o then y else set_keys y ({[key]} ∪ y_replayKeys y) (y_relatedReplayKeys y).
Definition MarkCompleted (key : WorkItemKey) (y : Replay) : Replay :=
  if bool_decide (key ∈ y_replayKeys y)
  then set_keys y (y_replayKeys y ∖ {[key]}) (y_relatedReplayKeys y) else y.
Definition RememberRelatedReplay (key : WorkItemKey) (y : Replay) : Replay :=
  if bool_decide (key ∈ y_relatedReplayKeys y) then y
  else set_keys y (y_replayKeys y) ({[key]} ∪ y_relatedReplayKeys y).
Definition MarkRelatedCompleted (key : WorkItemKey) (y : Replay) : Replay :=
  if bool_decide (key ∈ y_relatedReplayKeys y)
  then set_keys y (y_replayKeys y) (y_relatedReplayKeys y ∖ {[key]}) else y.

(** [checkpointRecord]; the keys come out in the order Go iterates the sets. *)
Definition checkpointRecord (now : Z) (y : Replay) : result Error (CheckpointRecord * Z) :=
  match marshalList (ListValues (y_cache y)) with
  | Err e => Err (EWrap "marshal checkpoint snapshot" e)
  | Ok snapshot =>
      Ok (mkRecord (r_Kind r) (y_currentRV y) snapshot (elements (y_replayKeys y))
            (elements (y_relatedReplayKeys y)) now, y_checkpointVersion y)
  end.
(** After a save that succeeded, in [flushWithBackoff] and [finalFlush]. *)
Definition saved (version : Z) (y : Replay) : Replay := clearCheckpointDirty version (set_events y 0).

(** ** Bootstrap *)

(** [restoreCheckpoint]: the state it leaves, and the calls of [enqueue] and
    [enqueueRelated]. *)
Definition restoreCheckpoint (rec : CheckpointRecord) (y : Replay)
  : result Error (Replay * list WorkItemKey * list WorkItemKey) :=
  match unmarshalList (k_Snapshot rec) with
  | Err e => Err (EWrap "restore checkpoint snapshot" e)
  | Ok items =>
      if existsb (λ key, negb (bool_decide (Kind key = r_Kind r))) (k_ReplayKeys rec)
      then Err (EOpaque "restore checkpoint: replay key kind does not match") else
      let c := foldl (λ c item, (SetKey c (KeyFunc r item) item).1) (y_cache y) items in
      Ok (mkReplay (Cache.MarkSynced c) (k_ResourceVersion rec) (y_eventsSinceFlush y) (y_checkpointDirty y)
            (y_checkpointVersion y) (list_to_set (k_ReplayKeys rec)) (list_to_set (k_RelatedReplayKeys rec)),
          k_ReplayKeys rec, if HasReplayEnqueue o then k_RelatedReplayKeys rec else [])
  end.
Definition applyListSnapshot (listing : ListResponse T) (y : Replay) : Replay * gmap WorkItemKey string :=
  let step st item :=
    let '(c, dedup, keys) := st in
    let key := KeyFunc r item in
    ((SetKey c key item).1, <[key := RevisionFunc r item]> dedup,
     if DisableReplay o then keys else {[key]} ∪ keys) in
  let '(c, dedup, keys) := foldl step (y_cache y, ∅, ∅) (l_Items listing) in
  (set_currentRV (set_keys (set_cache y c) keys (y_relatedReplayKeys y)) (l_ResourceVersion listing), dedup).

(** ** Events *)

(** [handleEvent] up to its flush: the state, the transition map, the calls of
    [enqueue] and whether it flushes. *)
Definition handleEvent (ev : WatchEvent T) (dedup : gmap WorkItemKey string) (y : Replay)
  : Replay * gmap WorkItemKey string * list WorkItemKey * bool :=
  let y := set_currentRV y (e_ResourceVersion ev) in
  let y := set_events y (y_eventsSinceFlush y + 1) in
  let y := markCheckpointDirty y in
  let '(y, dedup, calls) :=
    if bool_decide (e_Type ev = Bookmark) then (y, dedup, []) else
    let key := KeyFunc r (e_Object ev) in
    let '(accepted, shouldEnqueue) :=
      match e_Type ev, Cache.Get (y_cache y) key with
      | Modified, Some oldObj =>
          if (match AcceptUpdate r with Some f => negb (f oldObj (e_Object ev)) | None => false end)
          then (false, false)
          else (true, match ShouldEnqueueUpdate r with Some f => f oldObj (e_Object ev) | None => true end)
      | _, _ => (true, true)
      end in
    let '(y, dedup, suppressed) :=
      if accepted then
        let '(dedup, repeated) :=
          match dedup !! key with
          | Some rev => (delete key dedup, negb (bool_decide (e_Type ev = Deleted)) &&
                                           bool_decide (rev = RevisionFunc r (e_Object ev)))
          | None => (dedup, false)
          end in
        let c := match e_Type ev with
                 | Added | Modified => (SetKey (y_cache y) key (e_Object ev)).1
                 | Deleted => (Cache.Delete (y_cache y) key).1
                 | _ => y_cache y
                 end in
        (set_cache y c, dedup, negb shouldEnqueue || repeated)
      else (y, dedup, negb shouldEnqueue) in
    if suppressed then (y, dedup, []) else (rememberForReplay key y, dedup, [key]) in
  (y, dedup, calls, (FlushIntervalEvents o <=? y_eventsSinceFlush y)%Z).

(** [recoverFromExpiry] up to its flush, after [retryList] returned: what is
    new, changed or gone is remembered and enqueued. *)
Definition recoverFromExpiry (now : Z) (listing : ListResponse T) (y : Replay)
  : Replay * gmap WorkItemKey string * list WorkItemKey :=
  let y := set_cache y (Cache.BeginRecovery (y_cache y) now).2 in
  let old := c_store (y_cache y) in
  let seen st item :=
    let '(y, dedup, items, calls) := st in
    let key := KeyFunc r item in
    let changed := match old !! key with
                   | Some cached => negb (bool_decide (RevisionFunc r cached = RevisionFunc r item))
                   | None => true
                   end in
    (if changed then rememberForReplay key y else y, <[key := RevisionFunc r item]> dedup,
     <[key := item]> items, if changed then calls ++ [key] else calls) in
  let '(y, dedup, items, calls) := foldl seen (y, ∅, ∅, []) (l_Items listing) in
  let gone st cached :=
    let '(y, calls) := st in
    let key := KeyFunc r cached in
    match (items : gmap WorkItemKey T) !! key with
    | Some _ => (y, calls)
    | None => (rememberForReplay key y, calls ++ [key])
    end in
  let '(y, calls) := foldl gone (y, calls) (ListValues (y_cache y)) in
  let c := (Replace (y_cache y) items (map_to_list items) (map_to_list old)).1 in
  (markCheckpointDirty (set_currentRV (set_cache y c) (l_ResourceVersion listing)), dedup, calls).

(** [resync] enqueues every cached key. *)
Definition resync (y : Replay) : list WorkItemKey := KeyFunc r <$> ListValues (y_cache y).
End replay.
