(* ===== verification/ReplayTheorems.v ===== *)
(** * What checkpoint files guarantee

    The runner with checkpoint files and the reconcilers that complete work
    while a checkpoint is being saved: a clean checkpoint is the saved one, a
    saved one restores the runner, and work is remembered until completed. *)

From S2P Require Import Prelude WorkTypes DiskKeys DiskStore DiskExamples Cache Queue Runner Checkpoint.
From S2P Require Import ReplayRunner RunnerExamples.
From Stdlib Require Import Ascii.

Section theorems.
Context {T : Type} {JL : JsonList T} (r : Runner T) (o : ReplayOptions).
Definition listRoundTrips : Prop := ∀ vs data, marshalList (T := T) vs = Ok data → unmarshalList data = Ok vs.
Hypothesis Hjson : listRoundTrips.

(** ** What a record describes *)

(** Resources as the cache stores them, each under its key. *)
Definition byKey (items : list T) : gmap WorkItemKey T := list_to_map ((λ v, (KeyFunc r v, v)) <$> reverse items).
Record describes (rec : CheckpointRecord) (y : Replay) : Prop := {
  ds_kind : k_Kind rec = r_Kind r;
  ds_cursor : k_ResourceVersion rec = y_currentRV y;
  ds_items : ∃ items, unmarshalList (k_Snapshot rec) = Ok items ∧ byKey items = c_store (y_cache y);
  ds_keys : list_to_set (k_ReplayKeys rec) = y_replayKeys y;
  ds_related : list_to_set (k_RelatedReplayKeys rec) = y_relatedReplayKeys y;
}.
(** The cache holds resources under their own keys, the replay set keys of the
    kind. *)
Record okReplay (y : Replay) : Prop := {
  oy_cache : map_Forall (λ key v, KeyFunc r v = key ∧ Kind key = r_Kind r) (c_store (y_cache y));
  oy_keys : ∀ key, key ∈ y_replayKeys y → Kind key = r_Kind r;
}.

Lemma setAll_store (c : Cache T) items :
  c_store (foldl (λ c item, (SetKey c (KeyFunc r item) item).1) c items) = byKey items ∪ c_store c.
Proof.
  unfold byKey. revert c. induction items as [|v items IH]; intros c; cbn [foldl].
  { symmetry. exact (map_empty_union (c_store c)). }
  rewrite IH. cbn [SetKey fst c_store set_store]. rewrite reverse_cons, fmap_app, list_to_map_app. simpl.
  rewrite <- map_union_assoc. f_equal. by rewrite insert_empty, <- insert_union_singleton_l.
Qed.
Lemma byKey_store (m : gmap WorkItemKey T) :
  map_Forall (λ key v, KeyFunc r v = key) m → byKey (map_to_list m).*2 = m.
Proof.
  intros Hm. unfold byKey. rewrite <- fmap_reverse, <- list_fmap_compose.
  assert (((λ v, (KeyFunc r v, v)) ∘ snd) <$> reverse (map_to_list m) = reverse (map_to_list m)) as ->.
  { rewrite <- (list_fmap_id (reverse (map_to_list m))) at 2. apply list_fmap_ext. intros i [k v] Hi.
    apply list_elem_of_lookup_2 in Hi. rewrite elem_of_reverse, elem_of_map_to_list in Hi.
    unfold compose. simpl. by rewrite (Hm _ _ Hi). }
  rewrite (list_to_map_proper _ (map_to_list m)); [apply list_to_map_to_list| |apply reverse_Permutation].
  rewrite fmap_reverse, reverse_Permutation. apply NoDup_fst_map_to_list.
Qed.
Lemma record_describes now y rec v :
  okReplay y → checkpointRecord r now y = Ok (rec, v) → describes rec y ∧ v = y_checkpointVersion y.
Proof.
  intros [Hc _]. unfold checkpointRecord. destruct (marshalList _) as [data|] eqn:Em; [|done]. intros [= <- <-].
  split; [|done]. split; simpl; [done|done| | |].
  - exists (ListValues (y_cache y)). split; [by apply Hjson|]. apply byKey_store.
    intros key w Hw. by apply Hc.
  - by rewrite list_to_set_elements_L.
  - by rewrite list_to_set_elements_L.
Qed.

(** ** The runner, its store and the reconcilers

    The runner is idle between events, or in the middle of a flush: it has taken
    a record, or saved it. Meanwhile reconcilers complete work and remember
    related work; [bumps] counts their changes since the record was taken. A
    flush takes less than the 2^64 changes after which the version repeats. *)
Context {S : Type} {ST : CheckpointStore S} {SL : CheckpointStoreLaws S}.

Inductive Flush : Type :=
| FIdle
| FTaken (rec : CheckpointRecord) (version bumps : Z)
| FSaved (rec : CheckpointRecord) (version bumps : Z).
Record RSys : Type := mkRSys { z_run : Replay (T := T); z_flush : Flush; z_store : S }.

Definition reconcilerOp (f : Replay (T := T) → Replay (T := T)) : Prop :=
  (∃ key, f = MarkCompleted key) ∨ (∃ key, f = RememberRelatedReplay key) ∨ (∃ key, f = MarkRelatedCompleted key).
Definition bump (y y' : Replay (T := T)) (n : Z) : Z :=
  if (y_checkpointVersion y' =? y_checkpointVersion y)%Z then n else (n + 1)%Z.
Definition bumped (y y' : Replay (T := T)) (fl : Flush) : Flush :=
  match fl with
  | FIdle => FIdle
  | FTaken rec v n => FTaken rec v (bump y y' n)
  | FSaved rec v n => FSaved rec v (bump y y' n)
  end.
Definition flushBumps (fl : Flush) : Z := match fl with FIdle => 0 | FTaken _ _ n | FSaved _ _ n => n end.

(** Objects the transport delivers are of the runner's kind. *)
Definition ofKind (v : T) : Prop := Kind (KeyFunc r v) = r_Kind r.

Inductive rsys_step : RSys → RSys → Prop :=
| zs_list y s listing :
    Forall ofKind (l_Items listing) → y_currentRV y = "" → c_store (y_cache y) = ∅ →
    rsys_step (mkRSys y FIdle s) (mkRSys (applyListSnapshot r o listing y).1 FIdle s)
| zs_event y s ev dedup :
    (e_Type ev = Bookmark ∨ ofKind (e_Object ev)) →
    rsys_step (mkRSys y FIdle s) (mkRSys (handleEvent r o ev dedup y).1.1.1 FIdle s)
| zs_expired y s now listing :
    Forall ofKind (l_Items listing) →
    rsys_step (mkRSys y FIdle s) (mkRSys (recoverFromExpiry r o now listing y).1.1 FIdle s)
| zs_reconciler y fl s f :
    reconcilerOp f → (flushBumps fl < 2 ^ 64 - 1)%Z →
    rsys_step (mkRSys y fl s) (mkRSys (f y) (bumped y (f y) fl) s)
| zs_take y s now rec v :
    checkpointRecord r now y = Ok (rec, v) → rsys_step (mkRSys y FIdle s) (mkRSys y (FTaken rec v 0) s)
| zs_save y s s' fault rec v n x :
    st_Save s fault rec = (x, s') →
    rsys_step (mkRSys y (FTaken rec v n) s)
      (mkRSys y (match x with Ok _ => FSaved rec v n | Err _ => FIdle end) s')
| zs_clear y s rec v n :
    rsys_step (mkRSys y (FSaved rec v n) s) (mkRSys (saved v y) FIdle s)
| zs_gate y fl s c :
    c_store c = c_store (y_cache y) → rsys_step (mkRSys y fl s) (mkRSys (set_cache y c) fl s)
| zs_restart y fl s rec y' calls related :
    st_Load s (r_Kind r) = Ok rec → restoreCheckpoint r o rec newReplay = Ok (y', calls, related) →
    rsys_step (mkRSys y fl s) (mkRSys y' FIdle s)
| zs_restart_empty y fl s :
    rsys_step (mkRSys y fl s) (mkRSys newReplay FIdle s).

(** The operations keep the cache and the keys in order, and mark the
    checkpoint whenever what it describes changes. *)
Definition sameContent (y y' : Replay (T := T)) : Prop :=
  c_store (y_cache y') = c_store (y_cache y) ∧ y_currentRV y' = y_currentRV y ∧
  y_replayKeys y' = y_replayKeys y ∧ y_relatedReplayKeys y' = y_relatedReplayKeys y.
Lemma describes_same rec y y' : sameContent y y' → describes rec y → describes rec y'.
Proof. intros (E1 & E2 & E3 & E4) []. split; rewrite ?E1, ?E2, ?E3, ?E4; done. Qed.

Lemma okReplay_set_keys y keys related :
  okReplay y → (∀ key, key ∈ keys → Kind key = r_Kind r) → okReplay (set_keys y keys related).
Proof. intros [H1 H2] Hk. by split. Qed.
Lemma okReplay_remember key y : okReplay y → Kind key = r_Kind r → okReplay (rememberForReplay o key y).
Proof.
  intros Hy Hk. unfold rememberForReplay. destruct (DisableReplay o); [done|]. apply okReplay_set_keys; [done|].
  intros k [->%elem_of_singleton|Hin]%elem_of_union; [done|by apply Hy].
Qed.
Lemma okReplay_reconciler f y : reconcilerOp f → okReplay y → okReplay (f y).
Proof.
  intros [[key ->]|[[key ->]|[key ->]]] Hy;
    unfold MarkCompleted, RememberRelatedReplay, MarkRelatedCompleted; case_bool_decide; try done;
    (apply okReplay_set_keys; [done|]); intros k Hin; apply Hy; set_solver.
Qed.
Lemma reconciler_version f y :
  reconcilerOp f → sameContent y (f y) ∧ f y = y ∨
    y_checkpointVersion (f y) = u64 (y_checkpointVersion y + 1) ∧ y_checkpointDirty (f y) = true ∧
    y_currentRV (f y) = y_currentRV y.
Proof.
  intros [[key ->]|[[key ->]|[key ->]]];
    unfold MarkCompleted, RememberRelatedReplay, MarkRelatedCompleted; case_bool_decide; by (left + right).
Qed.

(** ** The invariant *)

Definition stored (z : RSys) (rec : CheckpointRecord) : Prop := st_Load (z_store z) (r_Kind r) = Ok rec.
Definition restorable (rec : CheckpointRecord) : Prop := ∃ y, okReplay y ∧ describes rec y.
(** A flush under way: the record is that of the runner unless reconcilers
    changed it since, which the version tells. *)
Record okFlush (y : Replay) (rec : CheckpointRecord) (v n : Z) : Prop := {
  of_version : isU64 v;
  of_bumps : (0 ≤ n < 2 ^ 64)%Z;
  of_current : y_checkpointVersion y = u64 (v + n);
  of_same : n = 0%Z → describes rec y;
  of_dirty : n ≠ 0%Z → y_checkpointDirty y = true;
  of_restorable : restorable rec;
}.
Record RSInv (z : RSys) : Prop := {
  zi_run : okReplay (z_run z);
  zi_version : isU64 (y_checkpointVersion (z_run z));
  zi_stored rec : stored z rec → restorable rec;
  zi_clean : y_checkpointDirty (z_run z) = false → y_currentRV (z_run z) ≠ "" →
    ∃ rec, stored z rec ∧ describes rec (z_run z);
  zi_flush : match z_flush z with
             | FIdle => True
             | FTaken rec v n => okFlush (z_run z) rec v n
             | FSaved rec v n => okFlush (z_run z) rec v n ∧ stored z rec
             end;
}.

Lemma okReplay_described rec y y' : okReplay y → describes rec y → describes rec y' → okReplay y'.
Proof.
  intros [H1 H2] [_ _ (vs & E & Hs) Hk _] [_ _ (vs' & E' & Hs') Hk' _].
  rewrite E in E'. injection E' as <-. split; [by rewrite <- Hs', Hs|by rewrite <- Hk', Hk].
Qed.
(** A record that describes a runner restores it. *)
Lemma restore_describes rec y :
  okReplay y → describes rec y →
  ∃ y' related, restoreCheckpoint r o rec newReplay = Ok (y', k_ReplayKeys rec, related) ∧ describes rec y' ∧
    okReplay y' ∧ y_checkpointDirty y' = false ∧ y_checkpointVersion y' = 0%Z.
Proof.
  intros Hy Hd. pose proof Hd as [Hkind _ (vs & E & Hs) Hk Hr]. unfold restoreCheckpoint. rewrite E.
  assert (existsb (λ key, negb (bool_decide (Kind key = r_Kind r))) (k_ReplayKeys rec) = false) as ->.
  { apply not_true_is_false. intros (key & Hin & Hb)%existsb_exists. apply list_elem_of_In in Hin.
    rewrite bool_decide_eq_true_2 in Hb; [done|]. apply (oy_keys _ Hy). rewrite <- Hk. by apply elem_of_list_to_set. }
  eexists _, _. split; [reflexivity|].
  assert (describes rec (mkReplay (Cache.MarkSynced (foldl (λ c item, (SetKey c (KeyFunc r item) item).1)
    (y_cache newReplay) vs)) (k_ResourceVersion rec) (y_eventsSinceFlush (T := T) newReplay)
    (y_checkpointDirty (T := T) newReplay) (y_checkpointVersion (T := T) newReplay)
    (list_to_set (k_ReplayKeys rec)) (list_to_set (k_RelatedReplayKeys rec)))) as Hd'.
  { split; simpl; [done|done| |done|done]. exists vs. split; [done|]. rewrite setAll_store. simpl. by rewrite map_union_empty. }
  split; [exact Hd'|]. split; [by eapply okReplay_described|done].
Qed.

(** What the runner does to itself while idle leaves the checkpoint dirty. *)
Lemma set_keys_marks y keys related (y' := set_keys (T := T) y keys related) :
  isU64 (y_checkpointVersion y') ∧ y_checkpointDirty y' = true.
Proof. split; [|done]. subst y'. simpl. unfold isU64, u64. apply Z.mod_pos_bound. lia. Qed.
Lemma remember_marks key y :
  isU64 (y_checkpointVersion (T := T) y) ∧ y_checkpointDirty y = true →
  isU64 (y_checkpointVersion (rememberForReplay o key y)) ∧ y_checkpointDirty (rememberForReplay o key y) = true.
Proof. intros H. unfold rememberForReplay. destruct (DisableReplay o); [done|apply set_keys_marks]. Qed.

Definition marked (y : Replay (T := T)) : Prop :=
  okReplay y ∧ isU64 (y_checkpointVersion y) ∧ y_checkpointDirty y = true.
Lemma marked_cache y c :
  marked y → map_Forall (λ key v, KeyFunc r v = key ∧ Kind key = r_Kind r) (c_store c) → marked (set_cache y c).
Proof. intros ([H1 H2] & H3 & H4) Hc. split; [by split|done]. Qed.
Lemma marked_remember key y : marked y → Kind key = r_Kind r → marked (rememberForReplay o key y).
Proof. intros [H1 H2] Hk. split; [by apply okReplay_remember|by apply remember_marks]. Qed.
Lemma marked_dirty y : okReplay y → marked (markCheckpointDirty y).
Proof. intros Hy. split; [apply okReplay_set_keys; [done|apply Hy]|apply set_keys_marks]. Qed.

Lemma handleEvent_marks ev dedup y :
  okReplay y → (e_Type ev = Bookmark ∨ ofKind (e_Object ev)) → marked (handleEvent r o ev dedup y).1.1.1.
Proof.
  intros Hy Hev. unfold handleEvent.
  set (y1 := markCheckpointDirty (set_events (set_currentRV y (e_ResourceVersion ev)) _)).
  assert (marked y1) as H1 by (apply marked_dirty; by destruct Hy). clearbody y1.
  case_bool_decide as Hb; [done|]. destruct Hev as [|Hk]; [done|].
  set (key := KeyFunc r (e_Object ev)).
  destruct (match e_Type ev with Modified => _ | _ => _ end) as [accepted shouldEnqueue].
  destruct accepted.
  - destruct (match dedup !! key with Some _ => _ | None => _ end) as [dd repeated].
    set (c := match e_Type ev with Added => _ | _ => _ end).
    assert (marked (set_cache y1 c)) as Hc.
    { apply marked_cache; [done|]. destruct H1 as [[Hm _] _]. subst c.
      destruct (e_Type ev); simpl; try done.
      - by apply map_Forall_insert_2.
      - by apply map_Forall_insert_2.
      - unfold Cache.Delete. destruct (c_store (y_cache y1) !! key); simpl; [|done]. by apply map_Forall_delete. }
    destruct (negb shouldEnqueue || repeated); [done|by apply marked_remember].
  - destruct (negb shouldEnqueue); [done|]. by apply marked_remember.
Qed.

Notation okStore m := (map_Forall (λ key v, KeyFunc r v = key ∧ Kind key = r_Kind r) m).
Lemma applyListSnapshot_marks listing y :
  okReplay y → Forall ofKind (l_Items listing) → marked (applyListSnapshot r o listing y).1.
Proof.
  intros [Hc Hk] Hi. unfold applyListSnapshot. set (step := λ st item, _).
  assert (∀ items c (dd : gmap WorkItemKey string) (keys : gset WorkItemKey), Forall ofKind items → okStore (c_store c) →
    (∀ key, key ∈ keys → Kind key = r_Kind r) →
    let x := foldl step (c, dd, keys) items in
    okStore (c_store x.1.1) ∧ (∀ key, key ∈ x.2 → Kind key = r_Kind r)) as Hfold.
  { induction items as [|v items IH]; intros c dd keys Hv Hcs Hks; [done|]. apply Forall_cons in Hv as [Hv Hvs].
    simpl. apply IH; [done|simpl; by apply map_Forall_insert_2|].
    destruct (DisableReplay o); [done|]. intros key [->%elem_of_singleton|?]%elem_of_union; auto. }
  match goal with |- context [foldl step ?x ?l] => destruct (foldl step x l) as [[c dd] keys] eqn:E end.
  assert (okStore (c_store c) ∧ (∀ key, key ∈ keys → Kind key = r_Kind r)) as [H1 H2].
  { change (okStore (c_store (c, dd, keys).1.1) ∧ ∀ key, key ∈ (c, dd, keys).2 → Kind key = r_Kind r).
    rewrite <- E. apply Hfold; [done|done|set_solver]. }
  split; [split; [exact H1|exact H2]|]. destruct (set_keys_marks (set_cache y c) keys (y_relatedReplayKeys y)) as [H3 H4]. done.
Qed.
Lemma recoverFromExpiry_marks now listing y :
  okReplay y → Forall ofKind (l_Items listing) → marked (recoverFromExpiry r o now listing y).1.1.
Proof.
  intros Hy Hi. unfold recoverFromExpiry. set (y0 := set_cache y _).
  assert (c_store (y_cache y0) = c_store (y_cache y)) as Hst.
  { subst y0. simpl. unfold Cache.BeginRecovery, set_recovery, set_gate. repeat case_match; done. }
  assert (okReplay y0) as H0 by (destruct Hy; split; by rewrite ?Hst). clearbody y0. clear Hst Hy.
  set (seen := λ st item, _).
  assert (∀ items y dd (m : gmap WorkItemKey T) (calls : list WorkItemKey), Forall ofKind items → okReplay y → okStore m →
    let x := foldl seen (y, dd, m, calls) items in okReplay x.1.1.1 ∧ okStore x.1.2) as Hseen.
  { induction items as [|v items IH]; intros y1 dd m calls Hv Hy Hm; [done|]. apply Forall_cons in Hv as [Hv Hvs].
    simpl. apply IH; [done| |by apply map_Forall_insert_2]. destruct (c_store (y_cache y0) !! KeyFunc r v); simpl.
    - destruct (negb _); [by apply okReplay_remember|done].
    - by apply okReplay_remember. }
  match goal with |- context [foldl seen ?x ?l] => destruct (foldl seen x l) as [[[y1 dd] m] calls] eqn:E end.
  assert (okReplay y1 ∧ okStore m) as [H1 Hm].
  { change (okReplay (y1, dd, m, calls).1.1.1 ∧ okStore (y1, dd, m, calls).1.2). rewrite <- E.
    apply Hseen; [done|done|apply map_Forall_empty]. }
  set (gone := λ st cached, _).
  assert (∀ cached y calls, Forall ofKind cached → okReplay y → okReplay (foldl gone (y, calls) cached).1) as Hgone.
  { induction cached as [|v cached IH]; intros y2 calls2 Hv Hy; [done|]. apply Forall_cons in Hv as [Hv Hvs].
    simpl. destruct (m !! KeyFunc r v); apply IH; try done. by apply okReplay_remember. }
  assert (Forall ofKind (ListValues (y_cache y1))) as Hvals.
  { apply Forall_forall. intros v ([k w] & -> & Hin)%list_elem_of_fmap. apply elem_of_map_to_list in Hin.
    destruct (oy_cache _ H1 k w Hin) as [E1 E2]. unfold ofKind. simpl. by rewrite E1. }
  specialize (Hgone (ListValues (y_cache y1)) y1 calls Hvals H1).
  destruct (foldl gone (y1, calls) (ListValues (y_cache y1))) as [y2 calls2]. simpl in *.
  apply (marked_dirty (set_currentRV (set_cache y2 (set_store (y_cache y2) m)) (l_ResourceVersion listing))).
  split; [done|apply Hgone].
Qed.

Lemma marked_inv y s : marked y → (∀ rec, st_Load s (r_Kind r) = Ok rec → restorable rec) → RSInv (mkRSys y FIdle s).
Proof. intros (H1 & H2 & H3) Hs. split; simpl; try done. congruence. Qed.

Lemma reconciler_inv f y fl s :
  RSInv (mkRSys y fl s) → reconcilerOp f → (flushBumps fl < 2 ^ 64 - 1)%Z →
  RSInv (mkRSys (f y) (bumped y (f y) fl) s).
Proof.
  intros [H1 H2 H3 H4 H5] Hf Hb. simpl in *. pose proof (okReplay_reconciler f y Hf H1) as Hy.
  destruct (reconciler_version f y Hf) as [[_ E]|(Ev & Ed & Erv)].
  - rewrite E. split; simpl; try done. unfold bumped, bump. rewrite Z.eqb_refl. by destruct fl.
  - assert (isU64 (y_checkpointVersion (f y)) ∧ (y_checkpointVersion (f y) =? y_checkpointVersion y)%Z = false) as [Hu Hne].
    { rewrite Ev. unfold isU64, u64 in *. split; [apply Z.mod_pos_bound; lia|]. apply Z.eqb_neq.
      destruct (Z.eq_dec (y_checkpointVersion y + 1) (2 ^ 64)) as [E|]; [rewrite E, Z_mod_same_full; lia|].
      rewrite Z.mod_small by lia. lia. }
    assert (∀ rec v n, (n < 2 ^ 64 - 1)%Z → okFlush y rec v n → okFlush (f y) rec v (n + 1)) as Hnext.
    { intros rec v n Hn [F1 F2 F3 F4 F5 F6]. split; try done; try lia.
      rewrite Ev, F3. unfold u64. rewrite Zplus_mod_idemp_l. f_equal. lia. }
    split; simpl; try done; [congruence|]. unfold bumped, bump. rewrite Hne. destruct fl; simpl in *; try done.
    + by apply Hnext.
    + destruct H5 as [H5 ?]. split; [by apply Hnext|done].
Qed.

Lemma rsys_step_inv z z' : RSInv z → rsys_step z z' → RSInv z'.
Proof.
  intros HI Hs. destruct Hs as [y s listing Hl _ _|y s ev dedup Hev|y s now listing Hl|y fl s f Hf Hb|y s now rec v E|
    y s s' fault rec v n x E|y s rec v n|y fl s c Hc|y fl s rec y' calls related El Er|y fl s].
  - apply marked_inv; [apply applyListSnapshot_marks; [apply HI|done]|exact (zi_stored _ HI)].
  - apply marked_inv; [apply handleEvent_marks; [apply HI|done]|exact (zi_stored _ HI)].
  - apply marked_inv; [apply recoverFromExpiry_marks; [apply HI|done]|exact (zi_stored _ HI)].
  - by apply reconciler_inv.
  - destruct HI as [H1 H2 H3 H4 H5]. simpl in *. destruct (record_describes now y rec v H1 E) as [Hd ->].
    split; simpl; try done. split; [done|lia| |done|done|by exists y].
    rewrite Z.add_0_r. unfold u64. by rewrite Z.mod_small.
  - destruct HI as [H1 H2 H3 H4 H5]. simpl in *. pose proof H5 as [F1 F2 F3 F4 F5 F6].
    assert (k_Kind rec = r_Kind r) as Hk by (destruct F6 as (y0 & _ & Hd); apply Hd).
    destruct x as [[]|e].
    + pose proof (load_saved _ _ _ _ E) as Hload. rewrite Hk in Hload.
      split; simpl; try done.
      * intros rec' Hr. unfold stored in Hr. simpl in Hr. rewrite Hload in Hr. by injection Hr as <-.
      * intros Hd _. exists rec. split; [done|]. apply F4. destruct (Z.eq_dec n 0) as [|Hn]; [done|].
        apply F5 in Hn. congruence.
    + assert (∀ rec', st_Load s' (r_Kind r) = Ok rec' ↔ st_Load s (r_Kind r) = Ok rec') as Hsame.
      { intros rec'. by rewrite (load_failed _ _ _ _ _ _ E). }
      split; simpl; try done.
      * intros rec' Hr. apply Hsame in Hr. by apply H3.
      * intros Hd Hrv. destruct (H4 Hd Hrv) as (rec' & Hr & Hdesc). exists rec'. split; [by apply Hsame|done].
  - destruct HI as [H1 H2 H3 H4 H5]. simpl in *. destruct H5 as [[F1 F2 F3 F4 F5 F6] Hst].
    unfold saved, clearCheckpointDirty. cbn [y_checkpointVersion set_events]. case_match eqn:Ev.
    + apply Z.eqb_eq in Ev. assert (n = 0%Z) as Hn.
      { rewrite F3 in Ev. unfold u64, isU64 in *. rewrite <- (Z.mod_small v (2 ^ 64)) in Ev at 2 by lia.
        destruct (Z.eq_dec n 0) as [|Hn0]; [done|exfalso].
        destruct (Z_lt_ge_dec (v + n) (2 ^ 64)).
        - rewrite !Z.mod_small in Ev by lia. lia.
        - rewrite (Z.mod_small v) in Ev by lia.
          rewrite <- (Z.mod_unique (v + n) (2 ^ 64) 1 (v + n - 2 ^ 64)) in Ev by lia. lia. }
      split; simpl; try done; [by destruct H1|]. intros _ _. exists rec. split; [done|].
      eapply describes_same; [|by apply F4]. done.
    + split; simpl; try done; [by destruct H1|]. intros Hd Hrv.
      destruct (H4 Hd Hrv) as (rec' & Hr & Hdesc). exists rec'. split; [done|]. eapply (describes_same _ y); done.
  - destruct HI as [H1 H2 H3 H4 H5]. simpl in *.
    assert (sameContent y (set_cache y c)) as Hsame by (split_and!; [exact Hc|done..]).
    assert (∀ rec v n, okFlush y rec v n → okFlush (set_cache y c) rec v n) as Hfl.
    { intros rec v n [F1 F2 F3 F4 F5 F6]. split; try done. intros Hn. eapply describes_same; [exact Hsame|auto]. }
    split; simpl; try done.
    + destruct H1. split; simpl; [by rewrite Hc|done].
    + intros Hd Hrv. destruct (H4 Hd Hrv) as (rec & Hr & Hdesc). exists rec. split; [done|]. by eapply describes_same.
    + destruct fl; [done|by apply Hfl|destruct H5; split; [by apply Hfl|done]].
  - destruct HI as [H1 H2 H3 H4 H5]. simpl in *. destruct (H3 rec El) as (y0 & Hy0 & Hd0).
    destruct (restore_describes rec y0 Hy0 Hd0) as (y1 & rel & E1 & Hd1 & Hy1 & Ed & Ev).
    rewrite Er in E1. injection E1 as -> _ _. split; simpl; try done; [rewrite Ev; unfold isU64; lia|].
    intros _ _. by exists rec.
  - destruct HI as [H1 H2 H3 H4 H5]. simpl in *. by split.
Qed.

(** A runner that starts without a checkpoint of its kind. *)
Definition rsys_reachable (z : RSys) : Prop :=
  ∃ s, (∀ rec, st_Load s (r_Kind r) ≠ Ok rec) ∧ rtc rsys_step (mkRSys newReplay FIdle s) z.
Lemma rsys_reachable_inv z : rsys_reachable z → RSInv z.
Proof.
  intros (s & Hs & Hr).
  assert (RSInv (mkRSys newReplay FIdle s)) as H0.
  { split; simpl; try done. intros rec Hrec. by destruct (Hs rec). }
  induction Hr as [z|z1 z2 z3 Hst _ IH]; [done|]. by apply IH, (rsys_step_inv z1).
Qed.

(** C7: a checkpoint that is not dirty is the one on disk, and restores the
    runner. Reconcilers complete work and remember related work at any time,
    also between the moment a record is taken and the moment it is saved; saves
    fail and are tried again; the process stops anywhere. Whenever the dirty
    flag is down, the store holds a record from which a new process gets the
    cache, the cursor and both sets of unfinished work exactly as they are, and
    enqueues exactly the unfinished keys. *)
Theorem clean_checkpoint_restores z :
  rsys_reachable z → y_checkpointDirty (z_run z) = false → y_currentRV (z_run z) ≠ "" →
  ∃ rec y' calls related, st_Load (z_store z) (r_Kind r) = Ok rec ∧
    restoreCheckpoint r o rec newReplay = Ok (y', calls, related) ∧ sameContent (z_run z) y' ∧
    ∀ key, key ∈ calls ↔ key ∈ y_replayKeys (z_run z).
Proof.
  intros Hr%rsys_reachable_inv Hd Hrv. destruct (zi_clean _ Hr Hd Hrv) as (rec & Hst & Hdesc).
  destruct (restore_describes rec (z_run z) (zi_run _ Hr) Hdesc) as (y' & related & E & Hd' & _).
  exists rec, y', (k_ReplayKeys rec), related. split_and!; [done|done| |].
  - destruct Hdesc as [_ D1 (vs & Ev & D2) D3 D4], Hd' as [_ D1' (vs' & Ev' & D2') D3' D4'].
    rewrite Ev in Ev'. injection Ev' as <-. split_and!; congruence.
  - intros key. rewrite <- (ds_keys _ _ Hdesc). by rewrite elem_of_list_to_set.
Qed.

(** ** Remembered work *)

(** An event that is enqueued is remembered. *)
Lemma handleEvent_remembers ev dedup y key (out := handleEvent r o ev dedup y) :
  DisableReplay o = false → key ∈ out.1.2 → key ∈ y_replayKeys out.1.1.1.
Proof.
  intros Hdis. subst out. unfold handleEvent. set (y1 := markCheckpointDirty _).
  case_bool_decide; [by intros ?%elem_of_nil|].
  destruct (match e_Type ev with Modified => _ | _ => _ end) as [accepted shouldEnqueue].
  assert (∀ y2 : Replay (T := T), y_replayKeys y2 = y_replayKeys y1 → key ∈ [KeyFunc r (e_Object ev)] →
    key ∈ y_replayKeys (rememberForReplay o (KeyFunc r (e_Object ev)) y2)) as Hrem.
  { intros y2 _ ->%list_elem_of_singleton. unfold rememberForReplay. rewrite Hdis. simpl. set_solver. }
  destruct accepted.
  - destruct (match dedup !! _ with Some _ => _ | None => _ end) as [dd repeated].
    destruct (_ || _); [by intros ?%elem_of_nil|]. by apply Hrem.
  - destruct (negb _); [by intros ?%elem_of_nil|]. by apply Hrem.
Qed.
End theorems.

(** ** Runs

    A product is listed, saved and restored; and the run in which a checkpoint
    forgets an update, because the reconciliation that completed was that of
    the version before. *)


Definition prodChar (v : Prod) : ascii :=
  match v with (true, false) => "a" | (true, true) => "b" | (false, false) => "c" | (false, true) => "d" end%char.
Definition charProd (c : ascii) : Prod :=
  (Ascii.eqb c "a" || Ascii.eqb c "b", Ascii.eqb c "b" || Ascii.eqb c "d").
Fixpoint prodChars (vs : list Prod) : string :=
  match vs with [] => "" | v :: vs => String (prodChar v) (prodChars vs) end.
Fixpoint charsProd (data : string) : list Prod :=
  match data with "" => [] | String c data => charProd c :: charsProd data end.
#[export] Instance prodList : JsonList Prod := {|
  marshalList vs := Ok (String "[" (prodChars vs));
  unmarshalList data := match data with String _ data => Ok (charsProd data) | "" => Err (EOpaque "json") end;
|}.
Lemma prod_list : listRoundTrips (T := Prod).
Proof.
  intros vs data [= <-]. simpl. f_equal. induction vs as [|v vs IH]; simpl; [done|].
  rewrite IH. by destruct v as [[] []].
Qed.
(** Records are kept in memory here: their own encoding is not used. *)
#[export] Instance prodRecords : RecordJson := {|
  marshalRecord _ := Err (EOpaque "json");
  unmarshalRecord _ := Err (EOpaque "json");
  isArray data := String.prefix "[" data;
|}.
Definition prodOptions : ReplayOptions := applyDefaults (mkOptions false false 0 0).

(** ** Saved and restored *)

Definition prodListing : ListResponse Prod := mkListResponse Prod [(true, false)] "c1".
Definition listedY : Replay := (applyListSnapshot prodRunner prodOptions prodListing newReplay).1.
Definition takenR : CheckpointRecord :=
  mkRecord "Product" "c1" "[a" [kP "tea"] [] exNow.
Definition savedS : MemoryStore := mkMemory {["Product" := takenR]}.
Definition savedZ : RSys := mkRSys (saved 1 listedY) FIdle savedS.

Lemma saved_reachable : rsys_reachable prodRunner prodOptions savedZ.
Proof.
  exists NewMemoryStore. split; [done|].
  eapply rtc_l; [apply (zs_list prodRunner prodOptions newReplay NewMemoryStore prodListing); [by repeat constructor|done|done]|].
  eapply rtc_l; [apply (zs_take prodRunner prodOptions listedY NewMemoryStore exNow takenR 1); vm_compute; reflexivity|].
  eapply rtc_l; [apply (zs_save prodRunner prodOptions listedY NewMemoryStore savedS None takenR 1 0 (Ok tt)); vm_compute; reflexivity|].
  apply rtc_once, (zs_clear prodRunner prodOptions listedY savedS takenR 1 0).
Qed.
Lemma clean_checkpoint_restores_witness :
  ∃ rec y' calls related, st_Load savedS "Product" = Ok rec ∧
    restoreCheckpoint prodRunner prodOptions rec newReplay = Ok (y', calls, related) ∧
    sameContent (saved 1 listedY) y' ∧ ∀ key, key ∈ calls ↔ key ∈ y_replayKeys (saved 1 listedY).
Proof.
  apply (clean_checkpoint_restores prodRunner prodOptions prod_list savedZ).
  - exact saved_reachable.
  - vm_compute. reflexivity.
  - vm_compute. discriminate.
Defined.

(** ** An update forgotten

    The product is being reconciled when its update arrives. The update is
    cached, remembered and enqueued; then the reconciliation completes, and so
    [MarkCompleted] takes the key out of the replay set. *)
Definition busyQ : Queue := Queue.mkQueue [] ∅ {[kP "tea"]} false false.
Definition updateE : WatchEvent Prod := mkEvent Modified (true, true) "c2".
Definition afterUpdate : Replay := (handleEvent prodRunner prodOptions updateE ∅ listedY).1.1.1.
Definition afterUpdateQ : Queue := (Queue.Enqueue busyQ true (kP "tea")).2.
Definition afterCompletion : Replay := MarkCompleted (kP "tea") afterUpdate.
Definition afterCompletionQ : Queue := Queue.Done afterUpdateQ (kP "tea").

(** The update is in the queue, waiting for a worker; a checkpoint taken now is
    past the update and does not name the key, and the process that restores it
    has the update in its cache and enqueues nothing. *)
Theorem completion_forgets_update :
  (handleEvent prodRunner prodOptions updateE ∅ listedY).1.2 = [kP "tea"] ∧
  Queue.q_queue afterCompletionQ = [kP "tea"] ∧
  match checkpointRecord prodRunner exNow afterCompletion with
  | Ok (rec, _) =>
      k_ResourceVersion rec = "c2" ∧
      match restoreCheckpoint prodRunner prodOptions rec newReplay with
      | Ok (y', calls, related) => Cache.Get (y_cache y') (kP "tea") = Some (true, true) ∧ calls = [] ∧ related = []
      | Err _ => False
      end
  | Err _ => False
  end.
Proof. vm_compute. done. Qed.
