(* ===== verification/StatusConditions.v ===== *)
(** * Conditions the controllers own

    What the namespace, repository and product reconcilers share: a controller
    replaces its own two conditions among those of a resource and keeps the
    rest, with the transition time of a condition whose status is the same. *)

From S2P Require Import Prelude WorkTypes CategoryReconciler.
From Stdlib Require Import Ascii.

(** [strings.EqualFold] at [true]: no letter of the word folds to one outside
    ASCII. *)
Definition lowerAscii (c : ascii) : ascii :=
  let n := nat_of_ascii c in
  if (65 <=? n) && (n <=? 90) then ascii_of_nat (n + 32) else c.
Fixpoint foldAscii (s : string) : string :=
  match s with "" => "" | String c s => String (lowerAscii c) (foldAscii s) end.
Definition isTrue (st : string) : bool := bool_decide (foldAscii st = "true").

(** The first condition of the type decides. *)
Fixpoint conditionTrue (cs : list (option Condition)) (conditionType : string) : bool :=
  match cs with
  | [] => false
  | Some c :: cs => if bool_decide (c_Type c = conditionType) then isTrue (c_Status c)
                    else conditionTrue cs conditionType
  | None :: cs => conditionTrue cs conditionType
  end.

Definition withTime (c : Condition) (t : Z) : Condition :=
  mkCond (c_Type c) (c_Status c) (c_ObservedGeneration c) t (c_Reason c) (c_Message c).
Fixpoint preserveTransitionTime (fresh : Condition) (prior : list (option Condition)) : Condition :=
  match prior with
  | [] => fresh
  | Some c :: prior =>
      if bool_decide (c_Type c = c_Type fresh) && bool_decide (c_Status c = c_Status fresh)
      then withTime fresh (c_LastTransitionTime c) else preserveTransitionTime fresh prior
  | None :: prior => preserveTransitionTime fresh prior
  end.

(** The conditions of others: neither nil nor of the controller's two types. *)
Fixpoint others (t1 t2 : string) (prior : list (option Condition)) : list Condition :=
  match prior with
  | [] => []
  | Some c :: prior =>
      if bool_decide (c_Type c = t1) || bool_decide (c_Type c = t2) then others t1 t2 prior
      else c :: others t1 t2 prior
  | None :: prior => others t1 t2 prior
  end.
(** The controller's two conditions in place of those it had. *)
Definition mergeOwned (c1 c2 : Condition) (prior : list (option Condition)) : list (option Condition) :=
  (Some <$> others (c_Type c1) (c_Type c2) prior) ++
  [Some (preserveTransitionTime c1 prior); Some (preserveTransitionTime c2 prior)].

(** ** Merging again changes nothing *)

Lemma preserve_sameButTime c prior : sameButTime (preserveTransitionTime c prior) c.
Proof.
  induction prior as [|[p|] prior IH]; simpl; [by repeat split| |done].
  destruct (_ && _); [by repeat split|done].
Qed.
Lemma sameButTime_trans a b c : sameButTime a b → sameButTime b c → sameButTime a c.
Proof. intros (? & ? & ? & ? & ?) (? & ? & ? & ? & ?). repeat split; congruence. Qed.
Lemma sameButTime_sym a b : sameButTime a b → sameButTime b a.
Proof. intros (? & ? & ? & ? & ?). by repeat split. Qed.
Lemma preserve_skips c l rest :
  Forall (λ p, c_Type p ≠ c_Type c) l →
  preserveTransitionTime c ((Some <$> l) ++ rest) = preserveTransitionTime c rest.
Proof.
  induction 1 as [|p l Hp _ IH]; [done|]. simpl. by rewrite bool_decide_eq_false_2.
Qed.
Lemma preserve_same c p rest : sameButTime c p → preserveTransitionTime c (Some p :: rest) = p.
Proof.
  intros (E1 & E2 & E3 & E4 & E5). simpl. rewrite !bool_decide_eq_true_2 by done. simpl.
  unfold withTime. destruct p; simpl in *. congruence.
Qed.
Lemma others_types t1 t2 prior : Forall (λ p, c_Type p ≠ t1 ∧ c_Type p ≠ t2) (others t1 t2 prior).
Proof.
  induction prior as [|[p|] prior IH]; simpl; [constructor| |done].
  repeat case_bool_decide; simpl; try done. by constructor.
Qed.
Lemma others_others t1 t2 prior l :
  Forall (λ p, c_Type p = t1 ∨ c_Type p = t2) l →
  others t1 t2 ((Some <$> others t1 t2 prior) ++ (Some <$> l)) = others t1 t2 prior.
Proof.
  intros Hl. pose proof (others_types t1 t2 prior) as Ho.
  induction Ho as [|p ps [H1 H2] _ IH]; simpl.
  - induction Hl as [|p l [E|E] _ IH]; simpl; [done|..];
      rewrite (bool_decide_eq_true_2 _ E), ?orb_true_r; exact IH.
  - rewrite !bool_decide_eq_false_2 by done. simpl. f_equal. exact IH.
Qed.
Lemma mergeOwned_again c1 c2 c1' c2' prior :
  sameButTime c1' c1 → sameButTime c2' c2 → c_Type c1 ≠ c_Type c2 →
  mergeOwned c1' c2' (mergeOwned c1 c2 prior) = mergeOwned c1 c2 prior.
Proof.
  intros H1 H2 Hne. unfold mergeOwned at 1. set (p1 := preserveTransitionTime c1 prior).
  assert (c_Type c1' = c_Type c1 ∧ c_Type c2' = c_Type c2) as [-> ->] by (split; [apply H1|apply H2]).
  assert (sameButTime c1' p1) as S1 by (eapply sameButTime_trans, sameButTime_sym, preserve_sameButTime; done).
  set (p2 := preserveTransitionTime c2 prior).
  assert (sameButTime c2' p2) as S2 by (eapply sameButTime_trans, sameButTime_sym, preserve_sameButTime; done).
  assert (c_Type p1 = c_Type c1 ∧ c_Type p2 = c_Type c2) as [T1 T2].
  { split; apply preserve_sameButTime. }
  unfold mergeOwned. fold p1 p2. set (os := others (c_Type c1) (c_Type c2) prior).
  pose proof (others_types (c_Type c1) (c_Type c2) prior) as Ho. fold os in Ho. f_equal.
  - f_equal. apply (others_others _ _ prior [p1; p2]). constructor; [by left|constructor; [by right|constructor]].
  - rewrite !preserve_skips.
    + rewrite (preserve_same c1' p1) by done. do 3 f_equal. simpl.
      rewrite bool_decide_eq_false_2; [simpl|rewrite T1; intros E; apply Hne; rewrite E; apply H2].
      by apply (preserve_same c2' p2 []).
    + eapply Forall_impl; [exact Ho|]. intros p [_ ?]. by rewrite (proj1 H2).
    + eapply Forall_impl; [exact Ho|]. intros p [? _]. by rewrite (proj1 H1).
Qed.
(** Conditions of other types are found as before. *)
Lemma conditionTrue_merged c1 c2 prior t :
  t ≠ c_Type c1 → t ≠ c_Type c2 → conditionTrue (mergeOwned c1 c2 prior) t = conditionTrue prior t.
Proof.
  intros H1 H2. unfold mergeOwned.
  destruct (preserve_sameButTime c1 prior) as (T1 & _), (preserve_sameButTime c2 prior) as (T2 & _).
  revert T1 T2. generalize (preserveTransitionTime c1 prior) as p1, (preserveTransitionTime c2 prior) as p2.
  intros p1 p2 T1 T2. induction prior as [|[p|] prior IH]; simpl.
  - rewrite !bool_decide_eq_false_2 by congruence. done.
  - repeat case_bool_decide; simpl; rewrite ?IH; try (rewrite bool_decide_eq_true_2 by done); try congruence; try done.
    rewrite bool_decide_eq_false_2 by done. done.
  - exact IH.
Qed.

(** ** The status as the API stores it

    The fields of the patch, under a new resource version. *)
Definition appliedStatus (s : ResourceStatus) (p : StatusPatch) (rv : string) : ResourceStatus :=
  mkStatus rv (default (s_ObservedGeneration s) (sp_ObservedGeneration p))
    (default (s_LastAppliedRevision s) (sp_LastAppliedRevision p))
    (default (s_Conditions s) (sp_Conditions p))
    (match sp_Resolved p with Some x => Some x | None => s_Resolved s end).
Lemma applied_noop s p rv conditions resolved :
  sp_LastAppliedRevision p = None → sp_Conditions p = Some conditions →
  (∀ x, resolved = Some x → s_Resolved (appliedStatus s p rv) = Some x) →
  IsNoOp (mkPatch rv (Some (default 0%Z (sp_ObservedGeneration p))) None (Some conditions) resolved)
    (appliedStatus s p rv) = bool_decide (default 0%Z (sp_ObservedGeneration p) = s_ObservedGeneration (appliedStatus s p rv)).
Proof.
  intros E1 E2 Hr. unfold IsNoOp, conditionsEqual. simpl. rewrite E2. simpl.
  rewrite !bool_decide_eq_true_2 by done. simpl.
  destruct resolved as [x|]; [|destruct (_ =? _)%Z eqn:E; simpl; case_bool_decide; lia || done].
  simpl in Hr. rewrite (Hr x eq_refl). simpl. rewrite (bool_decide_eq_true_2 (x = x)) by done.
  destruct (_ =? _)%Z eqn:E; simpl; case_bool_decide; lia || done.
Qed.
