(* ===== verification/Reconcilers.v ===== *)
(** * The namespace and repository reconcilers

    [gitstore-controller-manager/internal/namespace/reconciler.go] and
    [internal/repository/reconciler.go]: both provision Git storage through the
    API once a resource is admitted, write what they observed into its status
    and complete its deletion. The telemetry events of a reconciliation are left
    out, as is the revision, which only they read. *)

From S2P Require Import Prelude WorkTypes CategoryReconciler StatusConditions.

Definition SystemRepositoryName : string := "gitstore-system".
Definition ForegroundDeletionFinalizer : string := "gitstore.dev/foreground-deletion".
Definition conditionAdmissionAccepted : string := "AdmissionAccepted".

(** [fmt.Errorf] with a [%w] verb at its end. *)
Definition wrap (msg : string) (e : Error) : Error := EWrap (msg +:+ ErrorText e) e.
Definition transient (msg : string) (e : Error) : ReconcileResult := TransientFailure (Some (wrap msg e)) 0.

(** The calls of a reconciliation to its collaborators, in order. *)
Inductive StorageCall : Type :=
| CallEnsure (namespace name : string)
| CallStatus (p : StatusPatch)
| CallFinish (namespace name resourceVersion uid : string).

Module NamespaceReconciler.

Definition conditionSystemRepoReady : string := "SystemRepoReady".
Definition bootstrapNamespaces : list string := ["gitstore-system"; "default"].

Record Namespace : Type := mkNamespace {
  n_UID : string;
  n_Name : string;
  n_Generation : Z;
  n_ResourceVersion : string;
  n_Finalizers : list string;
  n_Status : ResourceStatus;
}.
(** What the collaborators answer; [a_clock i] is the [i]-th reading of the clock. *)
Record Answers : Type := mkAnswers {
  a_lookup : WorkItemKey → result Error (option Namespace);
  a_ensure : option Error;
  a_apply : StatusPatch → option Error;
  a_complete : option Error;
  a_clock : nat → Z;
}.

Definition systemCondition (now : Z) (current : Namespace) (admitted : bool) (provisionErr : option Error)
  : Condition :=
  let c st reason message := mkCond conditionSystemRepoReady st (n_Generation current) now reason message in
  if negb admitted then c statusFalse "AdmissionPending"
    "system repository provisioning waits for AdmissionAccepted=True" else
  match provisionErr with
  | Some e => c statusFalse "ProvisioningFailed" (ErrorText e)
  | None => c statusTrue "RepositoryReady" "per-namespace gitstore-system repository exists"
  end.
Definition readyCondition (now : Z) (current : Namespace) (admitted systemReady : bool) : Condition :=
  if admitted && systemReady
  then mkCond conditionReady statusTrue (n_Generation current) now "NamespaceReady"
         "namespace admission and system repository provisioning are complete"
  else mkCond conditionReady statusFalse (n_Generation current) now "ConditionsNotSatisfied"
         "AdmissionAccepted and SystemRepoReady must both be True".
Definition mergeControllerConditions (clock : nat → Z) (current : Namespace) (admitted systemReady : bool)
    (provisionErr : option Error) : list (option Condition) :=
  mergeOwned (systemCondition (clock 0) current admitted provisionErr)
    (readyCondition (clock 1) current admitted systemReady) (s_Conditions (n_Status current)).

Definition reconcileActive (ans : Answers) (current : Namespace) : list StorageCall * ReconcileResult :=
  let admitted := conditionTrue (s_Conditions (n_Status current)) conditionAdmissionAccepted in
  let provisionErr := if admitted then a_ensure ans else None in
  let calls := if admitted then [CallEnsure (n_Name current) SystemRepositoryName] else [] in
  let systemReady := admitted && bool_decide (provisionErr = None) in
  let patch := mkPatch (n_ResourceVersion current) (Some (n_Generation current)) None
    (Some (mergeControllerConditions (a_clock ans) current admitted systemReady provisionErr)) None in
  let noop := IsNoOp patch (n_Status current) in
  let calls := if noop then calls else calls ++ [CallStatus patch] in
  (calls,
   match if noop then None else a_apply ans patch with
   | Some e =>
       match provisionErr with
       | Some p => transient "namespace: provision and status update failed: " (EJoin p e)
       | None => transient "namespace: update status: " e
       end
   | None =>
       match provisionErr with
       | Some p => transient "namespace: provision system repository: " p
       | None => Success
       end
   end).

Definition reconcileDeletion (ans : Answers) (current : Namespace) : list StorageCall * ReconcileResult :=
  ([CallFinish "" (n_Name current) (n_ResourceVersion current) (n_UID current)],
   match a_complete ans with
   | Some e => transient "namespace: complete deletion: " e
   | None => Success
   end).

Definition Reconcile (ans : Answers) (key : WorkItemKey) : list StorageCall * ReconcileResult :=
  match a_lookup ans key with
  | Err e => ([], transient "namespace: read projection: " e)
  | Ok None => ([], Success)
  | Ok (Some current) =>
      if bool_decide (n_Name current ∈ bootstrapNamespaces) then ([], Success) else
      if bool_decide (ForegroundDeletionFinalizer ∈ n_Finalizers current) ||
         conditionTrue (s_Conditions (n_Status current)) "DeletionPending"
      then reconcileDeletion ans current
      else reconcileActive ans current
  end.

(** The namespace once the API stored the patch. *)
Definition applied (n : Namespace) (p : StatusPatch) (rv : string) : Namespace :=
  mkNamespace (n_UID n) (n_Name n) (n_Generation n) rv (n_Finalizers n) (appliedStatus (n_Status n) p rv).
End NamespaceReconciler.

Module RepositoryReconciler.

Definition conditionStorageProvisioned : string := "StorageProvisioned".
Definition conflictRequeueDelay : Z := 100 * millisecond.
Definition rateLimitRequeueDelay : Z := second.
Definition storageRevalidationInterval : Z := 10 * minute.

Record Repository : Type := mkRepository {
  r_UID : string;
  r_Namespace : string;
  r_Name : string;
  r_StorageClass : string;
  r_Generation : Z;
  r_ResourceVersion : string;
  r_Finalizers : list string;
  r_Status : ResourceStatus;
}.
Record ResolvedStorage : Type := mkStorage { StoragePath : string; StorageClass : string }.

(** [storageVerificationCache]: when storage was last confirmed, and of which
    incarnation. *)
Record storageVerification : Type := mkVerification { v_uid : string; v_at : Z }.
Notation verifications := (gmap WorkItemKey storageVerification).
Definition verifiedAt (c : verifications) (key : WorkItemKey) (uid : string) : option Z :=
  match c !! key with
  | Some v => if bool_decide (v_uid v = uid) then Some (v_at v) else None
  | None => None
  end.
(** [Store]; a full cache evicts the key Go's iteration yields first. *)
Definition storeVerification (evict : verifications → WorkItemKey) (c : verifications) (key : WorkItemKey)
    (uid : string) (at_ : Z) : verifications :=
  let c := match c !! key with
           | Some _ => c
           | None => if bool_decide (4096 ≤ size c) then delete (evict c) c else c
           end in
  <[key := mkVerification uid at_]> c.

Record Answers : Type := mkAnswers {
  a_lookup : WorkItemKey → result Error (option Repository);
  a_ensure : result Error ResolvedStorage;
  a_marshal : ResolvedStorage → result Error string;
  a_apply : StatusPatch → option Error;
  a_complete : option Error;
  a_clock : nat → Z;
  a_evict : verifications → WorkItemKey;
}.

Definition storageVerificationDue (c : verifications) (now : Z) (key : WorkItemKey) (uid : string) : bool :=
  match verifiedAt c key uid with
  | None => true
  | Some last => (storageRevalidationInterval <=? now - last)%Z
  end.
Fixpoint provisionedAt (generation : Z) (cs : list (option Condition)) : bool :=
  match cs with
  | [] => false
  | Some c :: cs => if bool_decide (c_Type c = conditionStorageProvisioned)
                    then isTrue (c_Status c) && (c_ObservedGeneration c =? generation)%Z
                    else provisionedAt generation cs
  | None :: cs => provisionedAt generation cs
  end.
Definition storageProvisionedCurrent (current : Repository) : bool :=
  provisionedAt (r_Generation current) (s_Conditions (r_Status current)).

Definition storageCondition (now : Z) (current : Repository) (admitted : bool) (provisionErr : option Error)
  : Condition :=
  let c st reason message := mkCond conditionStorageProvisioned st (r_Generation current) now reason message in
  if negb admitted then c statusFalse "AdmissionPending"
    "storage provisioning waits for AdmissionAccepted=True" else
  match provisionErr with
  | Some e => c statusFalse "ProvisioningFailed" (ErrorText e)
  | None => c statusTrue "StorageReady" "bare Git repository exists"
  end.
Definition readyCondition (now : Z) (current : Repository) (admitted storageReady : bool) : Condition :=
  if admitted && storageReady
  then mkCond conditionReady statusTrue (r_Generation current) now "RepositoryReady"
         "repository admission and storage provisioning are complete"
  else mkCond conditionReady statusFalse (r_Generation current) now "ConditionsNotSatisfied"
         "AdmissionAccepted and StorageProvisioned must both be True".
Definition mergeControllerConditions (clock : nat → Z) (current : Repository) (admitted storageReady : bool)
    (provisionErr : option Error) : list (option Condition) :=
  mergeOwned (storageCondition (clock 2) current admitted provisionErr)
    (readyCondition (clock 3) current admitted storageReady) (s_Conditions (r_Status current)).

(** What became of the storage: trusted, confirmed or not to be had. *)
Inductive Storage : Type :=
| Trusted
| Waiting
| Confirmed (answer : result Error ResolvedStorage).
Definition storage (ans : Answers) (c : verifications) (key : WorkItemKey) (current : Repository) : Storage :=
  if negb (conditionTrue (s_Conditions (r_Status current)) conditionAdmissionAccepted) then Waiting else
  if storageProvisionedCurrent current && negb (storageVerificationDue c (a_clock ans 0) key (r_UID current))
  then Trusted else Confirmed (a_ensure ans).

(** The status update once the storage is known. *)
Definition writeStatus (ans : Answers) (current : Repository) (admitted : bool) (provisionErr : option Error)
    (resolved : option string) : list StorageCall * ReconcileResult :=
  let storageReady := admitted && bool_decide (provisionErr = None) in
  let patch := mkPatch (r_ResourceVersion current) (Some (r_Generation current)) None
    (Some (mergeControllerConditions (a_clock ans) current admitted storageReady provisionErr))
    (if storageReady then resolved else None) in
  let noop := IsNoOp patch (r_Status current) in
  let calls := if noop then [] else [CallStatus patch] in
  (calls,
   match if noop then None else a_apply ans patch with
   | Some e =>
       if errorsIs e ErrRateLimited || errIs provisionErr ErrRateLimited
       then RequeueAfter rateLimitRequeueDelay else
       if errorsIs e ErrConflict then RequeueAfter conflictRequeueDelay else
       match provisionErr with
       | Some p => transient "repository: provision and status update failed: " (EJoin p e)
       | None => transient "repository: update status: " e
       end
   | None =>
       match provisionErr with
       | Some p => if errorsIs p ErrRateLimited then RequeueAfter rateLimitRequeueDelay
                   else transient "repository: provision storage: " p
       | None => Success
       end
   end).

Definition reconcileActive (ans : Answers) (c : verifications) (key : WorkItemKey) (current : Repository)
  : list StorageCall * ReconcileResult * verifications :=
  let ensure := CallEnsure (r_Namespace current) (r_Name current) in
  match storage ans c key current with
  | Waiting => (writeStatus ans current false None None, c)
  | Trusted => (writeStatus ans current true None (s_Resolved (r_Status current)), c)
  | Confirmed (Err e) =>
      let (calls, res) := writeStatus ans current true (Some e) None in (ensure :: calls, res, c)
  | Confirmed (Ok resolved) =>
      let c := storeVerification (a_evict ans) c key (r_UID current) (a_clock ans 1) in
      match a_marshal ans resolved with
      | Err e => ([ensure], transient "repository: marshal resolved status: " e, c)
      | Ok data =>
          let (calls, res) := writeStatus ans current true None (Some data) in (ensure :: calls, res, c)
      end
  end.

Definition reconcileDeletion (ans : Answers) (current : Repository) : list StorageCall * ReconcileResult :=
  ([CallFinish (r_Namespace current) (r_Name current) (r_ResourceVersion current) (r_UID current)],
   match a_complete ans with
   | Some e => if errorsIs e ErrConflict then RequeueAfter conflictRequeueDelay
               else transient "repository: complete deletion: " e
   | None => Success
   end).

Definition Reconcile (ans : Answers) (c : verifications) (key : WorkItemKey)
  : list StorageCall * ReconcileResult * verifications :=
  match a_lookup ans key with
  | Err e => ([], transient "repository: read projection: " e, c)
  | Ok None => ([], Success, c)
  | Ok (Some current) =>
      if bool_decide (r_Name current = SystemRepositoryName) then ([], Success, c) else
      if bool_decide (ForegroundDeletionFinalizer ∈ r_Finalizers current) ||
         conditionTrue (s_Conditions (r_Status current)) "DeletionPending"
      then (reconcileDeletion ans current, c)
      else reconcileActive ans c key current
  end.

(** The repository once the API stored the patch. *)
Definition applied (x : Repository) (p : StatusPatch) (rv : string) : Repository :=
  mkRepository (r_UID x) (r_Namespace x) (r_Name x) (r_StorageClass x) (r_Generation x) rv (r_Finalizers x)
    (appliedStatus (r_Status x) p rv).
End RepositoryReconciler.
