(* ===== verification/ReconcilerTheorems.v ===== *)
(** * What the namespace and repository reconcilers guarantee

    A status that was written is not written again, and the storage that was
    confirmed is not asked for again, until something changes. *)

From S2P Require Import Prelude WorkTypes CategoryReconciler StatusConditions Reconcilers.

(** A patch computed from the stored status is that status. *)
Lemma IsNoOp_stored s p rv cs generation resolved :
  sp_ObservedGeneration p = Some generation → sp_Conditions p = Some cs →
  (∀ x, resolved = Some x → s_Resolved (appliedStatus s p rv) = Some x) →
  IsNoOp (mkPatch rv (Some generation) None (Some cs) resolved) (appliedStatus s p rv) = true.
Proof.
  intros E1 E2 Hr. unfold IsNoOp, conditionsEqual. cbn [sp_ResourceVersion sp_ObservedGeneration
    sp_LastAppliedRevision sp_Conditions sp_Resolved]. rewrite (bool_decide_eq_true_2 (rv = _)) by done.
  assert (s_ObservedGeneration (appliedStatus s p rv) = generation) as -> by (simpl; by rewrite E1).
  assert (s_Conditions (appliedStatus s p rv) = cs) as -> by (simpl; by rewrite E2).
  rewrite Z.eqb_refl, (bool_decide_eq_true_2 (cs = cs)) by done. simpl negb. cbn iota.
  destruct resolved as [x|]; [|done]. rewrite (Hr x eq_refl). by apply bool_decide_eq_true_2.
Qed.

Module NamespaceSettles.
Import NamespaceReconciler.

Lemma namespace_conditions_again clock clock' x admitted ready err rv p :
  sp_Conditions p = Some (mergeControllerConditions clock x admitted ready err) →
  mergeControllerConditions clock' (applied x p rv) admitted ready err =
  mergeControllerConditions clock x admitted ready err.
Proof.
  intros Hp. unfold mergeControllerConditions at 1. unfold applied at 3. cbn [n_Status].
  assert (s_Conditions (appliedStatus (n_Status x) p rv) = mergeControllerConditions clock x admitted ready err) as ->.
  { simpl. by rewrite Hp. }
  apply mergeOwned_again.
  - unfold systemCondition. destruct admitted; simpl; [destruct err|]; by repeat split.
  - unfold readyCondition. destruct (_ && _); by repeat split.
  - unfold systemCondition, readyCondition. destruct admitted, err, ready; done.
Qed.
Lemma namespace_other_condition clock x admitted ready err t :
  t ≠ conditionSystemRepoReady → t ≠ conditionReady →
  conditionTrue (mergeControllerConditions clock x admitted ready err) t =
  conditionTrue (s_Conditions (n_Status x)) t.
Proof.
  intros H1 H2. apply conditionTrue_merged.
  - unfold systemCondition. by destruct admitted, err.
  - unfold readyCondition. by destruct (_ && _).
Qed.

(** A namespace whose status was written is left alone as long as the
    repository service answers as it did. *)
Theorem namespace_settles ans ans' key x calls res p rv :
  a_lookup ans key = Ok (Some x) → Reconcile ans key = (calls, res) → CallStatus p ∈ calls →
  a_lookup ans' key = Ok (Some (applied x p rv)) → a_ensure ans' = a_ensure ans →
  ∃ calls' res', Reconcile ans' key = (calls', res') ∧ ∀ p', CallStatus p' ∉ calls'.
Proof.
  intros Hx HR Hin Hx' He. unfold Reconcile in *. rewrite Hx in HR. rewrite Hx'.
  cbn [applied n_Name n_Finalizers n_Status].
  destruct (bool_decide (n_Name x ∈ _)); [simplify_eq; set_solver|].
  destruct (bool_decide (_ ∈ n_Finalizers x)); [simpl in HR; unfold reconcileDeletion in HR; simplify_eq; set_solver|].
  destruct (conditionTrue _ "DeletionPending") eqn:Ed;
    [simpl in HR; unfold reconcileDeletion in HR; simplify_eq; set_solver|]. rewrite orb_false_l in *.
  unfold reconcileActive in HR.
  set (adm := conditionTrue (s_Conditions (n_Status x)) conditionAdmissionAccepted) in *.
  set (err := if adm then a_ensure ans else None) in *. set (rdy := adm && bool_decide (err = None)) in *.
  set (q := mkPatch _ _ _ _ _) in HR. destruct (IsNoOp q _).
  { injection HR as <- <-. destruct adm; set_solver. }
  assert (p = q) as ->.
  { injection HR as <- _. apply elem_of_app in Hin as [Hin|Hin]; [destruct adm; set_solver|set_solver]. }
  assert (s_Conditions (appliedStatus (n_Status x) q rv) = mergeControllerConditions (a_clock ans) x adm rdy err) as Ec by done.
  rewrite Ec, namespace_other_condition, Ed by done.
  unfold reconcileActive. cbn [applied n_Status n_Name n_ResourceVersion n_Generation].
  rewrite Ec, namespace_other_condition by done. fold adm. rewrite He. fold err. fold rdy.
  change (mkNamespace (n_UID x) (n_Name x) (n_Generation x) rv (n_Finalizers x) (appliedStatus (n_Status x) q rv))
    with (applied x q rv).
  rewrite (namespace_conditions_again (a_clock ans)) by done. rewrite IsNoOp_stored by done.
  eexists _, _. split; [reflexivity|]. intros p'. destruct adm; set_solver.
Qed.
End NamespaceSettles.

Module RepositorySettles.
Import RepositoryReconciler.

Lemma repository_conditions_again clock clock' x admitted ready err rv p :
  sp_Conditions p = Some (mergeControllerConditions clock x admitted ready err) →
  mergeControllerConditions clock' (applied x p rv) admitted ready err =
  mergeControllerConditions clock x admitted ready err.
Proof.
  intros Hp. unfold mergeControllerConditions at 1. unfold applied at 3. cbn [r_Status].
  assert (s_Conditions (appliedStatus (r_Status x) p rv) = mergeControllerConditions clock x admitted ready err) as ->.
  { simpl. by rewrite Hp. }
  apply mergeOwned_again.
  - unfold storageCondition. destruct admitted; simpl; [destruct err|]; by repeat split.
  - unfold readyCondition. destruct (_ && _); by repeat split.
  - unfold storageCondition, readyCondition. destruct admitted, err, ready; done.
Qed.
Lemma repository_other_condition clock x admitted ready err t :
  t ≠ conditionStorageProvisioned → t ≠ conditionReady →
  conditionTrue (mergeControllerConditions clock x admitted ready err) t =
  conditionTrue (s_Conditions (r_Status x)) t.
Proof.
  intros H1 H2. apply conditionTrue_merged.
  - unfold storageCondition. by destruct admitted, err.
  - unfold readyCondition. by destruct (_ && _).
Qed.
(** Storage reported as provisioned is found so, at this generation. *)
Lemma provisioned_written clock x ready err :
  provisionedAt (r_Generation x) (mergeControllerConditions clock x true ready err) = bool_decide (err = None).
Proof.
  unfold mergeControllerConditions, mergeOwned. set (t1 := c_Type (storageCondition _ _ _ _)).
  assert (t1 = conditionStorageProvisioned) as Et by by destruct err.
  pose proof (others_types t1 (c_Type (readyCondition (clock 3) x true ready)) (s_Conditions (r_Status x))) as Ho.
  induction Ho as [|c cs [Hc _] _ IH]; cbn [fmap list_fmap app provisionedAt].
  - destruct (preserve_sameButTime (storageCondition (clock 2) x true err) (s_Conditions (r_Status x)))
      as (E1 & E2 & E3 & _). rewrite E1, E2, E3. destruct err; cbn; [done|by rewrite Z.eqb_refl].
  - rewrite bool_decide_eq_false_2 by congruence. exact IH.
Qed.
Lemma verified_stored evict c key uid t : verifiedAt (storeVerification evict c key uid t) key uid = Some t.
Proof. unfold verifiedAt, storeVerification. rewrite lookup_insert_eq. simpl. by rewrite bool_decide_eq_true_2. Qed.

(** The patch [writeStatus] sends, when it sends one. *)
Definition patchOf (clock : nat → Z) (x : Repository) (admitted : bool) (err : option Error) (resolved : option string)
  : StatusPatch :=
  let ready := admitted && bool_decide (err = None) in
  mkPatch (r_ResourceVersion x) (Some (r_Generation x)) None
    (Some (mergeControllerConditions clock x admitted ready err)) (if ready then resolved else None).
Lemma repository_writeStatus_patch ans x admitted err resolved p :
  CallStatus p ∈ (writeStatus ans x admitted err resolved).1 → p = patchOf (a_clock ans) x admitted err resolved.
Proof.
  unfold writeStatus. fold (patchOf (a_clock ans) x admitted err resolved). cbn [fst].
  destruct (IsNoOp _ _); set_solver.
Qed.
Lemma writeStatus_only ans x admitted err resolved ns n :
  CallEnsure ns n ∉ (writeStatus ans x admitted err resolved).1.
Proof. unfold writeStatus. cbn [fst]. destruct (IsNoOp _ _); set_solver. Qed.
(** Written again from the stored status, it is not sent. *)
Lemma writeStatus_again ans clock x admitted err resolved resolved' rv (p := patchOf clock x admitted err resolved) :
  (∀ y, admitted = true → err = None → resolved' = Some y → s_Resolved (r_Status (applied x p rv)) = Some y) →
  writeStatus ans (applied x p rv) admitted err resolved' =
  ([], match err with
       | Some e => if errorsIs e ErrRateLimited then RequeueAfter rateLimitRequeueDelay
                   else transient "repository: provision storage: " e
       | None => Success
       end).
Proof.
  intros Hr. unfold writeStatus. cbn [applied r_ResourceVersion r_Generation].
  change (mkRepository (r_UID x) _ _ _ _ rv _ _) with (applied x p rv).
  rewrite (repository_conditions_again clock) by done.
  change (r_Status (applied x p rv)) with (appliedStatus (r_Status x) p rv).
  rewrite IsNoOp_stored; [done|done|done|]. intros y. destruct admitted; [|done].
  case_bool_decide; simpl; [|done]. intros E. by apply Hr.
Qed.

(** What a reconciliation that wrote the status found out. *)
Definition wrote (ans : Answers) (c c' : verifications) (key : WorkItemKey) (x : Repository)
    (calls : list StorageCall) (p : StatusPatch) : Prop :=
  ∃ admitted err resolved, p = patchOf (a_clock ans) x admitted err resolved ∧
    conditionTrue (s_Conditions (r_Status x)) conditionAdmissionAccepted = admitted ∧
    (if admitted : bool then
       match a_ensure ans with
       | Ok y => err = None ∧ (∃ data, a_marshal ans y = Ok data ∧ resolved = Some data) ∧
                 c' = storeVerification (a_evict ans) c key (r_UID x) (a_clock ans 1)
       | Err e => err = Some e
       end
     else err = None ∧ CallEnsure (r_Namespace x) (r_Name x) ∉ calls).
Lemma active_wrote ans c c' key x calls res p :
  reconcileActive ans c key x = (calls, res, c') → CallStatus p ∈ calls → storage ans c key x ≠ Trusted →
  wrote ans c c' key x calls p.
Proof.
  intros HR Hin Hst. unfold wrote, reconcileActive, storage in *.
  destruct (conditionTrue _ conditionAdmissionAccepted) eqn:Ea; cbn [negb] in HR, Hst.
  - destruct (_ && _); [done|]. destruct (a_ensure ans) as [y|e].
    + destruct (a_marshal ans y) as [data|] eqn:Em; [|simplify_eq; set_solver].
      destruct (writeStatus ans x true None (Some data)) as [ws wr] eqn:Ew. injection HR as <- <- <-.
      exists true, None, (Some data). split; [|eauto 10]. apply (repository_writeStatus_patch ans). rewrite Ew. by apply elem_of_cons in Hin as [|].
    + destruct (writeStatus ans x true (Some e) None) as [ws wr] eqn:Ew. injection HR as <- <- <-.
      exists true, (Some e), None. split; [|done]. apply (repository_writeStatus_patch ans). rewrite Ew. by apply elem_of_cons in Hin as [|].
  - pose proof (f_equal fst HR) as Ew. cbn [fst] in Ew. exists false, None, None.
    assert (p = patchOf (a_clock ans) x false None None) as -> by (apply (repository_writeStatus_patch ans); by rewrite Ew).
    split_and!; try done. pose proof (writeStatus_only ans x false None None (r_Namespace x) (r_Name x)) as Hn.
    by rewrite Ew in Hn.
Qed.

(** A repository is provisioned and reported once. After a reconciliation
    that did not rely on an earlier one wrote the status and the API stored it,
    the next reconciliation does not write again as long as the storage service
    answers as it did, whatever the clock says; and if storage was confirmed
    less than ten minutes before, it calls nobody at all, although its own
    write is what triggered it. *)
Theorem repository_settles ans ans' c c' key x calls res p rv :
  a_lookup ans key = Ok (Some x) → Reconcile ans c key = (calls, res, c') → CallStatus p ∈ calls →
  storage ans c key x ≠ Trusted →
  a_lookup ans' key = Ok (Some (applied x p rv)) → a_ensure ans' = a_ensure ans → a_marshal ans' = a_marshal ans →
  ∃ calls' res' c'', Reconcile ans' c' key = (calls', res', c'') ∧ (∀ p', CallStatus p' ∉ calls') ∧
    (CallEnsure (r_Namespace x) (r_Name x) ∈ calls → (∃ y, a_ensure ans = Ok y) →
     (a_clock ans' 0 - a_clock ans 1 < storageRevalidationInterval)%Z →
     calls' = [] ∧ res' = Success ∧ c'' = c').
Proof.
  intros Hx HR Hin Hst Hx' He Hm. unfold Reconcile in *. rewrite Hx in HR. rewrite Hx'.
  cbn [applied r_Name r_Finalizers r_Status].
  destruct (bool_decide (r_Name x = _)); [simplify_eq; set_solver|].
  destruct (bool_decide (_ ∈ r_Finalizers x)); [simpl in HR; unfold reconcileDeletion in HR; simplify_eq; set_solver|].
  destruct (conditionTrue _ "DeletionPending") eqn:Ed;
    [simpl in HR; unfold reconcileDeletion in HR; simplify_eq; set_solver|]. rewrite orb_false_l in *.
  destruct (active_wrote ans c c' key x calls res p HR Hin Hst) as (adm & err & resolved & Hp & Ha & Hout).
  assert (s_Conditions (appliedStatus (r_Status x) p rv) =
    mergeControllerConditions (a_clock ans) x adm (adm && bool_decide (err = None)) err) as Ec by (by rewrite Hp).
  rewrite Ec, repository_other_condition, Ed by done. unfold reconcileActive, storage.
  cbn [applied r_Status r_Namespace r_Name r_UID]. rewrite Ec, repository_other_condition, Ha, He, Hm by done.
  change (mkRepository (r_UID x) _ _ _ _ rv _ _) with (applied x p rv). destruct adm; simpl negb; cbn iota.
  2: { destruct Hout as [-> Hnc]. subst p. rewrite writeStatus_again by done.
       eexists _, _, _. split; [reflexivity|]. split; [set_solver|done]. }
  destruct (a_ensure ans) as [y|e] eqn:Ens.
  - destruct Hout as (-> & (data & Ed' & ->) & Ec').
    assert (s_Resolved (r_Status (applied x p rv)) = Some data) as Er by (by rewrite Hp).
    assert (storageProvisionedCurrent (applied x p rv) = true) as ->.
    { unfold storageProvisionedCurrent. cbn [applied r_Status]. rewrite Ec. exact (provisioned_written (a_clock ans) x _ None). }
    unfold storageVerificationDue. rewrite Ec', verified_stored. simpl andb.
    destruct (Z.leb_spec storageRevalidationInterval (a_clock ans' 0 - a_clock ans 1)) as [Hd|Hd]; simpl negb; cbn iota.
    + rewrite Ed', Hp. rewrite writeStatus_again by (intros; by rewrite <- Hp, Er).
      eexists _, _, _. split; [reflexivity|]. split; [set_solver|]. intros _ _ Hlt. lia.
    + rewrite Hp. rewrite writeStatus_again by (intros z _ _ <-; by rewrite <- Hp, Er).
      eexists _, _, _. split; [reflexivity|]. split; [set_solver|done].
  - subst err.
    assert (storageProvisionedCurrent (applied x p rv) = false) as ->.
    { unfold storageProvisionedCurrent. cbn [applied r_Status]. rewrite Ec. exact (provisioned_written (a_clock ans) x _ (Some e)). }
    simpl andb. cbn iota. rewrite Hp, writeStatus_again by done.
    eexists _, _, _. split; [reflexivity|]. split; [set_solver|]. by intros _ [y ?].
Qed.
End RepositorySettles.
