(* ===== verification/ProductReconciler.v ===== *)
(** * The product reconciler

    [gitstore-controller-manager/internal/product/reconciler.go]: a product's
    reference to a category is resolved against the mirror of the categories,
    the outcome is written into the product's status, and a product being
    deleted is completed. Metrics are left out. *)

From S2P Require Import Prelude WorkTypes CategoryReconciler StatusConditions Reconcilers ReconcilerTheorems.

Definition conditionCategoryResolved : string := "CategoryResolved".
Definition conflictRequeueDelay : Z := 100 * millisecond.
Definition categoryUnresolvedRequeueDelay : Z := minute.

Record Product : Type := mkProduct {
  p_UID : string;
  p_Namespace : string;
  p_Name : string;
  p_Generation : Z;
  p_ResourceVersion : string;
  p_Finalizers : list string;
  p_DeletionTimestamp : option Z;
  p_CategoryRefName : string;
  p_Status : ResourceStatus;
}.
Record resolvedCategoryRef : Type := mkRef { rc_Name : string; rc_UID : string; rc_Path : list string }.

Record Answers : Type := mkAnswers {
  a_lookup : WorkItemKey → result Error (option Product);
  a_category : WorkItemKey → result Error (option CategoryTaxonomy);
  a_apply : StatusPatch → option Error;
  a_complete : option Error;
  a_clock : nat → Z;
}.

Section product.
(** JSON of the resolved payload, and of the path in a category's status. *)
Context (marshal : option resolvedCategoryRef → result Error string).
Context (unmarshalPath : string → result Error (list string)).

Definition hasFinalizer (values : list string) : bool := bool_decide (ForegroundDeletionFinalizer ∈ values).

(** A terminating category counts as absent. *)
Definition resolveCategory (ans : Answers) (current : Product) : result Error (option resolvedCategoryRef) :=
  if bool_decide (p_CategoryRefName current = "") then Ok None else
  match a_category ans (mkKey "CategoryTaxonomy" (p_Namespace current) (p_CategoryRefName current)) with
  | Err e => Err e
  | Ok None => Ok None
  | Ok (Some candidate) =>
      if terminating candidate then Ok None else
      match s_Resolved (ct_Status candidate) with
      | None => Ok (Some (mkRef (ct_Name candidate) (ct_UID candidate) []))
      | Some raw =>
          if bool_decide (raw = "") then Ok (Some (mkRef (ct_Name candidate) (ct_UID candidate) [])) else
          match unmarshalPath raw with
          | Err e => Err e
          | Ok path => Ok (Some (mkRef (ct_Name candidate) (ct_UID candidate) path))
          end
      end
  end.

Definition categoryCondition (now : Z) (current : Product) (found categoryResolved : bool) : Condition :=
  let c st reason message := mkCond conditionCategoryResolved st (p_Generation current) now reason message in
  if found then c statusTrue "CategoryFound"
    "spec.categoryRef resolves to an existing CategoryTaxonomy in this namespace."
  else if categoryResolved then c statusTrue "NoCategoryReference"
    "spec.categoryRef is not set; the Product is uncategorized."
  else c statusFalse "CategoryNotFound"
    "spec.categoryRef does not resolve to an existing CategoryTaxonomy in this namespace.".
Definition readyCondition (now : Z) (current : Product) (categoryResolved admitted : bool) : Condition :=
  if admitted && categoryResolved
  then mkCond conditionReady statusTrue (p_Generation current) now "ProductReady"
         "AdmissionAccepted and CategoryResolved are both True."
  else mkCond conditionReady statusFalse (p_Generation current) now "CategoryUnresolved"
         "AdmissionAccepted and CategoryResolved must both be True.".
Definition mergeCategoryConditions (clock : nat → Z) (current : Product) (found categoryResolved admitted : bool)
  : list (option Condition) :=
  mergeOwned (categoryCondition (clock 0) current found categoryResolved)
    (readyCondition (clock 1) current categoryResolved admitted) (s_Conditions (p_Status current)).

Definition isSome {A} (o : option A) : bool := match o with Some _ => true | None => false end.
(** Nothing is reported where nothing was and nothing is to be. *)
Definition resolvedPayload (current : Product) (resolved : option resolvedCategoryRef) : result Error (option string) :=
  if isSome resolved || isSome (s_Resolved (p_Status current)) then
    match marshal resolved with Ok data => Ok (Some data) | Err e => Err e end
  else Ok None.

(** A reconciliation to its calls of the status client and its outcome. *)
Definition reconcileActive (ans : Answers) (current : Product) : list StorageCall * ReconcileResult :=
  match resolveCategory ans current with
  | Err e => ([], transient "product: read category projection: " e)
  | Ok resolved =>
      let found := isSome resolved in
      let categoryResolved := found || bool_decide (p_CategoryRefName current = "") in
      let admitted := conditionTrue (s_Conditions (p_Status current)) conditionAdmissionAccepted in
      match resolvedPayload current resolved with
      | Err e => ([], transient "product: marshal resolved status: " e)
      | Ok payload =>
          let patch := mkPatch (p_ResourceVersion current) (Some (p_Generation current)) None
            (Some (mergeCategoryConditions (a_clock ans) current found categoryResolved admitted)) payload in
          let noop := IsNoOp patch (p_Status current) in
          (if noop then [] else [CallStatus patch],
           match if noop then None else a_apply ans patch with
           | Some e => if errorsIs e ErrConflict then RequeueAfter conflictRequeueDelay
                       else transient "product: update status: " e
           | None => if categoryResolved then Success else RequeueAfter categoryUnresolvedRequeueDelay
           end)
      end
  end.

Definition Reconcile (ans : Answers) (key : WorkItemKey) : list StorageCall * ReconcileResult :=
  match a_lookup ans key with
  | Err e => ([], transient "product: read projection: " e)
  | Ok None => ([], Success)
  | Ok (Some p) =>
      if isSome (p_DeletionTimestamp p) && hasFinalizer (p_Finalizers p) then
        ([CallFinish (p_Namespace p) (p_Name p) (p_ResourceVersion p) (p_UID p)],
         match a_complete ans with
         | Some e => if errorsIs e ErrConflict then RequeueAfter conflictRequeueDelay
                     else transient "product: complete deletion: " e
         | None => Success
         end)
      else reconcileActive ans p
  end.

(** ** Settling *)

(** The product as it is read back once the API stored the patch: a payload
    without a category is read back as none. *)
Definition stored (p : Product) (patch : StatusPatch) (empty : bool) (rv : string) : Product :=
  let s := appliedStatus (p_Status p) patch rv in
  mkProduct (p_UID p) (p_Namespace p) (p_Name p) (p_Generation p) rv (p_Finalizers p) (p_DeletionTimestamp p)
    (p_CategoryRefName p)
    (mkStatus (s_ResourceVersion s) (s_ObservedGeneration s) (s_LastAppliedRevision s) (s_Conditions s)
       (if empty then None else s_Resolved s)).

Lemma product_conditions_again clock clock' x found resolved admitted rv p empty :
  sp_Conditions p = Some (mergeCategoryConditions clock x found resolved admitted) →
  mergeCategoryConditions clock' (stored x p empty rv) found resolved admitted =
  mergeCategoryConditions clock x found resolved admitted.
Proof.
  intros Hp. unfold mergeCategoryConditions at 1.
  assert (s_Conditions (p_Status (stored x p empty rv)) = mergeCategoryConditions clock x found resolved admitted) as ->.
  { simpl. by rewrite Hp. }
  apply mergeOwned_again.
  - unfold categoryCondition. destruct found, resolved; by repeat split.
  - unfold readyCondition. destruct admitted, resolved; by repeat split.
  - unfold categoryCondition, readyCondition. destruct found, resolved, admitted; done.
Qed.
Lemma product_other_condition clock x found resolved admitted t :
  t ≠ conditionCategoryResolved → t ≠ conditionReady →
  conditionTrue (mergeCategoryConditions clock x found resolved admitted) t =
  conditionTrue (s_Conditions (p_Status x)) t.
Proof.
  intros H1 H2. apply conditionTrue_merged.
  - unfold categoryCondition. by destruct found, resolved.
  - unfold readyCondition. by destruct (_ && _).
Qed.

(** What is reported next is what was stored. *)
Lemma payload_again x q o payload empty rv :
  (empty = true → o = None) → resolvedPayload x o = Ok payload → sp_Resolved q = payload →
  ∃ payload', resolvedPayload (stored x q empty rv) o = Ok payload' ∧
    ∀ y, payload' = Some y → s_Resolved (p_Status (stored x q empty rv)) = Some y.
Proof.
  intros Hemp Epay Hq. unfold resolvedPayload in *. cbn [stored p_Status s_Resolved appliedStatus]. rewrite Hq.
  destruct empty; simpl; [rewrite (Hemp eq_refl); by exists None|]. destruct o as [ref|]; simpl in *.
  - destruct (marshal (Some ref)) as [data|]; [|done]. injection Epay as <-. by exists (Some data).
  - destruct (s_Resolved (p_Status x)) as [old|]; simpl in *; [|injection Epay as <-; by exists None].
    destruct (marshal None) as [data|]; [|done]. injection Epay as <-. by exists (Some data).
Qed.
Lemma stored_noop x q cs payload empty rv :
  sp_ObservedGeneration q = Some (p_Generation x) → sp_Conditions q = Some cs →
  (∀ y, payload = Some y → s_Resolved (p_Status (stored x q empty rv)) = Some y) →
  IsNoOp (mkPatch rv (Some (p_Generation x)) None (Some cs) payload) (p_Status (stored x q empty rv)) = true.
Proof.
  intros E1 E2 Hp. unfold IsNoOp, conditionsEqual.
  cbn [sp_ResourceVersion sp_ObservedGeneration sp_LastAppliedRevision sp_Conditions sp_Resolved].
  assert (s_Conditions (p_Status (stored x q empty rv)) = cs) as -> by (simpl; by rewrite E2).
  assert (s_ObservedGeneration (p_Status (stored x q empty rv)) = p_Generation x) as -> by (simpl; by rewrite E1).
  rewrite !bool_decide_eq_true_2, Z.eqb_refl by done. simpl negb. cbn iota.
  destruct payload as [y|]; [|done]. rewrite (Hp y eq_refl). by apply bool_decide_eq_true_2.
Qed.

(** The category a product refers to is in the mirror, and not terminating. *)
Definition refersTo (ans : Answers) (x : Product) : Prop :=
  ∃ c, a_category ans (mkKey "CategoryTaxonomy" (p_Namespace x) (p_CategoryRefName x)) = Ok (Some c) ∧
    terminating c = false.
Lemma resolve_found ans x o :
  resolveCategory ans x = Ok o → isSome o = true ↔ p_CategoryRefName x ≠ "" ∧ refersTo ans x.
Proof.
  unfold resolveCategory, refersTo. case_bool_decide as He; [intros [= <-]; naive_solver|].
  destruct (a_category ans _) as [[c|]|]; [|intros [= <-]; naive_solver|done].
  destruct (terminating c) eqn:Et; [intros [= <-]; naive_solver|].
  destruct (s_Resolved (ct_Status c)) as [raw|]; [|intros [= <-]; naive_solver].
  case_bool_decide; [intros [= <-]; naive_solver|]. destruct (unmarshalPath raw); [|done]. intros [= <-]. naive_solver.
Qed.

End product.
