(* ===== verification/Pagination.v ===== *)
(** * Keyset pagination

    The page parameters of [gitstore-api/internal/datastore/datastore.go], the
    cursors of [internal/admin/graph/resolver/keyset_cursor.go], and the
    in-memory pagination [paginateSlice] of
    [internal/datastore/memdb/backend.go] that every list operation of the
    in-memory backend ends with. *)

From S2P Require Import Prelude.
From stdpp Require Import sorting.
From Stdlib Require Import Ascii.

Record PageParams : Type := mkPage {
  First : Z;
  After : string;
  Last : Z;
  Before : string;
}.
Record PageResult (T : Type) : Type := mkResult {
  Items : list T;
  HasNext : bool;
  HasPrevious : bool;
}.
Arguments mkResult {T} _ _ _.
Arguments Items {T} _.
Arguments HasNext {T} _.
Arguments HasPrevious {T} _.

Definition DefaultPageSize : Z := 100.
Definition MaxProductPageSize : Z := 250.

Definition Limit (p : PageParams) : Z :=
  if (0 <? Last p)%Z then Last p else
  if (0 <? First p)%Z then First p else DefaultPageSize.

(** [None] is [ErrInvalidArgument]. *)
Definition BoundedProductPage (p : PageParams) : option PageParams :=
  if (First p <? 0)%Z || (Last p <? 0)%Z then None
  else Some (mkPage (Z.min (First p) MaxProductPageSize) (After p)
                    (Z.min (Last p) MaxProductPageSize) (Before p)).

(** A position in a list: creation time and identifier. *)
Notation Key := (Z * string)%type.

Definition compareKeyset (a b : Key) : Z :=
  match Z.compare a.1 b.1 with
  | Lt => -1
  | Gt => 1
  | Eq => match String.compare a.2 b.2 with Lt => -1 | Gt => 1 | Eq => 0 end
  end.

(** The order of every listing: newest first, then greatest identifier. *)
Definition newer {T} (getKey : T → Key) (x y : T) : Prop :=
  (0 ≤ compareKeyset (getKey x) (getKey y))%Z.
#[global] Instance newer_dec {T} (getKey : T → Key) x y : Decision (newer getKey x y).
Proof. unfold newer. apply _. Defined.

Section pagination.
(** The codecs of the standard library: [base64.StdEncoding] and the
    [time.RFC3339Nano] layout. *)
Context (b64encode : string → string) (b64decode : string → option string).
Context (formatTime : Z → string) (parseTime : string → option Z).

Definition EncodeKeysetCursor (k : Key) : string :=
  b64encode ("keyset|" +:+ formatTime k.1 +:+ "|" +:+ k.2).

Definition decodeCursor (cursor : string) : option Key :=
  decoded ← b64decode cursor;
  match splitN3 "|" decoded with
  | [tag; ts; id] =>
      if bool_decide (tag = "keyset") then t ← parseTime ts; Some (t, id) else None
  | _ => None
  end.

Context {T : Type} (getKey : T → Key).

(** The index of the first item satisfying [P], the length of the list when
    there is none. *)
Definition firstIndex (P : T → Prop) `{∀ x, Decision (P x)} (l : list T) : nat :=
  match list_find P l with Some (i, _) => i | None => length l end.

(** A cursor that does not decode is ignored. *)
Definition startOf (items : list T) (after : string) : nat :=
  if bool_decide (after = "") then 0 else
  match decodeCursor after with
  | Some c => firstIndex (λ x, (compareKeyset (getKey x) c < 0)%Z) items
  | None => 0
  end.
Definition endOf (items : list T) (before : string) : nat :=
  if bool_decide (before = "") then length items else
  match decodeCursor before with
  | Some c => firstIndex (λ x, (compareKeyset (getKey x) c ≤ 0)%Z) items
  | None => length items
  end.

Definition paginateSlice (items : list T) (page : PageParams) : PageResult T :=
  let items := merge_sort (newer getKey) items in
  match items with
  | [] => mkResult [] false false
  | _ =>
      let limit := Z.to_nat (Limit page) in
      let start := startOf items (After page) in
      let stop := endOf items (Before page) in
      if stop <=? start then mkResult [] false (0 <? start) else
      let window := take (stop - start) (drop start items) in
      if (0 <? Last page)%Z then
        let more := limit <? length window in
        mkResult (if more then drop (length window - limit) window else window)
          (stop <? length items) (if more then true else 0 <? start)
      else
        let more := limit <? length window in
        mkResult (if more then take limit window else window) more (0 <? start)
  end.

(** ** The listing order *)

#[local] Hint Unfold newer compareKeyset : gitstore.

Lemma compareKeyset_antisym a b : compareKeyset b a = (- compareKeyset a b)%Z.
Proof.
  unfold compareKeyset. rewrite (Z.compare_antisym a.1 b.1), (String.compare_antisym b.2 a.2).
  destruct (Z.compare a.1 b.1), (String.compare a.2 b.2); done.
Qed.

Lemma compareKeyset_eq a b : compareKeyset a b = 0%Z → a = b.
Proof.
  unfold compareKeyset. destruct a as [t i], b as [u j]; simpl.
  destruct (Z.compare_spec t u) as [->| |]; [|done..].
  destruct (String.compare i j) eqn:E; [|done..]. intros _.
  by apply String.compare_eq_iff in E as ->.
Qed.

Lemma compareKeyset_refl a : compareKeyset a a = 0%Z.
Proof. unfold compareKeyset. by rewrite Z.compare_refl, str_compare_refl. Qed.

Lemma compareKeyset_trans a b c :
  (0 < compareKeyset a b)%Z → (0 < compareKeyset b c)%Z → (0 < compareKeyset a c)%Z.
Proof.
  destruct a as [t i], b as [u j], c as [v k]. unfold compareKeyset; simpl.
  rewrite (String.compare_antisym i j), (String.compare_antisym j k), (String.compare_antisym i k).
  destruct (Z.compare_spec t u), (Z.compare_spec u v), (Z.compare_spec t v);
    subst; try lia.
  destruct (String.compare j i) eqn:E1; try done. destruct (String.compare k j) eqn:E2; try done.
  intros _ _. by rewrite (str_compare_trans_lt k j i).
Qed.

#[local] Instance newer_total : Total (newer getKey).
Proof.
  intros x y. unfold newer. rewrite (compareKeyset_antisym (getKey x) (getKey y)). lia.
Qed.
#[local] Instance newer_trans : Transitive (newer getKey).
Proof.
  intros x y z. unfold newer. intros H1 H2.
  destruct (decide (compareKeyset (getKey x) (getKey y) = 0%Z)) as [->%compareKeyset_eq|]; [done|].
  destruct (decide (compareKeyset (getKey y) (getKey z) = 0%Z)) as [<-%compareKeyset_eq|]; [done|].
  enough (0 < compareKeyset (getKey x) (getKey z))%Z by lia.
  apply (compareKeyset_trans _ (getKey y)); lia.
Qed.

(** With distinct keys, an earlier item is strictly newer. *)
Lemma listing_strict items i j x y :
  NoDup (getKey <$> items) →
  merge_sort (newer getKey) items !! i = Some x → merge_sort (newer getKey) items !! j = Some y →
  i < j → (0 < compareKeyset (getKey x) (getKey y))%Z.
Proof.
  intros Hnd Hx Hy Hij.
  pose proof (StronglySorted_merge_sort (newer getKey) items) as Hs.
  assert (NoDup (getKey <$> merge_sort (newer getKey) items)) as Hnd'.
  { by rewrite merge_sort_Permutation. }
  revert Hs Hnd' Hx Hy. generalize (merge_sort (newer getKey) items) as s. clear -Hij. intros s.
  revert i j Hij. induction s as [|a s IH]; intros i j Hij Hs Hnd Hx Hy; [done|].
  inversion Hs as [|? ? Hs' Hall]; subst.
  cbn [fmap list_fmap] in Hnd. apply NoDup_cons in Hnd as [Ha Hnd].
  destruct j as [|j]; [lia|]. destruct i as [|i]; simplify_eq/=; [|apply (IH i j); auto with lia].
  apply list_elem_of_lookup_2 in Hy as Hin.
  rewrite Forall_forall in Hall. specialize (Hall y Hin). unfold newer in Hall.
  destruct (decide (compareKeyset (getKey x) (getKey y) = 0%Z)) as [E|]; [|lia].
  exfalso. apply Ha. apply compareKeyset_eq in E. rewrite E. by apply list_elem_of_fmap_2.
Qed.

Lemma firstIndex_at P `{∀ x, Decision (P x)} l i :
  i ≤ length l → (∀ j x, l !! j = Some x → j < i → ¬ P x) →
  (∀ x, l !! i = Some x → P x) → firstIndex P l = i.
Proof.
  intros Hi Hbefore Hat. unfold firstIndex.
  destruct (list_find P l) as [[j x]|] eqn:E.
  - apply list_find_Some in E as (Hj & HP & Hmin).
    destruct (lt_eq_lt_dec j i) as [[?|?]|Hlt]; [|done|].
    + by destruct (Hbefore j x).
    + destruct (lookup_lt_is_Some_2 l i) as [y Hy].
      { apply lookup_lt_Some in Hj. lia. }
      by destruct (Hmin i y Hy Hlt (Hat y Hy)).
  - apply list_find_None in E. rewrite Forall_forall in E.
    destruct (decide (i = length l)); [done|].
    destruct (lookup_lt_is_Some_2 l i) as [y Hy]; [lia|].
    destruct (E y); [by eapply list_elem_of_lookup_2|by apply Hat].
Qed.

(** The codecs invert each other on what the cursors hold. *)
Context (Hb64 : ∀ s, b64decode (b64encode s) = Some s).
Context (Htime : ∀ t, parseTime (formatTime t) = Some t).
Context (Hbar : ∀ t, hasChar "|" (formatTime t) = false).
Context (Hnonempty : ∀ s, s ≠ "" → b64encode s ≠ "").

Lemma decode_encode_cursor k : decodeCursor (EncodeKeysetCursor k) = Some k.
Proof using Hb64 Htime Hbar.
  unfold decodeCursor, EncodeKeysetCursor. rewrite Hb64. cbn [mbind option_bind].
  unfold splitN3. change ("keyset|" +:+ ?r) with ("keyset" +:+ String "|" r).
  rewrite cut_app by done. change ("|" +:+ ?r) with (String "|" r).
  rewrite cut_app by apply Hbar. rewrite bool_decide_eq_true_2 by done.
  rewrite Htime. by destruct k.
Qed.

(** ** Clients that follow the cursors

    A client asks for pages of [n] items, following the cursor of the last item
    while there is a next page; or of the first item, backwards. *)
Fixpoint pagesForward (fuel : nat) (items : list T) (n : Z) (after : string) : option (list T) :=
  match fuel with
  | 0 => None
  | S fuel =>
      let p := paginateSlice items (mkPage n after 0 "") in
      if HasNext p then
        x ← last (Items p);
        rest ← pagesForward fuel items n (EncodeKeysetCursor (getKey x));
        Some (Items p ++ rest)
      else Some (Items p)
  end.
Fixpoint pagesBackward (fuel : nat) (items : list T) (n : Z) (before : string) : option (list T) :=
  match fuel with
  | 0 => None
  | S fuel =>
      let p := paginateSlice items (mkPage 0 "" n before) in
      if HasPrevious p then
        x ← head (Items p);
        rest ← pagesBackward fuel items n (EncodeKeysetCursor (getKey x));
        Some (rest ++ Items p)
      else Some (Items p)
  end.

Lemma cursor_nonempty k : EncodeKeysetCursor k ≠ "".
Proof using Hnonempty. by apply Hnonempty. Qed.

Lemma startOf_cursor items i x :
  NoDup (getKey <$> items) → merge_sort (newer getKey) items !! i = Some x →
  startOf (merge_sort (newer getKey) items) (EncodeKeysetCursor (getKey x)) = S i.
Proof using Hb64 Htime Hbar Hnonempty.
  intros Hnd Hx. unfold startOf. rewrite bool_decide_eq_false_2 by apply cursor_nonempty.
  rewrite decode_encode_cursor. apply firstIndex_at.
  - by apply lookup_lt_Some in Hx.
  - intros j y Hy Hj. destruct (decide (j = i)) as [->|].
    + simplify_eq. rewrite compareKeyset_refl. lia.
    + pose proof (listing_strict items j i y x Hnd Hy Hx). lia.
  - intros y Hy. pose proof (listing_strict items i (S i) x y Hnd Hx Hy).
    rewrite (compareKeyset_antisym (getKey x) (getKey y)). lia.
Qed.

Lemma endOf_cursor items i x :
  NoDup (getKey <$> items) → merge_sort (newer getKey) items !! i = Some x →
  endOf (merge_sort (newer getKey) items) (EncodeKeysetCursor (getKey x)) = i.
Proof using Hb64 Htime Hbar Hnonempty.
  intros Hnd Hx. unfold endOf. rewrite bool_decide_eq_false_2 by apply cursor_nonempty.
  rewrite decode_encode_cursor. apply firstIndex_at.
  - apply lookup_lt_Some in Hx. lia.
  - intros j y Hy Hj. pose proof (listing_strict items j i y x Hnd Hy Hx). lia.
  - intros y Hy. simplify_eq. rewrite compareKeyset_refl. lia.
Qed.

(** A forward page that starts at position [i]. *)
Lemma paginate_forward items n after i :
  (0 < n)%Z → startOf (merge_sort (newer getKey) items) after = i → 
  i < length items →
  let s := merge_sort (newer getKey) items in
  paginateSlice items (mkPage n after 0 "") =
  mkResult (take (Z.to_nat n) (drop i s)) (Z.to_nat n <? length (drop i s)) (0 <? i).
Proof.
  intros Hn Hi Hlt s. unfold paginateSlice. fold s. fold s in Hi.
  assert (length s = length items) as Hlen by (apply Permutation_length, merge_sort_Permutation).
  assert (Limit (mkPage n after 0 "") = n) as ->.
  { unfold Limit; simpl. by rewrite (proj2 (Z.ltb_lt 0 n)). }
  cbn [After Before Last Z.ltb Z.compare]. rewrite Hi.
  change (endOf s "") with (length s).
  destruct s as [|a s'] eqn:Es; [simpl in *; lia|]. rewrite <- Es in *.
  rewrite (proj2 (Nat.leb_gt (length s) i)) by lia.
  rewrite take_ge by (rewrite length_drop; lia).
  case_match; [done|]. rewrite take_ge; [done|]. apply Nat.ltb_ge. done.
Qed.

(** A backward page that stops at position [i]. *)
Lemma paginate_backward items n before i :
  (0 < n)%Z → endOf (merge_sort (newer getKey) items) before = i →
  0 < i ≤ length items →
  let s := merge_sort (newer getKey) items in
  paginateSlice items (mkPage 0 "" n before) =
  mkResult (drop (i - Z.to_nat n) (take i s)) (i <? length s) (Z.to_nat n <? i).
Proof.
  intros Hn Hi Hlt s. unfold paginateSlice. fold s. fold s in Hi.
  assert (length s = length items) as Hlen by (apply Permutation_length, merge_sort_Permutation).
  assert (Limit (mkPage 0 "" n before) = n) as ->.
  { unfold Limit; simpl. by rewrite (proj2 (Z.ltb_lt 0 n)). }
  cbn [After Before Last]. rewrite Hi, (proj2 (Z.ltb_lt 0 n)) by done.
  change (startOf s "") with 0. rewrite Nat.sub_0_r, drop_0.
  destruct s as [|a s'] eqn:Es; [simpl in *; lia|]. rewrite <- Es in *.
  rewrite (proj2 (Nat.leb_gt i 0)) by lia. rewrite length_take, Nat.min_l by lia.
  case_match eqn:E; [done|]. apply Nat.ltb_ge in E.
  by replace (i - Z.to_nat n) with 0 by lia.
Qed.

Lemma pagesForward_from items n : NoDup (getKey <$> items) → (0 < n)%Z → ∀ fuel after i,
  startOf (merge_sort (newer getKey) items) after = i → i < length items →
  length items < fuel + i →
  pagesForward fuel items n after = Some (drop i (merge_sort (newer getKey) items)).
Proof using Hb64 Htime Hbar Hnonempty.
  intros Hnd Hn. induction fuel as [|fuel IH]; intros after i Hi Hlt Hf; [lia|].
  cbn [pagesForward]. cbv zeta. rewrite (paginate_forward items n after i) by done.
  cbn [HasNext Items]. set (s := merge_sort (newer getKey) items) in *.
  assert (length s = length items) as Hlen by (apply Permutation_length, merge_sort_Permutation).
  case_match eqn:E; [|apply Nat.ltb_ge in E; by rewrite take_ge].
  apply Nat.ltb_lt in E. rewrite length_drop in E.
  destruct (lookup_lt_is_Some_2 s (i + Z.to_nat n - 1)) as [x Hx]; [lia|].
  assert (last (take (Z.to_nat n) (drop i s)) = Some x) as Hl.
  { rewrite last_lookup, length_take, length_drop, Nat.min_l by lia.
    rewrite lookup_take_lt by lia. rewrite lookup_drop. rewrite <- Hx. f_equal. lia. }
  rewrite Hl. cbn [mbind option_bind].
  rewrite (IH _ (i + Z.to_nat n)); [|rewrite (startOf_cursor items (i + Z.to_nat n - 1)) by done; lia|lia..].
  cbn [mbind option_bind]. by rewrite <- drop_drop, take_drop.
Qed.

Lemma pagesBackward_from items n : NoDup (getKey <$> items) → (0 < n)%Z → ∀ fuel before i,
  endOf (merge_sort (newer getKey) items) before = i → 0 < i ≤ length items → i ≤ fuel →
  pagesBackward fuel items n before = Some (take i (merge_sort (newer getKey) items)).
Proof using Hb64 Htime Hbar Hnonempty.
  intros Hnd Hn. induction fuel as [|fuel IH]; intros before i Hi Hlt Hf; [lia|].
  cbn [pagesBackward]. cbv zeta. rewrite (paginate_backward items n before i) by done.
  cbn [HasPrevious Items]. set (s := merge_sort (newer getKey) items) in *.
  assert (length s = length items) as Hlen by (apply Permutation_length, merge_sort_Permutation).
  case_match eqn:E; [|apply Nat.ltb_ge in E; by replace (i - Z.to_nat n) with 0 by lia].
  apply Nat.ltb_lt in E.
  destruct (lookup_lt_is_Some_2 s (i - Z.to_nat n)) as [x Hx]; [lia|].
  assert (head (drop (i - Z.to_nat n) (take i s)) = Some x) as Hl.
  { rewrite head_lookup, lookup_drop, Nat.add_0_r, lookup_take_lt by lia. done. }
  rewrite Hl. cbn [mbind option_bind].
  rewrite (IH _ (i - Z.to_nat n)); [|by rewrite (endOf_cursor items (i - Z.to_nat n))|lia..].
  cbn [mbind option_bind]. f_equal.
  rewrite <- (take_drop (i - Z.to_nat n) (take i s)) at 2. f_equal.
  rewrite take_take. f_equal. lia.
Qed.

(** C19: following the cursors lists everything exactly once. For items with
    distinct keys and any page size, a client that follows next cursors, and one
    that follows previous cursors from the end, each stop after finitely many
    pages having received exactly the items, newest first, none twice and none
    left out. *)
Theorem cursors_list_everything items n :
  NoDup (getKey <$> items) → (0 < n)%Z →
  ∃ s, s ≡ₚ items ∧ Sorted (newer getKey) s ∧
  pagesForward (S (length items)) items n "" = Some s ∧
  pagesBackward (S (length items)) items n "" = Some s.
Proof using Hb64 Htime Hbar Hnonempty.
  intros Hnd Hn. exists (merge_sort (newer getKey) items).
  split_and!; [apply merge_sort_Permutation|apply Sorted_merge_sort, _| |].
  - destruct items as [|a items]; [done|].
    rewrite (pagesForward_from _ _ Hnd Hn _ _ 0); simpl; auto with lia.
  - destruct items as [|a items]; [done|].
    rewrite (pagesBackward_from _ _ Hnd Hn _ _ (length (a :: items))).
    + f_equal. apply take_ge. by rewrite merge_sort_Permutation.
    + unfold endOf. rewrite bool_decide_eq_true_2 by done. by rewrite merge_sort_Permutation.
    + simpl. lia.
    + lia.
Qed.

Lemma filter_drop_sorted (P : T → Prop) `{∀ x, Decision (P x)} s :
  (∀ x y, newer getKey x y → P x → P y) → StronglySorted (newer getKey) s →
  filter P s = drop (firstIndex P s) s.
Proof.
  intros Hcl. induction 1 as [|a s Hs IH Hall]; [done|].
  unfold firstIndex. cbn [list_find]. destruct (decide (P a)) as [Ha|Ha].
  - rewrite filter_cons_True by done. cbn [drop]. f_equal.
    rewrite Forall_forall in Hall. apply filter_all. apply Forall_forall.
    intros y Hy. by eapply Hcl; [apply Hall|].
  - rewrite filter_cons_False, IH by done. unfold firstIndex.
    by destruct (list_find P s) as [[]|].
Qed.

Lemma older_closed k x y :
  newer getKey x y → (compareKeyset (getKey x) k < 0)%Z → (compareKeyset (getKey y) k < 0)%Z.
Proof.
  unfold newer. intros H1 H2.
  destruct (decide (compareKeyset (getKey x) (getKey y) = 0%Z)) as [<-%compareKeyset_eq|]; [done|].
  pose proof (compareKeyset_antisym (getKey x) k). pose proof (compareKeyset_antisym (getKey y) k).
  pose proof (compareKeyset_trans k (getKey x) (getKey y)). lia.
Qed.

(** A cursor addresses a position, not an item. A page asked for after the
    cursor of a key [k] holds the newest of the items strictly older than [k],
    whether or not an item with that key is still there: a page boundary
    survives the deletion of the item it was taken from. *)
Theorem after_cursor_is_a_position items n k :
  (0 < n)%Z →
  Items (paginateSlice items (mkPage n (EncodeKeysetCursor k) 0 "")) =
  take (Z.to_nat n)
    (filter (λ x, (compareKeyset (getKey x) k < 0)%Z) (merge_sort (newer getKey) items)).
Proof using Hb64 Htime Hbar Hnonempty.
  intros Hn. set (s := merge_sort (newer getKey) items).
  assert (length s = length items) as Hlen by (apply Permutation_length, merge_sort_Permutation).
  assert (startOf s (EncodeKeysetCursor k) =
    firstIndex (λ x, (compareKeyset (getKey x) k < 0)%Z) s) as Hi.
  { unfold startOf. rewrite bool_decide_eq_false_2 by apply cursor_nonempty.
    by rewrite decode_encode_cursor. }
  rewrite filter_drop_sorted, <- Hi;
    [|apply older_closed|by apply StronglySorted_merge_sort; apply _].
  destruct (decide (startOf s (EncodeKeysetCursor k) < length items)).
  - by rewrite (paginate_forward items n _ (startOf s (EncodeKeysetCursor k))).
  - rewrite drop_ge, take_nil by lia. unfold paginateSlice. fold s.
    destruct s as [|a s'] eqn:Es; [done|]. rewrite <- Es in *. cbn [After Before].
    change (endOf s "") with (length s). by rewrite (proj2 (Nat.leb_le (length s) _)) by lia.
Qed.
End pagination.

(** ** Concrete pages *)

Definition exFormat (t : Z) : string := bitText (encode t).
Definition exParse (s : string) : option Z := bitRead s ≫= decode.
Lemma exParse_exFormat t : exParse (exFormat t) = Some t.
Proof. unfold exParse, exFormat. rewrite bitRead_bitText. apply decode_encode. Qed.

Definition exItems : list Key := [(5%Z, "a"); (7%Z, "b"); (5%Z, "c"); (9%Z, "d"); (1%Z, "e")].

Lemma cursors_list_everything_witness :
  ∃ s, s ≡ₚ exItems ∧ Sorted (newer id) s ∧
  pagesForward id Some exFormat exParse id 6 exItems 2 "" = Some s ∧
  pagesBackward id Some exFormat exParse id 6 exItems 2 "" = Some s.
Proof.
  apply (cursors_list_everything id Some exFormat exParse id
    (λ s, eq_refl) exParse_exFormat (λ t, bitText_chars _) (λ s H, H) exItems 2).
  - apply (bool_decide_unpack _). vm_compute. reflexivity.
  - lia.
Defined.

(** The item the cursor was taken from is gone. *)
Lemma after_cursor_is_a_position_witness :
  Items (paginateSlice Some exParse id exItems
    (mkPage 2 (EncodeKeysetCursor id exFormat (6%Z, "gone")) 0 "")) = [(5%Z, "c"); (5%Z, "a")].
Proof.
  rewrite (after_cursor_is_a_position id Some exFormat exParse id
    (λ s, eq_refl) exParse_exFormat (λ t, bitText_chars _) (λ s H, H) exItems 2 (6%Z, "gone"));
    [vm_compute; reflexivity|lia].
Defined.
