(* ===== verification/WatchJournal.v ===== *)
(** * The resource watch journal

    The journal of the in-memory backend,
    [gitstore-api/internal/datastore/memdb/namespace_watch.go]: a retained
    suffix of one totally ordered log of resource transitions, with a fenced
    lease for its writer. The log itself, from which retention only ever drops
    a prefix, is the specification readers are given. *)

From S2P Require Import Prelude.
From stdpp Require Import pretty.

(** Times and durations are counts of nanoseconds; [zeroTime] is [time.Time{}]. *)
Definition zeroTime : Z := (-62135596800 * 1000000000)%Z.

Inductive ResourceWatchEventType : Type :=
| ResourceWatchAdded | ResourceWatchModified | ResourceWatchDeleted | ResourceWatchBookmark.
#[global] Instance EventType_eq_dec : EqDecision ResourceWatchEventType.
Proof. solve_decision. Defined.
Definition typeText (t : ResourceWatchEventType) : string :=
  match t with
  | ResourceWatchAdded => "ADDED"
  | ResourceWatchModified => "MODIFIED"
  | ResourceWatchDeleted => "DELETED"
  | ResourceWatchBookmark => "BOOKMARK"
  end.

(** A nil map or payload is [None]. *)
Notation Labels := (option (gmap string string)).

Record ResourceWatchEvent : Type := mkEvent {
  ev_Epoch : string;
  ev_Sequence : Z;
  ev_Type : ResourceWatchEventType;
  ev_Kind : string;
  ev_Namespace : string;
  ev_Name : string;
  ev_Payload : option string;
  ev_SelectorLabels : Labels;
  ev_PreviousSelectorLabels : Labels;
  ev_DeduplicationKey : string;
  ev_FencingToken : Z;
  ev_At : Z;
}.
Record ResourceWatchCursor : Type := mkCursor { cu_Epoch : string; cu_Sequence : Z }.
Record ResourceWatchLease : Type := mkLease {
  le_Holder : string;
  le_FencingToken : Z;
  le_ExpiresAt : Z;
}.
Record ResourceCDCProgress : Type := mkProgress {
  pr_Source : string;
  pr_StreamID : string;
  pr_Position : string;
  pr_UpdatedAt : Z;
}.
Record ResourceWatchBounds : Type := mkBounds {
  bo_Epoch : string;
  bo_Oldest : Z;
  bo_HighWater : Z;
  bo_UpdatedAt : Z;
  bo_BookmarkAt : Z;
  bo_ProgressAt : Z;
}.

(** The journal's part of [memdbDatastore]. *)
Record Journal : Type := mkJournal {
  namespaceWatchEpoch : string;
  namespaceWatchSequence : Z;
  namespaceWatchEvents : list ResourceWatchEvent;
  namespaceWatchBookmark : Z;
  namespaceWatchLease : ResourceWatchLease;
  namespaceWatchProgress : gmap string ResourceCDCProgress;
  namespaceWatchRetention : Z;
}.

Inductive JournalError : Type :=
| ErrStaleWatchLease | ErrWatchCursorEpoch | ErrWatchRetentionExpired
| ErrNotFound | ErrInvalidArgument.

(** [New] with an optional retention, a week by default. *)
Definition newJournal (epoch : string) (watchRetention : list Z) : Journal :=
  let week := (7 * 24 * 3600 * 1000000000)%Z in
  let retention := match watchRetention with
                   | r :: _ => if (0 <? r)%Z then r else week
                   | [] => week end in
  mkJournal epoch 0 [] zeroTime (mkLease "" 0 zeroTime) ∅ retention.

Definition Bounds (j : Journal) : ResourceWatchBounds :=
  let oldest := match namespaceWatchEvents j with e :: _ => ev_Sequence e | [] => 0%Z end in
  let updatedAt := match last (namespaceWatchEvents j) with Some e => ev_At e | None => zeroTime end in
  mkBounds (namespaceWatchEpoch j) oldest (namespaceWatchSequence j) updatedAt
    (namespaceWatchBookmark j) updatedAt.

Definition validLeaseLocked (j : Journal) (lease : ResourceWatchLease) (now : Z) : bool :=
  negb (bool_decide (le_Holder lease = "")) &&
  bool_decide (le_Holder lease = le_Holder (namespaceWatchLease j)) &&
  bool_decide (le_FencingToken lease = le_FencingToken (namespaceWatchLease j)) &&
  (now <? le_ExpiresAt (namespaceWatchLease j))%Z.

(** [pruneLocked] drops the leading events that are too old. *)
Fixpoint dropOld (cutoff : Z) (events : list ResourceWatchEvent) : list ResourceWatchEvent :=
  match events with
  | e :: es => if (ev_At e <? cutoff)%Z then dropOld cutoff es else events
  | [] => []
  end.
Definition setEvents (j : Journal) (es : list ResourceWatchEvent) : Journal :=
  mkJournal (namespaceWatchEpoch j) (namespaceWatchSequence j) es (namespaceWatchBookmark j)
    (namespaceWatchLease j) (namespaceWatchProgress j) (namespaceWatchRetention j).
Definition pruneLocked (j : Journal) (cutoff : Z) : Journal :=
  setEvents j (dropOld cutoff (namespaceWatchEvents j)).

(** Advance the sequence and append the event made from its new value. *)
Definition push (j : Journal) (event : Z → ResourceWatchEvent) (bookmark : Z) : Journal :=
  let n := u64 (namespaceWatchSequence j + 1) in
  mkJournal (namespaceWatchEpoch j) n (namespaceWatchEvents j ++ [event n]) bookmark
    (namespaceWatchLease j) (namespaceWatchProgress j) (namespaceWatchRetention j).

(** [now] is read once for the lease and once more for an event without time. *)
Definition Append (j : Journal) (lease : ResourceWatchLease) (event : ResourceWatchEvent)
    (ttl now now' : Z) : Journal * result JournalError ResourceWatchEvent :=
  if negb (validLeaseLocked j lease now) then (j, Err ErrStaleWatchLease) else
  let at_ := if bool_decide (ev_At event = zeroTime) then now' else ev_At event in
  let j := pruneLocked j (at_ - ttl) in
  let stamped n := mkEvent (namespaceWatchEpoch j) n (ev_Type event) (ev_Kind event)
    (ev_Namespace event) (ev_Name event) (ev_Payload event) (ev_SelectorLabels event)
    (ev_PreviousSelectorLabels event) (ev_DeduplicationKey event) (le_FencingToken lease) at_ in
  let bookmark := if bool_decide (ev_Type event = ResourceWatchBookmark) then at_
                  else namespaceWatchBookmark j in
  let j := push j stamped bookmark in
  (j, Ok (stamped (namespaceWatchSequence j))).

(** The body the five [recordCommitted...] functions share: prune by the
    retention, then append a transition of the committed resource. *)
Definition recordCommitted (j : Journal) (now : Z) (ty : ResourceWatchEventType)
    (kind namespace name uid : string) (labels previous : Labels) (payload : option string)
  : Journal :=
  let j := pruneLocked j (now - namespaceWatchRetention j) in
  push j (λ n, mkEvent (namespaceWatchEpoch j) n ty kind namespace name payload labels previous
    ("memdb:" +:+ typeText ty +:+ ":" +:+ uid +:+ ":" +:+ pretty n) 0 now)
    (namespaceWatchBookmark j).

Definition readLimit (limit : Z) : nat :=
  if (limit <=? 0)%Z || (256 <? limit)%Z then 256 else Z.to_nat limit.

(** The loop of [ReadAfter] stops when [limit] events are collected. *)
Definition ReadAfter (j : Journal) (cursor : ResourceWatchCursor) (limit : Z)
  : result JournalError (list ResourceWatchEvent) :=
  if negb (bool_decide (cu_Epoch cursor = "")) &&
     negb (bool_decide (cu_Epoch cursor = namespaceWatchEpoch j)) then Err ErrWatchCursorEpoch else
  match namespaceWatchEvents j with
  | e :: _ => if (u64 (cu_Sequence cursor + 1) <? ev_Sequence e)%Z then Err ErrWatchRetentionExpired
              else Ok (take (readLimit limit)
                     (filter (λ e, cu_Sequence cursor < ev_Sequence e)%Z (namespaceWatchEvents j)))
  | [] => if (cu_Sequence cursor <? namespaceWatchSequence j)%Z then Err ErrWatchRetentionExpired
          else Ok []
  end.

Definition setLease (j : Journal) (l : ResourceWatchLease) : Journal :=
  mkJournal (namespaceWatchEpoch j) (namespaceWatchSequence j) (namespaceWatchEvents j)
    (namespaceWatchBookmark j) l (namespaceWatchProgress j) (namespaceWatchRetention j).

(** [None] is a refused lease ([false]). *)
Definition AcquireLease (j : Journal) (holder : string) (now ttl : Z)
  : Journal * option ResourceWatchLease :=
  let cur := namespaceWatchLease j in
  if negb (bool_decide (le_Holder cur = "")) && (now <? le_ExpiresAt cur)%Z then (j, None) else
  let l := mkLease holder (u64 (le_FencingToken cur + 1)) (now + ttl) in
  (setLease j l, Some l).

Definition RenewLease (j : Journal) (lease : ResourceWatchLease) (now ttl : Z)
  : Journal * option ResourceWatchLease :=
  if negb (validLeaseLocked j lease now) then (j, None) else
  let cur := namespaceWatchLease j in
  let l := mkLease (le_Holder cur) (le_FencingToken cur) (now + ttl) in
  (setLease j l, Some l).

Definition ReleaseLease (j : Journal) (lease : ResourceWatchLease) : Journal :=
  let cur := namespaceWatchLease j in
  if bool_decide (le_Holder lease = le_Holder cur) &&
     bool_decide (le_FencingToken lease = le_FencingToken cur)
  then setLease j (mkLease "" (le_FencingToken cur) zeroTime) else j.

Definition LoadProgress (j : Journal) (streamID : string) : result JournalError ResourceCDCProgress :=
  match namespaceWatchProgress j !! streamID with
  | Some p => Ok p
  | None => Err ErrNotFound
  end.

Definition SaveProgress (j : Journal) (lease : ResourceWatchLease) (p : ResourceCDCProgress) (now : Z)
  : Journal * option JournalError :=
  if negb (validLeaseLocked j lease now) then (j, Some ErrStaleWatchLease) else
  if bool_decide (pr_StreamID p = "") then (j, Some ErrInvalidArgument) else
  (mkJournal (namespaceWatchEpoch j) (namespaceWatchSequence j) (namespaceWatchEvents j)
     (namespaceWatchBookmark j) (namespaceWatchLease j)
     (<[pr_StreamID p := p]> (namespaceWatchProgress j)) (namespaceWatchRetention j), None).

(** ** Writers *)

(** One step of a writer; [Some e] is the event it adds to the log. *)
Inductive journalStep : Journal → option ResourceWatchEvent → Journal → Prop :=
| step_Append j lease event ttl now now' j' e :
    Append j lease event ttl now now' = (j', Ok e) → journalStep j (Some e) j'
| step_record j now ty kind ns name uid labels previous payload j' e :
    recordCommitted j now ty kind ns name uid labels previous payload = j' →
    last (namespaceWatchEvents j') = Some e → journalStep j (Some e) j'
| step_Acquire j holder now ttl :
    journalStep j None (AcquireLease j holder now ttl).1
| step_Renew j lease now ttl :
    journalStep j None (RenewLease j lease now ttl).1
| step_Release j lease :
    journalStep j None (ReleaseLease j lease)
| step_Save j lease p now :
    journalStep j None (SaveProgress j lease p now).1.

(** The retained events are the end of the log [h], numbered from one. *)
Definition logged (h : list ResourceWatchEvent) (j : Journal) : Prop :=
  namespaceWatchSequence j = Z.of_nat (length h) ∧
  (∃ k, namespaceWatchEvents j = drop k h ∧ k ≤ length h) ∧
  ∀ i e, h !! i = Some e → ev_Sequence e = Z.of_nat (S i) ∧ ev_Epoch e = namespaceWatchEpoch j.

Lemma dropOld_drop cutoff es : ∃ k, dropOld cutoff es = drop k es ∧ k ≤ length es.
Proof.
  induction es as [|e es (k & Hk & Hle)]; [by exists 0|]. simpl. case_match.
  - exists (S k). simpl. auto with lia.
  - exists 0. simpl. auto with lia.
Qed.

Lemma logged_prune h j cutoff : logged h j → logged h (pruneLocked j cutoff).
Proof.
  intros (Hs & (k & Hk & Hle) & Hn). split_and!; [done| |done]. simpl.
  destruct (dropOld_drop cutoff (namespaceWatchEvents j)) as (k' & -> & Hle').
  exists (k + k'). rewrite Hk, drop_drop. split; [done|].
  rewrite Hk, length_drop in Hle'. lia.
Qed.

Lemma logged_push h j event b :
  logged h j → (Z.of_nat (length h) < 2 ^ 64 - 1)%Z →
  (∀ n, ev_Sequence (event n) = n ∧ ev_Epoch (event n) = namespaceWatchEpoch j) →
  logged (h ++ [event (namespaceWatchSequence (push j event b))]) (push j event b).
Proof.
  intros (Hs & (k & Hk & Hle) & Hn) Hb He.
  assert (u64 (namespaceWatchSequence j + 1) = Z.of_nat (S (length h))) as Hu.
  { unfold u64. rewrite Hs, Z.mod_small; lia. }
  unfold push; cbn [namespaceWatchSequence namespaceWatchEvents namespaceWatchEpoch].
  split_and!.
  - cbn. rewrite Hu, length_app. simpl. lia.
  - exists k. cbn. rewrite Hk, length_app, drop_app_le by done. simpl. auto with lia.
  - cbn. intros i e [Hi|[? Hi]]%lookup_app_Some; [by apply Hn|].
    apply list_lookup_singleton_Some in Hi as [Hi <-]. destruct (He (u64 (namespaceWatchSequence j + 1))) as [-> ->].
    rewrite Hu. split; [f_equal; lia|done].
Qed.

Lemma logged_ext h j j' :
  logged h j → namespaceWatchSequence j' = namespaceWatchSequence j →
  namespaceWatchEvents j' = namespaceWatchEvents j →
  namespaceWatchEpoch j' = namespaceWatchEpoch j → logged h j'.
Proof. unfold logged. by intros H -> -> ->. Qed.

Lemma journalStep_logged h j o j' :
  journalStep j o j' → logged h j → (Z.of_nat (length h) < 2 ^ 64 - 1)%Z →
  logged (h ++ option_list o) j'.
Proof.
  intros Hstep Hl Hb. destruct Hstep as [? lease event ttl now now' ? e HA| ? ? ? ? ? ? ? ? ? ? ? e <- Hlast|
    ? holder now ttl|? lease now ttl|? lease|? lease p now]; cbn [option_list]; rewrite ?app_nil_r.
  - unfold Append in HA. case_match; simplify_eq. apply logged_push; [by apply logged_prune|done|done].
  - unfold recordCommitted in *. cbn in Hlast. rewrite last_snoc in Hlast. simplify_eq.
    apply (logged_push h (pruneLocked j _) (λ n, mkEvent _ n _ _ _ _ _ _ _ _ _ _));
      [by apply logged_prune|done|done].
  - unfold AcquireLease. case_match; [done|]. by apply (logged_ext h j).
  - unfold RenewLease. case_match; [done|]. by apply (logged_ext h j).
  - unfold ReleaseLease. case_match; [|done]. by apply (logged_ext h j).
  - unfold SaveProgress. case_match; [done|]. case_match; [done|]. by apply (logged_ext h j).
Qed.

(** ** Readers *)

Lemma filter_sequences (h : list ResourceWatchEvent) k c :
  (∀ i e, h !! i = Some e → ev_Sequence e = Z.of_nat (S i)) → k ≤ c →
  filter (λ e, Z.of_nat c < ev_Sequence e)%Z (drop k h) = drop c h.
Proof.
  intros Hn Hkc. replace (drop k h) with (take (c - k) (drop k h) ++ drop c h).
  2:{ replace (drop c h) with (drop (c - k) (drop k h)) by (rewrite drop_drop; f_equal; lia).
      apply take_drop. }
  rewrite filter_app, filter_none, filter_all; [done| |].
  - apply Forall_lookup. intros i e He. rewrite lookup_drop in He. apply Hn in He. lia.
  - apply Forall_lookup. intros i e [He Hi]%lookup_take_Some. rewrite lookup_drop in He.
    apply Hn in He. lia.
Qed.

(** A read is a window of the log, and is refused exactly when an event after
    the cursor is no longer retained. *)
Lemma ReadAfter_log h j epoch c limit :
  logged h j → (Z.of_nat (length h) < 2 ^ 64 - 1)%Z → (Z.of_nat c < 2 ^ 64 - 1)%Z →
  epoch = "" ∨ epoch = namespaceWatchEpoch j →
  ReadAfter j (mkCursor epoch (Z.of_nat c)) limit =
  if decide (c + length (namespaceWatchEvents j) < length h) then Err ErrWatchRetentionExpired
  else Ok (take (readLimit limit) (drop c h)).
Proof.
  intros (Hs & (k & Hk & Hle) & Hn) Hh Hc He. unfold ReadAfter. cbn [cu_Epoch cu_Sequence].
  rewrite (proj2 (andb_false_iff _ _)).
  2:{ destruct He as [->| ->]; [left|right]; by rewrite bool_decide_eq_true_2. }
  assert (∀ i e, h !! i = Some e → ev_Sequence e = Z.of_nat (S i)) as Hn' by (intros; by apply Hn).
  assert (length (namespaceWatchEvents j) = length h - k) as Hlen by (by rewrite Hk, length_drop).
  destruct (namespaceWatchEvents j) as [|e es] eqn:E.
  - cbn [length] in Hlen. cbn [length]. rewrite Hs.
    destruct (decide (c + 0 < length h)).
    + by rewrite (proj2 (Z.ltb_lt _ _)) by lia.
    + rewrite (proj2 (Z.ltb_ge _ _)) by lia. by rewrite drop_ge, take_nil by lia.
  - assert (h !! k = Some e) as Hhd.
    { rewrite <- (Nat.add_0_r k), <- lookup_drop, <- Hk. done. }
    apply lookup_lt_Some in Hhd as Hlt. apply Hn' in Hhd as ->.
    unfold u64. rewrite Z.mod_small by lia.
    destruct (decide (c + length (e :: es) < length h)).
    + by rewrite (proj2 (Z.ltb_lt _ _)) by lia.
    + rewrite (proj2 (Z.ltb_ge _ _)) by lia. rewrite Hk, filter_sequences; [done|done|lia].
Qed.

(** A journal with its log and one reader: the cursor the reader started from,
    the cursor it holds and what it was given since. *)
Record Watch : Type := mkWatch {
  w_log : list ResourceWatchEvent;
  w_journal : Journal;
  w_start : nat;
  w_cursor : nat;
  w_delivered : list ResourceWatchEvent;
}.

(** Writers, the reader and a (re)starting reader take turns in any order. A
    reader starts from a cursor of the journal, and after a read moves to the
    sequence of the last event it was given. *)
Inductive watchStep : relation Watch :=
| watch_write h j s c d o j' :
    journalStep j o j' → watchStep (mkWatch h j s c d) (mkWatch (h ++ option_list o) j' s c d)
| watch_read h j s c d limit out :
    ReadAfter j (mkCursor (namespaceWatchEpoch j) (Z.of_nat c)) limit = Ok out →
    watchStep (mkWatch h j s c d)
      (mkWatch h j s (match last out with Some e => Z.to_nat (ev_Sequence e) | None => c end)
         (d ++ out))
| watch_start h j s c d s' :
    (Z.of_nat s' ≤ bo_HighWater (Bounds j))%Z →
    watchStep (mkWatch h j s c d) (mkWatch h j s' s' []).

Definition watchInv (w : Watch) : Prop :=
  logged (w_log w) (w_journal w) ∧
  w_start w ≤ w_cursor w ≤ length (w_log w) ∧
  w_delivered w = take (w_cursor w - w_start w) (drop (w_start w) (w_log w)).

Lemma watchStep_grows w w' : watchStep w w' → length (w_log w) ≤ length (w_log w').
Proof. intros []; simpl; rewrite ?length_app; lia. Qed.

Lemma take_app_drop {A} n m (l : list A) : take n l ++ take m (drop n l) = take (n + m) l.
Proof.
  rewrite <- (take_drop n (take (n + m) l)). f_equal.
  - by rewrite take_take, Nat.min_l by lia.
  - rewrite skipn_firstn_comm. f_equal. lia.
Qed.

Lemma watchStep_inv w w' :
  watchStep w w' → (Z.of_nat (length (w_log w')) < 2 ^ 64 - 1)%Z → watchInv w → watchInv w'.
Proof.
  intros Hstep Hb (Hl & Hc & Hd).
  destruct Hstep as [h j s c d o j' Hw|h j s c d limit out HR|h j s c d s' Hs];
    unfold watchInv in *; simpl in *.
  - rewrite length_app in *. split_and!; [|lia..|].
    + apply (journalStep_logged _ _ _ _ Hw); [done|lia].
    + rewrite Hd, drop_app_le by lia. rewrite take_app_le; [done|]. rewrite length_drop. lia.
  - rewrite (ReadAfter_log h) in HR by (auto with lia). case_decide; [done|]. simplify_eq.
    set (out := take (readLimit limit) (drop c h)).
    assert (match last out with Some e => Z.to_nat (ev_Sequence e) | None => c end =
      c + length out) as ->.
    { destruct Hl as (_ & _ & Hn). rewrite last_lookup.
      destruct (decide (length out = 0)) as [E|E].
      { rewrite E. apply nil_length_inv in E. rewrite E. simpl. lia. }
      destruct (lookup_lt_is_Some_2 out (pred (length out))) as [e He]; [lia|]. rewrite He.
      unfold out in He. apply lookup_take_Some in He as [He _]. rewrite lookup_drop in He.
      apply Hn in He as [-> _]. fold out. lia. }
    assert (length out ≤ length h - c) as Hlo.
    { unfold out. rewrite length_take, length_drop. lia. }
    split_and!; [done|lia..|].
    replace (c + length out - s) with ((c - s) + length out) by lia.
    rewrite <- take_app_drop. f_equal. rewrite drop_drop.
    replace (s + (c - s)) with c by lia.
    unfold out. rewrite length_take.
    destruct (Nat.min_spec (readLimit limit) (length (drop c h))) as [[_ ->]|[? ->]]; [done|].
    by rewrite firstn_all, take_ge.
  - destruct Hl as (Hseq & ? & ?). split_and!; [done|lia|lia|].
    by rewrite Nat.sub_diag, take_0.
Qed.

Lemma watch_reachable_inv w w' :
  rtc watchStep w w' → (Z.of_nat (length (w_log w')) < 2 ^ 64 - 1)%Z → watchInv w →
  watchInv w' ∧ length (w_log w) ≤ length (w_log w').
Proof.
  induction 1 as [w|w w1 w2 Hs Hr IH]; intros Hb Hi; [done|].
  assert (length (w_log w) ≤ length (w_log w1)) by (by apply watchStep_grows).
  assert (length (w_log w1) ≤ length (w_log w2)).
  { clear -Hr. induction Hr as [|x y z H1 H2 IH]; [done|]. apply watchStep_grows in H1. lia. }
  destruct IH; [done|eapply watchStep_inv; [done|lia|done]|]. split; [done|lia].
Qed.

(** Watching never skips, repeats or reorders. In every interleaving of
    committed writes, fenced appends, lease changes, retention and reads, a
    reader that follows its cursor has been given exactly the transitions of the
    log between the cursor it started from and the one it holds, in order; and
    the next read is refused precisely when one of the transitions it still
    needs is no longer retained. *)
Theorem watch_gapless epoch retention h j s c d limit :
  rtc watchStep (mkWatch [] (newJournal epoch retention) 0 0 []) (mkWatch h j s c d) →
  (Z.of_nat (length h) < 2 ^ 64 - 1)%Z →
  d = take (c - s) (drop s h) ∧ length d = c - s ∧
  (ReadAfter j (mkCursor (namespaceWatchEpoch j) (Z.of_nat c)) limit = Err ErrWatchRetentionExpired ↔
   ∃ i e, c ≤ i ∧ h !! i = Some e ∧ e ∉ namespaceWatchEvents j).
Proof.
  intros Hr Hb. apply watch_reachable_inv in Hr as [(Hl & Hc & Hd) _]; simpl in *; [|done|].
  2:{ split_and!; simpl; [|lia|lia|done]. split_and!; simpl; [done|by exists 0|by intros []]. }
  split_and!; [done|rewrite Hd, length_take, length_drop; lia|].
  rewrite (ReadAfter_log h) by (auto with lia).
  destruct Hl as (_ & (k & Hk & Hle) & Hn).
  assert (∀ i e, h !! i = Some e → e ∈ namespaceWatchEvents j ↔ k ≤ i) as Hin.
  { intros i e Hi. rewrite Hk. split.
    - intros (i' & Hi')%list_elem_of_lookup. rewrite lookup_drop in Hi'.
      destruct (Hn _ _ Hi) as [E1 _], (Hn _ _ Hi') as [E2 _]. lia.
    - intros Hki. apply list_elem_of_lookup. exists (i - k). rewrite lookup_drop.
      by replace (k + (i - k)) with i by lia. }
  rewrite Hk in Hin |- *. rewrite length_drop. case_decide as Hd'; split; try done.
  - intros _. destruct (lookup_lt_is_Some_2 h c) as [e He]; [lia|].
    exists c, e. rewrite (Hin _ _ He). split_and!; [done|done|lia].
  - intros (i & e & Hci & Hi & Hnin). rewrite (Hin _ _ Hi) in Hnin. lia.
Qed.

(** ** Fencing *)

(** The token of the current lease grows with every grant. *)
Lemma journalStep_token j o j' :
  journalStep j o j' →
  le_FencingToken (namespaceWatchLease j') = le_FencingToken (namespaceWatchLease j) ∨
  le_FencingToken (namespaceWatchLease j') = u64 (le_FencingToken (namespaceWatchLease j) + 1).
Proof.
  destruct 1 as [????? ??? HA|??????????? ? <- _|? holder now ttl|? lease now ttl|? lease|? lease p now].
  - left. unfold Append in HA. case_match; by simplify_eq.
  - by left.
  - unfold AcquireLease. case_match; [by left|by right].
  - left. unfold RenewLease. by case_match.
  - left. unfold ReleaseLease. by case_match.
  - left. unfold SaveProgress. by repeat case_match.
Qed.

Definition anyStep (j j' : Journal) : Prop := ∃ o, journalStep j o j'.

Lemma token_bounded n : ∀ j j', nsteps anyStep n j j' →
  (0 ≤ le_FencingToken (namespaceWatchLease j))%Z →
  (le_FencingToken (namespaceWatchLease j) + Z.of_nat n < 2 ^ 64)%Z →
  (le_FencingToken (namespaceWatchLease j) ≤ le_FencingToken (namespaceWatchLease j') ≤
   le_FencingToken (namespaceWatchLease j) + Z.of_nat n)%Z.
Proof.
  induction n as [|n IH]; intros j j' Hs H0 Hb; inversion Hs as [|? ? j1 ? [o Ho] Hr]; subst; [lia|].
  assert (le_FencingToken (namespaceWatchLease j1) = le_FencingToken (namespaceWatchLease j) ∨
    le_FencingToken (namespaceWatchLease j1) = le_FencingToken (namespaceWatchLease j) + 1)%Z as Hj1.
  { destruct (journalStep_token _ _ _ Ho) as [?|E]; [by left|right]. rewrite E.
    unfold u64. rewrite Z.mod_small; lia. }
  destruct (IH _ _ Hr); lia.
Qed.

(** a lost lease is fenced off. Once a second holder has been granted the
    lease, the token of the first is smaller, and in every state the journal
    can reach from there (in fewer than 2^64 steps), at whatever clock reading,
    the first holder can neither append, save progress nor renew: each attempt
    is refused and leaves the journal as it was. *)
Theorem stale_lease_fenced j0 holder now ttl l1 j1 n1 j2 holder' now' ttl' l2 j3 n2 j :
  AcquireLease j0 holder now ttl = (j1, Some l1) → nsteps anyStep n1 j1 j2 →
  AcquireLease j2 holder' now' ttl' = (j3, Some l2) → nsteps anyStep n2 j3 j →
  (0 ≤ le_FencingToken (namespaceWatchLease j0))%Z →
  (le_FencingToken (namespaceWatchLease j0) + Z.of_nat (n1 + n2 + 2) < 2 ^ 64)%Z →
  (le_FencingToken l1 < le_FencingToken l2)%Z ∧
  ∀ event ttl t t' p,
    Append j l1 event ttl t t' = (j, Err ErrStaleWatchLease) ∧
    SaveProgress j l1 p t = (j, Some ErrStaleWatchLease) ∧
    RenewLease j l1 t ttl = (j, None).
Proof.
  intros HA1 Hr1 HA2 Hr2 H0 Hb. unfold AcquireLease in *.
  repeat case_match; simplify_eq/=. unfold u64 in *.
  rewrite (Z.mod_small (le_FencingToken (namespaceWatchLease j0) + 1)) in * by lia.
  apply token_bounded in Hr1; simpl in *; [|lia..].
  rewrite Z.mod_small in * by lia.
  apply token_bounded in Hr2; simpl in *; [|lia..]. split; [lia|].
  intros event ttl1 t t' p.
  assert (∀ t, validLeaseLocked j
    (mkLease holder (le_FencingToken (namespaceWatchLease j0) + 1) (now + ttl)) t = false) as Hv.
  { intros t1. unfold validLeaseLocked. simpl.
    rewrite (bool_decide_eq_false_2 (_ = le_FencingToken _)) by lia. by rewrite andb_false_r. }
  unfold Append, SaveProgress, RenewLease. by rewrite Hv.
Qed.

(** ** A concrete journal *)

Definition exJournal : Journal := newJournal "epoch" [10%Z].
Definition exRecord (j : Journal) (now : Z) : Journal :=
  recordCommitted j now ResourceWatchAdded "Product" "shop" "mug" "u1" None None None.
Definition exEvent (n now : Z) : ResourceWatchEvent :=
  mkEvent "epoch" n ResourceWatchAdded "Product" "shop" "mug" None None None
    ("memdb:ADDED:u1:" +:+ pretty n) 0 now.

(** Two writes, a read that gives both, and a later write that drops them. *)
Lemma exWatch_reachable :
  rtc watchStep (mkWatch [] exJournal 0 0 [])
    (mkWatch [exEvent 1 1; exEvent 2 2; exEvent 3 50]
       (exRecord (exRecord (exRecord exJournal 1) 2) 50) 0 2 [exEvent 1 1; exEvent 2 2]).
Proof.
  eapply rtc_l.
  { apply (watch_write [] exJournal 0 0 [] (Some (exEvent 1 1)) (exRecord exJournal 1)).
    by eapply step_record. }
  eapply rtc_l.
  { apply (watch_write _ _ 0 0 [] (Some (exEvent 2 2)) (exRecord (exRecord exJournal 1) 2)).
    by eapply step_record. }
  eapply rtc_l.
  { apply (watch_read _ _ 0 0 [] 0 [exEvent 1 1; exEvent 2 2]). reflexivity. }
  eapply rtc_l; [|reflexivity].
  apply (watch_write [exEvent 1 1; exEvent 2 2] (exRecord (exRecord exJournal 1) 2) 0 2
    [exEvent 1 1; exEvent 2 2] (Some (exEvent 3 50))).
  by eapply step_record.
Qed.

Lemma watch_gapless_witness :
  [exEvent 1 1; exEvent 2 2] = take 2 [exEvent 1 1; exEvent 2 2; exEvent 3 50] ∧
  ReadAfter (exRecord (exRecord (exRecord exJournal 1) 2) 50) (mkCursor "epoch" 2) 0 =
    Ok [exEvent 3 50].
Proof.
  pose proof (watch_gapless "epoch" [10%Z] _ _ _ _ _ 0 exWatch_reachable) as H.
  destruct H as [H _]; [simpl; lia|]. split; [exact H|reflexivity].
Defined.

Definition exLease1 : ResourceWatchLease := mkLease "a" 1 105.
Definition exLease2 : ResourceWatchLease := mkLease "b" 2 205.

Lemma stale_lease_fenced_witness :
  AcquireLease exJournal "a" 100 5 = (setLease exJournal exLease1, Some exLease1) ∧
  AcquireLease (setLease exJournal exLease1) "b" 200 5 =
    (setLease exJournal exLease2, Some exLease2) ∧
  RenewLease (setLease exJournal exLease2) exLease1 101 5 = (setLease exJournal exLease2, None).
Proof.
  split; [reflexivity|]. split; [reflexivity|].
  destruct (stale_lease_fenced exJournal "a" 100 5 exLease1 (setLease exJournal exLease1) 0
    (setLease exJournal exLease1) "b" 200 5 exLease2 (setLease exJournal exLease2) 0
    (setLease exJournal exLease2)) as [_ H];
    [reflexivity|apply nsteps_O|reflexivity|apply nsteps_O|simpl; lia|simpl; lia|].
  apply (H (exEvent 1 1) 5%Z 101%Z 0%Z (mkProgress "" "" "" 0)).
Defined.
