(* ===== verification/WatchCursor.v ===== *)
(** * Cursors and terminal errors of resource watches

    [gitstore-api/internal/watchjournal/journal.go] and [errors.go]: the opaque
    text of a journal position, and the errors that end a watch. The epoch of a
    journal is a UUID; [github.com/google/uuid] is a parameter. *)

From S2P Require Import Prelude WatchJournal.
From Stdlib Require Import Ascii.

(** ** Errors *)

Inductive Reason : Type :=
| ReasonRetentionExpired | ReasonEpochMismatch | ReasonIncompatibleCursor | ReasonInvalidCursor
| ReasonReplayLimit | ReasonSubscriberOverflow | ReasonJournalDiscontinuity | ReasonMaterializerNotReady.
Inductive Code : Type := CodeExpired | CodeUnavailable.

(** The errors a watch meets: those of the context, of the journal, texts,
    [fmt.Errorf] with a [%w] verb, and [TerminalError] with its cause. *)
Inductive WatchError : Type :=
| ECanceled
| EDeadlineExceeded
| EIncompatibleCursor
| EJournal (e : JournalError)
| EText (msg : string)
| EWrapped (msg : string) (cause : WatchError)
| ETerminal (code : Code) (reason : Reason) (cause : WatchError).

(** [errors.Is] at the errors of the context, and at an error of the journal. *)
Fixpoint isContext (e : WatchError) : bool :=
  match e with
  | ECanceled | EDeadlineExceeded => true
  | EWrapped _ c | ETerminal _ _ c => isContext c
  | _ => false
  end.
#[global] Instance JournalError_eq_dec : EqDecision JournalError.
Proof. solve_decision. Defined.
Fixpoint isJournal (target : JournalError) (e : WatchError) : bool :=
  match e with
  | EJournal e => bool_decide (e = target)
  | EWrapped _ c | ETerminal _ _ c => isJournal target c
  | _ => false
  end.
Fixpoint isIncompatible (e : WatchError) : bool :=
  match e with
  | EIncompatibleCursor => true
  | EWrapped _ c | ETerminal _ _ c => isIncompatible c
  | _ => false
  end.
Fixpoint AsTerminal (e : WatchError) : option (Code * Reason) :=
  match e with
  | ETerminal code reason _ => Some (code, reason)
  | EWrapped _ c => AsTerminal c
  | _ => None
  end.
Definition expired (reason : Reason) (cause : WatchError) : WatchError := ETerminal CodeExpired reason cause.
Definition unavailable (cause : WatchError) : WatchError := ETerminal CodeUnavailable ReasonMaterializerNotReady cause.
Definition cursorError (reason : Reason) (detail : string) : WatchError := expired reason (EText detail).

(** ** Numbers in base 36 *)

Definition digit36 (d : Z) : Ascii.ascii :=
  Ascii.ascii_of_nat (Z.to_nat (if (d <? 10)%Z then 48 + d else 87 + d)).
(** [strconv.FormatUint(n, 36)]; 13 digits are enough below 2^64. *)
Fixpoint format36 (fuel : nat) (n : Z) (acc : string) : string :=
  match fuel with
  | 0 => acc
  | S fuel => let acc := String (digit36 (n mod 36)) acc in
              if (n <? 36)%Z then acc else format36 fuel (n / 36) acc
  end.
Definition FormatUint36 (n : Z) : string := format36 13 n "".
(** [strconv.ParseUint(s, 36, 64)]. *)
Definition value36 (c : Ascii.ascii) : option Z :=
  let n := Z.of_nat (Ascii.nat_of_ascii c) in
  if (48 <=? n)%Z && (n <=? 57)%Z then Some (n - 48)%Z
  else if (97 <=? n)%Z && (n <=? 122)%Z then Some (n - 87)%Z
  else if (65 <=? n)%Z && (n <=? 90)%Z then Some (n - 55)%Z
  else None.
Fixpoint parse36 (n : Z) (s : string) : option Z :=
  match s with
  | EmptyString => Some n
  | String c s =>
      d ← value36 c;
      if (2 ^ 64 <=? n * 36 + d)%Z then None else parse36 (n * 36 + d)%Z s
  end.
Definition ParseUint36 (s : string) : option Z := if bool_decide (s = "") then None else parse36 0 s.

(** ** Cursors *)

Definition CursorVersion : string := "rwv1".
Definition BootstrapCursor : string := "__resource_watch_bootstrap__".
Definition colon : Ascii.ascii := ":"%char.

Definition EncodeCursor (epoch : string) (sequence : Z) : string :=
  CursorVersion +:+ String colon (epoch +:+ String colon (FormatUint36 sequence)).

(** [strings.Split(raw, ":")]. *)
Fixpoint splitColon (s : string) : list string :=
  match s with
  | EmptyString => [""]
  | String c s =>
      if bool_decide (c = colon) then "" :: splitColon s
      else match splitColon s with
           | part :: parts => String c part :: parts
           | [] => [String c ""]
           end
  end.
Definition hasMinus (s : string) : bool :=
  match s with String c _ => bool_decide (c = "-"%char) | EmptyString => false end.

Section cursors.
Variable uuidValid : string → bool. (* [uuid.Parse] succeeds *)

Definition ParseCursor (raw : string) : result WatchError ResourceWatchCursor :=
  match splitColon raw with
  | [version; epoch; sequence] =>
      if negb (bool_decide (version = CursorVersion)) then Err (EWrapped ("version " +:+ version) EIncompatibleCursor) else
      if negb (uuidValid epoch) then Err (EText "invalid resource watch cursor epoch") else
      if bool_decide (sequence = "") || hasMinus sequence then Err (EText "invalid resource watch cursor sequence") else
      match ParseUint36 sequence with
      | None => Err (EText "invalid resource watch cursor sequence")
      | Some n => Ok (mkCursor epoch n)
      end
  | _ => Err (EText "invalid resource watch cursor")
  end.
Definition After (c other : ResourceWatchCursor) : bool :=
  bool_decide (cu_Epoch c = cu_Epoch other) && (cu_Sequence other <? cu_Sequence c)%Z.
End cursors.

(** ** Round trips *)

Lemma value36_digit36 d : (0 ≤ d < 36)%Z → value36 (digit36 d) = Some d.
Proof.
  intros Hd. unfold value36, digit36.
  assert (Ascii.nat_of_ascii (Ascii.ascii_of_nat (Z.to_nat (if (d <? 10)%Z then 48 + d else 87 + d))) =
    Z.to_nat (if (d <? 10)%Z then 48 + d else 87 + d)) as ->.
  { apply Ascii.nat_ascii_embedding. case_match; lia. }
  destruct (Z.ltb_spec d 10).
  - rewrite Z2Nat.id by lia. destruct (Z.leb_spec 48 (48 + d)), (Z.leb_spec (48 + d) 57); try lia.
    simpl. f_equal. lia.
  - rewrite Z2Nat.id by lia. destruct (Z.leb_spec 48 (87 + d)), (Z.leb_spec (87 + d) 57); try lia. simpl.
    destruct (Z.leb_spec 97 (87 + d)), (Z.leb_spec (87 + d) 122); try lia. simpl. f_equal. lia.
Qed.

(** Reading the digits of [n] put before [acc] gives [n]. *)
Lemma parse36_format36 fuel n acc :
  (0 ≤ n < 36 ^ Z.of_nat fuel)%Z → (n < 2 ^ 64)%Z → parse36 0 (format36 fuel n acc) = parse36 n acc.
Proof.
  revert n acc. induction fuel as [|fuel IH]; intros n acc Hn Hb; [simpl in Hn; f_equal; lia|]. cbn [format36].
  assert (∀ m, m * 36 + n mod 36 = n → parse36 m (String (digit36 (n mod 36)) acc) = parse36 n acc)%Z as Hstep.
  { intros m Hm. cbn [parse36]. rewrite value36_digit36 by (apply Z.mod_pos_bound; lia). simpl. rewrite Hm.
    by rewrite (proj2 (Z.leb_gt _ _)). }
  destruct (Z.ltb_spec n 36).
  - apply Hstep. rewrite Z.mod_small; lia.
  - rewrite IH; [apply Hstep; pose proof (Z.div_mod n 36); lia| |].
    + split; [apply Z.div_pos; lia|]. apply Z.div_lt_upper_bound; [lia|].
      rewrite Nat2Z.inj_succ, Z.pow_succ_r in Hn by lia. lia.
    + apply Z.div_lt_upper_bound; lia.
Qed.
Lemma format36_chars fuel n acc c :
  (0 ≤ n)%Z → (∀ d, (0 ≤ d < 36)%Z → c ≠ digit36 d) → hasChar c acc = false → hasChar c (format36 fuel n acc) = false.
Proof.
  intros Hn Hc. revert n acc Hn. induction fuel as [|fuel IH]; intros n acc Hn Ha; [done|]. cbn [format36].
  assert (hasChar c (String (digit36 (n mod 36)) acc) = false) as Hx.
  { simpl. rewrite Ha, bool_decide_eq_false_2; [done|]. intros E. apply (Hc (n mod 36)%Z); [|done].
    apply Z.mod_pos_bound. lia. }
  case_match; [done|]. apply IH; [|done]. apply Z.div_pos; lia.
Qed.
Lemma format36_cons fuel n acc : ∃ c s, format36 (S fuel) n acc = String c s.
Proof.
  revert n acc. induction fuel as [|fuel IH]; intros n acc; [|rewrite <- (Nat.add_0_r (S fuel))].
  - cbn [format36]. case_match; eauto.
  - rewrite Nat.add_0_r. change (format36 (S (S fuel)) n acc) with
      (if (n <? 36)%Z then String (digit36 (n mod 36)) acc else format36 (S fuel) (n / 36) (String (digit36 (n mod 36)) acc)).
    case_match; eauto.
Qed.
Lemma digit36_not (c : Ascii.ascii) : value36 c = None → ∀ d, (0 ≤ d < 36)%Z → c ≠ digit36 d.
Proof. intros Hc d Hd ->. by rewrite value36_digit36 in Hc. Qed.

Lemma splitColon_plain s : hasChar colon s = false → splitColon s = [s].
Proof.
  induction s as [|c s IH]; [done|]. intros [Hc Hs]%orb_false_iff. cbn [splitColon]. by rewrite Hc, (IH Hs).
Qed.
Lemma splitColon_app a b : hasChar colon a = false → splitColon (a +:+ String colon b) = a :: splitColon b.
Proof.
  induction a as [|c a IH]; intros Ha.
  - change ("" +:+ String colon b) with (String colon b). cbn [splitColon]. by rewrite bool_decide_eq_true_2.
  - apply orb_false_iff in Ha as [Hc Ha]. rewrite str_app_cons. cbn [splitColon]. by rewrite Hc, (IH Ha).
Qed.

(** A cursor read back is the position it was made from. *)
Theorem ParseCursor_EncodeCursor uuidValid epoch n :
  uuidValid epoch = true → hasChar colon epoch = false → (0 ≤ n < 2 ^ 64)%Z →
  ParseCursor uuidValid (EncodeCursor epoch n) = Ok (mkCursor epoch n).
Proof.
  intros Hu He Hn.
  assert (hasChar colon (FormatUint36 n) = false) as Hc.
  { apply format36_chars; [lia|by apply digit36_not|done]. }
  assert (hasChar "-" (FormatUint36 n) = false) as Hm.
  { apply format36_chars; [lia|by apply digit36_not|done]. }
  unfold ParseCursor, EncodeCursor. rewrite splitColon_app by done. rewrite splitColon_app by done.
  rewrite splitColon_plain by done. cbv beta iota. rewrite bool_decide_eq_true_2 by done. simpl negb. rewrite Hu. simpl negb.
  unfold ParseUint36. destruct (format36_cons 12 n "") as (c & s & E). fold (FormatUint36 n) in E.
  assert (parse36 0 (FormatUint36 n) = Some n) as Hp.
  { unfold FormatUint36. rewrite parse36_format36; [done| |lia]. split; [lia|]. transitivity (2 ^ 64)%Z; [lia|done]. }
  rewrite E in *. rewrite bool_decide_eq_false_2 by done. simpl in Hm. apply orb_false_iff in Hm as [Hm _].
  simpl hasMinus. rewrite Hm. simpl orb. cbn iota. by rewrite Hp.
Qed.
Lemma ParseCursor_range uuidValid raw c :
  ParseCursor uuidValid raw = Ok c → (0 ≤ cu_Sequence c < 2 ^ 64)%Z ∧ uuidValid (cu_Epoch c) = true.
Proof.
  assert (∀ s m n, (0 ≤ m < 2 ^ 64)%Z → parse36 m s = Some n → (0 ≤ n < 2 ^ 64)%Z) as Hp.
  { induction s as [|c' s IH]; intros m n Hm; cbn [parse36]; [by intros [= <-]|].
    destruct (value36 c') as [d|] eqn:Ed; [|done]. simpl. destruct (Z.leb_spec (2 ^ 64) (m * 36 + d)); [done|].
    apply IH. split; [|lia]. unfold value36 in Ed. repeat case_match; simplify_eq; lia. }
  unfold ParseCursor. destruct (splitColon raw) as [|a [|b [|d []]]]; try done.
  case_match; [done|]. destruct (uuidValid b) eqn:Hu; [|done]. simpl. case_match; [done|].
  unfold ParseUint36. case_bool_decide; [done|]. destruct (parse36 0 d) eqn:E; [|done].
  intros [= <-]. simpl. split; [|done]. by apply (Hp d 0%Z).
Qed.
