(* ===== verification/Subscriber.v ===== *)
(** * Subscribers of the watch journal

    [gitstore-api/internal/watchjournal/subscriber.go] and
    [subscriber_tailer.go]: every watch of a server follows the journal through
    one shared poller. A watch first replays from the durable journal, then
    drains the ring of recent events the poller fills, and goes back to the
    journal when it fell behind the ring. *)

From S2P Require Import Prelude WatchJournal WatchCursor.

(** ** The journal, seen by its readers

    [datastore.ResourceWatchJournal]; calls may fail in ways only the store
    knows, so its answers are relations. *)
Class WatchStore (J : Type) : Type := {
  ws_Bounds : J → result WatchError ResourceWatchBounds → Prop;
  ws_ReadAfter : J → ResourceWatchCursor → Z → result WatchError (list ResourceWatchEvent) → Prop;
  (** a write, with the events it adds to the log *)
  ws_write : J → list ResourceWatchEvent → J → Prop;
}.

(** The sequence numbers of a log fit [uint64]. *)
Definition small (h : list ResourceWatchEvent) : Prop := (Z.of_nat (length h) < 2 ^ 64 - 1)%Z.

(** What readers rely on: there is one log, numbered from one, which only
    grows; a read shows events of the log, and shows none only at its end. *)
Class WatchStoreLaws (J : Type) `{!WatchStore J} : Type := {
  ws_logged : list ResourceWatchEvent → J → Prop;
  ws_numbered h j i e : ws_logged h j → h !! i = Some e → ev_Sequence e = Z.of_nat (S i);
  ws_logged_write h j es j' : ws_logged h j → ws_write j es j' → small (h ++ es) → ws_logged (h ++ es) j';
  ws_bounds_range h j b : ws_logged h j → small h → ws_Bounds j (Ok b) → (0 ≤ bo_HighWater b < 2 ^ 64)%Z;
  ws_read_logged h j c n out : ws_logged h j → small h → ws_ReadAfter j c n (Ok out) → Forall (λ e, e ∈ h) out;
  ws_read_end h j c n : ws_logged h j → ws_ReadAfter j c n (Ok []) → (Z.of_nat (length h) ≤ cu_Sequence c)%Z;
}.

(** ** Configuration *)

Record SubscriberConfig : Type := mkSubscriberConfig {
  ReadBatchSize : Z;
  MaxReplayEvents : Z;
  BufferSize : Z;
  PollMin : Z;
  PollMax : Z;
  MaxMaterializerLag : Z;
  BackpressureTimeout : Z;
}.
Definition DefaultReadBatchSize : Z := 256.
Definition DefaultMaxReplay : Z := 100000.
Definition DefaultBufferSize : Z := 64.
(** [NewSubscriber]. *)
Definition normalizeConfig (c : SubscriberConfig) : SubscriberConfig :=
  let pollMin := if (PollMin c <=? 0)%Z then (100 * 1000000)%Z else PollMin c in
  mkSubscriberConfig
    (if (ReadBatchSize c <=? 0)%Z || (DefaultReadBatchSize <? ReadBatchSize c)%Z then DefaultReadBatchSize
     else ReadBatchSize c)
    (if (MaxReplayEvents c <=? 0)%Z then DefaultMaxReplay else MaxReplayEvents c)
    (if (BufferSize c <=? 0)%Z then DefaultBufferSize else BufferSize c)
    pollMin
    (if (PollMax c <? pollMin)%Z then (2 * 1000000000)%Z else PollMax c)
    (MaxMaterializerLag c)
    (if (BackpressureTimeout c <=? 0)%Z then (30 * 1000000000)%Z else BackpressureTimeout c).

(** ** The shared poller *)

(** [journalTailer] and [liveSubscriber]; a pointer to one is the number it is
    stored under. [ls_ready] and [ls_errors] are channels of capacity one. *)
Record journalTailer : Type := mkTailer {
  t_cursor : ResourceWatchCursor;
  t_ring : list ResourceWatchEvent;
  t_subscribers : gset nat;
  t_cancelled : bool;
}.
Record liveSubscriber : Type := mkLive {
  ls_tailer : nat;
  ls_ready : bool;
  ls_errors : option WatchError;
}.
Record Subscriber : Type := mkSubscriber {
  s_live : option nat;
  s_tailers : gmap nat journalTailer;
  s_subs : gmap nat liveSubscriber;
}.
Definition newTailer (c : ResourceWatchCursor) : journalTailer := mkTailer c [] ∅ false.
Definition tailerOf (s : Subscriber) (t : nat) : journalTailer :=
  default (newTailer (mkCursor "" 0)) (s_tailers s !! t).
Definition setTailer (s : Subscriber) (t : nat) (tl : journalTailer) : Subscriber :=
  mkSubscriber (s_live s) (<[t := tl]> (s_tailers s)) (s_subs s).
Definition setSub (s : Subscriber) (id : nat) (l : liveSubscriber) : Subscriber :=
  mkSubscriber (s_live s) (s_tailers s) (<[id := l]> (s_subs s)).
Definition setSubscribers (tl : journalTailer) (x : gset nat) : journalTailer :=
  mkTailer (t_cursor tl) (t_ring tl) x (t_cancelled tl).
Definition cancel (tl : journalTailer) : journalTailer :=
  mkTailer (t_cursor tl) (t_ring tl) (t_subscribers tl) true.

Section operations.
Variable cfg : SubscriberConfig.

Definition lagging (b : ResourceWatchBounds) (now : Z) : bool :=
  (0 <? MaxMaterializerLag cfg)%Z &&
  (bool_decide (bo_ProgressAt b = zeroTime) || (MaxMaterializerLag cfg <? now - bo_ProgressAt b)%Z).

(** [registerLive], with the numbers of the tailer it may create and of the
    live subscriber; the answer is where the replay ends. *)
Definition joinTailer (s : Subscriber) (t id : nat) (cursor : ResourceWatchCursor) (b : ResourceWatchBounds)
  : result WatchError Z * Subscriber :=
  let tl := tailerOf s t in
  let highWater := Z.max (bo_HighWater b) (cu_Sequence (t_cursor tl)) in
  if (MaxReplayEvents cfg <? u64 (highWater - cu_Sequence cursor))%Z
  then (Err (cursorError ReasonReplayLimit "resume exceeds replay limit"), s) else
  (Ok highWater, setSub (setTailer s t (setSubscribers tl ({[id]} ∪ t_subscribers tl))) id (mkLive t false None)).
Definition registerLive (s : Subscriber) (fresh id : nat) (cursor : ResourceWatchCursor) (b : ResourceWatchBounds)
  : result WatchError Z * Subscriber :=
  match s_live s with
  | Some t =>
      if negb (bool_decide (cu_Epoch (t_cursor (tailerOf s t)) = bo_Epoch b))
      then (Err (cursorError ReasonEpochMismatch "journal epoch changed"), s)
      else joinTailer s t id cursor b
  | None =>
      let tl := newTailer (mkCursor (bo_Epoch b) (bo_HighWater b)) in
      joinTailer (mkSubscriber (Some fresh) (<[fresh := tl]> (s_tailers s)) (s_subs s)) fresh id cursor b
  end.

Definition unregisterLive (s : Subscriber) (id : nat) : Subscriber :=
  match s_subs s !! id with
  | None => s
  | Some l =>
      let t := ls_tailer l in
      let tl := setSubscribers (tailerOf s t) (t_subscribers (tailerOf s t) ∖ {[id]}) in
      if bool_decide (s_live s = Some t) && bool_decide (t_subscribers tl = ∅)
      then mkSubscriber None (<[t := cancel tl]> (s_tailers s)) (s_subs s)
      else setTailer s t tl
  end.

Definition liveRingSize : nat := Z.to_nat (Z.max 1 (Z.max (ReadBatchSize cfg * 2) (BufferSize cfg))).

(** Wake-ups are sent without blocking: a channel that holds one keeps it. *)
Definition wakeAll (x : gset nat) (subs : gmap nat liveSubscriber) : gmap nat liveSubscriber :=
  map_imap (λ id l, Some (if bool_decide (id ∈ x) then mkLive (ls_tailer l) true (ls_errors l) else l)) subs.
Definition publishOne (s : Subscriber) (t : nat) (e : ResourceWatchEvent) : Subscriber :=
  let tl := tailerOf s t in
  let ring := t_ring tl ++ [e] in
  let tl := mkTailer (mkCursor (cu_Epoch (t_cursor tl)) (ev_Sequence e)) (drop (length ring - liveRingSize) ring)
              (t_subscribers tl) (t_cancelled tl) in
  mkSubscriber (s_live s) (<[t := tl]> (s_tailers s)) (wakeAll (t_subscribers tl) (s_subs s)).
Fixpoint publish (s : Subscriber) (t : nat) (batch : list ResourceWatchEvent) : option WatchError * Subscriber :=
  match batch with
  | [] => (None, s)
  | e :: batch =>
      if negb (ev_Sequence e =? u64 (cu_Sequence (t_cursor (tailerOf s t)) + 1))%Z
      then (Some (expired ReasonJournalDiscontinuity (EText "missing journal sequence")), s)
      else publish (publishOne s t e) t batch
  end.
Definition publishLiveBatch (s : Subscriber) (t : nat) (batch : list ResourceWatchEvent) : option WatchError * Subscriber :=
  if negb (bool_decide (s_live s = Some t)) then (Some ECanceled, s) else publish s t batch.

(** What a live subscriber finds: events of the ring, or the sequence up to
    which it must catch up, or nothing. *)
Definition liveBatch (s : Subscriber) (id : nat) (cursor : ResourceWatchCursor)
  : result WatchError (list ResourceWatchEvent * Z) :=
  let tl := tailerOf s (match s_subs s !! id with Some l => ls_tailer l | None => 0 end) in
  if negb (bool_decide (cu_Epoch (t_cursor tl) = cu_Epoch cursor))
  then Err (expired ReasonEpochMismatch (EText "journal epoch changed")) else
  if (cu_Sequence (t_cursor tl) <=? cu_Sequence cursor)%Z then Ok ([], 0%Z) else
  match t_ring tl with
  | [] => Ok ([], cu_Sequence (t_cursor tl))
  | e :: _ =>
      if (u64 (cu_Sequence cursor + 1) <? ev_Sequence e)%Z then Ok ([], cu_Sequence (t_cursor tl)) else
      match list_find (λ e, cu_Sequence cursor < ev_Sequence e)%Z (t_ring tl) with
      | None => Ok ([], cu_Sequence (t_cursor tl))
      | Some (start, _) => Ok (drop start (t_ring tl), 0%Z)
      end
  end.

(** [failTailer]: the critical section, which tells whom to notify, and the
    notification of one subscriber. *)
Definition failTailer (s : Subscriber) (t : nat) : option (list nat) * Subscriber :=
  if negb (bool_decide (s_live s = Some t)) then (None, s) else
  (Some (elements (t_subscribers (tailerOf s t))),
   mkSubscriber None (<[t := cancel (tailerOf s t)]> (s_tailers s)) (s_subs s)).
Definition sendError (s : Subscriber) (id : nat) (err : WatchError) : Subscriber :=
  match s_subs s !! id with
  | None => s
  | Some l => setSub s id (mkLive (ls_tailer l) (ls_ready l) (match ls_errors l with None => Some err | o => o end))
  end.

Definition subscriberReadError (err : WatchError) : WatchError :=
  expired (if isJournal ErrWatchRetentionExpired err then ReasonRetentionExpired
           else if isJournal ErrWatchCursorEpoch err then ReasonEpochMismatch
           else ReasonJournalDiscontinuity) err.

(** ** The start of a watch *)

(** [SubscribePath] up to the registration, from the bounds it read: where the
    watch starts, and whether it begins with a bookmark. *)
Definition admitCursor (uuidValid : string → bool) (raw : string) (b : ResourceWatchBounds) (now : Z)
  : result WatchError (ResourceWatchCursor * bool) :=
  if lagging b now then Err (unavailable (EText "materializer lag exceeds readiness bound")) else
  let bootstrap := bool_decide (raw = BootstrapCursor) in
  if bool_decide (raw = "") || bootstrap then Ok (mkCursor (bo_Epoch b) (bo_HighWater b), bootstrap) else
  match ParseCursor uuidValid raw with
  | Err e => if isIncompatible e then Err (cursorError ReasonIncompatibleCursor "incompatible cursor version")
             else Err (cursorError ReasonInvalidCursor "invalid cursor")
  | Ok c =>
      if negb (bool_decide (cu_Epoch c = bo_Epoch b)) then Err (cursorError ReasonEpochMismatch "cursor epoch mismatch") else
      if (bo_HighWater b <? cu_Sequence c)%Z then Err (cursorError ReasonInvalidCursor "cursor is ahead of journal") else
      if (0 <? bo_Oldest b)%Z && (u64 (cu_Sequence c + 1) <? bo_Oldest b)%Z
      then Err (cursorError ReasonRetentionExpired "cursor precedes retained history") else
      if (MaxReplayEvents cfg <? u64 (bo_HighWater b - cu_Sequence c))%Z
      then Err (cursorError ReasonReplayLimit "resume exceeds replay limit") else
      Ok (c, false)
  end.
Definition bookmarkAt (b : ResourceWatchBounds) : ResourceWatchEvent :=
  mkEvent (bo_Epoch b) (bo_HighWater b) ResourceWatchBookmark "" "" "" None None None "" 0 (bo_UpdatedAt b).
End operations.
