(* ===== verification/SubscriberSystem.v ===== *)
(** * Watches at work

    The goroutines of [subscriber.go] and [subscriber_tailer.go] as steps: the
    poller ([runTailer]), a watch ([SubscribePath], [run], [replayThrough],
    [deliver]) and its consumer interleave with writers of the journal. A step
    is one critical section, one call of the store or one channel operation. *)

From S2P Require Import Prelude WatchJournal WatchCursor Subscriber.

(** ** The poller *)

(** Where [runTailer] is: at the top of its loop, reading after a cursor,
    waiting before it reads the bounds, publishing, failing, or telling the
    subscribers [pending] of the failure. *)
Inductive TailPhase : Type :=
| TPoll
| TRead (cursor : ResourceWatchCursor)
| TIdle (cursor : ResourceWatchCursor)
| TPublish (batch : list ResourceWatchEvent)
| TFail (err : WatchError)
| TFailing (err : WatchError) (pending : list nat)
| TDone.

Section system.
Context {J : Type} {WS : WatchStore J} (cfg : SubscriberConfig) (uuidValid : string → bool).

(** A store answers with an error of the context only when the context it was
    given is done. *)
Inductive tail_step (j : J) (s : Subscriber) (t : nat) : TailPhase → Subscriber → TailPhase → Prop :=
| ts_poll :
    s_live s = Some t → tail_step j s t TPoll s (TRead (t_cursor (tailerOf s t)))
| ts_leave :
    s_live s ≠ Some t → tail_step j s t TPoll s TDone
| ts_read_error cursor e :
    ws_ReadAfter j cursor (ReadBatchSize cfg) (Err e) → t_cancelled (tailerOf s t) = false → isContext e = false →
    tail_step j s t (TRead cursor) s (TFail (subscriberReadError e))
| ts_cancelled ph :
    t_cancelled (tailerOf s t) = true → (∃ cursor, ph = TRead cursor ∨ ph = TIdle cursor) →
    tail_step j s t ph s TDone
| ts_read_empty cursor :
    ws_ReadAfter j cursor (ReadBatchSize cfg) (Ok []) → tail_step j s t (TRead cursor) s (TIdle cursor)
| ts_read cursor batch :
    ws_ReadAfter j cursor (ReadBatchSize cfg) (Ok batch) → batch ≠ [] →
    tail_step j s t (TRead cursor) s (TPublish batch)
| ts_bounds_error cursor e :
    ws_Bounds j (Err e) → t_cancelled (tailerOf s t) = false → isContext e = false →
    tail_step j s t (TIdle cursor) s (TFail (unavailable e))
| ts_bounds cursor b now :
    ws_Bounds j (Ok b) →
    tail_step j s t (TIdle cursor) s
      (if negb (bool_decide (bo_Epoch b = cu_Epoch cursor))
       then TFail (expired ReasonEpochMismatch (EText "journal epoch changed"))
       else if lagging cfg b now then TFail (unavailable (EText "materializer lag exceeds readiness bound"))
       else TPoll)
| ts_publish batch :
    tail_step j s t (TPublish batch) (publishLiveBatch cfg s t batch).2
      (match (publishLiveBatch cfg s t batch).1 with Some err => TFail err | None => TPoll end)
| ts_fail err :
    tail_step j s t (TFail err) (failTailer s t).2
      (match (failTailer s t).1 with Some pending => TFailing err pending | None => TDone end)
| ts_send err id pending :
    tail_step j s t (TFailing err (id :: pending)) (sendError s id err) (TFailing err pending)
| ts_done err :
    tail_step j s t (TFailing err []) s TDone.

(** ** A watch *)

(** [SubscribePath] before the bounds are read and before the registration;
    [replayThrough] at the top of its loop and inside a batch, with the number
    of events replayed; [run] at the top of its loop, inside a batch of the
    ring, and in its [select]; the deferred calls; and the end. *)
Inductive ClientPhase : Type :=
| CSubscribe (raw : string)
| CRegister (b : ResourceWatchBounds) (bootstrap : bool)
| CReplay (highWater replayed : Z)
| CReplaying (highWater replayed : Z) (batch : list ResourceWatchEvent)
| CLive
| CDeliver (batch : list ResourceWatchEvent)
| CWait
| CExit
| CStopped
| CRefused (err : WatchError).

(** [c_events] is the buffer of the channel of events, [c_received] what its
    consumer took, [c_ctx] the error of the context once it is done; [c_boot]
    and [c_start] record the bookmark put first and where the watch started. *)
Record Client : Type := mkClient {
  c_phase : ClientPhase;
  c_cursor : ResourceWatchCursor;
  c_events : list ResourceWatchEvent;
  c_received : list ResourceWatchEvent;
  c_errorsOut : option WatchError;
  c_ctx : option WatchError;
  c_boot : list ResourceWatchEvent;
  c_start : Z;
}.
Definition setPhase (c : Client) (p : ClientPhase) : Client :=
  mkClient p (c_cursor c) (c_events c) (c_received c) (c_errorsOut c) (c_ctx c) (c_boot c) (c_start c).
Definition startAt (c : Client) (cursor : ResourceWatchCursor) (p : ClientPhase) : Client :=
  mkClient p cursor (c_events c) (c_received c) (c_errorsOut c) (c_ctx c) (c_boot c) (cu_Sequence cursor).
Definition boot (c : Client) (o : list ResourceWatchEvent) (p : ClientPhase) : Client :=
  mkClient p (c_cursor c) (c_events c ++ o) (c_received c) (c_errorsOut c) (c_ctx c) o (c_start c).

(** [sendTerminal], then the deferred calls. *)
Definition sendTerminal (c : Client) (err : WatchError) : Client :=
  mkClient CExit (c_cursor c) (c_events c) (c_received c)
    (if isContext err then c_errorsOut c
     else Some (match AsTerminal err with Some _ => err | None => unavailable err end))
    (c_ctx c) (c_boot c) (c_start c).

(** [deliver]: the event is put into the channel while there is room, or the
    context is done, or the timer fires. *)
Definition sent (c : Client) (e : ResourceWatchEvent) (p : ClientPhase) : Client :=
  mkClient p (mkCursor (cu_Epoch (c_cursor c)) (ev_Sequence e)) (c_events c ++ [e]) (c_received c) (c_errorsOut c)
    (c_ctx c) (c_boot c) (c_start c).
Inductive delivers (c : Client) (e : ResourceWatchEvent) (p : ClientPhase) : Client → Prop :=
| dl_sent : (Z.of_nat (length (c_events c)) < BufferSize cfg)%Z → delivers c e p (sent c e p)
| dl_ctx err : c_ctx c = Some err → delivers c e p (sendTerminal c err)
| dl_timeout : delivers c e p (sendTerminal c (expired ReasonSubscriberOverflow (EText "subscriber buffer full"))).

Inductive client_step (j : J) (s : Subscriber) (id : nat) : Client → Subscriber → Client → Prop :=
| cs_bounds_error c raw e :
    c_phase c = CSubscribe raw → ws_Bounds j (Err e) →
    client_step j s id c s (setPhase c (CRefused (unavailable e)))
| cs_bounds c raw b now :
    c_phase c = CSubscribe raw → ws_Bounds j (Ok b) →
    client_step j s id c s
      (match admitCursor cfg uuidValid raw b now with
       | Err e => setPhase c (CRefused e)
       | Ok (cursor, bootstrap) => startAt c cursor (CRegister b bootstrap)
       end)
| cs_read_error c highWater n e :
    c_phase c = CReplay highWater n → (cu_Sequence (c_cursor c) < highWater)%Z →
    ws_ReadAfter j (c_cursor c) (ReadBatchSize cfg) (Err e) → (isContext e = true → c_ctx c ≠ None) →
    client_step j s id c s (sendTerminal c (subscriberReadError e))
| cs_read_wait c highWater n :
    c_phase c = CReplay highWater n → (cu_Sequence (c_cursor c) < highWater)%Z →
    ws_ReadAfter j (c_cursor c) (ReadBatchSize cfg) (Ok []) → client_step j s id c s c
| cs_read_ctx c highWater n err :
    c_phase c = CReplay highWater n → (cu_Sequence (c_cursor c) < highWater)%Z →
    ws_ReadAfter j (c_cursor c) (ReadBatchSize cfg) (Ok []) → c_ctx c = Some err →
    client_step j s id c s (sendTerminal c err)
| cs_read c highWater n batch :
    c_phase c = CReplay highWater n → (cu_Sequence (c_cursor c) < highWater)%Z →
    ws_ReadAfter j (c_cursor c) (ReadBatchSize cfg) (Ok batch) → batch ≠ [] →
    client_step j s id c s (setPhase c (CReplaying highWater n batch))
| cs_replayed c highWater n :
    c_phase c = CReplay highWater n → (highWater ≤ cu_Sequence (c_cursor c))%Z →
    client_step j s id c s (setPhase c CLive)
| cs_batch_end c highWater n :
    c_phase c = CReplaying highWater n [] → client_step j s id c s (setPhase c (CReplay highWater n))
| cs_batch_break c highWater n e batch :
    c_phase c = CReplaying highWater n (e :: batch) → (highWater < ev_Sequence e)%Z →
    client_step j s id c s (setPhase c (CReplay highWater n))
| cs_batch_gap c highWater n e batch :
    c_phase c = CReplaying highWater n (e :: batch) → (ev_Sequence e ≤ highWater)%Z →
    ev_Sequence e ≠ u64 (cu_Sequence (c_cursor c) + 1) →
    client_step j s id c s (sendTerminal c (expired ReasonJournalDiscontinuity (EText "missing journal sequence")))
| cs_batch_limit c highWater n e batch :
    c_phase c = CReplaying highWater n (e :: batch) → (ev_Sequence e ≤ highWater)%Z →
    ev_Sequence e = u64 (cu_Sequence (c_cursor c) + 1) → (MaxReplayEvents cfg < n + 1)%Z →
    client_step j s id c s (sendTerminal c (expired ReasonReplayLimit (EText "replay limit exceeded")))
| cs_batch_deliver c highWater n e batch c' :
    c_phase c = CReplaying highWater n (e :: batch) → (ev_Sequence e ≤ highWater)%Z →
    ev_Sequence e = u64 (cu_Sequence (c_cursor c) + 1) → (n + 1 ≤ MaxReplayEvents cfg)%Z →
    delivers c e (CReplaying highWater (n + 1) batch) c' → client_step j s id c s c'
| cs_live c :
    c_phase c = CLive →
    client_step j s id c s
      (match liveBatch s id (c_cursor c) with
       | Err e => sendTerminal c e
       | Ok (batch, highWater) =>
           if (cu_Sequence (c_cursor c) <? highWater)%Z then setPhase c (CReplay highWater 0)
           else match batch with [] => setPhase c CWait | _ => setPhase c (CDeliver batch) end
       end)
| cs_deliver_end c :
    c_phase c = CDeliver [] → client_step j s id c s (setPhase c CLive)
| cs_deliver_gap c e batch :
    c_phase c = CDeliver (e :: batch) → ev_Sequence e ≠ u64 (cu_Sequence (c_cursor c) + 1) →
    client_step j s id c s (sendTerminal c (expired ReasonJournalDiscontinuity (EText "missing journal sequence")))
| cs_deliver c e batch c' :
    c_phase c = CDeliver (e :: batch) → ev_Sequence e = u64 (cu_Sequence (c_cursor c) + 1) →
    delivers c e (CDeliver batch) c' → client_step j s id c s c'
| cs_wait_ctx c err :
    c_phase c = CWait → c_ctx c = Some err → client_step j s id c s (setPhase c CExit)
| cs_wait_ready c l :
    c_phase c = CWait → s_subs s !! id = Some l → ls_ready l = true →
    client_step j s id c (setSub s id (mkLive (ls_tailer l) false (ls_errors l))) (setPhase c CLive)
| cs_wait_error c l err :
    c_phase c = CWait → s_subs s !! id = Some l → ls_errors l = Some err →
    client_step j s id c (setSub s id (mkLive (ls_tailer l) (ls_ready l) None)) (sendTerminal c err)
| cs_exit c :
    c_phase c = CExit → client_step j s id c (unregisterLive s id) (setPhase c CStopped).

(** ** Everything together *)

Record Sys : Type := mkSys {
  y_log : list ResourceWatchEvent;
  y_journal : J;
  y_sub : Subscriber;
  y_clients : gmap nat Client;
  y_tails : gmap nat TailPhase;
}.
Definition newClient (raw : string) : Client := mkClient (CSubscribe raw) (mkCursor "" 0) [] [] None None [] 0.

Inductive sys_step : Sys → Sys → Prop :=
| ys_write h j s cs ts es j' :
    ws_write j es j' → sys_step (mkSys h j s cs ts) (mkSys (h ++ es) j' s cs ts)
| ys_call h j s cs ts id raw :
    cs !! id = None → sys_step (mkSys h j s cs ts) (mkSys h j s (<[id := newClient raw]> cs) ts)
| ys_cancel h j s cs ts id c err :
    cs !! id = Some c → isContext err = true →
    sys_step (mkSys h j s cs ts)
      (mkSys h j s (<[id := mkClient (c_phase c) (c_cursor c) (c_events c) (c_received c) (c_errorsOut c)
                              (Some err) (c_boot c) (c_start c)]> cs) ts)
| ys_receive h j s cs ts id c e es :
    cs !! id = Some c → c_events c = e :: es →
    sys_step (mkSys h j s cs ts)
      (mkSys h j s (<[id := mkClient (c_phase c) (c_cursor c) es (c_received c ++ [e]) (c_errorsOut c)
                              (c_ctx c) (c_boot c) (c_start c)]> cs) ts)
| ys_register h j s cs ts id c b bootstrap fresh r s' :
    cs !! id = Some c → c_phase c = CRegister b bootstrap → ts !! fresh = None → s_subs s !! id = None →
    registerLive cfg s fresh id (c_cursor c) b = (r, s') →
    sys_step (mkSys h j s cs ts)
      (mkSys h j s' (<[id := match r with
                             | Err e => setPhase c (CRefused e)
                             | Ok highWater => boot c (if bootstrap then [bookmarkAt b] else []) (CReplay highWater 0)
                             end]> cs)
         (match s_live s with Some _ => ts | None => <[fresh := TPoll]> ts end))
| ys_client h j s cs ts id c s' c' :
    cs !! id = Some c → client_step j s id c s' c' →
    sys_step (mkSys h j s cs ts) (mkSys h j s' (<[id := c']> cs) ts)
| ys_tail h j s cs ts t ph s' ph' :
    ts !! t = Some ph → tail_step j s t ph s' ph' →
    sys_step (mkSys h j s cs ts) (mkSys h j s' cs (<[t := ph']> ts)).

(** A server that starts on a journal. *)
Definition startSys (h : list ResourceWatchEvent) (j : J) : Sys := mkSys h j (mkSubscriber None ∅ ∅) ∅ ∅.
End system.
