(* ===== verification/SubscriberTheorems.v ===== *)
(** * Watches are gapless and never forgotten

    The invariant of [SubscriberSystem] and what it gives a watch: the events
    it was sent are consecutive events of the log, it stops only with an error
    or because its caller left, and it never waits while there is something it
    was not told of. *)

From S2P Require Import Prelude WatchJournal WatchCursor Subscriber SubscriberSystem.

(** ** Streams *)

(** [l] are the events of the log numbered [a + 1] to [b]. *)
Definition follows (h : list ResourceWatchEvent) (a : Z) (l : list ResourceWatchEvent) (b : Z) : Prop :=
  b = (a + Z.of_nat (length l))%Z ∧
  ∀ k e, l !! k = Some e → e ∈ h ∧ ev_Sequence e = (a + 1 + Z.of_nat k)%Z.

Lemma follows_snoc h a l b e : follows h a l b → e ∈ h → ev_Sequence e = (b + 1)%Z → follows h a (l ++ [e]) (ev_Sequence e).
Proof.
  intros [-> Hl] He Hs. split; [rewrite length_app; simpl; lia|]. intros k e' [Hk|[Hk He']]%lookup_app_Some; [by apply Hl|].
  apply list_lookup_singleton_Some in He' as [Hk' <-]. split; [done|]. lia.
Qed.
Lemma follows_log h a l b :
  (∀ i e, h !! i = Some e → ev_Sequence e = Z.of_nat (S i)) → (0 ≤ a)%Z → follows h a l b →
  l = take (length l) (drop (Z.to_nat a) h).
Proof.
  intros Hn Ha [_ Hl]. apply list_eq. intros k. destruct (decide (k < length l)) as [Hk|Hk].
  - rewrite lookup_take_lt, lookup_drop by done. destruct (lookup_lt_is_Some_2 l k Hk) as [e He].
    rewrite He. destruct (Hl k e He) as [(i & Hi)%list_elem_of_lookup Hs]. rewrite <- Hi. symmetry.
    f_equal. pose proof (Hn i e Hi). lia.
  - rewrite lookup_take_ge by lia. apply lookup_ge_None. lia.
Qed.

Definition streamOk (h : list ResourceWatchEvent) (c : Client) : Prop :=
  (0 ≤ cu_Sequence (c_cursor c) < 2 ^ 64)%Z ∧ (0 ≤ c_start c)%Z ∧
  ∃ l, c_received c ++ c_events c = c_boot c ++ l ∧ follows h (c_start c) l (cu_Sequence (c_cursor c)).

(** A stream that stopped said why, unless its context is done. *)
Definition loud (c : Client) : Prop :=
  c_phase c = CExit ∨ c_phase c = CStopped → c_errorsOut c ≠ None ∨ c_ctx c ≠ None.
Definition batchOk (h : list ResourceWatchEvent) (p : ClientPhase) : Prop :=
  match p with CReplaying _ _ b | CDeliver b => Forall (λ e, e ∈ h) b | _ => True end.

Lemma sendTerminal_loud c err : (isContext err = true → c_ctx c ≠ None) → loud (sendTerminal c err).
Proof. intros H _. simpl. destruct (isContext err); [right; by apply H|by left]. Qed.

Section streams.
Context (h : list ResourceWatchEvent) (Hsmall : small h).
Context (Hnum : ∀ i e, h !! i = Some e → ev_Sequence e = Z.of_nat (S i)).

Lemma log_range e : e ∈ h → (1 ≤ ev_Sequence e < 2 ^ 64)%Z.
Proof.
  intros (i & Hi)%list_elem_of_lookup. rewrite (Hnum i e Hi). apply lookup_lt_Some in Hi.
  unfold small in Hsmall. lia.
Qed.
(** The number after a cursor, if the log holds it, did not wrap. *)
Lemma next_plain n e : (0 ≤ n < 2 ^ 64)%Z → e ∈ h → ev_Sequence e = u64 (n + 1) → ev_Sequence e = (n + 1)%Z.
Proof.
  intros Hn He Hs. pose proof (log_range e He) as Hr. rewrite Hs in Hr |- *. clear Hs. unfold u64 in *.
  destruct (decide (n + 1 < 2 ^ 64)%Z) as [Hb|Hb]; [apply Z.mod_small; lia|].
  assert (n + 1 = 2 ^ 64)%Z as E by lia. rewrite E in Hr. rewrite Z.mod_same in Hr by done. lia.
Qed.
Lemma streamOk_sent c e p :
  streamOk h c → e ∈ h → ev_Sequence e = u64 (cu_Sequence (c_cursor c) + 1) → streamOk h (sent c e p).
Proof.
  intros (Hr & H0 & l & Hl & Hf) He Hs. pose proof (next_plain _ _ Hr He Hs) as Hs'.
  split_and!; [apply log_range in He; simpl; lia..|done|]. exists (l ++ [e]). simpl. split.
  - by rewrite !app_assoc, Hl.
  - by apply (follows_snoc h _ l (cu_Sequence (c_cursor c))).
Qed.
Lemma delivers_ok cfg c e p c' :
  delivers cfg c e p c' → streamOk h c → e ∈ h → ev_Sequence e = u64 (cu_Sequence (c_cursor c) + 1) →
  (∀ err, c_ctx c = Some err → isContext err = true) → batchOk h p →
  streamOk h c' ∧ c_ctx c' = c_ctx c ∧
  ((c_phase c' = CExit ∧ loud c') ∨ c' = sent c e p).
Proof.
  intros [Hlen|err Hctx|] Hc He Hs Hx Hp.
  - split_and!; [by apply streamOk_sent|done|by right].
  - split_and!; [done|done|left; split; [done|apply sendTerminal_loud; congruence]].
  - split_and!; [done|done|left; split; [done|by apply sendTerminal_loud]].
Qed.
End streams.

Lemma streamOk_grow h h' c : (∀ e, e ∈ h → e ∈ h') → streamOk h c → streamOk h' c.
Proof.
  intros Hh (Hr & H0 & l & Hl & Hb & Hf). split_and!; [lia..|done|]. exists l. split; [done|]. split; [done|].
  intros k e Hk. destruct (Hf k e Hk). auto.
Qed.

(** ** The invariant *)

Definition active (ph : TailPhase) : Prop := match ph with TFailing _ _ | TDone => False | _ => True end.
(** The poller is about to tell the watch that it failed. *)
Definition notified (ts : gmap nat TailPhase) (t id : nat) : Prop :=
  ∃ err pending, ts !! t = Some (TFailing err pending) ∧ id ∈ pending.
(** A running watch is registered with a poller that runs, or that failed and
    has told it or is about to; if it waits, it has a wake-up to take or has
    everything the poller published. *)
Definition attached (s : Subscriber) (ts : gmap nat TailPhase) (id : nat) (c : Client) : Prop :=
  ∃ l tl, s_subs s !! id = Some l ∧ s_tailers s !! ls_tailer l = Some tl ∧ id ∈ t_subscribers tl ∧
    (s_live s = Some (ls_tailer l) ∨ notified ts (ls_tailer l) id ∨ ls_errors l ≠ None) ∧
    (c_phase c = CWait → ls_ready l = true ∨ (cu_Sequence (t_cursor tl) ≤ cu_Sequence (c_cursor c))%Z).
Definition running (p : ClientPhase) : Prop :=
  match p with CReplay _ _ | CReplaying _ _ _ | CLive | CDeliver _ | CWait => True | _ => False end.
(** Nothing was sent before the registration. *)
Definition fresh (c : Client) : Prop :=
  match c_phase c with
  | CSubscribe _ => c_received c = [] ∧ c_events c = [] ∧ c_boot c = []
  | CRegister _ _ => c_received c = [] ∧ c_events c = [] ∧ c_boot c = [] ∧ c_start c = cu_Sequence (c_cursor c)
  | _ => True
  end.

Record ClientInv (h : list ResourceWatchEvent) (s : Subscriber) (ts : gmap nat TailPhase) (id : nat) (c : Client) : Prop := {
  ci_stream : streamOk h c;
  ci_batch : batchOk h (c_phase c);
  ci_loud : loud c;
  ci_ctx : ∀ err, c_ctx c = Some err → isContext err = true;
  ci_fresh : fresh c;
  ci_attached : running (c_phase c) → attached s ts id c;
}.
Record SubInv (h : list ResourceWatchEvent) (s : Subscriber) (ts : gmap nat TailPhase) : Prop := {
  si_ring : ∀ t tl, s_tailers s !! t = Some tl → Forall (λ e, e ∈ h) (t_ring tl);
  si_live : ∀ t, s_live s = Some t →
    (∃ tl, s_tailers s !! t = Some tl ∧ t_cancelled tl = false) ∧ ∃ ph, ts !! t = Some ph ∧ active ph;
  si_dom : ∀ t, is_Some (s_tailers s !! t) → is_Some (ts !! t);
  si_publish : ∀ t b, ts !! t = Some (TPublish b) → Forall (λ e, e ∈ h) b;
  si_fail : ∀ t e, ts !! t = Some (TFail e) → isContext e = false ∨ s_live s ≠ Some t;
  si_failing : ∀ t e pending, ts !! t = Some (TFailing e pending) → isContext e = false;
  si_errors : ∀ id l e, s_subs s !! id = Some l → ls_errors l = Some e → isContext e = false;
  si_subs : ∀ id l, s_subs s !! id = Some l → is_Some (s_tailers s !! ls_tailer l);
}.
Record SysInv {J} `{WatchStoreLaws J} (y : Sys (J := J)) : Prop := {
  yi_logged : ws_logged (y_log y) (y_journal y);
  yi_sub : SubInv (y_log y) (y_sub y) (y_tails y);
  yi_clients : ∀ id c, y_clients y !! id = Some c → ClientInv (y_log y) (y_sub y) (y_tails y) id c;
}.

(** A client depends on the shared state through its attachment only. *)
Lemma ClientInv_frame h s ts s' ts' id c :
  (running (c_phase c) → attached s ts id c → attached s' ts' id c) → ClientInv h s ts id c → ClientInv h s' ts' id c.
Proof. intros Ha [? ? ? ? ? Hat]. split; auto. Qed.
(** The attachment depends on the client only while it waits. *)
Lemma attached_phase s ts id c c' : c_phase c' ≠ CWait → attached s ts id c → attached s ts id c'.
Proof.
  intros Hp (l & tl & H1 & H2 & H3 & H4 & _). exists l, tl. by split_and!.
Qed.

(** ** The shared state *)

Lemma tailerOf_Some s t tl : s_tailers s !! t = Some tl → tailerOf s t = tl.
Proof. unfold tailerOf. by intros ->. Qed.
Lemma tailers_insert (m : gmap nat journalTailer) t tl t' : is_Some (m !! t') → is_Some (<[t := tl]> m !! t').
Proof. intros H. destruct (decide (t = t')) as [<-|]; [rewrite lookup_insert_eq; eauto|by rewrite lookup_insert_ne]. Qed.
Lemma wakeAll_lookup x subs id :
  wakeAll x subs !! id =
  (λ l, if bool_decide (id ∈ x) then mkLive (ls_tailer l) true (ls_errors l) else l) <$> subs !! id.
Proof. unfold wakeAll. rewrite map_lookup_imap. by destruct (subs !! id). Qed.

(** Publishing one event keeps the registrations and wakes the watches it
    concerns. *)
Lemma publishOne_attached cfg s t e ts id c :
  is_Some (s_tailers s !! t) → attached s ts id c → attached (publishOne cfg s t e) ts id c.
Proof.
  intros [tl0 Ht] (l & tl & H1 & H2 & H3 & H4 & H5). unfold publishOne, attached. simpl.
  rewrite wakeAll_lookup, H1, (tailerOf_Some _ _ _ Ht). simpl.
  destruct (decide (ls_tailer l = t)) as [<-|Hne].
  - assert (tl0 = tl) as -> by congruence. rewrite bool_decide_eq_true_2 by done.
    eexists _, _. split; [done|]. simpl. rewrite lookup_insert_eq. split; [done|]. split_and!; [done|done|by left].
  - case_bool_decide as Hin; (eexists _, tl; split; [done|]; simpl; rewrite lookup_insert_ne by done).
    + split_and!; [done|done|done|by left].
    + by split_and!.
Qed.
Lemma publishOne_inv cfg h s t e ts :
  SubInv h s ts → is_Some (s_tailers s !! t) → e ∈ h → SubInv h (publishOne cfg s t e) ts.
Proof.
  intros HI [tl Ht] He. pose proof (tailerOf_Some _ _ _ Ht) as Et. split; unfold publishOne; simpl; rewrite ?Et.
  - intros t' tl' [[<- <-]|[Hne H]]%lookup_insert_Some; [|by eapply si_ring]. simpl.
    apply Forall_drop, Forall_app. split; [by eapply (si_ring _ _ _ HI)|by constructor].
  - intros t' Hl. destruct (si_live _ _ _ HI t' Hl) as [(tl' & Ht' & Hc) Hph]. split; [|done].
    destruct (decide (t = t')) as [<-|]; [|rewrite lookup_insert_ne by done; eauto].
    rewrite lookup_insert_eq. simplify_eq. eauto.
  - intros t' [x [[<- _]|[_ H]]%lookup_insert_Some]; apply (si_dom _ _ _ HI); eauto.
  - apply (si_publish _ _ _ HI).
  - apply (si_fail _ _ _ HI).
  - apply (si_failing _ _ _ HI).
  - intros id l err. rewrite wakeAll_lookup. destruct (s_subs s !! id) as [l0|] eqn:El; [|done].
    simpl. intros [= <-] Herr. apply (si_errors _ _ _ HI id l0 err El). by case_bool_decide.
  - intros id l. rewrite wakeAll_lookup. destruct (s_subs s !! id) as [l0|] eqn:El; [|done].
    simpl. intros [= <-]. apply tailers_insert. case_bool_decide; exact (si_subs _ _ _ HI id l0 El).
Qed.
Lemma publish_keeps cfg h ts t batch s :
  SubInv h s ts → is_Some (s_tailers s !! t) → Forall (λ e, e ∈ h) batch →
  let '(o, s') := publish cfg s t batch in
  SubInv h s' ts ∧ s_live s' = s_live s ∧ (∀ err, o = Some err → isContext err = false) ∧
  ∀ id c, attached s ts id c → attached s' ts id c.
Proof.
  revert s. induction batch as [|e batch IH]; intros s HI Ht Hb; [done|]. cbn [publish].
  apply Forall_cons in Hb as [He Hb]. destruct (negb _); [split_and!; try done; by intros err [= <-]|].
  assert (is_Some (s_tailers (publishOne cfg s t e) !! t)) as Ht' by (simpl; rewrite lookup_insert_eq; eauto).
  specialize (IH (publishOne cfg s t e) (publishOne_inv cfg h s t e ts HI Ht He) Ht' Hb).
  destruct (publish cfg (publishOne cfg s t e) t batch) as [o s'] eqn:E. destruct IH as (H1 & H2 & H3 & H4).
  split_and!; [done|done|done|]. intros id c Ha. by apply H4, publishOne_attached.
Qed.

(** Steps that only move the poller. *)
Lemma SubInv_phase h s ts t ph :
  SubInv h s ts → (s_live s = Some t → active ph) →
  (∀ b, ph = TPublish b → Forall (λ e, e ∈ h) b) →
  (∀ e, ph = TFail e → isContext e = false ∨ s_live s ≠ Some t) →
  (∀ e p, ph = TFailing e p → isContext e = false) → SubInv h s (<[t := ph]> ts).
Proof.
  intros HI Hl Hp Hf Hg. split; [apply (si_ring _ _ _ HI)| | | | | |apply (si_errors _ _ _ HI)|apply (si_subs _ _ _ HI)].
  - intros t' Ht'. destruct (si_live _ _ _ HI t' Ht') as [? (ph' & Hph & Ha)]. split; [done|].
    destruct (decide (t = t')) as [<-|]; [exists ph; rewrite lookup_insert_eq; auto|].
    exists ph'. by rewrite lookup_insert_ne.
  - intros t' Ht'. destruct (decide (t = t')) as [<-|]; [rewrite lookup_insert_eq; eauto|].
    rewrite lookup_insert_ne by done. by apply (si_dom _ _ _ HI).
  - intros t' b [[<- Hb]|[_ Hb]]%lookup_insert_Some; [by apply Hp|by eapply si_publish].
  - intros t' e [[<- Hb]|[_ Hb]]%lookup_insert_Some; [by apply Hf|by eapply si_fail].
  - intros t' e p [[<- Hb]|[_ Hb]]%lookup_insert_Some; [by eapply Hg|by eapply si_failing].
Qed.
Lemma attached_move s ts t ph id c :
  (∀ err pending, ts !! t = Some (TFailing err pending) → id ∈ pending → ∃ err' pending', ph = TFailing err' pending' ∧ id ∈ pending') →
  attached s ts id c → attached s (<[t := ph]> ts) id c.
Proof.
  intros Hn (l & tl & H1 & H2 & H3 & H4 & H5). exists l, tl. split_and!; [done|done|done| |done].
  destruct H4 as [?|[(err & pending & Hp & Hin)|?]]; [by left| |by right; right]. right; left.
  destruct (decide (ls_tailer l = t)) as [Et|].
  - rewrite Et in Hp |- *. destruct (Hn _ _ Hp Hin) as (err' & pending' & -> & Hin').
    exists err', pending'. by rewrite lookup_insert_eq.
  - exists err, pending. by rewrite lookup_insert_ne.
Qed.

Lemma sub_retire h s ts t tl :
  SubInv h s ts → s_tailers s !! t = Some tl → SubInv h (mkSubscriber None (<[t := cancel tl]> (s_tailers s)) (s_subs s)) ts.
Proof.
  intros HI Ht. split; simpl; [|done| |apply (si_publish _ _ _ HI)|by right|apply (si_failing _ _ _ HI)|apply (si_errors _ _ _ HI)|].
  - intros t' tl' [[<- <-]|[_ H]]%lookup_insert_Some; [exact (si_ring _ _ _ HI t tl Ht)|by eapply si_ring].
  - intros t' [x [[<- _]|[_ H]]%lookup_insert_Some]; apply (si_dom _ _ _ HI); eauto.
  - intros id l Hl. apply tailers_insert. by eapply (si_subs _ _ _ HI).
Qed.
Lemma failed_inv h s ts t err :
  SubInv h s ts → ts !! t = Some (TFail err) → s_live s = Some t →
  let s' := mkSubscriber None (<[t := cancel (tailerOf s t)]> (s_tailers s)) (s_subs s) in
  let ts' := <[t := TFailing err (elements (t_subscribers (tailerOf s t)))]> ts in
  SubInv h s' ts' ∧ ∀ id c, attached s ts id c → attached s' ts' id c.
Proof.
  intros HI Hts Hl s' ts'. destruct (si_live _ _ _ HI t Hl) as [(tl & Ht & _) _].
  assert (tailerOf s t = tl) as Et by (by apply tailerOf_Some). unfold s', ts'. clear s' ts'. rewrite Et. split.
  - apply SubInv_phase; [by apply sub_retire|done|done|done|].
    intros e p [= <- <-]. destruct (si_fail _ _ _ HI t err Hts); done.
  - intros id c (l & tl' & H1 & H2 & H3 & H4 & H5). unfold attached. simpl.
    destruct (decide (t = ls_tailer l)) as [->|Hne].
    + assert (tl' = tl) as -> by congruence. exists l, (cancel tl). rewrite !lookup_insert_eq.
      split_and!; [done|done|done| |done]. right; left. eexists _, _. rewrite lookup_insert_eq. split; [done|].
      by apply elem_of_elements.
    + exists l, tl'. rewrite lookup_insert_ne by done. split_and!; [done|done|done| |done].
      destruct H4 as [?|[(e & p & Hp & Hin)|?]]; [congruence| |by right; right].
      right; left. exists e, p. by rewrite lookup_insert_ne.
Qed.

(** Telling one watch of the failure. *)
Lemma sendError_lookup s id err id' :
  s_subs (sendError s id err) !! id' =
  if decide (id' = id)
  then (λ l, mkLive (ls_tailer l) (ls_ready l) (match ls_errors l with None => Some err | o => o end)) <$> s_subs s !! id
  else s_subs s !! id'.
Proof.
  unfold sendError. destruct (s_subs s !! id) as [l|] eqn:E; case_decide as Hd; simpl; subst; [| |done|done].
  - by rewrite lookup_insert_eq.
  - by rewrite lookup_insert_ne.
Qed.
Lemma sendError_frame s id err :
  s_live (sendError s id err) = s_live s ∧ s_tailers (sendError s id err) = s_tailers s.
Proof. unfold sendError. by case_match. Qed.
Lemma sendError_inv h s ts t err id pending :
  SubInv h s ts → ts !! t = Some (TFailing err (id :: pending)) →
  SubInv h (sendError s id err) (<[t := TFailing err pending]> ts) ∧
  ∀ id' c, attached s ts id' c → attached (sendError s id err) (<[t := TFailing err pending]> ts) id' c.
Proof.
  intros HI Hts. pose proof (si_failing _ _ _ HI _ _ _ Hts) as Hctx. destruct (sendError_frame s id err) as [El Et].
  assert (s_live s ≠ Some t) as Hnl.
  { intros Hl. destruct (si_live _ _ _ HI t Hl) as [_ (ph & Hph & Ha)]. rewrite Hts in Hph. by injection Hph as <-. }
  split.
  - apply SubInv_phase; rewrite ?El; [|done|done|done|by intros e p [= <- _]].
    split; rewrite ?El, ?Et; [apply HI..| |].
    + intros id' l e. rewrite sendError_lookup.
      case_decide as Hd; [|apply (si_errors _ _ _ HI)]. destruct (s_subs s !! id) as [l0|] eqn:E0; [|done].
      simpl. intros [= <-]. simpl. destruct (ls_errors l0) eqn:Ee; [|by intros [= <-]].
      intros [= <-]. by eapply si_errors.
    + intros id' l. rewrite sendError_lookup. case_decide as Hd; [|apply (si_subs _ _ _ HI)].
      destruct (s_subs s !! id) as [l0|] eqn:E0; [|done]. simpl. intros [= <-]. exact (si_subs _ _ _ HI id l0 E0).
  - intros id' c (l & tl & H1 & H2 & H3 & H4 & H5). unfold attached. rewrite El, Et, sendError_lookup.
    case_decide as Hd.
    + subst id'. rewrite H1. simpl. eexists _, tl. split; [done|]. simpl.
      split_and!; [done|done| |done]. right; right. by destruct (ls_errors l).
    + exists l, tl. split_and!; [done|done|done| |done].
      destruct H4 as [?|[(e & p & Hp & Hin)|?]]; [by left| |by right; right]. right; left.
      destruct (decide (t = ls_tailer l)) as [Ett|]; [|exists e, p; by rewrite lookup_insert_ne].
      rewrite <- Ett in Hp |- *. rewrite Hts in Hp. injection Hp as <- <-. exists err, pending.
      rewrite lookup_insert_eq. split; [done|]. by apply elem_of_cons in Hin as [|].
Qed.

Lemma subscriberReadError_context e : isContext (subscriberReadError e) = isContext e.
Proof. done. Qed.

(** Registrations of others survive a change of the set of subscribers. *)
Lemma attached_subscribers s ts t tl x id c :
  s_tailers s !! t = Some tl → (id ∈ t_subscribers tl → id ∈ x) → attached s ts id c →
  attached (setTailer s t (setSubscribers tl x)) ts id c.
Proof.
  intros Ht Hx (l & tl' & H1 & H2 & H3 & H4 & H5). unfold attached. simpl.
  destruct (decide (t = ls_tailer l)) as [->|Hne].
  - assert (tl' = tl) as -> by congruence. exists l, (setSubscribers tl x). rewrite lookup_insert_eq.
    split_and!; auto.
  - exists l, tl'. rewrite lookup_insert_ne by done. by split_and!.
Qed.
Lemma SubInv_subscribers h s ts t tl x :
  SubInv h s ts → s_tailers s !! t = Some tl → SubInv h (setTailer s t (setSubscribers tl x)) ts.
Proof.
  intros HI Ht. split; simpl; [| | |apply HI..|].
  - intros t' tl' [[<- <-]|[_ H]]%lookup_insert_Some; [exact (si_ring _ _ _ HI t tl Ht)|by eapply si_ring].
  - intros t' Hl. destruct (si_live _ _ _ HI t' Hl) as [(tl' & Ht' & Hc) ?]. split; [|done].
    destruct (decide (t = t')) as [<-|]; [|rewrite lookup_insert_ne by done; eauto].
    rewrite lookup_insert_eq. simplify_eq. by eexists.
  - intros t' [y [[<- _]|[_ H]]%lookup_insert_Some]; apply (si_dom _ _ _ HI); eauto.
  - intros id l Hl. apply tailers_insert. by eapply (si_subs _ _ _ HI).
Qed.
(** Leaving: the other watches of the poller keep it running. *)
Lemma unregister_inv h s ts id l tl :
  SubInv h s ts → s_subs s !! id = Some l → s_tailers s !! ls_tailer l = Some tl →
  SubInv h (unregisterLive s id) ts ∧
  ∀ id' c, id' ≠ id → attached s ts id' c → attached (unregisterLive s id) ts id' c.
Proof.
  intros HI El Et. unfold unregisterLive. rewrite El, (tailerOf_Some _ _ _ Et). cbn [setSubscribers t_subscribers].
  set (tl' := setSubscribers tl (t_subscribers tl ∖ {[id]})).
  assert (SubInv h (setTailer s (ls_tailer l) tl') ts) as HI' by (by apply SubInv_subscribers).
  assert (∀ id' c, id' ≠ id → attached s ts id' c → attached (setTailer s (ls_tailer l) tl') ts id' c) as Ha.
  { intros id' c Hne. apply attached_subscribers; [done|]. set_solver. }
  destruct (bool_decide (s_live s = Some _)) eqn:Eb; [|done]. apply bool_decide_eq_true in Eb.
  case_bool_decide as Hx; [|done]. simpl andb. cbn iota. split.
  - pose proof (sub_retire h _ ts (ls_tailer l) tl' HI') as HR. simpl in HR. rewrite insert_insert_eq in HR.
    apply HR. by rewrite lookup_insert_eq.
  - intros id' c Hne (l0 & tl0 & H1 & H2 & H3 & H4 & H5). unfold attached. simpl.
    destruct (decide (ls_tailer l = ls_tailer l0)) as [E|Hn].
    + rewrite <- E, Et in H2. injection H2 as <-. set_solver.
    + exists l0, tl0. rewrite lookup_insert_ne by done. split_and!; [done|done|done| |done].
      destruct H4 as [?|?]; [congruence|by right].
Qed.

(** A watch takes a wake-up or an error. *)
Lemma setSub_inv h s ts id l :
  SubInv h s ts → (∀ e, ls_errors l = Some e → isContext e = false) → is_Some (s_tailers s !! ls_tailer l) →
  SubInv h (setSub s id l) ts.
Proof.
  intros HI Hl Ht. split; simpl; [apply HI..| |].
  - intros id' l' e [[<- <-]|[_ H]]%lookup_insert_Some; [apply Hl|by eapply si_errors].
  - intros id' l' [[<- <-]|[_ H]]%lookup_insert_Some; [done|by eapply si_subs].
Qed.
Lemma setSub_attached s ts id l id' c : id' ≠ id → attached s ts id' c → attached (setSub s id l) ts id' c.
Proof.
  intros Hne (l0 & tl0 & H1 & H). exists l0, tl0. simpl. by rewrite lookup_insert_ne.
Qed.

(** Joining. *)
Lemma join_inv cfg h s ts t tl id cursor b r s' :
  SubInv h s ts → s_live s = Some t → s_tailers s !! t = Some tl → s_subs s !! id = None →
  joinTailer cfg s t id cursor b = (r, s') →
  SubInv h s' ts ∧ (∀ id' c, id' ≠ id → attached s ts id' c → attached s' ts id' c) ∧
  ∀ n c, r = Ok n → c_phase c ≠ CWait → attached s' ts id c.
Proof.
  intros HI Hl Ht Hid. unfold joinTailer. rewrite (tailerOf_Some _ _ _ Ht). case_match; intros [= <- <-]; [done|].
  split_and!.
  - apply setSub_inv; [by apply SubInv_subscribers|done|]. simpl. rewrite lookup_insert_eq. eauto.
  - intros id' c Hne Ha. apply setSub_attached; [done|]. apply attached_subscribers; [done|set_solver|done].
  - intros n c _ Hp. eexists _, _. simpl. rewrite lookup_insert_eq. split; [done|]. simpl.
    rewrite lookup_insert_eq. split; [done|]. split_and!; [set_solver|by left|done].
Qed.
Lemma register_inv cfg h s ts fr id cursor b r s' :
  SubInv h s ts → ts !! fr = None → s_subs s !! id = None → registerLive cfg s fr id cursor b = (r, s') →
  let ts' := match s_live s with Some _ => ts | None => <[fr := TPoll]> ts end in
  SubInv h s' ts' ∧ (∀ id' c, id' ≠ id → attached s ts id' c → attached s' ts' id' c) ∧
  ∀ n c, r = Ok n → c_phase c ≠ CWait → attached s' ts' id c.
Proof.
  intros HI Hfr Hid. unfold registerLive. destruct (s_live s) as [t|] eqn:El; simpl.
  - destruct (si_live _ _ _ HI t El) as [(tl & Ht & _) _]. case_match; [by intros [= <- <-]|]. by apply (join_inv cfg h s ts t tl).
  - assert (s_tailers s !! fr = None) as Hno.
    { destruct (s_tailers s !! fr) eqn:E; [|done]. destruct (si_dom _ _ _ HI fr); [eauto|congruence]. }
    set (tl := newTailer _). set (s0 := mkSubscriber _ _ _). intros Hj.
    assert (SubInv h s0 (<[fr := TPoll]> ts)) as HI0.
    { split; simpl.
      - intros t tl' [[<- <-]|[_ H]]%lookup_insert_Some; [by constructor|by eapply si_ring].
      - intros t [= <-]. rewrite !lookup_insert_eq. split; [eauto|]. by exists TPoll.
      - intros t [y [[<- _]|[Hne H]]%lookup_insert_Some]; [rewrite lookup_insert_eq; eauto|].
        rewrite lookup_insert_ne by done. apply (si_dom _ _ _ HI); eauto.
      - intros t p [[_ H]|[_ H]]%lookup_insert_Some; [done|by eapply si_publish].
      - intros t e [[_ H]|[Hne H]]%lookup_insert_Some; [done|right; by intros [= ->]].
      - intros t e p [[_ H]|[_ H]]%lookup_insert_Some; [done|by eapply si_failing].
      - apply (si_errors _ _ _ HI).
      - intros id' l' Hl'. apply tailers_insert. by eapply (si_subs _ _ _ HI). }
    destruct (join_inv cfg h s0 _ fr tl id cursor b r s' HI0) as (H1 & H2 & H3); [done|simpl; by rewrite lookup_insert_eq|done|done|].
    split_and!; [done| |done]. intros id' c Hne (l0 & tl0 & G1 & G2 & G3 & G4 & G5). apply H2; [done|].
    exists l0, tl0. simpl. assert (fr ≠ ls_tailer l0) by congruence. rewrite lookup_insert_ne by done.
    split_and!; [done|done|done| |done]. destruct G4 as [?|[(e & p & Hp & Hin)|?]]; [congruence| |by right; right].
    right; left. exists e, p. by rewrite lookup_insert_ne.
Qed.

(** ** Steps *)

Section steps.
Context {J : Type} `{WL : WatchStoreLaws J} (cfg : SubscriberConfig) (uuidValid : string → bool).

Lemma tail_step_inv h j s ts t ph s' ph' :
  ws_logged h j → small h → SubInv h s ts → ts !! t = Some ph → tail_step cfg j s t ph s' ph' →
  SubInv h s' (<[t := ph']> ts) ∧ ∀ id c, attached s ts id c → attached s' (<[t := ph']> ts) id c.
Proof.
  intros Hlog Hsm HI Hts Hst.
  assert (s_live s = Some t → active ph) as Hact.
  { intros Hl. destruct (si_live _ _ _ HI t Hl) as [_ (p & Hp & Ha)]. by simplify_eq. }
  assert (∀ p, (∀ e q, ph ≠ TFailing e q) → ∀ id c, attached s ts id c → attached s (<[t := p]> ts) id c) as Hmove.
  { intros p Hn id c. apply attached_move. intros e q Hq _. rewrite Hts in Hq. injection Hq as Hq. by destruct (Hn e q). }
  destruct Hst as [Hl|Hl|cursor e Hr Hc Hx|ph Hc Hp|cursor Hr|cursor batch Hr Hb|cursor e Hr Hc Hx|cursor b now Hr|batch|err|err id pending|err].
  - split; [|by apply Hmove]. by apply SubInv_phase.
  - split; [|by apply Hmove]. by apply SubInv_phase.
  - split; [|by apply Hmove]. apply SubInv_phase; [done..| |done]. intros e' [= <-]. by left.
  - destruct Hp as (cursor & Hp).
    split; [|apply Hmove; by destruct Hp as [->| ->]]. apply SubInv_phase; [done| |done..]. intros Hl.
    destruct (si_live _ _ _ HI t Hl) as [(tl & Ht & Hn) _]. rewrite (tailerOf_Some _ _ _ Ht) in Hc. congruence.
  - split; [|by apply Hmove]. by apply SubInv_phase.
  - split; [|by apply Hmove]. apply SubInv_phase; [done..| |done|done]. intros b [= <-]. by eapply ws_read_logged.
  - split; [|by apply Hmove]. apply SubInv_phase; [done..| |done]. intros e' [= <-]. by left.
  - split; [|by apply Hmove].
    destruct (negb _); [|destruct (lagging _ _ _)]; apply SubInv_phase; try done; intros e' [= <-]; by left.
  - pose proof (si_publish _ _ _ HI t batch Hts) as Hb. unfold publishLiveBatch. case_bool_decide as Hl; simpl.
    + destruct (si_live _ _ _ HI t Hl) as [(tl & Ht & _) _].
      pose proof (publish_keeps cfg h ts t batch s HI (mk_is_Some _ _ Ht) Hb) as HP.
      destruct (publish cfg s t batch) as [o s1]. destruct HP as (H1 & H2 & H3 & H4). simpl. split.
      * destruct o as [e|]; apply SubInv_phase; try done. intros e' [= <-]. left. by apply H3.
      * intros id c Ha. apply attached_move; [|by apply H4]. congruence.
    + split; [|by apply Hmove]. apply SubInv_phase; [done..| |done]. intros e' [= <-]. by right.
  - unfold failTailer. case_bool_decide as Hl; simpl.
    + by apply (failed_inv h s ts t err).
    + split; [|by apply Hmove]. by apply SubInv_phase.
  - by apply sendError_inv.
  - split; [by apply SubInv_phase|]. intros id c. apply attached_move. intros e q Hq. rewrite Hts in Hq.
    injection Hq as <- <-. by intros ?%elem_of_nil.
Qed.

(** A watch that ends with an error needs nothing of the others. *)
Lemma terminal_inv h s ts s' ts' id c err :
  ClientInv h s ts id c → (isContext err = true → c_ctx c ≠ None) → ClientInv h s' ts' id (sendTerminal c err).
Proof. intros HC He. split; [apply HC|done|by apply sendTerminal_loud|apply HC|done|done]. Qed.
(** A watch that goes on with its work. *)
Lemma phase_inv h s ts id c p :
  ClientInv h s ts id c → running (c_phase c) → running p → p ≠ CWait → batchOk h p →
  ClientInv h s ts id (setPhase c p).
Proof.
  intros HC Hr Hp Hw Hb. split; [apply HC|done| |apply HC| |].
  - intros [E|E]; simpl in E; by subst p.
  - unfold fresh. simpl. by destruct p.
  - intros _. apply (attached_phase _ _ _ c); [done|]. by apply (ci_attached _ _ _ _ _ HC).
Qed.
Lemma deliver_inv h s ts id c e p c' :
  (∀ i e, h !! i = Some e → ev_Sequence e = Z.of_nat (S i)) → small h → ClientInv h s ts id c → running (c_phase c) →
  e ∈ h → ev_Sequence e = u64 (cu_Sequence (c_cursor c) + 1) → running p → p ≠ CWait → batchOk h p →
  delivers cfg c e p c' → ClientInv h s ts id c'.
Proof.
  intros Hn Hsm HC Hr He Hs Hp Hw Hb Hd.
  destruct (delivers_ok h Hsm Hn cfg c e p c' Hd (ci_stream _ _ _ _ _ HC) He Hs (ci_ctx _ _ _ _ _ HC) Hb) as (H1 & H2 & H3).
  destruct H3 as [[Hx Hl]| ->].
  - split; [done|by rewrite Hx|done|rewrite H2; apply HC|unfold fresh; by rewrite Hx|by rewrite Hx].
  - split; [done|done| |apply HC| |].
    + intros [E|E]; simpl in E; by subst p.
    + unfold fresh. simpl. by destruct p.
    + intros _. apply (attached_phase _ _ _ c); [done|]. by apply (ci_attached _ _ _ _ _ HC).
Qed.

(** Nothing to read from the ring means nothing was published since. *)
Lemma liveBatch_wait s id l tl cursor n :
  s_subs s !! id = Some l → s_tailers s !! ls_tailer l = Some tl → liveBatch s id cursor = Ok ([], n) →
  (n ≤ cu_Sequence cursor)%Z → (cu_Sequence (t_cursor tl) ≤ cu_Sequence cursor)%Z.
Proof.
  intros Hl Ht. unfold liveBatch. rewrite Hl, (tailerOf_Some _ _ _ Ht). case_match; [done|].
  destruct (Z.leb_spec (cu_Sequence (t_cursor tl)) (cu_Sequence cursor)); [done|].
  destruct (t_ring tl) as [|e ring] eqn:Er; [by intros [= <-]|]. case_match; [by intros [= <-]|].
  destruct (list_find _ _) as [[start x]|] eqn:Ef; [|by intros [= <-]].
  apply list_find_Some in Ef as (Hx & _ & _). intros [= Hd _]. apply lookup_lt_Some in Hx.
  apply (f_equal length) in Hd. rewrite length_drop in Hd. simpl in Hd, Hx. lia.
Qed.
Lemma liveBatch_log h s ts id cursor batch n :
  SubInv h s ts → liveBatch s id cursor = Ok (batch, n) → Forall (λ e, e ∈ h) batch.
Proof.
  intros HI. unfold liveBatch. set (t := match s_subs s !! id with Some l => ls_tailer l | None => 0 end).
  assert (Forall (λ e, e ∈ h) (t_ring (tailerOf s t))) as Hr.
  { unfold tailerOf. destruct (s_tailers s !! t) eqn:E; [by eapply si_ring|by constructor]. }
  destruct (negb _); [done|]. destruct (_ <=? _)%Z; [intros [= <- <-]; constructor|].
  destruct (t_ring (tailerOf s t)) as [|e ring]; [intros [= <- <-]; constructor|].
  destruct (_ <? _)%Z; [intros [= <- <-]; constructor|].
  destruct (list_find _ _) as [[start x]|]; intros [= <- <-]; [by apply Forall_drop|constructor].
Qed.
Lemma admitCursor_range raw b now cursor bootstrap :
  (0 ≤ bo_HighWater b < 2 ^ 64)%Z → admitCursor cfg uuidValid raw b now = Ok (cursor, bootstrap) →
  (0 ≤ cu_Sequence cursor < 2 ^ 64)%Z.
Proof.
  intros Hb. unfold admitCursor. case_match; [done|]. case_match; [by intros [= <- _]|].
  destruct (ParseCursor uuidValid raw) eqn:Ep; [|by case_match]. repeat case_match; try done.
  intros [= <- _]. by destruct (ParseCursor_range _ _ _ Ep).
Qed.

Lemma ended_inv h s ts s' ts' id c err : ClientInv h s ts id c → ClientInv h s' ts' id (setPhase c (CRefused err)).
Proof. intros HC. split; [apply HC|done|by intros [|]|apply HC|done|done]. Qed.
Lemma live_inv h s ts id c :
  SubInv h s ts → ClientInv h s ts id c → running (c_phase c) →
  ClientInv h s ts id
    (match liveBatch s id (c_cursor c) with
     | Err e => sendTerminal c e
     | Ok (batch, highWater) =>
         if (cu_Sequence (c_cursor c) <? highWater)%Z then setPhase c (CReplay highWater 0)
         else match batch with [] => setPhase c CWait | _ => setPhase c (CDeliver batch) end
     end).
Proof.
  intros HI HC Hr. destruct (liveBatch s id (c_cursor c)) as [[batch n]|e] eqn:Eb.
  2: { apply (terminal_inv h s ts); [done|]. unfold liveBatch in Eb. repeat case_match; simplify_eq; done. }
  destruct (Z.ltb_spec (cu_Sequence (c_cursor c)) n); [by apply phase_inv|].
  pose proof (liveBatch_log h s ts id _ _ _ HI Eb) as Hb. destruct batch as [|e batch]; [|by apply phase_inv].
  destruct (ci_attached _ _ _ _ _ HC Hr) as (l & tl & H1 & H2 & H3 & H4 & _).
  split; [apply HC|done|by intros [|]|apply HC|done|]. intros _. exists l, tl. split_and!; [done..|].
  intros _. right. simpl. by apply (liveBatch_wait s id l tl _ n).
Qed.
Lemma woken_inv h s ts id c l :
  ClientInv h s ts id c → running (c_phase c) → s_subs s !! id = Some l →
  ClientInv h (setSub s id (mkLive (ls_tailer l) false (ls_errors l))) ts id (setPhase c CLive).
Proof.
  intros HC Hr Hl. destruct (ci_attached _ _ _ _ _ HC Hr) as (l' & tl & H1 & H2 & H3 & H4 & _). simplify_eq.
  split; [apply HC|done|by intros [|]|apply HC|done|]. intros _.
  eexists _, tl. simpl. rewrite lookup_insert_eq. split; [done|]. by split_and!.
Qed.
Lemma unregister_any h s ts id :
  SubInv h s ts → SubInv h (unregisterLive s id) ts ∧
  ∀ id' c, id' ≠ id → attached s ts id' c → attached (unregisterLive s id) ts id' c.
Proof.
  intros HI. destruct (s_subs s !! id) as [l|] eqn:El; [|unfold unregisterLive; by rewrite El].
  destruct (si_subs _ _ _ HI id l El) as [tl Ht]. by apply (unregister_inv h s ts id l tl).
Qed.
Lemma client_step_inv h j s ts id c s' c' :
  ws_logged h j → small h → SubInv h s ts → ClientInv h s ts id c → client_step cfg uuidValid j s id c s' c' →
  SubInv h s' ts ∧ ClientInv h s' ts id c' ∧ ∀ id' c0, id' ≠ id → attached s ts id' c0 → attached s' ts id' c0.
Proof.
  intros Hlog Hsm HI HC Hst. pose proof (ws_numbered h j) as Hn.
  assert (∀ i e, h !! i = Some e → ev_Sequence e = Z.of_nat (S i)) as Hnum by eauto. clear Hn.
  destruct Hst as [c raw e Hp Hb|c raw b now Hp Hb|c hw n e Hp Hc Hr Hx|c hw n Hp Hc Hr|c hw n err Hp Hc Hr Hx
    |c hw n batch Hp Hc Hr Hne|c hw n Hp Hc|c hw n Hp|c hw n e batch Hp Hc|c hw n e batch Hp Hc Hs
    |c hw n e batch Hp Hc Hs Hm|c hw n e batch c' Hp Hc Hs Hm Hd|c Hp|c Hp|c e batch Hp Hs|c e batch c' Hp Hs Hd
    |c err Hp Hx|c l Hp Hl Hrd|c l err Hp Hl He|c Hp].
  all: pose proof (ci_batch _ _ _ _ _ HC) as Hbt; rewrite Hp in Hbt; simpl in Hbt.
  all: try (split_and!; [done| |done]).
  - by apply (ended_inv h s ts).
  - destruct (admitCursor _ _ _ _ _) as [[cursor bootstrap]|e] eqn:Ea; [|by apply (ended_inv h s ts)].
    pose proof (ci_fresh _ _ _ _ _ HC) as Hf. unfold fresh in Hf. rewrite Hp in Hf. destruct Hf as (F1 & F2 & F3).
    pose proof (admitCursor_range _ _ _ _ _ (ws_bounds_range h j b Hlog Hsm Hb) Ea) as Hr.
    split; [|done|by intros [|]|apply HC|done|done]. split; [done|]. split; [simpl; lia|].
    exists []. simpl. rewrite F1, F2, F3. split; [done|]. split; [simpl; lia|done].
  - by apply (terminal_inv h s ts).
  - done.
  - apply (terminal_inv h s ts); [done|]. by rewrite Hx.
  - apply phase_inv; try done; [by rewrite Hp|]. by eapply ws_read_logged.
  - apply phase_inv; try done. by rewrite Hp.
  - apply phase_inv; try done. by rewrite Hp.
  - apply phase_inv; try done. by rewrite Hp.
  - by apply (terminal_inv h s ts).
  - by apply (terminal_inv h s ts).
  - apply Forall_cons in Hbt as [He Hbt]. apply (deliver_inv h s ts id c e (CReplaying hw (n + 1) batch)); try done. by rewrite Hp.
  - apply live_inv; [done..|by rewrite Hp].
  - apply phase_inv; try done. by rewrite Hp.
  - by apply (terminal_inv h s ts).
  - apply Forall_cons in Hbt as [He Hbt]. apply (deliver_inv h s ts id c e (CDeliver batch)); try done. by rewrite Hp.
  - split; [apply HC|done| |apply HC|done|done]. intros _. right. simpl. congruence.
  - split_and!; [apply setSub_inv; [done|exact (λ e, si_errors _ _ _ HI _ _ e Hl)|exact (si_subs _ _ _ HI _ _ Hl)]| |by intros; apply setSub_attached].
    apply (woken_inv h s ts); [done|by rewrite Hp|done].
  - split_and!; [apply setSub_inv; [done|done|exact (si_subs _ _ _ HI _ _ Hl)]| |by intros; apply setSub_attached].
    apply (terminal_inv h s ts); [done|]. by rewrite (si_errors _ _ _ HI _ _ _ Hl He).
  - destruct (unregister_any h s ts id HI) as [H1 H2]. split_and!; [done| |done].
    split; [apply HC|done| |apply HC|done|done]. intros _. apply (ci_loud _ _ _ _ _ HC). by left.
Qed.

Lemma SubInv_grow h h' s ts : (∀ e, e ∈ h → e ∈ h') → SubInv h s ts → SubInv h' s ts.
Proof.
  intros Hh HI. split; try apply HI.
  - intros t tl Ht. eapply Forall_impl; [by eapply si_ring|done].
  - intros t b Ht. eapply Forall_impl; [by eapply si_publish|done].
Qed.
Lemma ClientInv_grow h h' s ts id c : (∀ e, e ∈ h → e ∈ h') → ClientInv h s ts id c → ClientInv h' s ts id c.
Proof.
  intros Hh HC. split; try apply HC; [by eapply streamOk_grow, HC|].
  pose proof (ci_batch _ _ _ _ _ HC) as Hb. destruct (c_phase c); try done; eapply Forall_impl; eauto.
Qed.
(** One client changes, and the others keep their registrations. *)
Lemma clients_inv h s ts s' ts' (cs : gmap nat Client) id c' :
  (∀ i c, cs !! i = Some c → ClientInv h s ts i c) → ClientInv h s' ts' id c' →
  (∀ i c, i ≠ id → attached s ts i c → attached s' ts' i c) →
  ∀ i c, <[id := c']> cs !! i = Some c → ClientInv h s' ts' i c.
Proof.
  intros Hcs Hc Ha i c [[<- <-]|[Hne Hi]]%lookup_insert_Some; [done|].
  eapply ClientInv_frame; [|by apply Hcs]. intros _. by apply Ha.
Qed.

Lemma sys_step_inv y y' :
  sys_step cfg uuidValid y y' → small (y_log y') → SysInv y → SysInv y'.
Proof.
  intros Hst Hsm [Hlog HI Hcs]. destruct Hst as [h j s cs ts o j' Hw|h j s cs ts id raw Hid|h j s cs ts id c err Hid Herr
    |h j s cs ts id c e es Hid He|h j s cs ts id c b bs fr r s' Hid Hp Hfr Hsub Hreg|h j s cs ts id c s' c' Hid Hc
    |h j s cs ts t ph s' ph' Ht Hstep]; simpl in *.
  - assert (∀ e, e ∈ h → e ∈ h ++ o) as Hin by set_solver.
    split; simpl; [by apply (ws_logged_write h j)|by eapply SubInv_grow|]. intros i c Hi. eapply ClientInv_grow; eauto.
  - split; simpl; [done|done|]. apply (clients_inv h s ts); [done| |done].
    split; [|done|by intros [|]|done|done|done]. split; [simpl; lia|]. split; [simpl; lia|]. exists []. done.
  - split; simpl; [done|done|]. apply (clients_inv h s ts); [done| |done]. pose proof (Hcs id c Hid) as HC.
    split; [apply HC|apply HC|by right|by intros ? [= <-]|apply HC|]. intros Hr.
    destruct (ci_attached _ _ _ _ _ HC Hr) as (l & tl & H). by exists l, tl.
  - split; simpl; [done|done|]. apply (clients_inv h s ts); [done| |done]. pose proof (Hcs id c Hid) as HC.
    split; [|apply HC|apply HC|apply HC| |].
    + destruct (ci_stream _ _ _ _ _ HC) as (H1 & H2 & l & H3 & H4). split; [done|]. split; [done|]. exists l. simpl.
      split; [|done]. by rewrite <- app_assoc, <- H3, He.
    + pose proof (ci_fresh _ _ _ _ _ HC) as Hf. unfold fresh in *. simpl. destruct (c_phase c); try done; naive_solver congruence.
    + intros Hr. destruct (ci_attached _ _ _ _ _ HC Hr) as (l & tl & H). by exists l, tl.
  - destruct (register_inv cfg h s ts fr id (c_cursor c) b r s' HI Hfr Hsub Hreg) as (H1 & H2 & H3).
    split; simpl; [done|done|]. apply (clients_inv h s ts); [done| |done]. pose proof (Hcs id c Hid) as HC.
    destruct r as [n|e]; [|by apply (ended_inv h s ts)].
    pose proof (ci_fresh _ _ _ _ _ HC) as Hf. unfold fresh in Hf. rewrite Hp in Hf. destruct Hf as (F1 & F2 & F3 & F4).
    destruct (ci_stream _ _ _ _ _ HC) as (G1 & G2 & _).
    split; [|done|by intros [|]|apply HC|done|intros _; by apply (H3 n)].
    split; [done|]. split; [done|]. exists []. simpl. rewrite F1, F2, app_nil_r. split; [done|]. split; [simpl; lia|done].
  - destruct (client_step_inv h j s ts id c s' c' Hlog Hsm HI (Hcs id c Hid) Hc) as (H1 & H2 & H3).
    split; simpl; [done|done|]. by apply (clients_inv h s ts).
  - destruct (tail_step_inv h j s ts t ph s' ph' Hlog Hsm HI Ht Hstep) as [H1 H2]. split; simpl; [done|done|].
    intros i c Hi. eapply ClientInv_frame; [|by apply Hcs]. intros _. apply H2.
Qed.
Lemma sys_step_grows y y' : sys_step cfg uuidValid y y' → length (y_log y) ≤ length (y_log y').
Proof. intros []; simpl; rewrite ?length_app; lia. Qed.
Lemma sys_reachable_inv h0 j0 y :
  ws_logged h0 j0 → rtc (sys_step cfg uuidValid) (startSys h0 j0) y → small (y_log y) → SysInv y.
Proof.
  intros Hlog Hr Hsm. assert (SysInv (startSys h0 j0)) as H0.
  { split; [done|split; simpl|simpl]; intros *; rewrite ?lookup_empty; try done; by intros [? [=]]. }
  revert H0. induction Hr as [y|y y1 y2 Hst Hr IH]; intros H0; [done|]. apply IH; [done|].
  apply (sys_step_inv y); [done| |done]. unfold small in *.
  assert (length (y_log y1) ≤ length (y_log y2)); [|lia].
  clear -Hr. induction Hr as [|y y1 y2 Hst Hr IH]; [done|]. apply sys_step_grows in Hst. lia.
Qed.

(** C21: a watch is a gapless window of the log, and never ends in silence.
    Whatever writers, other watches, the shared poller, slow consumers and
    failures of the store do, in any interleaving: what a watch has put into
    its channel, after the bookmark of a bootstrap, is exactly the events of the
    log after the position it started from, up to its cursor, in order; and
    once it has stopped, it has reported an error, unless its caller's context
    is done. *)
Theorem watch_stream_exact h0 j0 y id c :
  ws_logged h0 j0 → rtc (sys_step cfg uuidValid) (startSys h0 j0) y → small (y_log y) →
  y_clients y !! id = Some c →
  (∃ l, c_received c ++ c_events c = c_boot c ++ l ∧
     l = take (length l) (drop (Z.to_nat (c_start c)) (y_log y)) ∧
     cu_Sequence (c_cursor c) = (c_start c + Z.of_nat (length l))%Z) ∧
  (c_phase c = CStopped → c_errorsOut c ≠ None ∨ c_ctx c ≠ None).
Proof.
  intros Hlog Hr Hsm Hid. pose proof (sys_reachable_inv h0 j0 y Hlog Hr Hsm) as HY.
  pose proof (yi_clients _ HY id c Hid) as HC. split.
  - destruct (ci_stream _ _ _ _ _ HC) as (_ & H0 & l & Hl & Hf). exists l. split_and!; [done| |apply Hf].
    apply (follows_log _ _ _ (cu_Sequence (c_cursor c))); [|done|done]. intros i e. apply (ws_numbered _ (y_journal y)), HY.
  - intros Hp. apply (ci_loud _ _ _ _ _ HC). by right.
Qed.

(** C23: no wake-up is lost. A watch that is blocked - it waits, with neither a
    wake-up nor an error in its channels, and no failing poller is about to
    report one - has everything its poller published, and the poller runs; so
    once the poller finds nothing more in the journal, the watch has been sent
    the log to its end. *)
Theorem no_lost_wakeup h0 j0 y id c :
  ws_logged h0 j0 → rtc (sys_step cfg uuidValid) (startSys h0 j0) y → small (y_log y) →
  y_clients y !! id = Some c → c_phase c = CWait →
  ∃ l tl, s_subs (y_sub y) !! id = Some l ∧ s_tailers (y_sub y) !! ls_tailer l = Some tl ∧
    (ls_ready l = false → ls_errors l = None →
     (∀ err pending, y_tails y !! ls_tailer l = Some (TFailing err pending) → id ∉ pending) →
     s_live (y_sub y) = Some (ls_tailer l) ∧ (∃ ph, y_tails y !! ls_tailer l = Some ph ∧ active ph) ∧
     (cu_Sequence (t_cursor tl) ≤ cu_Sequence (c_cursor c))%Z ∧
     (ws_ReadAfter (y_journal y) (t_cursor tl) (ReadBatchSize cfg) (Ok []) →
      (Z.of_nat (length (y_log y)) ≤ cu_Sequence (c_cursor c))%Z)).
Proof.
  intros Hlog Hr Hsm Hid Hp. pose proof (sys_reachable_inv h0 j0 y Hlog Hr Hsm) as HY.
  pose proof (yi_clients _ HY id c Hid) as HC.
  destruct (ci_attached _ _ _ _ _ HC) as (l & tl & H1 & H2 & H3 & H4 & H5); [by rewrite Hp|].
  exists l, tl. split; [done|]. split; [done|]. intros Hrd He Hn.
  assert (s_live (y_sub y) = Some (ls_tailer l)) as Hl.
  { destruct H4 as [?|[(err & pending & Hf & Hin)|?]]; [done| |done]. by destruct (Hn err pending). }
  destruct (H5 Hp) as [?|Hcur]; [congruence|].
  split_and!; [done|by apply (si_live _ _ _ (yi_sub _ HY))|done|].
  intros Hread. transitivity (cu_Sequence (t_cursor tl)); [|done]. by eapply ws_read_end, Hread; apply HY.
Qed.
End steps.

(** ** The in-memory journal serves watches

    The journal of [WatchJournal] is a store watches can rely on, and a watch
    that is told of an event while it waits. *)


#[export] Instance journalStore : WatchStore Journal := {|
  ws_Bounds j r := r = Ok (Bounds j);
  ws_ReadAfter j c n r := r = match ReadAfter j c n with Ok out => Ok out | Err e => Err (EJournal e) end;
  ws_write j es j' := ∃ o, es = option_list o ∧ journalStep j o j';
|}.

Lemma readLimit_pos n : 0 < readLimit n.
Proof.
  unfold readLimit. destruct (Z.leb_spec n 0); simpl; [lia|]. destruct (Z.ltb_spec 256 n); lia.
Qed.
Lemma ReadAfter_in h j c n out : logged h j → ReadAfter j c n = Ok out → Forall (λ e, e ∈ h) out.
Proof.
  intros (_ & (k & Hk & _) & _). unfold ReadAfter. case_match; [done|].
  destruct (namespaceWatchEvents j) as [|e es] eqn:E; [case_match; intros [= <-]; constructor|].
  case_match; intros [= <-]. apply Forall_forall. intros x Hx.
  apply elem_of_take in Hx as (i & Hi & _). apply list_elem_of_lookup_2, list_elem_of_filter in Hi as [_ Hi].
  rewrite Hk in Hi. apply list_elem_of_lookup in Hi as (i' & Hi). rewrite lookup_drop in Hi. by eapply list_elem_of_lookup_2.
Qed.
Lemma ReadAfter_end h j c n : logged h j → ReadAfter j c n = Ok [] → (Z.of_nat (length h) ≤ cu_Sequence c)%Z.
Proof.
  intros (Hs & (k & Hk & Hle) & Hn). unfold ReadAfter. case_match; [done|].
  destruct (namespaceWatchEvents j) as [|e es] eqn:E.
  - destruct (Z.ltb_spec (cu_Sequence c) (namespaceWatchSequence j)); [done|]. intros _. lia.
  - case_match; intros [= Ht]. assert (k < length h) as Hlt.
    { apply (f_equal length) in Hk. rewrite length_drop in Hk. simpl in Hk. lia. }
    destruct (lookup_lt_is_Some_2 h (pred (length h))) as [x Hx]; [lia|].
    destruct (Hn _ _ Hx) as [Hseq _]. destruct (decide (cu_Sequence c < ev_Sequence x)%Z) as [Hc|]; [|lia]. exfalso.
    assert (x ∈ filter (λ e, cu_Sequence c < ev_Sequence e)%Z (e :: es)) as Hin.
    { apply list_elem_of_filter. split; [done|]. rewrite Hk. apply list_elem_of_lookup. exists (pred (length h) - k).
      rewrite lookup_drop. by replace (k + (pred (length h) - k)) with (pred (length h)) by lia. }
    pose proof (readLimit_pos n). destruct (filter _ (e :: es)); [by apply elem_of_nil in Hin|].
    by destruct (readLimit n); [lia|].
Qed.
#[export] Program Instance journalStore_laws : WatchStoreLaws Journal := {| ws_logged := logged |}.
Next Obligation. intros h j i e (_ & _ & Hn) Hi. by apply Hn. Qed.
Next Obligation.
  intros h j es j' Hl (o & -> & Hw) Hs. apply (journalStep_logged h j); [done..|].
  unfold small in Hs. rewrite length_app in Hs. lia.
Qed.
Next Obligation. intros h j b (Hs & _) Hsm [= ->]. simpl. rewrite Hs. unfold small in Hsm. lia. Qed.
Next Obligation.
  intros h j c n out Hl _ Hr. simpl in Hr. destruct (ReadAfter j c n) eqn:E; simplify_eq. by eapply ReadAfter_in.
Qed.
Next Obligation. intros h j c n Hl Hr. simpl in Hr. destruct (ReadAfter j c n) eqn:E; simplify_eq. by eapply ReadAfter_end. Qed.

(** ** A watch that waits for an event *)

Definition exConfig : SubscriberConfig := normalizeConfig (mkSubscriberConfig 0 0 0 0 0 0 0).
Notation exStep := (sys_step (J := Journal) exConfig (λ _, true)).
Definition exWaiting (c : Client) : Prop := c_phase c = CWait ∧ c_events c = [exEvent 1 1] ∧ c_start c = 0%Z.

Lemma client_rtc h j s cs ts id c s' c' y :
  cs !! id = Some c → client_step exConfig (λ _, true) j s id c s' c' →
  rtc exStep (mkSys h j s' (<[id := c']> cs) ts) y → rtc exStep (mkSys h j s cs ts) y.
Proof. intros Hc Hs. apply rtc_l. by eapply ys_client. Qed.
Lemma tail_rtc h j s cs ts t ph s' ph' y :
  ts !! t = Some ph → tail_step exConfig j s t ph s' ph' →
  rtc exStep (mkSys h j s' cs (<[t := ph']> ts)) y → rtc exStep (mkSys h j s cs ts) y.
Proof. intros Hc Hs. apply rtc_l. by eapply ys_tail. Qed.

Lemma exWatch_runs :
  ∃ y c, rtc exStep (startSys [] exJournal) y ∧ y_log y = [exEvent 1 1] ∧ y_clients y !! 0 = Some c ∧ exWaiting c ∧
    s_subs (y_sub y) !! 0 = Some (mkLive 0 false None) ∧ y_tails y !! 0 = Some TPoll.
Proof.
  eexists _, _. split.
  { eapply rtc_l; [by apply (ys_call _ _ [] exJournal _ _ _ 0 "")|].
    eapply (client_rtc _ _ _ _ _ 0); [reflexivity|by eapply (cs_bounds _ _ _ _ 0 _ "" _ 0)|]. cbn -[lookup insert].
    eapply rtc_l; [by eapply (ys_register _ _ _ _ _ _ _ 0 _ _ _ 0)|]. cbn -[lookup insert].
    eapply (client_rtc _ _ _ _ _ 0); [reflexivity|by eapply cs_replayed|]. cbn -[lookup insert].
    eapply (client_rtc _ _ _ _ _ 0); [reflexivity|by eapply cs_live|]. cbn -[lookup insert].
    eapply rtc_l; [apply (ys_write _ _ _ exJournal _ _ _ [exEvent 1 1] (exRecord exJournal 1)); exists (Some (exEvent 1 1)); split; [done|by eapply step_record]|].
    eapply (tail_rtc _ _ _ _ _ 0); [reflexivity|by eapply ts_poll|].
    eapply (tail_rtc _ _ _ _ _ 0); [reflexivity|by eapply (ts_read _ _ _ _ _ [exEvent 1 1])|].
    eapply (tail_rtc _ _ _ _ _ 0); [reflexivity|by eapply ts_publish|]. cbn -[lookup insert].
    eapply (client_rtc _ _ _ _ _ 0); [reflexivity|by eapply cs_wait_ready|]. cbn -[lookup insert].
    eapply (client_rtc _ _ _ _ _ 0); [reflexivity|by eapply cs_live|]. cbn -[lookup insert].
    eapply (client_rtc _ _ _ _ _ 0); [reflexivity|by eapply cs_deliver; [| |apply dl_sent]|]. cbn -[lookup insert].
    eapply (client_rtc _ _ _ _ _ 0); [reflexivity|by eapply cs_deliver_end|]. cbn -[lookup insert].
    eapply (client_rtc _ _ _ _ _ 0); [reflexivity|by eapply cs_live|]. cbn -[lookup insert].
    reflexivity. }
  split; [reflexivity|]. split; [reflexivity|]. split; [done|]. split; reflexivity.
Qed.

Lemma exLogged : logged [] exJournal.
Proof. split_and!; [done|by exists 0|]. intros i e. by rewrite lookup_nil. Qed.

Lemma watch_stream_exact_witness :
  ∃ y c, rtc exStep (startSys [] exJournal) y ∧ y_clients y !! 0 = Some c ∧ exWaiting c ∧
    ∃ l, c_received c ++ c_events c = c_boot c ++ l ∧ l = take (length l) (drop (Z.to_nat (c_start c)) (y_log y)).
Proof.
  destruct exWatch_runs as (y & c & Hr & Hlog & Hc & Hw & _). exists y, c. split; [exact Hr|]. split; [exact Hc|].
  split; [exact Hw|].
  destruct (watch_stream_exact (WL := journalStore_laws) exConfig (λ _, true) [] exJournal y 0 c exLogged Hr) as [(l & H1 & H2 & _) _];
    [rewrite Hlog; unfold small; simpl; lia|exact Hc|]. exists l. split; [exact H1|exact H2].
Defined.
Lemma no_lost_wakeup_witness :
  ∃ y c tl, rtc exStep (startSys [] exJournal) y ∧ y_clients y !! 0 = Some c ∧ exWaiting c ∧
    s_live (y_sub y) = Some 0 ∧ s_tailers (y_sub y) !! 0 = Some tl ∧
    (cu_Sequence (t_cursor tl) ≤ cu_Sequence (c_cursor c))%Z.
Proof.
  destruct exWatch_runs as (y & c & Hr & Hlog & Hc & Hw & Hs & Ht).
  destruct (no_lost_wakeup (WL := journalStore_laws) exConfig (λ _, true) [] exJournal y 0 c exLogged Hr) as (l & tl & H1 & H2 & H3);
    [rewrite Hlog; unfold small; simpl; lia|exact Hc|apply Hw|].
  rewrite Hs in H1. injection H1 as <-. destruct H3 as (H4 & _ & H5 & _); [reflexivity|reflexivity| |].
  { intros err pending Hf. change (ls_tailer (mkLive 0 false None)) with 0 in Hf. rewrite Ht in Hf. discriminate. }
  exists y, c, tl. split; [exact Hr|]. split; [exact Hc|]. split; [exact Hw|]. split; [exact H4|]. split; [exact H2|exact H5].
Defined.
