(* ===== verification/WatchFilter.v ===== *)
(** * Filtered watches

    Label selectors ([gitstore-api/internal/catalog/selector.go] and
    [admin/graph/resolver/label_selector.go]) and the projection of journal
    events onto a watch with a kind, a namespace and a selector ([watch.go],
    [product_watch.go] and [repository_watch.go] of the resolver). *)

From S2P Require Import Prelude WatchJournal.

Notation LabelMap := (gmap string string).
(** What a consumer knows: the labels and the payload under a namespace and a
    name. *)
Notation View := (gmap (string * string) (Labels * option string)).

(** ** Selectors *)

Record LabelSelectorRequirement : Type := mkRequirement {
  rq_Key : string;
  rq_Operator : string;
  rq_Values : list string;
}.
Record LabelSelector : Type := mkSelector {
  MatchLabels : LabelMap;
  MatchExpressions : list LabelSelectorRequirement;
}.

Definition containsString (ss : list string) (s : string) : bool := existsb (λ v, bool_decide (v = s)) ss.
(** One step of the loop over the expressions; operators it does not know
    restrict nothing. *)
Definition satisfies (labels : LabelMap) (req : LabelSelectorRequirement) : bool :=
  let val := labels !! rq_Key req in
  if bool_decide (rq_Operator req = "In") then
    match val with None => false | Some v => containsString (rq_Values req) v end
  else if bool_decide (rq_Operator req = "NotIn") then
    match val with Some v => negb (containsString (rq_Values req) v) | None => true end
  else if bool_decide (rq_Operator req = "Exists") then
    match val with Some _ => true | None => false end
  else if bool_decide (rq_Operator req = "DoesNotExist") then
    match val with Some _ => false | None => true end
  else true.
(** A missing label reads as the empty string. *)
Definition MatchesLabels (selector : option LabelSelector) (labels : LabelMap) : bool :=
  match selector with
  | None => false
  | Some sel =>
      if bool_decide (MatchLabels sel = ∅) && bool_decide (length (MatchExpressions sel) = 0) then false else
      forallb (λ kv, bool_decide (default "" (labels !! kv.1) = kv.2)) (map_to_list (MatchLabels sel)) &&
      forallb (satisfies labels) (MatchExpressions sel)
  end.

(** [model.LabelSelectorInput]: the values of [matchLabels] are any JSON
    scalars, rendered by [fmt.Sprint]. *)
Inductive LabelSelectorOperator : Type := OpIn | OpNotIn | OpExists | OpDoesNotExist | OpOther (name : string).
Record LabelSelectorRequirementInput : Type := mkRequirementInput {
  ri_Key : string;
  ri_Operator : LabelSelectorOperator;
  ri_Values : list string;
}.
Definition catalogOperator (op : LabelSelectorOperator) : string :=
  match op with
  | OpIn => "In" | OpNotIn => "NotIn" | OpExists => "Exists" | OpDoesNotExist => "DoesNotExist" | OpOther _ => ""
  end.

Section selectors.
Context {Any : Type} (Sprint : Any → string).
Record LabelSelectorInput : Type := mkSelectorInput {
  in_MatchLabels : gmap string Any;
  in_MatchExpressions : list (option LabelSelectorRequirementInput);
}.
Definition toCatalogLabelSelector (sel : LabelSelectorInput) : LabelSelector :=
  mkSelector (Sprint <$> in_MatchLabels sel)
    (omap (λ o, q ← o; Some (mkRequirement (ri_Key q) (catalogOperator (ri_Operator q)) (ri_Values q)))
       (in_MatchExpressions sel)).
(** [selector == nil] or both of its parts are empty: no filter. *)
Definition noFilter (selector : option LabelSelectorInput) : bool :=
  match selector with
  | None => true
  | Some sel => bool_decide (dom (in_MatchLabels sel) = ∅) && bool_decide (length (in_MatchExpressions sel) = 0)
  end.
Definition matchesWatchSelector (selector : option LabelSelectorInput) (labels : Labels) : bool :=
  if noFilter selector then true
  else MatchesLabels (toCatalogLabelSelector <$> selector) (default ∅ labels).

(** ** Projections *)

Definition retype (e : ResourceWatchEvent) (ty : ResourceWatchEventType) : ResourceWatchEvent :=
  mkEvent (ev_Epoch e) (ev_Sequence e) ty (ev_Kind e) (ev_Namespace e) (ev_Name e) (ev_Payload e)
    (ev_SelectorLabels e) (ev_PreviousSelectorLabels e) (ev_DeduplicationKey e) (ev_FencingToken e) (ev_At e).
Definition relabel (e : ResourceWatchEvent) (labels : Labels) : ResourceWatchEvent :=
  mkEvent (ev_Epoch e) (ev_Sequence e) (ev_Type e) (ev_Kind e) (ev_Namespace e) (ev_Name e) (ev_Payload e)
    labels (ev_PreviousSelectorLabels e) (ev_DeduplicationKey e) (ev_FencingToken e) (ev_At e).
(** The tombstone of a resource that left the selector. *)
Definition left (e : ResourceWatchEvent) (labels : Labels) : ResourceWatchEvent :=
  mkEvent (ev_Epoch e) (ev_Sequence e) ResourceWatchDeleted (ev_Kind e) (ev_Namespace e) (ev_Name e) None
    labels (ev_PreviousSelectorLabels e) (ev_DeduplicationKey e) (ev_FencingToken e) (ev_At e).
Definition isBookmark (e : ResourceWatchEvent) : bool := bool_decide (ev_Type e = ResourceWatchBookmark).

Definition projectResourceJournalSelector (e : ResourceWatchEvent) (selector : option LabelSelectorInput)
  : ResourceWatchEvent * bool :=
  if noFilter selector || isBookmark e then (e, true) else
  let current := matchesWatchSelector selector (ev_SelectorLabels e) in
  if negb (bool_decide (ev_Type e = ResourceWatchModified)) then (e, current) else
  let previous := matchesWatchSelector selector (ev_PreviousSelectorLabels e) in
  if previous && current then (e, true)
  else if negb previous && current then (retype e ResourceWatchAdded, true)
  else if previous then (left e (ev_PreviousSelectorLabels e), true)
  else (e, false).

(** The labels of the payload, where [json.Unmarshal] reads it: the fallback of
    the projections of namespaces, repositories and products for an envelope
    without labels. A deletion or a bookmark has no object. *)
Variable decodeLabels : string → option Labels.
Definition payloadLabels (e : ResourceWatchEvent) : option Labels :=
  match ev_Type e with
  | ResourceWatchDeleted | ResourceWatchBookmark => None
  | _ => match ev_Payload e with
         | Some p => if bool_decide (p = "") then None else decodeLabels p
         | None => None
         end
  end.
Definition currentLabels (e : ResourceWatchEvent) : Labels :=
  match ev_SelectorLabels e with
  | Some l => Some l
  | None => match payloadLabels e with Some l => l | None => None end
  end.

Definition projectRepositoryJournalEvent (e : ResourceWatchEvent) (selector : option LabelSelectorInput)
  : ResourceWatchEvent * bool :=
  if noFilter selector then (e, true) else
  if isBookmark e then (e, true) else
  projectResourceJournalSelector (relabel e (currentLabels e)) selector.
Definition projectNamespaceJournalEventForSelector (e : ResourceWatchEvent) (selector : option LabelSelectorInput)
  : ResourceWatchEvent * bool :=
  if noFilter selector then (e, true) else
  if isBookmark e then (e, true) else
  let current := matchesWatchSelector selector (currentLabels e) in
  if negb (bool_decide (ev_Type e = ResourceWatchModified)) then (e, current) else
  let previous := matchesWatchSelector selector (ev_PreviousSelectorLabels e) in
  if previous && current then (e, true)
  else if negb previous && current then (retype e ResourceWatchAdded, true)
  else if previous then (left e (ev_PreviousSelectorLabels e), true)
  else (e, false).
Definition projectProductJournalEvent (e : ResourceWatchEvent) (selector : option LabelSelectorInput)
  : ResourceWatchEvent * bool :=
  if noFilter selector || isBookmark e then (e, true) else
  let current := matchesWatchSelector selector (currentLabels e) in
  if negb (bool_decide (ev_Type e = ResourceWatchModified)) then (e, current) else
  let previous := matchesWatchSelector selector (ev_PreviousSelectorLabels e) in
  if previous && negb current then (left e (ev_SelectorLabels e), true)
  else (if negb previous && current then retype e ResourceWatchAdded else e, previous || current).

(** The kind and the namespace of a watch; bookmarks go everywhere. *)
Definition inNamespaceOf (namespace : option string) (ns : string) : bool :=
  match namespace with None => true | Some n => bool_decide (n = "") || bool_decide (ns = n) end.
Definition journalEventMatches (kind : string) (namespace : option string) (e : ResourceWatchEvent) : bool :=
  isBookmark e || (bool_decide (ev_Kind e = kind) && inNamespaceOf namespace (ev_Namespace e)).

(** The body of the loops that serve a watch: what is sent for an event. *)
Definition serve (project : ResourceWatchEvent → option LabelSelectorInput → ResourceWatchEvent * bool)
    (kind : string) (namespace : option string) (selector : option LabelSelectorInput) (e : ResourceWatchEvent)
  : option ResourceWatchEvent :=
  if negb (journalEventMatches kind namespace e) then None else
  let '(p, matches) := project e selector in
  if matches : bool then Some p else None.
Definition serveCatalog := serve projectResourceJournalSelector.
Definition serveProduct := serve projectProductJournalEvent "Product".
Definition serveRepository := serve projectRepositoryJournalEvent "Repository".

(** ** What a consumer makes of the events *)

Definition eventKey (e : ResourceWatchEvent) : string * string := (ev_Namespace e, ev_Name e).
Definition observe (m : View) (e : ResourceWatchEvent) : View :=
  match ev_Type e with
  | ResourceWatchAdded | ResourceWatchModified => <[eventKey e := (ev_SelectorLabels e, ev_Payload e)]> m
  | ResourceWatchDeleted => delete (eventKey e) m
  | ResourceWatchBookmark => m
  end.
Definition observeAll (m : View) (es : list ResourceWatchEvent) : View := foldl observe m es.
(** The history of one kind. *)
Definition kindView (kind : string) (h : list ResourceWatchEvent) : View :=
  observeAll ∅ (filter (λ e, ev_Kind e = kind) h).
(** The part a watch may see. *)
Definition visible (namespace : option string) (selector : option LabelSelectorInput) (m : View) : View :=
  filter (λ kv, inNamespaceOf namespace kv.1.1 && matchesWatchSelector selector kv.2.1 = true) m.

(** An event that tells the truth about the resource it is about: additions are
    of absent resources, changes and deletions carry the labels it had. *)
Definition truthful (m : View) (e : ResourceWatchEvent) : Prop :=
  match ev_Type e with
  | ResourceWatchAdded => m !! eventKey e = None
  | ResourceWatchModified => ∃ p, m !! eventKey e = Some (ev_PreviousSelectorLabels e, p)
  | ResourceWatchDeleted => ∃ p, m !! eventKey e = Some (ev_SelectorLabels e, p)
  | ResourceWatchBookmark => True
  end.

Lemma visible_insert ns sel m k v :
  visible ns sel (<[k := v]> m) =
  if inNamespaceOf ns k.1 && matchesWatchSelector sel v.1 then <[k := v]> (visible ns sel m)
  else delete k (visible ns sel m).
Proof.
  unfold visible. destruct (_ && _) eqn:E.
  - by rewrite map_filter_insert_True.
  - rewrite map_filter_insert_False by (simpl; congruence). by rewrite map_filter_delete.
Qed.
Lemma visible_delete ns sel m k : visible ns sel (delete k m) = delete k (visible ns sel m).
Proof. apply map_filter_delete. Qed.
Lemma visible_absent ns sel m k :
  (∀ v, m !! k = Some v → inNamespaceOf ns k.1 && matchesWatchSelector sel v.1 = false) → delete k (visible ns sel m) = visible ns sel m.
Proof.
  intros H. apply delete_id. apply map_lookup_filter_None. destruct (m !! k) as [v|] eqn:E; [right|by left].
  intros v' [= <-]. simpl. by rewrite (H v eq_refl).
Qed.

(** Serving an event keeps the consumer's view at what it may see. *)
Lemma serve_visible kind ns sel m e :
  ev_Kind e = kind → truthful m e →
  visible ns sel (observe m e) =
  match serveCatalog kind ns sel e with Some p => observe (visible ns sel m) p | None => visible ns sel m end.
Proof.
  intros Hk Ht. unfold serveCatalog, serve, journalEventMatches, projectResourceJournalSelector, isBookmark.
  rewrite (bool_decide_eq_true_2 (ev_Kind e = kind)) by done. simpl.
  destruct (decide (ev_Type e = ResourceWatchBookmark)) as [Hb|Hb].
  { rewrite bool_decide_eq_true_2 by done. rewrite orb_true_l, orb_true_r. simpl. unfold observe. by rewrite Hb. }
  rewrite (bool_decide_eq_false_2 (ev_Type e = ResourceWatchBookmark)) by done. rewrite orb_false_l, orb_false_r.
  assert (∀ l, noFilter sel = true → matchesWatchSelector sel l = true) as Hno.
  { intros l Hn. unfold matchesWatchSelector. by rewrite Hn. }
  unfold truthful in Ht. unfold observe at 1.
  destruct (inNamespaceOf ns (ev_Namespace e)) eqn:En; simpl negb; cbn iota.
  2: { destruct (ev_Type e); [| | |done].
       - rewrite visible_insert. simpl. rewrite En. simpl. apply visible_absent. simpl. by rewrite En.
       - rewrite visible_insert. simpl. rewrite En. simpl. apply visible_absent. simpl. by rewrite En.
       - rewrite visible_delete. apply visible_absent. simpl. by rewrite En. }
  destruct (ev_Type e) eqn:Ety; [| | |done]; simpl negb; cbn iota.
  - rewrite visible_insert. simpl fst. rewrite En. rewrite andb_true_l.
    destruct (noFilter sel) eqn:Ef; [rewrite Hno by done; unfold observe; by rewrite Ety|].
    destruct (matchesWatchSelector sel (ev_SelectorLabels e)); [unfold observe; by rewrite Ety|].
    apply visible_absent. intros v Hv. congruence.
  - rewrite visible_insert. simpl fst. rewrite En. rewrite andb_true_l. destruct Ht as [p Hp].
    destruct (noFilter sel) eqn:Ef; [rewrite Hno by done; unfold observe; by rewrite Ety|].
    destruct (matchesWatchSelector sel (ev_SelectorLabels e)) eqn:E1,
      (matchesWatchSelector sel (ev_PreviousSelectorLabels e)) eqn:E2; simpl.
    + unfold observe. by rewrite Ety.
    + done.
    + done.
    + apply visible_absent. intros v Hv. rewrite Hp in Hv. injection Hv as <-. simpl. by rewrite E2, andb_false_r.
  - rewrite visible_delete. destruct Ht as [p Hp].
    destruct (noFilter sel) eqn:Ef; [unfold observe; by rewrite Ety|].
    destruct (matchesWatchSelector sel (ev_SelectorLabels e)) eqn:E1; [unfold observe; by rewrite Ety|].
    apply visible_absent. intros v Hv. rewrite Hp in Hv. injection Hv as <-. simpl. by rewrite E1, andb_false_r.
Qed.

(** A log whose events of a kind tell the truth. *)
Definition truthfulLog (kind : string) (h : list ResourceWatchEvent) : Prop :=
  ∀ i e, h !! i = Some e → ev_Kind e = kind → truthful (kindView kind (take i h)) e.

Lemma kindView_snoc kind h e :
  kindView kind (h ++ [e]) = if decide (ev_Kind e = kind) then observe (kindView kind h) e else kindView kind h.
Proof.
  unfold kindView, observeAll. rewrite filter_app, foldl_app, filter_cons, filter_nil. by case_decide.
Qed.
Lemma truthfulLog_snoc kind h e :
  truthfulLog kind (h ++ [e]) ↔ truthfulLog kind h ∧ (ev_Kind e = kind → truthful (kindView kind h) e).
Proof.
  unfold truthfulLog. split.
  - intros H. split.
    + intros i x Hi. pose proof (lookup_lt_Some _ _ _ Hi). specialize (H i x). rewrite lookup_app_l, take_app_le in H by lia. auto.
    + specialize (H (length h) e). rewrite list_lookup_middle, take_app_length in H by done. auto.
  - intros [H1 H2] i x [Hi|[Hi Hx]]%lookup_app_Some.
    + pose proof (lookup_lt_Some _ _ _ Hi). rewrite take_app_le by lia. by apply H1.
    + apply list_lookup_singleton_Some in Hx as [Hz <-]. replace i with (length h) by lia. by rewrite take_app_length.
Qed.
Lemma serve_other kind ns sel m e :
  ev_Kind e ≠ kind → observeAll m (option_list (serveCatalog kind ns sel e)) = m.
Proof.
  intros Hk. unfold serveCatalog, serve, journalEventMatches. rewrite (bool_decide_eq_false_2 (ev_Kind e = kind)) by done.
  simpl. rewrite orb_false_r. destruct (isBookmark e) eqn:Eb; [|done]. simpl.
  unfold projectResourceJournalSelector. rewrite Eb, orb_true_r. simpl. unfold observe.
  unfold isBookmark in Eb. apply bool_decide_eq_true in Eb. by rewrite Eb.
Qed.
(** A consumer that saw the matching resources at some position of the log and
    then what the watch serves sees the matching resources at the end. *)
Lemma served_view kind ns sel h p :
  truthfulLog kind h → p ≤ length h →
  observeAll (visible ns sel (kindView kind (take p h))) (omap (serveCatalog kind ns sel) (drop p h)) =
  visible ns sel (kindView kind h).
Proof.
  revert p. induction h as [|e h IH] using rev_ind; intros p Ht Hp; [by rewrite take_nil, drop_nil|].
  apply truthfulLog_snoc in Ht as [Ht He]. rewrite length_app in Hp. simpl in Hp.
  destruct (decide (p = length h + 1)) as [->|Hne].
  { rewrite take_ge, drop_ge by (rewrite length_app; simpl; lia). done. }
  rewrite take_app_le, drop_app_le by lia. rewrite omap_app. unfold observeAll. rewrite foldl_app.
  fold (observeAll (visible ns sel (kindView kind (take p h))) (omap (serveCatalog kind ns sel) (drop p h))).
  rewrite IH by (done || lia). rewrite kindView_snoc. case_decide as Hk.
  - rewrite (serve_visible kind ns sel _ e Hk (He Hk)). simpl. by destruct (serveCatalog kind ns sel e).
  - rewrite <- (serve_other kind ns sel (visible ns sel (kindView kind h)) e Hk) at 2. simpl.
    by destruct (serveCatalog kind ns sel e).
Qed.

(** The other projections differ only where an envelope lost its labels. *)
Definition sameTo (x y : ResourceWatchEvent * bool) : Prop :=
  x.2 = y.2 ∧ ∀ m, observe m x.1 = observe m y.1.
Lemma relabel_self e : relabel e (ev_SelectorLabels e) = e.
Proof. by destruct e. Qed.
Lemma projectRepository_same e sel :
  currentLabels e = ev_SelectorLabels e →
  projectRepositoryJournalEvent e sel = projectResourceJournalSelector e sel.
Proof.
  intros E. unfold projectRepositoryJournalEvent. rewrite E, relabel_self. unfold projectResourceJournalSelector.
  destruct (noFilter sel); [done|]. by destruct (isBookmark e).
Qed.
Lemma projectNamespace_same e sel :
  currentLabels e = ev_SelectorLabels e →
  projectNamespaceJournalEventForSelector e sel = projectResourceJournalSelector e sel.
Proof.
  intros E. unfold projectNamespaceJournalEventForSelector, projectResourceJournalSelector. rewrite E.
  destruct (noFilter sel); [done|]. by destruct (isBookmark e).
Qed.
Lemma projectProduct_same e sel :
  currentLabels e = ev_SelectorLabels e →
  sameTo (projectProductJournalEvent e sel) (projectResourceJournalSelector e sel).
Proof.
  intros E. unfold projectProductJournalEvent, projectResourceJournalSelector. rewrite E.
  destruct (_ || _); [done|]. destruct (negb (bool_decide _)); [done|].
  by destruct (matchesWatchSelector sel (ev_SelectorLabels e)), (matchesWatchSelector sel (ev_PreviousSelectorLabels e)).
Qed.
Lemma serveProduct_view ns sel m (es : list ResourceWatchEvent) :
  Forall (λ e, ev_Kind e = "Product" → currentLabels e = ev_SelectorLabels e) es →
  observeAll m (omap (serveProduct ns sel) es) = observeAll m (omap (serveCatalog "Product" ns sel) es).
Proof.
  intros Hes. revert m. induction Hes as [|e es He Hes IH]; intros m; [done|]. cbn [omap list_omap].
  unfold serveProduct, serveCatalog, serve in *. destruct (journalEventMatches "Product" ns e) eqn:Em; [|apply IH].
  cbn [negb]. assert (sameTo (projectProductJournalEvent e sel) (projectResourceJournalSelector e sel)) as [H1 H2].
  { unfold journalEventMatches in Em. destruct (isBookmark e) eqn:Eb.
    - unfold projectProductJournalEvent, projectResourceJournalSelector. by rewrite Eb, orb_true_r.
    - apply projectProduct_same, He. rewrite orb_false_l, andb_true_iff, bool_decide_eq_true in Em. tauto. }
  destruct (projectProductJournalEvent e sel) as [p1 b1], (projectResourceJournalSelector e sel) as [p2 b2].
  simpl in H1, H2. subst b2. destruct b1; [|apply IH]. unfold observeAll in *. simpl. rewrite H2. apply IH.
Qed.
End selectors.
