(* ===== verification/ScyllaJournal.v ===== *)
(** * The durable watch journal

    [gitstore-api/internal/datastore/scylla/namespace_watch.go]: the journal of
    a cluster lives in two tables of ScyllaDB. The clock row has the last
    published sequence and the lease of the writer; event rows are written
    first, with [IF NOT EXISTS], and become visible when the clock is advanced,
    with the lease and the previous sequence as the condition. A conditional
    statement is atomic; the request of a statement may fail whether or not it
    was applied. Calls are machines that make one request per step. *)

From S2P Require Import Prelude WatchJournal WatchCursor.

(** ** Tables *)

(** [namespaceWatchClockRow]; the bucket size is set when the row is made. *)
Record ClockRow : Type := mkClock {
  ck_Epoch : string;
  ck_HighWater : Z;
  ck_Oldest : Z;
  ck_BucketSize : Z;
  ck_UpdatedAt : Z;
  ck_BookmarkAt : Z;
  ck_CDCProgressAt : Z;
  ck_Holder : string;
  ck_FencingToken : Z;
  ck_ExpiresAt : Z;
}.
(** Event rows are keyed by epoch, bucket and sequence. *)
Notation EventKey := (string * Z * Z)%type.
Record DB : Type := mkDB {
  db_clock : option ClockRow;
  db_events : gmap EventKey ResourceWatchEvent;
  db_progress : gmap string (string * Z);
}.

Definition DefaultBucketSize : Z := 4096.
Definition unixEpoch : Z := 0.
Definition namespaceWatchBatchMaxStatements : nat := 32.
Definition namespaceWatchBatchMaxBytes : Z := 32 * 1024.
Definition appendAttempts : nat := 32.

Definition namespaceWatchBucket (sequence bucketSize : Z) : Z :=
  let bucketSize := if (bucketSize <=? 0)%Z then DefaultBucketSize else bucketSize in
  if (sequence =? 0)%Z then 0%Z else ((sequence - 1) / bucketSize)%Z.
Definition rowKey (clock : ClockRow) (sequence : Z) : EventKey :=
  (ck_Epoch clock, namespaceWatchBucket sequence (ck_BucketSize clock), sequence).

Definition namespaceWatchLeaseMatches (current : ClockRow) (lease : ResourceWatchLease) (now : Z) : bool :=
  bool_decide (ck_Holder current = le_Holder lease) && bool_decide (ck_FencingToken current = le_FencingToken lease) &&
  (now <? ck_ExpiresAt current)%Z.

(** ** Statements *)

Definition setClock (db : DB) (c : ClockRow) : DB := mkDB (Some c) (db_events db) (db_progress db).
Definition setRows (db : DB) (m : gmap EventKey ResourceWatchEvent) : DB := mkDB (db_clock db) m (db_progress db).
(** A conditional statement on the clock: applied or not. *)
Definition ifClock (cond : ClockRow → bool) (upd : ClockRow → ClockRow) (db : DB) : bool * DB :=
  match db_clock db with
  | Some c => if cond c then (true, setClock db (upd c)) else (false, db)
  | None => (false, db)
  end.

(** [ensureNamespaceWatchClock]: the insert of the clock. *)
Definition insertClock (epoch : string) (bucketSize now : Z) (db : DB) : bool * DB :=
  match db_clock db with
  | Some _ => (false, db)
  | None => (true, setClock db (mkClock epoch 0 0 bucketSize now unixEpoch unixEpoch "" 0 unixEpoch))
  end.

(** The conditional batch of inserts, all of them or none. *)
Definition insertEvents (clock : ClockRow) (events : list ResourceWatchEvent) (db : DB) : bool * DB :=
  if forallb (λ e, bool_decide (db_events db !! rowKey clock (ev_Sequence e) = None)) events
  then (true, setRows db (foldl (λ m e, <[rowKey clock (ev_Sequence e) := e]> m) (db_events db) events))
  else (false, db).
Definition deleteEvent (clock : ClockRow) (sequence token : Z) (db : DB) : bool * DB :=
  match db_events db !! rowKey clock sequence with
  | Some row => if (ev_FencingToken row <? token)%Z
                then (true, setRows db (delete (rowKey clock sequence) (db_events db))) else (false, db)
  | None => (false, db)
  end.
Definition publishNamespaceWatchSequence (clock : ClockRow) (lease : ResourceWatchLease) (next : Z)
    (ty : ResourceWatchEventType) (at_ now : Z) : DB → bool * DB :=
  ifClock (λ c, bool_decide (ck_Epoch c = ck_Epoch clock) && (ck_HighWater c =? ck_HighWater clock)%Z &&
                bool_decide (ck_Holder c = le_Holder lease) && (ck_FencingToken c =? le_FencingToken lease)%Z &&
                (now <? ck_ExpiresAt c)%Z)
    (λ c, mkClock (ck_Epoch c) next (ck_Oldest c) (ck_BucketSize c) at_
            (if bool_decide (ty = ResourceWatchBookmark) then at_ else ck_BookmarkAt c)
            (ck_CDCProgressAt c) (ck_Holder c) (ck_FencingToken c) (ck_ExpiresAt c)).
Definition setOldest (oldest : Z) (c : ClockRow) : ClockRow :=
  mkClock (ck_Epoch c) (ck_HighWater c) oldest (ck_BucketSize c) (ck_UpdatedAt c) (ck_BookmarkAt c)
    (ck_CDCProgressAt c) (ck_Holder c) (ck_FencingToken c) (ck_ExpiresAt c).
Definition updateOldest (oldest : Z) : DB → bool * DB := ifClock (λ _, true) (setOldest oldest).
Definition withLease (holder : string) (token expires : Z) (c : ClockRow) : ClockRow :=
  mkClock (ck_Epoch c) (ck_HighWater c) (ck_Oldest c) (ck_BucketSize c) (ck_UpdatedAt c) (ck_BookmarkAt c)
    (ck_CDCProgressAt c) holder token expires.

(** ** Leases *)

(** [time.Truncate(time.Millisecond)], for times after the epoch. *)
Definition truncateMilli (t : Z) : Z := (t / 1000000 * 1000000)%Z.
(** The conditional update, with the row as it was read before. *)
Definition acquireCAS (holder : string) (current : ClockRow) (now ttl : Z) : DB → bool * DB :=
  ifClock (λ c, bool_decide (ck_Holder c = ck_Holder current) && (ck_FencingToken c =? ck_FencingToken current)%Z &&
                (ck_ExpiresAt c =? ck_ExpiresAt current)%Z)
    (withLease holder (ck_FencingToken current + 1) (truncateMilli (now + ttl))).
(** [runNamespaceLeaseAcquisitionResolution]: after a request that failed, the
    lease was acquired if it is in the row. *)
Definition acquisitionResolved (holder : string) (token : Z) (state : ClockRow) : option ResourceWatchLease :=
  if bool_decide (ck_Holder state = holder) && (ck_FencingToken state =? token)%Z
  then Some (mkLease holder token (ck_ExpiresAt state)) else None.
Definition AcquireLease (holder : string) (current : ClockRow) (now ttl : Z) (db : DB)
  : DB * option ResourceWatchLease :=
  if negb (bool_decide (ck_Holder current = "")) && (now <? ck_ExpiresAt current)%Z then (db, None) else
  let '(applied, db') := acquireCAS holder current now ttl db in
  (db', if applied then Some (mkLease holder (ck_FencingToken current + 1) (truncateMilli (now + ttl))) else None).
Definition RenewLease (lease : ResourceWatchLease) (current : ClockRow) (now ttl : Z) (db : DB)
  : DB * option ResourceWatchLease :=
  if negb (namespaceWatchLeaseMatches current lease now) then (db, None) else
  let expires := truncateMilli (now + ttl) in
  let '(applied, db') :=
    ifClock (λ c, bool_decide (ck_Holder c = le_Holder lease) && (ck_FencingToken c =? le_FencingToken lease)%Z &&
                  (ck_ExpiresAt c =? ck_ExpiresAt current)%Z)
      (λ c, withLease (ck_Holder c) (ck_FencingToken c) expires c) db in
  (db', if applied then Some (mkLease (le_Holder lease) (le_FencingToken lease) expires) else None).
Definition ReleaseLease (lease : ResourceWatchLease) : DB → bool * DB :=
  ifClock (λ c, bool_decide (ck_Holder c = le_Holder lease) && (ck_FencingToken c =? le_FencingToken lease)%Z)
    (λ c, withLease "" (ck_FencingToken c) unixEpoch c).

(** ** Progress *)

Definition namespaceCDCPublishedFrontierProgress : string := "__namespace_cdc_published_frontier__".
Definition progressKey (p : ResourceCDCProgress) : string :=
  if negb (bool_decide (pr_Source p = "")) && negb (bool_decide (pr_Source p = "Namespace"))
  then pr_Source p +:+ ":" +:+ pr_StreamID p else pr_StreamID p.
Definition LoadProgress (streamID : string) (db : DB) : result JournalError ResourceCDCProgress :=
  match db_progress db !! streamID with
  | Some (position, at_) => Ok (mkProgress "" streamID position at_)
  | None => Err ErrNotFound
  end.
(** Only the published frontier also sets the progress time of the clock. *)
Definition SaveProgress (lease : ResourceWatchLease) (p : ResourceCDCProgress) (now : Z) (db : DB)
  : DB * option JournalError :=
  if bool_decide (pr_StreamID p = "") then (db, Some ErrInvalidArgument) else
  match db_clock db with
  | Some c =>
      if bool_decide (ck_Holder c = le_Holder lease) && (ck_FencingToken c =? le_FencingToken lease)%Z &&
         (now <? ck_ExpiresAt c)%Z
      then (mkDB (Some (if bool_decide (progressKey p = namespaceCDCPublishedFrontierProgress)
                        then mkClock (ck_Epoch c) (ck_HighWater c) (ck_Oldest c) (ck_BucketSize c) (ck_UpdatedAt c)
                               (ck_BookmarkAt c) (pr_UpdatedAt p) (ck_Holder c) (ck_FencingToken c) (ck_ExpiresAt c)
                        else c))
              (db_events db) (<[progressKey p := (pr_Position p, pr_UpdatedAt p)]> (db_progress db)), None)
      else (db, Some ErrStaleWatchLease)
  | None => (db, Some ErrStaleWatchLease)
  end.

(** ** Append *)

(** The event as it is stored by a lease at a position. *)
Definition stampEvent (clock : ClockRow) (lease : ResourceWatchLease) (sequence : Z) (e : ResourceWatchEvent)
  : ResourceWatchEvent :=
  mkEvent (ck_Epoch clock) sequence (ev_Type e) (ev_Kind e) (ev_Namespace e) (ev_Name e) (ev_Payload e)
    (ev_SelectorLabels e) (ev_PreviousSelectorLabels e) (ev_DeduplicationKey e) (le_FencingToken lease) (ev_At e).
Definition datedEvent (now : Z) (e : ResourceWatchEvent) : ResourceWatchEvent :=
  if bool_decide (ev_At e = zeroTime)
  then mkEvent (ev_Epoch e) (ev_Sequence e) (ev_Type e) (ev_Kind e) (ev_Namespace e) (ev_Name e) (ev_Payload e)
         (ev_SelectorLabels e) (ev_PreviousSelectorLabels e) (ev_DeduplicationKey e) (ev_FencingToken e) now
  else e.
(** A row that was not found is the zero event. *)
Definition zeroEvent : ResourceWatchEvent :=
  mkEvent "" 0 ResourceWatchBookmark "" "" "" None None None "" 0 zeroTime.
(** Bytes and maps compare by content: a nil one is empty. *)
Definition namespaceWatchEventsEqual (l r : ResourceWatchEvent) : bool :=
  bool_decide (ev_Epoch l = ev_Epoch r) && (ev_Sequence l =? ev_Sequence r)%Z && bool_decide (ev_Type l = ev_Type r) &&
  bool_decide (ev_Kind l = ev_Kind r) && bool_decide (ev_Namespace l = ev_Namespace r) &&
  bool_decide (ev_Name l = ev_Name r) && bool_decide (default "" (ev_Payload l) = default "" (ev_Payload r)) &&
  bool_decide (default ∅ (ev_SelectorLabels l) = default ∅ (ev_SelectorLabels r)) &&
  bool_decide (default ∅ (ev_PreviousSelectorLabels l) = default ∅ (ev_PreviousSelectorLabels r)) &&
  bool_decide (ev_DeduplicationKey l = ev_DeduplicationKey r) && (ev_FencingToken l =? ev_FencingToken r)%Z.

(** What a request meets: an answer, or an error after or without its effect. *)
Inductive Reply : Type := Answered | Failed (applied : bool).
Definition execCAS (r : Reply) (stmt : DB → bool * DB) (db : DB) : option bool * DB :=
  match r with
  | Answered => let '(b, db') := stmt db in (Some b, db')
  | Failed true => (None, (stmt db).2)
  | Failed false => (None, db)
  end.

Inductive AppendPC : Type :=
| AtLoad
| AtInsert (clock : ClockRow)
| AtExisting (clock : ClockRow)
| AtDelete (clock : ClockRow) (existing : ResourceWatchEvent)
| AtPublish (clock : ClockRow) (cand : ResourceWatchEvent) (own : bool)
| AtResolve (clock : ClockRow) (cand : ResourceWatchEvent)
| AtResolveRow (clock : ClockRow) (cand : ResourceWatchEvent)
| AtOldest (cand : ResourceWatchEvent)
| AtReturn (r : result WatchError ResourceWatchEvent).
Record AppendCall : Type := mkCall { ca_event : ResourceWatchEvent; ca_attempts : nat; ca_pc : AppendPC }.

Definition goto (c : AppendCall) (pc : AppendPC) : AppendCall := mkCall (ca_event c) (ca_attempts c) pc.
(** [continue]: the next iteration of the loop. *)
Definition again (c : AppendCall) : AppendCall :=
  if ca_attempts c + 1 <? appendAttempts then mkCall (ca_event c) (ca_attempts c + 1) AtLoad
  else goto c (AtReturn (Err (EText "contention limit reached"))).
Definition startAppend (now : Z) (e : ResourceWatchEvent) : AppendCall := mkCall (datedEvent now e) 0 AtLoad.
Definition opFailed : WatchError := EText "request failed".

(** After a conflicting row was read, and not removed. *)
Definition judgeExisting (lease : ResourceWatchLease) (c : AppendCall) (clock : ClockRow) (existing : ResourceWatchEvent)
  : AppendCall :=
  if (le_FencingToken lease <? ev_FencingToken existing)%Z then goto c (AtReturn (Err (EJournal ErrStaleWatchLease)))
  else if negb (bool_decide (ev_DeduplicationKey existing = "")) &&
          bool_decide (ev_DeduplicationKey existing = ev_DeduplicationKey (ca_event c))
  then goto c (AtPublish clock existing false)
  else again c.
(** What the resolution of an unclear publication makes of the clock: [None]
    means that the range is published, and its rows are to be compared. *)
Definition judgeClock (clock : ClockRow) (lease : ResourceWatchLease) (last : Z) (latest : option ClockRow)
  : option (result WatchError bool) :=
  match latest with
  | None => Some (Err opFailed)
  | Some l =>
      if negb (bool_decide (ck_Epoch l = ck_Epoch clock)) then Some (Err (EJournal ErrStaleWatchLease)) else
      if (ck_HighWater l <? last)%Z then
        Some (if negb (bool_decide (ck_Holder l = le_Holder lease)) || negb (ck_FencingToken l =? le_FencingToken lease)%Z
              then Err (EJournal ErrStaleWatchLease) else Ok false)
      else None
  end.
Definition judgeRow (cand : ResourceWatchEvent) (row : option ResourceWatchEvent) : result WatchError unit :=
  match row with
  | None => Err opFailed
  | Some existing => if namespaceWatchEventsEqual existing cand then Ok tt
                     else Err (EText "published with a different event")
  end.

Definition append_step (lease : ResourceWatchLease) (now : Z) (r : Reply) (c : AppendCall) (db : DB)
  : AppendCall * DB :=
  match ca_pc c with
  | AtLoad =>
      match r, db_clock db with
      | Answered, Some clock =>
          (if negb (namespaceWatchLeaseMatches clock lease now) then goto c (AtReturn (Err (EJournal ErrStaleWatchLease)))
           else goto c (AtInsert clock), db)
      | _, _ => (goto c (AtReturn (Err opFailed)), db)
      end
  | AtInsert clock =>
      let cand := stampEvent clock lease (ck_HighWater clock + 1) (ca_event c) in
      let '(o, db') := execCAS r (insertEvents clock [cand]) db in
      (match o with
       | None => goto c (AtReturn (Err opFailed))
       | Some true => goto c (AtPublish clock cand true)
       | Some false => goto c (AtExisting clock)
       end, db')
  | AtExisting clock =>
      match r with
      | Answered =>
          let existing := default zeroEvent (db_events db !! rowKey clock (ck_HighWater clock + 1)) in
          (if (ev_FencingToken existing <? le_FencingToken lease)%Z then goto c (AtDelete clock existing)
           else judgeExisting lease c clock existing, db)
      | Failed _ => (goto c (AtReturn (Err opFailed)), db)
      end
  | AtDelete clock existing =>
      let '(o, db') := execCAS r (deleteEvent clock (ck_HighWater clock + 1) (le_FencingToken lease)) db in
      (match o with
       | None => goto c (AtReturn (Err opFailed))
       | Some true => again c
       | Some false => judgeExisting lease c clock existing
       end, db')
  | AtPublish clock cand own =>
      let '(o, db') := execCAS r (publishNamespaceWatchSequence clock lease (ck_HighWater clock + 1) (ev_Type cand) (ev_At cand) now) db in
      (match o with
       | Some true => if own && (ev_Sequence cand =? 1)%Z then goto c (AtOldest cand) else goto c (AtReturn (Ok cand))
       | _ => goto c (AtResolve clock cand)
       end, db')
  | AtResolve clock cand =>
      (match judgeClock clock lease (ev_Sequence cand) (match r with Answered => db_clock db | Failed _ => None end) with
       | Some (Err e) => goto c (AtReturn (Err e))
       | Some (Ok _) => again c
       | None => goto c (AtResolveRow clock cand)
       end, db)
  | AtResolveRow clock cand =>
      (match judgeRow cand (match r with Answered => db_events db !! rowKey clock (ev_Sequence cand) | Failed _ => None end) with
       | Ok _ => goto c (AtReturn (Ok cand))
       | Err e => goto c (AtReturn (Err e))
       end, db)
  | AtOldest cand =>
      (goto c (AtReturn (Ok cand)), (execCAS r (updateOldest 1) db).2)
  | AtReturn _ => (c, db)
  end.

(** ** AppendBatch *)

Definition labelBytes (l : Labels) : Z :=
  map_fold (λ k v n, n + Z.of_nat (String.length k) + Z.of_nat (String.length v) + 16)%Z 0%Z (default ∅ l).
Definition namespaceWatchEventEncodedBytes (e : ResourceWatchEvent) : Z :=
  256 + Z.of_nat (String.length (typeText (ev_Type e))) + Z.of_nat (String.length (ev_Name e)) +
  Z.of_nat (String.length (default "" (ev_Payload e))) + Z.of_nat (String.length (ev_DeduplicationKey e)) +
  labelBytes (ev_SelectorLabels e) + labelBytes (ev_PreviousSelectorLabels e).
(** The loop over the events, after [count] of them. *)
Fixpoint batchCount (events : list ResourceWatchEvent) (first bucketSize : Z) (count : nat) (bytes : Z) : nat :=
  match events with
  | e :: es =>
      if (count <? namespaceWatchBatchMaxStatements) &&
         (namespaceWatchBucket (first + Z.of_nat count) bucketSize =? namespaceWatchBucket first bucketSize)%Z
      then let n := namespaceWatchEventEncodedBytes e in
           if (0 <? count) && (namespaceWatchBatchMaxBytes <? bytes + n)%Z then count
           else batchCount es first bucketSize (S count) (bytes + n)
      else count
  | [] => count
  end.
Definition namespaceWatchBatchCount (events : list ResourceWatchEvent) (first bucketSize : Z) : nat :=
  batchCount events first bucketSize 0 0.

(** [namespaceWatchEventBatch]: the events with their positions. *)
Definition batchCandidates (clock : ClockRow) (lease : ResourceWatchLease) (now : Z) (chunk : list ResourceWatchEvent)
  : list ResourceWatchEvent :=
  imap (λ i e, stampEvent clock lease (ck_HighWater clock + 1 + Z.of_nat i) (datedEvent now e)) chunk.

(** After the conditional batch, the range is published, or what became of its
    publication is resolved, or each event is appended by itself. *)
Inductive BatchPC : Type :=
| BLoad
| BInsert (clock : ClockRow) (chunk : list ResourceWatchEvent)
| BPublish (clock : ClockRow) (chunk cands : list ResourceWatchEvent)
| BResolve (clock : ClockRow) (chunk cands : list ResourceWatchEvent)
| BResolveRows (clock : ClockRow) (chunk cands todo : list ResourceWatchEvent)
| BOldest (clock : ClockRow) (chunk cands : list ResourceWatchEvent)
| BSingles (chunk rest : list ResourceWatchEvent) (call : AppendCall)
| BReturn (r : result WatchError (list ResourceWatchEvent)).
Record BatchCall : Type := mkBatchCall {
  ba_events : list ResourceWatchEvent;
  ba_appended : list ResourceWatchEvent;
  ba_pc : BatchPC;
}.
Definition bgoto (c : BatchCall) (pc : BatchPC) : BatchCall := mkBatchCall (ba_events c) (ba_appended c) pc.
(** The condition of the outer loop. *)
Definition bnext (events appended : list ResourceWatchEvent) : BatchCall :=
  mkBatchCall events appended (match events with [] => BReturn (Ok appended) | _ => BLoad end).
Definition bdone (c : BatchCall) (chunk cands : list ResourceWatchEvent) : BatchCall :=
  bnext (drop (length chunk) (ba_events c)) (ba_appended c ++ cands).
Definition bsingles (now : Z) (c : BatchCall) (chunk rest : list ResourceWatchEvent) : BatchCall :=
  match rest with
  | e :: rest => bgoto c (BSingles chunk rest (startAppend now e))
  | [] => bnext (drop (length chunk) (ba_events c)) (ba_appended c)
  end.
Definition boldest (c : BatchCall) (clock : ClockRow) (chunk cands : list ResourceWatchEvent) : BatchCall :=
  if (ck_HighWater clock + 1 =? 1)%Z then bgoto c (BOldest clock chunk cands) else bdone c chunk cands.
Definition startBatch (events : list ResourceWatchEvent) : BatchCall := bnext events [].

Definition batch_step (lease : ResourceWatchLease) (now : Z) (r : Reply) (c : BatchCall) (db : DB) : BatchCall * DB :=
  match ba_pc c with
  | BLoad =>
      match r, db_clock db with
      | Answered, Some clock =>
          (if negb (namespaceWatchLeaseMatches clock lease now) then bgoto c (BReturn (Err (EJournal ErrStaleWatchLease)))
           else bgoto c (BInsert clock (take (namespaceWatchBatchCount (ba_events c) (ck_HighWater clock + 1) (ck_BucketSize clock))
                                          (ba_events c))), db)
      | _, _ => (bgoto c (BReturn (Err opFailed)), db)
      end
  | BInsert clock chunk =>
      let cands := batchCandidates clock lease now chunk in
      let '(o, db') := execCAS r (insertEvents clock cands) db in
      (match o with
       | Some true => bgoto c (BPublish clock chunk cands)
       | _ => bsingles now c chunk chunk
       end, db')
  | BPublish clock chunk cands =>
      let l := default zeroEvent (last cands) in
      let '(o, db') := execCAS r (publishNamespaceWatchSequence clock lease (ck_HighWater clock + Z.of_nat (length cands))
                                    (ev_Type l) (ev_At l) now) db in
      (match o with
       | Some true => boldest c clock chunk cands
       | _ => bgoto c (BResolve clock chunk cands)
       end, db')
  | BResolve clock chunk cands =>
      (match judgeClock clock lease (ck_HighWater clock + Z.of_nat (length cands))
               (match r with Answered => db_clock db | Failed _ => None end) with
       | Some (Err e) => bgoto c (BReturn (Err e))
       | Some (Ok _) => bsingles now c chunk chunk
       | None => bgoto c (BResolveRows clock chunk cands cands)
       end, db)
  | BResolveRows clock chunk cands todo =>
      (match todo with
       | [] => boldest c clock chunk cands
       | cand :: todo =>
           match judgeRow cand (match r with Answered => db_events db !! rowKey clock (ev_Sequence cand) | Failed _ => None end) with
           | Ok _ => bgoto c (BResolveRows clock chunk cands todo)
           | Err e => bgoto c (BReturn (Err e))
           end
       end, db)
  | BOldest clock chunk cands => (bdone c chunk cands, (execCAS r (updateOldest 1) db).2)
  | BSingles chunk rest call =>
      match ca_pc call with
      | AtReturn (Ok e) => (bsingles now (mkBatchCall (ba_events c) (ba_appended c ++ [e]) (ba_pc c)) chunk rest, db)
      | AtReturn (Err e) => (bgoto c (BReturn (Err e)), db)
      | _ => let '(call', db') := append_step lease now r call db in (bgoto c (BSingles chunk rest call'), db')
      end
  | BReturn _ => (c, db)
  end.

(** ** Reads *)

Definition boundsOf (row : ClockRow) : ResourceWatchBounds :=
  mkBounds (ck_Epoch row) (Z.max (ck_Oldest row) 0) (Z.max (ck_HighWater row) 0) (ck_UpdatedAt row) (ck_BookmarkAt row)
    (ck_CDCProgressAt row).
(** The rows of a bucket in a range of sequences, at most [limit]: the
    clustering order is that of the sequences. *)
Definition selectRows (clock : ClockRow) (bucket from to : Z) (limit : nat) (db : DB) : list ResourceWatchEvent :=
  take limit (omap (λ n, db_events db !! (ck_Epoch clock, bucket, n)) (seqZ from (to - from + 1))).

(** [namespaceWatchRetainedOldest]: the first retained sequence, and whether the
    scan was complete. *)
Fixpoint retainedOldest (clock : ClockRow) (db : DB) (scans : nat) (start : Z) : Z * bool :=
  if (ck_HighWater clock <? start)%Z then (ck_HighWater clock + 1, true)%Z else
  match scans with
  | 0 => (start, false)
  | S scans =>
      let bucket := namespaceWatchBucket start (ck_BucketSize clock) in
      let bucketEnd := Z.min ((bucket + 1) * ck_BucketSize clock) (ck_HighWater clock) in
      match selectRows clock bucket start bucketEnd 1 db with
      | e :: _ => (ev_Sequence e, true)
      | [] => retainedOldest clock db scans (bucketEnd + 1)
      end
  end.
Definition namespaceWatchRetentionScanLimit : nat := 32.
Definition namespaceWatchRetainedOldest (clock : ClockRow) (db : DB) : Z * bool :=
  if (ck_HighWater clock <=? 0)%Z then (0%Z, true)
  else retainedOldest clock db namespaceWatchRetentionScanLimit (Z.max (ck_Oldest clock) 1).
(** The update of the lower bound by [namespaceWatchBounds]. *)
Definition raiseOldest (row : ClockRow) (oldest : Z) : DB → bool * DB :=
  ifClock (λ c, bool_decide (ck_Epoch c = ck_Epoch row) && (ck_Oldest c =? ck_Oldest row)%Z) (setOldest oldest).

(** The loop of [ReadAfter]: the [k]-th query sees the table as it is then. *)
Fixpoint readBuckets (clock : ClockRow) (at_ : nat → DB) (fuel : nat) (highWater : Z) (limit : nat) (start : Z) (k : nat)
  (out : list ResourceWatchEvent) : option (list ResourceWatchEvent) :=
  if (start <=? highWater)%Z && (length out <? limit) then
    match fuel with
    | 0 => None
    | S fuel =>
        let bucket := namespaceWatchBucket start (ck_BucketSize clock) in
        let bucketEnd := Z.min ((bucket + 1) * ck_BucketSize clock) highWater in
        readBuckets clock at_ fuel highWater limit (bucketEnd + 1) (S k)
          (out ++ selectRows clock bucket start bucketEnd (limit - length out) (at_ k))
    end
  else Some out.
Definition ReadAfter (clock : ClockRow) (at_ : nat → DB) (cursor : ResourceWatchCursor) (limit : Z)
  : option (result WatchError (list ResourceWatchEvent)) :=
  let b := boundsOf clock in
  if negb (bool_decide (cu_Epoch cursor = "")) && negb (bool_decide (cu_Epoch cursor = bo_Epoch b))
  then Some (Err (EJournal ErrWatchCursorEpoch)) else
  if (0 <? bo_Oldest b)%Z && (u64 (cu_Sequence cursor + 1) <? bo_Oldest b)%Z
  then Some (Err (EJournal ErrWatchRetentionExpired)) else
  let start := if (u64 (cu_Sequence cursor + 1) =? 0)%Z then 1%Z else u64 (cu_Sequence cursor + 1) in
  out ← readBuckets clock at_ (Z.to_nat (bo_HighWater b - start + 1)) (bo_HighWater b) (readLimit limit) start 0 [];
  Some (if (cu_Sequence cursor <? bo_HighWater b)%Z &&
           negb (match head out with Some e => ev_Sequence e =? u64 (cu_Sequence cursor + 1) | None => false end)%Z
        then Err (EJournal ErrWatchRetentionExpired) else Ok out).
