(* ===== verification/ScyllaSystem.v ===== *)
(** * The durable journal under concurrent writers

    Writers with leases, old and new, run their calls against the tables of
    [ScyllaJournal], one request at a time and in any order; requests fail,
    leases are taken over, rows expire. *)

From S2P Require Import Prelude WatchJournal WatchCursor ScyllaJournal.

(** ** Sessions *)

Inductive Call : Type := Idle | Appending (c : AppendCall) | Batching (c : BatchCall).
(** A writer under one lease; [appendMu] of the materializer admits one call at
    a time. [se_keys] are the deduplication keys of the events the call was
    given. *)
Record Session : Type := mkSession { se_lease : ResourceWatchLease; se_call : Call; se_keys : list string }.

Definition call_step (lease : ResourceWatchLease) (now : Z) (r : Reply) (c : Call) (db : DB) : Call * DB :=
  match c with
  | Idle => (Idle, db)
  | Appending c => let '(c', db') := append_step lease now r c db in (Appending c', db')
  | Batching c => let '(c', db') := batch_step lease now r c db in (Batching c', db')
  end.

(** What a call holds on to between its requests: nothing, the clock it loaded,
    or the rows it is about to publish. *)
Inductive View : Type :=
| VNone
| VLoaded (clock : ClockRow)
| VPublish (clock : ClockRow) (cands : list ResourceWatchEvent).
Definition appendView (c : AppendCall) : View :=
  match ca_pc c with
  | AtInsert clock | AtExisting clock | AtDelete clock _ => VLoaded clock
  | AtPublish clock cand _ => VPublish clock [cand]
  | _ => VNone
  end.
Definition view (c : Call) : View :=
  match c with
  | Idle => VNone
  | Appending c => appendView c
  | Batching c =>
      match ba_pc c with
      | BInsert clock _ => VLoaded clock
      | BPublish clock _ cands => VPublish clock cands
      | BSingles _ _ call => appendView call
      | _ => VNone
      end
  end.
Definition viewClock (v : View) : option ClockRow :=
  match v with VNone => None | VLoaded clock | VPublish clock _ => Some clock end.

(** ** The cluster *)

(** [cl_log] is what was published, in order; no table has it. *)
Record Cluster : Type := mkCluster {
  cl_db : DB;
  cl_sessions : gmap Z Session;
  cl_log : list ResourceWatchEvent;
}.
Definition highWater (db : DB) : Z := match db_clock db with Some c => ck_HighWater c | None => 0%Z end.
(** The rows an applied publication makes visible. *)
Definition publishedBy (v : View) (db db' : DB) : list ResourceWatchEvent :=
  if (highWater db' =? highWater db)%Z then []
  else match v with VPublish _ cands => cands | _ => [] end.

Inductive clusterStep : Cluster → Cluster → Prop :=
| cs_init db ss h epoch size now :
    db_clock db = None → (1 ≤ size ≤ DefaultBucketSize)%Z →
    clusterStep (mkCluster db ss h) (mkCluster (insertClock epoch size now db).2 ss h)
| cs_acquire db ss h holder current now ttl db' lease :
    AcquireLease holder current now ttl db = (db', Some lease) →
    clusterStep (mkCluster db ss h) (mkCluster db' (<[le_FencingToken lease := mkSession lease Idle []]> ss) h)
| cs_renew db ss h lease current now ttl :
    clusterStep (mkCluster db ss h) (mkCluster (RenewLease lease current now ttl db).1 ss h)
| cs_release db ss h lease :
    clusterStep (mkCluster db ss h) (mkCluster (ReleaseLease lease db).2 ss h)
| cs_progress db ss h lease p now :
    clusterStep (mkCluster db ss h) (mkCluster (SaveProgress lease p now db).1 ss h)
| cs_retention db ss h row oldest :
    clusterStep (mkCluster db ss h) (mkCluster (raiseOldest row oldest db).2 ss h)
| cs_append db ss h t s now e :
    ss !! t = Some s → se_call s = Idle →
    clusterStep (mkCluster db ss h)
      (mkCluster db (<[t := mkSession (se_lease s) (Appending (startAppend now e)) [ev_DeduplicationKey e]]> ss) h)
| cs_batch db ss h t s es :
    ss !! t = Some s → se_call s = Idle →
    clusterStep (mkCluster db ss h)
      (mkCluster db (<[t := mkSession (se_lease s) (Batching (startBatch es)) (ev_DeduplicationKey <$> es)]> ss) h)
| cs_call db ss h t s now r c' db' :
    ss !! t = Some s → call_step (se_lease s) now r (se_call s) db = (c', db') →
    clusterStep (mkCluster db ss h)
      (mkCluster db' (<[t := mkSession (se_lease s) c' (se_keys s)]> ss) (h ++ publishedBy (view (se_call s)) db db'))
(** a call returns or its process ends *)
| cs_stop db ss h t s :
    ss !! t = Some s → clusterStep (mkCluster db ss h) (mkCluster db (<[t := mkSession (se_lease s) Idle []]> ss) h)
(** a row reaches its time to live, which is longer than a call lasts: calls in
    progress have loaded the clock after the row was published *)
| cs_expire db ss h key n :
    (∀ t s clock, ss !! t = Some s → viewClock (view (se_call s)) = Some clock → (n ≤ ck_HighWater clock)%Z) →
    key.2 = n →
    clusterStep (mkCluster db ss h) (mkCluster (setRows db (delete key (db_events db))) ss h).

Definition emptyDB : DB := mkDB None ∅ ∅.
Definition startCluster : Cluster := mkCluster emptyDB ∅ [].

(** No call is about to publish a row that another lease wrote. *)
Definition ownRows (t : Z) (cands : list ResourceWatchEvent) : Prop := Forall (λ e, ev_FencingToken e = t) cands.
Definition calm (x : Cluster) : Prop :=
  ∀ t s clock cands, cl_sessions x !! t = Some s → view (se_call s) = VPublish clock cands → ownRows t cands.
(** The steps of clusters that stay calm. *)
Definition calmStep (x y : Cluster) : Prop := clusterStep x y ∧ calm y.

(** ** Calls by what they hold *)

Definition positioned (clock : ClockRow) (t : Z) (cands : list ResourceWatchEvent) : Prop :=
  ∀ i e, cands !! i = Some e →
    ev_Sequence e = (ck_HighWater clock + 1 + Z.of_nat i)%Z ∧ ev_FencingToken e = t ∧ ev_Epoch e = ck_Epoch clock.
(** The row a removal was refused for is older than the lease. *)
Definition staleCall (t : Z) (c : AppendCall) : Prop :=
  match ca_pc c with AtDelete _ existing => (ev_FencingToken existing < t)%Z | _ => True end.
Definition wfCall (t : Z) (c : Call) : Prop :=
  match c with
  | Idle => True
  | Appending c => staleCall t c
  | Batching c => match ba_pc c with BSingles _ _ call => staleCall t call | _ => True end
  end.

Inductive viewStep (lease : ResourceWatchLease) (db : DB) : View → View → DB → Prop :=
| vs_drop v : viewStep lease db v VNone db
| vs_keep clock : viewStep lease db (VLoaded clock) (VLoaded clock) db
| vs_load clock v : db_clock db = Some clock → viewStep lease db v (VLoaded clock) db
| vs_insert clock cands db' v' :
    positioned clock (le_FencingToken lease) cands → insertEvents clock cands db = (true, db') →
    v' = VNone ∨ v' = VPublish clock cands → viewStep lease db (VLoaded clock) v' db'
| vs_existing clock e :
    db_events db !! rowKey clock (ck_HighWater clock + 1) = Some e → ev_FencingToken e = le_FencingToken lease →
    viewStep lease db (VLoaded clock) (VPublish clock [e]) db
| vs_delete clock db' :
    deleteEvent clock (ck_HighWater clock + 1) (le_FencingToken lease) db = (true, db') →
    viewStep lease db (VLoaded clock) VNone db'
| vs_race clock e :
    (ev_FencingToken e < le_FencingToken lease)%Z → viewStep lease db (VLoaded clock) (VPublish clock [e]) db
| vs_publish clock cands ty at_ now db' :
    publishNamespaceWatchSequence clock lease (ck_HighWater clock + Z.of_nat (length cands)) ty at_ now db = (true, db') →
    viewStep lease db (VPublish clock cands) VNone db'
| vs_oldest : viewStep lease db VNone VNone (updateOldest 1 db).2.
#[export] Hint Constructors viewStep : core.

Lemma execCAS_cases r stmt db o db' :
  execCAS r stmt db = (o, db') →
  (db' = db ∧ o ≠ Some true) ∨ (∃ b, stmt db = (b, db') ∧ (o = None ∨ o = Some b)).
Proof.
  unfold execCAS. destruct r as [|[]]; intros H.
  - right. destruct (stmt db) as [b db1]. simplify_eq. eauto.
  - right. simplify_eq. destruct (stmt db) as [b db1]. simpl. eauto.
  - left. by simplify_eq.
Qed.
(** Conditional statements that are refused change nothing. *)
Lemma insertEvents_false clock es db db' : insertEvents clock es db = (false, db') → db' = db.
Proof. unfold insertEvents. case_match; congruence. Qed.
Lemma deleteEvent_false clock n t db db' : deleteEvent clock n t db = (false, db') → db' = db.
Proof. unfold deleteEvent. repeat case_match; congruence. Qed.
Lemma ifClock_false cond upd db db' : ifClock cond upd db = (false, db') → db' = db.
Proof. unfold ifClock. repeat case_match; congruence. Qed.

Lemma again_view c : appendView (again c) = VNone.
Proof. unfold again. by case_match. Qed.
Lemma again_stale t c : staleCall t (again c).
Proof. unfold again. by case_match. Qed.
#[export] Hint Resolve again_stale : core.
Lemma judge_view lease c clock e :
  (ev_FencingToken e < le_FencingToken lease)%Z →
  appendView (judgeExisting lease c clock e) = VNone ∨ appendView (judgeExisting lease c clock e) = VPublish clock [e].
Proof. unfold judgeExisting. intros H. repeat case_match; rewrite ?again_view; auto. Qed.
Lemma judge_stale t lease c clock e : staleCall t (judgeExisting lease c clock e).
Proof. unfold judgeExisting. repeat case_match; by auto. Qed.
#[export] Hint Resolve judge_stale : core.

(** An append call does one of the steps of [viewStep]. *)
Lemma append_viewStep lease now r c db c' db' :
  (1 ≤ le_FencingToken lease)%Z → staleCall (le_FencingToken lease) c → append_step lease now r c db = (c', db') →
  viewStep lease db (appendView c) (appendView c') db' ∧ staleCall (le_FencingToken lease) c'.
Proof.
  intros Ht Hs H. unfold append_step in H. unfold appendView at 1. unfold staleCall in Hs.
  destruct (ca_pc c) as [|clock|clock|clock existing|clock cand own|clock cand|clock cand|cand|res] eqn:Epc.
  - destruct r, (db_clock db) as [clock|] eqn:Ec; injection H as <- <-; try (by (cbn; auto)).
    destruct (negb _); cbn; by auto.
  - destruct (execCAS r _ db) as [o db1] eqn:Eo. injection H as <- <-.
    apply execCAS_cases in Eo as [[-> Ho]|([] & Hst & Ho)].
    + destruct o as [[]|]; [done|by (cbn; auto)|by (cbn; auto)].
    + assert (positioned clock (le_FencingToken lease) [stampEvent clock lease (ck_HighWater clock + 1) (ca_event c)]) as Hp.
      { intros i e [-> <-]%list_lookup_singleton_Some. simpl. split; [lia|done]. }
      destruct Ho as [->| ->]; (split; [|done]); eapply vs_insert; eauto.
    + apply insertEvents_false in Hst as ->. destruct Ho as [->| ->]; by (cbn; auto).
  - destruct r as [|]; injection H as <- <-; [|by (cbn; auto)]. set (existing := default _ _).
    destruct (Z.ltb_spec (ev_FencingToken existing) (le_FencingToken lease)); [by (cbn; auto)|]. split; [|by (cbn; auto)].
    unfold judgeExisting. destruct (Z.ltb_spec (le_FencingToken lease) (ev_FencingToken existing)); [by (cbn; auto)|].
    destruct (negb _ && _); [|rewrite again_view; by (cbn; auto)]. cbn. subst existing.
    destruct (db_events db !! _) as [e|] eqn:Ee; simpl in *; [|lia]. apply vs_existing; [done|lia].
  - destruct (execCAS r _ db) as [o db1] eqn:Eo. injection H as <- <-.
    apply execCAS_cases in Eo as [[-> Ho]|([] & Hst & Ho)].
    + destruct o as [[]|]; [done| |by (cbn; auto)]. split; [|by (cbn; auto)].
      destruct (judge_view lease c clock existing Hs) as [->| ->]; by (cbn; auto).
    + destruct Ho as [->| ->]; rewrite ?again_view; by (cbn; eauto).
    + apply deleteEvent_false in Hst as ->. destruct Ho as [->| ->]; [by (cbn; auto)|]. split; [|by (cbn; auto)].
      destruct (judge_view lease c clock existing Hs) as [->| ->]; by (cbn; auto).
  - destruct (execCAS r _ db) as [o db1] eqn:Eo. injection H as <- <-.
    assert (appendView (match o with Some true => if own && (ev_Sequence cand =? 1)%Z then goto c (AtOldest cand)
      else goto c (AtReturn (Ok cand)) | _ => goto c (AtResolve clock cand) end) = VNone) as ->
      by (destruct o as [[]|]; [by destruct (_ && _)|done|done]).
    split; [|destruct o as [[]|]; [by destruct (_ && _)|done|done]].
    apply execCAS_cases in Eo as [[-> Ho]|([] & Hst & Ho)]; [by (cbn; auto)| |].
    + eapply vs_publish. exact Hst.
    + apply ifClock_false in Hst as ->. by (cbn; auto).
  - injection H as <- <-. destruct (judgeClock _ _ _ _) as [[]|]; rewrite ?again_view; by (cbn; auto).
  - injection H as <- <-. destruct (judgeRow _ _); by (cbn; auto).
  - injection H as <- <-. split; [|done]. destruct r as [|[]]; simpl; auto.
    destruct (updateOldest 1 db) as [b db1] eqn:E. simpl. replace db1 with (updateOldest 1 db).2 by (by rewrite E). by (cbn; auto).
  - injection H as <- <-. unfold appendView, staleCall. rewrite Epc. by auto.
Qed.

Definition batchView (c : BatchCall) : View := view (Batching c).
Definition staleBatch (t : Z) (c : BatchCall) : Prop := wfCall t (Batching c).
Lemma bnext_view es appended : batchView (bnext es appended) = VNone.
Proof. unfold bnext. by destruct es. Qed.
Lemma bnext_stale t es appended : staleBatch t (bnext es appended).
Proof. unfold bnext. by destruct es. Qed.
Lemma bsingles_view now c chunk rest : batchView (bsingles now c chunk rest) = VNone.
Proof. unfold bsingles. destruct rest; [apply bnext_view|done]. Qed.
Lemma bsingles_stale t now c chunk rest : staleBatch t (bsingles now c chunk rest).
Proof. unfold bsingles. destruct rest; [apply bnext_stale|done]. Qed.
Lemma boldest_view c clock chunk cands : batchView (boldest c clock chunk cands) = VNone.
Proof. unfold boldest. case_match; [done|apply bnext_view]. Qed.
Lemma boldest_stale t c clock chunk cands : staleBatch t (boldest c clock chunk cands).
Proof. unfold boldest. case_match; [done|apply bnext_stale]. Qed.
#[export] Hint Resolve bnext_stale bsingles_stale boldest_stale : core.
#[export] Hint Rewrite bnext_view bsingles_view boldest_view : bviews.

Lemma batchCandidates_positioned clock lease now chunk :
  positioned clock (le_FencingToken lease) (batchCandidates clock lease now chunk).
Proof.
  intros i e Hi. unfold batchCandidates in Hi. rewrite list_lookup_imap in Hi.
  destruct (chunk !! i); simplify_eq/=. done.
Qed.
Lemma batch_viewStep lease now r c db c' db' :
  (1 ≤ le_FencingToken lease)%Z → staleBatch (le_FencingToken lease) c → batch_step lease now r c db = (c', db') →
  viewStep lease db (batchView c) (batchView c') db' ∧ staleBatch (le_FencingToken lease) c'.
Proof.
  intros Ht Hs H. unfold batch_step in H. unfold batchView at 1, view. unfold staleBatch, wfCall in Hs.
  destruct (ba_pc c) as [|clock chunk|clock chunk cands|clock chunk cands|clock chunk cands todo|clock chunk cands
    |chunk rest call|res] eqn:Epc.
  - destruct r, (db_clock db) as [clock|] eqn:Ec; injection H as <- <-; try (by (cbn; auto)).
    destruct (negb _); cbn; by auto.
  - destruct (execCAS r _ db) as [o db1] eqn:Eo. injection H as <- <-.
    pose proof (batchCandidates_positioned clock lease now chunk) as Hp.
    apply execCAS_cases in Eo as [[-> Ho]|([] & Hst & Ho)].
    + destruct o as [[]|]; [done|autorewrite with bviews; by auto|autorewrite with bviews; by auto].
    + destruct Ho as [->| ->]; autorewrite with bviews; (split; [|by auto]); eapply vs_insert; eauto.
    + apply insertEvents_false in Hst as ->. destruct Ho as [->| ->]; autorewrite with bviews; by auto.
  - destruct (execCAS r _ db) as [o db1] eqn:Eo. injection H as <- <-.
    assert (batchView (match o with Some true => boldest c clock chunk cands | _ => bgoto c (BResolve clock chunk cands) end) = VNone) as ->
      by (destruct o as [[]|]; [apply boldest_view|done|done]).
    split; [|destruct o as [[]|]; [by auto|done|done]].
    apply execCAS_cases in Eo as [[-> Ho]|([] & Hst & Ho)]; [by auto| |].
    + eapply vs_publish. exact Hst.
    + apply ifClock_false in Hst as ->. by auto.
  - injection H as <- <-. destruct (judgeClock _ _ _ _) as [[]|]; autorewrite with bviews; first [by auto|by (cbn; auto)].
  - injection H as <- <-. destruct todo as [|cand todo]; [autorewrite with bviews; by auto|].
    destruct (judgeRow _ _); by (cbn; auto).
  - injection H as <- <-. unfold bdone. autorewrite with bviews. split; [|by auto]. destruct r as [|[]]; simpl; auto.
    destruct (updateOldest 1 db) as [b db1] eqn:E. simpl. replace db1 with (updateOldest 1 db).2 by (by rewrite E). by auto.
  - destruct (ca_pc call) eqn:Ep;
      try (destruct (append_step lease now r call db) as [call' db1] eqn:Ea; injection H as <- <-;
           apply append_viewStep in Ea; [exact Ea|done|done]).
    destruct r0; injection H as <- <-; autorewrite with bviews; first [by auto|by (cbn; auto)].
  - injection H as <- <-. unfold batchView, staleBatch, view, wfCall. rewrite Epc. by auto.
Qed.
Lemma call_viewStep lease now r c db c' db' :
  (1 ≤ le_FencingToken lease)%Z → wfCall (le_FencingToken lease) c → call_step lease now r c db = (c', db') →
  viewStep lease db (view c) (view c') db' ∧ wfCall (le_FencingToken lease) c'.
Proof.
  intros Ht Hs H. destruct c as [|c|c]; simpl in H.
  - injection H as <- <-. by auto.
  - destruct (append_step _ _ _ c db) as [c1 db1] eqn:E. injection H as <- <-. by apply append_viewStep in E.
  - destruct (batch_step _ _ _ c db) as [c1 db1] eqn:E. injection H as <- <-. by apply batch_viewStep in E.
Qed.
