(* ===== verification/ScyllaTheorems.v ===== *)
(** * What the durable journal guarantees

    The published rows of the tables of [ScyllaJournal] are one log, whatever
    the writers of [ScyllaSystem] do. *)

From S2P Require Import Prelude WatchJournal WatchCursor ScyllaJournal ScyllaSystem.

(** ** The invariant *)

Definition sameLayout (a b : ClockRow) : Prop := ck_Epoch a = ck_Epoch b ∧ ck_BucketSize a = ck_BucketSize b.
Notation Rows := (gmap EventKey ResourceWatchEvent).
Notation row c m i := (m !! rowKey c (Z.of_nat (S i))).

Record TablesOk (c : ClockRow) (h : list ResourceWatchEvent) (m : Rows) : Prop := {
  to_high : ck_HighWater c = Z.of_nat (length h);
  to_size : (1 ≤ ck_BucketSize c)%Z;
  to_rows k e : m !! k = Some e →
    k = rowKey c (ev_Sequence e) ∧ ev_Epoch e = ck_Epoch c ∧ (ev_FencingToken e ≤ ck_FencingToken c)%Z;
  to_log i e : h !! i = Some e →
    ev_Sequence e = Z.of_nat (S i) ∧ ev_Epoch e = ck_Epoch c ∧ (ev_FencingToken e ≤ ck_FencingToken c)%Z;
  to_tokens i j e e' : h !! i = Some e → h !! j = Some e' → i ≤ j → (ev_FencingToken e ≤ ev_FencingToken e')%Z;
  to_match i e e' : h !! i = Some e → row c m i = Some e' → e' = e;
}.
Notation dedup := ev_DeduplicationKey.
Definition inLog (h : list ResourceWatchEvent) (e : ResourceWatchEvent) : Prop :=
  ∃ e', e' ∈ h ∧ namespaceWatchEventsEqual e' e = true.
(** A row that is at a published position of the layout. *)
Definition visibleAt (c : ClockRow) (h : list ResourceWatchEvent) (clock : ClockRow) (e : ResourceWatchEvent) : Prop :=
  sameLayout clock c ∧ (1 ≤ ev_Sequence e ≤ Z.of_nat (length h))%Z.
Definition appendOk (c : ClockRow) (h : list ResourceWatchEvent) (key : string) (a : AppendCall) : Prop :=
  dedup (ca_event a) = key ∧
  match ca_pc a with
  | AtPublish _ cand _ => dedup cand = key
  | AtResolve clock cand => dedup cand = key ∧ sameLayout clock c ∧ (1 ≤ ev_Sequence cand)%Z
  | AtResolveRow clock cand => dedup cand = key ∧ visibleAt c h clock cand
  | AtOldest cand | AtReturn (Ok cand) => dedup cand = key ∧ inLog h cand
  | _ => True
  end.
Definition remaining (b : BatchCall) (chunk : list ResourceWatchEvent) : list string :=
  dedup <$> drop (length chunk) (ba_events b).
Definition batchOk (c : ClockRow) (h : list ResourceWatchEvent) (keys : list string) (b : BatchCall) : Prop :=
  Forall (inLog h) (ba_appended b) ∧
  let got := dedup <$> ba_appended b in
  match ba_pc b with
  | BLoad => keys = got ++ (dedup <$> ba_events b)
  | BInsert clock chunk => keys = got ++ (dedup <$> chunk) ++ remaining b chunk
  | BPublish clock chunk cands => keys = got ++ (dedup <$> chunk) ++ remaining b chunk ∧ dedup <$> cands = dedup <$> chunk
  | BResolve clock chunk cands =>
      keys = got ++ (dedup <$> chunk) ++ remaining b chunk ∧ dedup <$> cands = dedup <$> chunk ∧ sameLayout clock c ∧
      (0 ≤ ck_HighWater clock)%Z ∧ ∃ t, positioned clock t cands
  | BResolveRows clock chunk cands todo =>
      keys = got ++ (dedup <$> chunk) ++ remaining b chunk ∧ dedup <$> cands = dedup <$> chunk ∧
      Forall (visibleAt c h clock) todo ∧ ∃ l, cands = l ++ todo ∧ Forall (inLog h) l
  | BOldest _ chunk cands =>
      keys = got ++ (dedup <$> chunk) ++ remaining b chunk ∧ dedup <$> cands = dedup <$> chunk ∧ Forall (inLog h) cands
  | BSingles chunk rest call =>
      ∃ key, keys = got ++ key :: (dedup <$> rest) ++ remaining b chunk ∧ appendOk c h key call
  | BReturn (Ok l) => dedup <$> l = keys ∧ Forall (inLog h) l
  | BReturn (Err _) => True
  end.
Definition callOk (c : ClockRow) (h : list ResourceWatchEvent) (keys : list string) (a : Call) : Prop :=
  match a with
  | Idle => True
  | Appending a => ∃ key, keys = [key] ∧ appendOk c h key a
  | Batching b => batchOk c h keys b
  end.

Lemma eventsEqual_refl e : namespaceWatchEventsEqual e e = true.
Proof. unfold namespaceWatchEventsEqual. by rewrite !bool_decide_eq_true_2, !Z.eqb_refl by done. Qed.
Lemma inLog_elem h e : e ∈ h → inLog h e.
Proof. intros He. exists e. split; [done|apply eventsEqual_refl]. Qed.
Lemma inLog_app h l e : inLog h e → inLog (h ++ l) e.
Proof. intros (e' & He & Hq). exists e'. split; [|done]. apply elem_of_app. by left. Qed.
Lemma visibleAt_app c c' h l clock e : sameLayout c c' → visibleAt c h clock e → visibleAt c' (h ++ l) clock e.
Proof. intros [E1 E2] [[F1 F2] ?]. split; [split; congruence|]. rewrite length_app. lia. Qed.
#[export] Hint Resolve inLog_elem inLog_app visibleAt_app : core.
Lemma Forall_inLog_app h l es : Forall (inLog h) es → Forall (inLog (h ++ l)) es.
Proof. intros H. eapply Forall_impl; [exact H|]. auto. Qed.
#[export] Hint Resolve Forall_inLog_app : core.

(** Results stay right while the log grows and the clock moves. *)
Lemma appendOk_mono c c' h l key a : sameLayout c c' → appendOk c h key a → appendOk c' (h ++ l) key a.
Proof.
  intros Hl [Hk H]. split; [done|]. destruct (ca_pc a) as [| | | | |clock cand|clock cand|cand|[]]; try done; try naive_solver.
  destruct H as (? & [E1 E2] & ?), Hl. split_and!; [done|split; congruence|done].
Qed.
Lemma batchOk_mono c c' h l keys b : sameLayout c c' → batchOk c h keys b → batchOk c' (h ++ l) keys b.
Proof.
  intros Hl [Hg H]. split; [by auto|]. destruct (ba_pc b) as [| | | | | |chunk rest call|[]]; try done.
  - destruct H as (? & ? & [E1 E2] & ?), Hl. split_and!; [done|done|split; congruence|naive_solver..].
  - destruct H as (? & ? & Hv & d & ? & ?). split_and!; [done|done| |naive_solver].
    eapply Forall_impl; [exact Hv|]. eauto.
  - naive_solver.
  - destruct H as (key & ? & ?). exists key. split; [done|]. by eapply appendOk_mono.
  - naive_solver.
Qed.
Lemma callOk_mono c c' h l keys a : sameLayout c c' → callOk c h keys a → callOk c' (h ++ l) keys a.
Proof.
  intros Hl H. destruct a; [done| |by eapply batchOk_mono]. destruct H as (key & ? & ?). exists key.
  split; [done|]. by eapply appendOk_mono.
Qed.

Lemma callOk_clock c c' h keys a : sameLayout c c' → callOk c h keys a → callOk c' h keys a.
Proof. intros Hl H. rewrite <- (app_nil_r h). by eapply callOk_mono. Qed.

(** What was published since a call loaded the clock comes from its lease or
    newer ones, and is still there. *)
Definition since (c : ClockRow) (h : list ResourceWatchEvent) (m : Rows) (t : Z) (clock : ClockRow) : Prop :=
  sameLayout clock c ∧ (0 ≤ ck_HighWater clock)%Z ∧
  ∀ i e, (ck_HighWater clock ≤ Z.of_nat i)%Z → h !! i = Some e → (t ≤ ev_FencingToken e)%Z ∧ row c m i = Some e.
Definition viewOk (c : ClockRow) (h : list ResourceWatchEvent) (m : Rows) (t : Z) (v : View) : Prop :=
  match v with
  | VNone => True
  | VLoaded clock => since c h m t clock
  | VPublish clock cands =>
      ownRows t cands →
      sameLayout clock c ∧ (0 ≤ ck_HighWater clock)%Z ∧ positioned clock t cands ∧
      (ck_HighWater clock = ck_HighWater c → ck_FencingToken c = t →
       ∀ e, e ∈ cands → m !! rowKey c (ev_Sequence e) = Some e)
  end.
Record SessionOk (c : ClockRow) (h : list ResourceWatchEvent) (m : Rows) (t : Z) (s : Session) : Prop := {
  so_token : le_FencingToken (se_lease s) = t;
  so_range : (1 ≤ t ≤ ck_FencingToken c)%Z;
  so_call : wfCall t (se_call s);
  so_view : viewOk c h m t (view (se_call s));
  so_result : callOk c h (se_keys s) (se_call s);
}.
Definition Inv (x : Cluster) : Prop :=
  match db_clock (cl_db x) with
  | None => cl_log x = [] ∧ cl_sessions x = ∅ ∧ db_events (cl_db x) = ∅
  | Some c =>
      (0 ≤ ck_FencingToken c)%Z ∧ TablesOk c (cl_log x) (db_events (cl_db x)) ∧
      ∀ t s, cl_sessions x !! t = Some s → SessionOk c (cl_log x) (db_events (cl_db x)) t s
  end.

Lemma rowKey_layout a b n : sameLayout a b → rowKey a n = rowKey b n.
Proof. intros [H1 H2]. unfold rowKey. by rewrite H1, H2. Qed.
Lemma eventRow_inj a n m : rowKey a n = rowKey a m → n = m.
Proof. unfold rowKey. congruence. Qed.
#[export] Hint Resolve rowKey_layout : core.

(** ** Changes of the clock *)

(** A clock that keeps what the rows depend on; its token may only grow. *)
Definition clockMoves (c c' : ClockRow) : Prop :=
  sameLayout c c' ∧ ck_HighWater c' = ck_HighWater c ∧ (ck_FencingToken c ≤ ck_FencingToken c')%Z.
Lemma tables_clock c c' h m : clockMoves c c' → TablesOk c h m → TablesOk c' h m.
Proof.
  intros ([E1 E2] & Eh & Ht) H. assert (∀ n, rowKey c' n = rowKey c n) as Hk by (intros n; unfold rowKey; congruence).
  constructor.
  - rewrite Eh. apply H.
  - rewrite <- E2. apply H.
  - intros k e He. apply H in He as (-> & -> & ?). rewrite Hk. split_and!; [done|congruence|lia].
  - intros i e He. apply H in He as (-> & -> & ?). split_and!; [done|congruence|lia].
  - apply H.
  - intros i e e' He. rewrite Hk. by apply H.
Qed.
Lemma since_clock c c' h m t clock : clockMoves c c' → since c h m t clock → since c' h m t clock.
Proof.
  intros ([E1 E2] & _) ([F1 F2] & H0 & H). split; [split; congruence|]. split; [done|].
  intros i e Hi He. destruct (H i e Hi He) as [H1 H2]. split; [done|]. unfold rowKey in *. by rewrite <- E1, <- E2.
Qed.
Lemma session_clock c c' h m t s : clockMoves c c' → SessionOk c h m t s → SessionOk c' h m t s.
Proof.
  intros Hc [H1 H2 H3 H4 H5]. pose proof Hc as ([E1 E2] & Eh & Ht). constructor; [done|lia|done| |by eapply callOk_clock; [apply Hc|]].
  destruct (view (se_call s)) as [|clock|clock cands]; [done|by eapply since_clock|].
  intros Hown. destruct (H4 Hown) as ([F1 F2] & Hz & Hp & Hr). split; [split; congruence|]. split; [done|]. split; [done|].
  intros Eh' Et e He. unfold rowKey in *. rewrite <- E1, <- E2. apply Hr; [congruence|lia|done].
Qed.
Lemma inv_clock db ss h c c' m p :
  db_clock db = Some c → clockMoves c c' → m = db_events db →
  Inv (mkCluster db ss h) → Inv (mkCluster (mkDB (Some c') m p) ss h).
Proof.
  intros Ec Hc ->. unfold Inv. simpl. rewrite Ec. intros (H0 & Ht & Hs). pose proof Hc as (_ & _ & Hle).
  split; [lia|]. split; [by eapply tables_clock|]. intros t s Hts. eapply session_clock; eauto.
Qed.
Lemma ifClock_inv cond upd db ss h :
  (∀ c, cond c = true → clockMoves c (upd c)) → Inv (mkCluster db ss h) → Inv (mkCluster (ifClock cond upd db).2 ss h).
Proof.
  intros Hc H. unfold ifClock. destruct (db_clock db) as [c|] eqn:Ec; [|done].
  destruct (cond c) eqn:E; [|done]. simpl. by eapply inv_clock; [done|by apply Hc| |].
Qed.
Lemma clockMoves_same c c' :
  ck_Epoch c = ck_Epoch c' → ck_BucketSize c = ck_BucketSize c' → ck_HighWater c' = ck_HighWater c →
  ck_FencingToken c' = ck_FencingToken c → clockMoves c c'.
Proof. intros. split; [by split|]. split; [done|lia]. Qed.
#[export] Hint Resolve clockMoves_same : core.

(** ** Changes of the rows *)

(** Other rows of the table do not matter to what a call holds. *)
Definition rowsKept (t : Z) (c : ClockRow) (h : list ResourceWatchEvent) (m m' : Rows) : Prop :=
  (∀ i e, h !! i = Some e → row c m i = Some e → row c m' i = Some e) ∧
  (∀ k e, m !! k = Some e → ev_FencingToken e = ck_FencingToken c → m' !! k = Some e).
Lemma session_rows c h m m' t s : rowsKept t c h m m' → SessionOk c h m t s → SessionOk c h m' t s.
Proof.
  intros [Hlog Htok] [H1 H2 H3 H4 H5]. constructor; [done..| |done]. destruct (view (se_call s)) as [|clock|clock cands]; [done| |].
  - destruct H4 as (Hl & H0 & H). split; [done|]. split; [done|]. intros i e Hi He. destruct (H i e Hi He). by eauto.
  - intros Hown. destruct (H4 Hown) as (Hl & Hz & Hp & Hr). split; [done|]. split; [done|]. split; [done|]. intros Eh Et e He.
    eapply Htok; [by apply Hr|]. rewrite Et. by apply (proj1 (Forall_forall _ _) Hown).
Qed.

Lemma rows_insert_lookup {A} `{Countable K} (f : A → K) (es : list A) (m : gmap K A) k e :
  NoDup (f <$> es) →
  foldl (λ m e, <[f e := e]> m) m es !! k = Some e ↔ (e ∈ es ∧ k = f e) ∨ (k ∉ f <$> es ∧ m !! k = Some e).
Proof.
  revert m. induction es as [|x es IH]; intros m Hnd; simpl.
  - split; [intros Hk; right; split; [by apply not_elem_of_nil|done]|]. intros [[?%elem_of_nil _]|[_ ?]]; done.
  - apply NoDup_cons in Hnd as [Hx Hnd]. rewrite (IH _ Hnd), lookup_insert_Some, elem_of_cons, not_elem_of_cons.
    split.
    + intros [[He ->]|[Hk [[<- <-]|[Hne Hm]]]]; [left; auto|left; auto|right; auto].
    + intros [[[->|He] ->]|[[Hne Hk] Hm]]; [right; auto|left; auto|right; auto].
Qed.
Lemma positioned_NoDup clock t cands : positioned clock t cands → NoDup ((λ e, rowKey clock (ev_Sequence e)) <$> cands).
Proof.
  intros Hp. apply NoDup_alt. intros i j k Hi Hj. rewrite list_lookup_fmap in Hi, Hj.
  destruct (cands !! i) as [e|] eqn:Ei; simplify_eq/=. destruct (cands !! j) as [e'|] eqn:Ej; simplify_eq/=.
  apply Hp in Ei as (Ei & _), Ej as (Ej & _). lia.
Qed.
Lemma insertEvents_true clock t cands db db' :
  positioned clock t cands → insertEvents clock cands db = (true, db') →
  db_clock db' = db_clock db ∧
  (∀ e, e ∈ cands → db_events db !! rowKey clock (ev_Sequence e) = None) ∧
  ∀ k e, db_events db' !! k = Some e ↔ (e ∈ cands ∧ k = rowKey clock (ev_Sequence e)) ∨ db_events db !! k = Some e.
Proof.
  intros Hp. unfold insertEvents. destruct (forallb _ cands) eqn:Ef; [|done]. intros [= <-]. simpl. split; [done|].
  rewrite forallb_forall in Ef.
  assert (∀ e, e ∈ cands → db_events db !! rowKey clock (ev_Sequence e) = None) as Hnone.
  { intros e He. apply list_elem_of_In, Ef, bool_decide_eq_true in He. done. }
  split; [done|]. intros k e.
  rewrite (rows_insert_lookup (λ e, rowKey clock (ev_Sequence e))) by (by eapply positioned_NoDup).
  split; [naive_solver|]. intros [?|Hk]; [by left|]. right. split; [|done].
  intros (e' & -> & He')%list_elem_of_fmap. by rewrite (Hnone _ He') in Hk.
Qed.

Section effects.
Context (c : ClockRow) (h : list ResourceWatchEvent) (m : Rows) (Hok : TablesOk c h m).

(** A call whose insert was accepted loaded the clock as it still is. *)
Lemma insert_current t clock cands e :
  since c h m t clock → positioned clock t cands → e ∈ cands →
  (∀ e, e ∈ cands → m !! rowKey clock (ev_Sequence e) = None) → (ck_HighWater c ≤ ck_HighWater clock)%Z.
Proof.
  intros (Hl & H0 & Hs) Hp He Hnone. rewrite (to_high _ _ _ Hok).
  destruct (decide (ck_HighWater clock < Z.of_nat (length h))%Z) as [Hlt|]; [|lia]. exfalso.
  assert (0 < length cands) as Hlen by (destruct cands; [by apply elem_of_nil in He|simpl; lia]).
  destruct (lookup_lt_is_Some_2 cands 0 Hlen) as [e0 He0].
  destruct (Hp _ _ He0) as (Hseq & _). apply list_elem_of_lookup_2 in He0. pose proof (Hnone _ He0) as Hn.
  destruct (lookup_lt_is_Some_2 h (Z.to_nat (ck_HighWater clock))) as [x Hx]; [lia|].
  destruct (Hs (Z.to_nat (ck_HighWater clock)) x) as [_ Hrow]; [lia|done|].
  rewrite Hseq, (rowKey_layout _ _ _ Hl) in Hn.
  replace (Z.of_nat (S (Z.to_nat (ck_HighWater clock)))) with (ck_HighWater clock + 1 + Z.of_nat 0)%Z in Hrow by lia.
  congruence.
Qed.
Lemma insert_ok t clock cands db db' :
  (t ≤ ck_FencingToken c)%Z → since c h m t clock → positioned clock t cands → db_events db = m →
  insertEvents clock cands db = (true, db') →
  TablesOk c h (db_events db') ∧ (∀ k e, m !! k = Some e → db_events db' !! k = Some e) ∧
  ∀ e, e ∈ cands → db_events db' !! rowKey c (ev_Sequence e) = Some e.
Proof.
  intros Ht Hsince Hp Em Hi. destruct (insertEvents_true _ _ _ _ _ Hp Hi) as (_ & Hnone & Hm). rewrite Em in Hnone, Hm.
  destruct Hok. pose proof Hsince as (Hl & H0 & _).
  assert (∀ e, e ∈ cands → ∃ i, ev_Sequence e = (ck_HighWater clock + 1 + Z.of_nat i)%Z ∧ ev_FencingToken e = t ∧
    ev_Epoch e = ck_Epoch clock) as Hcand.
  { intros e (i & He)%list_elem_of_lookup. exists i. by apply Hp. }
  split; [|split].
  - constructor; [done|done| |done|done|].
    + intros k e [[He ->]|He]%Hm; [|by apply to_rows0]. rewrite (rowKey_layout _ _ _ Hl).
      destruct (Hcand e He) as (i & _ & -> & ->). split_and!; [done|apply Hl|done].
    + intros i e e' He [[He' Hk]|Hk]%Hm; [|by eapply to_match0]. exfalso.
      pose proof (insert_current t clock cands e' Hsince Hp He' Hnone) as Hcur.
      rewrite (rowKey_layout _ _ _ Hl) in Hk. apply eventRow_inj in Hk. destruct (Hcand e' He') as (j & Hseq & _).
      apply lookup_lt_Some in He. rewrite to_high0 in Hcur. lia.
  - intros k e He. apply Hm. by right.
  - intros e He. apply Hm. left. split; [done|]. symmetry. by apply rowKey_layout.
Qed.
(** A row that is removed is not published, and older than the lease. *)
Lemma delete_ok t clock db db' :
  (t ≤ ck_FencingToken c)%Z → since c h m t clock → db_events db = m →
  deleteEvent clock (ck_HighWater clock + 1) t db = (true, db') →
  db_clock db' = db_clock db ∧ TablesOk c h (db_events db') ∧ rowsKept t c h m (db_events db').
Proof.
  intros Ht (Hl & H0 & Hs) Em. unfold deleteEvent. rewrite Em. destruct (m !! _) as [e|] eqn:Ee; [|done].
  destruct (Z.ltb_spec (ev_FencingToken e) t) as [Hlt|]; [|done]. intros [= <-]. simpl. split; [done|].
  rewrite (rowKey_layout _ _ _ Hl) in Ee |- *. destruct Hok.
  assert (∀ i x, h !! i = Some x → row c m i = Some x → rowKey c (Z.of_nat (S i)) ≠ rowKey c (ck_HighWater clock + 1)) as Hne.
  { intros i x Hi Hrow Hk. rewrite Hk in Hrow. apply eventRow_inj in Hk. destruct (Hs i x) as [Htok _]; [lia|done|].
    assert (x = e) as -> by congruence. lia. }
  split; [constructor; [done|done| |done|done|]|split].
  - intros k x [_ Hk]%lookup_delete_Some. by apply to_rows0.
  - intros i x x' Hi [_ Hk]%lookup_delete_Some. by eapply to_match0.
  - intros i x Hi Hrow. rewrite lookup_delete_ne; [done|]. intros E. by apply (Hne i x).
  - intros k x Hk Htok. rewrite lookup_delete_ne; [done|]. intros <-. simplify_eq. lia.
Qed.
End effects.

Lemma publish_true clock lease next ty at_ now db db' :
  publishNamespaceWatchSequence clock lease next ty at_ now db = (true, db') →
  ∃ c c', db_clock db = Some c ∧ db' = setClock db c' ∧ sameLayout c c' ∧ ck_HighWater c' = next ∧
    ck_FencingToken c' = ck_FencingToken c ∧ ck_HighWater c = ck_HighWater clock ∧ ck_FencingToken c = le_FencingToken lease.
Proof.
  unfold publishNamespaceWatchSequence, ifClock. destruct (db_clock db) as [c|] eqn:Ec; [|done].
  destruct (_ && _) eqn:E; [|done]. intros [= <-]. rewrite !andb_true_iff, !Z.eqb_eq in E.
  destruct E as [[[[_ ?] _] ?] _]. eexists c, _. split_and!; done.
Qed.

Section publication.
Context (c c' : ClockRow) (h cands : list ResourceWatchEvent) (m : Rows).
Context (Hok : TablesOk c h m) (Hl : sameLayout c c').
Context (Hh : ck_HighWater c' = (ck_HighWater c + Z.of_nat (length cands))%Z) (Ht : ck_FencingToken c' = ck_FencingToken c).
Context (clock : ClockRow) (Hp : positioned clock (ck_FencingToken c) cands) (Hc : ck_HighWater clock = ck_HighWater c).
Context (Hcl : sameLayout clock c).
Context (Hrows : ∀ e, e ∈ cands → m !! rowKey c (ev_Sequence e) = Some e).

Lemma cands_lookup i e :
  cands !! i = Some e →
  ev_Sequence e = Z.of_nat (S (length h + i)) ∧ ev_Epoch e = ck_Epoch c ∧ ev_FencingToken e = ck_FencingToken c ∧
  row c m (length h + i) = Some e.
Proof.
  intros He. destruct (Hp i e He) as (Hs & Htok & Hep). rewrite Hc, (to_high _ _ _ Hok) in Hs.
  assert (ev_Sequence e = Z.of_nat (S (length h + i))) as Hseq by lia. split_and!; [done| |done|].
  - rewrite Hep. apply Hcl.
  - rewrite <- Hseq. apply Hrows. by eapply list_elem_of_lookup_2.
Qed.
Lemma publish_tables : TablesOk c' (h ++ cands) m.
Proof.
  pose proof (to_high _ _ _ Hok) as Hhigh. destruct Hl as [E1 E2]. assert (∀ n, rowKey c' n = rowKey c n) as Hk by (intros n; unfold rowKey; congruence).
  constructor.
  - rewrite Hh, length_app, Hhigh. lia.
  - rewrite <- E2. apply Hok.
  - intros k e He. apply (to_rows _ _ _ Hok) in He as (-> & -> & ?). rewrite Hk, Ht. done.
  - rewrite <- E1, Ht. intros i e [He|[Hi He]]%lookup_app_Some; [by apply (to_log _ _ _ Hok)|].
    apply cands_lookup in He as (-> & -> & -> & _). split_and!; [lia|done|lia].
  - intros i j e e' [Hi|[Hi He]]%lookup_app_Some [Hj|[Hj He']]%lookup_app_Some Hij.
    + by eapply (to_tokens _ _ _ Hok).
    + apply (to_log _ _ _ Hok) in Hi as (_ & _ & ?). apply cands_lookup in He' as (_ & _ & -> & _). done.
    + apply lookup_lt_Some in Hj. lia.
    + apply cands_lookup in He as (_ & _ & -> & _), He' as (_ & _ & -> & _). done.
  - intros i e e' [He|[Hi He]]%lookup_app_Some; rewrite Hk; [by apply (to_match _ _ _ Hok)|].
    apply cands_lookup in He as (_ & _ & _ & Hrow). replace (length h + (i - length h)) with i in Hrow by lia. congruence.
Qed.
Lemma publish_session t s : t ≠ ck_FencingToken c → SessionOk c h m t s → SessionOk c' (h ++ cands) m t s.
Proof.
  intros Hne [H1 H2 H3 H4 H5]. constructor; [done|lia|done| |by eapply callOk_mono]. pose proof Hl as [E1 E2].
  assert (∀ n, rowKey c' n = rowKey c n) as Hk by (intros n; unfold rowKey; congruence).
  destruct (view (se_call s)) as [|cl|cl cs]; [done| |].
  - destruct H4 as ([F1 F2] & H0 & H). split; [split; congruence|]. split; [done|].
    intros i e Hi [He|[Hge He]]%lookup_app_Some; rewrite Hk; [by apply H|].
    apply cands_lookup in He as (_ & _ & -> & Hrow). replace (length h + (i - length h)) with i in Hrow by lia.
    split; [lia|done].
  - intros Hown. destruct (H4 Hown) as ([F1 F2] & Hz & Hpos & _). split; [split; congruence|]. split; [done|]. split; [done|].
    intros _ Et. congruence.
Qed.
End publication.

(** The sessions after a step of one of them. *)
Lemma sessions_insert c h m (ss : gmap Z Session) t s' :
  SessionOk c h m t s' → (∀ t' s, t' ≠ t → ss !! t' = Some s → SessionOk c h m t' s) →
  ∀ t' s, <[t := s']> ss !! t' = Some s → SessionOk c h m t' s.
Proof. intros H1 H2 t' s [[<- <-]|[Hne Hs]]%lookup_insert_Some; [done|]. by apply H2. Qed.
Lemma highWater_events db m : highWater (setRows db m) = highWater db.
Proof. done. Qed.

Lemma publishedBy_same v db db' : db_clock db' = db_clock db → publishedBy v db db' = [].
Proof. intros E. unfold publishedBy, highWater. by rewrite E, Z.eqb_refl. Qed.
(** A step that changes rows only. *)
Lemma inv_rows db db' ss h t s c c' v :
  db_clock db = Some c → db_clock db' = Some c → Inv (mkCluster db ss h) → ss !! t = Some s → wfCall t c' →
  TablesOk c h (db_events db') → (∀ t', rowsKept t' c h (db_events db) (db_events db')) →
  viewOk c h (db_events db') t (view c') → callOk c h (se_keys s) c' →
  Inv (mkCluster db' (<[t := mkSession (se_lease s) c' (se_keys s)]> ss) (h ++ publishedBy v db db')).
Proof.
  intros Ec Ec'. unfold Inv. simpl. rewrite Ec, Ec'. intros (H0 & Hok & Hss) Hs Hwf Ht Hk Hv Hres.
  assert (publishedBy v db db' = []) as ->.
  { unfold publishedBy, highWater. by rewrite Ec, Ec', Z.eqb_refl. }
  rewrite app_nil_r. split; [done|]. split; [done|]. pose proof (Hss t s Hs) as [H1 H2 H3 H4 H5].
  apply sessions_insert; [by constructor|]. intros t' s' _ Hs'. eapply session_rows; eauto.
Qed.
Lemma rowsKept_refl t c h m : rowsKept t c h m m.
Proof. by split. Qed.
#[export] Hint Resolve rowsKept_refl : core.

Lemma viewStep_inv db ss h t s c' db' :
  Inv (mkCluster db ss h) → ss !! t = Some s → viewStep (se_lease s) db (view (se_call s)) (view c') db' → wfCall t c' →
  (∀ clock cands, view (se_call s) = VPublish clock cands → ownRows t cands) →
  (∀ c, db_clock db = Some c → callOk c (h ++ publishedBy (view (se_call s)) db db') (se_keys s) c') →
  Inv (mkCluster db' (<[t := mkSession (se_lease s) c' (se_keys s)]> ss) (h ++ publishedBy (view (se_call s)) db db')).
Proof.
  intros Hinv Hs Hv Hwf Hown Hres. pose proof Hinv as Hi. unfold Inv in Hi. simpl in Hi.
  destruct (db_clock db) as [c|] eqn:Ec; [|destruct Hi as (_ & -> & _); by rewrite lookup_empty in Hs].
  destruct Hi as (H0 & Hok & Hss). pose proof (Hss t s Hs) as [Htok Hrange Hcall Hview _]. specialize (Hres c eq_refl).
  assert (db_clock db' = Some c → callOk c h (se_keys s) c') as Hquiet.
  { intros E. rewrite publishedBy_same, app_nil_r in Hres by congruence. done. }
  assert (viewOk c h (db_events db) t (view c') → db' = db →
    Inv (mkCluster db' (<[t := mkSession (se_lease s) c' (se_keys s)]> ss) (h ++ publishedBy (view (se_call s)) db db'))) as Hsame.
  { intros Hvo ->. eapply inv_rows; eauto. }
  remember (view (se_call s)) as v eqn:Ev. remember (view c') as v' eqn:Ev'.
  destruct Hv as [v|clock|clock v Hc|clock cands db' v' Hp Hi Hv'|clock e He Het|clock db' Hd|clock e He|clock cands ty at_ now db' Hpub|].
  - by apply Hsame.
  - by apply Hsame.
  - apply Hsame; [|done]. assert (clock = c) as -> by congruence. split; [done|]. rewrite (to_high _ _ _ Hok). split; [lia|].
    intros i e Hi He%lookup_lt_Some. lia.
  - destruct (insertEvents_true _ _ _ _ _ Hp Hi) as (Ec' & _). rewrite Htok in Hp.
    destruct (insert_ok c h _ Hok t clock cands db db') as (Ht' & Hkeep & Hnew); [lia|done..|].
    eapply inv_rows; [done|congruence|done|done|done|done|by split; eauto| |apply Hquiet; congruence]. rewrite <- Ev'.
    destruct Hv' as [->| ->]; [done|]. intros _. by split_and!; [apply Hview|apply Hview| |].
  - apply Hsame; [|done]. destruct Hview as (Hl & Hz & _). intros _. split; [done|]. split; [done|].
    destruct (to_rows _ _ _ Hok _ _ He) as (Hk & Hep & _). rewrite (rowKey_layout _ _ _ Hl) in Hk, He. apply eventRow_inj in Hk.
    split.
    + intros i x [-> <-]%list_lookup_singleton_Some. split_and!; [lia|congruence|]. rewrite Hep. symmetry. apply Hl.
    + intros _ _ x ->%list_elem_of_singleton. by rewrite <- Hk.
  - destruct (delete_ok c h _ Hok t clock db db') as (Ec' & Ht' & Hkeep); [lia|done|done|by rewrite <- Htok|].
    eapply inv_rows; [done|congruence|done|done|done|done|done|by rewrite <- Ev'|apply Hquiet; congruence].
  - apply Hsame; [|done]. intros Ho. unfold ownRows in Ho; rewrite Forall_singleton in Ho. lia.
  - apply publish_true in Hpub as (c0 & c1 & Ec0 & -> & Hl & Hh & Ht & Ehc & Etc). assert (c0 = c) as -> by congruence.
    destruct (Hview (Hown _ _ eq_refl)) as (Hcl & _ & Hp & Hrows). specialize (Hrows (eq_sym Ehc) ltac:(congruence)).
    assert (publishedBy (VPublish clock cands) db (setClock db c1) = cands) as Hpb.
    { unfold publishedBy, highWater. simpl. rewrite Ec, Hh, Ehc. case_match eqn:E; [|done].
      apply Z.eqb_eq in E. by destruct cands; [|simpl in E; lia]. }
    rewrite Hpb in Hres |- *. rewrite Htok in Etc. rewrite <- Etc in Hp. unfold Inv. simpl. split; [lia|].
    split; [eapply (publish_tables c c1 h cands _ Hok Hl ltac:(congruence) Ht clock Hp); [done|done|done]|].
    apply sessions_insert.
    + constructor; [done|simpl; lia|done|by simpl; rewrite <- Ev'|by eapply callOk_clock].
    + intros t' s' Hne Hs'. eapply (publish_session c c1 h cands _ Hok Hl Ht clock Hp); [done|done|done|congruence|by apply Hss].
  - assert (updateOldest 1 db = (true, setClock db (setOldest 1 c))) as -> by (unfold updateOldest, ifClock; by rewrite Ec).
    simpl. assert (publishedBy VNone db (setClock db (setOldest 1 c)) = []) as Hpb.
    { unfold publishedBy, highWater. simpl. by rewrite Ec, Z.eqb_refl. }
    assert ((updateOldest 1 db).2 = setClock db (setOldest 1 c)) as Eu by (unfold updateOldest, ifClock; by rewrite Ec).
    rewrite Eu, Hpb, app_nil_r in Hres. rewrite Hpb, app_nil_r. unfold setClock. eapply inv_clock; [done|by apply clockMoves_same|done|].
    replace h with (h ++ publishedBy VNone db db); [by eapply inv_rows; [..|by rewrite <- Ev'|]|].
    unfold publishedBy. by rewrite Z.eqb_refl, app_nil_r.
Qed.

(** ** Reachable clusters *)

Lemma inv_session db ss h t s c' keys :
  Inv (mkCluster db ss h) → ss !! t = Some s → wfCall t c' → view c' = VNone → (∀ c, callOk c h keys c') →
  Inv (mkCluster db (<[t := mkSession (se_lease s) c' keys]> ss) h).
Proof.
  intros Hi Hs Hwf Hv Hres. unfold Inv in *. simpl in *.
  destruct (db_clock db) as [c|]; [|destruct Hi as (_ & -> & _); by rewrite lookup_empty in Hs].
  destruct Hi as (H0 & Hok & Hss). split; [done|]. split; [done|]. apply sessions_insert; [|naive_solver].
  destruct (Hss t s Hs). constructor; [done..| |done]. simpl. by rewrite Hv.
Qed.
Lemma acquire_true holder current now ttl db db' lease :
  AcquireLease holder current now ttl db = (db', Some lease) →
  ∃ c, db_clock db = Some c ∧ le_FencingToken lease = (ck_FencingToken c + 1)%Z ∧
    db' = setClock db (withLease holder (ck_FencingToken c + 1) (truncateMilli (now + ttl)) c).
Proof.
  unfold AcquireLease, acquireCAS, ifClock. destruct (_ && _); [done|]. destruct (db_clock db) as [c|]; [|done].
  destruct (_ && _) eqn:E; [|done]. intros [= <- <-]. rewrite !andb_true_iff, !Z.eqb_eq in E. destruct E as [[_ <-] _].
  by exists c.
Qed.
(** ** Results stay right *)

Lemma publishedBy_applied clock lease cands next ty at_ now db db' :
  (0 < length cands) → next = (ck_HighWater clock + Z.of_nat (length cands))%Z →
  publishNamespaceWatchSequence clock lease next ty at_ now db = (true, db') → publishedBy (VPublish clock cands) db db' = cands.
Proof.
  intros Hlen -> (c & c' & Ec & -> & _ & Hh & _ & Ehc & _)%publish_true. unfold publishedBy, highWater. simpl.
  rewrite Ec, Hh, Ehc. destruct (Z.eqb_spec (ck_HighWater clock + Z.of_nat (length cands)) (ck_HighWater clock))%Z; [lia|done].
Qed.
Lemma judgeClock_None clock lease n r db c :
  db_clock db = Some c → judgeClock clock lease n (match r with Answered => db_clock db | Failed _ => None end) = None →
  (n ≤ ck_HighWater c)%Z.
Proof.
  intros Ec. rewrite Ec. destruct r; simpl; [|done]. destruct (negb _); [done|].
  by destruct (Z.ltb_spec (ck_HighWater c) n).
Qed.
Lemma again_ok c h key a : dedup (ca_event a) = key → appendOk c h key (again a).
Proof. intros Hk. unfold again. by case_match. Qed.
Lemma judgeExisting_ok c h key lease a clock e : dedup (ca_event a) = key → appendOk c h key (judgeExisting lease a clock e).
Proof.
  intros Hk. unfold judgeExisting. case_match; [done|]. destruct (negb _ && _) eqn:E; [|by apply again_ok].
  apply andb_true_iff in E as [_ E%bool_decide_eq_true]. split; [done|]. simpl. congruence.
Qed.
Lemma datedEvent_dedup now e : dedup (datedEvent now e) = dedup e.
Proof. unfold datedEvent. by case_bool_decide. Qed.
#[export] Hint Resolve again_ok judgeExisting_ok : core.

Lemma batchCandidates_dedup clock lease now chunk : dedup <$> batchCandidates clock lease now chunk = dedup <$> chunk.
Proof.
  apply list_eq. intros i. unfold batchCandidates. rewrite !list_lookup_fmap, list_lookup_imap.
  destruct (chunk !! i); simpl; [|done]. by rewrite datedEvent_dedup.
Qed.
Lemma take_drop_length {A} n (l : list A) : take n l ++ drop (length (take n l)) l = l.
Proof. rewrite length_take. destruct (decide (n ≤ length l)); [rewrite Nat.min_l by done|rewrite Nat.min_r, take_ge, drop_ge, app_nil_r by lia; done]. apply take_drop. Qed.

Section batches.
Context (c : ClockRow) (h : list ResourceWatchEvent) (keys : list string).
Lemma bnext_ok es appended :
  Forall (inLog h) appended → keys = (dedup <$> appended) ++ (dedup <$> es) → batchOk c h keys (bnext es appended).
Proof. intros H1 Hk. unfold bnext. destruct es; (split; [done|]); simpl; [by rewrite Hk, app_nil_r|done]. Qed.
Lemma bsingles_ok now b chunk rest :
  Forall (inLog h) (ba_appended b) → keys = (dedup <$> ba_appended b) ++ (dedup <$> rest) ++ remaining b chunk →
  batchOk c h keys (bsingles now b chunk rest).
Proof.
  intros H1 Hk. unfold bsingles. destruct rest as [|e rest]; [by apply bnext_ok|]. split; [done|]. simpl.
  exists (dedup e). split; [done|]. split; [apply datedEvent_dedup|done].
Qed.
Lemma bdone_ok b chunk cands :
  Forall (inLog h) (ba_appended b) → Forall (inLog h) cands → dedup <$> cands = dedup <$> chunk →
  keys = (dedup <$> ba_appended b) ++ (dedup <$> chunk) ++ remaining b chunk → batchOk c h keys (bdone b chunk cands).
Proof. intros H1 H2 E Hk. apply bnext_ok; [by apply Forall_app_2|]. by rewrite Hk, fmap_app, <- app_assoc, E. Qed.
Lemma boldest_ok b clock chunk cands :
  Forall (inLog h) (ba_appended b) → Forall (inLog h) cands → dedup <$> cands = dedup <$> chunk →
  keys = (dedup <$> ba_appended b) ++ (dedup <$> chunk) ++ remaining b chunk → batchOk c h keys (boldest b clock chunk cands).
Proof. intros H1 H2 E Hk. unfold boldest. case_match; [by split|by apply bdone_ok]. Qed.
End batches.

Section results.
Context (c : ClockRow) (h : list ResourceWatchEvent) (db : DB) (Ec : db_clock db = Some c) (Hok : TablesOk c h (db_events db)).

(** A row that was read at a published position is the event of the log. *)
Lemma judgeRow_ok clock cand r :
  visibleAt c h clock cand →
  judgeRow cand (match r with Answered => db_events db !! rowKey clock (ev_Sequence cand) | Failed _ => None end) = Ok tt →
  inLog h cand.
Proof.
  intros [Hl Hr]. destruct r; [|done]. simpl. rewrite (rowKey_layout _ _ _ Hl).
  destruct (db_events db !! _) as [e|] eqn:Ee; [|done]. simpl. destruct (namespaceWatchEventsEqual e cand) eqn:Eq; [|done].
  intros _. destruct (lookup_lt_is_Some_2 h (Z.to_nat (ev_Sequence cand - 1))) as [x Hx]; [lia|].
  exists e. split; [|done]. rewrite (to_match _ _ _ Hok _ _ e Hx); [by eapply list_elem_of_lookup_2|].
  by replace (Z.of_nat (S (Z.to_nat (ev_Sequence cand - 1)))) with (ev_Sequence cand) by lia.
Qed.
Lemma append_ok_step lease now r key t a a' db' :
  appendOk c h key a → viewOk c h (db_events db) t (appendView a) →
  (∀ clock cands, appendView a = VPublish clock cands → ownRows t cands) →
  append_step lease now r a db = (a', db') → appendOk c (h ++ publishedBy (appendView a) db db') key a'.
Proof.
  intros Ha Hview Hown H. pose proof Ha as [Hk Hpc]. unfold append_step in H.
  assert (∀ l, appendOk c h key a' → appendOk c (h ++ l) key a') as Hm by (intros; by eapply appendOk_mono).
  unfold appendView in *. destruct (ca_pc a) as [|clock|clock|clock existing|clock cand own|clock cand|clock cand|cand|res] eqn:Epc.
  - apply Hm. destruct r, (db_clock db); injection H as <- <-; try done. by destruct (negb _).
  - apply Hm. destruct (execCAS r _ db) as [[[]|] db1]; injection H as <- <-; done.
  - apply Hm. destruct r; injection H as <- <-; [|done]. case_match; [done|by auto].
  - apply Hm. destruct (execCAS r _ db) as [[[]|] db1]; injection H as <- <-; by auto.
  - destruct (Hview (Hown _ _ eq_refl)) as (Hl & Hz & Hp & _). destruct (Hp 0 cand eq_refl) as (Hseq & _).
    destruct (execCAS r _ db) as [o db1] eqn:Eo. injection H as <- <-.
    destruct o as [[]|]; [|split; [done|]; simpl; split_and!; [done|done|lia]..].
    apply execCAS_cases in Eo as [[_ ?]|(b & Hst & [?|[= <-]])]; [done|done|].
    rewrite (publishedBy_applied clock lease [cand] (ck_HighWater clock + 1)%Z _ _ _ db db1 ltac:(simpl; lia) ltac:(simpl; lia) Hst).
    assert (inLog (h ++ [cand]) cand) by (apply inLog_elem, elem_of_app; right; by left).
    destruct (own && _); by (split; [done|]).
  - apply Hm. injection H as <- <-. destruct (judgeClock _ _ _ _) as [[]|] eqn:Ej; [by auto|done|].
    apply (judgeClock_None _ _ _ _ _ _ Ec) in Ej. rewrite (to_high _ _ _ Hok) in Ej. destruct Hpc as (? & ? & ?).
    split; [done|]. simpl. split; [done|]. split; [done|lia].
  - apply Hm. injection H as <- <-. destruct (judgeRow _ _) as [[]|] eqn:Ej; [|done]. destruct Hpc as [? Hv].
    split; [done|]. simpl. split; [done|]. by eapply judgeRow_ok.
  - apply Hm. injection H as <- <-. done.
  - apply Hm. injection H as <- <-. split; [done|]. by rewrite Epc.
Qed.
Lemma batch_ok_step lease now r keys t b b' db' :
  batchOk c h keys b → viewOk c h (db_events db) t (batchView b) →
  (∀ clock cands, batchView b = VPublish clock cands → ownRows t cands) →
  batch_step lease now r b db = (b', db') → batchOk c (h ++ publishedBy (batchView b) db db') keys b'.
Proof.
  intros Hb Hview Hown H. pose proof Hb as [Hg Hpc]. unfold batch_step in H.
  assert (∀ l, batchOk c h keys b' → batchOk c (h ++ l) keys b') as Hm by (intros; by eapply batchOk_mono).
  unfold batchView, view in *.
  destruct (ba_pc b) as [|clock chunk|clock chunk cands|clock chunk cands|clock chunk cands todo|clock chunk cands
    |chunk rest call|res] eqn:Epc.
  - apply Hm. destruct r, (db_clock db); injection H as <- <-; try done. destruct (negb _); [done|]. split; [done|]. simpl.
    unfold remaining. by rewrite <- fmap_app, take_drop_length.
  - apply Hm. destruct (execCAS r _ db) as [[[]|] db1]; injection H as <- <-; [|by apply bsingles_ok..].
    split; [done|]. simpl. split; [done|]. apply batchCandidates_dedup.
  - destruct Hpc as [Hkeys Hd]. destruct (Hview (Hown _ _ eq_refl)) as (Hl & Hz & Hp & _).
    destruct (execCAS r _ db) as [o db1] eqn:Eo. injection H as <- <-.
    destruct o as [[]|]; [|split; [by auto|]; simpl; by eauto 10..].
    apply execCAS_cases in Eo as [[_ ?]|(b0 & Hst & [?|[= <-]])]; [done|done|].
    destruct cands as [|e cands]; [apply boldest_ok; [by auto|done|done|done]|].
    rewrite (publishedBy_applied clock lease (e :: cands) _ _ _ _ db db1 ltac:(simpl; lia) eq_refl Hst).
    apply boldest_ok; [by auto| |done|done]. apply Forall_forall. intros x Hx. apply inLog_elem, elem_of_app. by right.
  - apply Hm. injection H as <- <-. destruct Hpc as (Hkeys & Hd & Hl & Hz & t' & Hp).
    destruct (judgeClock _ _ _ _) as [[]|] eqn:Ej; [by apply bsingles_ok|done|].
    apply (judgeClock_None _ _ _ _ _ _ Ec) in Ej. rewrite (to_high _ _ _ Hok) in Ej.
    split; [done|]. simpl. split_and!; [done|done| |by exists []].
    apply Forall_forall. intros x (i & Hi)%list_elem_of_lookup. pose proof (lookup_lt_Some _ _ _ Hi).
    apply Hp in Hi as (Hseq & _). split; [done|lia].
  - apply Hm. injection H as <- <-. destruct Hpc as (Hkeys & Hd & Hv & l & Hc & Hin). destruct todo as [|cand todo].
    { rewrite app_nil_r in Hc. subst l. by apply boldest_ok. }
    apply Forall_cons in Hv as [Hv Hvs]. destruct (judgeRow _ _) as [[]|] eqn:Ej; [|done]. split; [done|]. simpl.
    split_and!; [done|done|done|]. exists (l ++ [cand]). split; [by rewrite <- app_assoc|].
    apply Forall_app_2; [done|]. apply Forall_singleton. by eapply judgeRow_ok.
  - apply Hm. injection H as <- <-. destruct Hpc as (? & ? & ?). by apply bdone_ok.
  - destruct Hpc as (key & Hkeys & Hcall). 
    destruct (ca_pc call) as [| | | | | | | |res] eqn:Ep;
      try (destruct (append_step lease now r call db) as [call' db1] eqn:Ea; injection H as <- <-;
           split; [by auto|]; simpl; exists key; (split; [done|]); by eapply append_ok_step).
    apply Hm. unfold appendOk in Hcall. rewrite Ep in Hcall. destruct res as [e|err]; injection H as <- <-; [|done].
    destruct Hcall as (_ & Hke & Hin). apply bsingles_ok; simpl; [apply Forall_app_2; [done|by apply Forall_singleton]|].
    unfold remaining in *. simpl. by rewrite Hkeys, fmap_app, <- app_assoc, <- Hke.
  - apply Hm. injection H as <- <-. split; [done|]. by rewrite Epc.
Qed.
End results.

Lemma call_ok_step db ss h t s now r c' db' :
  Inv (mkCluster db ss h) → ss !! t = Some s → call_step (se_lease s) now r (se_call s) db = (c', db') →
  (∀ clock cands, view (se_call s) = VPublish clock cands → ownRows t cands) →
  ∀ c, db_clock db = Some c → callOk c (h ++ publishedBy (view (se_call s)) db db') (se_keys s) c'.
Proof.
  intros Hi Hs Hc Hown c Ec. unfold Inv in Hi. simpl in Hi. rewrite Ec in Hi. destruct Hi as (_ & Hok & Hss).
  destruct (Hss t s Hs) as [_ _ _ Hview Hres]. destruct (se_call s) as [|a|b]; simpl in Hc.
  - by injection Hc as <- <-.
  - destruct (append_step _ now r a db) as [a' db1] eqn:Ea. injection Hc as <- <-. destruct Hres as (key & -> & Ha).
    exists key. split; [done|]. by eapply append_ok_step.
  - destruct (batch_step _ now r b db) as [b' db1] eqn:Eb. injection Hc as <- <-. by eapply batch_ok_step.
Qed.

(** ** Every reachable cluster *)

Lemma clusterStep_inv x y : calm x → Inv x → clusterStep x y → Inv y.
Proof.
  intros Hcalm Hi Hs. destruct Hs as [db ss h epoch size now Ec Hsize|db ss h holder current now ttl db' lease Ha|
    db ss h lease current now ttl|db ss h lease|db ss h lease p now|db ss h r oldest|db ss h t s now e Hs Hidle|
    db ss h t s es Hs Hidle|db ss h t s now r c' db' Hs Hc|db ss h t s Hs|db ss h key n Hg Hn].
  - unfold Inv in *. simpl in *. unfold insertClock. rewrite Ec in *. simpl. destruct Hi as (-> & -> & ->).
    split; [done|]. split; [|by intros t s Hs; rewrite lookup_empty in Hs].
    constructor; simpl; [done|lia|..]; intros *; try (by rewrite lookup_empty); by rewrite lookup_nil.
  - apply acquire_true in Ha as (c & Ec & Et & ->). unfold setClock.
    pose proof (inv_clock db ss h c (withLease holder (ck_FencingToken c + 1) (truncateMilli (now + ttl)) c)
      (db_events db) (db_progress db) Ec) as H. specialize (H ltac:(split; [done|split; [done|simpl; lia]]) eq_refl Hi).
    unfold Inv in *. simpl in *. rewrite Ec in Hi. destruct Hi as (H0 & _). destruct H as (_ & Ht & Hss).
    split; [lia|]. split; [done|]. apply sessions_insert; [|naive_solver]. constructor; simpl; [done|lia|done|done|done].
  - unfold RenewLease. destruct (negb _); [done|].
    match goal with |- context [ifClock ?c ?u db] => pose proof (ifClock_inv c u db ss h) as H; destruct (ifClock c u db) end.
    simpl in *. apply H; [|done]. intros c _. by apply clockMoves_same.
  - apply ifClock_inv; [|done]. intros c _. by apply clockMoves_same.
  - unfold SaveProgress. case_bool_decide; [done|]. destruct (db_clock db) as [c|] eqn:Ec; [|done].
    destruct (_ && _); [|done]. simpl. eapply inv_clock; [done| |done|done]. case_bool_decide; by apply clockMoves_same.
  - apply ifClock_inv; [|done]. intros c _. by apply clockMoves_same.
  - apply inv_session; [done..|]. intros c. exists (dedup e). split; [done|]. split; [apply datedEvent_dedup|done].
  - apply inv_session; [done|done|apply bnext_stale|apply bnext_view|]. intros c. by apply bnext_ok.
  - assert (le_FencingToken (se_lease s) = t ∧ (1 ≤ t)%Z ∧ wfCall t (se_call s)) as (Et & Ht & Hwf).
    { unfold Inv in Hi. simpl in Hi. destruct (db_clock db) as [c|]; [|destruct Hi as (_ & -> & _); by rewrite lookup_empty in Hs].
      destruct Hi as (_ & _ & Hss). destruct (Hss t s Hs). split_and!; [done|lia|done]. }
    assert (∀ clock cands, view (se_call s) = VPublish clock cands → ownRows t cands) as Hown by (intros clock cands Ev; by eapply Hcalm).
    pose proof (call_ok_step _ _ _ _ _ _ _ _ _ Hi Hs Hc Hown) as Hres.
    rewrite <- Et in Ht, Hwf. apply call_viewStep in Hc as [Hv Hwf']; [|done|done]. rewrite Et in Hwf'.
    by apply viewStep_inv.
  - by apply inv_session.
  - unfold Inv in *. simpl in *. destruct (db_clock db) as [c|]; [|by destruct Hi as (-> & -> & ->); rewrite delete_empty].
    destruct Hi as (H0 & Hok & Hss). split; [done|]. split.
    + destruct Hok. constructor; [done|done| |done|done|].
      * intros k e [_ He]%lookup_delete_Some. by apply to_rows0.
      * intros i e e' He [_ He']%lookup_delete_Some. by eapply to_match0.
    + intros t s Hs. destruct (Hss t s Hs) as [H1 H2 H3 H4 H5]. constructor; [done..| |done].
      specialize (Hg t s). destruct (view (se_call s)) as [|clock|clock cands]; [done| |]; specialize (Hg clock Hs eq_refl).
      * destruct H4 as (Hl & Hz & H). split; [done|]. split; [done|]. intros i e Hi He. destruct (H i e Hi He).
        split; [done|]. rewrite lookup_delete_ne; [done|]. intros ->. simpl in Hn. lia.
      * intros Hown. destruct (H4 Hown) as (Hl & Hz & Hp & Hr). split; [done|]. split; [done|]. split; [done|]. intros E1 E2 e He.
        rewrite lookup_delete_ne; [by apply Hr|]. intros ->. simpl in Hn.
        apply list_elem_of_lookup in He as [i He]. apply Hp in He as (Hseq & _). lia.
Qed.
Lemma start_calm : calm startCluster.
Proof. intros t s clock cands Hs. simpl in Hs. by rewrite lookup_empty in Hs. Qed.
Lemma reachable_inv x : rtc calmStep startCluster x → Inv x ∧ calm x.
Proof.
  intros Hr. cut (Inv startCluster ∧ calm startCluster).
  - clear -Hr. induction Hr as [|x y z [Hs Hc] _ IH]; [done|]. intros [Hi Hx]. apply IH. split; [|done].
    by eapply clusterStep_inv.
  - split; [done|apply start_calm].
Qed.

Lemma steps_log x y : rtc calmStep x y → ∃ l, cl_log y = cl_log x ++ l.
Proof.
  induction 1 as [x|x y z [Hs _] _ (l & ->)]; [exists []; by rewrite app_nil_r|].
  assert (∃ l', cl_log y = cl_log x ++ l') as (l' & ->) by (destruct Hs; simpl; eauto; exists []; by rewrite app_nil_r).
  exists (l' ++ l). by rewrite app_assoc.
Qed.
Lemma inv_high x : Inv x → highWater (cl_db x) = Z.of_nat (length (cl_log x)).
Proof.
  unfold Inv, highWater. destruct (db_clock (cl_db x)); [|by intros (-> & _)]. intros (_ & Hok & _). apply Hok.
Qed.
Lemma inv_tables x clock :
  Inv x → db_clock (cl_db x) = Some clock → TablesOk clock (cl_log x) (db_events (cl_db x)).
Proof. unfold Inv. intros H Ec. rewrite Ec in H. apply H. Qed.
Lemma inv_log_tokens x i j e e' :
  Inv x → cl_log x !! i = Some e → cl_log x !! j = Some e' → i ≤ j →
  ev_Sequence e = Z.of_nat (S i) ∧ (ev_FencingToken e ≤ ev_FencingToken e')%Z.
Proof.
  unfold Inv. destruct (db_clock (cl_db x)) as [c|]; [|intros (-> & _); by rewrite lookup_nil].
  intros (_ & Hok & _) Hi Hj Hij. split; [by apply (to_log _ _ _ Hok)|by eapply (to_tokens _ _ _ Hok)].
Qed.
(** A visible row is the event of the log at its position. *)
Lemma inv_visible x clock n e :
  Inv x → db_clock (cl_db x) = Some clock → (1 ≤ n ≤ highWater (cl_db x))%Z →
  db_events (cl_db x) !! rowKey clock n = Some e → cl_log x !! Z.to_nat (n - 1) = Some e.
Proof.
  intros Hi Ec Hn He. rewrite inv_high in Hn by done. pose proof (inv_tables _ _ Hi Ec) as Hok.
  destruct (lookup_lt_is_Some_2 (cl_log x) (Z.to_nat (n - 1))) as [e' He']; [lia|].
  rewrite He'. f_equal. symmetry. apply (to_match _ _ _ Hok _ _ _ He').
  by replace (Z.of_nat (S (Z.to_nat (n - 1)))) with n by lia.
Qed.

(** C22: the published journal is one log that only grows. Whatever writers,
    holders of old leases, failed requests and expiring rows do, as long as no
    writer publishes a row of another lease: the clock counts the published
    events; they are numbered without gaps and their fencing tokens never
    decrease, so nothing of an old lease follows a newer one; what was published
    stays published; and a row at a published position is the event of the log,
    never another. *)
Theorem durable_log_stable x y :
  rtc calmStep startCluster x → rtc calmStep x y →
  (∃ l, cl_log y = cl_log x ++ l) ∧
  highWater (cl_db y) = Z.of_nat (length (cl_log y)) ∧
  (∀ i j e e', cl_log y !! i = Some e → cl_log y !! j = Some e' → i ≤ j →
     ev_Sequence e = Z.of_nat (S i) ∧ (ev_FencingToken e ≤ ev_FencingToken e')%Z) ∧
  ∀ clock n e, db_clock (cl_db y) = Some clock → (1 ≤ n ≤ highWater (cl_db y))%Z →
    db_events (cl_db y) !! rowKey clock n = Some e → cl_log y !! Z.to_nat (n - 1) = Some e.
Proof.
  intros Hx Hy. destruct (reachable_inv y) as [Hi _]; [by etrans|].
  split; [by apply steps_log|]. split; [by apply inv_high|]. split; [intros *; by apply inv_log_tokens|].
  intros clock n e. by apply inv_visible.
Qed.


(** ** Calls end *)

(** What a call has left: attempts, and requests of the current one. *)
Definition pcLeft (pc : AppendPC) : nat :=
  match pc with
  | AtLoad => 9 | AtInsert _ => 8 | AtExisting _ => 7 | AtDelete _ _ => 6 | AtPublish _ _ _ => 5
  | AtResolve _ _ => 4 | AtResolveRow _ _ => 3 | AtOldest _ => 2 | AtReturn _ => 0
  end.
Definition appendLeft (a : AppendCall) : nat :=
  match ca_pc a with AtReturn _ => 0 | pc => pcLeft pc + 10 * (appendAttempts - ca_attempts a) end.
Lemma goto_left a pc n :
  ca_pc a = pc → match pc with AtReturn _ => False | _ => True end → pcLeft n < pcLeft pc → appendLeft (goto a n) < appendLeft a.
Proof.
  intros E Hr Hlt. unfold appendLeft. simpl. rewrite E. destruct pc; try done; destruct n; simpl in *; lia.
Qed.
Lemma again_left a pc :
  ca_pc a = pc → match pc with AtReturn _ => False | _ => True end → appendLeft (again a) < appendLeft a.
Proof.
  intros E Hr. unfold again. destruct (Nat.ltb_spec (ca_attempts a + 1) appendAttempts).
  - unfold appendLeft. simpl. rewrite E. destruct pc; try done; simpl; lia.
  - apply (goto_left a pc); [done|done|]. by destruct pc; simpl; lia.
Qed.
Lemma judge_left a pc lease clock e :
  ca_pc a = pc → 5 < pcLeft pc → appendLeft (judgeExisting lease a clock e) < appendLeft a.
Proof.
  intros E Hlt. assert (match pc with AtReturn _ => False | _ => True end) as Hr by (destruct pc; simpl in *; done || lia).
  unfold judgeExisting. destruct (_ <? _)%Z; [by apply (goto_left a pc); simpl; [..|lia]|].
  destruct (_ && _); [by apply (goto_left a pc)|by apply (again_left a pc)].
Qed.
(** Every request brings a call closer to its end. *)
Lemma append_step_left lease now r a db a' db' :
  append_step lease now r a db = (a', db') → (∃ res, ca_pc a = AtReturn res ∧ a' = a) ∨ appendLeft a' < appendLeft a.
Proof.
  intros H. unfold append_step in H.
  destruct (ca_pc a) as [|clock|clock|clock existing|clock cand own|clock cand|clock cand|cand|res] eqn:Epc;
    [right..|left; injection H as <- <-; eauto].
  all: repeat case_match; simplify_eq;
    first [by eapply goto_left; [exact Epc|done|simpl; lia]|by eapply again_left; [exact Epc|done]|
           by eapply judge_left; [exact Epc|simpl; lia]].
Qed.
