(* ===== verification/ScyllaExamples.v ===== *)
(** * The durable journal: runs

    A run in which a second writer takes over a half-written event, and one in
    which three writers leave a published position without its row. *)

From S2P Require Import Prelude WatchJournal WatchCursor Subscriber ScyllaJournal ScyllaSystem ScyllaTheorems.

(** ** Scripts *)

Inductive Act : Type :=
| AInit
| AAcquire (holder : string) (now ttl : Z)
| AAppend (t now : Z) (e : ResourceWatchEvent)
| ABatch (t : Z) (es : list ResourceWatchEvent)
| ACall (t now : Z) (r : Reply).
Definition play (a : Act) (x : Cluster) : option Cluster :=
  match a with
  | AInit => match db_clock (cl_db x) with
             | None => Some (mkCluster (insertClock "epoch" 4096 0 (cl_db x)).2 (cl_sessions x) (cl_log x))
             | Some _ => None end
  | AAcquire holder now ttl =>
      c ← db_clock (cl_db x);
      let r := AcquireLease holder c now ttl (cl_db x) in
      lease ← r.2;
      Some (mkCluster r.1 (<[le_FencingToken lease := mkSession lease Idle []]> (cl_sessions x)) (cl_log x))
  | AAppend t now e =>
      s ← cl_sessions x !! t;
      match se_call s with
      | Idle => Some (mkCluster (cl_db x) (<[t := mkSession (se_lease s) (Appending (startAppend now e)) [ev_DeduplicationKey e]]> (cl_sessions x)) (cl_log x))
      | _ => None end
  | ABatch t es =>
      s ← cl_sessions x !! t;
      match se_call s with
      | Idle => Some (mkCluster (cl_db x) (<[t := mkSession (se_lease s) (Batching (startBatch es)) (ev_DeduplicationKey <$> es)]> (cl_sessions x)) (cl_log x))
      | _ => None end
  | ACall t now r =>
      s ← cl_sessions x !! t;
      let q := call_step (se_lease s) now r (se_call s) (cl_db x) in
      Some (mkCluster q.2 (<[t := mkSession (se_lease s) q.1 (se_keys s)]> (cl_sessions x))
              (cl_log x ++ publishedBy (view (se_call s)) (cl_db x) q.2))
  end.
Lemma play_step a x y : play a x = Some y → clusterStep x y.
Proof.
  destruct x as [db ss h], a as [|holder now ttl|t now e|t es|t now r]; simpl; intros H.
  - destruct (db_clock db) eqn:Ec; [done|]. injection H as <-. by apply cs_init.
  - apply bind_Some in H as (c & Ec & H). apply bind_Some in H as (lease & El & H). injection H as <-.
    eapply cs_acquire. rewrite (surjective_pairing (AcquireLease holder c now ttl db)) at 1. by rewrite El.
  - apply bind_Some in H as (s & Hs & H). destruct (se_call s) eqn:Ec; simplify_eq. by eapply cs_append.
  - apply bind_Some in H as (s & Hs & H). destruct (se_call s) eqn:Ec; simplify_eq. by eapply cs_batch.
  - apply bind_Some in H as (s & Hs & H). injection H as <-. eapply cs_call; [done|apply surjective_pairing].
Qed.
Definition calmb (x : Cluster) : bool :=
  forallb (λ ts, match view (se_call ts.2) with
                 | VPublish _ cands => forallb (λ e, ev_FencingToken e =? ts.1)%Z cands
                 | _ => true end) (map_to_list (cl_sessions x)).
Lemma calmb_calm x : calmb x = true → calm x.
Proof.
  unfold calmb. rewrite forallb_forall. intros H t s clock cands Hs Hv. specialize (H (t, s)).
  rewrite <- list_elem_of_In, elem_of_map_to_list in H. specialize (H Hs). simpl in H. rewrite Hv in H.
  apply Forall_forall. intros e He. rewrite forallb_forall in H. apply Z.eqb_eq, H. by apply list_elem_of_In.
Qed.
Fixpoint plays (acts : list Act) (x : Cluster) : option Cluster :=
  match acts with [] => Some x | a :: acts => y ← play a x; plays acts y end.
Fixpoint playsCalm (acts : list Act) (x : Cluster) : option Cluster :=
  match acts with [] => Some x | a :: acts => y ← play a x; if calmb y then playsCalm acts y else None end.
Lemma plays_steps acts x y : plays acts x = Some y → rtc clusterStep x y.
Proof.
  revert x. induction acts as [|a acts IH]; intros x H; [injection H as ->; apply rtc_refl|].
  apply bind_Some in H as (z & Ha & H). eapply rtc_l; [by eapply play_step|by apply IH].
Qed.
Lemma playsCalm_steps acts x y : playsCalm acts x = Some y → rtc calmStep x y.
Proof.
  revert x. induction acts as [|a acts IH]; intros x H; [injection H as ->; apply rtc_refl|].
  apply bind_Some in H as (z & Ha & H). destruct (calmb z) eqn:Ez; [|done].
  eapply rtc_l; [split; [by eapply play_step|by apply calmb_calm]|by apply IH].
Qed.
Definition endOf (x : option Cluster) : Cluster := default startCluster x.

(** ** A takeover *)

Definition boot : ResourceWatchEvent :=
  mkEvent "" 0 ResourceWatchAdded "Product" "shop" "boot" (Some "{}") None None "stream:1" 0 1.
Definition hat : ResourceWatchEvent :=
  mkEvent "" 0 ResourceWatchAdded "Product" "shop" "hat" (Some "{}") None None "stream:2" 0 1.
Definition second : Z := 1000000000.
Notation calls t now n := (replicate n (ACall t now Answered)).
(** The first writer stops after it wrote its row; the second removes it, and
    appends both events; one of its requests fails after it was applied. *)
Definition takeoverActs : list Act :=
  [AInit; AAcquire "a" 1 second; AAppend 1 1 boot] ++ calls 1%Z 1%Z 2 ++
  [AAcquire "b" (2 * second) second; ABatch 2 [boot; hat]] ++ calls 2%Z (2 * second)%Z 8 ++
  [ACall 2 (2 * second) (Failed true)] ++ calls 2%Z (2 * second)%Z 7.
Definition takeover : Cluster := endOf (playsCalm takeoverActs startCluster).
Lemma takeover_runs : rtc calmStep startCluster takeover.
Proof. apply (playsCalm_steps takeoverActs). vm_compute. reflexivity. Qed.

Lemma durable_log_stable_witness :
  highWater (cl_db takeover) = 2%Z ∧ ev_Name <$> cl_log takeover = ["boot"; "hat"] ∧
  Forall (λ e, ev_FencingToken e = 2%Z) (cl_log takeover) ∧
  ∃ e, db_events (cl_db takeover) !! ("epoch", 0%Z, 1%Z) = Some e ∧ cl_log takeover !! 0 = Some e.
Proof.
  destruct (durable_log_stable takeover takeover takeover_runs (rtc_refl _ _)) as (_ & _ & _ & H).
  split; [vm_compute; reflexivity|]. split; [vm_compute; reflexivity|]. split; [vm_compute; repeat constructor|].
  eexists. split; [vm_compute; reflexivity|].
  apply (H (default (mkClock "" 0 0 0 0 0 0 "" 0 0) (db_clock (cl_db takeover))) 1%Z); [vm_compute; reflexivity| |vm_compute; reflexivity].
  split; [lia|vm_compute; discriminate].
Defined.
Definition finished : Session := default (mkSession (mkLease "" 0 0) Idle []) (cl_sessions takeover !! 2%Z).
Definition finishedBatch : BatchCall := match se_call finished with Batching b => b | _ => startBatch [] end.
Definition finishedEvents : list ResourceWatchEvent := match ba_pc finishedBatch with BReturn (Ok l) => l | _ => [] end.

(** ** A race that publishes a missing row *)

(** The first writer stops before it publishes. The second, about to remove the
    row, loses its lease; the third reads the row too; the second removes it;
    the removal by the third finds nothing, and it publishes the position for
    the row it had read, which has the right deduplication key. *)
Definition raceActs : list Act :=
  [AInit; AAcquire "a" 1 second; AAppend 1 1 boot] ++ calls 1%Z 1%Z 2 ++
  [AAcquire "b" (2 * second) second; AAppend 2 (2 * second) boot] ++ calls 2%Z (2 * second)%Z 3 ++
  [AAcquire "c" (4 * second) second; AAppend 3 (4 * second) boot] ++ calls 3%Z (4 * second)%Z 3 ++
  calls 2%Z (4 * second)%Z 1 ++ calls 3%Z (4 * second)%Z 2.
(** A writer may publish a sequence number whose event is in no table, and
    report success: every reader is then refused at that position. *)
Theorem append_may_publish_nothing :
  ∃ x s e, rtc clusterStep startCluster x ∧ cl_sessions x !! 3%Z = Some s ∧
    se_call s = Appending (mkCall boot 0 (AtReturn (Ok e))) ∧
    highWater (cl_db x) = 1%Z ∧ db_events (cl_db x) = ∅ ∧
    ∀ clock, db_clock (cl_db x) = Some clock →
      ReadAfter clock (λ _, cl_db x) (mkCursor "epoch" 0) 0 = Some (Err (EJournal ErrWatchRetentionExpired)).
Proof.
  exists (endOf (plays raceActs startCluster)). eexists _, _.
  split; [apply (plays_steps raceActs); vm_compute; reflexivity|].
  split; [vm_compute; reflexivity|]. split; [reflexivity|]. split; [vm_compute; reflexivity|].
  split; [vm_compute; reflexivity|]. intros clock Hc. vm_compute in Hc. injection Hc as <-. vm_compute. reflexivity.
Qed.

(** ** The durable journal serves watches

    A cluster of [ScyllaSystem] is a store that subscribers can rely on: its
    reads, made bucket by bucket while writers go on, show events of the log,
    and nothing only at its end. *)


(** A read loads the clock; later queries see later states. *)
#[export] Instance clusterStore : WatchStore Cluster := {|
  ws_Bounds x r := (∃ e, r = Err e) ∨ ∃ clock, db_clock (cl_db x) = Some clock ∧ r = Ok (boundsOf clock);
  ws_ReadAfter x cursor limit r :=
    (∃ e, r = Err e) ∨
    ∃ clock at_, db_clock (cl_db x) = Some clock ∧ (∀ k, ∃ y, rtc calmStep x y ∧ at_ k = cl_db y) ∧
      ReadAfter clock at_ cursor limit = Some r;
  ws_write x es y := calmStep x y ∧ cl_log y = cl_log x ++ es;
|}.
Definition clusterLogged (h : list ResourceWatchEvent) (x : Cluster) : Prop := Inv x ∧ calm x ∧ cl_log x = h.

Lemma steps_inv x y : Inv x → calm x → rtc calmStep x y → Inv y ∧ calm y.
Proof.
  intros Hi Hc Hr. revert Hi Hc. induction Hr as [|x y z [Hs Hy] _ IH]; [done|]. intros Hi Hc. apply IH; [|done].
  by eapply (clusterStep_inv x).
Qed.
Lemma bucket_pos n size : (1 ≤ size)%Z → (1 ≤ n)%Z →
  (namespaceWatchBucket n size * size < n ≤ (namespaceWatchBucket n size + 1) * size)%Z.
Proof.
  intros Hs Hn. unfold namespaceWatchBucket. destruct (Z.leb_spec size 0); [lia|]. destruct (Z.eqb_spec n 0); [lia|].
  pose proof (Z.div_mod (n - 1) size ltac:(lia)). pose proof (Z.mod_pos_bound (n - 1) size ltac:(lia)). nia.
Qed.

Section reading.
Context (x : Cluster) (clock : ClockRow) (at_ : nat → DB).
Context (Hi : Inv x) (Hc : calm x) (Ec : db_clock (cl_db x) = Some clock).
Context (Hat : ∀ k, ∃ y, rtc calmStep x y ∧ at_ k = cl_db y).

(** A row that is read at a position published before is of the log. *)
Lemma logged_row k bucket n e :
  db_events (at_ k) !! (ck_Epoch clock, bucket, n) = Some e → (1 ≤ n ≤ ck_HighWater clock)%Z → e ∈ cl_log x.
Proof.
  intros He Hn. destruct (Hat k) as (y & Hr & Ey). rewrite Ey in He.
  destruct (steps_inv x y Hi Hc Hr) as [Hiy _]. destruct (steps_log x y Hr) as [l El].
  pose proof (inv_high x Hi) as Hh. unfold highWater in Hh. rewrite Ec in Hh.
  pose proof (inv_high y Hiy) as Hhy.
  unfold Inv in Hiy. destruct (db_clock (cl_db y)) as [cy|] eqn:Ecy; [|destruct Hiy as (_ & _ & E); by rewrite E, lookup_empty in He].
  destruct Hiy as (H0 & Hok & Hss). destruct (to_rows _ _ _ Hok _ _ He) as (Hk & _).
  assert (ev_Sequence e = n) as Hseq by (unfold rowKey in Hk; congruence).
  destruct (lookup_lt_is_Some_2 (cl_log x) (Z.to_nat (n - 1))) as [e' He']; [lia|].
  assert (cl_log y !! Z.to_nat (n - 1) = Some e') as Hey by (rewrite El; by apply lookup_app_l_Some).
  assert (e = e') as ->; [|by eapply list_elem_of_lookup_2].
  apply (to_match _ _ _ Hok _ _ _ Hey). rewrite <- He, Hk, Hseq.
  by replace (Z.of_nat (S (Z.to_nat (n - 1)))) with n by lia.
Qed.
Lemma selectRows_log k bucket from to limit :
  (1 ≤ from)%Z → (to ≤ ck_HighWater clock)%Z → Forall (λ e, e ∈ cl_log x) (selectRows clock bucket from to limit (at_ k)).
Proof.
  intros Hf Ht. apply Forall_take, Forall_forall. intros e He. apply list_elem_of_omap in He as (n & Hn%elem_of_seqZ & He).
  eapply logged_row; [exact He|lia].
Qed.
Lemma readBuckets_log fuel limit start k out res :
  (1 ≤ start)%Z → Forall (λ e, e ∈ cl_log x) out →
  readBuckets clock at_ fuel (ck_HighWater clock) limit start k out = Some res → Forall (λ e, e ∈ cl_log x) res.
Proof.
  assert (1 ≤ ck_BucketSize clock)%Z as Hsize by apply (inv_tables _ _ Hi Ec).
  revert start k out. induction fuel as [|fuel IH]; intros start k out Hs Ho; cbn [readBuckets];
    (destruct (_ && _) eqn:E; [|by intros [= <-]]); [done|].
  pose proof (bucket_pos start (ck_BucketSize clock) Hsize Hs).
  apply andb_true_iff in E as [E%Z.leb_le _]. apply IH; [lia|]. apply Forall_app_2; [done|]. apply selectRows_log; lia.
Qed.
(** The loop ends: every bucket moves the position on. *)
Lemma readBuckets_ends fuel limit start k out :
  (1 ≤ start)%Z → (ck_HighWater clock - start + 1 ≤ Z.of_nat fuel)%Z →
  is_Some (readBuckets clock at_ fuel (ck_HighWater clock) limit start k out).
Proof.
  assert (1 ≤ ck_BucketSize clock)%Z as Hsize by apply (inv_tables _ _ Hi Ec).
  revert start k out. induction fuel as [|fuel IH]; intros start k out Hs Hf; cbn [readBuckets];
    (destruct (_ && _) eqn:E; [|done]); apply andb_true_iff in E as [E%Z.leb_le _]; [lia|].
  pose proof (bucket_pos start (ck_BucketSize clock) Hsize Hs). apply IH; lia.
Qed.
End reading.

(** A read always returns. *)
Lemma ReadAfter_returns x clock at_ cursor limit :
  Inv x → db_clock (cl_db x) = Some clock → is_Some (ReadAfter clock at_ cursor limit).
Proof.
  intros Hi Ec. unfold ReadAfter. destruct (_ && _); [done|]. destruct (_ && _); [done|].
  pose proof (u64_range (cu_Sequence cursor + 1)) as Hu.
  assert (bo_HighWater (boundsOf clock) = ck_HighWater clock) as Eh.
  { simpl. pose proof (to_high _ _ _ (inv_tables _ _ Hi Ec)). lia. }
  rewrite Eh. match goal with |- context [readBuckets _ _ _ _ _ ?s _ _] => set (start := s) end.
  assert (1 ≤ start)%Z as Hs.
  { unfold start. destruct (Z.eqb_spec (u64 (cu_Sequence cursor + 1)) 0); lia. }
  destruct (readBuckets_ends x clock at_ Hi Ec (Z.to_nat (ck_HighWater clock - start + 1)) (readLimit limit) start 0 [] Hs)
    as [res ->]; [lia|]. simpl. eauto.
Qed.

#[export] Program Instance clusterStore_laws : WatchStoreLaws Cluster := {| ws_logged := clusterLogged |}.
Next Obligation. intros h x i e (Hi & _ & <-) He. by eapply (inv_log_tokens x i i e e). Qed.
Next Obligation.
  intros h x es y (Hi & Hc & <-) [[Hs Hy] El] _. split; [by apply (clusterStep_inv x)|]. by split.
Qed.
Next Obligation.
  intros h x b (Hi & _ & <-) Hsm [[? ?]|(clock & Ec & [= ->])]; [done|]. pose proof (to_high _ _ _ (inv_tables _ _ Hi Ec)).
  unfold small in Hsm. simpl. lia.
Qed.
Next Obligation.
  intros h x cursor n out (Hi & Hc & <-) _ [[? ?]|(clock & at_ & Ec & Hat & Hr)]; [done|]. unfold ReadAfter in Hr.
  destruct (_ && _); [done|]. destruct (_ && _); [done|]. apply bind_Some in Hr as (res & Hb & Hr).
  destruct (_ && _); simplify_eq. pose proof (u64_range (cu_Sequence cursor + 1)).
  eapply (readBuckets_log x clock at_ Hi Hc Ec Hat); [|by constructor|].
  2: { assert (bo_HighWater (boundsOf clock) = ck_HighWater clock) as Eh.
       { simpl. pose proof (to_high _ _ _ (inv_tables _ _ Hi Ec)). lia. }
       rewrite Eh in Hb. exact Hb. }
  destruct (Z.eqb_spec (u64 (cu_Sequence cursor + 1)) 0); lia.
Qed.
Next Obligation.
  intros h x cursor n (Hi & Hc & <-) [[? ?]|(clock & at_ & Ec & Hat & Hr)]; [done|]. unfold ReadAfter in Hr.
  destruct (_ && _); [done|]. destruct (_ && _); [done|]. apply bind_Some in Hr as (res & Hb & Hr).
  destruct (_ && _) eqn:E; simplify_eq. simpl in E. rewrite andb_true_r in E. apply Z.ltb_ge in E.
  pose proof (to_high _ _ _ (inv_tables _ _ Hi Ec)). lia.
Qed.
