(* ===== verification/Materializer.v ===== *)
(** * From committed changes to journal events

    [gitstore-api/internal/watchjournal/materializer.go], [lease.go] and
    [readiness.go]: the before- and afterimage of a row become an event, which
    is appended to the journal before the position in the source is saved. *)

From S2P Require Import Prelude WatchJournal WatchCursor.

(** A raw JSON message is a text; an absent one is empty. *)
Record Change : Type := mkChange {
  ch_Kind : string;
  ch_Namespace : string;
  ch_StreamID : string;
  ch_Position : string;
  ch_DeduplicationKey : string;
  ch_Name : string;
  ch_Before : string;
  ch_After : string;
  ch_At : Z;
}.

Section materializer.
(** encoding/json: reading into [any] and writing it back, and reading the
    labels of a namespace. *)
Context {Any : Type} (unmarshal : string → option Any) (marshal : Any → string).
Context (unmarshalNamespace : string → option (gmap string string)).

Definition jsonEqual (l r : string) : bool :=
  match unmarshal l, unmarshal r with
  | Some l, Some r => bool_decide (marshal l = marshal r)
  | _, _ => bool_decide (l = r)
  end.
Definition namespaceLabels (payload : string) : Labels :=
  match unmarshalNamespace payload with
  | Some labels => if bool_decide (labels = ∅) then None else Some labels
  | None => None
  end.

Definition changeEvent (c : Change) (ty : ResourceWatchEventType) (payload : option string) (labels previous : Labels)
  : ResourceWatchEvent :=
  mkEvent "" 0 ty (ch_Kind c) (ch_Namespace c) (ch_Name c) payload labels previous (ch_DeduplicationKey c) 0 (ch_At c).
(** [None] is no event. *)
Definition ClassifyResource (labels : string → Labels) (c : Change) : option ResourceWatchEvent :=
  if bool_decide (ch_Before c = "") then
    if bool_decide (ch_After c = "") then None
    else Some (changeEvent c ResourceWatchAdded (Some (ch_After c)) (labels (ch_After c)) None)
  else
    if bool_decide (ch_After c = "") then Some (changeEvent c ResourceWatchDeleted None (labels (ch_Before c)) None)
    else if jsonEqual (ch_Before c) (ch_After c) then None
    else Some (changeEvent c ResourceWatchModified (Some (ch_After c)) (labels (ch_After c)) (labels (ch_Before c))).
Definition withKind (c : Change) (kind : string) : Change :=
  mkChange kind (ch_Namespace c) (ch_StreamID c) (ch_Position c) (ch_DeduplicationKey c) (ch_Name c) (ch_Before c)
    (ch_After c) (ch_At c).
Definition sourceKey (kind : string) : string := if bool_decide (kind = "") then "Namespace" else kind.
(** [cfg.LabelExtractor], or that of namespaces. *)
Definition classify (extractor : option (string → Labels)) (c : Change) : option ResourceWatchEvent :=
  ClassifyResource (default namespaceLabels extractor) (withKind c (sourceKey (ch_Kind c))).
Definition stamped (now : Z) (e : ResourceWatchEvent) : ResourceWatchEvent :=
  if bool_decide (ev_At e = zeroTime)
  then mkEvent (ev_Epoch e) (ev_Sequence e) (ev_Type e) (ev_Kind e) (ev_Namespace e) (ev_Name e) (ev_Payload e)
         (ev_SelectorLabels e) (ev_PreviousSelectorLabels e) (ev_DeduplicationKey e) (ev_FencingToken e) now
  else e.

(** ** The store *)

(** [MaterializerStore], as one lease sees it: a store may have a batch path. *)
Context {S : Type} (Append : S → ResourceWatchEvent → S * result WatchError ResourceWatchEvent).
Context (AppendBatch : option (S → list ResourceWatchEvent → S * result WatchError (list ResourceWatchEvent))).
Context (SaveProgress : S → ResourceCDCProgress → S * option WatchError).
Context (extractor : option (string → Labels)).

(** [materializeLocked]; [Ok None] is a change without an event. *)
Definition materializeLocked (now : Z) (s : S) (c : Change) : S * result WatchError (option ResourceWatchEvent) :=
  match classify extractor c with
  | None => (s, Ok None)
  | Some e =>
      let '(s, r) := Append s (stamped now e) in
      (s, match r with Ok e => Ok (Some e) | Err err => Err (EWrapped "append resource journal event" err) end)
  end.
Definition Process (now : Z) (s : S) (c : Change) : S * result WatchError (option ResourceWatchEvent) :=
  let '(s, r) := materializeLocked now s c in
  match r with
  | Ok (Some e) =>
      let '(s, err) := SaveProgress s (mkProgress (sourceKey (ch_Kind c)) (ch_StreamID c) (ch_Position c) (ev_At e)) in
      (s, match err with Some err => Err (EWrapped "save resource CDC progress" err) | None => Ok (Some e) end)
  | _ => (s, r)
  end.
(** The loop over single appends. *)
Fixpoint appendEach (s : S) (es appended : list ResourceWatchEvent) : S * result WatchError (list ResourceWatchEvent) :=
  match es with
  | [] => (s, Ok appended)
  | e :: es =>
      let '(s, r) := Append s e in
      match r with Ok e => appendEach s es (appended ++ [e]) | Err err => (s, Err err) end
  end.
Definition classified (now : Z) (cs : list Change) : list ResourceWatchEvent := stamped now <$> omap (classify extractor) cs.
Definition MaterializeBatch (now : Z) (s : S) (cs : list Change) : S * result WatchError (list ResourceWatchEvent) :=
  let events := classified now cs in
  if bool_decide (length events = 0) then (s, Ok []) else
  let '(s, r) := match AppendBatch with
                 | Some batch => batch s events
                 | None => appendEach s events []
                 end in
  (s, match r with Ok es => Ok es | Err err => Err (EWrapped "append resource journal event batch" err) end).
Definition AppendBookmark (formatTime : Z → string) (now : Z) (s : S) : S * result WatchError ResourceWatchEvent :=
  Append s (mkEvent "" 0 ResourceWatchBookmark "" "" "" None None None ("bookmark:" +:+ formatTime now) 0 now).
End materializer.

(** ** Replaying the events *)

Section replay.
Context {Any : Type} (unmarshal : string → option Any) (marshal : Any → string).
Context (unmarshalNamespace : string → option (gmap string string)) (extractor : option (string → Labels)).
Notation classify := (classify unmarshal marshal unmarshalNamespace extractor).
Notation jsonEqual := (jsonEqual unmarshal marshal).

(** The content of a row up to the writing of its document. *)
Definition canonical (payload : string) : string + string :=
  match unmarshal payload with Some a => inl (marshal a) | None => inr payload end.
Lemma jsonEqual_canonical l r : jsonEqual l r = true ↔ canonical l = canonical r.
Proof.
  unfold Materializer.jsonEqual, canonical. destruct (unmarshal l) eqn:El, (unmarshal r) eqn:Er;
    rewrite bool_decide_eq_true; split; congruence.
Qed.

(** Rows by namespace and name, the change a table makes to them, and what a
    watcher does on an event. *)
Notation Rows := (gmap (string * string) string).
Definition rowKey (c : Change) : string * string := (ch_Namespace c, ch_Name c).
Definition changeRows (m : Rows) (c : Change) : Rows :=
  if bool_decide (ch_After c = "") then delete (rowKey c) m else <[rowKey c := ch_After c]> m.
Definition replayEvent (m : Rows) (e : ResourceWatchEvent) : Rows :=
  let k := (ev_Namespace e, ev_Name e) in
  match ev_Type e with
  | ResourceWatchAdded | ResourceWatchModified => match ev_Payload e with Some p => <[k := p]> m | None => m end
  | ResourceWatchDeleted => delete k m
  | _ => m
  end.
(** The images of each change are those of the table around it. *)
Fixpoint images (m : Rows) (cs : list Change) : Prop :=
  match cs with
  | [] => True
  | c :: cs => ch_Before c = default "" (m !! rowKey c) ∧ (∀ p, m !! rowKey c = Some p → p ≠ "") ∧ images (changeRows m c) cs
  end.

Lemma replay_step (now : Z) (m v : Rows) (c : Change) :
  ch_Before c = default "" (m !! rowKey c) → (∀ p, m !! rowKey c = Some p → p ≠ "") →
  canonical <$> v = canonical <$> m →
  canonical <$> from_option (λ e, replayEvent v (stamped now e)) v (classify c) = canonical <$> changeRows m c.
Proof.
  intros Hb Hne Hv. unfold Materializer.classify, ClassifyResource, changeRows. cbn [withKind ch_Before ch_After].
  assert (∀ p, canonical <$> <[rowKey c := p]> v = canonical <$> <[rowKey c := p]> m) as Hins.
  { intros p. by rewrite !fmap_insert, Hv. }
  assert (∀ ty p l l', (ev_Type (stamped now (changeEvent (withKind c (sourceKey (ch_Kind c))) ty p l l')),
      ev_Payload (stamped now (changeEvent (withKind c (sourceKey (ch_Kind c))) ty p l l')),
      (ev_Namespace (stamped now (changeEvent (withKind c (sourceKey (ch_Kind c))) ty p l l')),
       ev_Name (stamped now (changeEvent (withKind c (sourceKey (ch_Kind c))) ty p l l')))) = (ty, p, rowKey c)) as Hst.
  { intros. unfold stamped. by case_bool_decide. }
  assert (∀ ty p l l', replayEvent v (stamped now (changeEvent (withKind c (sourceKey (ch_Kind c))) ty p l l')) =
    match ty with
    | ResourceWatchAdded | ResourceWatchModified => match p with Some p => <[rowKey c := p]> v | None => v end
    | ResourceWatchDeleted => delete (rowKey c) v
    | _ => v
    end) as Hrep.
  { intros ty p l l'. unfold replayEvent. specialize (Hst ty p l l'). injection Hst as -> -> -> ->. done. }
  destruct (bool_decide_reflect (ch_Before c = "")) as [E|E], (bool_decide_reflect (ch_After c = "")) as [A|A];
    cbn [from_option]; rewrite ?Hrep.
  - rewrite delete_id; [done|]. destruct (m !! rowKey c) as [p|] eqn:Em; [|done]. simpl in Hb. by destruct (Hne p eq_refl); congruence.
  - apply Hins.
  - by rewrite !fmap_delete, Hv.
  - destruct (jsonEqual (ch_Before c) (ch_After c)) eqn:Ej; cbn [from_option]; rewrite ?Hrep; [|apply Hins].
    apply jsonEqual_canonical in Ej. rewrite fmap_insert, Hv, insert_id; [done|].
    rewrite lookup_fmap. destruct (m !! rowKey c) as [p|]; [|done]. simpl in *. by rewrite <- Ej, Hb.
Qed.
(** Whoever applies the events of a sequence of changes to a copy of the rows
    has the rows after the changes, up to the writing of their documents. *)
Theorem classified_replays (now : Z) (cs : list Change) (m v : Rows) :
  images m cs → canonical <$> v = canonical <$> m →
  canonical <$> foldl replayEvent v (classified unmarshal marshal unmarshalNamespace extractor now cs) =
  canonical <$> foldl changeRows m cs.
Proof.
  revert m v. induction cs as [|c cs IH]; intros m v; [done|]. intros (Hb & Hne & Hi) Hv.
  pose proof (replay_step now m v c Hb Hne Hv) as Hs. unfold classified in *. simpl.
  destruct (classify c) as [e|] eqn:Ec; simpl in *; by apply IH.
Qed.
End replay.

(** ** Readiness *)

Record MaterializerStatus : Type := mkStatus { ms_LastProgressAt : Z; ms_JournalContinuous : bool }.
Inductive ReadinessError : Type := NotContinuous | LagExceeded.
Definition readinessCheck (maxLag : Z) (status : MaterializerStatus) (now : Z) : option ReadinessError :=
  if negb (ms_JournalContinuous status) then Some NotContinuous else
  if bool_decide (ms_LastProgressAt status = zeroTime) || (maxLag <? now - ms_LastProgressAt status)%Z then Some LagExceeded
  else None.

(** ** Keeping a lease *)

(** [Maintain]: at every tick the lease is renewed; the loop ends when the
    context is done, a renewal fails, or the lease was lost, and releases it. *)
Inductive MaintainEvent : Type := Cancelled (err : WatchError) | Tick (renewal : result WatchError (option ResourceWatchLease)).
Fixpoint Maintain (lease : ResourceWatchLease) (events : list MaintainEvent) : option (WatchError * ResourceWatchLease) :=
  match events with
  | [] => None
  | Cancelled err :: _ => Some (err, lease)
  | Tick (Err err) :: _ => Some (err, lease)
  | Tick (Ok None) :: _ => Some (EJournal ErrStaleWatchLease, lease)
  | Tick (Ok (Some renewed)) :: events => Maintain renewed events
  end.
