(* ===== verification/CdcSequencer.v ===== *)
(** * Ordering the change streams

    [gitstore-api/internal/datastore/scylla/namespace_cdc.go]: the sequencer
    merges the change streams of a table into one order. Consumers of the
    streams hand it records and empty windows, in the order of each stream; it
    publishes what every active stream has passed, ordered by time, then saves
    the published frontier, then the positions of the streams. *)

From S2P Require Import Prelude WatchJournal WatchCursor Materializer.

(** [gocql.UUID] with [scyllacdc.CompareTimeUUID], negative for earlier: an
    order given by the time and then the other bytes of a time UUID. *)
Class TimeUUID (U : Type) : Type := {
  CompareTimeUUID : U → U → Z;
  zeroUUID : U;
}.
Class TimeUUIDLaws (U : Type) `{!TimeUUID U} : Type := {
  timeKey : U → Z;
  compare_before a b : (CompareTimeUUID a b < 0)%Z ↔ (timeKey a < timeKey b)%Z;
  compare_after a b : (0 < CompareTimeUUID a b)%Z ↔ (timeKey b < timeKey a)%Z;
}.

Section sequencer.
Context {U : Type} `{!TimeUUID U}.

(** ** Requests *)

(** [namespaceCDCSequenceRequest]; [sq_gated] tells whether it has a function
    [shouldPublish]. *)
Record Request : Type := mkRequest {
  sq_change : Change;
  sq_changes : list Change;
  sq_time : U;
  sq_stream : string;
  sq_progressOnly : bool;
  sq_gated : bool;
  sq_arrival : Z;
}.
Definition arrived (r : Request) (n : Z) : Request :=
  mkRequest (sq_change r) (sq_changes r) (sq_time r) (sq_stream r) (sq_progressOnly r) (sq_gated r) n.
Definition recordsOf (r : Request) : Z := Z.max 1 (Z.of_nat (length (sq_changes r))).
Definition changesOf (r : Request) : list Change :=
  if 0 <? length (sq_changes r) then sq_changes r else [sq_change r].

Definition namespaceCDCPendingLimit : Z := 100000.
Definition catalogCDCMaxRowsPerChange : nat := 16.

Definition namespaceCDCSequenceLess (l r : Request) : bool :=
  let compared := CompareTimeUUID (sq_time l) (sq_time r) in
  if negb (compared =? 0)%Z then (compared <? 0)%Z
  else if negb (bool_decide (sq_stream l = sq_stream r)) then String.ltb (sq_stream l) (sq_stream r)
  else (sq_arrival l <? sq_arrival r)%Z.

(** ** State *)

Record Seq : Type := mkSeq {
  sq_active : gmap string Z;
  sq_watermarks : gmap string U;
  sq_pending : list Request;
  sq_pendingRecords : Z;
  sq_arrivalNumber : Z;
  sq_publishedThrough : U;
  sq_hasPublished : bool;
  sq_expected : gset string;
  sq_registered : gset string;
  sq_prepared : bool;
  sq_complete : bool;
  sq_generation : Z;
}.
Definition newSeq (publishedThrough : U) (hasPublished : bool) : Seq :=
  mkSeq ∅ ∅ [] 0 0 publishedThrough hasPublished ∅ ∅ false false zeroTime.

Inductive Message : Type :=
| BeginGeneration (generation : Z) (streams : list string)
| Register (stream : string)
| Unregister (stream : string)
| Submit (r : Request).
(** What becomes of a message: the loop goes on; it stops with an error; the
    position of the stream is saved first; or pending work is flushed. *)
Inductive Outcome : Type :=
| OContinue (s : Seq)
| OStop (err : WatchError)
| OMark (r : Request) (s : Seq)
| OFlush (s : Seq).
Definition discontinuity : WatchError := EText "discontinuity".

Definition onMessage (s : Seq) (m : Message) : Outcome :=
  match m with
  | BeginGeneration generation streams =>
      if negb (bool_decide (size (sq_active s) = 0)) || negb (bool_decide (length (sq_pending s) = 0)) then OStop discontinuity
      else if existsb (λ x, bool_decide (x = "")) streams then OStop (EText "empty stream ID")
      else OContinue (mkSeq (sq_active s) (sq_watermarks s) (sq_pending s) (sq_pendingRecords s) (sq_arrivalNumber s)
             (sq_publishedThrough s) (sq_hasPublished s) (list_to_set streams) ∅ true false generation)
  | Register x =>
      if negb (sq_prepared s) then OStop (EText "registered before generation") else
      if negb (bool_decide (x ∈ sq_expected s)) then OStop discontinuity else
      if bool_decide (x ∈ sq_registered s) then OStop discontinuity else
      let registered := {[x]} ∪ sq_registered s in
      OContinue (mkSeq (<[x := (default 0 (sq_active s !! x) + 1)%Z]> (sq_active s)) (sq_watermarks s) (sq_pending s)
        (sq_pendingRecords s) (sq_arrivalNumber s) (sq_publishedThrough s) (sq_hasPublished s) (sq_expected s) registered
        (sq_prepared s) (bool_decide (size registered = size (sq_expected s))) (sq_generation s))
  | Unregister x =>
      let n := default 0%Z (sq_active s !! x) in
      OFlush (if (n <=? 1)%Z
              then mkSeq (delete x (sq_active s)) (delete x (sq_watermarks s)) (sq_pending s) (sq_pendingRecords s)
                     (sq_arrivalNumber s) (sq_publishedThrough s) (sq_hasPublished s) (sq_expected s) (sq_registered s)
                     (sq_prepared s) (sq_complete s) (sq_generation s)
              else mkSeq (<[x := (n - 1)%Z]> (sq_active s)) (sq_watermarks s) (sq_pending s) (sq_pendingRecords s)
                     (sq_arrivalNumber s) (sq_publishedThrough s) (sq_hasPublished s) (sq_expected s) (sq_registered s)
                     (sq_prepared s) (sq_complete s) (sq_generation s))
  | Submit r =>
      let n := u64 (sq_arrivalNumber s + 1) in
      let r := arrived r n in
      if match sq_watermarks s !! sq_stream r with
         | Some previous => (CompareTimeUUID (sq_time r) previous <? 0)%Z | None => false end
      then OStop discontinuity else
      let s := mkSeq (sq_active s) (<[sq_stream r := sq_time r]> (sq_watermarks s)) (sq_pending s) (sq_pendingRecords s) n
                 (sq_publishedThrough s) (sq_hasPublished s) (sq_expected s) (sq_registered s) (sq_prepared s)
                 (sq_complete s) (sq_generation s) in
      if sq_hasPublished s && (CompareTimeUUID (sq_time r) (sq_publishedThrough s) <? 0)%Z then
        if sq_progressOnly r then OMark r s else OStop discontinuity
      else
        let records := (sq_pendingRecords s + recordsOf r)%Z in
        if (namespaceCDCPendingLimit <? records)%Z then OStop (EText "pending limit") else
        OContinue (mkSeq (sq_active s) (sq_watermarks s) (sq_pending s ++ [r]) records (sq_arrivalNumber s)
          (sq_publishedThrough s) (sq_hasPublished s) (sq_expected s) (sq_registered s) (sq_prepared s) (sq_complete s)
          (sq_generation s))
  end.
(** The checks of [Submit] before it sends the message. *)
Definition submitChecks (r : Request) : bool := length (sq_changes r) <=? catalogCDCMaxRowsPerChange.

(** ** Publication *)

(** [namespaceCDCFrontier] over the active streams, in the order the map gives
    them: [None] when one has no watermark, [Some None] when there are none. *)
Fixpoint frontierOf (ids : list string) (watermarks : gmap string U) (acc : option U) : option (option U) :=
  match ids with
  | [] => Some acc
  | x :: ids =>
      match watermarks !! x with
      | None => None
      | Some w => frontierOf ids watermarks
                    (match acc with
                     | Some f => if (CompareTimeUUID w f <? 0)%Z then Some w else Some f
                     | None => Some w
                     end)
      end
  end.
Definition namespaceCDCFrontier (s : Seq) : option (option U) :=
  frontierOf ((map_to_list (sq_active s)).*1) (sq_watermarks s) None.

(** [sort.SliceStable]. *)
Fixpoint insertSorted (r : Request) (l : list Request) : list Request :=
  match l with
  | [] => [r]
  | x :: l => if namespaceCDCSequenceLess r x then r :: x :: l else x :: insertSorted r l
  end.
Definition sortPending (l : list Request) : list Request := foldl (λ l r, insertSorted r l) [] l.

(** What a flush publishes: the requests up to the frontier, their changes, and
    the new published frontier. *)
Record Flush : Type := mkFlush {
  fl_taken : list Request;
  fl_changes : list Change;
  fl_frontier : U;
  fl_has : bool;
}.
(** The loop over the sorted requests; [ask] answers [shouldPublish]. *)
Fixpoint takeReady (ask : Request → result WatchError bool) (frontier : option U) (rs : list Request) (f : Flush)
  : result WatchError Flush :=
  match rs with
  | [] => Ok f
  | r :: rs =>
      if match frontier with Some w => (0 <? CompareTimeUUID (sq_time r) w)%Z | None => false end then Ok f else
      match (if sq_gated r then ask r else Ok true) with
      | Err err => Err err
      | Ok publish =>
          takeReady ask frontier rs
            (if publish && negb (sq_progressOnly r)
             then mkFlush (fl_taken f ++ [r]) (fl_changes f ++ changesOf r) (sq_time r) true
             else mkFlush (fl_taken f ++ [r]) (fl_changes f) (fl_frontier f) (fl_has f))
      end
  end.
(** [None]: nothing to publish yet. *)
Definition flush (ask : Request → result WatchError bool) (s : Seq) : option (Seq * result WatchError Flush) :=
  if bool_decide (length (sq_pending s) = 0) || negb (sq_complete s) then None else
  match namespaceCDCFrontier s with
  | None => None
  | Some frontier =>
      let sorted := sortPending (sq_pending s) in
      let s := mkSeq (sq_active s) (sq_watermarks s) sorted (sq_pendingRecords s) (sq_arrivalNumber s)
                 (sq_publishedThrough s) (sq_hasPublished s) (sq_expected s) (sq_registered s) (sq_prepared s)
                 (sq_complete s) (sq_generation s) in
      Some (s, takeReady ask frontier sorted (mkFlush [] [] (sq_publishedThrough s) (sq_hasPublished s)))
  end.
(** [latestProgress]: the last request taken of each stream. *)
Definition latestProgress (taken : list Request) : gmap string Request :=
  foldl (λ m r, <[sq_stream r := r]> m) ∅ taken.
(** The positions the loop after the publication saves, in its order. *)
Definition toMark (taken : list Request) : list Request :=
  filter (λ r, sq_arrival <$> latestProgress taken !! sq_stream r = Some (sq_arrival r)) taken.
(** After everything was saved, [retainUnpublishedCDCRequests] included. *)
Definition afterFlush (s : Seq) (f : Flush) : Seq :=
  mkSeq (sq_active s) (sq_watermarks s) (drop (length (fl_taken f)) (sq_pending s))
    (sq_pendingRecords s - foldr (λ r n, recordsOf r + n) 0 (fl_taken f))%Z (sq_arrivalNumber s) (fl_frontier f) (fl_has f)
    (sq_expected s) (sq_registered s) (sq_prepared s) (sq_complete s) (sq_generation s).

(** ** Saved positions *)

(** The record [SavePublishedFrontier] writes, and [PublishedFrontier] reads: the
    zero UUID stands for no frontier. *)
Record Manifest : Type := mkManifest { mf_frontier : U; mf_progress : gmap string U }.
Definition manifestOf (f : Flush) : Manifest := mkManifest (fl_frontier f) (sq_time <$> latestProgress (fl_taken f)).
Definition PublishedFrontier `{!EqDecision U} (o : option Manifest) : U * bool :=
  match o with
  | None => (zeroUUID, false)
  | Some mf => (mf_frontier mf, negb (bool_decide (mf_frontier mf = zeroUUID)))
  end.
(** [GetProgress]: the saved position, or that of the manifest if it is later,
    which is then saved; the result is where the stream is read from. *)
Definition GetProgress (saved recovered : option U) : option U * bool :=
  match recovered, saved with
  | Some r, None => (Some r, true)
  | Some r, Some p => if (0 <? CompareTimeUUID r p)%Z then (Some r, true) else (Some p, false)
  | None, _ => (saved, false)
  end.
End sequencer.
Arguments Request : clear implicits.
Arguments Seq : clear implicits.
Arguments Message : clear implicits.
Arguments Outcome : clear implicits.
Arguments Flush : clear implicits.
Arguments Manifest : clear implicits.
