(* ===== verification/CdcSystem.v ===== *)
(** * Change streams, restarts and the journal

    The sequencer of [CdcSequencer] with its surroundings, for the streams of
    one generation: records are committed to the streams of a table; a reader
    hands the records after a saved position, and windows without records, to
    the sequencer of the current leader; the leader appends to the journal,
    saves the frontier and the positions, and may stop at any point, after which
    another starts from what was saved. *)

From S2P Require Import Prelude WatchJournal WatchCursor Materializer CdcSequencer.

Section system.
Context {U : Type} `{!TimeUUID U} `{!TimeUUIDLaws U} `{!EqDecision U}.
(** The streams of the generation. *)
Context (streams : gset string) (generation : Z).

Notation "a ⊑ b" := (timeKey a ≤ timeKey b)%Z (at level 70, only parsing).
Notation "a ⊏ b" := (timeKey a < timeKey b)%Z (at level 70, only parsing).

(** Where the leader is in an iteration of its loop. *)
Inductive Phase : Type :=
| PLoop
| PMaterialize (f : Flush U) (decided : list (Request U * bool))
| PPersist (f : Flush U)
| PMark (f : Flush U) (todo : list (Request U)).
(** [rn_read] is up to where the reader has handed over each registered stream;
    [rn_out] are the times of what the run published. *)
Record Run : Type := mkRun {
  rn_seq : Seq U;
  rn_read : gmap string (option U);
  rn_phase : Phase;
  rn_out : list U;
}.
(** [w_horizon] is up to where the content of a stream is final, [w_ended] the
    streams that are final altogether. [w_log] are the changes given to the
    journal; [w_settled] the records that were published, or declined. *)
Record World : Type := mkWorld {
  w_source : gmap string (list (Request U));
  w_horizon : gmap string U;
  w_ended : gset string;
  w_progress : gmap string U;
  w_manifest : option (Manifest U);
  w_log : list Change;
  w_settled : list (Request U * bool);
  w_run : option Run;
}.
Definition records (w : World) (x : string) : list (Request U) := default [] (w_source w !! x).
Definition upTo (o : option U) (u : U) : Prop := ∃ p, o = Some p ∧ u ⊑ p.
Definition manifestProgress (w : World) (x : string) : option U := m ← w_manifest w; mf_progress m !! x.
(** Records a restart would not read again. *)
Definition covered (w : World) (x : string) (u : U) : Prop := upTo (w_progress w !! x) u ∨ upTo (manifestProgress w x) u.

Definition setRun (w : World) (r : option Run) : World :=
  mkWorld (w_source w) (w_horizon w) (w_ended w) (w_progress w) (w_manifest w) (w_log w) (w_settled w) r.
Definition setProgress (w : World) (x : string) (u : U) : World :=
  mkWorld (w_source w) (w_horizon w) (w_ended w) (<[x := u]> (w_progress w)) (w_manifest w) (w_log w) (w_settled w) (w_run w).
Definition setSeq (r : Run) (s : Seq U) : Run := mkRun s (rn_read r) (rn_phase r) (rn_out r).
Definition setPhase (r : Run) (p : Phase) : Run := mkRun (rn_seq r) (rn_read r) p (rn_out r).
Definition reads (r : Run) (x : string) (u : U) : Run := mkRun (rn_seq r) (<[x := Some u]> (rn_read r)) (rn_phase r) (rn_out r).

(** A window that was read without a record is final. *)
Definition raiseHorizon (w : World) (x : string) (u : U) : World :=
  mkWorld (w_source w)
    (<[x := match w_horizon w !! x with Some h => if (CompareTimeUUID h u <? 0)%Z then u else h | None => u end]> (w_horizon w))
    (w_ended w) (w_progress w) (w_manifest w) (w_log w) (w_settled w) (w_run w).

(** The records of a stream after a position, in their order. *)
Definition unread (o : option U) (u : U) : Prop := ¬ upTo o u.
Definition nextRecord (w : World) (x : string) (o : option U) (rec : Request U) : Prop :=
  rec ∈ records w x ∧ unread o (sq_time rec) ∧
  ∀ rec', rec' ∈ records w x → unread o (sq_time rec') → sq_time rec ⊑ sq_time rec'.
(** The request of an empty window. *)
Definition emptyRequest (x : string) (u : U) : Request U :=
  mkRequest (mkChange "" "" "" "" "" "" "" "" zeroTime) [] u x true false 0.
(** Whether the loop publishes a request. *)
Definition decide_ (ask : Request U → result WatchError bool) (r : Request U) : Request U * bool :=
  (arrived r 0, match (if sq_gated r then ask r else Ok true) with Ok b => b | Err _ => false end && negb (sq_progressOnly r)).
(** A leader starts at the frontier that was saved, with the streams of the
    generation. *)
Definition startSeq (w : World) : Outcome U :=
  let '(frontier, has) := PublishedFrontier (w_manifest w) in
  onMessage (newSeq frontier has) (BeginGeneration generation (elements streams)).
Definition outTimes (decided : list (Request U * bool)) : list U :=
  sq_time ∘ fst <$> filter (λ d, d.2 = true) decided.

Inductive worldStep : World → World → Prop :=
(** a record is committed: after everything that is final in its stream *)
| ws_commit w x rec :
    x ∈ streams → x ∉ w_ended w → sq_stream rec = x → sq_arrival rec = 0%Z → sq_progressOnly rec = false →
    sq_time rec ≠ zeroUUID → (∀ u, w_horizon w !! x = Some u → u ⊏ sq_time rec) →
    worldStep w (mkWorld (<[x := records w x ++ [rec]]> (w_source w)) (<[x := sq_time rec]> (w_horizon w)) (w_ended w)
                   (w_progress w) (w_manifest w) (w_log w) (w_settled w) (w_run w))
| ws_end w x : x ∈ streams →
    worldStep w (mkWorld (w_source w) (w_horizon w) ({[x]} ∪ w_ended w) (w_progress w) (w_manifest w) (w_log w) (w_settled w) (w_run w))
(** a new leader; a leader stops *)
| ws_start w s : w_run w = None → startSeq w = OContinue s → worldStep w (setRun w (Some (mkRun s ∅ PLoop [])))
| ws_stop w : worldStep w (setRun w None)
(** the consumer of a stream is created *)
| ws_register w r x s pos saved :
    w_run w = Some r → rn_phase r = PLoop → onMessage (rn_seq r) (Register x) = OContinue s →
    GetProgress (w_progress w !! x) (manifestProgress w x) = (pos, saved) →
    worldStep w (setRun (match pos with Some p => if saved then setProgress w x p else w | None => w end)
                   (Some (mkRun s (<[x := pos]> (rn_read r)) PLoop (rn_out r))))
(** the next record of a stream, or a window without records *)
| ws_deliver w r x o rec s :
    w_run w = Some r → rn_phase r = PLoop → rn_read r !! x = Some o → nextRecord w x o rec →
    submitChecks rec = true → onMessage (rn_seq r) (Submit rec) = OContinue s →
    worldStep w (setRun w (Some (reads (setSeq r s) x (sq_time rec))))
| ws_empty w r x o u s :
    w_run w = Some r → rn_phase r = PLoop → rn_read r !! x = Some o → u ≠ zeroUUID → (∀ p, o = Some p → p ⊑ u) →
    (∀ rec, rec ∈ records w x → upTo (Some u) (sq_time rec) → upTo o (sq_time rec)) →
    onMessage (rn_seq r) (Submit (emptyRequest x u)) = OContinue s →
    worldStep w (setRun (raiseHorizon w x u)
                   (Some (reads (setSeq r s) x u)))
(** an empty window behind the frontier saves its position at once *)
| ws_mark_empty w r x o u q s :
    w_run w = Some r → rn_phase r = PLoop → rn_read r !! x = Some o → u ≠ zeroUUID → (∀ p, o = Some p → p ⊑ u) →
    (∀ rec, rec ∈ records w x → upTo (Some u) (sq_time rec) → upTo o (sq_time rec)) →
    onMessage (rn_seq r) (Submit (emptyRequest x u)) = OMark q s →
    worldStep w (setRun (setProgress (raiseHorizon w x u) x u)
                   (Some (reads (setSeq r s) x u)))
(** the consumer of a stream that is at its end is closed *)
| ws_unregister w r x o s :
    w_run w = Some r → rn_phase r = PLoop → rn_read r !! x = Some o → x ∈ w_ended w →
    (∀ rec, rec ∈ records w x → upTo o (sq_time rec)) →
    onMessage (rn_seq r) (Unregister x) = OFlush s →
    worldStep w (setRun w (Some (setSeq r s)))
(** a flush, its publication, and the positions *)
| ws_flush w r ask s f :
    w_run w = Some r → rn_phase r = PLoop → flush ask (rn_seq r) = Some (s, Ok f) → fl_taken f ≠ [] →
    worldStep w (setRun w (Some (mkRun s (rn_read r) (PMaterialize f (decide_ ask <$> fl_taken f)) (rn_out r))))
| ws_materialize w r f ds :
    w_run w = Some r → rn_phase r = PMaterialize f ds →
    worldStep w (mkWorld (w_source w) (w_horizon w) (w_ended w) (w_progress w) (w_manifest w) (w_log w ++ fl_changes f)
                   (w_settled w ++ ds) (Some (mkRun (rn_seq r) (rn_read r) (PPersist f) (rn_out r ++ outTimes ds))))
| ws_partial w r f ds n :
    w_run w = Some r → rn_phase r = PMaterialize f ds →
    worldStep w (mkWorld (w_source w) (w_horizon w) (w_ended w) (w_progress w) (w_manifest w)
                   (w_log w ++ take n (fl_changes f)) (w_settled w) None)
| ws_persist w r f :
    w_run w = Some r → rn_phase r = PPersist f →
    worldStep w (mkWorld (w_source w) (w_horizon w) (w_ended w) (w_progress w) (Some (manifestOf f)) (w_log w) (w_settled w)
                   (Some (setPhase r (PMark f (toMark (fl_taken f))))))
| ws_mark w r f q todo :
    w_run w = Some r → rn_phase r = PMark f (q :: todo) →
    worldStep w (setRun (setProgress w (sq_stream q) (sq_time q)) (Some (setPhase r (PMark f todo))))
| ws_flushed w r f :
    w_run w = Some r → rn_phase r = PMark f [] →
    worldStep w (setRun w (Some (mkRun (afterFlush (rn_seq r) f) (rn_read r) PLoop (rn_out r)))).

Definition emptyWorld : World := mkWorld ∅ ∅ ∅ ∅ None [] [] None.
End system.
Arguments Phase : clear implicits.
Arguments Run : clear implicits.
Arguments World : clear implicits.
