(* ===== verification/CdcLaws.v ===== *)
(** * Laws of the sequencer

    The order of pending requests, the frontier of the active streams, what a
    flush takes, and the positions it saves. *)

From Stdlib Require Import Sorted.
From stdpp Require Import sorting.
From S2P Require Import Prelude WatchJournal WatchCursor Materializer CdcSequencer CdcSystem.

(** Nothing is in an empty list. *)
Ltac nil_elem := by intros; try match goal with H : _ ∈ [] |- _ => apply elem_of_nil in H end.

Section theorems.
Context {U : Type} `{!TimeUUID U} `{!TimeUUIDLaws U} `{!EqDecision U}.
Notation "a ⊑ b" := (timeKey a ≤ timeKey b)%Z (at level 70, only parsing).
Notation "a ⊏ b" := (timeKey a < timeKey b)%Z (at level 70, only parsing).
Notation earlier := (λ a b : Request U, sq_time a ⊑ sq_time b).
Implicit Types r q : Request U.

(** ** Comparisons *)

Lemma before_spec (a b : U) : (CompareTimeUUID a b <? 0)%Z = true ↔ a ⊏ b.
Proof. rewrite Z.ltb_lt. apply compare_before. Qed.
Lemma before_false (a b : U) : (CompareTimeUUID a b <? 0)%Z = false ↔ b ⊑ a.
Proof. rewrite <- not_true_iff_false, before_spec. lia. Qed.
Lemma after_spec (a b : U) : (0 <? CompareTimeUUID a b)%Z = true ↔ b ⊏ a.
Proof. rewrite Z.ltb_lt. apply compare_after. Qed.
Lemma after_false (a b : U) : (0 <? CompareTimeUUID a b)%Z = false ↔ a ⊑ b.
Proof. rewrite <- not_true_iff_false, after_spec. lia. Qed.
Lemma compare_zero (a b : U) : (CompareTimeUUID a b = 0)%Z → timeKey a = timeKey b.
Proof. intros E. pose proof (compare_before a b). pose proof (compare_after a b). lia. Qed.

(** ** Sorting *)

Lemma less_time r q : namespaceCDCSequenceLess r q = true → sq_time r ⊑ sq_time q.
Proof.
  unfold namespaceCDCSequenceLess. destruct (Z.eqb_spec (CompareTimeUUID (sq_time r) (sq_time q)) 0) as [E|E]; simpl.
  - intros _. apply compare_zero in E. lia.
  - intros H%before_spec. lia.
Qed.
Lemma less_false_time r q : namespaceCDCSequenceLess r q = false → sq_time q ⊑ sq_time r.
Proof.
  unfold namespaceCDCSequenceLess. destruct (Z.eqb_spec (CompareTimeUUID (sq_time r) (sq_time q)) 0) as [E|E]; simpl.
  - intros _. apply compare_zero in E. lia.
  - by intros H%before_false.
Qed.
Lemma insertSorted_perm r l : insertSorted r l ≡ₚ r :: l.
Proof. induction l as [|x l IH]; [done|]. simpl. case_match; [done|]. rewrite IH. constructor. Qed.
Lemma insertSorted_sorted r l : StronglySorted earlier l → StronglySorted earlier (insertSorted r l).
Proof.
  induction 1 as [|x l Hs IH Hx]; simpl; [by repeat constructor|]. destruct (namespaceCDCSequenceLess r x) eqn:E.
  - apply less_time in E. constructor; [by constructor|]. constructor; [done|].
    eapply Forall_impl; [exact Hx|]. simpl. lia.
  - apply less_false_time in E. constructor; [done|]. rewrite insertSorted_perm. by constructor.
Qed.
Lemma foldl_insert_sorted l acc :
  StronglySorted earlier acc →
  StronglySorted earlier (foldl (λ l r, insertSorted r l) acc l) ∧ foldl (λ l r, insertSorted r l) acc l ≡ₚ acc ++ l.
Proof.
  revert acc. induction l as [|r l IH]; intros acc Ha; simpl; [by rewrite app_nil_r|].
  destruct (IH (insertSorted r acc)) as [H1 H2]; [by apply insertSorted_sorted|]. split; [done|].
  rewrite H2, insertSorted_perm. by rewrite <- Permutation_middle.
Qed.
Lemma sortPending_sorted l : StronglySorted earlier (sortPending l).
Proof. apply foldl_insert_sorted. constructor. Qed.
Lemma sortPending_perm l : sortPending l ≡ₚ l.
Proof. apply (foldl_insert_sorted l []). constructor. Qed.

(** ** Frontiers *)

Lemma frontierOf_spec ids (wm : gmap string U) acc res :
  frontierOf ids wm acc = Some res →
  (∀ x, x ∈ ids → ∃ w, wm !! x = Some w ∧ ∀ f, res = Some f → f ⊑ w) ∧
  (∀ a f, acc = Some a → res = Some f → f ⊑ a) ∧ (res = None → ids = [] ∧ acc = None).
Proof.
  revert acc. induction ids as [|x ids IH]; intros acc H; simpl in H.
  - injection H as <-. split; [by intros x ?%elem_of_nil|]. split; [|done]. intros a f -> [= ->]. lia.
  - destruct (wm !! x) as [w|] eqn:Ew; [|done]. apply IH in H as (H1 & H2 & H3).
    assert (∀ f, res = Some f → f ⊑ w ∧ ∀ a, acc = Some a → f ⊑ a) as Hf.
    { intros f ->. destruct acc as [a|]; [|split; [by eapply H2|done]].
      destruct (CompareTimeUUID w a <? 0)%Z eqn:E.
      - apply before_spec in E. pose proof (H2 w f eq_refl eq_refl). split; [done|]. intros ? [= <-]. lia.
      - apply before_false in E. pose proof (H2 a f eq_refl eq_refl). split; [lia|]. by intros ? [= <-]. }
    split; [|split].
    + intros y [->|Hy]%elem_of_cons; [|by apply H1]. exists w. split; [done|]. intros f Hfr. exact (proj1 (Hf f Hfr)).
    + intros a f Ha Hfr. exact (proj2 (Hf f Hfr) a Ha).
    + intros ->. destruct H3 as [_ H3]; [done|]. exfalso. destruct acc as [a|]; [destruct (CompareTimeUUID w a <? 0)%Z|]; done.
Qed.

(** ** What a flush takes *)


Lemma takeReady_spec ask fr rs f f' :
  takeReady ask fr rs f = Ok f' →
  ∃ ts rest, rs = ts ++ rest ∧ fl_taken f' = fl_taken f ++ ts ∧
    (∀ w q, fr = Some w → q ∈ ts → sq_time q ⊑ w) ∧
    (fr = None → rest = []) ∧ (∀ w q rest', fr = Some w → rest = q :: rest' → w ⊏ sq_time q) ∧
    (∀ c, c ∈ fl_changes f → c ∈ fl_changes f') ∧
    (∀ q, q ∈ ts → (decide_ ask q).2 = true → ∀ c, c ∈ changesOf q → c ∈ fl_changes f') ∧
    (∀ q, q ∈ ts → (decide_ ask q).2 = false → sq_progressOnly q = false → sq_gated q = true) ∧
    (fl_frontier f', fl_has f') =
      foldl (λ a q, if (decide_ ask q).2 then (sq_time q, true) else a) (fl_frontier f, fl_has f) ts.
Proof.
  revert f. induction rs as [|r rs IH]; intros f H; simpl in H.
  - injection H as <-. exists [], []. split_and!; try done; try nil_elem. by rewrite app_nil_r.
  - destruct (match fr with Some w => (0 <? CompareTimeUUID (sq_time r) w)%Z | None => false end) eqn:Efr.
    + injection H as <-. exists [], (r :: rs). destruct fr as [w|]; [|done]. apply after_spec in Efr.
      split_and!; try done; try nil_elem; [by rewrite app_nil_r|]. by intros ? ? ? [= <-] [= -> ->].
    + destruct (if sq_gated r then ask r else Ok true) as [b|e] eqn:Eb; [|done].
      assert ((decide_ ask r).2 = b && negb (sq_progressOnly r)) as Ed by (unfold decide_; simpl; by rewrite Eb).
      rewrite <- Ed in H. apply IH in H as (ts & rest & -> & Ht & Hle & Hn & Hr & Hc & Hp & Hg & Hf).
      exists (r :: ts), rest. split; [done|]. split; [rewrite Ht; by destruct (decide_ ask r).2; simpl; rewrite <- app_assoc|].
      split; [|split; [done|split; [done|split; [|split; [|split]]]]].
      * intros w q -> [->|Hq]%elem_of_cons; [by apply after_false|by eapply Hle].
      * intros c Hc'. apply Hc. destruct (decide_ ask r).2; simpl; set_solver.
      * intros q [->|Hq]%elem_of_cons Hd; [|by apply Hp]. intros c Hc'. apply Hc. rewrite Hd. simpl. set_solver.
      * intros q [->|Hq]%elem_of_cons; [|by apply Hg]. rewrite Ed. intros Hd Hpo. rewrite Hpo in Hd.
        destruct (sq_gated r); [done|]. by injection Eb as <-.
      * cbn [foldl]. rewrite Hf. by destruct (decide_ ask r).2.
Qed.

(** The last request of each stream. *)
Lemma latestProgress_snoc l r : latestProgress (l ++ [r]) = <[sq_stream r := r]> (latestProgress l).
Proof. unfold latestProgress. by rewrite foldl_app. Qed.
Lemma latestProgress_spec l x q :
  latestProgress l !! x = Some q →
  q ∈ l ∧ sq_stream q = x ∧ (StronglySorted earlier l → ∀ p, p ∈ l → sq_stream p = x → sq_time p ⊑ sq_time q).
Proof.
  induction l as [|r l IH] using rev_ind; [unfold latestProgress; simpl; by rewrite lookup_empty|]. rewrite latestProgress_snoc.
  destruct (decide (sq_stream r = x)) as [<-|Hne].
  - rewrite lookup_insert_eq. intros [= <-]. split; [set_solver|]. split; [done|]. intros Hs p Hp _.
    apply elem_of_app in Hp as [Hp| ->%list_elem_of_singleton]; [|lia].
    apply StronglySorted_app_1_elem_of with (x1 := p) (x2 := r) in Hs; [done..|]. by apply list_elem_of_singleton.
  - rewrite lookup_insert_ne by done. intros (Hq & Hx & Hs)%IH. split; [set_solver|]. split; [done|]. intros Hss p Hp Hpx.
    apply elem_of_app in Hp as [Hp| ->%list_elem_of_singleton]; [|done].
    apply Hs; [|done..]. by eapply StronglySorted_app_1_l.
Qed.
Lemma latestProgress_has l q : q ∈ l → is_Some (latestProgress l !! sq_stream q).
Proof.
  induction l as [|r l IH] using rev_ind; [by intros ?%elem_of_nil|]. rewrite latestProgress_snoc.
  intros [Hq| ->%list_elem_of_singleton]%elem_of_app; [|rewrite lookup_insert_eq; eauto].
  destruct (decide (sq_stream r = sq_stream q)) as [E|E]; [rewrite E, lookup_insert_eq; eauto|].
  rewrite lookup_insert_ne by done. by apply IH.
Qed.
(** Saving the positions of [toMark] in their order leaves the last of each stream. *)
Definition markAll (l : list (Request U)) (m : gmap string U) : gmap string U :=
  foldl (λ m r, <[sq_stream r := sq_time r]> m) m l.
Lemma markAll_filter (P : Request U → Prop) `{!∀ r, Decision (P r)} l m x q :
  latestProgress l !! x = Some q → P q → markAll (filter P l) m !! x = Some (sq_time q).
Proof.
  revert q. induction l as [|r l IH] using rev_ind; intros q; [unfold latestProgress; simpl; by rewrite lookup_empty|].
  rewrite latestProgress_snoc, filter_app. unfold markAll. rewrite foldl_app.
  destruct (decide (sq_stream r = x)) as [<-|Hne].
  - rewrite lookup_insert_eq. intros [= <-] Hp. rewrite filter_cons_True, filter_nil by done. simpl. by rewrite lookup_insert_eq.
  - rewrite lookup_insert_ne by done. intros Hq Hp. rewrite filter_cons, filter_nil.
    case_decide; simpl; [rewrite lookup_insert_ne by done|]; by apply IH.
Qed.
Lemma markAll_toMark l m x q : latestProgress l !! x = Some q → markAll (toMark l) m !! x = Some (sq_time q).
Proof.
  intros H. unfold toMark. apply markAll_filter; [done|]. pose proof (latestProgress_spec _ _ _ H) as (_ & -> & _). by rewrite H.
Qed.
End theorems.
