(* ===== verification/CdcTheorems.v ===== *)
(** * What the change streams guarantee

    Changes reach the journal in the order of their times, none is skipped by a
    restart, and no leader gets stuck behind what an earlier one published. *)

From Stdlib Require Import Sorted.
From stdpp Require Import sorting.
From S2P Require Import Prelude WatchJournal WatchCursor Materializer CdcSequencer CdcSystem CdcLaws.

Section theorems.
Context {U : Type} `{!TimeUUID U} `{!TimeUUIDLaws U} `{!EqDecision U}.
Context (streams : gset string) (generation : Z).
Notation "a ⊑ b" := (timeKey a ≤ timeKey b)%Z (at level 70, only parsing).
Notation "a ⊏ b" := (timeKey a < timeKey b)%Z (at level 70, only parsing).
Notation earlier := (λ a b : Request U, sq_time a ⊑ sq_time b).
Implicit Types (q : Request U) (w : World U) (x : string) (u : U) (o : option U).

Lemma upTo_le o u v : upTo o u → v ⊑ u → upTo o v.
Proof. intros (p & -> & H) Hv. exists p. split; [done|]. lia. Qed.
Lemma upTo_Some p u : upTo (Some p) u ↔ u ⊑ p.
Proof. split; [by intros (? & [= <-] & ?)|by exists p]. Qed.
#[local] Hint Resolve upTo_le : core.

(** ** Invariants *)

(** Nothing will be committed before [u] any more. *)
Definition passed w u : Prop := ∀ x, x ∈ streams → x ∈ w_ended w ∨ upTo (w_horizon w !! x) u.
Definition settledOk w q : Prop :=
  ∃ b, (q, b) ∈ w_settled w ∧ (b = true → ∀ c, c ∈ changesOf q → c ∈ w_log w) ∧ (b = false → sq_gated q = true).

Record RecordOk w x q : Prop := {
  ro_stream : x ∈ streams ∧ sq_stream q = x;
  ro_plain : sq_progressOnly q = false ∧ sq_arrival q = 0%Z;
  ro_time : sq_time q ≠ zeroUUID;
  ro_final : upTo (w_horizon w !! x) (sq_time q);
}.
(** What is saved: positions are final, what they pass is settled, and what they
    do not pass is not before the frontier. *)
Record WInv w : Prop := {
  wi_rec x q : q ∈ records w x → RecordOk w x q;
  wi_unique x q q' : q ∈ records w x → q' ∈ records w x → timeKey (sq_time q) = timeKey (sq_time q') → q = q';
  wi_final x p : w_progress w !! x = Some p ∨ manifestProgress w x = Some p → upTo (w_horizon w !! x) p;
  wi_settled x q : q ∈ records w x → covered w x (sq_time q) → settledOk w q;
  wi_keys x p : manifestProgress w x = Some p → x ∈ streams;
  wi_front m : w_manifest w = Some m → mf_frontier m ≠ zeroUUID →
    passed w (mf_frontier m) ∧ ∀ x q, q ∈ records w x → covered w x (sq_time q) ∨ mf_frontier m ⊑ sq_time q;
}.

(** Everything the run still has to publish is at [u] or after it. *)
Record Floor w (read : gmap string (option U)) (u : U) (pending : list (Request U)) : Prop := {
  fo_time : u ≠ zeroUUID;
  fo_passed : passed w u;
  fo_pending q : q ∈ pending → u ⊑ sq_time q;
  fo_unread x o q : read !! x = Some o → q ∈ records w x → unread o (sq_time q) → u ⊑ sq_time q;
  fo_later x q : read !! x = None → q ∈ records w x → covered w x (sq_time q) ∨ u ⊑ sq_time q;
}.
Definition FloorIf w read (has : bool) u pending : Prop :=
  (has = true → Floor w read u pending) ∧ (has = false → u = zeroUUID).

(** The positions of a run. *)
Record Reads w (s : Seq U) (read : gmap string (option U)) : Prop := {
  rd_expected : sq_expected s = streams;
  rd_registered : sq_registered s = dom read;
  rd_streams : dom read ⊆ streams;
  rd_complete : sq_complete s = true → dom read = streams;
  rd_watermark x u : sq_watermarks s !! x = Some u → read !! x = Some (Some u);
  rd_final x u : read !! x = Some (Some u) → upTo (w_horizon w !! x) u;
  rd_active x o : read !! x = Some o →
    is_Some (sq_active s !! x) ∨ x ∈ w_ended w ∧ ∀ q, q ∈ records w x → upTo o (sq_time q);
  rd_saved x o p : read !! x = Some o → w_progress w !! x = Some p ∨ manifestProgress w x = Some p → upTo o p;
}.
(** What was read of a stream is pending or settled. *)
Record Pending w (read : gmap string (option U)) (pending : list (Request U)) : Prop := {
  pn_read x o q : read !! x = Some o → q ∈ records w x → upTo o (sq_time q) →
    covered w x (sq_time q) ∨ ∃ n, arrived q n ∈ pending;
  pn_request q : q ∈ pending → ∃ o, read !! sq_stream q = Some o ∧ upTo o (sq_time q);
  pn_record q : q ∈ pending → sq_progressOnly q = false → arrived q 0 ∈ records w (sq_stream q);
  pn_time q : q ∈ pending → sq_time q ≠ zeroUUID;
}.
Definition RInv w (r : Run U) : Prop :=
  Reads w (rn_seq r) (rn_read r) ∧ Pending w (rn_read r) (sq_pending (rn_seq r)) ∧
  FloorIf w (rn_read r) (sq_hasPublished (rn_seq r)) (sq_publishedThrough (rn_seq r)) (sq_pending (rn_seq r)).

(** What a run published so far is in order, up to its frontier. *)
Definition OutOk (out : list U) (has : bool) u : Prop :=
  StronglySorted (λ a b, a ⊑ b) out ∧ ∀ v, v ∈ out → has = true ∧ v ⊑ u.
(** No request is before the position that is saved; the manifest holds no
    position that is not saved with its stream. *)
Definition Before w (pending : list (Request U)) : Prop :=
  ∀ q p, q ∈ pending → w_progress w !! sq_stream q = Some p → p ⊑ sq_time q.
Definition Saved w (read : gmap string (option U)) (pending : list (Request U)) : Prop :=
  (∀ x o p, read !! x = Some o → manifestProgress w x = Some p → upTo (w_progress w !! x) p) ∧ Before w pending.
Record FInv w (r : Run U) (f : Flush U) (rest : list (Request U)) : Prop := {
  fi_pending : sq_pending (rn_seq r) = fl_taken f ++ rest;
  fi_sorted : StronglySorted earlier (fl_taken f);
  fi_split q q' : q ∈ fl_taken f → q' ∈ rest → sq_time q ⊏ sq_time q';
  fi_complete : dom (rn_read r) = streams;
  fi_floor : FloorIf w (rn_read r) (fl_has f) (fl_frontier f) rest;
}.
Definition Decided (f : Flush U) (ds : list (Request U * bool)) : Prop :=
  ∀ q, q ∈ fl_taken f → sq_progressOnly q = false →
    ∃ b, (arrived q 0, b) ∈ ds ∧ (b = true → ∀ c, c ∈ changesOf q → c ∈ fl_changes f) ∧ (b = false → sq_gated q = true).
Definition PInv w (r : Run U) : Prop :=
  match rn_phase r with
  | PLoop => Saved w (rn_read r) (sq_pending (rn_seq r)) ∧ OutOk (rn_out r) (sq_hasPublished (rn_seq r)) (sq_publishedThrough (rn_seq r))
  | PMaterialize f ds =>
      Saved w (rn_read r) (sq_pending (rn_seq r)) ∧ OutOk (rn_out r ++ outTimes ds) (fl_has f) (fl_frontier f) ∧ Decided f ds ∧ ∃ rest, FInv w r f rest
  | PPersist f =>
      Saved w (rn_read r) (sq_pending (rn_seq r)) ∧ OutOk (rn_out r) (fl_has f) (fl_frontier f) ∧ (∃ rest, FInv w r f rest) ∧
      ∀ q, q ∈ fl_taken f → sq_progressOnly q = false → settledOk w (arrived q 0)
  | PMark f todo =>
      OutOk (rn_out r) (fl_has f) (fl_frontier f) ∧ (∃ rest, FInv w r f rest ∧ Before w rest) ∧ w_manifest w = Some (manifestOf f) ∧
      (∀ q, q ∈ todo → q ∈ fl_taken f) ∧
      (∀ x p, manifestProgress w x = Some p → markAll todo (w_progress w) !! x = Some p) ∧
      (∀ x m p, manifestProgress w x = Some m → w_progress w !! x = Some p → p ⊑ m)
  end.
Definition Inv w : Prop := WInv w ∧ ∀ r, w_run w = Some r → RInv w r ∧ PInv w r.

(** ** The streams grow *)

(** More is committed, final or ended, settled or logged; what is saved stays. *)
Record grows w w' : Prop := {
  gr_rec x q : q ∈ records w x → q ∈ records w' x;
  gr_new x q : q ∈ records w' x → q ∈ records w x ∨
    RecordOk w' x q ∧ x ∉ w_ended w ∧ ∀ u, upTo (w_horizon w !! x) u → u ⊏ sq_time q;
  gr_unique x q q' : q ∈ records w' x → q' ∈ records w' x → q ∉ records w x → q' ∉ records w x → q = q';
  gr_final x u : upTo (w_horizon w !! x) u → upTo (w_horizon w' !! x) u;
  gr_ended x : x ∈ w_ended w → x ∈ w_ended w';
  gr_progress : w_progress w' = w_progress w;
  gr_manifest : w_manifest w' = w_manifest w;
  gr_settled d : d ∈ w_settled w → d ∈ w_settled w';
  gr_log c : c ∈ w_log w → c ∈ w_log w';
}.
Section grows.
Context (w w' : World U) (Hg : grows w w').

Lemma grows_covered x u : covered w' x u ↔ covered w x u.
Proof. unfold covered, manifestProgress. by rewrite (gr_progress _ _ Hg), (gr_manifest _ _ Hg). Qed.
Lemma grows_manifest x : manifestProgress w' x = manifestProgress w x.
Proof. unfold manifestProgress. by rewrite (gr_manifest _ _ Hg). Qed.
Lemma grows_passed u : passed w u → passed w' u.
Proof. intros H x Hx. destruct (H x Hx); [left; by eapply gr_ended|right; by eapply gr_final]. Qed.
Lemma grows_settledOk q : settledOk w q → settledOk w' q.
Proof. intros (b & H1 & H2 & H3). exists b. split; [by eapply gr_settled|]. split; [|done]. intros Hb c Hc. eapply gr_log; eauto. Qed.
(** What is new in a stream is after whatever is passed. *)
Lemma grows_after x q u : passed w u → q ∈ records w' x → q ∈ records w x ∨ u ⊏ sq_time q.
Proof.
  intros Hp [Hq|(Ho & He & Hl)]%(gr_new _ _ Hg); [by left|right]. apply Hl.
  by destruct (Hp x (proj1 (ro_stream _ _ _ Ho))).
Qed.
Lemma grows_final x q o : (∀ u, o = Some u → upTo (w_horizon w !! x) u) → q ∈ records w' x → upTo o (sq_time q) → q ∈ records w x.
Proof.
  intros Ho [Hq|(_ & _ & Hl)]%(gr_new _ _ Hg) (p & -> & Hp); [done|]. specialize (Hl p (Ho p eq_refl)). lia.
Qed.
Lemma grows_old x q : WInv w → q ∈ records w' x → covered w x (sq_time q) → q ∈ records w x.
Proof.
  intros Hw Hq [Hc|Hc]; (eapply grows_final; [|exact Hq|exact Hc]); intros u Hu; apply (wi_final _ Hw); auto.
Qed.

Lemma grows_WInv : WInv w → WInv w'.
Proof.
  intros Hw. constructor.
  - intros x q [Hq|(H & _)]%(gr_new _ _ Hg); [|done]. destruct (wi_rec _ Hw _ _ Hq). constructor; [done..|by eapply gr_final].
  - intros x q q' Hq Hq' E. apply (gr_new _ _ Hg) in Hq as Hn, Hq' as Hn'.
    destruct Hn as [Hn|(_ & _ & Hl)], Hn' as [Hn'|(_ & _ & Hl')]; [by eapply wi_unique|..].
    + specialize (Hl' _ (ro_final _ _ _ (wi_rec _ Hw _ _ Hn))). lia.
    + specialize (Hl _ (ro_final _ _ _ (wi_rec _ Hw _ _ Hn'))). lia.
    + eapply gr_unique; [done..| |]; intros Ho; pose proof (ro_final _ _ _ (wi_rec _ Hw _ _ Ho)) as Hf; [apply Hl in Hf|apply Hl' in Hf]; lia.
  - intros x p. rewrite (gr_progress _ _ Hg), grows_manifest. intros H. eapply gr_final; [done|]. by apply (wi_final _ Hw).
  - intros x q Hq Hc%grows_covered. apply grows_settledOk, (wi_settled _ Hw x); [|done]. by eapply grows_old.
  - intros x p. rewrite grows_manifest. apply (wi_keys _ Hw).
  - intros m. rewrite (gr_manifest _ _ Hg). intros Hm Hz. destruct (wi_front _ Hw m Hm Hz) as [Hp Hf].
    split; [by apply grows_passed|]. intros x q Hq. destruct (grows_after x q _ Hp Hq) as [Ho|Ho]; [|right; lia].
    destruct (Hf x q Ho); [left; by apply grows_covered|by right].
Qed.
Lemma grows_Floor read u pending : Floor w read u pending → Floor w' read u pending.
Proof.
  intros [H1 H2 H3 H4 H5]. constructor; [done|by apply grows_passed|done|..].
  - intros x o q Hx Hq Hu. destruct (grows_after x q _ H2 Hq) as [Ho|Ho]; [by eapply H4|lia].
  - intros x q Hx Hq. destruct (grows_after x q _ H2 Hq) as [Ho|Ho]; [|right; lia].
    destruct (H5 x q Hx Ho); [left; by apply grows_covered|by right].
Qed.
Lemma grows_FloorIf read has u pending : FloorIf w read has u pending → FloorIf w' read has u pending.
Proof. intros [H1 H2]. split; [|done]. intros H. by apply grows_Floor, H1. Qed.
Lemma grows_Reads sq read : Reads w sq read → Reads w' sq read.
Proof.
  intros [H1 H2 H3 H4 H5 H6 H7 H8]. constructor; [done..| | |].
  - intros x u H. eapply gr_final; [done|]. by eapply H6.
  - intros x o H. destruct (H7 x o H) as [?|[He Ha]]; [by left|right]. split; [by eapply gr_ended|].
    intros q [Hq|(_ & ? & _)]%(gr_new _ _ Hg); [by apply Ha|done].
  - intros x o p. rewrite (gr_progress _ _ Hg), grows_manifest. apply H8.
Qed.
Lemma grows_Pending sq read pending : Reads w sq read → Pending w read pending → Pending w' read pending.
Proof.
  intros Hr [H1 H2 H3 H4]. constructor; [|done| |done].
  - intros x o q Hx Hq Hu. destruct (H1 x o q Hx) as [?|?]; [|done|left; by apply grows_covered|by right].
    eapply grows_final; [|done..]. intros u ->. by eapply rd_final.
  - intros q Hq Hp. eapply gr_rec; [done|]. by apply H3.
Qed.
Lemma grows_RInv r : RInv w r → RInv w' r.
Proof. intros (H1 & H2 & H3). split; [by apply grows_Reads|]. split; [by eapply grows_Pending|by apply grows_FloorIf]. Qed.
Lemma grows_Before pending : Before w pending → Before w' pending.
Proof. unfold Before. by rewrite (gr_progress _ _ Hg). Qed.
Lemma grows_Saved read pending : Saved w read pending → Saved w' read pending.
Proof. intros [H H']. split; [|by apply grows_Before]. intros x o p. rewrite grows_manifest, (gr_progress _ _ Hg). apply H. Qed.
Lemma grows_FInv r f rest : FInv w r f rest → FInv w' r f rest.
Proof. intros [H1 H2 H3 H4 H5]. constructor; [done..|by apply grows_FloorIf]. Qed.
Lemma grows_PInv r : PInv w r → PInv w' r.
Proof.
  unfold PInv. destruct (rn_phase r) as [|f ds|f|f todo].
  - intros (H1 & H2). split; [by apply grows_Saved|done].
  - intros (H1 & H2 & H3 & rest & H4). split; [by apply grows_Saved|]. split_and!; [done..|]. exists rest. by apply grows_FInv.
  - intros (H1 & H2 & (rest & H3) & H4). split; [by apply grows_Saved|]. split; [done|]. split; [exists rest; by apply grows_FInv|].
    intros q Hq Hp. by apply grows_settledOk, H4.
  - intros (H1 & (rest & H2 & Hb) & H3 & H4 & H5 & H6). split; [done|].
    split; [exists rest; split; [by apply grows_FInv|by apply grows_Before]|].
    rewrite (gr_manifest _ _ Hg), (gr_progress _ _ Hg). split_and!; [done..| |];
    intros x; rewrite grows_manifest; [apply H5|apply H6].
Qed.
End grows.
Lemma grows_setRun w run : grows w (setRun w run).
Proof. by constructor; auto. Qed.
Lemma Inv_grows w w' : Inv w → grows w w' → w_run w' = w_run w → Inv w'.
Proof.
  intros [Hw Hr] Hg Hrun. split; [by eapply grows_WInv|]. intros r. rewrite Hrun. intros (H1 & H2)%Hr.
  split; [by eapply grows_RInv|by eapply grows_PInv].
Qed.
Lemma records_insert w x rs y (h : gmap string U) ended progress m log settled run :
  records (mkWorld (<[x := rs]> (w_source w)) h ended progress m log settled run) y = if decide (x = y) then rs else records w y.
Proof.
  unfold records. simpl. case_decide as E; [subst; by rewrite lookup_insert_eq|by rewrite lookup_insert_ne].
Qed.
Lemma grows_commit w x q :
  WInv w → x ∈ streams → x ∉ w_ended w → sq_stream q = x → sq_arrival q = 0%Z → sq_progressOnly q = false →
  sq_time q ≠ zeroUUID → (∀ u, w_horizon w !! x = Some u → u ⊏ sq_time q) →
  grows w (mkWorld (<[x := records w x ++ [q]]> (w_source w)) (<[x := sq_time q]> (w_horizon w)) (w_ended w)
             (w_progress w) (w_manifest w) (w_log w) (w_settled w) (w_run w)).
Proof.
  intros Hw Hx He Hs Ha Hp Hz Hh. constructor; simpl; try done.
  - intros y p Hq. rewrite records_insert. case_decide; [subst y|done]. set_solver.
  - intros y p. rewrite records_insert. case_decide as E; [subst y|by left].
    intros [?| ->%list_elem_of_singleton]%elem_of_app; [by left|right]. split; [|split; [done|]].
    + constructor; simpl; [done..|]. rewrite lookup_insert_eq. by apply upTo_Some.
    + intros u (h & Eh & Hu). specialize (Hh h Eh). lia.
  - intros y p p'. rewrite records_insert. case_decide; [subst y|done]. set_solver.
  - intros y u (h & Eh & Hu). destruct (decide (x = y)) as [<-|Hn]; [rewrite lookup_insert_eq|rewrite lookup_insert_ne by done; by exists h].
    apply upTo_Some. specialize (Hh h Eh). lia.
Qed.
Lemma grows_end w x :
  grows w (mkWorld (w_source w) (w_horizon w) ({[x]} ∪ w_ended w) (w_progress w) (w_manifest w) (w_log w) (w_settled w) (w_run w)).
Proof. constructor; simpl; auto; [set_solver..]. Qed.
Lemma grows_horizon w x u : grows w (raiseHorizon w x u).
Proof.
  constructor; simpl; auto; [done|].
  intros y v (h & Eh & Hu). destruct (decide (x = y)) as [<-|Hn]; [rewrite lookup_insert_eq|rewrite lookup_insert_ne by done; by exists h].
  rewrite Eh. destruct (_ <? _)%Z eqn:E; [apply before_spec in E|]; apply upTo_Some; lia.
Qed.
Lemma raised w x u : upTo (w_horizon (raiseHorizon w x u) !! x) u.
Proof.
  simpl. rewrite lookup_insert_eq. destruct (w_horizon w !! x) as [h|]; [|apply upTo_Some; lia].
  destruct (_ <? _)%Z eqn:E; [|apply before_false in E]; apply upTo_Some; lia.
Qed.

(** ** Reading *)

(** What a submitted request changes of the sequencer. *)
Record Submitted (sq sq' : Seq U) (q : Request U) : Prop := {
  su_same : sq_active sq' = sq_active sq ∧ sq_expected sq' = sq_expected sq ∧ sq_registered sq' = sq_registered sq ∧
    sq_complete sq' = sq_complete sq ∧ sq_hasPublished sq' = sq_hasPublished sq ∧ sq_publishedThrough sq' = sq_publishedThrough sq;
  su_watermarks : sq_watermarks sq' = <[sq_stream q := sq_time q]> (sq_watermarks sq);
}.
Lemma submit_continue sq q sq' :
  onMessage sq (Submit q) = OContinue sq' →
  Submitted sq sq' q ∧ (∃ n, sq_pending sq' = sq_pending sq ++ [arrived q n]) ∧
  (sq_hasPublished sq = true → sq_publishedThrough sq ⊑ sq_time q).
Proof.
  unfold onMessage. cbn [sq_stream arrived sq_time sq_progressOnly sq_hasPublished sq_publishedThrough].
  destruct (match _ !! _ with Some _ => _ | None => _ end); [done|].
  destruct (sq_hasPublished sq && _) eqn:Eh; [by destruct (sq_progressOnly q)|].
  destruct (namespaceCDCPendingLimit <? _)%Z; [done|]. intros [= <-]. split; [by constructor|]. split; [by eexists|].
  intros Hp. rewrite Hp in Eh. by apply before_false.
Qed.
Lemma submit_mark sq q q' sq' :
  onMessage sq (Submit q) = OMark q' sq' →
  Submitted sq sq' q ∧ sq_pending sq' = sq_pending sq ∧ sq_hasPublished sq = true ∧ sq_time q ⊏ sq_publishedThrough sq.
Proof.
  unfold onMessage. cbn [sq_stream arrived sq_time sq_progressOnly sq_hasPublished sq_publishedThrough].
  destruct (match _ !! _ with Some _ => _ | None => _ end); [done|].
  destruct (sq_hasPublished sq && _) eqn:Eh; [|by destruct (namespaceCDCPendingLimit <? _)%Z].
  destruct (sq_progressOnly q); [|done]. intros [= _ <-]. apply andb_true_iff in Eh as [Eh1 Eh%before_spec]. split; [by constructor|done].
Qed.

Section reading.
Context (w : World U) (r : Run U) (x : string) (o : option U) (q : Request U) (s' : Seq U).
Context (Hw : WInv w) (Hreads : Reads w (rn_seq r) (rn_read r)) (Hread : rn_read r !! x = Some o) (Hx : sq_stream q = x).
Context (Ho : ∀ p, o = Some p → p ⊑ sq_time q) (Hfin : upTo (w_horizon w !! x) (sq_time q)).
Context (Hs : Submitted (rn_seq r) s' q).
Notation read' := (<[x := Some (sq_time q)]> (rn_read r)).

Lemma reading_upTo u : upTo o u → u ⊑ sq_time q.
Proof. intros (p & -> & Hp). specialize (Ho p eq_refl). lia. Qed.
Lemma reading_Reads : Reads w s' read'.
Proof.
  destruct Hreads as [H1 H2 H3 H4 H5 H6 H7 H8], Hs as [(S1 & S2 & S3 & S4 & _) Sw].
  assert (dom read' = dom (rn_read r)) as Hd by (apply dom_insert_lookup_L; eauto).
  constructor; rewrite ?S1, ?S2, ?S3, ?S4, ?Sw, ?Hd; [done..| | | |].
  - intros y u. rewrite Hx. destruct (decide (x = y)) as [<-|Hn].
    + by rewrite !lookup_insert_eq; intros [= <-].
    + rewrite !lookup_insert_ne by done. apply H5.
  - intros y u. destruct (decide (x = y)) as [<-|Hn].
    + by rewrite lookup_insert_eq; intros [= <-].
    + rewrite lookup_insert_ne by done. apply H6.
  - intros y o'. destruct (decide (x = y)) as [<-|Hn]; [|rewrite lookup_insert_ne by done; apply H7].
    rewrite lookup_insert_eq. intros [= <-]. destruct (H7 x o Hread) as [?|[He Ha]]; [by left|right]. split; [done|].
    intros p Hp. by apply upTo_Some, reading_upTo, Ha.
  - intros y o' p. destruct (decide (x = y)) as [<-|Hn]; [|rewrite lookup_insert_ne by done; apply H8].
    rewrite lookup_insert_eq. intros [= <-] Hp. by apply upTo_Some, reading_upTo, (H8 x).
Qed.
Lemma reading_Floor u pending pending' :
  Floor w (rn_read r) u pending → (∀ p, p ∈ pending' → p ∈ pending ∨ u ⊑ sq_time p) → Floor w read' u pending'.
Proof.
  intros [H1 H2 H3 H4 H5] Hp. constructor; [done..| | |].
  - intros p [?|?]%Hp; [by apply H3|done].
  - intros y o' p. destruct (decide (x = y)) as [<-|Hn]; [|rewrite lookup_insert_ne by done; apply H4].
    rewrite lookup_insert_eq. intros [= <-] Hpr Hun. apply (H4 x o); [done..|]. intros Hu. by apply Hun, upTo_Some, reading_upTo.
  - intros y p. destruct (decide (x = y)) as [<-|Hn]; [by rewrite lookup_insert_eq|rewrite lookup_insert_ne by done; apply H5].
Qed.
Lemma reading_manifest :
  (∀ y o' p, rn_read r !! y = Some o' → manifestProgress w y = Some p → upTo (w_progress w !! y) p) →
  ∀ y o' p, read' !! y = Some o' → manifestProgress w y = Some p → upTo (w_progress w !! y) p.
Proof.
  intros H y o' p. destruct (decide (x = y)) as [<-|Hn]; [|rewrite lookup_insert_ne by done; apply H]. intros _. by apply (H x o).
Qed.
Lemma reading_Saved n pending : Saved w (rn_read r) pending → Saved w read' (pending ++ [arrived q n]).
Proof.
  intros [H H']. split; [by apply reading_manifest|].
  intros p v [Hp| ->%list_elem_of_singleton]%elem_of_app; [by apply H'|]. simpl. rewrite Hx. intros Hv.
  apply reading_upTo. apply (rd_saved _ _ _ Hreads x); auto.
Qed.

(** The requests from before are still read. *)
Lemma reading_request p : (∃ o', rn_read r !! sq_stream p = Some o' ∧ upTo o' (sq_time p)) →
  ∃ o', read' !! sq_stream p = Some o' ∧ upTo o' (sq_time p).
Proof.
  intros (o' & E & Hu). destruct (decide (x = sq_stream p)) as [Ex|Hn]; [|exists o'; by rewrite lookup_insert_ne].
  exists (Some (sq_time q)). rewrite Ex, lookup_insert_eq. split; [done|]. apply upTo_Some, reading_upTo.
  rewrite <- Ex in E. rewrite Hread in E. by injection E as ->.
Qed.
Lemma reading_Pending n pending :
  Pending w (rn_read r) pending → sq_time q ≠ zeroUUID →
  (sq_progressOnly q = false → arrived q 0 ∈ records w x) →
  (∀ p, p ∈ records w x → sq_time p ⊑ sq_time q → upTo o (sq_time p) ∨ p = q) →
  Pending w read' (pending ++ [arrived q n]).
Proof.
  intros [H1 H2 H3 H4] Hz Hpo Hnext. constructor.
  - intros y o' p. destruct (decide (x = y)) as [<-|Hn].
    + rewrite lookup_insert_eq. intros [= <-] Hp [Hu| ->]%upTo_Some%Hnext; [..|done].
      * destruct (H1 x o p Hread Hp Hu) as [?|[m ?]]; [by left|right]. exists m. set_solver.
      * right. exists n. set_solver.
    + rewrite lookup_insert_ne by done. intros Hy Hp Hu. destruct (H1 y o' p Hy Hp Hu) as [?|[m ?]]; [by left|right]. exists m. set_solver.
  - intros p [Hp| ->%list_elem_of_singleton]%elem_of_app; [by apply reading_request, H2|].
    exists (Some (sq_time q)). simpl. rewrite Hx, lookup_insert_eq. split; [done|]. apply upTo_Some. lia.
  - intros p [Hp| ->%list_elem_of_singleton]%elem_of_app; [by apply H3|]. simpl. rewrite Hx. exact Hpo.
  - intros p [Hp| ->%list_elem_of_singleton]%elem_of_app; [by apply H4|done].
Qed.
Lemma reading_Pending_empty pending :
  Pending w (rn_read r) pending → (∀ p, p ∈ records w x → sq_time p ⊑ sq_time q → upTo o (sq_time p)) → Pending w read' pending.
Proof.
  intros [H1 H2 H3 H4] Hnext. constructor; [|intros p Hp; by apply reading_request, H2|done..].
  intros y o' p. destruct (decide (x = y)) as [<-|Hn]; [|rewrite lookup_insert_ne by done; apply H1].
  rewrite lookup_insert_eq. intros [= <-] Hp Hu%upTo_Some%Hnext; [|done]. by apply (H1 x o).
Qed.
End reading.

(** ** Saving positions *)

(** Only what is saved changes, and no position is lost. *)
Record saves w w' : Prop := {
  sv_source : w_source w' = w_source w;
  sv_final : w_horizon w' = w_horizon w;
  sv_ended : w_ended w' = w_ended w;
  sv_settled : w_settled w' = w_settled w;
  sv_log : w_log w' = w_log w;
  sv_covered x u : covered w x u → covered w' x u;
}.
Section saves.
Context (w w' : World U) (Hv : saves w w').

Lemma saves_records x : records w' x = records w x.
Proof. unfold records. by rewrite (sv_source _ _ Hv). Qed.
Lemma saves_passed u : passed w u → passed w' u.
Proof. unfold passed. by rewrite (sv_ended _ _ Hv), (sv_final _ _ Hv). Qed.
Lemma saves_settledOk q : settledOk w q → settledOk w' q.
Proof. unfold settledOk. by rewrite (sv_settled _ _ Hv), (sv_log _ _ Hv). Qed.
Lemma saves_Floor read u pending : Floor w read u pending → Floor w' read u pending.
Proof.
  intros [H1 H2 H3 H4 H5]. constructor; [done|by apply saves_passed|done|..].
  - intros x o q. rewrite saves_records. apply H4.
  - intros x q. rewrite saves_records. intros Hx Hq. destruct (H5 x q Hx Hq); [left; by eapply sv_covered|by right].
Qed.
Lemma saves_FloorIf read has u pending : FloorIf w read has u pending → FloorIf w' read has u pending.
Proof. intros [H1 H2]. split; [|done]. intros H. by apply saves_Floor, H1. Qed.
Lemma saves_WInv :
  WInv w → (∀ x p, w_progress w' !! x = Some p ∨ manifestProgress w' x = Some p → upTo (w_horizon w !! x) p) →
  (∀ x q, q ∈ records w x → covered w' x (sq_time q) → settledOk w q) →
  (w_manifest w' = w_manifest w ∨
    (∀ x p, manifestProgress w' x = Some p → x ∈ streams) ∧
    ∀ m, w_manifest w' = Some m → mf_frontier m ≠ zeroUUID → passed w (mf_frontier m) ∧
      ∀ x q, q ∈ records w x → covered w' x (sq_time q) ∨ mf_frontier m ⊑ sq_time q) →
  WInv w'.
Proof.
  intros [H1 H2 H3 H4 Hk H5] Hfin Hset Hm. constructor.
  - intros x q. rewrite saves_records. intros [G1 G2 G3 G4]%H1. constructor; [done..|]. by rewrite (sv_final _ _ Hv).
  - intros x q q'. rewrite saves_records. apply H2.
  - intros x p Hp. rewrite (sv_final _ _ Hv). by apply Hfin.
  - intros x q. rewrite saves_records. intros Hq Hc. apply saves_settledOk. by eapply Hset.
  - destruct Hm as [Hm|[Hm _]]; [|done]. intros x p. unfold manifestProgress. rewrite Hm. apply Hk.
  - intros m Em Hz. assert (passed w (mf_frontier m) ∧
      ∀ x q, q ∈ records w x → covered w' x (sq_time q) ∨ mf_frontier m ⊑ sq_time q) as [G1 G2].
    { destruct Hm as [Hm|[_ Hm]]; [|by apply Hm]. rewrite Hm in Em. destruct (H5 m Em Hz) as [G1 G2]. split; [done|].
      intros x q Hq. destruct (G2 x q Hq); [left; by eapply sv_covered|by right]. }
    split; [by apply saves_passed|]. intros x q. rewrite saves_records. apply G2.
Qed.
Lemma saves_Reads sq read :
  Reads w sq read →
  (∀ x o p, read !! x = Some o → w_progress w' !! x = Some p ∨ manifestProgress w' x = Some p → upTo o p) → Reads w' sq read.
Proof.
  intros [H1 H2 H3 H4 H5 H6 H7 H8] Hp. constructor; [done..| | |done].
  - intros x u. rewrite (sv_final _ _ Hv). apply H6.
  - intros x o. rewrite (sv_ended _ _ Hv), saves_records. apply H7.
Qed.
Lemma saves_Pending read pending : Pending w read pending → Pending w' read pending.
Proof.
  intros [H1 H2 H3 H4]. constructor; [|done| |done].
  - intros x o q. rewrite saves_records. intros Hx Hq Hu. destruct (H1 x o q Hx Hq Hu); [left; by eapply sv_covered|by right].
  - intros q. rewrite saves_records. apply H3.
Qed.
End saves.
(** A position that is not before the one saved. *)
Lemma saves_progress w x u : (∀ p, w_progress w !! x = Some p → p ⊑ u ∨ upTo (manifestProgress w x) p) → saves w (setProgress w x u).
Proof.
  intros Hp. constructor; [done..|]. intros y v [Hc|Hc]; [|by right]. unfold covered. simpl.
  destruct (decide (x = y)) as [<-|Hn]; [rewrite lookup_insert_eq|left; by rewrite lookup_insert_ne].
  destruct Hc as (p & Ep & Hv). destruct (Hp p Ep) as [Hu|Hu]; [left; apply upTo_Some; lia|right; by eapply upTo_le].
Qed.
Lemma setProgress_cases w x u y p :
  w_progress (setProgress w x u) !! y = Some p → y = x ∧ p = u ∨ w_progress w !! y = Some p.
Proof.
  simpl. destruct (decide (x = y)) as [<-|Hn]; [rewrite lookup_insert_eq; intros [= <-]; by left|rewrite lookup_insert_ne by done; by right].
Qed.
Lemma covered_setProgress w x u y v : covered (setProgress w x u) y v → y = x ∧ v ⊑ u ∨ covered w y v.
Proof.
  intros [(p & Hp & Hv)|Hc]; [|by right; right]. apply setProgress_cases in Hp as [[-> ->]|Hp]; [by left|right; left; by exists p].
Qed.
Lemma Inv_run w r : WInv w → RInv w r → PInv w r → Inv (setRun w (Some r)).
Proof.
  intros H1 H2 H3. pose proof (grows_setRun w (Some r)) as Hg. split; [by eapply grows_WInv|]. intros r' [= <-].
  split; [by eapply grows_RInv|by eapply grows_PInv].
Qed.
Lemma Inv_stop w : WInv w → Inv (setRun w None).
Proof. intros H. split; [|done]. eapply grows_WInv; [apply grows_setRun|exact H]. Qed.

(** ** Steps of the loop *)

Lemma Inv_submit w r x o q s' :
  WInv w → RInv w r → PInv w r → rn_phase r = PLoop → rn_read r !! x = Some o → sq_stream q = x → sq_time q ≠ zeroUUID →
  (∀ p, o = Some p → p ⊑ sq_time q) → upTo (w_horizon w !! x) (sq_time q) →
  (sq_progressOnly q = false → arrived q 0 ∈ records w x) →
  (∀ p, p ∈ records w x → sq_time p ⊑ sq_time q → upTo o (sq_time p) ∨ p = q) →
  onMessage (rn_seq r) (Submit q) = OContinue s' → Inv (setRun w (Some (reads (setSeq r s') x (sq_time q)))).
Proof.
  intros Hw (Hr & Hp & Hf) Hph Ephase Hx Hs Hz Ho Hfin Hpo Hnext (Hsub & (n & En) & Hpub)%submit_continue.
  pose proof (su_same _ _ _ Hsub) as (_ & _ & _ & _ & Eh & Ep).
  apply Inv_run; [done|..].
  - unfold RInv. cbn [reads setSeq rn_seq rn_read]. split; [by apply (reading_Reads w r x o)|].
    split; [rewrite En; by eapply (reading_Pending w r x o)|].
    rewrite En, Eh, Ep. destruct Hf as [Hf1 Hf2]. split; [|done]. intros Hb. eapply (reading_Floor w r x o); [done..|by apply Hf1|].
    intros p [?| ->%list_elem_of_singleton]%elem_of_app; [by left|right]. by apply Hpub.
  - unfold PInv in *. simpl. rewrite Ephase in *. rewrite Eh, Ep, En. destruct Hph as [H1 H2]. split; [by eapply reading_Saved|done].
Qed.

Lemma Inv_mark_empty w r x o q q' s' :
  WInv w → RInv w r → PInv w r → rn_phase r = PLoop → rn_read r !! x = Some o → sq_stream q = x →
  (∀ p, o = Some p → p ⊑ sq_time q) → upTo (w_horizon w !! x) (sq_time q) →
  (∀ p, p ∈ records w x → sq_time p ⊑ sq_time q → upTo o (sq_time p)) →
  onMessage (rn_seq r) (Submit q) = OMark q' s' →
  Inv (setRun (setProgress w x (sq_time q)) (Some (reads (setSeq r s') x (sq_time q)))).
Proof.
  intros Hw (Hr & Hp & Hf) Hph Ephase Hx Hs Ho Hfin Hnext (Hsub & En & Ehas & Hbehind)%submit_mark.
  pose proof (su_same _ _ _ Hsub) as (_ & _ & _ & _ & Eh & Ep).
  pose proof (proj1 Hf Ehas) as Hfloor.
  assert (∀ u, upTo o u → u ⊑ sq_time q) as Hou by (intros u (p & -> & Hu); specialize (Ho p eq_refl); lia).
  assert (∀ p, w_progress w !! x = Some p ∨ manifestProgress w x = Some p → p ⊑ sq_time q) as Hsv.
  { intros p H. apply Hou. by eapply rd_saved. }
  pose proof (reading_Reads w r x o q s' Hr Hx Hs Ho Hfin Hsub) as Hr'.
  assert (saves w (setProgress w x (sq_time q))) as Hv by (apply saves_progress; intros p H; left; apply Hsv; by left).
  apply Inv_run.
  - eapply saves_WInv; [done..| | |by left].
    + intros y p [[[-> ->]|H]%setProgress_cases|H]; [done|apply (wi_final _ Hw); by left|apply (wi_final _ Hw); by right].
    + intros y p Hy [[-> Hle]|Hc]%covered_setProgress; [|by eapply wi_settled].
      destruct (pn_read _ _ _ Hp x o p Hx Hy) as [Hc|[n Hn]]; [by apply Hnext|by eapply wi_settled|].
      pose proof (fo_pending _ _ _ _ Hfloor _ Hn). simpl in *. lia.
  - unfold RInv. cbn [reads setSeq rn_seq rn_read]. rewrite En, Eh, Ep. split_and!.
    + eapply saves_Reads; [done..|]. intros y o' p Hy [[[-> ->]|H]%setProgress_cases|H]; [|by eapply rd_saved; eauto..].
      rewrite lookup_insert_eq in Hy. injection Hy as <-. apply upTo_Some. lia.
    + eapply saves_Pending; [done|by eapply (reading_Pending_empty w r x o)].
    + apply saves_FloorIf with w; [done|]. split; [|apply Hf]. intros _. eapply (reading_Floor w r x o); [done..|]. by left.
  - unfold PInv in *. simpl. rewrite Ephase in *. rewrite Eh, Ep, En. destruct Hph as [[H1 Hb] H2]. split; [|done].
    split; [|intros p v Hpp [[_ ->]|H]%setProgress_cases; [pose proof (fo_pending _ _ _ _ Hfloor _ Hpp); lia|by eapply Hb]].
    intros y o' p Hy Hm. change (manifestProgress w y = Some p) in Hm. simpl in Hy |- *.
    destruct (decide (x = y)) as [<-|Hn]; [rewrite lookup_insert_eq; apply upTo_Some, Hsv; by right|].
    rewrite lookup_insert_ne by done. rewrite lookup_insert_ne in Hy by done. by eapply H1.
Qed.

Lemma GetProgress_spec (a b pos : option U) saved :
  GetProgress a b = (pos, saved) → (∀ u, upTo pos u ↔ upTo a u ∨ upTo b u) ∧ (saved = false → a = pos) ∧ (saved = true → is_Some pos).
Proof.
  assert (∀ u, ¬ upTo None u) as Hnone by by intros ? (? & [=] & ?).
  unfold GetProgress. destruct b as [b|], a as [a|].
  - destruct (0 <? _)%Z eqn:E; intros [= <- <-]; [apply after_spec in E|apply after_false in E]; split_and!; try done; eauto;
    intros u; rewrite !upTo_Some; split; [by right|intros [?|?]; lia|by left|intros [?|?]; lia].
  - intros [= <- <-]. split_and!; [|done|eauto]. intros u. split; [by right|]. intros [[]%Hnone|]; done.
  - intros [= <- <-]. split_and!; [|done..]. intros u. split; [by left|]. intros [|[]%Hnone]; done.
  - intros [= <- <-]. split_and!; [|done..]. intros u. split; [by left|]. intros [|[]%Hnone]; done.
Qed.
(** The position a stream is registered with is saved. *)
Definition recovered w x (pos : option U) (saved : bool) : World U :=
  match pos with Some p => if saved then setProgress w x p else w | None => w end.
Lemma recovered_spec w x pos saved :
  GetProgress (w_progress w !! x) (manifestProgress w x) = (pos, saved) →
  saves w (recovered w x pos saved) ∧ w_progress (recovered w x pos saved) !! x = pos ∧
  w_manifest (recovered w x pos saved) = w_manifest w ∧ (∀ u, upTo pos u ↔ covered w x u) ∧
  (∀ y, y ≠ x → w_progress (recovered w x pos saved) !! y = w_progress w !! y).
Proof.
  intros (H1 & H2 & H3)%GetProgress_spec. unfold recovered.
  destruct saved; [destruct H3 as [p ->]; [done|]|specialize (H2 eq_refl)].
  - split_and!; [|simpl; by rewrite lookup_insert_eq|done|done|intros y Hy; simpl; by rewrite lookup_insert_ne].
    apply saves_progress. intros v Hv. left. apply upTo_Some, H1. left. exists v. split; [done|lia].
  - assert (saves w w) as Hww by by constructor. destruct pos; by split_and!.
Qed.

Section registering.
Context (w : World U) (r : Run U) (x : string) (pos : option U) (saved : bool) (s' : Seq U).
Context (Hw : WInv w) (Hr : Reads w (rn_seq r) (rn_read r)) (Hm : onMessage (rn_seq r) (Register x) = OContinue s').
Context (Hg : GetProgress (w_progress w !! x) (manifestProgress w x) = (pos, saved)).
Notation w' := (recovered w x pos saved).
Notation read' := (<[x := pos]> (rn_read r)).

Lemma register_continue :
  x ∈ streams ∧ rn_read r !! x = None ∧ sq_expected s' = streams ∧ sq_registered s' = dom read' ∧
  (sq_complete s' = true → dom read' = streams) ∧ sq_watermarks s' = sq_watermarks (rn_seq r) ∧
  sq_pending s' = sq_pending (rn_seq r) ∧ sq_hasPublished s' = sq_hasPublished (rn_seq r) ∧
  sq_publishedThrough s' = sq_publishedThrough (rn_seq r) ∧
  is_Some (sq_active s' !! x) ∧ ∀ y, is_Some (sq_active (rn_seq r) !! y) → is_Some (sq_active s' !! y).
Proof.
  destruct Hr as [H1 H2 H3 _ _ _ _ _]. unfold onMessage in Hm.
  destruct (sq_prepared (rn_seq r)); [|done]. simpl in Hm. rewrite H1, H2 in Hm.
  destruct (bool_decide_reflect (x ∈ streams)) as [Hx|]; [|done]. simpl in Hm.
  destruct (bool_decide_reflect (x ∈ dom (rn_read r))) as [|Hn]; [done|]. injection Hm as <-. cbn [sq_expected sq_registered sq_complete
    sq_watermarks sq_pending sq_hasPublished sq_publishedThrough sq_active].
  rewrite dom_insert_L. split_and!; try done; [by apply not_elem_of_dom|..].
  - intros Hs%bool_decide_eq_true. apply set_subseteq_size_eq; [set_solver|lia].
  - rewrite lookup_insert_eq. eauto.
  - intros y Hy. destruct (decide (x = y)) as [<-|Hne]; [rewrite lookup_insert_eq; eauto|by rewrite lookup_insert_ne].
Qed.
Lemma register_positions y o p :
  read' !! y = Some o → w_progress w' !! y = Some p ∨ manifestProgress w' y = Some p → upTo o p.
Proof.
  destruct (recovered_spec _ _ _ _ Hg) as (_ & Hx & Hman & Hpos & Hoth).
  assert (manifestProgress w' y = manifestProgress w y) as -> by (unfold manifestProgress; by rewrite Hman).
  destruct (decide (x = y)) as [<-|Hn].
  - rewrite lookup_insert_eq, Hx. intros [= <-] [->|Hp]; [apply upTo_Some; lia|]. apply Hpos. right. exists p. split; [done|lia].
  - rewrite lookup_insert_ne by done. rewrite Hoth by done. apply (rd_saved _ _ _ Hr).
Qed.
Lemma recovered_final y p : w_progress w' !! y = Some p ∨ manifestProgress w' y = Some p → upTo (w_horizon w !! y) p.
Proof.
  destruct (recovered_spec _ _ _ _ Hg) as (_ & Hx & Hman & Hpos & Hoth).
  assert (manifestProgress w' y = manifestProgress w y) as -> by (unfold manifestProgress; by rewrite Hman).
  intros [Hp|Hp]; [|apply (wi_final _ Hw); by right]. destruct (decide (y = x)) as [->|Hn].
  - rewrite Hx in Hp. destruct (proj1 (Hpos p)) as [(v & Hv & Hle)|(v & Hv & Hle)];
      [rewrite Hp; apply upTo_Some; lia|..]; (eapply upTo_le; [|exact Hle]); apply (wi_final _ Hw); auto.
  - rewrite Hoth in Hp by done. apply (wi_final _ Hw). by left.
Qed.
Lemma recovered_covered y u : covered w' y u → covered w y u.
Proof.
  destruct (recovered_spec _ _ _ _ Hg) as (_ & Hx & Hman & Hpos & Hoth). unfold covered at 1, manifestProgress. rewrite Hman.
  intros [Hu|Hu]; [|by right]. destruct (decide (y = x)) as [->|Hn]; [rewrite Hx in Hu; by apply Hpos|].
  rewrite Hoth in Hu by done. by left.
Qed.
Lemma Inv_register : RInv w r → PInv w r → rn_phase r = PLoop → Inv (setRun w' (Some (mkRun s' read' PLoop (rn_out r)))).
Proof.
  intros (_ & Hp & Hf1 & Hf2) Hph Ephase.
  destruct (recovered_spec _ _ _ _ Hg) as (Hv & Hx & Hman & Hpos & Hoth).
  destruct register_continue as (Hxs & Hxn & C1 & C2 & C3 & C4 & C5 & C6 & C7 & C8 & C9).
  apply Inv_run.
  - eapply saves_WInv; [done..|exact recovered_final| |by left]. intros y q Hq Hc%recovered_covered. by eapply wi_settled.
  - unfold RInv. cbn [rn_seq rn_read]. rewrite C5, C6, C7. split_and!.
    + eapply saves_Reads; [done| |exact register_positions]. destruct Hr as [H1 H2 H3 H4 H5 H6 H7 H8].
      constructor; [done|done| |done|..].
      * rewrite dom_insert_L. set_solver.
      * intros y u. rewrite C4. intros Hu%H5. rewrite lookup_insert_ne; [done|]. congruence.
      * intros y u. destruct (decide (x = y)) as [<-|Hn]; [|rewrite lookup_insert_ne by done; apply H6].
        rewrite lookup_insert_eq. intros [= Eu]. apply recovered_final. left. by rewrite Hx.
      * intros y o. destruct (decide (x = y)) as [<-|Hn]; [by left|]. rewrite lookup_insert_ne by done.
        intros [?|?]%H7; [left; by apply C9|by right].
      * intros y o p. destruct (decide (x = y)) as [<-|Hn]; [|rewrite lookup_insert_ne by done; apply H8].
        rewrite lookup_insert_eq. intros [= <-] H. apply Hpos. destruct H; [left|right]; by exists p.
    + eapply saves_Pending; [done|]. destruct Hp as [P1 P2 P3 P4]. constructor; [| |done..].
      * intros y o q. destruct (decide (x = y)) as [<-|Hn]; [|rewrite lookup_insert_ne by done; apply P1].
        rewrite lookup_insert_eq. intros [= <-] _ Hu%Hpos. by left.
      * intros q Hq. destruct (P2 q Hq) as (o & Ho & Hu). exists o. rewrite lookup_insert_ne; [done|]. congruence.
    + eapply saves_FloorIf; [done|]. split; [|done]. intros Hh. destruct (Hf1 Hh) as [F1 F2 F3 F4 F5]. constructor; [done..| |].
      * intros y o q. destruct (decide (x = y)) as [<-|Hn]; [|rewrite lookup_insert_ne by done; apply F4].
        rewrite lookup_insert_eq. intros [= <-] Hq Hu. destruct (F5 x q Hxn Hq) as [Hc|]; [|done]. by apply Hpos, Hu in Hc.
      * intros y q. destruct (decide (x = y)) as [<-|Hn]; [by rewrite lookup_insert_eq|rewrite lookup_insert_ne by done; apply F5].
  - unfold PInv in *. rewrite Ephase in Hph. cbn [rn_phase rn_seq rn_read rn_out]. rewrite C5, C6, C7. destruct Hph as [[H1 Hb] H2]. split; [|done].
    split; [|intros q p Hq; destruct (pn_request _ _ _ Hp q Hq) as (o & Ho & _); rewrite Hoth by congruence; by eapply Hb].
    intros y o p Hy Hmp. destruct (decide (x = y)) as [<-|Hn].
    + rewrite lookup_insert_eq in Hy. rewrite Hx. by eapply register_positions; [apply lookup_insert_eq|right].
    + rewrite lookup_insert_ne in Hy by done. rewrite Hoth by done. eapply H1; [done|]. unfold manifestProgress in *. by rewrite Hman in Hmp.
Qed.
End registering.

Lemma Inv_start w s' : WInv w → startSeq streams generation w = OContinue s' → Inv (setRun w (Some (mkRun s' ∅ PLoop []))).
Proof.
  intros Hw. unfold startSeq. destruct (PublishedFrontier (w_manifest w)) as [u has] eqn:Ef. unfold onMessage.
  cbn [newSeq sq_active sq_pending]. destruct (negb _ || negb _); [done|]. destruct (existsb _ _); [done|].
  intros [= <-]. apply Inv_run; [done|split_and!|].
  - constructor; simpl; try done; [by rewrite list_to_set_elements_L|set_solver..].
  - constructor; simpl; [done|nil_elem..].
  - simpl. unfold PublishedFrontier in Ef. destruct (w_manifest w) as [m|] eqn:Em; injection Ef as <- <-; [|by split].
    split; [|intros H%negb_false_iff; by apply bool_decide_eq_true in H].
    intros Hz%negb_true_iff%bool_decide_eq_false. destruct (wi_front _ Hw m Em Hz) as [H1 H2].
    constructor; [done..|nil_elem|done|]. intros x q _ Hq. by apply H2.
  - split; simpl; [split; simpl; [done|intros ? ?; simpl; nil_elem]|]. split; [constructor|nil_elem].
Qed.

Lemma Inv_unregister w r x o s' :
  WInv w → RInv w r → PInv w r → rn_phase r = PLoop → rn_read r !! x = Some o → x ∈ w_ended w →
  (∀ q, q ∈ records w x → upTo o (sq_time q)) → onMessage (rn_seq r) (Unregister x) = OFlush s' →
  Inv (setRun w (Some (setSeq r s'))).
Proof.
  intros Hw (Hr & Hp & Hf) Hph Ephase Hx He Hall Hm.
  assert (sq_expected s' = sq_expected (rn_seq r) ∧ sq_registered s' = sq_registered (rn_seq r) ∧
    sq_complete s' = sq_complete (rn_seq r) ∧ sq_pending s' = sq_pending (rn_seq r) ∧
    sq_hasPublished s' = sq_hasPublished (rn_seq r) ∧ sq_publishedThrough s' = sq_publishedThrough (rn_seq r) ∧
    sq_watermarks s' ⊆ sq_watermarks (rn_seq r) ∧ ∀ y, y ≠ x → sq_active s' !! y = sq_active (rn_seq r) !! y)
    as (E1 & E2 & E3 & E4 & E5 & E6 & E7 & E8).
  { unfold onMessage in Hm. injection Hm as <-. destruct (_ <=? _)%Z; simpl; split_and!; try done.
    - apply delete_subseteq.
    - intros y Hy. by rewrite lookup_delete_ne.
    - intros y Hy. by rewrite lookup_insert_ne. }
  apply Inv_run; [done|..].
  - unfold RInv. cbn [setSeq rn_seq rn_read]. rewrite E4, E5, E6. split; [|done].
    destruct Hr as [H1 H2 H3 H4 H5 H6 H7 H8]. constructor; rewrite ?E1, ?E2, ?E3; try done.
    + intros y u Hu. apply H5. by eapply lookup_weaken.
    + intros y o' Ho. destruct (decide (y = x)) as [->|Hn]; [|rewrite E8 by done; by apply H7].
      right. split; [done|]. rewrite Hx in Ho. by injection Ho as <-.
  - unfold PInv in *. rewrite Ephase in Hph. cbn [setSeq rn_phase rn_seq rn_read rn_out]. by rewrite Ephase, E4, E5, E6.
Qed.

(** ** Publication *)

Lemma Pending_perm w read l l' : l' ≡ₚ l → Pending w read l → Pending w read l'.
Proof.
  intros Hl [H1 H2 H3 H4]. assert (∀ q, q ∈ l' ↔ q ∈ l) as Hi by (intros q; by rewrite Hl).
  constructor; [|intros q Hq%Hi; eauto..].
  intros x o q Hx Hq Hu. destruct (H1 x o q Hx Hq Hu) as [|[n Hn]]; [by left|right]. exists n. by apply Hi.
Qed.
Lemma Floor_sub w read u l l' : (∀ q, q ∈ l' → q ∈ l) → Floor w read u l → Floor w read u l'.
Proof. intros Hl [H1 H2 H3 H4 H5]. constructor; auto. Qed.
(** The frontier of a batch is the time of the last request it publishes. *)
Lemma last_published ask (l : list (Request U)) u b u' b' :
  foldl (λ a q, if (decide_ ask q).2 then (sq_time q, true) else a) (u, b) l = (u', b') → StronglySorted earlier l →
  (∀ q, q ∈ l → (decide_ ask q).2 = true → b' = true ∧ sq_time q ⊑ u') ∧
  ((u', b') = (u, b) ∧ (∀ q, q ∈ l → (decide_ ask q).2 = false) ∨ b' = true ∧ ∃ q, q ∈ l ∧ u' = sq_time q).
Proof.
  revert u' b'. induction l as [|r l IH] using rev_ind; intros u' b'.
  - intros [= <- <-] _. split; [nil_elem|]. left. split; [done|nil_elem].
  - rewrite foldl_app. cbn [foldl]. intros H Hs. pose proof (StronglySorted_app_1_l _ _ _ Hs) as Hl.
    destruct (decide_ ask r).2 eqn:Ed.
    + injection H as <- <-. split.
      * intros q [Hq| ->%list_elem_of_singleton]%elem_of_app _; (split; [done|]); [|lia].
        apply (StronglySorted_app_1_elem_of _ _ _ q r Hs); [done|]. by apply list_elem_of_singleton.
      * right. split; [done|]. exists r. set_solver.
    + destruct (IH u' b' H Hl) as [IH1 IH2]. split.
      * intros q [Hq| ->%list_elem_of_singleton]%elem_of_app Hd; [by apply IH1|by rewrite Ed in Hd].
      * destruct IH2 as [[E Hn]|(Hb & q & Hq & ->)]; [left|right].
        -- split; [done|]. by intros q [Hq| ->%list_elem_of_singleton]%elem_of_app; [apply Hn|].
        -- split; [done|]. exists q. set_solver.
Qed.
Lemma outTimes_spec ask (l : list (Request U)) :
  StronglySorted earlier l →
  StronglySorted (λ a b, a ⊑ b) (outTimes (decide_ ask <$> l)) ∧
  ∀ v, v ∈ outTimes (decide_ ask <$> l) → ∃ q, q ∈ l ∧ (decide_ ask q).2 = true ∧ v = sq_time q.
Proof.
  unfold outTimes. induction 1 as [|r l Hs [IH1 IH2] Hr]; [split; simpl; [constructor|nil_elem]|].
  rewrite fmap_cons, filter_cons.
  assert (∀ v, v ∈ sq_time ∘ fst <$> filter (λ d, d.2 = true) (decide_ ask <$> l) →
    ∃ q, q ∈ r :: l ∧ (decide_ ask q).2 = true ∧ v = sq_time q) as IH2'.
  { intros v (q & Hq & Hd & ->)%IH2. exists q. set_solver. }
  case_decide as Hd; [|done]. rewrite fmap_cons. split.
  - constructor; [done|]. apply Forall_forall. intros v (q & Hq & _ & ->)%IH2. rewrite Forall_forall in Hr. by apply Hr.
  - intros v [->|Hv]%elem_of_cons; [|by apply IH2']. exists r. split; [by left|done].
Qed.

(** What a flush takes is final in every stream. *)
Lemma flush_split w r ask s' f :
  WInv w → RInv w r → flush ask (rn_seq r) = Some (s', Ok f) →
  ∃ rest, sortPending (sq_pending (rn_seq r)) = fl_taken f ++ rest ∧ dom (rn_read r) = streams ∧
    (∀ q q', q ∈ fl_taken f → q' ∈ rest → sq_time q ⊏ sq_time q') ∧
    (∀ q, q ∈ fl_taken f → Floor w (rn_read r) (sq_time q) rest) ∧
    (∀ q, q ∈ fl_taken f → (decide_ ask q).2 = true → ∀ c, c ∈ changesOf q → c ∈ fl_changes f) ∧
    (∀ q, q ∈ fl_taken f → (decide_ ask q).2 = false → sq_progressOnly q = false → sq_gated q = true) ∧
    (fl_frontier f, fl_has f) =
      foldl (λ a q, if (decide_ ask q).2 then (sq_time q, true) else a)
        (sq_publishedThrough (rn_seq r), sq_hasPublished (rn_seq r)) (fl_taken f).
Proof.
  intros Hw (Hr & Hp & _) Hfl. unfold flush in Hfl. destruct (_ || _) eqn:Eg; [done|].
  apply orb_false_iff in Eg as [_ Ec%negb_false_iff]. apply (rd_complete _ _ _ Hr) in Ec.
  destruct (namespaceCDCFrontier (rn_seq r)) as [fr|] eqn:Efr; [|done]. injection Hfl as _ Ht.
  apply takeReady_spec in Ht as (ts & rest & Es & Ets & T1 & T2 & T3 & _ & T4 & T5 & T6). simpl in Ets. subst ts.
  pose proof (sortPending_sorted (sq_pending (rn_seq r))) as Hs. rewrite Es in Hs. exists rest.
  assert (∀ q q', q ∈ fl_taken f → q' ∈ rest → sq_time q ⊏ sq_time q') as Hsplit.
  { intros q q' Hq Hq'. destruct fr as [u|]; [|rewrite T2 in Hq' by done; by apply elem_of_nil in Hq'].
    specialize (T1 u q eq_refl Hq). apply StronglySorted_app_1_r in Hs. destruct rest as [|h rest]; [by apply elem_of_nil in Hq'|].
    specialize (T3 u h rest eq_refl eq_refl). apply StronglySorted_cons in Hs as [Hh _]. rewrite Forall_forall in Hh.
    apply elem_of_cons in Hq' as [->|Hq']; [lia|]. specialize (Hh _ Hq'). lia. }
  apply frontierOf_spec in Efr as (F1 & _ & F3).
  (** every stream has been read past what is taken, or is at its end *)
  assert (∀ q x o, q ∈ fl_taken f → rn_read r !! x = Some o →
    (∃ u, o = Some u ∧ sq_time q ⊑ u) ∨ x ∈ w_ended w ∧ ∀ p, p ∈ records w x → upTo o (sq_time p)) as Hpast.
  { intros q x o Hq Hx. destruct (rd_active _ _ _ Hr x o Hx) as [[n Hn]|]; [left|by right].
    destruct (F1 x) as (u & Hu & Hle).
    { apply list_elem_of_fmap. exists (x, n). split; [done|]. by apply elem_of_map_to_list. }
    apply (rd_watermark _ _ _ Hr) in Hu. rewrite Hx in Hu. injection Hu as ->. exists u. split; [done|].
    destruct fr as [v|]; [specialize (Hle v eq_refl); specialize (T1 v q eq_refl Hq); lia|].
    destruct F3 as [F3 _]; [done|]. apply fmap_nil_inv, map_to_list_empty_iff in F3. by rewrite F3, lookup_empty in Hn. }
  assert (∀ q, q ∈ fl_taken f → Floor w (rn_read r) (sq_time q) rest) as Hfloor.
  { intros q Hq. constructor.
    - eapply pn_time; [done|]. rewrite <- (sortPending_perm (sq_pending (rn_seq r))), Es. set_solver.
    - intros x Hx. rewrite <- Ec in Hx. apply elem_of_dom in Hx as [o Hx].
      destruct (Hpast q x o Hq Hx) as [(u & -> & Hu)|[? _]]; [right|by left].
      eapply upTo_le; [by eapply rd_final|done].
    - intros q' Hq'. specialize (Hsplit q q' Hq Hq'). lia.
    - intros x o p Hx Hpr Hun. destruct (Hpast q x o Hq Hx) as [(u & -> & Hu)|[_ Hall]]; [|by destruct Hun; apply Hall].
      destruct (Z.le_gt_cases (timeKey (sq_time q)) (timeKey (sq_time p))); [done|]. destruct Hun. apply upTo_Some. lia.
    - intros x p Hx Hpr. apply not_elem_of_dom in Hx. rewrite Ec in Hx. by destruct (ro_stream _ _ _ (wi_rec _ Hw _ _ Hpr)). }
  by split_and!.
Qed.
Lemma flush_same ask (sq s' : Seq U) res :
  flush ask sq = Some (s', res) →
  s' = mkSeq (sq_active sq) (sq_watermarks sq) (sortPending (sq_pending sq)) (sq_pendingRecords sq) (sq_arrivalNumber sq)
         (sq_publishedThrough sq) (sq_hasPublished sq) (sq_expected sq) (sq_registered sq) (sq_prepared sq)
         (sq_complete sq) (sq_generation sq).
Proof. unfold flush. destruct (_ || _); [done|]. destruct (namespaceCDCFrontier sq); [|done]. by intros [= <- _]. Qed.
Lemma Reads_same w (sq sq' : Seq U) read :
  sq_expected sq' = sq_expected sq → sq_registered sq' = sq_registered sq → sq_complete sq' = sq_complete sq →
  sq_watermarks sq' = sq_watermarks sq → sq_active sq' = sq_active sq → Reads w sq read → Reads w sq' read.
Proof. intros E1 E2 E3 E4 E5 [H1 H2 H3 H4 H5 H6 H7 H8]. constructor; by rewrite ?E1, ?E2, ?E3, ?E4, ?E5. Qed.

Lemma Inv_flush w r ask s' f :
  WInv w → RInv w r → PInv w r → rn_phase r = PLoop → flush ask (rn_seq r) = Some (s', Ok f) →
  Inv (setRun w (Some (mkRun s' (rn_read r) (PMaterialize f (decide_ ask <$> fl_taken f)) (rn_out r)))).
Proof.
  intros Hw Hri Hph Ephase Hfl. destruct (flush_split _ _ _ _ _ Hw Hri Hfl) as (rest & Es & Hdom & Hsplit & Hfloor & Hch & Hgate & Hfr).
  apply flush_same in Hfl. destruct Hri as (Hr & Hp & Hf). pose proof (sortPending_perm (sq_pending (rn_seq r))) as Hperm.
  assert (∀ q, q ∈ sortPending (sq_pending (rn_seq r)) → q ∈ sq_pending (rn_seq r)) as Hin by (intros q; by rewrite Hperm).
  pose proof (sortPending_sorted (sq_pending (rn_seq r))) as Hs. rewrite Es in Hs. apply StronglySorted_app_1_l in Hs as Hst.
  symmetry in Hfr. destruct (last_published _ _ _ _ _ _ Hfr Hst) as [Hlast Hcase].
  unfold PInv in Hph. rewrite Ephase in Hph. destruct Hph as [Hsv [Ho1 Ho2]]. subst s'. apply Inv_run; [done|..].
  - split_and!; cbn [rn_seq rn_read sq_pending sq_hasPublished sq_publishedThrough]; [by apply (Reads_same w (rn_seq r))|by eapply Pending_perm|].
    destruct Hf as [Hf1 Hf2]. split; [|done]. intros Hb. eapply Floor_sub; [exact Hin|by apply Hf1].
  - unfold PInv. cbn [rn_phase rn_read rn_out]. split_and!; [split; [apply Hsv|intros q p Hq; by apply Hsv, Hin]| | |].
    + destruct (outTimes_spec ask _ Hst) as [Hss Hse].
      assert (∀ v, v ∈ rn_out r → fl_has f = true ∧ v ⊑ fl_frontier f) as Hold.
      { intros v [Hb Hv]%Ho2. destruct Hcase as [[[= -> ->] _]|(Hb' & q & Hq & ->)]; [done|]. split; [done|].
        pose proof (fo_pending _ _ _ _ (proj1 Hf Hb) q (Hin q ltac:(rewrite Es; set_solver))). lia. }
      split; [|intros v [Hv|(q & Hq & Hd & ->)%Hse]%elem_of_app; [by apply Hold|by apply Hlast]].
      apply StronglySorted_app_2; [|done..]. intros v v' [Hb Hv]%Ho2 (q & Hq & Hd & ->)%Hse.
      pose proof (fo_pending _ _ _ _ (proj1 Hf Hb) q (Hin q ltac:(rewrite Es; set_solver))). lia.
    + intros q Hq Hpo. exists (decide_ ask q).2. split; [|split; [by apply Hch|intros; by apply Hgate]].
      apply list_elem_of_fmap. by exists q.
    + exists rest. constructor; [done..|]. split.
      * intros Hb. destruct Hcase as [[[= -> Eh] _]|(_ & q & Hq & ->)]; [|by apply Hfloor].
        eapply Floor_sub; [|apply Hf; by rewrite <- Eh]. intros q Hq. apply Hin. rewrite Es. set_solver.
      * intros Hb. destruct Hcase as [[[= -> Eh] _]|(Hb' & _)]; [|by rewrite Hb in Hb']. apply Hf. by rewrite <- Eh.
Qed.

(** What the journal gained. *)
Definition logged w (changes : list Change) (ds : list (Request U * bool)) (run : option (Run U)) : World U :=
  mkWorld (w_source w) (w_horizon w) (w_ended w) (w_progress w) (w_manifest w) (w_log w ++ changes) (w_settled w ++ ds) run.
Lemma grows_logged w changes ds run : grows w (logged w changes ds run).
Proof. constructor; simpl; auto; try done; set_solver. Qed.
Lemma Inv_materialize w r f ds :
  WInv w → RInv w r → PInv w r → rn_phase r = PMaterialize f ds →
  Inv (logged w (fl_changes f) ds (Some (mkRun (rn_seq r) (rn_read r) (PPersist f) (rn_out r ++ outTimes ds)))).
Proof.
  intros Hw Hri Hph Ephase. unfold PInv in Hph. rewrite Ephase in Hph. destruct Hph as (H1 & H2 & H3 & rest & H4).
  pose proof (grows_logged w (fl_changes f) ds (Some (mkRun (rn_seq r) (rn_read r) (PPersist f) (rn_out r ++ outTimes ds)))) as Hg.
  split; [by eapply grows_WInv|]. intros r' [= <-]. split.
  - destruct Hri as (Hr & Hp & Hf). split_and!; cbn [rn_seq rn_read];
      [by eapply grows_Reads|by eapply grows_Pending|by eapply grows_FloorIf].
  - unfold PInv. cbn [rn_phase rn_read rn_out]. split_and!; [by eapply grows_Saved|done|..].
    + exists rest. eapply grows_FInv in H4; [|exact Hg]. by destruct H4; constructor.
    + intros q Hq Hpo. destruct (H3 q Hq Hpo) as (b & Hb & Ht & Hgt). exists b. simpl. split; [set_solver|].
      split; [|done]. intros Hbt c Hc. specialize (Ht Hbt c Hc). set_solver.
Qed.

(** ** The frontier and the positions *)

Section batch.
Context (w : World U) (r : Run U) (f : Flush U) (rest : list (Request U)).
Context (Hw : WInv w) (Hr : Reads w (rn_seq r) (rn_read r)) (Hp : Pending w (rn_read r) (sq_pending (rn_seq r))).
Context (Hf : FInv w r f rest).

Lemma taken_pending q : q ∈ fl_taken f → q ∈ sq_pending (rn_seq r).
Proof. rewrite (fi_pending _ _ _ _ Hf). set_solver. Qed.
Lemma taken_read q : q ∈ fl_taken f → sq_stream q ∈ streams ∧ ∃ o, rn_read r !! sq_stream q = Some o ∧ upTo o (sq_time q).
Proof.
  intros Hq. destruct (pn_request _ _ _ Hp q (taken_pending q Hq)) as (o & Ho & Hu). split; [|by exists o].
  eapply rd_streams; [done|]. apply elem_of_dom. eauto.
Qed.
Lemma taken_final q : q ∈ fl_taken f → upTo (w_horizon w !! sq_stream q) (sq_time q).
Proof.
  intros (_ & o & Ho & (u & -> & Hu))%taken_read. eapply upTo_le; [by eapply rd_final|done].
Qed.
(** A record that is read and waits is not taken only if it is after what is. *)
Lemma waiting q n : q ∈ records w (sq_stream q) → arrived q n ∈ sq_pending (rn_seq r) →
  arrived q n ∈ fl_taken f ∨ arrived q n ∈ rest ∧ ∀ p, p ∈ fl_taken f → sq_time p ⊏ sq_time q.
Proof.
  intros _. rewrite (fi_pending _ _ _ _ Hf). intros [?|Hq]%elem_of_app; [by left|right]. split; [done|].
  intros p Hpt. apply (fi_split _ _ _ _ Hf p _ Hpt Hq).
Qed.
Lemma manifestOf_lookup x : mf_progress (manifestOf f) !! x = sq_time <$> latestProgress (fl_taken f) !! x.
Proof. unfold manifestOf. simpl. by rewrite lookup_fmap. Qed.
Lemma manifestOf_Some x p : mf_progress (manifestOf f) !! x = Some p →
  ∃ q, q ∈ fl_taken f ∧ sq_stream q = x ∧ sq_time q = p ∧ latestProgress (fl_taken f) !! x = Some q.
Proof.
  rewrite manifestOf_lookup. intros (q & Hq & ->)%fmap_Some_1. pose proof (latestProgress_spec _ _ _ Hq) as (? & ? & _). by exists q.
Qed.
Lemma manifestOf_covers q : q ∈ fl_taken f → upTo (mf_progress (manifestOf f) !! sq_stream q) (sq_time q).
Proof.
  intros Hq. destruct (latestProgress_has _ _ Hq) as [p Ep]. rewrite manifestOf_lookup, Ep. apply upTo_Some.
  apply (latestProgress_spec _ _ _ Ep); [apply Hf|done..].
Qed.
Lemma arrived_record q x n : q ∈ records w x → arrived (arrived q n) 0 = q.
Proof. intros [_ [_ Ha] _ _]%(wi_rec _ Hw). destruct q. simpl in *. by subst. Qed.
Lemma upTo_dec o u : upTo o u ∨ unread o u.
Proof.
  destruct o as [p|]; [|right; by intros (? & [=] & _)].
  destruct (Z.le_gt_cases (timeKey u) (timeKey p)) as [H|H]; [left; by apply upTo_Some|right; intros ?%upTo_Some; lia].
Qed.

(** The manifest replaces the one before. *)
Notation w' := (mkWorld (w_source w) (w_horizon w) (w_ended w) (w_progress w) (Some (manifestOf f)) (w_log w) (w_settled w)
                  (Some (setPhase r (PMark f (toMark (fl_taken f)))))).
Lemma persist_saves : Saved w (rn_read r) (sq_pending (rn_seq r)) → saves w w'.
Proof.
  intros [Hs _]. constructor; [done..|]. intros x u [Hc|(p & Hm & Hu)]; [by left|left]. simpl.
  assert (x ∈ dom (rn_read r)) as [o Ho]%elem_of_dom by (rewrite (fi_complete _ _ _ _ Hf); by eapply wi_keys).
  eapply upTo_le; [by eapply Hs|done].
Qed.
Lemma persist_WInv :
  saves w w' → (∀ q, q ∈ fl_taken f → sq_progressOnly q = false → settledOk w (arrived q 0)) → WInv w'.
Proof.
  intros Hv Hset. eapply saves_WInv; [done..| | |right; split].
  - intros x p [H|(q & Hq & <- & <- & _)%manifestOf_Some]; [apply (wi_final _ Hw); by left|by apply taken_final].
  - intros x q Hq [Hc|(p & (q' & Hq' & <- & <- & _)%manifestOf_Some & Hle)]; [by eapply wi_settled; [|..|left]|].
    destruct (taken_read q' Hq') as (_ & o & Ho & Hu). pose proof (wi_rec _ Hw _ _ Hq) as [[_ Es] [Hpo _] _ _].
    destruct (pn_read _ _ _ Hp _ o q Ho Hq) as [Hc|[n Hn]]; [by eapply upTo_le|by eapply wi_settled|].
    destruct (waiting q n) as [Ht|[_ Ht]]; [by rewrite Es|done| |specialize (Ht _ Hq'); lia].
    specialize (Hset _ Ht Hpo). by erewrite arrived_record in Hset.
  - intros x p (q & Hq & <- & _)%manifestOf_Some. by apply taken_read.
  - intros m [= <-] Hz. destruct (fi_floor _ _ _ _ Hf) as [F1 F2]. simpl in Hz.
    destruct (fl_has f); [|by rewrite F2 in Hz]. destruct (F1 eq_refl) as [_ G2 G3 G4 _]. split; [done|].
    intros x q Hq. pose proof (wi_rec _ Hw _ _ Hq) as [[Hx Es] _ _ _].
    rewrite <- (fi_complete _ _ _ _ Hf) in Hx. apply elem_of_dom in Hx as [o Ho].
    destruct (upTo_dec o (sq_time q)) as [Hu|Hu]; [|right; by eapply G4].
    destruct (pn_read _ _ _ Hp _ o q Ho Hq Hu) as [Hc|[n Hn]]; [left; by eapply sv_covered|].
    destruct (waiting q n) as [Ht|[Ht _]]; [by rewrite Es|done|left; right|right; by apply (G3 _ Ht)].
    rewrite <- Es. exact (manifestOf_covers _ Ht).
Qed.
End batch.

Lemma Inv_persist w r f :
  WInv w → RInv w r → PInv w r → rn_phase r = PPersist f →
  Inv (mkWorld (w_source w) (w_horizon w) (w_ended w) (w_progress w) (Some (manifestOf f)) (w_log w) (w_settled w)
         (Some (setPhase r (PMark f (toMark (fl_taken f)))))).
Proof.
  intros Hw (Hr & Hp & Hf) Hph Ephase. unfold PInv in Hph. rewrite Ephase in Hph. destruct Hph as (Hs & Ho & (rest & Hfi) & Hset).
  pose proof (persist_saves _ _ _ _ Hw Hfi Hs) as Hv.
  split; [by eapply persist_WInv|]. intros r' [= <-]. split.
  - split_and!; cbn [setPhase rn_seq rn_read]; [|by eapply saves_Pending|by eapply saves_FloorIf].
    eapply saves_Reads; [done..|]. intros x o p Hx [H|(q & Hq & <- & <- & _)%manifestOf_Some]; [by eapply rd_saved; [..|left]|].
    edestruct (taken_read w r f rest) as (_ & o' & Ho' & Hu); [done..|]. rewrite Hx in Ho'. by injection Ho' as <-.
  - unfold PInv. cbn [setPhase rn_phase rn_out]. split_and!; [done| |done|..].
    + exists rest. destruct Hfi as [F1 F2 F3 F4 F5]. split; [constructor; [done..|by eapply saves_FloorIf]|].
      intros q p Hq. apply Hs. rewrite F1. set_solver.
    + intros q. unfold toMark. rewrite list_elem_of_filter. by intros [_ ?].
    + intros x p (q & _ & _ & <- & Hq)%manifestOf_Some. by apply markAll_toMark.
    + intros x m p (q & Hq & <- & <- & _)%manifestOf_Some. apply Hs. by eapply taken_pending.
Qed.

Lemma Inv_mark w r f q todo :
  WInv w → RInv w r → PInv w r → rn_phase r = PMark f (q :: todo) →
  Inv (setRun (setProgress w (sq_stream q) (sq_time q)) (Some (setPhase r (PMark f todo)))).
Proof.
  intros Hw (Hr & Hp & Hf) Hph Ephase. unfold PInv in Hph. rewrite Ephase in Hph.
  destruct Hph as (Ho & (rest & Hfi & Hb) & Hm & Hin & Hall & Hle).
  assert (q ∈ fl_taken f) as Hq by (apply Hin; by left).
  assert (upTo (manifestProgress w (sq_stream q)) (sq_time q)) as (m & Em & Hqm).
  { unfold manifestProgress. rewrite Hm. by eapply manifestOf_covers. }
  assert (saves w (setProgress w (sq_stream q) (sq_time q))) as Hv.
  { apply saves_progress. intros p Hpr. right. exists m. split; [done|]. by eapply Hle. }
  apply Inv_run.
  - eapply saves_WInv; [done..| | |by left].
    + intros x p [[[-> ->]|H]%setProgress_cases|H]; [by eapply taken_final|apply (wi_final _ Hw); by left|apply (wi_final _ Hw); by right].
    + intros x p Hx [[-> Hpq]|Hc]%covered_setProgress; [|by eapply wi_settled]. eapply wi_settled; [done..|].
      right. exists m. split; [done|lia].
  - split_and!; cbn [setPhase rn_seq rn_read]; [|by eapply saves_Pending|by eapply saves_FloorIf].
    eapply saves_Reads; [done..|]. intros x o p Hx [[[-> ->]|H]%setProgress_cases|H]; [|by eapply rd_saved; [..|left]|by eapply rd_saved; [..|right]].
    edestruct (taken_read w r f rest) as (_ & o' & Ho' & Hu); [done..|]. rewrite Hx in Ho'. by injection Ho' as <-.
  - unfold PInv. cbn [setPhase rn_phase rn_out]. split_and!; [done| |done| | |].
    + exists rest. destruct Hfi as [F1 F2 F3 F4 F5]. split; [constructor; [done..|by eapply saves_FloorIf]|].
      intros p v Hpr [[_ ->]|H]%setProgress_cases; [|by eapply Hb]. specialize (F3 q p Hq Hpr). lia.
    + intros p Hpr. apply Hin. by right.
    + exact Hall.
    + intros x m' p Hm' [[-> ->]|H]%setProgress_cases; [|by eapply Hle].
      change (manifestProgress w (sq_stream q) = Some m') in Hm'. rewrite Em in Hm'. by injection Hm' as <-.
Qed.

Lemma Inv_flushed w r f :
  WInv w → RInv w r → PInv w r → rn_phase r = PMark f [] →
  Inv (setRun w (Some (mkRun (afterFlush (rn_seq r) f) (rn_read r) PLoop (rn_out r)))).
Proof.
  intros Hw (Hr & Hp & Hf) Hph Ephase. unfold PInv in Hph. rewrite Ephase in Hph.
  destruct Hph as (Ho & (rest & Hfi & Hb) & Hm & _ & Hall & _).
  assert (sq_pending (afterFlush (rn_seq r) f) = rest) as Erest.
  { simpl. rewrite (fi_pending _ _ _ _ Hfi). by rewrite drop_app_length. }
  apply Inv_run; [done|..].
  - unfold RInv. cbn [rn_seq rn_read]. rewrite Erest. split_and!; [by apply (Reads_same w (rn_seq r))| |apply Hfi].
    assert (∀ p, p ∈ rest → p ∈ sq_pending (rn_seq r)) as Hsub by (intros p; rewrite (fi_pending _ _ _ _ Hfi); set_solver).
    destruct Hp as [H1 H2 H3 H4]. constructor; [|intros p Hpr%Hsub; auto..].
    intros x o p Hx Hpr Hu. destruct (H1 x o p Hx Hpr Hu) as [Hc|[n Hn]]; [by left|].
    rewrite (fi_pending _ _ _ _ Hfi) in Hn. apply elem_of_app in Hn as [Hn|Hn]; [left; right|right; by exists n].
    destruct (wi_rec _ Hw _ _ Hpr) as [[_ <-] _ _ _]. unfold manifestProgress. rewrite Hm.
    exact (manifestOf_covers _ _ _ _ Hfi _ Hn).
  - unfold PInv. cbn [rn_phase rn_read rn_seq rn_out]. split; [|done]. rewrite Erest. split; [|done].
    intros x o p _ Hmp. specialize (Hall x p Hmp). simpl in Hall. rewrite Hall. apply upTo_Some. lia.
Qed.

(** ** All steps *)

Lemma Inv_empty : Inv emptyWorld.
Proof.
  assert (∀ x q, q ∉ records emptyWorld x) as Hr.
  { intros x q. unfold records. simpl. rewrite lookup_empty. apply not_elem_of_nil. }
  split; [|done]. constructor; [by intros x q ?%Hr|by intros x q q' ?%Hr| |by intros x q ?%Hr|done|done].
  intros x p [H|H]; [simpl in H; by rewrite lookup_empty in H|done].
Qed.
Lemma Inv_step w w' : worldStep streams generation w w' → Inv w → Inv w'.
Proof.
  intros Hs [Hw Hrun]. destruct Hs.
  - eapply Inv_grows; [by split|by apply grows_commit|done].
  - eapply Inv_grows; [by split|apply grows_end|done].
  - by apply Inv_start.
  - by apply Inv_stop.
  - destruct (Hrun r) as [Hri Hph]; [done|]. pose proof Hri as [Hr _]. by apply (Inv_register w r x pos saved).
  - destruct (Hrun r) as [Hri Hph]; [done|]. match goal with H : nextRecord _ _ _ _ |- _ => destruct H as (Hin & Hun & Hmin) end.
    pose proof (wi_rec _ Hw _ _ Hin) as [[_ Es] [Epo Ea] Ez Ef].
    eapply (Inv_submit w r x o rec); try done.
    + intros p ->. destruct (Z.le_gt_cases (timeKey p) (timeKey (sq_time rec))) as [?|Hgt]; [done|]. destruct Hun. apply upTo_Some. lia.
    + intros _. by destruct rec; simpl in *; subst.
    + intros p Hp Hle. destruct (upTo_dec o (sq_time p)) as [?|Hu]; [by left|right]. eapply wi_unique; [done..|].
      specialize (Hmin p Hp Hu). lia.
  - destruct (Hrun r) as [Hri Hph]; [done|]. pose proof (grows_horizon w x u) as Hg.
    apply (Inv_submit (raiseHorizon w x u) r x o (emptyRequest x u)); try done.
    + by eapply grows_WInv.
    + by eapply grows_RInv.
    + by eapply grows_PInv.
    + apply raised.
    + intros p Hp Hle. left. match goal with H : ∀ rec, rec ∈ _ → _ |- _ => apply H; [done|by apply upTo_Some] end.
  - destruct (Hrun r) as [Hri Hph]; [done|]. pose proof (grows_horizon w x u) as Hg.
    apply (Inv_mark_empty (raiseHorizon w x u) r x o (emptyRequest x u) q); try done.
    + by eapply grows_WInv.
    + by eapply grows_RInv.
    + by eapply grows_PInv.
    + apply raised.
    + intros p Hp Hle. match goal with H : ∀ rec, rec ∈ _ → _ |- _ => apply H; [done|by apply upTo_Some] end.
  - destruct (Hrun r) as [Hri Hph]; [done|]. by apply (Inv_unregister w r x o).
  - destruct (Hrun r) as [Hri Hph]; [done|]. by apply Inv_flush.
  - destruct (Hrun r) as [Hri Hph]; [done|]. by apply Inv_materialize.
  - split; [|done]. eapply grows_WInv; [|exact Hw]. constructor; simpl; auto; try done; set_solver.
  - destruct (Hrun r) as [Hri Hph]; [done|]. by apply Inv_persist.
  - destruct (Hrun r) as [Hri Hph]; [done|]. by apply Inv_mark.
  - destruct (Hrun r) as [Hri Hph]; [done|]. by apply (Inv_flushed w r f).
Qed.
Lemma Inv_reachable w : rtc (worldStep streams generation) emptyWorld w → Inv w.
Proof.
  apply (rtc_ind_r (λ w, Inv w)); [exact Inv_empty|]. intros w1 w2 _ Hs. by apply Inv_step.
Qed.

(** ** What is promised *)

(** C24: a change that no restart would read again, because the position that is
    saved for its stream or the one in the manifest is past it, has been dealt
    with: its changes are in the journal, or the gate of the change declined it.
    This holds at every point of every leader, also one that stops between
    appending, saving the frontier and saving the positions. *)
Theorem no_change_skipped w x q :
  rtc (worldStep streams generation) emptyWorld w → q ∈ records w x → covered w x (sq_time q) →
  (∀ c, c ∈ changesOf q → c ∈ w_log w) ∨ sq_gated q = true ∧ (q, false) ∈ w_settled w.
Proof.
  intros [Hw _]%Inv_reachable Hq Hc. destruct (wi_settled _ Hw x q Hq Hc) as ([] & Hb & Ht & Hf); [left|right]; auto.
Qed.

Lemma submit_accepted (sq : Seq U) q :
  (∀ p, sq_watermarks sq !! sq_stream q = Some p → p ⊑ sq_time q) →
  (sq_hasPublished sq = true → sq_publishedThrough sq ⊑ sq_time q) →
  (∃ s', onMessage sq (Submit q) = OContinue s') ∨
  onMessage sq (Submit q) = OStop (EText "pending limit") ∧ (namespaceCDCPendingLimit < sq_pendingRecords sq + recordsOf q)%Z.
Proof.
  intros Hwm Hpub. unfold onMessage. cbn [arrived sq_stream sq_time sq_hasPublished sq_publishedThrough sq_pendingRecords].
  assert (match sq_watermarks sq !! sq_stream q with
          | Some previous => (CompareTimeUUID (sq_time q) previous <? 0)%Z | None => false end = false) as ->.
  { destruct (sq_watermarks sq !! sq_stream q) as [p|]; [|done]. by apply before_false, Hwm. }
  assert (sq_hasPublished sq && (CompareTimeUUID (sq_time q) (sq_publishedThrough sq) <? 0)%Z = false) as ->.
  { destruct (sq_hasPublished sq); [|done]. by apply before_false, Hpub. }
  change (recordsOf (arrived q (u64 (sq_arrivalNumber sq + 1)))) with (recordsOf q).
  destruct (Z.ltb_spec namespaceCDCPendingLimit (sq_pendingRecords sq + recordsOf q)); [by right|left; eauto].
Qed.
(** What a leader publishes is in the order of the times, across its flushes. *)
Theorem published_in_order w r :
  rtc (worldStep streams generation) emptyWorld w → w_run w = Some r → StronglySorted (λ a b, a ⊑ b) (rn_out r).
Proof.
  intros [Hw Hrun]%Inv_reachable Hr. destruct (Hrun r Hr) as [_ Hph]. unfold PInv in Hph.
  destruct (rn_phase r); destruct_and?; try by match goal with H : OutOk (rn_out r) _ _ |- _ => destruct H end.
  match goal with H : OutOk (rn_out r ++ _) _ _ |- _ => destruct H as [H _] end. by eapply StronglySorted_app_1_l.
Qed.
End theorems.
