(* ===== verification/CdcExamples.v ===== *)
(** * A leader that stops half way

    Two streams, a leader that publishes their changes in the order of the times
    and stops after it saved the frontier, and the one that takes over. *)

From S2P Require Import Prelude WatchJournal WatchCursor Materializer CdcSequencer CdcSystem CdcLaws CdcTheorems.

(** Time UUIDs, by their time only. *)
#[local] Instance timeZ : TimeUUID Z := {| CompareTimeUUID a b := (a - b)%Z; zeroUUID := 0%Z |}.
#[local] Instance timeZLaws : TimeUUIDLaws Z.
Proof. refine {| timeKey := λ a, a |}; intros a b; simpl; lia. Defined.

Definition exStreams : gset string := {["a"; "b"]}.
Definition exChange (n : string) : Change := mkChange "Namespace" "" "s" n n n "" "{}" 0%Z.
Definition exRecord (x n : string) (t : Z) : Request Z := mkRequest (exChange n) [] t x false false 0%Z.
Definition recA : Request Z := exRecord "a" "first" 5%Z.
Definition recB : Request Z := exRecord "b" "second" 3%Z.
Definition recC : Request Z := exRecord "b" "third" 8%Z.
Definition askYes (q : Request Z) : result WatchError bool := Ok true.

(** ** Scripts *)

Inductive Act : Type :=
| ACommit (q : Request Z) | AStart | AStop | ARegister (x : string) | ADeliver (x : string) (i : nat)
| AEmpty (x : string) (u : Z) | AFlush | AMaterialize | APersist | AMark | AFlushed.
Definition upTob (o : option Z) (u : Z) : bool := match o with Some p => (u <=? p)%Z | None => false end.
Definition readyRun (w : World Z) : option (Run Z) :=
  r ← w_run w; match rn_phase r with PLoop => Some r | _ => None end.
Definition playStep (w : World Z) (a : Act) : option (World Z) :=
  match a with
  | ACommit q =>
      let x := sq_stream q in
      if bool_decide (x ∈ exStreams) && negb (bool_decide (x ∈ w_ended w)) && (sq_arrival q =? 0)%Z && negb (sq_progressOnly q) &&
         negb (sq_time q =? 0)%Z && match w_horizon w !! x with Some u => (u <? sq_time q)%Z | None => true end
      then Some (mkWorld (<[x := records w x ++ [q]]> (w_source w)) (<[x := sq_time q]> (w_horizon w)) (w_ended w)
                   (w_progress w) (w_manifest w) (w_log w) (w_settled w) (w_run w))
      else None
  | AStart =>
      match w_run w, startSeq exStreams 1 w with
      | None, OContinue s => Some (setRun w (Some (mkRun s ∅ PLoop [])))
      | _, _ => None
      end
  | AStop => Some (setRun w None)
  | ARegister x =>
      r ← readyRun w;
      match onMessage (rn_seq r) (Register x), GetProgress (w_progress w !! x) (manifestProgress w x) with
      | OContinue s, (pos, saved) =>
          Some (setRun (match pos with Some p => if saved then setProgress w x p else w | None => w end)
                  (Some (mkRun s (<[x := pos]> (rn_read r)) PLoop (rn_out r))))
      | _, _ => None
      end
  | ADeliver x i =>
      r ← readyRun w; o ← rn_read r !! x; q ← records w x !! i;
      if negb (upTob o (sq_time q)) && submitChecks q &&
         forallb (λ p, upTob o (sq_time p) || (sq_time q <=? sq_time p)%Z) (records w x) then
        match onMessage (rn_seq r) (Submit q) with
        | OContinue s => Some (setRun w (Some (reads (setSeq r s) x (sq_time q))))
        | _ => None
        end
      else None
  | AEmpty x u =>
      r ← readyRun w; o ← rn_read r !! x;
      if negb (u =? 0)%Z && match o with Some p => (p <=? u)%Z | None => true end &&
         forallb (λ p, negb (sq_time p <=? u)%Z || upTob o (sq_time p)) (records w x) then
        match onMessage (rn_seq r) (Submit (emptyRequest x u)) with
        | OContinue s => Some (setRun (raiseHorizon w x u) (Some (reads (setSeq r s) x u)))
        | OMark _ s => Some (setRun (setProgress (raiseHorizon w x u) x u) (Some (reads (setSeq r s) x u)))
        | _ => None
        end
      else None
  | AFlush =>
      r ← readyRun w;
      match flush askYes (rn_seq r) with
      | Some (s, Ok f) =>
          if bool_decide (length (fl_taken f) = 0) then None else
          Some (setRun w (Some (mkRun s (rn_read r) (PMaterialize f (decide_ askYes <$> fl_taken f)) (rn_out r))))
      | _ => None
      end
  | AMaterialize =>
      r ← w_run w;
      match rn_phase r with
      | PMaterialize f ds =>
          Some (mkWorld (w_source w) (w_horizon w) (w_ended w) (w_progress w) (w_manifest w) (w_log w ++ fl_changes f)
                  (w_settled w ++ ds) (Some (mkRun (rn_seq r) (rn_read r) (PPersist f) (rn_out r ++ outTimes ds))))
      | _ => None
      end
  | APersist =>
      r ← w_run w;
      match rn_phase r with
      | PPersist f =>
          Some (mkWorld (w_source w) (w_horizon w) (w_ended w) (w_progress w) (Some (manifestOf f)) (w_log w) (w_settled w)
                  (Some (setPhase r (PMark f (toMark (fl_taken f))))))
      | _ => None
      end
  | AMark =>
      r ← w_run w;
      match rn_phase r with
      | PMark f (q :: todo) => Some (setRun (setProgress w (sq_stream q) (sq_time q)) (Some (setPhase r (PMark f todo))))
      | _ => None
      end
  | AFlushed =>
      r ← w_run w;
      match rn_phase r with
      | PMark f [] => Some (setRun w (Some (mkRun (afterFlush (rn_seq r) f) (rn_read r) PLoop (rn_out r))))
      | _ => None
      end
  end.

Lemma upTob_spec o u : upTob o u = true ↔ upTo o u.
Proof.
  destruct o as [p|]; simpl; [|split; [done|by intros (? & [=] & _)]]. rewrite Z.leb_le. split.
  - intros H. by exists p.
  - by intros (? & [= <-] & H).
Qed.
Lemma readyRun_spec w r : readyRun w = Some r → w_run w = Some r ∧ rn_phase r = PLoop.
Proof. unfold readyRun. intros (r' & E & H)%bind_Some. by destruct (rn_phase r') eqn:Ep; simplify_eq. Qed.
Ltac bools := rewrite ?andb_true_iff, ?negb_true_iff, ?orb_true_iff, ?bool_decide_eq_true, ?bool_decide_eq_false, ?Z.eqb_eq, ?Z.eqb_neq.
Lemma playStep_commit w w' q : playStep w (ACommit q) = Some w' → worldStep exStreams 1 w w'.
Proof.
  cbn [playStep]. destruct (_ && _) eqn:E; [|done]. revert E. bools. intros (((((H1 & H2) & H3) & H4) & H5) & H6) [= <-].
  apply ws_commit; try done. intros u Hu. rewrite Hu in H6. simpl. lia.
Qed.
Lemma playStep_deliver w w' x i : playStep w (ADeliver x i) = Some w' → worldStep exStreams 1 w w'.
Proof.
  cbn [playStep]. intros (r & [Hr Hp]%readyRun_spec & H)%bind_Some. apply bind_Some in H as (o & Ho & H). apply bind_Some in H as (q & Hq & H).
  destruct (_ && _) eqn:E; [|done]. revert E. bools. intros [[E1 E2] E3].
  destruct (onMessage _ _) as [s| | |] eqn:Em; try done. injection H as <-. eapply ws_deliver; try done.
  split; [by eapply list_elem_of_lookup_2|]. split; [unfold unread; rewrite <- upTob_spec; by rewrite E1|].
  rewrite forallb_forall in E3. intros p Hin Hun. apply list_elem_of_In, E3 in Hin.
  apply orb_true_iff in Hin as [Hin%upTob_spec|Hin]; [done|]. simpl. lia.
Qed.
Lemma playStep_empty w w' x u : playStep w (AEmpty x u) = Some w' → worldStep exStreams 1 w w'.
Proof.
  cbn [playStep]. intros (r & [Hr Hp]%readyRun_spec & H)%bind_Some. apply bind_Some in H as (o & Ho & H).
  destruct (_ && _) eqn:E; [|done]. revert E. bools. intros [[E1 E2] E3]. rewrite forallb_forall in E3.
  assert (∀ p, o = Some p → (p ≤ u)%Z) as Hle by (intros p ->; lia).
  assert (∀ p, p ∈ records w x → upTo (Some u) (sq_time p) → upTo o (sq_time p)) as Hall.
  { intros p Hin Hu%upTob_spec. apply list_elem_of_In, E3 in Hin. apply upTob_spec. simpl in Hu. by rewrite Hu in Hin. }
  destruct (onMessage _ _) as [s| |q s|] eqn:Em; try done; injection H as <-; [by eapply ws_empty|by eapply ws_mark_empty].
Qed.
Lemma playStep_sound w a w' : playStep w a = Some w' → worldStep exStreams 1 w w'.
Proof.
  destruct a as [q| | |x|x i|x u| | | | |]; [apply playStep_commit| | | |apply playStep_deliver|apply playStep_empty|..]; cbn [playStep].
  - destruct (w_run w) eqn:E1; [done|]. destruct (startSeq _ _ _) eqn:E2; try done. intros [= <-]. by apply ws_start.
  - intros [= <-]. apply ws_stop.
  - intros (r & [Hr Hp]%readyRun_spec & H)%bind_Some. destruct (onMessage _ _) eqn:Em; try done.
    destruct (GetProgress _ _) as [pos saved] eqn:Eg. injection H as <-. by eapply ws_register.
  - intros (r & [Hr Hp]%readyRun_spec & H)%bind_Some. destruct (flush _ _) as [[s [f|]]|] eqn:Ef; try done.
    case_bool_decide as Hn; [done|]. injection H as <-. eapply ws_flush; [done..|]. by intros E; rewrite E in Hn.
  - intros (r & Hr & H)%bind_Some. destruct (rn_phase r) eqn:Ep; try done. injection H as <-. by apply ws_materialize.
  - intros (r & Hr & H)%bind_Some. destruct (rn_phase r) eqn:Ep; try done. injection H as <-. by apply ws_persist.
  - intros (r & Hr & H)%bind_Some. destruct (rn_phase r) as [| | |f [|q todo]] eqn:Ep; try done. injection H as <-. by apply ws_mark.
  - intros (r & Hr & H)%bind_Some. destruct (rn_phase r) as [| | |f [|q todo]] eqn:Ep; try done. injection H as <-. by apply ws_flushed.
Qed.
Fixpoint playCdc (w : World Z) (script : list Act) : option (World Z) :=
  match script with
  | [] => Some w
  | a :: script => w' ← playStep w a; playCdc w' script
  end.
Lemma playCdc_sound script w w' : playCdc w script = Some w' → rtc (worldStep exStreams 1) w w'.
Proof.
  revert w. induction script as [|a script IH]; intros w; simpl; [intros [= <-]; by apply rtc_refl|].
  intros (w1 & H1%playStep_sound & H2)%bind_Some. eapply rtc_l; [exact H1|by apply IH].
Qed.

(** ** The run *)

(** The leader reads both streams, publishes, saves the frontier and stops. *)
Definition exStopped : list Act :=
  [ACommit recA; ACommit recB; AStart; ARegister "a"; ARegister "b"; ADeliver "a" 0; ADeliver "b" 0; AEmpty "b" 6;
   AFlush; AMaterialize; APersist; AStop]%Z.
(** The next one recovers the positions from the manifest, and goes on. *)
Definition exResumed : list Act := exStopped ++ [ACommit recC; AStart; ARegister "a"; ARegister "b"].
Definition worldAfter (script : list Act) : World Z := default emptyWorld (playCdc emptyWorld script).
Lemma exStopped_reachable : rtc (worldStep exStreams 1) emptyWorld (worldAfter exStopped).
Proof. apply (playCdc_sound exStopped). vm_compute. reflexivity. Qed.
Lemma exResumed_reachable : rtc (worldStep exStreams 1) emptyWorld (worldAfter exResumed).
Proof. apply (playCdc_sound exResumed). vm_compute. reflexivity. Qed.

(** The changes of both streams are in the order of their times; no position of
    a stream had been saved when the leader stopped. *)
Example exStopped_log :
  ch_Name <$> w_log (worldAfter exStopped) = ["second"; "first"] ∧ w_progress (worldAfter exStopped) = ∅ ∧
  (mf_frontier <$> w_manifest (worldAfter exStopped)) = Some 5%Z.
Proof. split_and!; vm_compute; reflexivity. Qed.
Example exResumed_positions :
  w_progress (worldAfter exResumed) !! "a" = Some 5%Z ∧ w_progress (worldAfter exResumed) !! "b" = Some 3%Z.
Proof. split; vm_compute; reflexivity. Qed.

Lemma no_change_skipped_witness :
  (recA ∈ records (worldAfter exStopped) "a" ∧ covered (worldAfter exStopped) "a" (sq_time recA)) ∧
  ((∀ c, c ∈ changesOf recA → c ∈ w_log (worldAfter exStopped)) ∨
   sq_gated recA = true ∧ (recA, false) ∈ w_settled (worldAfter exStopped)).
Proof.
  assert (recA ∈ records (worldAfter exStopped) "a") as H1 by (vm_compute; left).
  assert (covered (worldAfter exStopped) "a" (sq_time recA)) as H2.
  { right. exists 5%Z. split; [vm_compute; reflexivity|simpl; lia]. }
  split; [by split|]. exact (no_change_skipped exStreams 1 _ _ _ exStopped_reachable H1 H2).
Defined.

Definition exLeader : Run Z :=
  match w_run (worldAfter exResumed) with Some r => r | None => mkRun (newSeq 0%Z false) ∅ PLoop [] end.
