(* ===== verification/ResourceVersion.v ===== *)
(** * Resource versions

    The optimistic-concurrency tokens of
    [gitstore-api/internal/datastore/version.go]: decimal strings compared as
    arbitrary-precision integers ([math/big]). *)

From S2P Require Import Prelude.
From Stdlib Require Import Ascii Decimal DecimalString DecimalN DecimalFacts.

(** [big.Int.SetString(s, 10)]: an optional sign and at least one digit. *)
Definition digits (s : string) : option Z :=
  if bool_decide (s = "") then None
  else (λ u, Z.of_N (N.of_uint u)) <$> NilEmpty.uint_of_string s.
Definition SetString (s : string) : option Z :=
  match s with
  | String "+" r => digits r
  | String "-" r => Z.opp <$> digits r
  | _ => digits s
  end.
(** [big.Int.String] *)
Definition bigString (z : Z) : string :=
  if (z <? 0)%Z then String "-" (NilEmpty.string_of_uint (N.to_uint (Z.to_N (- z))))
  else NilEmpty.string_of_uint (N.to_uint (Z.to_N z)).

Inductive VersionError : Type := VersionChanged | VersionNotAdvanced.

(** [ValidateCatalogUpdateVersion]; both errors wrap [ErrConflict]. *)
Definition ValidateCatalogUpdateVersion (current expected desired : string)
  : option VersionError :=
  if negb (bool_decide (current = expected)) then Some VersionChanged else
  let current := if bool_decide (current = "") then "0" else current in
  match SetString current, SetString desired with
  | Some before, Some after =>
      if (before <? 0)%Z || (after <? 1)%Z || negb (after =? before + 1)%Z
      then Some VersionNotAdvanced else None
  | _, _ => Some VersionNotAdvanced
  end.

Definition nextResourceVersion (current : string) : string :=
  match SetString current with
  | Some v => if (v <? 1)%Z then "1" else bigString (v + 1)
  | None => "1"
  end.

(** ** Decimal texts *)

Lemma uint_text u : NilEmpty.uint_of_string (NilEmpty.string_of_uint u) = Some u.
Proof. apply NilEmpty.usu. Qed.

Lemma to_uint_text_nonempty n : NilEmpty.string_of_uint (N.to_uint n) ≠ "".
Proof.
  intros H. assert (N.to_uint n = Nil) as E.
  { pose proof (uint_text (N.to_uint n)) as Hu. rewrite H in Hu. by simplify_eq/=. }
  pose proof (DecimalN.Unsigned.of_to n) as Ho. rewrite E in Ho. cbn in Ho. subst n. done.
Qed.

Lemma uint_text_sign u c r :
  NilEmpty.string_of_uint u = String c r → c ≠ "+"%char ∧ c ≠ "-"%char.
Proof. destruct u; intros H; simpl in H; simplify_eq; done. Qed.

Lemma SetString_bigString z : SetString (bigString z) = Some z.
Proof.
  assert (∀ n, digits (NilEmpty.string_of_uint (N.to_uint n)) = Some (Z.of_N n)) as Hd.
  { intros n. unfold digits. rewrite bool_decide_eq_false_2 by apply to_uint_text_nonempty.
    rewrite uint_text. simpl. by rewrite DecimalN.Unsigned.of_to. }
  unfold bigString. destruct (Z.ltb_spec z 0); simpl.
  - rewrite Hd. simpl. f_equal. rewrite Z2N.id by lia. lia.
  - pose proof (Hd (Z.to_N z)) as Hz. rewrite Z2N.id in Hz by lia. revert Hz.
    destruct (NilEmpty.string_of_uint (N.to_uint (Z.to_N z))) as [|c r] eqn:E; [done|].
    apply uint_text_sign in E as [H1 H2]. simpl. repeat case_match; simplify_eq; done.
Qed.

(** The number a version stands for; the empty version is the literal zero. *)
Definition versionNumber (v : string) : option Z :=
  if bool_decide (v = "") then Some 0%Z else SetString v.

Lemma ValidateCatalogUpdateVersion_spec current expected desired :
  ValidateCatalogUpdateVersion current expected desired = None ↔
  current = expected ∧ ∃ b, versionNumber current = Some b ∧ (0 ≤ b)%Z ∧
  SetString desired = Some (b + 1)%Z.
Proof.
  unfold ValidateCatalogUpdateVersion, versionNumber.
  rewrite (bool_decide_decide (current = expected)).
  destruct (decide (current = expected)); simpl; [|naive_solver].
  assert (SetString (if bool_decide (current = "") then "0" else current) =
    if bool_decide (current = "") then Some 0%Z else SetString current) as ->.
  { by case_bool_decide. }
  destruct (if bool_decide _ then _ else _) as [b|]; [|naive_solver].
  destruct (SetString desired) as [a|]; [|naive_solver].
  destruct (Z.ltb_spec b 0), (Z.ltb_spec a 1), (Z.eqb_spec a (b + 1)); simpl;
    split; intros; split_hyps; simplify_eq; try done; try lia.
  split; [done|]. exists b. auto with lia.
Qed.

(** The next version is always another one. *)
Lemma nextResourceVersion_ne v : nextResourceVersion v ≠ v.
Proof.
  unfold nextResourceVersion. destruct (SetString v) as [n|] eqn:E.
  - destruct (Z.ltb_spec n 1); intros <-.
    + vm_compute in E. simplify_eq. lia.
    + rewrite SetString_bigString in E. simplify_eq. lia.
  - by intros <-.
Qed.

(** The version a writer read is no longer current after an accepted update. *)
Lemma validate_once current expected desired desired' :
  ValidateCatalogUpdateVersion current expected desired = None →
  ValidateCatalogUpdateVersion desired expected desired' ≠ None.
Proof.
  intros (<- & b & Hb & _ & Hd)%ValidateCatalogUpdateVersion_spec
    (-> & b' & Hb' & _ & _)%ValidateCatalogUpdateVersion_spec.
  unfold versionNumber in Hb. case_bool_decide; [by subst|]. rewrite Hb in Hd. simplify_eq. lia.
Qed.

(** A version admits exactly one successor. Every accepted update replaces
    the current version, which the writer must have read, by the next number,
    whatever the texts; the version the system itself assigns next is accepted
    exactly when the current one stands for a non-negative number (an unset
    version does); and no text is accepted after two different numbers. *)
Theorem version_advances_once current :
  (∀ expected desired, ValidateCatalogUpdateVersion current expected desired = None →
     expected = current ∧ ∃ b, versionNumber current = Some b ∧
     versionNumber desired = Some (b + 1)%Z) ∧
  (ValidateCatalogUpdateVersion current current (nextResourceVersion current) = None ↔
   ∃ b, versionNumber current = Some b ∧ (0 ≤ b)%Z) ∧
  (∀ other desired, ValidateCatalogUpdateVersion current current desired = None →
     ValidateCatalogUpdateVersion other other desired = None →
     versionNumber other = versionNumber current).
Proof.
  split_and!.
  - intros e d (-> & b & Hb & H0 & Hd)%ValidateCatalogUpdateVersion_spec. split; [done|].
    exists b. split; [done|]. unfold versionNumber.
    case_bool_decide; [by subst|done].
  - rewrite ValidateCatalogUpdateVersion_spec. split; [naive_solver|].
    intros (b & Hb & H0). split; [done|]. exists b. split_and!; [done|done|].
    unfold nextResourceVersion, versionNumber in *. case_bool_decide as E.
    + simplify_eq. done.
    + rewrite Hb. destruct (Z.ltb_spec b 1); [|apply SetString_bigString].
      by replace b with 0%Z by lia.
  - intros o d (_ & b & Hb & _ & Hd)%ValidateCatalogUpdateVersion_spec
      (_ & b' & Hb' & _ & Hd')%ValidateCatalogUpdateVersion_spec.
    rewrite Hb, Hb'. f_equal. rewrite Hd in Hd'. simplify_eq. lia.
Qed.

Lemma version_advances_once_witness :
  ValidateCatalogUpdateVersion "41" "41" "+042" = None ∧
  versionNumber "+042" = Some 42%Z ∧ nextResourceVersion "41" = "42".
Proof.
  assert (ValidateCatalogUpdateVersion "41" "41" "+042" = None) as H by reflexivity.
  destruct (version_advances_once "41") as [H1 _].
  destruct (H1 _ _ H) as (_ & b & Hb & Hd). vm_compute in Hb. injection Hb as <-.
  split; [exact H|]. split; [exact Hd|reflexivity].
Defined.
