(* ===== verification/Wiring.v ===== *)
(** * The controllers, wired

    [gitstore-controller-manager/cmd/controller/main.go] and
    [internal/categorytaxonomy/watch.go]: the runners of the four kinds, the
    relations their stores index, the work they owe one another, and the counts
    the category reconciler reads off the indexes. *)

From S2P Require Import Prelude WorkTypes DiskKeys DiskStore DiskSpec DiskBatch DiskPut DiskRefine.
From S2P Require Import DiskSystem DiskTheorems Cache Runner RunnerMirror RunnerTheorems ResourceVersion.
From S2P Require Import CategoryReconciler Reconcilers ProductReconciler.
Open Scope go_scope.

(** ** Updates of categories *)

Definition AcceptWatchUpdate (oldObj newObj : CategoryTaxonomy) : bool :=
  if negb (ct_Generation newObj =? ct_Generation oldObj)%Z
  then (ct_Generation oldObj <? ct_Generation newObj)%Z else
  match SetString (ct_ResourceVersion oldObj), SetString (ct_ResourceVersion newObj) with
  | Some oldVersion, Some newVersion => (oldVersion <=? newVersion)%Z
  | _, _ => true
  end.
Definition isSet {A} (o : option A) : bool := match o with Some _ => true | None => false end.
Definition ShouldEnqueueWatchUpdate (oldObj newObj : CategoryTaxonomy) : bool :=
  if (ct_Generation oldObj <? ct_Generation newObj)%Z then true else
  negb (isSet (ct_DeletionTimestamp oldObj)) && isSet (ct_DeletionTimestamp newObj) ||
  negb (bool_decide (foregroundFinalizer ∈ ct_Finalizers oldObj)) &&
  bool_decide (foregroundFinalizer ∈ ct_Finalizers newObj).

(** ** Runners *)

Definition relationIndex (kind namespace name : string) : string :=
  kind +:+ "/" +:+ namespace +:+ String NUL name.

Definition newDiskRunner {T} (kind : string) (key : T → WorkItemKey) (revision : T → string) : Runner T :=
  mkRunner T kind None None None key revision None None true.
Definition namespaceRunner : Runner NamespaceReconciler.Namespace :=
  newDiskRunner "Namespace" (λ n, mkKey "Namespace" "" (NamespaceReconciler.n_Name n))
    NamespaceReconciler.n_ResourceVersion.
Definition repositoryRunner : Runner RepositoryReconciler.Repository :=
  newDiskRunner "Repository"
    (λ r, mkKey "Repository" (RepositoryReconciler.r_Namespace r) (RepositoryReconciler.r_Name r))
    RepositoryReconciler.r_ResourceVersion.

Definition categoryKey (c : CategoryTaxonomy) : WorkItemKey :=
  mkKey "CategoryTaxonomy" (ct_Namespace c) (ct_Name c).
Definition categoryIndexes (c : CategoryTaxonomy) : list string :=
  if bool_decide (ct_ParentRefName c = "") then []
  else [relationIndex "parent" (ct_Namespace c) (ct_ParentRefName c)].
Definition categoryRelated (c : CategoryTaxonomy) : list WorkItemKey :=
  mkKey "ProductCategory" (ct_Namespace c) (ct_Name c) ::
  (if bool_decide (ct_ParentRefName c = "") then []
   else [mkKey "CategoryTaxonomy" (ct_Namespace c) (ct_ParentRefName c)]).
Definition categoryRelatedVersion (c : CategoryTaxonomy) : string :=
  ct_UID c +:+ "/" +:+ (if terminating c then "true" else "false").
Definition categoryRunner : Runner CategoryTaxonomy :=
  mkRunner CategoryTaxonomy "CategoryTaxonomy" (Some categoryIndexes) (Some categoryRelated)
    (Some categoryRelatedVersion) categoryKey ct_ResourceVersion
    (Some AcceptWatchUpdate) (Some ShouldEnqueueWatchUpdate) true.

Definition productKey (p : Product) : WorkItemKey := mkKey "Product" (p_Namespace p) (p_Name p).
Definition productIndexes (p : Product) : list string :=
  if bool_decide (p_CategoryRefName p = "") then []
  else [relationIndex "category" (p_Namespace p) (p_CategoryRefName p)].
Definition productRelated (p : Product) : list WorkItemKey :=
  if bool_decide (p_CategoryRefName p = "") then []
  else [mkKey "CategoryTaxonomy" (p_Namespace p) (p_CategoryRefName p)].
Definition productRunner : Runner Product :=
  mkRunner Product "Product" (Some productIndexes) (Some productRelated) None productKey p_ResourceVersion
    None None true.

(** ** Work for other kinds *)

Record Stores : Type := mkStores {
  t_Namespace : Disk;
  t_Repository : Disk;
  t_CategoryTaxonomy : Disk;
  t_Product : Disk;
}.
Section wiring.
Context {DC : DiskCodec}.

(** [related]: a category that changed is looked up by its products, any other
    owner is enqueued in its store. *)
Definition related (st : Stores) (key : WorkItemKey) : result Error unit * Stores :=
  if bool_decide (Kind key = "ProductCategory") then
    let (r, s) := RequestFanout (t_Product st) (relationIndex "category" (Namespace key) (Name key)) in
    (r, mkStores (t_Namespace st) (t_Repository st) (t_CategoryTaxonomy st) s) else
  if bool_decide (Kind key = "Namespace") then
    let (r, s) := DiskStore.Enqueue (t_Namespace st) key in
    (r, mkStores s (t_Repository st) (t_CategoryTaxonomy st) (t_Product st)) else
  if bool_decide (Kind key = "Repository") then
    let (r, s) := DiskStore.Enqueue (t_Repository st) key in
    (r, mkStores (t_Namespace st) s (t_CategoryTaxonomy st) (t_Product st)) else
  if bool_decide (Kind key = "CategoryTaxonomy") then
    let (r, s) := DiskStore.Enqueue (t_CategoryTaxonomy st) key in
    (r, mkStores (t_Namespace st) (t_Repository st) s (t_Product st)) else
  if bool_decide (Kind key = "Product") then
    let (r, s) := DiskStore.Enqueue (t_Product st) key in
    (r, mkStores (t_Namespace st) (t_Repository st) (t_CategoryTaxonomy st) s) else
  (Err (EWrap ("related kind " +:+ Kind key) (ESentinel ErrKindNotRegistered)), st).

(** [counter]: the members of a relation, from the store's index. *)
Definition counter {T} (s : Disk) (c : Cache T) (index namespace name : string) : result Error Z :=
  if negb (HasSynced c) || Recovering (c_recovery c) then Err (ESentinel ErrSnapshotInProgress) else
  let! count := IndexCount s (relationIndex index namespace name) in
  if (2 ^ 63 - 1 <? count)%Z then refuse "relation count exceeds status integer range" else Ok count.
End wiring.

(** ** Updates the API makes are accepted *)

(** A change of the specification advances the generation, any other one the
    resource version alone. *)
Lemma category_update_accepted old new :
  (ct_Generation old < ct_Generation new)%Z ∨
  (ct_Generation new = ct_Generation old ∧
   ct_ResourceVersion new = nextResourceVersion (ct_ResourceVersion old)) →
  AcceptWatchUpdate old new = true.
Proof.
  unfold AcceptWatchUpdate. intros [Hg|[Hg Hv]].
  - rewrite (proj2 (Z.eqb_neq _ _)) by lia. by apply Z.ltb_lt.
  - rewrite Hg, Z.eqb_refl. simpl. rewrite Hv. unfold nextResourceVersion.
    destruct (SetString (ct_ResourceVersion old)) as [v|]; [|done].
    destruct (Z.ltb_spec v 1).
    + change (SetString "1") with (Some 1%Z). apply Z.leb_le. lia.
    + rewrite SetString_bigString. apply Z.leb_le. lia.
Qed.

(** ** Counting by the index *)

Lemma relationIndex_inj kind ns ns' n n' :
  hasChar NUL ns = false → hasChar NUL ns' = false →
  relationIndex kind ns n = relationIndex kind ns' n' → ns = ns' ∧ n = n'.
Proof.
  unfold relationIndex. intros H1 H2 E. do 2 apply (inj (String.append _)) in E.
  assert (cut NUL (ns +:+ String NUL n) = Some (ns', n')) as E'.
  { rewrite E. by apply cut_app. }
  rewrite cut_app in E' by done. by injection E' as <- <-.
Qed.

Section counting.
Context {DC : DiskCodec} {DL : DiskCodecLaws} {J : Json Product}.
Hypothesis Hjson : jsonRoundTrips (T := Product).
Hypothesis Hstorable : projectionsStorable productRunner.
Variable position : string → nat.

(** A stored product that refers to the category. *)
Definition refersIn (s : Disk) (ns name : string) (l : string) : Prop :=
  ∃ v it, storedItem s l = Some it ∧ projection productRunner v = Ok it ∧
    p_Namespace v = ns ∧ p_CategoryRefName v = name.

Lemma member_refers it v ns name :
  projection productRunner v = Ok it → hasChar NUL (p_Namespace v) = false → hasChar NUL ns = false → name ≠ "" →
  member (encodeIndex (relationIndex "category" ns name)) it ↔ p_Namespace v = ns ∧ p_CategoryRefName v = name.
Proof.
  intros Hp Hv Hns Hn. unfold member. rewrite list_elem_of_fmap.
  assert (i_Indexes it = productIndexes v) as ->.
  { unfold projection in Hp. destruct (jsonMarshal v); [|done]. by injection Hp as <-. }
  unfold productIndexes. case_bool_decide as He.
  - split; [intros (? & _ & Hin); by apply elem_of_nil in Hin|]. intros [_ E]. congruence.
  - split.
    + intros (i & E & ->%list_elem_of_singleton). apply (inj encodeIndex) in E.
      apply relationIndex_inj in E as [-> ->]; done.
    + intros [-> ->]. eexists. split; [done|]. by apply list_elem_of_singleton.
Qed.

(** C4: the counts in a category's status are those of the mirror. In every
    state the runner of the products reaches, the counter the category
    reconciler is given answers with the number of stored products of the
    namespace that name the category, unless it does not fit the status, once
    the mirror is synced and as long as it is not being rebuilt. *)
Theorem counter_exact u ns name :
  run_reachable productRunner position u →
  HasSynced (u_cache u) = true → Recovering (c_recovery (u_cache u)) = false → readLock (u_disk u) = Ok tt →
  hasChar NUL ns = false → name ≠ "" → (len (relationIndex "category" ns name) ≤ 1024)%Z →
  ∃ X : gset string, (∀ l, l ∈ X ↔ refersIn (u_disk u) ns name l) ∧
    counter (u_disk u) (u_cache u) "category" ns name =
      if (2 ^ 63 - 1 <? Z.of_nat (size X))%Z then refuse "relation count exceeds status integer range"
      else Ok (Z.of_nat (size X)).
Proof.
  intros [a HI]%(run_reachable_inv productRunner Hjson Hstorable position) Hsync Hrec Hlock Hns Hname Hlen.
  pose proof (iv_repr _ _ (ri_inv _ _ _ _ HI)) as HR. simpl in HR.
  pose proof (ri_synced _ _ _ _ HI Hsync) as Ha. destruct (ri_mirror _ _ _ _ HI Ha) as (cursor & _ & _ & Hm).
  set (index := relationIndex "category" ns name) in *. set (G := gen a (a_active a)) in *.
  exists (dom (filter (λ kv : string * DiskItem, member (encodeIndex index) kv.2) (g_items G))). split.
  - intros l. rewrite elem_of_dom. unfold is_Some. setoid_rewrite map_lookup_filter_Some. simpl.
    unfold refersIn. rewrite (storedItem_in _ a l HR). unfold storedIn. rewrite (proj2 (Z.eqb_neq _ _) Ha). fold G.
    assert (∀ it, g_items G !! l = Some it → ∃ v, projection productRunner v = Ok it ∧ hasChar NUL (p_Namespace v) = false) as Hv.
    { intros it Hit. destruct (og_items _ _ _ (active_gen _ _ (rp_ok _ _ HR)) l it Hit) as [Hk Hl _ _].
      destruct (Hm _ _ Hk Hl) as (p & _ & Hx). fold G in Hx. rewrite Hit in Hx.
      destruct (stateAt productRunner (u_hist u) p (i_Key it)) as [v|]; [|done]. exists v. split; [done|].
      destruct (projection_fields productRunner Hjson v it Hx) as (Ek & _). rewrite Ek in Hl.
      by apply diskLogical_Ok in Hl as (_ & _ & _ & _ & ? & _). }
    split.
    + intros (it & Hit & Hmem). destruct (Hv it Hit) as (v & Hp & Hnul). exists v, it.
      destruct (proj1 (member_refers it v ns name Hp Hnul Hns Hname) Hmem). done.
    + intros (v & it & Hit & Hp & Ev1 & Ev2). exists it. split; [done|].
      apply (member_refers it v); [done|by rewrite Ev1|done|done|done].
  - unfold counter, IndexCount. fold index. rewrite Hsync, Hrec, Hlock. cbn [bind_result negb orb].
    rewrite (bool_decide_eq_false_2 (index = "")), (proj2 (Z.ltb_ge 1024 (len index))) by done. cbn [orb].
    rewrite (number_active _ a HR). cbn [bind_result]. rewrite (proj2 (Z.eqb_neq _ _) Ha).
    unfold number. rewrite indexCountKey, (active_count _ a HR) by done. cbn [bind_result genNum].
    by rewrite size_dom.
Qed.
End counting.
