(* ===== verification/ControllerExamples.v ===== *)
(** * Runs of the controllers

    The reconcilers' theorems at concrete resources, and the counter of the
    category reconciler at a mirror of one product. *)

From S2P Require Import Prelude WorkTypes DiskKeys DiskStore DiskSpec DiskSystem DiskTheorems DiskExamples.
From S2P Require Import Cache Runner RunnerMirror RunnerTheorems CategoryReconciler StatusConditions Reconcilers.
From S2P Require Import ReconcilerTheorems ProductReconciler Wiring.

(** ** A repository is provisioned *)

Module RepositoryRun.
Import RepositoryReconciler.

Definition repoKey : WorkItemKey := mkKey "Repository" "shop" "docs".
Definition admittedCond : Condition := mkCond "AdmissionAccepted" "TRUE" 1 5 "" "".
Definition repo : Repository :=
  mkRepository "u1" "shop" "docs" "standard" 1 "7" [] (mkStatus "7" 0 "" [Some admittedCond] None).
Definition answers (x : Repository) (t : Z) : Answers :=
  mkAnswers (λ _, Ok (Some x)) (Ok (mkStorage "/git/docs" "standard"))
    (λ s, Ok (StoragePath s +:+ " " +:+ StorageClass s)) (λ _, None) None (λ i, t + Z.of_nat i)%Z (λ _, repoKey).
Definition repoPatch : StatusPatch :=
  RepositorySettles.patchOf (a_clock (answers repo 100)) repo true None (Some "/git/docs standard").
Definition firstOut := Reconcile (answers repo 100) ∅ repoKey.

Lemma repository_settles_witness :
  firstOut.1 = ([CallEnsure "shop" "docs"; CallStatus repoPatch], Success) ∧
  ∃ calls' res' c'', Reconcile (answers (applied repo repoPatch "8") 500) firstOut.2 repoKey = (calls', res', c'') ∧
    (∀ p', CallStatus p' ∉ calls') ∧ calls' = [] ∧ res' = Success.
Proof.
  assert (firstOut.1 = ([CallEnsure "shop" "docs"; CallStatus repoPatch], Success)) as H1 by (vm_compute; reflexivity).
  split; [exact H1|].
  destruct (RepositorySettles.repository_settles (answers repo 100) (answers (applied repo repoPatch "8") 500) ∅ firstOut.2
    repoKey repo [CallEnsure "shop" "docs"; CallStatus repoPatch] Success repoPatch "8")
    as (calls' & res' & c'' & E & Hno & Hquiet).
  - reflexivity.
  - change (firstOut = ([CallEnsure "shop" "docs"; CallStatus repoPatch], Success, firstOut.2)).
    rewrite (surjective_pairing firstOut) at 1. rewrite H1. reflexivity.
  - right; left.
  - vm_compute. discriminate.
  - reflexivity.
  - reflexivity.
  - reflexivity.
  - exists calls', res', c''. destruct Hquiet as (-> & -> & _); [left|by eexists|vm_compute; reflexivity|].
    split; [exact E|]. split; [exact Hno|]. split; reflexivity.
Defined.
End RepositoryRun.

(** ** A product finds its category *)

Definition prodKey : WorkItemKey := mkKey "Product" "shop" "tea".
Definition teaP : Product :=
  mkProduct "u2" "shop" "tea" 1 "3" [] None "drinks" (mkStatus "3" 0 "" [Some RepositoryRun.admittedCond] None).
Definition drinks : CategoryTaxonomy :=
  mkCategory "u3" "shop" "drinks" 1 "1" [] None "" [] (mkStatus "1" 0 "" [] None).
Definition refText (o : option resolvedCategoryRef) : result Error string :=
  Ok (match o with Some ref => rc_Name ref +:+ " " +:+ rc_UID ref | None => "{}" end).
Definition noPath (_ : string) : result Error (list string) := Ok [].
Definition prodAnswers (x : Product) (t : Z) : Answers :=
  mkAnswers (λ _, Ok (Some x)) (λ k, if bool_decide (Name k = "drinks") then Ok (Some drinks) else Ok None)
    (λ _, None) None (λ i, t + Z.of_nat i)%Z.
Definition teaPatch : StatusPatch :=
  mkPatch "3" (Some 1%Z) None
    (Some (mergeCategoryConditions (a_clock (prodAnswers teaP 100)) teaP true true true)) (Some "drinks u3").


(** ** A mirror of one product *)

#[local] Instance ResourceStatus_eq_dec : EqDecision ResourceStatus.
Proof. solve_decision. Defined.
#[local] Instance Product_eq_dec : EqDecision Product.
Proof. solve_decision. Defined.
(** Of all products only this one is ever written. *)
#[local] Instance teaJson : Json Product := {|
  jsonMarshal v := if bool_decide (v = teaP) then Ok "{tea}" else Err (EOpaque "json");
  jsonUnmarshal data := if bool_decide (data = "{tea}") then Ok teaP else Err (EOpaque "json");
|}.
Definition teaItem : DiskItem :=
  mkItem (kP "tea") "3" "{tea}" [relationIndex "category" "shop" "drinks"]
    [mkKey "CategoryTaxonomy" "shop" "drinks"] "".
(** The codec of the store's examples, which also reads this item back. *)
#[local] Instance teaCodec : DiskCodec := {|
  marshalItem := exMarshalItem;
  unmarshalItem data := if bool_decide (data = exMarshalItem teaItem) then Some teaItem else exUnmarshalItem data;
  marshalSchedule := exMarshalSchedule;
  unmarshalSchedule _ := exUnmarshalSchedule;
  marshalFanout f := field (f_Generation f, f_After f);
  unmarshalFanout v := c ← unfield v; Some (mkFanout c.1 c.2);
  validJSON v := negb (bool_decide (v = ""));
  encodeIndex index := field index;
  decodeIndex v := unfield v;
  dumpSize ops := Z.of_nat (length ops);
|}.
#[local] Instance teaCodecLaws : DiskCodecLaws.
Proof.
  refine {| jsonText := id |}.
  - intros init st. cbn [unmarshalSchedule marshalSchedule teaCodec]. rewrite exUnmarshal_marshal. by destruct st.
  - intros x y E. by apply field_inj in E.
  - intros index. cbn [encodeIndex teaCodec]. apply exCodecLaws.
Defined.
Lemma tea_json : jsonRoundTrips (T := Product).
Proof.
  intros v data. cbn [jsonMarshal teaJson]. case_bool_decide as E; [|done]. intros [= <-]. subst v.
  vm_compute. reflexivity.
Qed.
Lemma tea_storable : projectionsStorable productRunner.
Proof.
  intros v it. unfold projection. cbn [jsonMarshal teaJson]. case_bool_decide as E; [|done]. subst v.
  intros [= <-] _. split; [vm_compute; reflexivity|by vm_compute].
Qed.

Definition teaPosition (cursor : string) : nat := if bool_decide (cursor = "c1") then 1 else 0.
Definition teaHist : list (Change (T := Product)) := [Upserted true teaP].
Definition teaOpen : Disk := okOr (OpenDiskStore ∅ "Product" exNow) noDisk.
Definition teaStarted : Disk := okOr (OpenDiskStore (s_db teaOpen) (s_kind teaOpen) exNow) noDisk.
Definition teaCache : Cache Product := (Cache.BeginRecovery Cache.New exNow).2.
Definition teaListing : Disk := afterLong (BeginSnapshot teaStarted).
Definition teaShown : Disk := (visitPage productRunner 1 [teaP] teaListing).2.
Definition teaMirrored : Disk := afterLong (FinishSnapshot 1 "c1" teaShown).
Definition teaSwept : Disk := afterLong (CollectGarbage teaMirrored).
Definition teaU : Run :=
  let '(s, c, p, rv) := consume productRunner teaSwept (Cache.MarkSynced teaCache) exNow "c1" 1 1
    (mkEvent Bookmark teaP "c1") in mkRun s c p rv teaHist.

Lemma tea_step :
  run_step productRunner teaPosition (mkRun teaSwept (Cache.MarkSynced teaCache) (PWatching 1) "c1" teaHist) teaU.
Proof.
  exact (rs_bookmark productRunner teaPosition teaSwept (Cache.MarkSynced teaCache) "c1" teaHist 1 teaP "c1" exNow eq_refl).
Qed.
Lemma tea_reachable : run_reachable productRunner teaPosition teaU.
Proof.
  exists "Product", exNow, teaOpen. split; [by vm_compute|]. split.
  { apply opens_eq. vm_compute. reflexivity. }
  eapply rtc_l; [apply (rs_server _ _ _ _ _ _ [] (Upserted true teaP))|].
  { by intros old new [= Ho]. }
  eapply rtc_l; [apply (rs_start _ _ teaOpen teaStarted _ _ _ teaHist exNow)|].
  { by vm_compute. }
  { apply opens_eq. vm_compute. reflexivity. }
  eapply rtc_l; [apply (rs_resume _ _ teaStarted teaStarted teaCache "" teaHist (Ok None))|].
  { vm_compute. reflexivity. }
  eapply rtc_l.
  { destruct (resultIs_eq (Z.eqb 1) (BeginSnapshot teaStarted)) as (g & <-%Z.eqb_eq & E); [vm_compute; reflexivity|].
    apply (rs_begin _ _ teaStarted teaListing teaCache "" teaHist (Ok 1%Z) "c1" E). vm_compute. lia. }
  eapply rtc_l.
  { apply (rs_visit _ _ teaListing teaShown teaCache "" teaHist 1 "c1" [] [teaP] (Ok tt)).
    apply injective_projections; [vm_compute|]; reflexivity. }
  eapply rtc_l.
  { destruct (resultIs_eq (λ _, true) (FinishSnapshot 1 "c1" teaShown)) as ([] & _ & E); [vm_compute; reflexivity|].
    eapply (rs_finish _ _ teaShown teaMirrored teaCache "" teaHist 1 "c1" [teaP] (Ok tt)); [|exact E].
    intros key. exists 1. split; [vm_compute; lia|]. unfold lastSeen, stateAt, replay, changeKey. simpl.
    rewrite filter_cons, filter_nil. by destruct (decide _). }
  eapply rtc_l.
  { destruct (resultIs_eq (λ _, true) (CollectGarbage teaMirrored)) as ([] & _ & E); [vm_compute; reflexivity|].
    apply (rs_collect _ _ teaMirrored teaSwept (Cache.MarkSynced teaCache) "c1" teaHist (Ok tt) E). }
  eapply rtc_l; [apply (rs_connect _ _ teaSwept (Cache.MarkSynced teaCache) "c1" teaHist exNow)|].
  exact (rtc_once _ _ tea_step).
Qed.

Example tea_count : counter (u_disk teaU) (u_cache teaU) "category" "shop" "drinks" = Ok 1%Z.
Proof. vm_compute. reflexivity. Qed.

Lemma counter_exact_witness :
  ∃ X : gset string, (∀ l, l ∈ X ↔ refersIn (u_disk teaU) "shop" "drinks" l) ∧
    counter (u_disk teaU) (u_cache teaU) "category" "shop" "drinks" =
      if (2 ^ 63 - 1 <? Z.of_nat (size X))%Z then refuse "relation count exceeds status integer range"
      else Ok (Z.of_nat (size X)).
Proof.
  apply (counter_exact tea_json tea_storable teaPosition teaU "shop" "drinks").
  - exact tea_reachable.
  - vm_compute. reflexivity.
  - vm_compute. reflexivity.
  - vm_compute. reflexivity.
  - vm_compute. reflexivity.
  - discriminate.
  - vm_compute. discriminate.
Defined.
