(* ===== verification/Entities.v ===== *)
(** * Stored entities

    The records of [gitstore-api/internal/datastore/entities.go], who owns them
    ([ownership.go]), and the canonical forms their rows are kept in
    ([namespace_contract.go], [repository_contract.go]). *)

From S2P Require Import Prelude ResourceVersion.

(** The fields every resource has. JSON documents are their text, an empty
    slice being the empty text; a nil map is [None]. *)
Record Meta : Type := mkMeta {
  m_APIVersion : string;
  m_Kind : string;
  m_UID : string;
  m_Name : string;
  m_Generation : Z;
  m_ResourceVersion : string;
  m_Revision : string;
  m_CreationTimestamp : Z;
  m_CreationActor : string;
  m_UpdateTimestamp : Z;
  m_UpdateActor : string;
  m_Labels : option (gmap string string);
  m_Annotations : option (gmap string string);
  m_OwnerReferences : string;
  m_Finalizers : list string;
  m_DeletionTimestamp : option Z;
  m_SourcePath : string;
  m_GitCommitSHA : string;
  m_GitRef : string;
  m_Spec : string;
  m_Body : string;
  m_Status : string;
}.
#[global] Instance Meta_eq_dec : EqDecision Meta.
Proof. solve_decision. Defined.

Definition setVersion (v : string) (m : Meta) : Meta :=
  mkMeta (m_APIVersion m) (m_Kind m) (m_UID m) (m_Name m) (m_Generation m) v (m_Revision m)
    (m_CreationTimestamp m) (m_CreationActor m) (m_UpdateTimestamp m) (m_UpdateActor m)
    (m_Labels m) (m_Annotations m) (m_OwnerReferences m) (m_Finalizers m) (m_DeletionTimestamp m)
    (m_SourcePath m) (m_GitCommitSHA m) (m_GitRef m) (m_Spec m) (m_Body m) (m_Status m).
Definition setGeneration (g : Z) (m : Meta) : Meta :=
  mkMeta (m_APIVersion m) (m_Kind m) (m_UID m) (m_Name m) g (m_ResourceVersion m) (m_Revision m)
    (m_CreationTimestamp m) (m_CreationActor m) (m_UpdateTimestamp m) (m_UpdateActor m)
    (m_Labels m) (m_Annotations m) (m_OwnerReferences m) (m_Finalizers m) (m_DeletionTimestamp m)
    (m_SourcePath m) (m_GitCommitSHA m) (m_GitRef m) (m_Spec m) (m_Body m) (m_Status m).
Definition setUID (u : string) (m : Meta) : Meta :=
  mkMeta (m_APIVersion m) (m_Kind m) u (m_Name m) (m_Generation m) (m_ResourceVersion m)
    (m_Revision m) (m_CreationTimestamp m) (m_CreationActor m) (m_UpdateTimestamp m)
    (m_UpdateActor m) (m_Labels m) (m_Annotations m) (m_OwnerReferences m) (m_Finalizers m)
    (m_DeletionTimestamp m) (m_SourcePath m) (m_GitCommitSHA m) (m_GitRef m) (m_Spec m)
    (m_Body m) (m_Status m).
Definition setStatus (s : string) (m : Meta) : Meta :=
  mkMeta (m_APIVersion m) (m_Kind m) (m_UID m) (m_Name m) (m_Generation m) (m_ResourceVersion m)
    (m_Revision m) (m_CreationTimestamp m) (m_CreationActor m) (m_UpdateTimestamp m)
    (m_UpdateActor m) (m_Labels m) (m_Annotations m) (m_OwnerReferences m) (m_Finalizers m)
    (m_DeletionTimestamp m) (m_SourcePath m) (m_GitCommitSHA m) (m_GitRef m) (m_Spec m)
    (m_Body m) s.
Definition setOwnerReferences (o : string) (m : Meta) : Meta :=
  mkMeta (m_APIVersion m) (m_Kind m) (m_UID m) (m_Name m) (m_Generation m) (m_ResourceVersion m)
    (m_Revision m) (m_CreationTimestamp m) (m_CreationActor m) (m_UpdateTimestamp m)
    (m_UpdateActor m) (m_Labels m) (m_Annotations m) o (m_Finalizers m)
    (m_DeletionTimestamp m) (m_SourcePath m) (m_GitCommitSHA m) (m_GitRef m) (m_Spec m)
    (m_Body m) (m_Status m).
Definition setDeletion (finalizers : list string) (at_ : option Z) (m : Meta) : Meta :=
  mkMeta (m_APIVersion m) (m_Kind m) (m_UID m) (m_Name m) (m_Generation m) (m_ResourceVersion m)
    (m_Revision m) (m_CreationTimestamp m) (m_CreationActor m) (m_UpdateTimestamp m)
    (m_UpdateActor m) (m_Labels m) (m_Annotations m) (m_OwnerReferences m) finalizers at_
    (m_SourcePath m) (m_GitCommitSHA m) (m_GitRef m) (m_Spec m) (m_Body m) (m_Status m).
Definition setUpdate (at_ : Z) (actor : string) (m : Meta) : Meta :=
  mkMeta (m_APIVersion m) (m_Kind m) (m_UID m) (m_Name m) (m_Generation m) (m_ResourceVersion m)
    (m_Revision m) (m_CreationTimestamp m) (m_CreationActor m) at_ actor (m_Labels m)
    (m_Annotations m) (m_OwnerReferences m) (m_Finalizers m) (m_DeletionTimestamp m)
    (m_SourcePath m) (m_GitCommitSHA m) (m_GitRef m) (m_Spec m) (m_Body m) (m_Status m).

(** The five catalogue kinds. Their structs share all fields but four: a
    category has a parent and a materialised path, a variant a SKU and the name
    of its product; the other kinds leave these empty. *)
Inductive CatalogKind : Type := KProduct | KFile | KCategoryTaxonomy | KCollection | KProductVariant.
#[global] Instance CatalogKind_eq_dec : EqDecision CatalogKind.
Proof. solve_decision. Defined.
Definition kindText (k : CatalogKind) : string :=
  match k with
  | KProduct => "Product"
  | KFile => "File"
  | KCategoryTaxonomy => "CategoryTaxonomy"
  | KCollection => "Collection"
  | KProductVariant => "ProductVariant"
  end.
Lemma kindText_inj k k' : kindText k = kindText k' → k = k'.
Proof. by destruct k, k'. Qed.
Record Resource : Type := mkResource {
  r_meta : Meta;
  r_Namespace : string;
  r_RepositoryID : string;
  r_ParentName : string;
  r_AncestorPath : string;
  r_SKU : string;
  r_ProductRefName : string;
}.
#[global] Instance Resource_eq_dec : EqDecision Resource.
Proof. solve_decision. Defined.
Definition r_UID (r : Resource) : string := m_UID (r_meta r).
Definition r_Name (r : Resource) : string := m_Name (r_meta r).
Definition r_ResourceVersion (r : Resource) : string := m_ResourceVersion (r_meta r).
Definition onMeta (f : Meta → Meta) (r : Resource) : Resource :=
  mkResource (f (r_meta r)) (r_Namespace r) (r_RepositoryID r) (r_ParentName r)
    (r_AncestorPath r) (r_SKU r) (r_ProductRefName r).

Record Namespace : Type := mkNamespace {
  n_meta : Meta;
  n_Title : string;
  n_Tier : string;
  n_ID : string;
}.
#[global] Instance Namespace_eq_dec : EqDecision Namespace.
Proof. solve_decision. Defined.
Definition onNamespaceMeta (f : Meta → Meta) (n : Namespace) : Namespace :=
  mkNamespace (f (n_meta n)) (n_Title n) (n_Tier n) (n_ID n).

Record Repository : Type := mkRepository {
  rp_meta : Meta;
  rp_Namespace : string;
  rp_RepositoryID : string;
  rp_DefaultBranch : string;
  rp_StorageClass : string;
  rp_MaxPackSizeBytes : Z;
  rp_MaxFileSizeBytes : Z;
  rp_ID : string;
  rp_NamespaceID : string;
}.
#[global] Instance Repository_eq_dec : EqDecision Repository.
Proof. solve_decision. Defined.
Definition onRepositoryMeta (f : Meta → Meta) (r : Repository) : Repository :=
  mkRepository (f (rp_meta r)) (rp_Namespace r) (rp_RepositoryID r) (rp_DefaultBranch r)
    (rp_StorageClass r) (rp_MaxPackSizeBytes r) (rp_MaxFileSizeBytes r) (rp_ID r)
    (rp_NamespaceID r).

Record NamespaceMapping : Type := mkMapping {
  mp_Namespace : string;
  mp_Name : string;
  mp_RepositoryID : string;
  mp_NamespaceID : string;
  mp_RepoID : string;
}.
#[global] Instance NamespaceMapping_eq_dec : EqDecision NamespaceMapping.
Proof. solve_decision. Defined.

Record OwnerReference : Type := mkOwnerRef {
  or_APIVersion : string;
  or_Kind : string;
  or_Name : string;
  or_UID : string;
  or_BlockOwnerDeletion : bool;
  or_RepositoryID : string;
}.

(** ** Ownership *)

Inductive OwnerKind : Type := OwnerKindUser | OwnerKindGroup | OwnerKindServiceAccount.

Definition OwnerAnnotationKey : string := "rbac.authorization.gitstore.dev/owner".

Definition EncodeOwnerSubject (kind : OwnerKind) (name : string) : string :=
  match kind with
  | OwnerKindGroup => "system:group:" +:+ name
  | OwnerKindServiceAccount => "system:serviceaccount:" +:+ name
  | OwnerKindUser => name
  end.

(** [strings.CutPrefix] *)
Fixpoint cutPrefix (p s : string) : option string :=
  match p, s with
  | EmptyString, _ => Some s
  | String c p, String d s => if bool_decide (c = d) then cutPrefix p s else None
  | String _ _, EmptyString => None
  end.

Definition DecodeOwnerSubject (raw : string) : OwnerKind * string :=
  match cutPrefix "system:group:" raw with
  | Some n => (OwnerKindGroup, n)
  | None => match cutPrefix "system:serviceaccount:" raw with
            | Some n => (OwnerKindServiceAccount, n)
            | None => (OwnerKindUser, raw)
            end
  end.

Definition effectiveOwnerSub (annotations : option (gmap string string)) (creationActor : string)
  : string :=
  match annotations ≫= (.!! OwnerAnnotationKey) with
  | Some v => if bool_decide (v = "") then creationActor else v
  | None => creationActor
  end.

Lemma cutPrefix_Some p : ∀ s n, cutPrefix p s = Some n → s = p +:+ n.
Proof.
  induction p as [|c p IH]; intros [|d s] n; simpl; try by intros; simplify_eq.
  case_bool_decide; [|done]. intros ->%IH. by subst.
Qed.
Lemma cutPrefix_app p s : cutPrefix p (p +:+ s) = Some s.
Proof. induction p as [|c p IH]; simpl; [done|]. by rewrite bool_decide_eq_true_2. Qed.

(** Who owns a resource survives its encoding. Decoding gives back the kind
    and the name, except for a user whose own name carries one of the two
    reserved prefixes, and only for such a user. *)
Theorem owner_subject_roundtrip kind name :
  DecodeOwnerSubject (EncodeOwnerSubject kind name) = (kind, name) ↔
  (kind = OwnerKindUser → ∀ n, name ≠ "system:group:" +:+ n ∧ name ≠ "system:serviceaccount:" +:+ n).
Proof.
  destruct kind; unfold DecodeOwnerSubject, EncodeOwnerSubject.
  - pose proof cutPrefix_Some as Hcut. split.
    + intros H _ n. split; intros ->; [|destruct (cutPrefix "system:group:" _); [done|]];
        by rewrite cutPrefix_app in H.
    + intros H. specialize (H eq_refl).
      destruct (cutPrefix "system:group:" name) as [n|] eqn:E1.
      { apply Hcut in E1. by destruct (H n). }
      destruct (cutPrefix "system:serviceaccount:" name) as [n|] eqn:E2; [|done].
      apply Hcut in E2. by destruct (H n).
  - rewrite cutPrefix_app. done.
  - assert (cutPrefix "system:group:" ("system:serviceaccount:" +:+ name) = None) as -> by done.
    by rewrite cutPrefix_app.
Qed.

(** ** Canonical rows *)

(** A JSON string literal without escapes. *)
Definition quoted (s : string) : string :=
  String (Ascii.ascii_of_nat 34) (s +:+ String (Ascii.ascii_of_nat 34) "").
Definition initialStatus : string :=
  "{" +:+ quoted "observedGeneration" +:+ ":0," +:+ quoted "conditions" +:+ ":[]}".
Definition ForegroundDeletionFinalizer : string := "gitstore.dev/foreground-deletion".

Definition validResourceVersion (v : string) : bool :=
  match SetString v with Some n => (0 <? n)%Z | None => false end.

(** The defaults of [NormalizeNamespaceContract] and [NormalizeRepositoryContract]
    that the two share. A nil and an empty finalizer list are the same list. *)
Definition normalizeMeta (uid : string) (m : Meta) : Meta :=
  let m := setUID uid m in
  let m := if (m_Generation m <? 1)%Z then setGeneration 1 m else m in
  let m := if validResourceVersion (m_ResourceVersion m) then m else setVersion "1" m in
  if bool_decide (m_Status m = "") then setStatus initialStatus m else m.

Definition NormalizeNamespaceContract (n : Namespace) : Namespace :=
  let uid := if bool_decide (m_UID (n_meta n) = "") then n_ID n else m_UID (n_meta n) in
  let id := if bool_decide (n_ID n = "") then uid else n_ID n in
  mkNamespace (normalizeMeta uid (n_meta n)) (n_Title n) (n_Tier n) id.

Definition NormalizeRepositoryContract (r : Repository) : Repository :=
  let uid := if bool_decide (m_UID (rp_meta r) = "") then rp_ID r else m_UID (rp_meta r) in
  let id := if bool_decide (rp_ID r = "") then uid else rp_ID r in
  let ns := if bool_decide (rp_Namespace r = "") then rp_NamespaceID r else rp_Namespace r in
  let nsid := if bool_decide (rp_NamespaceID r = "") then ns else rp_NamespaceID r in
  mkRepository (normalizeMeta uid (rp_meta r)) ns (rp_RepositoryID r) (rp_DefaultBranch r)
    (rp_StorageClass r) (rp_MaxPackSizeBytes r) (rp_MaxFileSizeBytes r) id nsid.

Definition NormalizeNamespaceMappingContract (m : NamespaceMapping) : NamespaceMapping :=
  let ns := if bool_decide (mp_Namespace m = "") then mp_NamespaceID m else mp_Namespace m in
  let nsid := if bool_decide (mp_NamespaceID m = "") then ns else mp_NamespaceID m in
  let rid := if bool_decide (mp_RepositoryID m = "") then mp_RepoID m else mp_RepositoryID m in
  let repo := if bool_decide (mp_RepoID m = "") then rid else mp_RepoID m in
  mkMapping ns (mp_Name m) rid nsid repo.

Definition advanceVersion (m : Meta) : Meta :=
  match SetString (m_ResourceVersion m) with
  | Some v => setVersion (bigString (v + 1)) m
  | None => m
  end.
Definition AdvanceNamespaceSpecVersion (n : Namespace) : Namespace :=
  let n := NormalizeNamespaceContract n in
  onNamespaceMeta (λ m, advanceVersion (setGeneration (m_Generation m + 1) m)) n.
Definition AdvanceNamespaceSystemVersion (n : Namespace) : Namespace :=
  onNamespaceMeta advanceVersion (NormalizeNamespaceContract n).
Definition AdvanceRepositorySpecVersion (r : Repository) : Repository :=
  let r := NormalizeRepositoryContract r in
  onRepositoryMeta (λ m, advanceVersion (setGeneration (m_Generation m + 1) m)) r.
Definition AdvanceRepositorySystemVersion (r : Repository) : Repository :=
  onRepositoryMeta advanceVersion (NormalizeRepositoryContract r).
