(* ===== verification/CdcConsumer.v ===== *)
(** * From rows to changes

    [gitstore-api/internal/datastore/scylla/namespace_cdc.go]: the consumer of a
    stream of the table of namespaces. A namespace is created in two writes: a
    row that is not committed, and the marker that commits it once it is listed.
    The consumer hides the first and publishes the second as the addition. *)

From S2P Require Import Prelude WatchJournal WatchCursor Materializer CdcSequencer Entities.

Section consumer.
(** Time UUIDs with [Bytes], [String] and [Time]; encoding/json on a namespace. *)
Context {U : Type} (uuidBytes uuidString : U → string) (uuidTime : U → Z).
Context (marshalNamespace : Namespace → string).

(** An image of a row: the namespace, and the marker [watch_committed], which
    rows from before it do not have. *)
Record Image : Type := mkImage { im_namespace : Namespace; im_watchCommitted : option bool }.
(** [namespaceCDCPostimage]: the namespace, whether it is committed, and whether
    the row is from before the marker. *)
Definition namespaceCDCPostimage (rows : list Image) : option Namespace * bool * bool :=
  match rows with
  | [] => (None, false, false)
  | row :: _ => (Some (im_namespace row), default true (im_watchCommitted row), bool_decide (im_watchCommitted row = None))
  end.

Inductive namespaceCDCDisposition : Type := namespaceCDCRegular | namespaceCDCSuppress | namespaceCDCPromotedAddition.
Definition namespaceCDCDispositionFor (before : option Namespace) (beforeCommitted : bool) (after : option Namespace)
    (afterCommitted : bool) : namespaceCDCDisposition :=
  match before, after with
  | _, Some _ => if negb afterCommitted then namespaceCDCSuppress
                 else match before with
                      | Some _ => if negb beforeCommitted then namespaceCDCPromotedAddition else namespaceCDCRegular
                      | None => namespaceCDCRegular
                      end
  | _, None => namespaceCDCRegular
  end.

(** The function [shouldPublish] of a request. *)
Inductive Gate : Type :=
| GateOpen
| GateNever
| GateAddition (n : Namespace) (legacy : bool)
| GateDeletion (n : Namespace) (committed : bool).
Definition marshalOptionalNamespace (n : option Namespace) : string := match n with Some n => marshalNamespace n | None => "" end.
Definition Consume (stream : string) (time : U) (preImage postImage : list Image) : Request U * Gate :=
  let '(before, beforeCommitted, _) := namespaceCDCPostimage preImage in
  let '(after, afterCommitted, afterLegacy) := namespaceCDCPostimage postImage in
  let disposition := namespaceCDCDispositionFor before beforeCommitted after afterCommitted in
  let before := match disposition with namespaceCDCPromotedAddition => None | _ => before end in
  let name := match after, before with
              | Some n, _ => m_Name (n_meta n)
              | None, Some n => m_Name (n_meta n)
              | None, None => ""
              end in
  let change := mkChange "Namespace" "" stream (uuidBytes time) (stream +:+ ":" +:+ uuidString time) name
                  (marshalOptionalNamespace before) (marshalOptionalNamespace after) (uuidTime time) in
  let gate := match disposition, before, after with
              | namespaceCDCSuppress, _, _ => GateNever
              | namespaceCDCRegular, None, Some n => GateAddition n afterLegacy
              | _, Some n, None => GateDeletion n beforeCommitted
              | _, _, _ => GateOpen
              end in
  (mkRequest change [] time stream false (match gate with GateOpen => false | _ => true end) 0, gate).

(** ** The gates *)

(** What the database answers: the row of a namespace with its marker, and
    whether it is listed; a query may fail. *)
Context (parseUUID : string → bool).
Context (commitRow : string → result WatchError (option (option bool))) (listed : Namespace → result WatchError bool).

Definition namespaceCDCMissingAdditionReady (legacy : bool) : result WatchError bool :=
  if legacy then Err (EText "legacy addition is ambiguous") else Ok false.
(** [exists] and [committed]. *)
Definition namespaceWatchCommitState (uid : string) : result WatchError (bool * bool) :=
  match commitRow uid with
  | Err err => Err (EWrapped "read Namespace CDC commit marker" err)
  | Ok None => Ok (false, false)
  | Ok (Some marker) => Ok (true, default true marker)
  end.
Definition namespaceCDCAdditionReady (n : Namespace) (legacy : bool) : result WatchError bool :=
  if negb (parseUUID (m_UID (n_meta n))) then Err (EText "parse Namespace CDC addition uid") else
  match namespaceWatchCommitState (m_UID (n_meta n)) with
  | Err err => Err err
  | Ok (false, _) => namespaceCDCMissingAdditionReady legacy
  | Ok (true, false) => Err (EText "creation is not committed")
  | Ok (true, true) =>
      match listed n with
      | Err err => Err (EWrapped "read Namespace CDC listing projection" err)
      | Ok true => Ok true
      | Ok false => Err (EText "listing projection is not committed")
      end
  end.
Definition namespaceCDCDeletionReady (n : Namespace) (committed : bool) : result WatchError bool :=
  if negb committed then Ok false else
  if negb (parseUUID (m_UID (n_meta n))) then Err (EText "parse Namespace CDC deletion uid") else
  match listed n with
  | Ok false => Ok true
  | Ok true => Err (EText "listing projection deletion is not committed")
  | Err err => Err (EWrapped "read Namespace CDC listing projection" err)
  end.
Definition shouldPublish (g : Gate) : result WatchError bool :=
  match g with
  | GateOpen => Ok true
  | GateNever => Ok false
  | GateAddition n legacy => namespaceCDCAdditionReady n legacy
  | GateDeletion n committed => namespaceCDCDeletionReady n committed
  end.
End consumer.

(** ** What watchers see of the table *)

Section mirror.
Context {U : Type} (uuidBytes uuidString : U → string) (uuidTime : U → Z) (marshalNamespace : Namespace → string).
Context (parseUUID : string → bool) (commitRow : string → result WatchError (option (option bool))).
Hypothesis marshal_nonempty : ∀ n, marshalNamespace n ≠ "".
Notation Consume := (Consume uuidBytes uuidString uuidTime marshalNamespace).

(** A write to the row of a name: the row after it, the stream and time of its
    record, and what the gate reads of the listing when the record is due. *)
Record RowWrite : Type := mkWrite {
  rw_name : string; rw_after : option Image; rw_stream : string; rw_time : U; rw_listed : Namespace → result WatchError bool;
}.
Notation Table := (gmap (string * string) Image).
Definition committedImage (i : Image) : bool := default true (im_watchCommitted i).
(** Only committed namespaces are public. *)
Definition publicDoc (i : Image) : option string := if committedImage i then Some (marshalNamespace (im_namespace i)) else None.
Definition publicRows (t : Table) : gmap (string * string) string := omap publicDoc t.
Definition rowBefore (t : Table) (h : RowWrite) : option Image := t !! ("", rw_name h).
Definition writeRow (t : Table) (h : RowWrite) : Table :=
  match rw_after h with Some i => <[("", rw_name h) := i]> t | None => delete ("", rw_name h) t end.
(** Rows hold their name, which is not empty; one is created without the marker set, and a marker
    that is set stays set. *)
Definition protocol (t : Table) (h : RowWrite) : Prop :=
  (∀ i, rw_after h = Some i → m_Name (n_meta (im_namespace i)) = rw_name h ∧ rw_name h ≠ "") ∧
  match rowBefore t h, rw_after h with
  | None, Some i => committedImage i = false
  | Some i, Some j => committedImage i = true → committedImage j = true
  | _, _ => True
  end.
Definition named (t : Table) : Prop := ∀ x i, t !! ("", x) = Some i → m_Name (n_meta (im_namespace i)) = x ∧ x ≠ "".

(** The changes that are published, if no gate fails. *)
Definition publish (t : Table) (h : RowWrite) : result WatchError (list Change) :=
  let '(r, g) := Consume (rw_stream h) (rw_time h) (option_list (rowBefore t h)) (option_list (rw_after h)) in
  match shouldPublish parseUUID commitRow (rw_listed h) g with
  | Ok true => Ok [sq_change r]
  | Ok false => Ok []
  | Err err => Err err
  end.
Fixpoint publishAll (t : Table) (hs : list RowWrite) : result WatchError (list Change) :=
  match hs with
  | [] => Ok []
  | h :: hs =>
      match publish t h with
      | Err err => Err err
      | Ok cs => match publishAll (writeRow t h) hs with Ok cs' => Ok (cs ++ cs') | Err err => Err err end
      end
  end.
Fixpoint protocolAll (t : Table) (hs : list RowWrite) : Prop :=
  match hs with [] => True | h :: hs => protocol t h ∧ protocolAll (writeRow t h) hs end.

Lemma publicRows_write t h :
  publicRows (writeRow t h) =
  match rw_after h ≫= publicDoc with Some d => <[("", rw_name h) := d]> (publicRows t) | None => delete ("", rw_name h) (publicRows t) end.
Proof.
  unfold publicRows, writeRow. destruct (rw_after h) as [i|]; simpl; [|by rewrite omap_delete].
  destruct (publicDoc i) as [d|] eqn:Ed; [by apply omap_insert_Some|by apply omap_insert_None].
Qed.
Lemma publicRows_lookup t h : publicRows t !! ("", rw_name h) = rowBefore t h ≫= publicDoc.
Proof. unfold publicRows, rowBefore. by rewrite lookup_omap. Qed.
Lemma named_write t h : named t → protocol t h → named (writeRow t h).
Proof.
  intros Hn [Hp _] x i. unfold writeRow. destruct (rw_after h) as [j|].
  - destruct (decide (rw_name h = x)) as [<-|Hne]; [rewrite lookup_insert_eq; intros [= <-]; by apply Hp|].
    rewrite lookup_insert_ne by congruence. apply Hn.
  - destruct (decide (rw_name h = x)) as [<-|Hne]; [by rewrite lookup_delete_eq|rewrite lookup_delete_ne by congruence; apply Hn].
Qed.

(** A write that is published carries the public rows around it; one that is
    not leaves them as they are. *)
Lemma publish_spec t h cs :
  named t → protocol t h → publish t h = Ok cs →
  (cs = [] ∧ publicRows (writeRow t h) = publicRows t) ∨
  ∃ c, cs = [c] ∧ ch_Before c = default "" (publicRows t !! rowKey c) ∧ changeRows (publicRows t) c = publicRows (writeRow t h).
Proof.
  intros Hn [Hp Ht] H. rewrite publicRows_write. unfold publish in H.
  assert ((rowBefore t h ≫= publicDoc) = None → delete ("", rw_name h) (publicRows t) = publicRows t) as Hdel.
  { intros E. apply delete_id. by rewrite publicRows_lookup. }
  pose proof (Hn (rw_name h)) as Hb. fold (rowBefore t h) in Hb. pose proof (publicRows_lookup t h) as Hl.
  unfold changeRows, rowKey. unfold publicDoc, committedImage in *.
  destruct (rowBefore t h) as [[b bm]|], (rw_after h) as [[a am]|]; simpl in *.
  - destruct (Hp _ eq_refl) as [Ea _]. simpl in Ea.
    destruct (default true am) eqn:Eam, (default true bm) eqn:Ebm; simpl in *;
      try (injection H as <-; right; eexists; split; [done|]; simpl; rewrite Ea, Hl; split; [done|]; by rewrite bool_decide_eq_false_2).
    + by specialize (Ht eq_refl).
    + left. injection H as <-. split; [done|]. by apply Hdel.
  - destruct (Hb _ eq_refl) as [Eb _]. simpl in Eb. unfold namespaceCDCDeletionReady in H.
    destruct (default true bm); simpl in *; [|left; injection H as <-; split; [done|by apply Hdel]].
    destruct (parseUUID _); [|done]. simpl in H. destruct (rw_listed h b) as [[]|]; [done| |done]. injection H as <-.
    right. eexists. split; [done|]. simpl. by rewrite Eb, Hl.
  - rewrite Ht in *. simpl in *. injection H as <-. left. split; [done|]. by apply Hdel.
  - injection H as <-. right. eexists. split; [done|]. simpl.
    assert (publicRows t !! ("", "") = None) as E0.
    { unfold publicRows. rewrite lookup_omap. destruct (t !! ("", "")) as [i|] eqn:Ei; [|done]. by destruct (Hn _ _ Ei). }
    rewrite E0. split; [done|]. rewrite Hdel by done. by apply delete_id.
Qed.

End mirror.

(** ** A life of two namespaces *)

Definition exMeta (name : string) : Meta :=
  mkMeta "v1" "Namespace" "u" name 1 "1" "" 0 "" 0 "" None None "" [] None "" "" "" "" "" "".
Definition exImage (name title : string) (committed : bool) : Image := mkImage (mkNamespace (exMeta name) title "" "") (Some committed).
Definition exMarshal (n : Namespace) : string := "{" +:+ m_Name (n_meta n) +:+ ":" +:+ n_Title n +:+ "}".
Definition exWrite (name : string) (after : option Image) (time : Z) : RowWrite := mkWrite name after "s" time (λ _, Ok false).
(** One is staged, committed, renamed; the other staged and rolled back. *)
Definition exWrites : list (RowWrite (U := Z)) :=
  [exWrite "shop" (Some (exImage "shop" "Shop" false)) 1; exWrite "gone" (Some (exImage "gone" "Gone" false)) 2;
   exWrite "shop" (Some (exImage "shop" "Shop" true)) 3; exWrite "gone" None 4;
   exWrite "shop" (Some (exImage "shop" "My shop" true)) 5]%Z.
Definition exPublished : list Change :=
  match publishAll (λ _, "") (λ _, "") (λ t, t) exMarshal (λ _, true) (λ _, Ok None) ∅ exWrites with Ok cs => cs | Err _ => [] end.

Example exPublished_types :
  (λ e, (ev_Type e, ev_Name e, ev_Payload e)) <$>
    classified (λ s, Some s) (λ s, s) (λ _, None) None 0 exPublished =
  [(ResourceWatchAdded, "shop", Some "{shop:Shop}"); (ResourceWatchModified, "shop", Some "{shop:My shop}")].
Proof. vm_compute. reflexivity. Qed.
