(* ===== verification/CdcCatalog.v ===== *)
(** * Changes of several rows

    [gitstore-api/internal/datastore/scylla/catalog_cdc.go] and
    [repository_cdc.go]: a record of a catalogue table may hold the images of
    several resources; the consumer pairs them by their UID. Repositories are
    announced once they are listed. *)

From stdpp Require Import sorting.
From S2P Require Import Prelude WatchJournal WatchCursor Materializer CdcSequencer Entities.

(** ** Catalogue rows *)

Section catalog.
Context {U : Type} (uuidBytes uuidString : U → string) (uuidTime : U → Z).

(** An image: what the consumer reads of it; a UID by its 16 bytes as a number,
    in the order of [bytes.Compare]. [cr_doc] is the rest of the row. *)
Record CatalogRow : Type := mkRow { cr_uid : Z; cr_namespace : string; cr_creation : Z; cr_name : string; cr_doc : string }.
Context (uidString : Z → string) (payload : CatalogRow → result WatchError string).

Record Pair : Type := mkPair { pr_before : option CatalogRow; pr_after : option CatalogRow; pr_envelope : CatalogRow }.
Inductive Side : Type := PreImage | PostImage.

(** One image of the loop over both sides; [None] is a discontinuity. *)
Definition addImage (side : Side) (images : gmap Z Pair) (row : CatalogRow) : option (gmap Z Pair) :=
  if bool_decide (cr_uid row = 0%Z) || bool_decide (cr_namespace row = "") then None else
  pr ← match images !! cr_uid row with
         | Some pr => Some pr
         | None => if bool_decide (size images = catalogCDCMaxRowsPerChange) then None else Some (mkPair None None row)
         end;
  if negb (bool_decide (cr_namespace (pr_envelope pr) = cr_namespace row)) ||
     negb (bool_decide (cr_creation (pr_envelope pr) = cr_creation row)) then None else
  match side with
  | PreImage => match pr_before pr with
                | Some _ => None
                | None => Some (<[cr_uid row := mkPair (Some row) (pr_after pr) (pr_envelope pr)]> images)
                end
  | PostImage => match pr_after pr with
                 | Some _ => None
                 | None => Some (<[cr_uid row := mkPair (pr_before pr) (Some row) row]> images)
                 end
  end.
Fixpoint addImages (side : Side) (images : gmap Z Pair) (rows : list CatalogRow) : option (gmap Z Pair) :=
  match rows with
  | [] => Some images
  | row :: rows => images ← addImage side images row; addImages side images rows
  end.

Definition payloadOf (row : option CatalogRow) : result WatchError string :=
  match row with Some row => payload row | None => Ok "" end.
(** The change of one resource; [several] tells whether the record has others. *)
Definition pairChange (kind stream : string) (time : U) (several : bool) (uid : Z) (pr : Pair) : result WatchError Change :=
  match payloadOf (pr_before pr) with
  | Err err => Err err
  | Ok before =>
      match payloadOf (pr_after pr) with
      | Err err => Err err
      | Ok after =>
          let key := stream +:+ ":" +:+ uuidString time in
          Ok (mkChange kind (cr_namespace (pr_envelope pr)) stream (uuidBytes time)
                (if several then key +:+ ":" +:+ uidString uid else key) (cr_name (pr_envelope pr)) before after (uuidTime time))
      end
  end.
Fixpoint collect {A B : Type} (f : A → result WatchError B) (l : list A) : result WatchError (list B) :=
  match l with
  | [] => Ok []
  | x :: l => match f x with
              | Err err => Err err
              | Ok y => match collect f l with Ok ys => Ok (y :: ys) | Err err => Err err end
              end
  end.
Definition catalogChanges (kind stream : string) (time : U) (pre post : list CatalogRow) : result WatchError (list Change) :=
  if (catalogCDCMaxRowsPerChange <? length pre) || (catalogCDCMaxRowsPerChange <? length post) then Err discontinuity else
  match addImages PreImage ∅ pre ≫= λ images, addImages PostImage images post with
  | None => Err discontinuity
  | Some images =>
      let ids := merge_sort Z.le (elements (dom images)) in
      collect (λ uid, match images !! uid with
                      | Some pr => pairChange kind stream time (1 <? length ids) uid pr
                      | None => Err discontinuity
                      end) ids
  end.
(** [catalogCDCConsumer.Consume]. *)
Definition catalogConsume (kind stream : string) (time : U) (pre post : list CatalogRow) : result WatchError (Request U) :=
  match catalogChanges kind stream time pre post with
  | Err err => Err err
  | Ok changes =>
      Ok (mkRequest (mkChange "" "" "" "" "" "" "" "" zeroTime) changes time stream (bool_decide (length changes = 0)) false 0)
  end.

(** ** What is paired *)

Definition rowOfUid (uid : Z) (rows : list CatalogRow) : option CatalogRow := head (filter (λ r, cr_uid r = uid) rows).
Definition pairOf (pre post : list CatalogRow) (uid : Z) : option Pair :=
  match rowOfUid uid pre, rowOfUid uid post with
  | None, None => None
  | Some b, None => Some (mkPair (Some b) None b)
  | b, Some a => Some (mkPair b (Some a) a)
  end.
Definition uids (rows : list CatalogRow) : list Z := cr_uid <$> rows.

Lemma rowOfUid_snoc uid rows r :
  rowOfUid uid (rows ++ [r]) =
  match rowOfUid uid rows with Some r' => Some r' | None => if decide (cr_uid r = uid) then Some r else None end.
Proof.
  unfold rowOfUid. rewrite filter_app, filter_cons, filter_nil.
  destruct (filter (λ r, cr_uid r = uid) rows); simpl; [by case_decide|done].
Qed.
Lemma rowOfUid_None uid rows : rowOfUid uid rows = None ↔ uid ∉ uids rows.
Proof.
  unfold rowOfUid, uids. induction rows as [|r rows IH]; [split; [intros _; apply not_elem_of_nil|done]|].
  rewrite filter_cons, fmap_cons, not_elem_of_cons. case_decide as E; simpl; [split; [done|intros [? _]; congruence]|].
  rewrite IH. split; [intros ?; split; [congruence|done]|by intros [_ ?]].
Qed.

Lemma addImage_pre pre images r images' :
  (∀ uid, images !! uid = pairOf pre [] uid) → NoDup (uids pre) → addImage PreImage images r = Some images' →
  (∀ uid, images' !! uid = pairOf (pre ++ [r]) [] uid) ∧ NoDup (uids (pre ++ [r])).
Proof.
  intros Hi Hnd H. unfold addImage in H. destruct (_ || _); [done|]. rewrite Hi in H.
  assert (rowOfUid (cr_uid r) pre = None ∧ images' = <[cr_uid r := mkPair (Some r) None r]> images) as [Hn ->].
  { unfold pairOf in H. simpl in H. destruct (rowOfUid (cr_uid r) pre) as [b|] eqn:Eb; simpl in H.
    - by destruct (_ || _) in H.
    - destruct (bool_decide _); [done|]. simpl in H. destruct (_ || _) in H; [done|]. by injection H as <-. }
  split.
  - intros uid. unfold pairOf. rewrite rowOfUid_snoc. destruct (decide (cr_uid r = uid)) as [<-|Hne].
    + by rewrite lookup_insert_eq, Hn.
    + rewrite lookup_insert_ne, Hi by done. unfold pairOf. by destruct (rowOfUid uid pre).
  - unfold uids in *. rewrite fmap_app. apply NoDup_app. split; [done|]. split; [|apply NoDup_singleton].
    apply rowOfUid_None in Hn. unfold uids in Hn. set_solver.
Qed.
Lemma addImage_post pre post images r images' :
  (∀ uid, images !! uid = pairOf pre post uid) → NoDup (uids post) → addImage PostImage images r = Some images' →
  (∀ uid, images' !! uid = pairOf pre (post ++ [r]) uid) ∧ NoDup (uids (post ++ [r])).
Proof.
  intros Hi Hnd H. unfold addImage in H. destruct (_ || _); [done|]. rewrite Hi in H.
  assert (rowOfUid (cr_uid r) post = None ∧ images' = <[cr_uid r := mkPair (rowOfUid (cr_uid r) pre) (Some r) r]> images) as [Hn ->].
  { unfold pairOf in H. destruct (rowOfUid (cr_uid r) pre) as [b|] eqn:Eb, (rowOfUid (cr_uid r) post) as [a|] eqn:Ea; simpl in H.
    - by destruct (_ || _) in H.
    - destruct (_ || _) in H; [done|]. by injection H as <-.
    - by destruct (_ || _) in H.
    - destruct (bool_decide _); [done|]. simpl in H. destruct (_ || _) in H; [done|]. by injection H as <-. }
  split.
  - intros uid. unfold pairOf. rewrite rowOfUid_snoc. destruct (decide (cr_uid r = uid)) as [<-|Hne].
    + rewrite lookup_insert_eq, Hn. by destruct (rowOfUid (cr_uid r) pre).
    + rewrite lookup_insert_ne, Hi by done. unfold pairOf. by destruct (rowOfUid uid post).
  - unfold uids in *. rewrite fmap_app. apply NoDup_app. split; [done|]. split; [|apply NoDup_singleton].
    apply rowOfUid_None in Hn. unfold uids in Hn. set_solver.
Qed.
Lemma addImages_pre rows pre images images' :
  (∀ uid, images !! uid = pairOf pre [] uid) → NoDup (uids pre) → addImages PreImage images rows = Some images' →
  (∀ uid, images' !! uid = pairOf (pre ++ rows) [] uid) ∧ NoDup (uids (pre ++ rows)).
Proof.
  revert pre images. induction rows as [|r rows IH]; intros pre images Hi Hnd H; simpl in H; [injection H as <-; by rewrite app_nil_r|].
  apply bind_Some in H as (i & Hi1 & H). destruct (addImage_pre _ _ _ _ Hi Hnd Hi1) as [H1 H2].
  rewrite (cons_middle r pre rows), app_assoc. by eapply IH.
Qed.
Lemma addImages_post rows pre post images images' :
  (∀ uid, images !! uid = pairOf pre post uid) → NoDup (uids post) → addImages PostImage images rows = Some images' →
  (∀ uid, images' !! uid = pairOf pre (post ++ rows) uid) ∧ NoDup (uids (post ++ rows)).
Proof.
  revert post images. induction rows as [|r rows IH]; intros post images Hi Hnd H; simpl in H; [injection H as <-; by rewrite app_nil_r|].
  apply bind_Some in H as (i & Hi1 & H). destruct (addImage_post _ _ _ _ _ Hi Hnd Hi1) as [H1 H2].
  rewrite (cons_middle r post rows), app_assoc. by eapply IH.
Qed.
Lemma collect_ext {A B : Type} (f g : A → result WatchError B) l : (∀ x, f x = g x) → collect f l = collect g l.
Proof. intros H. induction l as [|x l IH]; simpl; [done|]. by rewrite H, IH. Qed.

(** The changes of a record, from its images alone. *)
Definition pairedChanges (kind stream : string) (time : U) (pre post : list CatalogRow) : result WatchError (list Change) :=
  let ids := merge_sort Z.le (elements (list_to_set (uids pre ++ uids post) : gset Z)) in
  collect (λ uid, match pairOf pre post uid with
                  | Some pr => pairChange kind stream time (1 <? length ids) uid pr
                  | None => Err discontinuity
                  end) ids.
(** A record that is accepted has at most one image of a resource on each side,
    and its changes are those of the resources, by their UIDs: what the consumer
    builds row by row is what the images say. *)
Theorem catalogChanges_paired kind stream time pre post cs :
  catalogChanges kind stream time pre post = Ok cs →
  NoDup (uids pre) ∧ NoDup (uids post) ∧ length pre ≤ catalogCDCMaxRowsPerChange ∧ length post ≤ catalogCDCMaxRowsPerChange ∧
  pairedChanges kind stream time pre post = Ok cs.
Proof.
  unfold catalogChanges. destruct (_ || _) eqn:El; [done|]. apply orb_false_iff in El as [L1%Nat.ltb_ge L2%Nat.ltb_ge].
  destruct (addImages PreImage ∅ pre) as [i1|] eqn:E1; simpl; [|done].
  destruct (addImages PostImage i1 post) as [i2|] eqn:E2; [|done].
  apply (addImages_pre _ []) in E1 as [H1 N1]; [|intros uid; by rewrite lookup_empty|apply NoDup_nil_2].
  apply (addImages_post _ pre []) in E2 as [H2 N2]; [|done|apply NoDup_nil_2]. simpl in *.
  intros H. split_and!; [done..|]. rewrite <- H. unfold pairedChanges.
  assert (dom i2 = list_to_set (uids pre ++ uids post)) as <-.
  { apply set_eq. intros uid. rewrite elem_of_dom, H2, elem_of_list_to_set, elem_of_app. unfold pairOf.
    pose proof (rowOfUid_None uid pre). pose proof (rowOfUid_None uid post).
    destruct (rowOfUid uid pre), (rowOfUid uid post); split; try (intros; eauto; fail).
    all: intros ?; destruct (decide (uid ∈ uids pre)), (decide (uid ∈ uids post)); naive_solver. }
  apply collect_ext. intros uid. by rewrite H2.
Qed.
End catalog.

(** ** Repositories *)

Section repository.
Context {U : Type} (uuidBytes uuidString : U → string) (uuidTime : U → Z) (marshalRepository : Repository → string).

Definition marshalOptionalRepository (r : option Repository) : string := match r with Some r => marshalRepository r | None => "" end.
(** [repositoryCDCConsumer.Consume]: the request, and the repository whose
    addition has to be visible first. *)
Definition repositoryConsume (stream : string) (time : U) (before after : option Repository) : Request U * option Repository :=
  let '(name, namespace) := match after, before with
                            | Some r, _ => (m_Name (rp_meta r), rp_Namespace r)
                            | None, Some r => (m_Name (rp_meta r), rp_Namespace r)
                            | None, None => ("", "")
                            end in
  let gate := match before, after with None, Some r => Some r | _, _ => None end in
  (mkRequest (mkChange "Repository" namespace stream (uuidBytes time) (stream +:+ ":" +:+ uuidString time) name
                (marshalOptionalRepository before) (marshalOptionalRepository after) (uuidTime time))
     [] time stream false (bool_decide (is_Some gate)) 0, gate).

Record repositoryCDCVersion : Type := mkVersion { rv_Namespace : string; rv_CreationTimestamp : Z; rv_ResourceVersion : string }.
Definition repositoryCDCAdditionVisible (r : Repository) (readCurrent : result WatchError (option repositoryCDCVersion))
    (projectionVisible : result WatchError bool) : result WatchError bool :=
  match readCurrent with
  | Err err => Err err
  | Ok None => Ok false
  | Ok (Some current) =>
      if negb (bool_decide (rv_ResourceVersion current = m_ResourceVersion (rp_meta r))) ||
         negb (bool_decide (rv_Namespace current = rp_Namespace r)) ||
         negb (bool_decide (rv_CreationTimestamp current = m_CreationTimestamp (rp_meta r))) then Ok false else
      match projectionVisible with
      | Err err => Err err
      | Ok true => Ok true
      | Ok false => Err (EText "repository projection is not committed")
      end
  end.
(** An addition is announced only while its version is the current one and listed. *)
Theorem addition_visible r readCurrent projectionVisible :
  repositoryCDCAdditionVisible r readCurrent projectionVisible = Ok true ↔
  readCurrent = Ok (Some (mkVersion (rp_Namespace r) (m_CreationTimestamp (rp_meta r)) (m_ResourceVersion (rp_meta r)))) ∧
  projectionVisible = Ok true.
Proof.
  unfold repositoryCDCAdditionVisible. destruct readCurrent as [[[ns ct rv]|]|]; simpl; [|naive_solver..].
  repeat case_bool_decide; simpl; try naive_solver. subst. destruct projectionVisible as [[]|]; naive_solver.
Qed.
End repository.
