(* ===== verification/DeletionStatus.v ===== *)
(** * Deletion intents in status documents

    [HasDeletionIntent], [PreserveDeletionStatus] and
    [MergeInfrastructureStatus] of
    [gitstore-api/internal/datastore/namespace_contract.go]: a status document
    may carry an admitted intent to delete its resource, which later writers of
    the status must neither drop nor change. *)

From S2P Require Import Prelude Entities.

(** A JSON object with the raw texts of its members; a missing member reads as
    the empty text. *)
Notation Fields := (gmap string string).
Definition member (f : Fields) (k : string) : string := default "" (f !! k).

Inductive StatusError : Type := StatusDecode | StatusConflict.

(** What the code relies on [encoding/json] for: objects and lists of objects
    to and from raw members. [null] decodes to the empty object. *)
Record JSON : Type := mkJSON {
  toFields : string → option Fields;
  ofFields : Fields → string;
  toList : string → option (list Fields);
  ofList : list Fields → string;
}.

(** The documented round trip, and that no object or list has an empty text or
    the text [null]. *)
Record JSONLaws (J : JSON) : Prop := mkJSONLaws {
  fields_back : ∀ f, toFields J (ofFields J f) = Some f;
  list_back : ∀ l, toList J (ofList J l) = Some l;
  fields_text : ∀ f, ofFields J f ≠ "";
  list_text : ∀ l, ofList J l ≠ "";
}.

Section json.
Context (J : JSON).

Definition intentKey : string := "deletionIntent".
Definition pendingText : string := quoted "DeletionPending".
Definition trueText : string := quoted "True".

Definition HasDeletionIntent (status : string) : bool :=
  if bool_decide (status = "") then false else
  match toFields J status with
  | None => true
  | Some f => negb (bool_decide (member f intentKey = "")) &&
              negb (bool_decide (member f intentKey = "null"))
  end.

Definition isPending (c : Fields) : bool := bool_decide (member c "type" = pendingText).

(** The pending condition the previous status holds, kept true, or a fresh one. *)
Definition pendingOf (old : list Fields) : Fields :=
  match filter isPending old with
  | c :: _ => <["status" := trueText]> c
  | [] => {["type" := pendingText; "status" := trueText]}
  end.

Definition listOf (raw : string) : option (list Fields) :=
  if bool_decide (raw = "") then Some [] else toList J raw.

(** Decoding the members of a status that are lists of conditions; an absent
    or [null] member is the empty list. *)
Definition oldConditions (previous : Fields) : option (list Fields) :=
  listOf (member previous "conditions").

Definition PreserveDeletionStatus (previous updated : string) : result StatusError string :=
  match (if bool_decide (previous = "") then Some ∅ else toFields J previous) with
  | None => Err StatusDecode
  | Some fields =>
      match toFields J updated with
      | None => Err StatusDecode
      | Some next =>
          let intent := HasDeletionIntent previous in
          let merged := (if intent then delete intentKey next else next) ∪ fields in
          if negb intent then Ok (ofFields J merged) else
          match listOf (member merged "conditions"), oldConditions fields with
          | Some conditions, Some old =>
              let filtered := filter (λ c, isPending c = false) conditions in
              Ok (ofFields J
                (<["conditions" := ofList J (filtered ++ [pendingOf old])]> merged))
          | _, _ => Err StatusDecode
          end
      end
  end.

Definition identityKeys : list string := ["uid"; "repositoryID"; "path"; "ref"; "actor"].

(** The intent may move its expected commit or gain its removal receipt, once. *)
Definition intentMoves (old next : Fields) : bool :=
  forallb (λ k, bool_decide (member old k = member next k)) identityKeys &&
  negb (negb (bool_decide (member old "removalCommit" = "")) &&
        negb (bool_decide (member old "removalCommit" = quoted "")) &&
        (negb (bool_decide (member old "removalCommit" = member next "removalCommit")) ||
         negb (bool_decide (member old "expectedCommit" = member next "expectedCommit")))).

Definition MergeInfrastructureStatus (previous updated : string) : result StatusError string :=
  match PreserveDeletionStatus previous updated with
  | Err e => Err e
  | Ok merged =>
      if negb (HasDeletionIntent previous) || negb (HasDeletionIntent updated) then Ok merged else
      match toFields J previous, toFields J updated with
      | Some old, Some next =>
          match toFields J (member old intentKey), toFields J (member next intentKey) with
          | Some oldIntent, Some nextIntent =>
              if negb (intentMoves oldIntent nextIntent) then Err StatusConflict else
              match toFields J merged with
              | Some fields => Ok (ofFields J (<[intentKey := member next intentKey]> fields))
              | None => Err StatusDecode
              end
          | _, _ => Err StatusDecode
          end
      | _, _ => Err StatusDecode
      end
  end.

(** ** The intent is kept *)

Context (HJ : JSONLaws J).

Lemma HasDeletionIntent_fields f :
  HasDeletionIntent (ofFields J f) = true ↔ member f intentKey ≠ "" ∧ member f intentKey ≠ "null".
Proof using HJ.
  unfold HasDeletionIntent. rewrite bool_decide_eq_false_2 by apply (fields_text J HJ).
  rewrite (fields_back J HJ). rewrite andb_true_iff, !negb_true_iff, !bool_decide_eq_false. done.
Qed.

Lemma Preserve_keeps_fields previous updated s :
  PreserveDeletionStatus previous updated = Ok s → HasDeletionIntent previous = true →
  ∃ f g, toFields J previous = Some f ∧ s = ofFields J g ∧
    g !! intentKey = f !! intentKey ∧
    ∃ cs, toList J (member g "conditions") = Some cs ∧
      ∃ front old, cs = front ++ [pendingOf old] ∧ Forall (λ c, isPending c = false) front ∧
      oldConditions f = Some old.
Proof using HJ.
  unfold PreserveDeletionStatus. intros H Hi. rewrite Hi in H.
  assert (previous ≠ "") as Hp.
  { intros ->. unfold HasDeletionIntent in Hi. by rewrite bool_decide_eq_true_2 in Hi. }
  rewrite bool_decide_eq_false_2 in H by done.
  destruct (toFields J previous) as [f|]; [|done].
  destruct (toFields J updated) as [next|]; [|done]. simpl in H.
  destruct (listOf _) as [cs|] eqn:El; [|done].
  destruct (oldConditions f) as [old|] eqn:Eo; [|done]. injection H as <-.
  eexists f, _. split_and!; [done|done| |].
  - rewrite lookup_insert_ne by done. rewrite lookup_union_r; [done|apply lookup_delete_eq].
  - eexists. unfold member. rewrite lookup_insert_eq. simpl. rewrite (list_back J HJ).
    split; [done|]. eexists _, old. split_and!; [done| |done].
    apply Forall_forall. intros c Hc. by apply list_elem_of_filter in Hc as [? _].
Qed.

Lemma pendingOf_pending old :
  member (pendingOf old) "type" = pendingText ∧ member (pendingOf old) "status" = trueText.
Proof.
  unfold pendingOf. destruct (filter isPending old) as [|c l] eqn:E; [done|].
  assert (c ∈ filter isPending old) as Hc by (rewrite E; by left).
  apply list_elem_of_filter in Hc as [Hc _]. unfold isPending in Hc. 
  apply bool_decide_unpack in Hc. split; unfold member.
  - by rewrite lookup_insert_ne.
  - by rewrite lookup_insert_eq.
Qed.

(** An admitted deletion cannot be withdrawn or redirected by a status
    write. Whatever document a controller writes over a status that carries an
    intent, the outcome carries the same intent, byte for byte, and exactly one
    pending condition, which is true. A core lifecycle write keeps an intent
    too: either unchanged, or the one it supplies, of the same identity (object,
    repository, path, ref and actor), with the same commits once a removal
    receipt is recorded. *)
Theorem deletion_intent_kept previous updated :
  HasDeletionIntent previous = true →
  (∀ s, PreserveDeletionStatus previous updated = Ok s →
     HasDeletionIntent s = true ∧
     ∃ f g cs, toFields J previous = Some f ∧ toFields J s = Some g ∧
       member g intentKey = member f intentKey ∧
       toList J (member g "conditions") = Some cs ∧
       ∃ c, filter isPending cs = [c] ∧ member c "status" = trueText) ∧
  (∀ s, MergeInfrastructureStatus previous updated = Ok s →
     HasDeletionIntent s = true ∧
     ∃ f g, toFields J previous = Some f ∧ toFields J s = Some g ∧
       (member g intentKey = member f intentKey ∨
        ∃ old next, toFields J (member f intentKey) = Some old ∧
          toFields J (member g intentKey) = Some next ∧ intentMoves old next = true)).
Proof using HJ.
  intros Hi.
  assert (∀ f, toFields J previous = Some f →
    member f intentKey ≠ "" ∧ member f intentKey ≠ "null") as Hprev.
  { intros f Hf. unfold HasDeletionIntent in Hi. case_bool_decide; [done|]. rewrite Hf in Hi.
    by rewrite andb_true_iff, !negb_true_iff, !bool_decide_eq_false in Hi. }
  assert (∀ s, PreserveDeletionStatus previous updated = Ok s → HasDeletionIntent s = true ∧
    ∃ f g cs, toFields J previous = Some f ∧ toFields J s = Some g ∧
       member g intentKey = member f intentKey ∧
       toList J (member g "conditions") = Some cs ∧
       ∃ c, filter isPending cs = [c] ∧ member c "status" = trueText) as HP.
  { intros s Hs. destruct (Preserve_keeps_fields _ _ _ Hs Hi)
      as (f & g & Hf & -> & Hg & cs & Hcs & front & old & -> & Hfr & Ho).
    assert (member g intentKey = member f intentKey) as Em by (unfold member; by rewrite Hg).
    destruct (pendingOf_pending old) as [Ht Hst].
    split; [apply HasDeletionIntent_fields; rewrite Em; by apply Hprev|].
    exists f, g, (front ++ [pendingOf old]). rewrite (fields_back J HJ).
    split_and!; [done..|]. exists (pendingOf old). split; [|done].
    rewrite filter_app, filter_none.
    - simpl. rewrite filter_cons_True; [done|]. unfold isPending. by apply bool_decide_pack.
    - eapply Forall_impl; [done|]. simpl. intros c ->. by intros []. }
  split; [exact HP|]. intros s. unfold MergeInfrastructureStatus.
  destruct (PreserveDeletionStatus previous updated) as [merged|] eqn:Em; [|done].
  destruct (HP _ eq_refl) as (Hm & f & g & cs & Hf & Hg & Hfg & _).
  rewrite Hi. simpl. destruct (HasDeletionIntent updated) eqn:Hu; simpl.
  2:{ intros ?; simplify_eq. split; [done|]. exists f, g. split_and!; [done..|]. by left. }
  rewrite Hf. destruct (toFields J updated) as [next|] eqn:Hn; [|done].
  destruct (toFields J (member f intentKey)) as [oi|] eqn:Hoi; [|done].
  destruct (toFields J (member next intentKey)) as [ni|] eqn:Hni; [|done].
  destruct (intentMoves oi ni) eqn:Hmv; [|done]. simpl. rewrite Hg. intros ?; simplify_eq.
  assert (member (<[intentKey := member next intentKey]> g) intentKey = member next intentKey) as Hx.
  { unfold member at 1. by rewrite lookup_insert_eq. }
  split.
  - apply HasDeletionIntent_fields. rewrite Hx. unfold HasDeletionIntent in Hu.
    case_bool_decide; [done|]. rewrite Hn in Hu.
    by rewrite andb_true_iff, !negb_true_iff, !bool_decide_eq_false in Hu.
  - exists f, (<[intentKey := member next intentKey]> g). rewrite (fields_back J HJ).
    split_and!; [done..|]. right. exists oi, ni. by rewrite Hx.
Qed.
End json.

(** ** A concrete codec *)

Definition exJSON : JSON := mkJSON
  (λ s, bitRead s ≫= decode) (λ f, bitText (encode f))
  (λ s, bitRead s ≫= decode) (λ l, bitText (encode l)).
Lemma exJSON_laws : JSONLaws exJSON.
Proof.
  split; intros x; simpl; rewrite ?bitRead_bitText; cbn [mbind option_bind];
    rewrite ?decode_encode; try done; by destruct (encode x).
Qed.

Definition exIntent : string := "{}".
Definition exPrevious : string := ofFields exJSON {[intentKey := exIntent]}.
Definition exUpdated : string := ofFields exJSON {["observedGeneration" := "3"]}.

Lemma exPrevious_intent : HasDeletionIntent exJSON exPrevious = true.
Proof. apply (HasDeletionIntent_fields exJSON exJSON_laws). vm_compute. done. Qed.

Lemma exPreserve : ∃ s, PreserveDeletionStatus exJSON exPrevious exUpdated = Ok s.
Proof.
  unfold PreserveDeletionStatus. rewrite exPrevious_intent. unfold exPrevious, exUpdated.
  rewrite bool_decide_eq_false_2 by apply (fields_text exJSON exJSON_laws).
  rewrite !(fields_back exJSON exJSON_laws). eexists. reflexivity.
Qed.

Lemma deletion_intent_kept_witness :
  ∃ s, PreserveDeletionStatus exJSON exPrevious exUpdated = Ok s ∧
  HasDeletionIntent exJSON s = true.
Proof.
  destruct (deletion_intent_kept exJSON exJSON_laws exPrevious exUpdated exPrevious_intent) as [H _].
  destruct exPreserve as [s Hs]. exists s. split; [exact Hs|]. apply (H s Hs).
Defined.
