(* ===== verification/MemTable.v ===== *)
(** * Tables of the in-memory database

    What the datastore relies on [hashicorp/go-memdb] for, as an interface: a
    table holds rows by identifier and answers lookups through its declared
    indexes. The rows a table holds, [rows], appear in the laws only. *)

From S2P Require Import Prelude.

(** No two rows share a value of the index. *)
Definition uniqueOn {Row} (ix : Row → list string) (m : gmap (list string) Row) : Prop :=
  ∀ u v r s, m !! u = Some r → m !! v = Some s → ix r = ix s → u = v.

(** [rowId] is the value of the identifier index. An index is given by the
    values of its fields; [required] lists the fields of the mandatory indexes,
    which must not be empty for a row to be accepted. A unique index is only
    kept right by clients that insert no second row with the same value: the
    database itself does not check it. Fields that are empty are not indexed.
    [validRow] says that the row's identifier has the form its index asks for.
    Identifiers are compared as texts: UUIDs are taken in their canonical form.
    A lookup the database refuses, as one by a malformed identifier, answers
    like one that finds nothing, which is how the datastore reports it. *)
Class Table (Row : Type) (rowId : Row → list string) : Type := {
  table : Type;
  emptyTable : table;
  rows : table → gmap (list string) Row;
  firstId : table → list string → option Row;
  firstUnique : table → (Row → list string) → list string → option Row;
  getBy : table → (Row → list string) → list string → list Row;
  allRows : table → list Row;
  insertRow : (Row → list string) → table → Row → option table;
  validRow : Row → bool;
  deleteRow : table → Row → option table;

  rows_emptyTable : rows emptyTable = ∅;
  firstId_rows t u : firstId t u = rows t !! u;
  firstUnique_rows t ix key r :
    uniqueOn ix (rows t) → "" ∉ key →
    firstUnique t ix key = Some r ↔ ∃ u, rows t !! u = Some r ∧ ix r = key;
  firstUnique_empty t ix key : "" ∈ key → firstUnique t ix key = None;
  getBy_empty t ix key : "" ∈ key → getBy t ix key = [];
  getBy_rows t ix key r :
    "" ∉ key → r ∈ getBy t ix key ↔ ∃ u, rows t !! u = Some r ∧ ix r = key;
  allRows_rows t r : r ∈ allRows t ↔ ∃ u, rows t !! u = Some r;
  insertRow_rows required t r t' :
    insertRow required t r = Some t' →
    rows t' = <[rowId r := r]> (rows t) ∧ "" ∉ rowId r ∧ "" ∉ required r ∧ validRow r = true;
  deleteRow_rows t r t' : deleteRow t r = Some t' → rows t' = delete (rowId r) (rows t);
  insertRow_accepts required t r :
    "" ∉ rowId r → "" ∉ required r → validRow r = true → is_Some (insertRow required t r);
  deleteRow_accepts t r : rows t !! rowId r = Some r → is_Some (deleteRow t r);
}.
Arguments table {Row rowId} _.
Arguments emptyTable {Row rowId _}.
Arguments rows {Row rowId _} t.
Arguments firstId {Row rowId _} t u.
Arguments firstUnique {Row rowId _} t ix key.
Arguments getBy {Row rowId _} t ix key.
Arguments allRows {Row rowId _} t.
Arguments insertRow {Row rowId _} required t r.
Arguments deleteRow {Row rowId _} t r.
Arguments validRow {Row rowId _} r.

(** Every row sits under its own identifier. *)
Definition keyed {Row} (rowId : Row → list string) (m : gmap (list string) Row) : Prop :=
  ∀ u r, m !! u = Some r → rowId r = u.

Section laws.
Context {Row : Type} {rowId : Row → list string} `{T : !Table Row rowId}.
Implicit Types t : table T.

Lemma firstUnique_none t ix key :
  uniqueOn ix (rows t) → "" ∉ key → firstUnique t ix key = None →
  ∀ u r, rows t !! u = Some r → ix r ≠ key.
Proof.
  intros Hu Hk Hn u r Hr E. assert (firstUnique t ix key = Some r) as Hs.
  { apply firstUnique_rows; eauto. }
  congruence.
Qed.

Lemma firstUnique_found t ix key r :
  uniqueOn ix (rows t) → firstUnique t ix key = Some r →
  "" ∉ key ∧ ∃ u, rows t !! u = Some r ∧ ix r = key.
Proof.
  intros Hu H. destruct (decide ("" ∈ key)) as [He|He].
  - by rewrite firstUnique_empty in H.
  - split; [done|]. by apply firstUnique_rows.
Qed.

Lemma keyed_insert required t r t' :
  keyed rowId (rows t) → insertRow required t r = Some t' → keyed rowId (rows t').
Proof.
  intros Hk [-> _]%insertRow_rows u s. rewrite lookup_insert_Some. naive_solver.
Qed.
Lemma keyed_delete t r t' :
  keyed rowId (rows t) → deleteRow t r = Some t' → keyed rowId (rows t').
Proof. intros Hk ->%deleteRow_rows u s. rewrite lookup_delete_Some. naive_solver. Qed.

(** Inserting a row whose value no other row has keeps an index unique. *)
Lemma uniqueOn_insert required t r t' ix :
  uniqueOn ix (rows t) → insertRow required t r = Some t' →
  (∀ u s, rows t !! u = Some s → ix s = ix r → u = rowId r) → uniqueOn ix (rows t').
Proof.
  intros Hu [-> _]%insertRow_rows Hnew u v a b Ha Hb E.
  apply lookup_insert_Some in Ha as [[<- <-]|[? Ha]], Hb as [[<- <-]|[? Hb]].
  - done.
  - symmetry. by eapply Hnew.
  - by eapply Hnew.
  - by eapply Hu.
Qed.
Lemma uniqueOn_delete t r t' ix :
  uniqueOn ix (rows t) → deleteRow t r = Some t' → uniqueOn ix (rows t').
Proof.
  intros Hu ->%deleteRow_rows u v a b [_ Ha]%lookup_delete_Some [_ Hb]%lookup_delete_Some.
  by eapply Hu.
Qed.
End laws.

(** ** Tables as finite maps *)

Section map_table.
Context {Row : Type} (rowId : Row → list string) (valid : Row → bool).

Definition mapFind (m : gmap (list string) Row) (ix : Row → list string) (key : list string)
  : list Row :=
  if bool_decide ("" ∈ key) then [] else filter (λ r, ix r = key) (map_to_list m).*2.

Lemma elem_of_mapFind m ix key r :
  "" ∉ key → r ∈ mapFind m ix key ↔ ∃ u, m !! u = Some r ∧ ix r = key.
Proof.
  intros Hk. unfold mapFind. rewrite bool_decide_eq_false_2 by done.
  rewrite list_elem_of_filter, list_elem_of_fmap. split.
  - intros (Hix & [u r'] & -> & Hin%elem_of_map_to_list). eauto.
  - intros (u & Hu & Hix). split; [done|]. exists (u, r). split; [done|].
    by apply elem_of_map_to_list.
Qed.

Lemma head_mapFind m ix key r :
  uniqueOn ix m → "" ∉ key →
  head (mapFind m ix key) = Some r ↔ ∃ u, m !! u = Some r ∧ ix r = key.
Proof.
  intros Hu Hk. rewrite <- elem_of_mapFind by done. split.
  - intros H. destruct (mapFind m ix key); simplify_eq/=. by left.
  - intros Hr. destruct (mapFind m ix key) as [|s l] eqn:E; [by apply not_elem_of_nil in Hr|].
    assert (s ∈ mapFind m ix key) as Hs by (rewrite E; by left). rewrite <- E in Hr.
    apply elem_of_mapFind in Hs as (v & Hv & Es), Hr as (u & Hr & Er); [|done..].
    rewrite (Hu u v r s) in Hr; [|done|done|congruence]. simpl. congruence.
Qed.

Definition mapInsert (required : Row → list string) (m : gmap (list string) Row) (r : Row)
  : option (gmap (list string) Row) :=
  if bool_decide ("" ∈ rowId r ++ required r) || negb (valid r) then None
  else Some (<[rowId r := r]> m).

#[local] Obligation Tactic := idtac.
#[program] Definition mapTable : Table Row rowId := {|
  table := gmap (list string) Row;
  emptyTable := ∅;
  rows m := m;
  firstId m u := m !! u;
  firstUnique m ix key := head (mapFind m ix key);
  getBy := mapFind;
  allRows m := (map_to_list m).*2;
  insertRow := mapInsert;
  validRow := valid;
  deleteRow m r := Some (delete (rowId r) m);
|}.
Next Obligation. done. Qed.
Next Obligation. done. Qed.
Next Obligation. apply head_mapFind. Qed.
Next Obligation. intros m ix key H. unfold mapFind. by rewrite bool_decide_eq_true_2. Qed.
Next Obligation. intros m ix key H. unfold mapFind. by rewrite bool_decide_eq_true_2. Qed.
Next Obligation. apply elem_of_mapFind. Qed.
Next Obligation.
  intros m r. simpl. rewrite list_elem_of_fmap. split.
  - intros ([u r'] & -> & Hin%elem_of_map_to_list). eauto.
  - intros (u & Hu). exists (u, r). by rewrite elem_of_map_to_list.
Qed.
Next Obligation.
  intros required m r m'. unfold mapInsert. case_bool_decide as H; [done|].
  destruct (valid r) eqn:Hv; [|done]. intros ?; simplify_eq/=.
  rewrite elem_of_app in H. naive_solver.
Qed.
Next Obligation. intros m r m' H. by injection H as <-. Qed.
Next Obligation.
  intros required m r H1 H2 Hv. unfold mapInsert. rewrite Hv, bool_decide_eq_false_2; [by eexists|].
  rewrite elem_of_app. naive_solver.
Qed.
Next Obligation. intros m r _. by eexists. Qed.
End map_table.
