(* ===== verification/MemStore.v ===== *)
(** * The in-memory datastore: state, references and parents

    [memdbDatastore] of [gitstore-api/internal/datastore/memdb/backend.go] with
    the tables of [schema.go], the reverse owner-reference projections of
    [owner_references.go], and the lifecycle fences every write goes through. *)

From S2P Require Import Prelude ResourceVersion Entities DeletionStatus WatchJournal MemTable.

Inductive StoreError : Type :=
| SNotFound | SAlreadyExists | SInvalidArgument | SConflict
| SNamespaceNotActive | SNamespaceNotEmpty
| SInvalidCondition (* a file condition of an unsupported type or status *)
| SDecode    (* a stored document does not decode *)
| SDatabase. (* the database refuses a row *)
#[global] Instance StoreError_eq_dec : EqDecision StoreError.
Proof. solve_decision. Defined.

(** ** Rows and indexes *)

Definition resourceId (r : Resource) : list string := [r_UID r].
Definition namespaceId (n : Namespace) : list string := [m_UID (n_meta n)].
Definition repositoryRowId (r : Repository) : list string := [m_UID (rp_meta r)].
Definition mappingId (m : NamespaceMapping) : list string := [mp_Namespace m; mp_Name m].

Definition ixNameNamespace (r : Resource) : list string := [r_Namespace r; r_Name r].
Definition ixNamespace (r : Resource) : list string := [r_Namespace r].
Definition ixRepositoryID (r : Resource) : list string := [r_RepositoryID r].
Definition ixSKU (r : Resource) : list string := [r_Namespace r; r_SKU r].
Definition ixProductRef (r : Resource) : list string := [r_Namespace r; r_ProductRefName r].
Definition ixNamespaceName (n : Namespace) : list string := [m_Name (n_meta n)].
Definition ixRepositoryName (r : Repository) : list string := [rp_Namespace r; m_Name (rp_meta r)].
Definition ixRepositoryNamespace (r : Repository) : list string := [rp_Namespace r].
Definition ixMappingRepository (m : NamespaceMapping) : list string := [mp_RepositoryID m].

(** The mandatory indexes of [resourceTableSchema]; variants add two. *)
Definition required (k : CatalogKind) (r : Resource) : list string :=
  [r_Namespace r; r_Name r] ++
  match k with KProductVariant => [r_SKU r; r_ProductRefName r] | _ => [] end.

(** [ownerReferenceProjection] *)
Record OwnerProjection : Type := mkProjection {
  op_ID : string;
  op_Namespace : string;
  op_RepositoryID : string;
  op_OwnerUID : string;
  op_BlockKey : string;
  op_DependentUID : string;
  op_DependentKind : string;
  op_Name : string;
  op_ResourceVersion : string;
}.
Definition projectionRowId (p : OwnerProjection) : list string := [op_ID p].
Definition ixDependent (p : OwnerProjection) : list string := [op_DependentKind p; op_DependentUID p].
Definition ixOwnerBlock (p : OwnerProjection) : list string :=
  [op_Namespace p; op_RepositoryID p; op_OwnerUID p; op_BlockKey p].
Definition ixOwnerProduct (p : OwnerProjection) : list string :=
  [op_Namespace p; op_RepositoryID p; op_OwnerUID p; op_DependentKind p; op_BlockKey p].
Definition requiredProjection (p : OwnerProjection) : list string :=
  ixDependent p ++ ixOwnerBlock p.

Definition nul : string := String (Ascii.ascii_of_nat 0) "".
Definition projectionID (namespace repositoryID ownerUID dependentKind dependentUID : string)
  : string :=
  namespace +:+ nul +:+ repositoryID +:+ nul +:+ ownerUID +:+ nul +:+ dependentKind +:+ nul +:+
  dependentUID.
Definition blockKey (block : bool) : string := if block then "1" else "0".

(** [categoryAncestorRow] *)
Record AncestorRow : Type := mkAncestor {
  ar_ID : string;
  ar_Namespace : string;
  ar_Ancestor : string;
  ar_Depth : Z;
  ar_Descendant : string;
  ar_DescendantUID : string;
  ar_ResourceVersion : string;
}.
Definition ancestorRowId (a : AncestorRow) : list string := [ar_ID a].

(** Left fold with failure. *)
Fixpoint foldRes {E A B} (f : A → B → result E A) (a : A) (l : list B) : result E A :=
  match l with
  | [] => Ok a
  | b :: l => match f a b with Ok a => foldRes f a l | Err e => Err e end
  end.

(** What the datastore uses of its libraries: the JSON codecs of the entities
    and documents, and [uuid.Parse]. *)
Record Codecs : Type := mkCodecs {
  statusJSON : JSON;
  marshalResource : Resource → option string;
  marshalNamespace : Namespace → option string;
  marshalRepository : Repository → option string;
  decodeRefs : string → option (list OwnerReference);
  parsesUUID : string → bool;
}.

Section store.
Context `{TR : !Table Resource resourceId} `{TN : !Table Namespace namespaceId}.
Context `{TG : !Table Repository repositoryRowId} `{TM : !Table NamespaceMapping mappingId}.
Context `{TO : !Table OwnerProjection projectionRowId} `{TA : !Table AncestorRow ancestorRowId}.
Context (C : Codecs).

Record Store : Type := mkStore {
  st_catalog : CatalogKind → table TR;
  st_namespaces : table TN;
  st_repositories : table TG;
  st_deleted : table TG;
  st_mappings : table TM;
  st_owners : table TO;
  st_ancestors : table TA;
  st_journal : Journal;
  st_categoryProducts : gmap string (gset string);
  st_productCategories : gmap string (list string);
}.

Definition setCatalog (k : CatalogKind) (t : table TR) (st : Store) : Store :=
  mkStore (λ k', if decide (k' = k) then t else st_catalog st k') (st_namespaces st)
    (st_repositories st) (st_deleted st) (st_mappings st) (st_owners st) (st_ancestors st)
    (st_journal st) (st_categoryProducts st) (st_productCategories st).
Definition setNamespaces (t : table TN) (st : Store) : Store :=
  mkStore (st_catalog st) t (st_repositories st) (st_deleted st) (st_mappings st) (st_owners st)
    (st_ancestors st) (st_journal st) (st_categoryProducts st) (st_productCategories st).
Definition setRepositories (t d : table TG) (st : Store) : Store :=
  mkStore (st_catalog st) (st_namespaces st) t d (st_mappings st) (st_owners st)
    (st_ancestors st) (st_journal st) (st_categoryProducts st) (st_productCategories st).
Definition setMappings (t : table TM) (st : Store) : Store :=
  mkStore (st_catalog st) (st_namespaces st) (st_repositories st) (st_deleted st) t (st_owners st)
    (st_ancestors st) (st_journal st) (st_categoryProducts st) (st_productCategories st).
Definition setOwners (t : table TO) (st : Store) : Store :=
  mkStore (st_catalog st) (st_namespaces st) (st_repositories st) (st_deleted st) (st_mappings st)
    t (st_ancestors st) (st_journal st) (st_categoryProducts st) (st_productCategories st).
Definition setAncestors (t : table TA) (st : Store) : Store :=
  mkStore (st_catalog st) (st_namespaces st) (st_repositories st) (st_deleted st) (st_mappings st)
    (st_owners st) t (st_journal st) (st_categoryProducts st) (st_productCategories st).
Definition setJournal (j : Journal) (st : Store) : Store :=
  mkStore (st_catalog st) (st_namespaces st) (st_repositories st) (st_deleted st) (st_mappings st)
    (st_owners st) (st_ancestors st) j (st_categoryProducts st) (st_productCategories st).
Definition setMembership (cp : gmap string (gset string)) (pc : gmap string (list string))
    (st : Store) : Store :=
  mkStore (st_catalog st) (st_namespaces st) (st_repositories st) (st_deleted st) (st_mappings st)
    (st_owners st) (st_ancestors st) (st_journal st) cp pc.

(** [New] *)
Definition emptyStore (epoch : string) (retention : list Z) : Store :=
  mkStore (λ _, emptyTable) emptyTable emptyTable emptyTable emptyTable emptyTable emptyTable
    (newJournal epoch retention) ∅ ∅.

(** ** Owner references *)

Definition deleteOwnerReferenceProjections (t : table TO) (kind uid : string)
  : result StoreError (table TO) :=
  foldRes (λ t p, match deleteRow t p with Some t => Ok t | None => Err SDatabase end) t
    (getBy t ixDependent [kind; uid]).

(** The projection of one owner reference of a dependent. *)
Definition projectionOf (kind : string) (r : Resource) (ref : OwnerReference) : OwnerProjection :=
  let repo := if bool_decide (or_RepositoryID ref = "") then r_RepositoryID r
              else or_RepositoryID ref in
  mkProjection (projectionID (r_Namespace r) repo (or_UID ref) kind (r_UID r)) (r_Namespace r) repo
    (or_UID ref) (blockKey (or_BlockOwnerDeletion ref)) (r_UID r) kind (r_Name r)
    (r_ResourceVersion r).

Definition syncOwnerReferenceProjections (t : table TO) (kind : string) (r : Resource)
  : result StoreError (table TO) :=
  match deleteOwnerReferenceProjections t kind (r_UID r) with
  | Err e => Err e
  | Ok t =>
      if bool_decide (m_OwnerReferences (r_meta r) = "") then Ok t else
      match decodeRefs C (m_OwnerReferences (r_meta r)) with
      | None => Err SDecode
      | Some refs =>
          foldRes (λ t ref,
            if bool_decide (or_UID ref = "") then Ok t else
            match insertRow requiredProjection t (projectionOf kind r ref) with
            | Some t => Ok t
            | None => Err SDatabase
            end) t refs
      end
  end.

Record OwnerReferenceScope : Type := mkScope { sc_Namespace : string; sc_RepositoryID : string }.
Record OwnerDependent : Type := mkDependent {
  dp_UID : string;
  dp_Kind : string;
  dp_Name : string;
  dp_ResourceVersion : string;
}.

Definition HasBlockingOwnerDependents (st : Store) (scope : OwnerReferenceScope) (ownerUID : string)
  : bool :=
  match getBy (st_owners st) ixOwnerBlock
          [sc_Namespace scope; sc_RepositoryID scope; ownerUID; "1"] with
  | [] => false
  | _ => true
  end.

(** ** Fences *)

Definition deletionRequested (m : Meta) : bool :=
  match m_DeletionTimestamp m with Some _ => true | None => false end ||
  HasDeletionIntent (statusJSON C) (m_Status m).

Definition namespaceFence (st : Store) (namespace : string) : option StoreError :=
  match firstUnique (st_namespaces st) ixNamespaceName [namespace] with
  | Some ns => if deletionRequested (n_meta ns) then Some SNamespaceNotActive else None
  | None => None
  end.

(** An absent namespace is let through; so is a repository identifier that is
    not a UUID. *)
Definition catalogParentsActive (st : Store) (namespace repositoryID : string) : option StoreError :=
  match namespaceFence st namespace with
  | Some e => Some e
  | None =>
      if bool_decide (repositoryID = "") then None else
      if negb (parsesUUID C repositoryID) then None else
      match firstId (st_deleted st) [repositoryID] with
      | Some _ => Some SNotFound
      | None =>
          match firstId (st_repositories st) [repositoryID] with
          | None => Some SNotFound
          | Some r => if negb (bool_decide (rp_Namespace r = namespace)) ||
                         deletionRequested (rp_meta r) then Some SConflict else None
          end
      end
  end.

(** The tables [hasCatalogResources] looks through, in order. *)
Definition catalogTables : list CatalogKind :=
  [KProduct; KProductVariant; KCategoryTaxonomy; KCollection; KFile].
Definition hasCatalogResources (st : Store) (repositoryID : string) : bool :=
  existsb (λ k, match getBy (st_catalog st k) ixRepositoryID [repositoryID] with
                | [] => false | _ => true end) catalogTables.

Definition IsNamespaceSystemRepository (n : Namespace) (r : Repository) : bool :=
  negb (bool_decide (m_Name (n_meta n) = "")) &&
  bool_decide (rp_Namespace r = m_Name (n_meta n)) &&
  bool_decide (m_Name (rp_meta r) = "gitstore-system") &&
  negb (bool_decide (m_UID (rp_meta r) = "")) &&
  bool_decide (rp_RepositoryID r = m_UID (rp_meta r)) &&
  bool_decide (m_SourcePath (rp_meta r) = "").

Definition DeletionFinalizersClear (finalizers : list string) (owned : string) : bool :=
  forallb (λ f, bool_decide (f = owned)) finalizers.

(** [None] lets the namespace be deleted: it is empty, or holds only its system
    repository, itself empty. *)
Definition namespaceDeletionCheck (st : Store) (n : Namespace) : option StoreError :=
  match getBy (st_repositories st) ixRepositoryNamespace [m_Name (n_meta n)] with
  | [] => None
  | r :: rest =>
      if negb (bool_decide (length rest = 0)) || negb (IsNamespaceSystemRepository n r)
      then Some SNamespaceNotEmpty else
      if hasCatalogResources st (m_UID (rp_meta r)) then Some SNamespaceNotEmpty else None
  end.

(** ** Publication *)

(** Products, files and categories are published; the payload is the committed
    row for an addition or a change. *)
Definition publishes (k : CatalogKind) : bool :=
  match k with KProduct | KFile | KCategoryTaxonomy => true | _ => false end.
Definition publish (now : Z) (ty : ResourceWatchEventType) (k : CatalogKind) (r : Resource)
    (previous : Labels) (st : Store) : Store :=
  if negb (publishes k) then st else
  let payload := match ty with
    | ResourceWatchAdded | ResourceWatchModified => marshalResource C r
    | _ => None end in
  setJournal (recordCommitted (st_journal st) now ty (kindText k) (r_Namespace r) (r_Name r)
    (r_UID r) (m_Labels (r_meta r)) previous payload) st.
Definition recordCommittedNamespace (now : Z) (ty : ResourceWatchEventType) (n : Namespace)
    (previous : Labels) (st : Store) : Store :=
  let payload := match ty with
    | ResourceWatchAdded | ResourceWatchModified =>
        marshalNamespace C (NormalizeNamespaceContract n)
    | _ => None end in
  setJournal (recordCommitted (st_journal st) now ty "Namespace" "" (m_Name (n_meta n))
    (m_UID (n_meta n)) (m_Labels (n_meta n)) previous payload) st.
Definition recordCommittedRepository (now : Z) (ty : ResourceWatchEventType) (r : Repository)
    (previous : Labels) (st : Store) : Store :=
  let payload := match ty with
    | ResourceWatchAdded | ResourceWatchModified =>
        marshalRepository C (NormalizeRepositoryContract r)
    | _ => None end in
  setJournal (recordCommitted (st_journal st) now ty "Repository" (rp_Namespace r)
    (m_Name (rp_meta r)) (m_UID (rp_meta r)) (m_Labels (rp_meta r)) previous payload) st.

(** A transaction that fails is aborted and leaves the store as it was. *)
Definition txn {A} (st : Store) (r : result StoreError (Store * A)) : Store * result StoreError A :=
  match r with
  | Ok (st', a) => (st', Ok a)
  | Err e => (st, Err e)
  end.
Definition orFail {A} (o : option A) (e : StoreError) : result StoreError A :=
  match o with Some a => Ok a | None => Err e end.
Definition check (o : option StoreError) : result StoreError unit :=
  match o with Some e => Err e | None => Ok () end.
Definition guard_ (b : bool) (e : StoreError) : result StoreError unit :=
  if b then Ok () else Err e.
End store.
