(* ===== verification/MemCatalog.v ===== *)
(** * The in-memory datastore: catalogue resources

    The operations on products, files, variants, categories and collections of
    [gitstore-api/internal/datastore/memdb/backend.go], and the category
    deletion protocol of [owner_references.go]. *)

From S2P Require Import Prelude ResourceVersion Entities DeletionStatus WatchJournal MemTable.
From S2P Require Import MemStore Pagination.
#[local] Open Scope go_scope.

(** ** Status patches *)

(** [catalog.Condition], and the status documents of products, files and
    categories, which have the same four members. *)
Record CatalogCondition : Type := mkCatCond {
  cc_Type : string;
  cc_Status : string;
  cc_ObservedGeneration : Z;
  cc_LastTransitionTime : Z;
  cc_Reason : string;
  cc_Message : string;
}.
Record StatusDoc : Type := mkDoc {
  sd_ObservedGeneration : Z;
  sd_LastAppliedRevision : string;
  sd_Conditions : list CatalogCondition;
  sd_Resolved : option string;
}.
Definition emptyDoc : StatusDoc := mkDoc 0 "" [] None.
Record DocPatch : Type := mkDocPatch {
  pt_ResourceVersion : string;
  pt_ObservedGeneration : option Z;
  pt_LastAppliedRevision : option string;
  pt_Conditions : option (list CatalogCondition);
  pt_Resolved : option string;
  pt_OwnerReferences : option string; (* product patches only *)
}.

(** The status codec, with the path of a resolved category, and the cursor
    codecs. *)
Record StatusCodec : Type := mkStatusCodec {
  unmarshalDoc : string → option StatusDoc;
  marshalDoc : StatusDoc → string;
  resolvedPath : string → list string;
  b64 : string → option string;
  readTime : string → option Z;
}.

(** [ValidateFileConditions] of [internal/catalog/status.go]. *)
Definition fileConditionTypes : list string :=
  ["AdmissionAccepted"; "SourceResolved"; "ProcessingComplete"; "Ready"; "Terminating"].
Definition ValidateFileConditions (cs : list CatalogCondition) : bool :=
  forallb (λ c, bool_decide (cc_Type c ∈ fileConditionTypes) &&
                bool_decide (cc_Status c ∈ ["True"; "False"; "Unknown"])) cs.

Section catalog.
Context `{TR : !Table Resource resourceId} `{TN : !Table Namespace namespaceId}.
Context `{TG : !Table Repository repositoryRowId} `{TM : !Table NamespaceMapping mappingId}.
Context `{TO : !Table OwnerProjection projectionRowId} `{TA : !Table AncestorRow ancestorRowId}.
Context (C : Codecs) (D : StatusCodec).
Notation Store := (Store (TR := TR) (TN := TN) (TG := TG) (TM := TM) (TO := TO) (TA := TA)).
Implicit Types st : Store.

Definition mergeDoc (s : StatusDoc) (p : DocPatch) : StatusDoc :=
  mkDoc (default (sd_ObservedGeneration s) (pt_ObservedGeneration p))
    (default (sd_LastAppliedRevision s) (pt_LastAppliedRevision p))
    (default (sd_Conditions s) (pt_Conditions p))
    (match pt_Resolved p with Some r => Some r | None => sd_Resolved s end).

Definition readDoc (status : string) : option StatusDoc :=
  if bool_decide (status = "") then Some emptyDoc else unmarshalDoc D status.

(** The body the three patch functions share: the version is checked first, the
    document is merged, and the version advances. *)
Definition applyPatch (valid : bool) (r : Resource) (p : DocPatch) : result StoreError Resource :=
  if negb (bool_decide (pt_ResourceVersion p = r_ResourceVersion r)) then Err SConflict else
  match readDoc (m_Status (r_meta r)) with
  | None => Err SDecode
  | Some s =>
      if negb valid then Err SInvalidCondition else
      let status := marshalDoc D (mergeDoc s p) in
      Ok (onMeta (λ m, setVersion (nextResourceVersion (m_ResourceVersion m)) (setStatus status m)) r)
  end.
Definition ApplyFileStatusPatch (f : Resource) (p : DocPatch) : result StoreError Resource :=
  applyPatch (match pt_Conditions p with Some cs => ValidateFileConditions cs | None => true end) f p.
Definition ApplyCategoryTaxonomyStatusPatch (c : Resource) (p : DocPatch) : result StoreError Resource :=
  applyPatch true c p.
Definition ApplyProductStatusPatch (pr : Resource) (p : DocPatch) : result StoreError Resource :=
  let! r := applyPatch true pr p in
  Ok (match pt_OwnerReferences p with
      | Some o => onMeta (setOwnerReferences o) r
      | None => r
      end).

(** ** Shared transaction bodies *)

Definition byName st (k : CatalogKind) (namespace name : string) : option Resource :=
  firstUnique (st_catalog st k) ixNameNamespace [namespace; name].
Definition bySKU st (namespace sku : string) : option Resource :=
  firstUnique (st_catalog st KProductVariant) ixSKU [namespace; sku].

(** Another row than [uid] has the name, or the SKU. *)
Definition takenBy (o : option Resource) (uid : string) : bool :=
  match o with Some r => negb (bool_decide (r_UID r = uid)) | None => false end.

(** Insert a row and rewrite its owner projections. *)
Definition writeRow st (k : CatalogKind) (r : Resource) (sync : bool) : result StoreError Store :=
  let! t := orFail (insertRow (required k) (st_catalog st k) r) SDatabase in
  let st := setCatalog k t st in
  if sync then
    let! o := syncOwnerReferenceProjections C (st_owners st) (kindText k) r in
    Ok (setOwners o st)
  else Ok st.

(** A file's payload is serialised before its row is written. *)
Definition serialises (k : CatalogKind) (r : Resource) : bool :=
  match k with
  | KFile => match marshalResource C r with Some _ => true | None => false end
  | _ => true
  end.

Definition createRow st (k : CatalogKind) (r : Resource) : result StoreError Store :=
  let! _ := check (catalogParentsActive C st (r_Namespace r) (r_RepositoryID r)) in
  let! _ := guard_ (match firstId (st_catalog st k) [r_UID r] with Some _ => false | None => true end)
              SAlreadyExists in
  let! _ := guard_ (match byName st k (r_Namespace r) (r_Name r) with Some _ => false | None => true end)
              SAlreadyExists in
  let! _ := guard_ (match k with
              | KProductVariant => bool_decide (r_SKU r = "") ||
                  match bySKU st (r_Namespace r) (r_SKU r) with Some _ => false | None => true end
              | _ => true end) SAlreadyExists in
  let! _ := guard_ (serialises k r) SInvalidArgument in
  writeRow st k r true.

Definition create (now : Z) (k : CatalogKind) st (r : option Resource)
  : Store * result StoreError unit :=
  match r with
  | None => (st, Err SInvalidArgument)
  | Some r =>
      txn st (let! st' := createRow st k r in
              Ok (publish C now ResourceWatchAdded k r None st', tt))
  end.

(** The version check of an update: files compare for equality only. *)
Definition versionCheck (k : CatalogKind) (current expected desired : string) : bool :=
  match k with
  | KFile => bool_decide (current = expected)
  | _ => match ValidateCatalogUpdateVersion current expected desired with
         | None => true | Some _ => false end
  end.

(** [Some] is the row replaced; [None], for a file equal to what is stored, is
    no change. *)
Definition updateRow st (k : CatalogKind) (r : Resource) (expected : string)
  : result StoreError (Store * option Resource) :=
  let! _ := check (catalogParentsActive C st (r_Namespace r) (r_RepositoryID r)) in
  let! old := orFail (firstId (st_catalog st k) [r_UID r]) SNotFound in
  let! _ := guard_ (versionCheck k (r_ResourceVersion old) expected (r_ResourceVersion r)) SConflict in
  if match k with KFile => bool_decide (old = r) | _ => false end then Ok (st, None) else
  let! _ := guard_ (negb (takenBy (byName st k (r_Namespace r) (r_Name r)) (r_UID r)))
              SAlreadyExists in
  let! _ := guard_ (match k with
              | KProductVariant => bool_decide (r_SKU r = "") ||
                  negb (takenBy (bySKU st (r_Namespace r) (r_SKU r)) (r_UID r))
              | _ => true end) SAlreadyExists in
  let! _ := guard_ (serialises k r) SInvalidArgument in
  let! st' := writeRow st k r true in
  Ok (st', Some old).

Definition update (now : Z) (k : CatalogKind) st (r : option Resource) (expected : string)
  : Store * result StoreError unit :=
  match r with
  | None => (st, Err SInvalidArgument)
  | Some r =>
      txn st (let! (st', old) := updateRow st k r expected in
              Ok (match old with
                  | Some old => publish C now ResourceWatchModified k r (m_Labels (r_meta old)) st'
                  | None => st'
                  end, tt))
  end.

(** [expected] is [None] for an unconditional deletion. *)
Definition removeRow st (k : CatalogKind) (uid : string) (expected : option string)
  : result StoreError (Store * Resource) :=
  let! old := orFail (firstId (st_catalog st k) [uid]) SNotFound in
  let! _ := guard_ (match expected with
                    | Some v => bool_decide (r_ResourceVersion old = v)
                    | None => true end) SConflict in
  let! o := deleteOwnerReferenceProjections (st_owners st) (kindText k) uid in
  let! t := orFail (deleteRow (st_catalog st k) old) SDatabase in
  Ok (setCatalog k t (setOwners o st), old).

Definition remove (now : Z) (k : CatalogKind) st (uid : string) (expected : option string)
  : Store * result StoreError unit :=
  txn st (let! (st', old) := removeRow st k uid expected in
          Ok (publish C now ResourceWatchDeleted k old None st', tt)).

(** A status patch of the resource of that name. Only files keep the owner
    projections they had. *)
Definition patchRow st (k : CatalogKind) (namespace name : string)
    (apply : Resource → result StoreError Resource) : result StoreError (Store * Resource * Resource) :=
  let! old := orFail (byName st k namespace name) SNotFound in
  let! r := apply old in
  let! _ := guard_ (serialises k r) SInvalidArgument in
  let! st' := writeRow st k r (negb (bool_decide (k = KFile))) in
  Ok (st', old, r).
Definition patch (now : Z) (k : CatalogKind) st (namespace name : string)
    (apply : Resource → result StoreError Resource) : Store * result StoreError Resource :=
  txn st (let! (st', old, r) := patchRow st k namespace name apply in
          Ok (publish C now ResourceWatchModified k r (m_Labels (r_meta old)) st', r)).

Definition get st (k : CatalogKind) (uid : string) : result StoreError Resource :=
  orFail (firstId (st_catalog st k) [uid]) SNotFound.
Definition getByName st (k : CatalogKind) (namespace name : string) : result StoreError Resource :=
  orFail (byName st k namespace name) SNotFound.

Definition createdKey (r : Resource) : Z * string := (m_CreationTimestamp (r_meta r), r_UID r).
Definition paginate (l : list Resource) (page : PageParams) : PageResult Resource :=
  paginateSlice (b64 D) (readTime D) createdKey l page.
Definition inNamespace st (k : CatalogKind) (namespace : string) : list Resource :=
  getBy (st_catalog st k) ixNamespace [namespace].
(** Products, variants and categories list every namespace for an empty one. *)
Definition listed st (k : CatalogKind) (namespace : string) : list Resource :=
  if bool_decide (namespace = "") then allRows (st_catalog st k) else inNamespace st k namespace.

(** ** Files *)
Definition CreateFile (now : Z) st (f : option Resource) := create now KFile st f.
Definition GetFile st (uid : string) := get st KFile uid.
Definition GetFileByName st (namespace name : string) := getByName st KFile namespace name.
Definition ListFiles st (namespace : string) (page : PageParams) : PageResult Resource :=
  paginate (inNamespace st KFile namespace) page.
Definition UpdateFile (now : Z) st (f : option Resource) (expected : string) :=
  update now KFile st f expected.
Definition deleteFile (now : Z) st (uid expected : string) (checkVersion : bool) :=
  remove now KFile st uid (if checkVersion then Some expected else None).
Definition UpdateFileStatus (now : Z) st (namespace name : string) (p : DocPatch) :=
  patch now KFile st namespace name (λ f, ApplyFileStatusPatch f p).

(** ** Products *)
Definition CreateProduct (now : Z) st (p : option Resource) := create now KProduct st p.
Definition GetProduct st (uid : string) := get st KProduct uid.
Definition GetProductByName st (namespace name : string) := getByName st KProduct namespace name.
Definition ListProducts st (namespace : string) (page : PageParams)
  : result StoreError (PageResult Resource) :=
  let! page := orFail (BoundedProductPage page) SInvalidArgument in
  Ok (paginate (listed st KProduct namespace) page).
Definition UpdateProduct (now : Z) st (p : option Resource) (expected : string) :=
  update now KProduct st p expected.
Definition UpdateProductStatus (now : Z) st (namespace name : string) (p : DocPatch) :=
  patch now KProduct st namespace name (λ r, ApplyProductStatusPatch r p).

(** The first phase of foreground deletion. A second mark returns what is
    stored; the owner projections are left alone. *)
Definition MarkProductTerminating (now : Z) st (uid expected finalizer : string) (at_ : Z)
  : Store * result StoreError Resource :=
  txn st (
    let! old := orFail (firstId (st_catalog st KProduct) [uid]) SNotFound in
    let! _ := guard_ (bool_decide (r_ResourceVersion old = expected)) SConflict in
    match m_DeletionTimestamp (r_meta old) with
    | Some _ => Ok (st, old)
    | None =>
        let fs := m_Finalizers (r_meta old) in
        let fs := if bool_decide (finalizer = "") || bool_decide (finalizer ∈ fs)
                  then fs else fs ++ [finalizer] in
        let r := onMeta (λ m, setVersion (nextResourceVersion (m_ResourceVersion m))
                                (setDeletion fs (Some at_) m)) old in
        let! st' := writeRow st KProduct r false in
        Ok (publish C now ResourceWatchModified KProduct r (m_Labels (r_meta old)) st', r)
    end).

Definition categoryProductKey (namespace categoryUID : string) : string :=
  namespace +:+ nul +:+ categoryUID.

(** [ReplaceCategoryProductMembership]: drop the product from the categories it
    was in, then add it to each listed one once. *)
Definition dropMember (uid : string) (cp : gmap string (gset string)) (key : string)
  : gmap string (gset string) :=
  match cp !! key with
  | Some members =>
      let rest := members ∖ {[uid]} in
      if bool_decide (rest = ∅) then delete key cp else <[key := rest]> cp
  | None => cp
  end.
Definition addMember (uid : string) (cp : gmap string (gset string)) (key : string)
  : gmap string (gset string) := <[key := default ∅ (cp !! key) ∪ {[uid]}]> cp.
Definition membershipKeys (namespace : string) (categoryUIDs : list string) : list string :=
  foldl (λ keys uid, if bool_decide (uid = "") then keys else
    let key := categoryProductKey namespace uid in
    if bool_decide (key ∈ keys) then keys else keys ++ [key]) [] categoryUIDs.
Definition ReplaceCategoryProductMembership st (p : option Resource) (categoryUIDs : list string)
  : Store * result StoreError unit :=
  match p with
  | None => (st, Err SInvalidArgument)
  | Some p =>
      let cp := foldl (dropMember (r_UID p)) (st_categoryProducts st)
                  (default [] (st_productCategories st !! r_UID p)) in
      let keys := membershipKeys (r_Namespace p) categoryUIDs in
      let cp := foldl (addMember (r_UID p)) cp keys in
      (setMembership cp (<[r_UID p := keys]> (st_productCategories st)) st, Ok tt)
  end.

Definition ListCategoryProducts st (namespace categoryUID : string) (page : PageParams)
  : result StoreError (PageResult Resource) :=
  let! page := orFail (BoundedProductPage page) SInvalidArgument in
  let page := mkPage (Z.min (First page) DefaultPageSize) (After page)
                     (Z.min (Last page) DefaultPageSize) (Before page) in
  let ids := elements (default ∅ (st_categoryProducts st !! categoryProductKey namespace categoryUID)) in
  let items := omap (λ uid, r ← firstId (st_catalog st KProduct) [uid];
                            if bool_decide (r_Namespace r = namespace) then Some r else None) ids in
  Ok (paginate items page).

(** Deleting a product also empties its memberships, after the commit. *)
Definition deleteProduct (now : Z) st (uid expected : string) (checkVersion : bool)
  : Store * result StoreError unit :=
  txn st (let! (st', old) := removeRow st KProduct uid (if checkVersion then Some expected else None) in
          let st' := (ReplaceCategoryProductMembership st' (Some old) []).1 in
          Ok (publish C now ResourceWatchDeleted KProduct old None st', tt)).
Definition CompleteProductDeletion (now : Z) st (uid expected : string) :=
  deleteProduct now st uid expected true.

(** ** Variants and collections, which are not published *)
Definition CreateProductVariant (now : Z) st (v : option Resource) := create now KProductVariant st v.
Definition GetProductVariantBySKU st (namespace sku : string) : result StoreError Resource :=
  orFail (bySKU st namespace sku) SNotFound.
Definition ListProductVariants st (namespace : string) (page : PageParams) : PageResult Resource :=
  paginate (listed st KProductVariant namespace) page.
Definition ListProductVariantsByProductRef st (namespace productRefName : string) : list Resource :=
  getBy (st_catalog st KProductVariant) ixProductRef [namespace; productRefName].
Definition UpdateProductVariant (now : Z) st (v : option Resource) (expected : string) :=
  update now KProductVariant st v expected.
Definition deleteProductVariant (now : Z) st (uid expected : string) (checkVersion : bool) :=
  remove now KProductVariant st uid (if checkVersion then Some expected else None).
Definition CreateCollection (now : Z) st (c : option Resource) := create now KCollection st c.
Definition ListCollections st (namespace : string) (page : PageParams) : PageResult Resource :=
  paginate (inNamespace st KCollection namespace) page.
Definition UpdateCollection (now : Z) st (c : option Resource) (expected : string) :=
  update now KCollection st c expected.
Definition deleteCollection (now : Z) st (uid expected : string) (checkVersion : bool) :=
  remove now KCollection st uid (if checkVersion then Some expected else None).
End catalog.
