(* ===== verification/MemCategory.v ===== *)
(** * The in-memory datastore: categories

    Categories in [gitstore-api/internal/datastore/memdb/backend.go], their
    deletion protocol in [owner_references.go], and the ancestor closure index
    of [category_ancestor_index.go] (in [datastore] and in [datastore/memdb]). *)

From S2P Require Import Prelude ResourceVersion Entities DeletionStatus WatchJournal MemTable.
From S2P Require Import MemStore Pagination MemCatalog.
From stdpp Require Import sorting.
From Stdlib Require Import Ascii.
#[local] Open Scope go_scope.

(** ** The closure index *)

Definition MaxCategoryHierarchyDepth : Z := 127.

Record CategoryAncestorRow : Type := mkMembership { cr_Ancestor : string; cr_Depth : Z }.
#[global] Instance CategoryAncestorRow_eq_dec : EqDecision CategoryAncestorRow.
Proof. solve_decision. Defined.

(** The loop of [CategoryAncestorRows]: [k] is the index of the last segment. *)
Fixpoint ancestorRowsFrom (name : string) (k i : Z) (path : list string)
  : option (list CategoryAncestorRow) :=
  match path with
  | [] => Some []
  | a :: path =>
      let a := if (i =? k)%Z then name else a in
      if bool_decide (a = "") then None else
      rows ← ancestorRowsFrom name k (i + 1) path;
      Some (mkMembership a (k - i) :: rows)
  end.
(** [None] is [ErrInvalidArgument]. *)
Definition CategoryAncestorRows (name : string) (path : list string)
  : option (list CategoryAncestorRow) :=
  match path with
  | [] => Some []
  | _ => let k := (Z.of_nat (length path) - 1)%Z in
         if (MaxCategoryHierarchyDepth <? k)%Z then None else ancestorRowsFrom name k 0 path
  end.

Definition ObsoleteCategoryAncestorRows (previous current : list CategoryAncestorRow)
  : list CategoryAncestorRow := filter (λ r, r ∉ current) previous.

(** [strconv.Atoi] on 64-bit integers. *)
Definition Atoi (s : string) : option Z :=
  v ← SetString s;
  if ((-2 ^ 63 <=? v) && (v <? 2 ^ 63))%Z then Some v else None.

Section cursors.
Context (b64encode : string → string) (b64decode : string → option string).

Definition EncodeClosureCursor (depth : Z) (name : string) : string :=
  b64encode ("closure|" +:+ bigString depth +:+ "|" +:+ name).

Definition DecodeClosureCursor (cursor : string) : option (Z * string) :=
  decoded ← b64decode cursor;
  match splitN3 "|"%char decoded with
  | [tag; d; name] =>
      if negb (bool_decide (tag = "closure")) || bool_decide (name = "") then None else
      depth ← Atoi d;
      if (depth <? 0)%Z || (MaxCategoryHierarchyDepth <? depth)%Z then None else Some (depth, name)
  | _ => None
  end.

Definition IsClosureCursor (cursor : string) : bool :=
  match DecodeClosureCursor cursor with Some _ => true | None => false end.

(** [true] lets the page through. *)
Definition RejectClosureCursors (page : PageParams) : bool :=
  negb (IsClosureCursor (After page) || IsClosureCursor (Before page)).

Record CategoryDescendantQuery : Type := mkQuery {
  q_Namespace : string;
  q_Ancestor : string;
  q_IncludeSelf : bool;
  q_MaxDepth : Z;
  q_Page : PageParams;
}.

(** The depth range and the cursor, [-1] without one. *)
Definition CategoryDescendantBounds (q : CategoryDescendantQuery)
  : option (Z * Z * Z * string) :=
  if bool_decide (q_Namespace q = "") || bool_decide (q_Ancestor q = "") then None else
  if (q_MaxDepth q <? 0)%Z || (MaxCategoryHierarchyDepth <? q_MaxDepth q)%Z then None else
  let page := q_Page q in
  if negb (bool_decide (After page = "")) && negb (bool_decide (Before page = "")) then None else
  let lo := if q_IncludeSelf q then 0%Z else 1%Z in
  let hi := if (0 <? q_MaxDepth q)%Z then q_MaxDepth q else MaxCategoryHierarchyDepth in
  let cursor := if bool_decide (After page = "") then Before page else After page in
  if bool_decide (cursor = "") then Some (lo, hi, (-1)%Z, "") else
  '(d, n) ← DecodeClosureCursor cursor;
  Some (lo, hi, d, n).

(** ** Cursors read back *)

Context (Hb64 : ∀ s, b64decode (b64encode s) = Some s).

Lemma bigString_no_bar z : hasChar "|"%char (bigString z) = false.
Proof.
  assert (∀ u, hasChar "|"%char (DecimalString.NilEmpty.string_of_uint u) = false) as H.
  { induction u; simpl; try done. }
  unfold bigString. by case_match; simpl.
Qed.

Lemma Decode_Encode_closure depth name :
  (0 ≤ depth ≤ MaxCategoryHierarchyDepth)%Z → name ≠ "" →
  DecodeClosureCursor (EncodeClosureCursor depth name) = Some (depth, name).
Proof using Hb64.
  intros Hd Hn. unfold DecodeClosureCursor, EncodeClosureCursor. rewrite Hb64.
  cbn [mbind option_bind]. unfold splitN3.
  change ("closure|" +:+ ?r) with ("closure" +:+ String "|"%char r). rewrite cut_app by done.
  change ("|" +:+ ?r) with (String "|"%char r). rewrite cut_app by apply bigString_no_bar.
  rewrite bool_decide_eq_true_2, bool_decide_eq_false_2 by done. simpl.
  unfold Atoi. rewrite SetString_bigString. cbn [mbind option_bind].
  unfold MaxCategoryHierarchyDepth in *.
  rewrite (proj2 (Z.leb_le (-2 ^ 63) depth)), (proj2 (Z.ltb_lt depth (2 ^ 63))) by lia. simpl.
  rewrite (proj2 (Z.ltb_ge depth 0)), (proj2 (Z.ltb_ge 127 depth)) by lia. done.
Qed.

(** Closure cursors and keyset cursors cannot be mistaken for each other. A
    closure cursor for a depth in range and a name reads back as it was written
    and is turned away by keyset listings, which would otherwise take it for no
    cursor and start over; and no keyset cursor reads as a closure cursor. *)
Theorem closure_cursors_kept_apart formatTime k depth name :
  (0 ≤ depth ≤ MaxCategoryHierarchyDepth)%Z → name ≠ "" →
  DecodeClosureCursor (EncodeClosureCursor depth name) = Some (depth, name) ∧
  (∀ first last before,
     RejectClosureCursors (mkPage first (EncodeClosureCursor depth name) last before) = false) ∧
  DecodeClosureCursor (EncodeKeysetCursor b64encode formatTime k) = None.
Proof using Hb64.
  intros Hd Hn. pose proof (Decode_Encode_closure depth name Hd Hn) as HD.
  split_and!; [done| |].
  - intros f l b. unfold RejectClosureCursors, IsClosureCursor. cbn [After]. by rewrite HD.
  - unfold DecodeClosureCursor, EncodeKeysetCursor. rewrite Hb64. cbn [mbind option_bind].
    unfold splitN3. change ("keyset|" +:+ ?r) with ("keyset" +:+ String "|"%char r).
    rewrite cut_app by done. by destruct (cut _ (formatTime _ +:+ _)) as [[]|].
Qed.
End cursors.

Lemma closure_cursors_kept_apart_witness :
  DecodeClosureCursor Some (EncodeClosureCursor id 3 "shoes|red") = Some (3%Z, "shoes|red").
Proof.
  apply (closure_cursors_kept_apart id Some (λ s, eq_refl) exFormat (0%Z, "u") 3 "shoes|red");
    [unfold MaxCategoryHierarchyDepth; lia|discriminate].
Defined.

(** ** Operations *)

Section categories.
Context `{TR : !Table Resource resourceId} `{TN : !Table Namespace namespaceId}.
Context `{TG : !Table Repository repositoryRowId} `{TM : !Table NamespaceMapping mappingId}.
Context `{TO : !Table OwnerProjection projectionRowId} `{TA : !Table AncestorRow ancestorRowId}.
Context (C : Codecs) (D : StatusCodec).
Notation Store := (Store (TR := TR) (TN := TN) (TG := TG) (TM := TM) (TO := TO) (TA := TA)).
Implicit Types st : Store.

Definition ixDescendant (a : AncestorRow) : list string := [ar_Namespace a; ar_Descendant a].
Definition ixAncestor (a : AncestorRow) : list string := [ar_Namespace a; ar_Ancestor a].
Definition requiredAncestor (a : AncestorRow) : list string := ixDescendant a ++ ixAncestor a.

Definition categoryAncestorRowID (namespace ancestor : string) (depth : Z) (descendant : string)
  : string := namespace +:+ "/" +:+ ancestor +:+ "/" +:+ bigString depth +:+ "/" +:+ descendant.

(** [CategoryResolvedPath]: [None] is a status that does not decode. *)
Definition CategoryResolvedPath (status : string) : option (list string) :=
  if bool_decide (status = "") || bool_decide (status = "null") then Some [] else
  s ← unmarshalDoc D status;
  Some (match sd_Resolved s with Some r => resolvedPath D r | None => [] end).

Definition deleteStaleCategoryAncestorRows (t : table TA) (c : Resource)
    (keep : list CategoryAncestorRow) : result StoreError (table TA) :=
  let stale := filter (λ a, mkMembership (ar_Ancestor a) (ar_Depth a) ∉ keep)
                 (getBy t ixDescendant [r_Namespace c; r_Name c]) in
  foldRes (λ t a, orFail (deleteRow t a) SDatabase) t stale.

Definition ancestorRowOf (c : Resource) (m : CategoryAncestorRow) : AncestorRow :=
  mkAncestor (categoryAncestorRowID (r_Namespace c) (cr_Ancestor m) (cr_Depth m) (r_Name c))
    (r_Namespace c) (cr_Ancestor m) (cr_Depth m) (r_Name c) (r_UID c) (r_ResourceVersion c).

Definition syncCategoryAncestorIndex (t : table TA) (c : Resource) : result StoreError (table TA) :=
  let! path := orFail (CategoryResolvedPath (m_Status (r_meta c))) SDecode in
  let! current := orFail (CategoryAncestorRows (r_Name c) path) SInvalidArgument in
  let! t := deleteStaleCategoryAncestorRows t c current in
  foldRes (λ t m, orFail (insertRow requiredAncestor t (ancestorRowOf c m)) SDatabase) t current.
Definition deleteCategoryAncestorRows (t : table TA) (c : Resource) : result StoreError (table TA) :=
  deleteStaleCategoryAncestorRows t c [].

Definition CreateCategoryTaxonomy (now : Z) st (c : option Resource) :=
  create C now KCategoryTaxonomy st c.
Definition ListCategoryTaxonomies st (namespace : string) (page : PageParams)
  : result StoreError (PageResult Resource) :=
  if negb (RejectClosureCursors (b64 D) page) then Err SInvalidArgument
  else Ok (paginate D (listed st KCategoryTaxonomy namespace) page).
Definition UpdateCategoryTaxonomy (now : Z) st (c : option Resource) (expected : string) :=
  update C now KCategoryTaxonomy st c expected.

Definition UpdateCategoryTaxonomyStatus (now : Z) st (namespace name : string) (p : DocPatch)
  : Store * result StoreError Resource :=
  txn st (
    let! (st', old, r) := patchRow C st KCategoryTaxonomy namespace name
                            (λ c, ApplyCategoryTaxonomyStatusPatch D c p) in
    let! st' := match pt_Resolved p with
                | Some _ => let! t := syncCategoryAncestorIndex (st_ancestors st') r in
                            Ok (setAncestors t st')
                | None => Ok st'
                end in
    Ok (publish C now ResourceWatchModified KCategoryTaxonomy r (m_Labels (r_meta old)) st', r)).

Definition DeleteCategoryTaxonomy (now : Z) st (uid : string) : Store * result StoreError unit :=
  txn st (
    let! (st', old) := removeRow st KCategoryTaxonomy uid None in
    let! t := deleteCategoryAncestorRows (st_ancestors st') old in
    Ok (publish C now ResourceWatchDeleted KCategoryTaxonomy old None (setAncestors t st'), tt)).

(** [MarkCategoryTaxonomyTerminating] replaces the terminating condition of the
    status, or adds one. *)
Fixpoint replaceCondition (c : CatalogCondition) (cs : list CatalogCondition)
  : list CatalogCondition :=
  match cs with
  | [] => [c]
  | d :: cs => if bool_decide (cc_Type d = cc_Type c) then c :: cs else d :: replaceCondition c cs
  end.
Definition MarkCategoryTaxonomyTerminating (c : Resource) (at_ : Z) : option Resource :=
  s ← readDoc D (m_Status (r_meta c));
  let condition := mkCatCond "Terminating" "True" (m_Generation (r_meta c)) at_ "DeletionRequested"
    "CategoryTaxonomy is awaiting foreground deletion completion." in
  Some (onMeta (setStatus (marshalDoc D (mkDoc (sd_ObservedGeneration s) (sd_LastAppliedRevision s)
    (replaceCondition condition (sd_Conditions s)) (sd_Resolved s)))) c).

Definition containsFinalizer (finalizers : list string) (target : string) : bool :=
  existsb (λ f, bool_decide (f = target)) finalizers.

Definition MarkCategoryTaxonomyDeletion (now : Z) st (namespace name expected : string) (at_ : Z)
  : Store * result StoreError Resource :=
  txn st (
    let! old := orFail (byName st KCategoryTaxonomy namespace name) SNotFound in
    match m_DeletionTimestamp (r_meta old) with
    | Some _ => Ok (st, old)
    | None =>
        let! _ := guard_ (bool_decide (r_ResourceVersion old = expected)) SConflict in
        let fs := m_Finalizers (r_meta old) in
        let fs := if containsFinalizer fs ForegroundDeletionFinalizer then fs
                  else fs ++ [ForegroundDeletionFinalizer] in
        let c := onMeta (setDeletion fs (Some at_)) old in
        let! c := orFail (MarkCategoryTaxonomyTerminating c at_) SDecode in
        let c := onMeta (λ m, setVersion (nextResourceVersion (m_ResourceVersion m))
                                (setUpdate at_ "deletion" m)) c in
        let! st' := writeRow C st KCategoryTaxonomy c true in
        Ok (publish C now ResourceWatchModified KCategoryTaxonomy c (m_Labels (r_meta old)) st', c)
    end).

Definition CompleteCategoryTaxonomyDeletion (now : Z) st (namespace name expected uid : string)
  : Store * result StoreError Resource :=
  txn st (
    let! c := orFail (byName st KCategoryTaxonomy namespace name) SNotFound in
    let! _ := guard_ (negb (bool_decide (uid = "")) && bool_decide (r_UID c = uid) &&
                      bool_decide (r_ResourceVersion c = expected)) SConflict in
    let! _ := guard_ (match m_DeletionTimestamp (r_meta c) with
                      | Some _ => containsFinalizer (m_Finalizers (r_meta c)) ForegroundDeletionFinalizer
                      | None => false end) SInvalidArgument in
    let! o := deleteOwnerReferenceProjections (st_owners st) (kindText KCategoryTaxonomy) (r_UID c) in
    let! a := deleteCategoryAncestorRows (st_ancestors st) c in
    let! t := orFail (deleteRow (st_catalog st KCategoryTaxonomy) c) SDatabase in
    Ok (publish C now ResourceWatchDeleted KCategoryTaxonomy c None
          (setCatalog KCategoryTaxonomy t (setAncestors a (setOwners o st))), c)).

(** ** Bounded listings *)

Definition MaxOwnerDependentPageSize : Z := 100.
Definition dependentLimit (limit : Z) : nat :=
  let limit := if (limit <=? 0)%Z then DefaultPageSize else limit in
  Z.to_nat (Z.min limit MaxOwnerDependentPageSize).

Definition dependentBefore (a b : OwnerDependent) : Prop := str_le (dp_UID a) (dp_UID b).
#[global] Instance dependentBefore_dec a b : Decision (dependentBefore a b).
Proof. unfold dependentBefore. apply _. Defined.

(** The dependents after the cursor in the order of their identifiers, and the
    cursor of the next page, empty on the last one. *)
Definition dependentPage (ps : list OwnerProjection) (after : string) (limit : Z)
  : list OwnerDependent * string :=
  let items := (λ p, mkDependent (op_DependentUID p) (op_DependentKind p) (op_Name p)
                       (op_ResourceVersion p)) <$>
               filter (λ p, ¬ str_le (op_DependentUID p) after) ps in
  let items := merge_sort dependentBefore items in
  let n := dependentLimit limit in
  if n <? length items then
    let page := take n items in
    (page, match last page with Some d => dp_UID d | None => "" end)
  else (items, "").

Definition ListBlockingOwnerDependents st (scope : OwnerReferenceScope) (ownerUID after : string)
    (limit : Z) : list OwnerDependent * string :=
  dependentPage (getBy (st_owners st) ixOwnerBlock
    [sc_Namespace scope; sc_RepositoryID scope; ownerUID; "1"]) after limit.
Definition ListNonBlockingProductOwnerDependents st (scope : OwnerReferenceScope)
    (ownerUID after : string) (limit : Z) : list OwnerDependent * string :=
  dependentPage (getBy (st_owners st) ixOwnerProduct
    [sc_Namespace scope; sc_RepositoryID scope; ownerUID; "Product"; "0"]) after limit.

Record CategoryDescendant : Type := mkDescendant {
  ds_Name : string;
  ds_UID : string;
  ds_Depth : Z;
}.
(** The listing order: depth, then name. *)
Definition rowBefore (a b : AncestorRow) : Prop :=
  (ar_Depth a < ar_Depth b)%Z ∨
  (ar_Depth a = ar_Depth b ∧ str_le (ar_Descendant a) (ar_Descendant b)).
#[global] Instance rowBefore_dec a b : Decision (rowBefore a b).
Proof. unfold rowBefore. apply _. Defined.
Definition rowAfter (d : Z) (n : string) (a : AncestorRow) : bool :=
  (d <? ar_Depth a)%Z || ((ar_Depth a =? d)%Z && bool_decide (¬ str_le (ar_Descendant a) n)).

Definition ListCategoryDescendants st (q : CategoryDescendantQuery)
  : result StoreError (PageResult CategoryDescendant) :=
  let! (lo, hi, cursorDepth, cursorName) := orFail (CategoryDescendantBounds (b64 D) q) SInvalidArgument in
  let rows := filter (λ a, (lo ≤ ar_Depth a ≤ hi)%Z)
                (getBy (st_ancestors st) ixAncestor [q_Namespace q; q_Ancestor q]) in
  let rows := merge_sort rowBefore rows in
  let limit := Z.to_nat (Limit (q_Page q)) in
  let backward := (0 <? Last (q_Page q))%Z in
  let after := rowAfter cursorDepth cursorName in
  let window := filter (λ a,
    (if (cursorDepth <? 0)%Z then true else
     if backward then negb (after a) &&
       negb ((ar_Depth a =? cursorDepth)%Z && bool_decide (ar_Descendant a = cursorName))
     else after a) = true) rows in
  let more := limit <? length window in
  let '(window, hasNext, hasPrevious) :=
    if backward then
      (if more then drop (length window - limit) window else window,
       negb (bool_decide (Before (q_Page q) = "")), more)
    else
      (if more then take limit window else window, more,
       negb (bool_decide (After (q_Page q) = ""))) in
  Ok (mkResult ((λ a, mkDescendant (ar_Descendant a) (ar_DescendantUID a) (ar_Depth a)) <$> window)
        hasNext hasPrevious).
End categories.
