(* ===== verification/MemTenancy.v ===== *)
(** * The in-memory datastore: namespaces, repositories and mappings

    The tenancy part of [gitstore-api/internal/datastore/memdb/backend.go].
    Rows are kept and returned in canonical form; the caller's own record, which
    the code normalises in place, is not part of the store. *)

From S2P Require Import Prelude ResourceVersion Entities DeletionStatus WatchJournal MemTable.
From S2P Require Import MemStore Pagination MemCatalog.
#[local] Open Scope go_scope.

Section tenancy.
Context `{TR : !Table Resource resourceId} `{TN : !Table Namespace namespaceId}.
Context `{TG : !Table Repository repositoryRowId} `{TM : !Table NamespaceMapping mappingId}.
Context `{TO : !Table OwnerProjection projectionRowId} `{TA : !Table AncestorRow ancestorRowId}.
Context (C : Codecs) (D : StatusCodec).
Notation Store := (Store (TR := TR) (TN := TN) (TG := TG) (TM := TM) (TO := TO) (TA := TA)).
Implicit Types st : Store.

Definition statusErr (e : StatusError) : StoreError :=
  match e with StatusDecode => SDecode | StatusConflict => SConflict end.
Definition onStatus {A} (r : result StatusError A) : result StoreError A :=
  match r with Ok a => Ok a | Err e => Err (statusErr e) end.

(** ** Namespaces *)

Definition nsVersion (n : Namespace) : string := m_ResourceVersion (n_meta n).
Definition nsName (n : Namespace) : string := m_Name (n_meta n).
Definition nsUID (n : Namespace) : string := m_UID (n_meta n).
Definition normalizedNamespaceCopy (n : Namespace) : Namespace := NormalizeNamespaceContract n.
Definition absent {A} (o : option A) : bool := match o with Some _ => false | None => true end.

Definition insertNamespace st (n : Namespace) : result StoreError Store :=
  let! t := orFail (insertRow ixNamespaceName (st_namespaces st) n) SDatabase in
  Ok (setNamespaces t st).

Definition CreateNamespace (now : Z) st (o : option Namespace) : Store * result StoreError unit :=
  match o with
  | None => (st, Err SInvalidArgument)
  | Some n =>
      let n := NormalizeNamespaceContract n in
      txn st (
        let! _ := guard_ (negb (bool_decide (nsUID n = ""))) SInvalidArgument in
        let! _ := guard_ (absent (firstId (st_namespaces st) [nsUID n])) SAlreadyExists in
        let! _ := guard_ (absent (firstUnique (st_namespaces st) ixNamespaceName [nsName n]))
                    SAlreadyExists in
        let! st' := insertNamespace st (normalizedNamespaceCopy n) in
        Ok (recordCommittedNamespace C now ResourceWatchAdded (normalizedNamespaceCopy n) None st', tt))
  end.

Definition GetNamespace st (uid : string) : result StoreError Namespace :=
  let! n := orFail (firstId (st_namespaces st) [uid]) SNotFound in
  Ok (normalizedNamespaceCopy n).
Definition GetNamespaceByName st (name : string) : result StoreError Namespace :=
  let! n := orFail (firstUnique (st_namespaces st) ixNamespaceName [name]) SNotFound in
  Ok (normalizedNamespaceCopy n).
Definition ListNamespaces st (page : PageParams) : PageResult Namespace :=
  paginateSlice (b64 D) (readTime D) (λ n, (m_CreationTimestamp (n_meta n), nsUID n))
    (normalizedNamespaceCopy <$> allRows (st_namespaces st)) page.

Definition UpdateNamespace (now : Z) st (o : option Namespace) (expected : string)
  : Store * result StoreError unit :=
  match o with
  | None => (st, Err SInvalidArgument)
  | Some n =>
      let n := NormalizeNamespaceContract n in
      txn st (
        let! raw := orFail (firstId (st_namespaces st) [nsUID n]) SNotFound in
        let cur := normalizedNamespaceCopy raw in
        let! _ := guard_ (negb (negb (absent (m_DeletionTimestamp (n_meta cur))) &&
                                absent (m_DeletionTimestamp (n_meta n)))) SConflict in
        let! _ := guard_ (bool_decide (nsName cur = nsName n)) SConflict in
        let! _ := check (if deletionRequested C (n_meta n) && negb (deletionRequested C (n_meta cur))
                         then namespaceDeletionCheck st cur else None) in
        let! status := onStatus (MergeInfrastructureStatus (statusJSON C)
                         (m_Status (n_meta cur)) (m_Status (n_meta n))) in
        let n := onNamespaceMeta (setStatus status) n in
        let! _ := guard_ (bool_decide (nsVersion cur = expected)) SConflict in
        let! _ := guard_ (match firstUnique (st_namespaces st) ixNamespaceName [nsName n] with
                          | Some o => bool_decide (nsUID o = nsUID n) | None => true end)
                    SAlreadyExists in
        let! st' := insertNamespace st (normalizedNamespaceCopy n) in
        Ok (recordCommittedNamespace C now ResourceWatchModified n (m_Labels (n_meta cur)) st', tt))
  end.

Definition MarkNamespaceDeletion (now : Z) st (o : option Namespace) (expected : string)
  : Store * result StoreError unit :=
  match o with
  | None => (st, Err SInvalidArgument)
  | Some n =>
      txn st (
        let! _ := guard_ (negb (absent (m_DeletionTimestamp (n_meta n)))) SInvalidArgument in
        let n := NormalizeNamespaceContract n in
        let! raw := orFail (firstId (st_namespaces st) [nsUID n]) SNotFound in
        let cur := normalizedNamespaceCopy raw in
        let! _ := guard_ (bool_decide (nsVersion cur = expected) && bool_decide (nsName n = nsName cur))
                    SConflict in
        let! _ := guard_ (absent (m_DeletionTimestamp (n_meta cur))) SNamespaceNotActive in
        let! _ := check (namespaceDeletionCheck st cur) in
        let! status := onStatus (PreserveDeletionStatus (statusJSON C)
                         (m_Status (n_meta cur)) (m_Status (n_meta n))) in
        let n := onNamespaceMeta (setStatus status) n in
        let! st' := insertNamespace st (normalizedNamespaceCopy n) in
        Ok (recordCommittedNamespace C now ResourceWatchModified n (m_Labels (n_meta cur)) st', tt))
  end.

Definition dropNamespace (now : Z) st (n : Namespace) : result StoreError (Store * unit) :=
  let! t := orFail (deleteRow (st_namespaces st) n) SDatabase in
  Ok (recordCommittedNamespace C now ResourceWatchDeleted (normalizedNamespaceCopy n) None
        (setNamespaces t st), tt).
Definition DeleteNamespace (now : Z) st (uid : string) : Store * result StoreError unit :=
  txn st (let! n := orFail (firstId (st_namespaces st) [uid]) SNotFound in
          dropNamespace now st n).
Definition hasRepositories st (namespace : string) : bool :=
  match getBy (st_repositories st) ixRepositoryNamespace [namespace] with [] => false | _ => true end.
Definition DeleteNamespaceWithResourceVersion (now : Z) st (uid expected : string)
  : Store * result StoreError unit :=
  txn st (
    let! n := orFail (firstId (st_namespaces st) [uid]) SNotFound in
    let! _ := guard_ (bool_decide (nsVersion n = expected)) SConflict in
    let! _ := guard_ (negb (absent (m_DeletionTimestamp (n_meta n))) &&
                      DeletionFinalizersClear (m_Finalizers (n_meta n)) ForegroundDeletionFinalizer)
                SConflict in
    let! _ := guard_ (negb (hasRepositories st (nsName n))) SNamespaceNotEmpty in
    dropNamespace now st n).

(** ** Repositories *)

Definition rpUID (r : Repository) : string := m_UID (rp_meta r).
Definition rpName (r : Repository) : string := m_Name (rp_meta r).
Definition rpVersion (r : Repository) : string := m_ResourceVersion (rp_meta r).
Definition normalizedRepositoryCopy (r : Repository) : Repository := NormalizeRepositoryContract r.
Definition requiredRepository (r : Repository) : list string := ixRepositoryName r.

Definition insertRepository st (r : Repository) : result StoreError Store :=
  let! t := orFail (insertRow requiredRepository (st_repositories st) r) SDatabase in
  Ok (setRepositories t (st_deleted st) st).

(** A repository may be created without its namespace unless an active one is
    required; a namespace that is being deleted admits none. *)
Definition createRepositoryTxn (now : Z) st (r : Repository) (requireActive : bool)
  : result StoreError (Store * unit) :=
  let! _ := guard_ (negb (bool_decide (rpUID r = ""))) SInvalidArgument in
  let! _ := guard_ (absent (firstId (st_deleted st) [rpUID r])) SConflict in
  let! _ := check (match firstUnique (st_namespaces st) ixNamespaceName [rp_Namespace r] with
                   | None => if requireActive then Some SNotFound else None
                   | Some n => if deletionRequested C (n_meta n)
                               then Some SNamespaceNotActive else None
                   end) in
  let! _ := guard_ (absent (firstId (st_repositories st) [rpUID r])) SAlreadyExists in
  let! _ := guard_ (absent (firstUnique (st_repositories st) ixRepositoryName
                              [rp_Namespace r; rpName r])) SAlreadyExists in
  let! st' := insertRepository st (normalizedRepositoryCopy r) in
  Ok (recordCommittedRepository C now ResourceWatchAdded (normalizedRepositoryCopy r) None st', tt).
Definition createRepository (now : Z) st (o : option Repository) (requireActive : bool)
  : Store * result StoreError unit :=
  match o with
  | None => (st, Err SInvalidArgument)
  | Some r => txn st (createRepositoryTxn now st (NormalizeRepositoryContract r) requireActive)
  end.
Definition CreateRepository (now : Z) st (o : option Repository) := createRepository now st o false.
Definition CreateRepositoryInActiveNamespace (now : Z) st (o : option Repository) :=
  createRepository now st o true.

Definition GetRepository st (uid : string) : result StoreError Repository :=
  let! r := orFail (firstId (st_repositories st) [uid]) SNotFound in
  Ok (normalizedRepositoryCopy r).
Definition repositoryKey (r : Repository) : Z * string := (m_CreationTimestamp (rp_meta r), rpUID r).
Definition ListRepositories st (page : PageParams) : PageResult Repository :=
  paginateSlice (b64 D) (readTime D) repositoryKey
    (normalizedRepositoryCopy <$> allRows (st_repositories st)) page.

(** The merged record must differ from the stored one to be written. *)
Definition writeRepository (now : Z) st (cur r : Repository) : result StoreError (Store * unit) :=
  let candidate := normalizedRepositoryCopy r in
  if bool_decide (cur = candidate) then Ok (st, tt) else
  let! st' := insertRepository st candidate in
  Ok (recordCommittedRepository C now ResourceWatchModified r (m_Labels (rp_meta cur)) st', tt).
Definition updateRepositoryTxn (now : Z) st (r : Repository) (expected : string)
  : result StoreError (Store * unit) :=
  let! raw := orFail (firstId (st_repositories st) [rpUID r]) SNotFound in
  let cur := normalizedRepositoryCopy raw in
  let! _ := guard_ (negb (negb (absent (m_DeletionTimestamp (rp_meta cur))) &&
                          absent (m_DeletionTimestamp (rp_meta r)))) SConflict in
  let! _ := guard_ (negb (deletionRequested C (rp_meta r) &&
                          negb (deletionRequested C (rp_meta cur)) &&
                          hasCatalogResources st (rpUID cur))) SConflict in
  let! status := onStatus (MergeInfrastructureStatus (statusJSON C)
                   (m_Status (rp_meta cur)) (m_Status (rp_meta r))) in
  let! _ := guard_ (bool_decide (rpVersion cur = expected)) SConflict in
  let! _ := guard_ (match firstUnique (st_repositories st) ixRepositoryName
                            [rp_Namespace r; rpName r] with
                    | Some o => bool_decide (rpUID o = rpUID r) | None => true end)
              SAlreadyExists in
  writeRepository now st cur (onRepositoryMeta (setStatus status) r).
Definition UpdateRepository (now : Z) st (o : option Repository) (expected : string)
  : Store * result StoreError unit :=
  match o with
  | None => (st, Err SInvalidArgument)
  | Some r => txn st (updateRepositoryTxn now st (NormalizeRepositoryContract r) expected)
  end.

Definition DeleteRepository (now : Z) st (uid : string) : Store * result StoreError unit :=
  txn st (
    let! r := orFail (firstId (st_repositories st) [uid]) SNotFound in
    let! t := orFail (deleteRow (st_repositories st) r) SDatabase in
    Ok (recordCommittedRepository C now ResourceWatchDeleted (normalizedRepositoryCopy r) None
          (setRepositories t (st_deleted st) st), tt)).

(** Completion removes the mapping of the repository and leaves a tombstone. *)
Definition CompleteRepositoryDeletion (now : Z) st (uid expected : string)
  : Store * result StoreError unit :=
  txn st (
    let! r := orFail (firstId (st_repositories st) [uid]) SNotFound in
    let! _ := guard_ (bool_decide (rpVersion r = expected) &&
                      negb (absent (m_DeletionTimestamp (rp_meta r))) &&
                      DeletionFinalizersClear (m_Finalizers (rp_meta r)) ForegroundDeletionFinalizer)
                SConflict in
    let! _ := guard_ (negb (hasCatalogResources st uid)) SConflict in
    let! m := match firstUnique (st_mappings st) ixMappingRepository [uid] with
              | Some mp => orFail (deleteRow (st_mappings st) mp) SDatabase
              | None => Ok (st_mappings st)
              end in
    let! t := orFail (deleteRow (st_repositories st) r) SDatabase in
    let! d := orFail (insertRow (λ _, []) (st_deleted st) (normalizedRepositoryCopy r)) SDatabase in
    Ok (recordCommittedRepository C now ResourceWatchDeleted (normalizedRepositoryCopy r) None
          (setRepositories t d (setMappings m st)), tt)).

(** ** Mappings *)

Definition normalizedNamespaceMappingCopy (m : NamespaceMapping) : NamespaceMapping :=
  NormalizeNamespaceMappingContract m.
Definition mappingByName st (namespace name : string) : option NamespaceMapping :=
  firstId (st_mappings st) [namespace; name].
Definition mappingByRepository st (repositoryID : string) : option NamespaceMapping :=
  firstUnique (st_mappings st) ixMappingRepository [repositoryID].
Definition insertMapping st (m : NamespaceMapping) : result StoreError Store :=
  let! t := orFail (insertRow ixMappingRepository (st_mappings st) m) SDatabase in
  Ok (setMappings t st).

(** Creating a mapping that is already there succeeds. *)
Definition CreateNamespaceMapping st (o : option NamespaceMapping) : Store * result StoreError unit :=
  match o with
  | None => (st, Err SInvalidArgument)
  | Some m =>
      let m := NormalizeNamespaceMappingContract m in
      txn st (
        match mappingByName st (mp_Namespace m) (mp_Name m) with
        | Some e =>
            if bool_decide (mp_RepositoryID (normalizedNamespaceMappingCopy e) = mp_RepositoryID m)
            then Ok (st, tt) else Err SAlreadyExists
        | None =>
            match mappingByRepository st (mp_RepositoryID m) with
            | Some e =>
                let e := normalizedNamespaceMappingCopy e in
                if bool_decide (mp_Namespace e = mp_Namespace m) && bool_decide (mp_Name e = mp_Name m)
                then Ok (st, tt) else Err SAlreadyExists
            | None => let! st' := insertMapping st m in Ok (st', tt)
            end
        end)
  end.
Definition LookupRepository st (namespace name : string) : result StoreError NamespaceMapping :=
  let! m := orFail (mappingByName st namespace name) SNotFound in
  Ok (normalizedNamespaceMappingCopy m).
Definition LookupNamespaceByRepoID st (repositoryID : string) : result StoreError NamespaceMapping :=
  let! m := orFail (mappingByRepository st repositoryID) SNotFound in
  Ok (normalizedNamespaceMappingCopy m).

Definition RenameRepository st (namespace oldName newName : string) : Store * result StoreError unit :=
  txn st (
    let! old := orFail (mappingByName st namespace oldName) SNotFound in
    if bool_decide (oldName = newName) then Ok (st, tt) else
    let! _ := guard_ (absent (mappingByName st namespace newName)) SAlreadyExists in
    let! t := orFail (deleteRow (st_mappings st) old) SDatabase in
    let! st' := insertMapping (setMappings t st)
                  (NormalizeNamespaceMappingContract
                     (mkMapping namespace newName (mp_RepositoryID old) "" "")) in
    Ok (st', tt)).
Definition DeleteNamespaceMapping st (namespace name : string) : Store * result StoreError unit :=
  txn st (
    let! m := orFail (mappingByName st namespace name) SNotFound in
    let! t := orFail (deleteRow (st_mappings st) m) SDatabase in
    Ok (setMappings t st, tt)).
End tenancy.
