(* ===== verification/MemLaws.v ===== *)
(** * The in-memory datastore: invariants

    What every reachable store satisfies: names, SKUs and mappings are unique,
    the reverse owner-reference projection mirrors the stored references, and a
    repository whose deletion completed stays gone, with its content. *)

From S2P Require Import Prelude ResourceVersion Entities DeletionStatus WatchJournal MemTable.
From S2P Require Import MemStore Pagination MemCatalog MemCategory MemTenancy.
From Stdlib Require Import Ascii.

(** ** Fallible steps *)

Lemma bind_Ok {E A B} (r : result E A) (k : A → result E B) b :
  bind_result r k = Ok b → ∃ a, r = Ok a ∧ k a = Ok b.
Proof. destruct r; simpl; [eauto|done]. Qed.
Lemma orFail_Ok {A} (o : option A) e a : orFail o e = Ok a → o = Some a.
Proof. destruct o; simpl; congruence. Qed.
Lemma guard_Ok b e u : guard_ b e = Ok u → b = true.
Proof. by destruct b. Qed.
Lemma check_Ok o u : check o = Ok u → o = None.
Proof. by destruct o. Qed.

(** Open the binds of a successful computation. *)
Ltac res_inv :=
  repeat match goal with
  | H : Ok _ = Ok _ |- _ => injection H as H
  | H : Err _ = Ok _ |- _ => discriminate H
  | H : (let _ := _ in _) = Ok _ |- _ => cbv zeta in H
  | H : bind_result _ _ = Ok _ |- _ =>
      let a := fresh "a" in let Ha := fresh "Hb" in apply bind_Ok in H as (a & Ha & H)
  | H : orFail _ _ = Ok _ |- _ => apply orFail_Ok in H
  | H : guard_ _ _ = Ok _ |- _ => apply guard_Ok in H
  | H : check _ = Ok _ |- _ => apply check_Ok in H
  | p : (_ * _)%type |- _ => destruct p
  | u : unit |- _ => destruct u
  end; simplify_eq.

Section laws.
Context `{TR : !Table Resource resourceId} `{TN : !Table Namespace namespaceId}.
Context `{TG : !Table Repository repositoryRowId} `{TM : !Table NamespaceMapping mappingId}.
Context `{TO : !Table OwnerProjection projectionRowId} `{TA : !Table AncestorRow ancestorRowId}.
Context (C : Codecs) (D : StatusCodec).
Notation Store := (Store (TR := TR) (TN := TN) (TG := TG) (TM := TM) (TO := TO) (TA := TA)).
Implicit Types st : Store.

(** The rows of a table of the store. *)
Notation cat st k := (rows (st_catalog st k)).

Lemma txn_ind {A} (P : Store → Prop) st (m : result StoreError (Store * A)) :
  P st → (∀ st' a, m = Ok (st', a) → P st') → P (txn st m).1.
Proof. intros H0 H. destruct m as [[st' a]|e]; simpl; eauto. Qed.

(** ** The steps of the datastore *)

(** The status patches resources accept. *)
Inductive patchOf : CatalogKind → (Resource → result StoreError Resource) → Prop :=
| patch_file p : patchOf KFile (λ f, ApplyFileStatusPatch D f p)
| patch_product p : patchOf KProduct (λ f, ApplyProductStatusPatch D f p)
| patch_category p : patchOf KCategoryTaxonomy (λ f, ApplyCategoryTaxonomyStatusPatch D f p).

(** Every operation that changes the store, at any clock reading. *)
Inductive storeStep st : Store → Prop :=
| step_create now k r : storeStep st (create C now k st r).1
| step_update now k r v : storeStep st (update C now k st r v).1
| step_remove now k uid v : k ≠ KCategoryTaxonomy → k ≠ KProduct →
    storeStep st (remove C now k st uid v).1
| step_deleteProduct now uid v b : storeStep st (deleteProduct C now st uid v b).1
| step_patch now k ns n f : patchOf k f → k ≠ KCategoryTaxonomy →
    storeStep st (patch C now k st ns n f).1
| step_MarkProduct now uid v f t : storeStep st (MarkProductTerminating C now st uid v f t).1
| step_Membership p us : storeStep st (ReplaceCategoryProductMembership st p us).1
| step_CategoryStatus now ns n p :
    storeStep st (UpdateCategoryTaxonomyStatus C D now st ns n p).1
| step_DeleteCategory now uid : storeStep st (DeleteCategoryTaxonomy C now st uid).1
| step_MarkCategory now ns n v t : storeStep st (MarkCategoryTaxonomyDeletion C D now st ns n v t).1
| step_CompleteCategory now ns n v uid :
    storeStep st (CompleteCategoryTaxonomyDeletion C now st ns n v uid).1
| step_CreateNamespace now n : storeStep st (CreateNamespace C now st n).1
| step_UpdateNamespace now n v : storeStep st (UpdateNamespace C now st n v).1
| step_MarkNamespace now n v : storeStep st (MarkNamespaceDeletion C now st n v).1
| step_DeleteNamespace now uid : storeStep st (DeleteNamespace C now st uid).1
| step_CompleteNamespace now uid v :
    storeStep st (DeleteNamespaceWithResourceVersion C now st uid v).1
| step_CreateRepository now r b : storeStep st (createRepository C now st r b).1
| step_UpdateRepository now r v : storeStep st (UpdateRepository C now st r v).1
| step_DeleteRepository now uid : storeStep st (DeleteRepository C now st uid).1
| step_CompleteRepository now uid v : storeStep st (CompleteRepositoryDeletion C now st uid v).1
| step_CreateMapping m : storeStep st (CreateNamespaceMapping st m).1
| step_RenameRepository ns a b : storeStep st (RenameRepository st ns a b).1
| step_DeleteMapping ns n : storeStep st (DeleteNamespaceMapping st ns n).1.

(** ** What a step does to the tables *)

(** A row is written under conditions that keep the unique indexes right, or
    removed. *)
Definition freeFor (k : CatalogKind) (m : gmap (list string) Resource) (r : Resource) : Prop :=
  (∀ u s, m !! u = Some s → ixNameNamespace s = ixNameNamespace r → u = [r_UID r]) ∧
  (k = KProductVariant → ∀ u s, m !! u = Some s → ixSKU s = ixSKU r → u = [r_UID r]).

Definition catalogWf (k : CatalogKind) (m : gmap (list string) Resource) : Prop :=
  keyed resourceId m ∧ uniqueOn ixNameNamespace m ∧ (k = KProductVariant → uniqueOn ixSKU m) ∧
  ∀ u r, m !! u = Some r → "" ∉ required k r ∧ validRow (Table := TR) r = true.

Lemma catalogWf_write k m r :
  catalogWf k m → freeFor k m r → "" ∉ required k r → validRow (Table := TR) r = true →
  catalogWf k (<[[r_UID r] := r]> m).
Proof.
  intros (Hk & Hn & Hs & Hr) [Hfn Hfs] Hreq Hv.
  assert (∀ ix, uniqueOn ix m → (∀ u s, m !! u = Some s → ix s = ix r → u = [r_UID r]) →
    uniqueOn ix (<[[r_UID r] := r]> m)) as Hu.
  { intros ix Hu Hf u v a b Ha Hb E.
    apply lookup_insert_Some in Ha as [[<- <-]|[? Ha]], Hb as [[<- <-]|[? Hb]]; eauto.
    symmetry. by eapply Hf. }
  split_and!; [|by apply Hu|intros E; apply Hu; [by apply Hs|by apply Hfs]|].
  - intros u s [[<- <-]|[_ ?]]%lookup_insert_Some; [done|by apply Hk].
  - intros u s [[<- <-]|[_ ?]]%lookup_insert_Some; [done|by eapply Hr].
Qed.

Lemma catalogWf_delete k m u : catalogWf k m → catalogWf k (delete u m).
Proof.
  intros (Hk & Hn & Hs & Hr). split_and!.
  - intros ?? [_ ?]%lookup_delete_Some. by apply Hk.
  - intros ???? [_ ?]%lookup_delete_Some [_ ?]%lookup_delete_Some. by apply Hn.
  - intros E ???? [_ ?]%lookup_delete_Some [_ ?]%lookup_delete_Some. by apply Hs.
  - intros ?? [_ ?]%lookup_delete_Some. by eapply Hr.
Qed.

(** A row with the identity of the one it replaces is free for it. *)
Definition sameIdentity (r s : Resource) : Prop :=
  r_UID r = r_UID s ∧ r_Name r = r_Name s ∧ r_Namespace r = r_Namespace s ∧
  r_RepositoryID r = r_RepositoryID s ∧ r_SKU r = r_SKU s ∧ r_ProductRefName r = r_ProductRefName s.

Lemma freeFor_same k m old r :
  catalogWf k m → m !! [r_UID old] = Some old → sameIdentity old r → freeFor k m r.
Proof.
  intros (Hk & Hn & Hs & _) Ho (E1 & E2 & E3 & _ & E5 & _). split.
  - intros u s Hu E. rewrite <- E1. eapply Hn; [done..|].
    unfold ixNameNamespace in *. congruence.
  - intros Ek u s Hu E. rewrite <- E1. eapply (Hs Ek); [done..|]. unfold ixSKU in *. congruence.
Qed.

Lemma setCatalog_same k t st : st_catalog (setCatalog k t st) k = t.
Proof. simpl. by rewrite decide_True. Qed.
Lemma setCatalog_other k k' t st : k' ≠ k → st_catalog (setCatalog k t st) k' = st_catalog st k'.
Proof. intros. simpl. by rewrite decide_False. Qed.

(** The tables other than the catalogue, the owner projections and what is
    derived from them. *)
Definition sameTenancy st st' : Prop :=
  st_namespaces st' = st_namespaces st ∧ st_repositories st' = st_repositories st ∧
  st_deleted st' = st_deleted st ∧ st_mappings st' = st_mappings st.

Lemma writeRow_spec st k r sync st' :
  writeRow C st k r sync = Ok st' →
  cat st' k = <[[r_UID r] := r]> (cat st k) ∧ (∀ k', k' ≠ k → cat st' k' = cat st k') ∧
  sameTenancy st st' ∧ "" ∉ required k r ∧ validRow (Table := TR) r = true ∧
  (if sync then ∃ o, syncOwnerReferenceProjections C (st_owners st) (kindText k) r = Ok o ∧
                     st_owners st' = o
   else st_owners st' = st_owners st).
Proof.
  unfold writeRow. intros H. res_inv. apply insertRow_rows in Hb as (Hr & _ & Hreq & Hv).
  destruct sync; res_inv.
  - split_and!; [|by intros; simpl; rewrite decide_False|done..|by eexists].
    change (cat (setOwners a0 (setCatalog k a st)) k) with (cat (setCatalog k a st) k).
    by rewrite setCatalog_same.
  - split_and!; [|by intros; simpl; rewrite decide_False|done..]. by rewrite setCatalog_same.
Qed.

Lemma byName_rows st k ns n r :
  catalogWf k (cat st k) → ns ≠ "" → n ≠ "" →
  byName st k ns n = Some r ↔ ∃ u, cat st k !! u = Some r ∧ ixNameNamespace r = [ns; n].
Proof.
  intros (_ & Hn & _) H1 H2. unfold byName. apply firstUnique_rows; [done|].
  rewrite !not_elem_of_cons. auto using not_elem_of_nil.
Qed.

(** ** Effects

    The ways an operation can change the tables; several operations share each. *)

Definition tablesEq st st' : Prop :=
  (∀ k, st_catalog st' k = st_catalog st k) ∧ st_owners st' = st_owners st ∧ sameTenancy st st'.

(** The row [r] may be written over [st]: its unique values are free, and its
    parents admit it or it replaces a row of the same identity, whose references
    it keeps if its projections are not rewritten. *)
Definition writable st (k : CatalogKind) (r : Resource) (sync : bool) : Prop :=
  freeFor k (cat st k) r ∧
  ((sync = true ∧ catalogParentsActive C st (r_Namespace r) (r_RepositoryID r) = None) ∨
   ∃ old, cat st k !! [r_UID r] = Some old ∧ sameIdentity old r ∧
     (sync = false → m_OwnerReferences (r_meta old) = m_OwnerReferences (r_meta r))).

Definition repositoryWritable st (r : Repository) : Prop :=
  (∀ u s, rows (st_repositories st) !! u = Some s → ixRepositoryName s = ixRepositoryName r →
     u = repositoryRowId r) ∧
  (rows (st_deleted st) !! repositoryRowId r = None ∨
   is_Some (rows (st_repositories st) !! repositoryRowId r)).

Inductive effect st st' : Prop :=
| eff_none : tablesEq st st' → effect st st'
| eff_write k r sync st1 :
    writeRow C st k r sync = Ok st1 → writable st k r sync → tablesEq st1 st' → effect st st'
| eff_remove k uid v st1 old :
    removeRow st k uid v = Ok (st1, old) → tablesEq st1 st' → effect st st'
| eff_namespace n t :
    insertRow ixNamespaceName (st_namespaces st) n = Some t →
    (∀ u s, rows (st_namespaces st) !! u = Some s → ixNamespaceName s = ixNamespaceName n →
       u = namespaceId n) →
    tablesEq (setNamespaces t st) st' → effect st st'
| eff_dropNamespace n t :
    deleteRow (st_namespaces st) n = Some t → tablesEq (setNamespaces t st) st' → effect st st'
| eff_repository r t :
    insertRow requiredRepository (st_repositories st) r = Some t → repositoryWritable st r →
    tablesEq (setRepositories t (st_deleted st) st) st' → effect st st'
| eff_dropRepository r t :
    deleteRow (st_repositories st) r = Some t →
    tablesEq (setRepositories t (st_deleted st) st) st' → effect st st'
| eff_completeRepository r t d m :
    rows (st_repositories st) !! repositoryRowId r = Some r →
    deleteRow (st_repositories st) r = Some t →
    insertRow (λ _, []) (st_deleted st) (normalizedRepositoryCopy r) = Some d →
    hasCatalogResources st (rpUID r) = false →
    (m = st_mappings st ∨ ∃ mp, deleteRow (st_mappings st) mp = Some m) →
    tablesEq (setRepositories t d (setMappings m st)) st' → effect st st'
| eff_mapping mp m :
    (∃ t, (t = st_mappings st ∨ ∃ old, mappingId old ≠ mappingId mp ∧
             rows (st_mappings st) !! mappingId old = Some old ∧
             mp_RepositoryID old = mp_RepositoryID mp ∧ deleteRow (st_mappings st) old = Some t) ∧
       insertRow ixMappingRepository t mp = Some m ∧
       ∀ u s, rows t !! u = Some s → mp_RepositoryID s = mp_RepositoryID mp → u = mappingId mp) →
    tablesEq (setMappings m st) st' → effect st st'
| eff_dropMapping mp m :
    deleteRow (st_mappings st) mp = Some m → tablesEq (setMappings m st) st' → effect st st'.

(** Names are unique and rows are kept under their identifiers. *)
Definition namesWf st : Prop :=
  (∀ k, catalogWf k (cat st k)) ∧
  (keyed namespaceId (rows (st_namespaces st)) ∧ uniqueOn ixNamespaceName (rows (st_namespaces st)) ∧
   ∀ u n, rows (st_namespaces st) !! u = Some n → "" ∉ ixNamespaceName n) ∧
  (keyed repositoryRowId (rows (st_repositories st)) ∧
   uniqueOn ixRepositoryName (rows (st_repositories st)) ∧
   ∀ u r, rows (st_repositories st) !! u = Some r → "" ∉ ixRepositoryName r) ∧
  (keyed mappingId (rows (st_mappings st)) ∧ uniqueOn ixMappingRepository (rows (st_mappings st)) ∧
   ∀ u m, rows (st_mappings st) !! u = Some m → "" ∉ ixMappingRepository m).

Lemma tablesEq_journal j st : tablesEq st (setJournal j st).
Proof. done. Qed.
Lemma tablesEq_publish now ty k r l st : tablesEq st (publish C now ty k r l st).
Proof. unfold publish. by case_match. Qed.
Lemma tablesEq_trans st1 st2 st3 : tablesEq st1 st2 → tablesEq st2 st3 → tablesEq st1 st3.
Proof.
  intros (H1 & H2 & H3 & H4 & H5 & H6) (G1 & G2 & G3 & G4 & G5 & G6).
  split; [intros k; by rewrite G1|]. split; [congruence|]. unfold sameTenancy.
  split_and!; congruence.
Qed.

Lemma removeRow_spec st k uid v st' old :
  removeRow st k uid v = Ok (st', old) →
  cat st k !! [uid] = Some old ∧ cat st' k = delete (resourceId old) (cat st k) ∧
  (∀ k', k' ≠ k → cat st' k' = cat st k') ∧ sameTenancy st st' ∧
  deleteOwnerReferenceProjections (st_owners st) (kindText k) uid = Ok (st_owners st').
Proof.
  unfold removeRow. intros H. res_inv. rewrite firstId_rows in Hb. apply deleteRow_rows in Hb2.
  split_and!; [done| |by intros; simpl; rewrite decide_False|done..].
  by rewrite setCatalog_same.
Qed.

(** ** Effects keep names unique *)

Lemma catalogWf_effect_write st k r sync st1 :
  (∀ k, catalogWf k (cat st k)) → writeRow C st k r sync = Ok st1 → writable st k r sync →
  ∀ k, catalogWf k (cat st1 k).
Proof.
  intros Hw (E & Hother & _ & Hreq & Hv & _)%writeRow_spec [Hfree _] k'.
  destruct (decide (k' = k)) as [->|]; [rewrite E; by apply catalogWf_write|].
  by rewrite Hother.
Qed.

Lemma catalogWf_effect_remove st k uid v st1 old :
  (∀ k, catalogWf k (cat st k)) → removeRow st k uid v = Ok (st1, old) →
  ∀ k, catalogWf k (cat st1 k).
Proof.
  intros Hw (_ & E & Hother & _)%removeRow_spec k'.
  destruct (decide (k' = k)) as [->|]; [rewrite E; by apply catalogWf_delete|].
  by rewrite Hother.
Qed.

Lemma namesWf_tablesEq st st' : tablesEq st st' → namesWf st → namesWf st'.
Proof.
  intros (Hc & _ & H1 & H2 & H3 & H4) (Hk & Hn & Hr & Hm). unfold namesWf.
  rewrite H1, H2, H4. split_and!; try apply Hn; try apply Hr; try apply Hm.
  intros k. by rewrite Hc.
Qed.

(** A table that is written with a free value, or from which a row is removed. *)
Lemma insert_keeps {Row} {rowId : Row → list string} `{T : !Table Row rowId} req ix
    (t t' : table T) r :
  keyed rowId (rows t) ∧ uniqueOn ix (rows t) ∧ (∀ u s, rows t !! u = Some s → "" ∉ ix s) →
  insertRow req t r = Some t' →
  (∀ u s, rows t !! u = Some s → ix s = ix r → u = rowId r) → ("" ∉ req r → "" ∉ ix r) →
  keyed rowId (rows t') ∧ uniqueOn ix (rows t') ∧ (∀ u s, rows t' !! u = Some s → "" ∉ ix s).
Proof.
  intros (Hk & Hu & Hn) Hi Hf Hreq.
  split_and!; [by eapply keyed_insert|by eapply uniqueOn_insert|].
  apply insertRow_rows in Hi as (-> & _ & Hr & _).
  intros u s [[<- <-]|[_ ?]]%lookup_insert_Some; [by apply Hreq|by eapply Hn].
Qed.
Lemma delete_keeps {Row} {rowId : Row → list string} `{T : !Table Row rowId} ix (t t' : table T) r :
  keyed rowId (rows t) ∧ uniqueOn ix (rows t) ∧ (∀ u s, rows t !! u = Some s → "" ∉ ix s) →
  deleteRow t r = Some t' →
  keyed rowId (rows t') ∧ uniqueOn ix (rows t') ∧ (∀ u s, rows t' !! u = Some s → "" ∉ ix s).
Proof.
  intros (Hk & Hu & Hn) Hi. split_and!; [by eapply keyed_delete|by eapply uniqueOn_delete|].
  apply deleteRow_rows in Hi as ->. intros u s [_ ?]%lookup_delete_Some. by eapply Hn.
Qed.

Lemma effect_namesWf st st' : effect st st' → namesWf st → namesWf st'.
Proof.
  intros Heff Hwf. pose proof Hwf as (Hk & Hn & Hr & Hm).
  destruct Heff as [Ht|k r sync st1 Hw Hwr Ht|k uid v st1 old Hw Ht|n t Hi Hf Ht|n t Hd Ht|
    r t Hi Hf Ht|r t Hd Ht|r t d m Hrow Hd Hi Hc Hmap Ht|mp m Hi Ht|mp m Hd Ht];
    apply (namesWf_tablesEq _ _ Ht);
    [done| | |refine (conj _ (conj _ (conj _ _))); simpl; try done..].
  - pose proof (catalogWf_effect_write _ _ _ _ _ Hk Hw Hwr).
    apply writeRow_spec in Hw as (_ & _ & (E1 & E2 & E3 & E4) & _). unfold namesWf.
    by rewrite E1, E2, E4.
  - pose proof (catalogWf_effect_remove _ _ _ _ _ _ Hk Hw).
    apply removeRow_spec in Hw as (_ & _ & _ & (E1 & E2 & E3 & E4) & _). unfold namesWf.
    by rewrite E1, E2, E4.
  - by eapply insert_keeps.
  - by eapply delete_keeps.
  - destruct Hf. by eapply insert_keeps.
  - by eapply delete_keeps.
  - by eapply delete_keeps.
  - destruct Hmap as [->|[mp Hmd]]; [done|by eapply delete_keeps].
  - destruct Hi as (t & Ht' & Hi & Hf).
    assert (keyed mappingId (rows t) ∧ uniqueOn ixMappingRepository (rows t) ∧
      ∀ u m, rows t !! u = Some m → "" ∉ ixMappingRepository m) as Hmt.
    { destruct Ht' as [->|(old & _ & _ & _ & Hd)]; [done|by eapply delete_keeps]. }
    eapply insert_keeps; [exact Hmt|exact Hi| |done].
    intros u s Hs E. eapply Hf; [done|]. by injection E.
  - by eapply delete_keeps.
Qed.

(** ** Operations have effects *)

Lemma required_named k r : "" ∉ required k r → r_Namespace r ≠ "" ∧ r_Name r ≠ "".
Proof. unfold required. rewrite not_elem_of_app, !not_elem_of_cons. naive_solver. Qed.
Lemma required_sku r : "" ∉ required KProductVariant r → r_SKU r ≠ "".
Proof. unfold required. rewrite not_elem_of_app, !not_elem_of_cons. naive_solver. Qed.

(** What the name and SKU guards of creations and updates establish. *)
Lemma freeFor_guards st k r :
  catalogWf k (cat st k) → "" ∉ required k r →
  (∀ o, byName st k (r_Namespace r) (r_Name r) = Some o → r_UID o = r_UID r) →
  (k = KProductVariant → ∀ o, bySKU st (r_Namespace r) (r_SKU r) = Some o → r_UID o = r_UID r) →
  freeFor k (cat st k) r.
Proof.
  intros Hwf Hreq Hn Hs. pose proof Hwf as (Hk & _ & Hsku & _).
  destruct (required_named _ _ Hreq) as [H1 H2]. split.
  - intros u s Hu E. rewrite <- (Hk _ _ Hu). unfold resourceId. f_equal. apply Hn.
    apply byName_rows; [done..|]. exists u. by rewrite E.
  - intros Ek u s Hu E. subst k. rewrite <- (Hk _ _ Hu). unfold resourceId. f_equal.
    apply Hs; [done|]. apply firstUnique_rows; [by apply Hsku| |exists u; by rewrite E].
    apply required_sku in Hreq. rewrite !not_elem_of_cons. auto using not_elem_of_nil.
Qed.

Lemma createRow_writes st k r st1 :
  (∀ k, catalogWf k (cat st k)) → createRow C st k r = Ok st1 →
  writeRow C st k r true = Ok st1 ∧ writable st k r true ∧ cat st k !! [r_UID r] = None.
Proof.
  intros Hwf H. unfold createRow in H. res_inv. split; [done|].
  pose proof (writeRow_spec _ _ _ _ _ H) as (_ & _ & _ & Hreq & _).
  rewrite firstId_rows in Hb0. split; [|by destruct (cat st k !! [r_UID r])].
  split; [|left; auto]. apply freeFor_guards; [done..| |].
  - intros o Ho. by rewrite Ho in Hb1.
  - intros -> o Ho. rewrite Ho in Hb2. rewrite orb_false_r in Hb2.
    apply bool_decide_eq_true_1 in Hb2. by apply required_sku in Hreq.
Qed.

Lemma takenBy_false o uid : negb (takenBy o uid) = true → ∀ r, o = Some r → r_UID r = uid.
Proof. intros H r ->. simpl in H. rewrite negb_involutive in H. by apply bool_decide_eq_true_1 in H. Qed.

Lemma updateRow_writes st k r v st1 o :
  (∀ k, catalogWf k (cat st k)) → updateRow C st k r v = Ok (st1, o) →
  catalogParentsActive C st (r_Namespace r) (r_RepositoryID r) = None ∧
  ∃ old, cat st k !! [r_UID r] = Some old ∧
  versionCheck k (r_ResourceVersion old) v (r_ResourceVersion r) = true ∧
  ((o = None ∧ st1 = st ∧ k = KFile ∧ old = r) ∨
   (o = Some old ∧ writeRow C st k r true = Ok st1 ∧ writable st k r true)).
Proof.
  intros Hwf H. unfold updateRow in H. apply bind_Ok in H as ([] & Hp%check_Ok & H).
  apply bind_Ok in H as (old & Ho%orFail_Ok & H). rewrite firstId_rows in Ho.
  apply bind_Ok in H as ([] & Hv%guard_Ok & H). split; [done|]. exists old.
  split; [done|]. split; [done|].
  destruct (match k with KFile => bool_decide (old = r) | _ => false end) eqn:E.
  { left. destruct k; try done. apply bool_decide_eq_true_1 in E. by res_inv. }
  right. res_inv. split; [done|]. split; [done|].
  pose proof (writeRow_spec _ _ _ _ _ Hb2) as (_ & _ & _ & Hreq & _).
  split; [|left; auto]. apply freeFor_guards; [done..| |].
  - by apply takenBy_false.
  - intros ->. destruct (bool_decide (r_SKU r = "")) eqn:Es; [|by apply takenBy_false].
    apply bool_decide_eq_true_1 in Es. by apply required_sku in Hreq.
Qed.

Lemma replace_writable st k old r sync :
  (∀ k, catalogWf k (cat st k)) → cat st k !! [r_UID old] = Some old → sameIdentity old r →
  (sync = false → m_OwnerReferences (r_meta old) = m_OwnerReferences (r_meta r)) →
  writable st k r sync.
Proof.
  intros Hwf Ho Hs Hown. split; [by eapply freeFor_same|]. right. exists old.
  destruct Hs as (E1 & ?). by rewrite <- E1.
Qed.

(** A row found by name sits under its own identifier. *)
Lemma byName_found st k ns n r :
  (∀ k, catalogWf k (cat st k)) → byName st k ns n = Some r → cat st k !! [r_UID r] = Some r.
Proof.
  intros Hwf. pose proof (Hwf k) as (Hk & Hn & _).
  intros (_ & u & Hu & _)%firstUnique_found; [|done].
  by rewrite (Hk _ _ Hu : [r_UID r] = u).
Qed.

Lemma applyPatch_same valid r p r' :
  applyPatch D valid r p = Ok r' →
  sameIdentity r r' ∧ m_OwnerReferences (r_meta r') = m_OwnerReferences (r_meta r).
Proof. unfold applyPatch. intros H. repeat case_match; simplify_eq. by repeat split. Qed.

Lemma patchOf_same k f r r' :
  patchOf k f → f r = Ok r' →
  sameIdentity r r' ∧
  (k = KFile → m_OwnerReferences (r_meta r') = m_OwnerReferences (r_meta r)).
Proof.
  destruct 1 as [p|p|p]; simpl; intros H.
  - apply applyPatch_same in H as [? ?]. by split.
  - unfold ApplyProductStatusPatch in H. res_inv. apply applyPatch_same in Hb as [H1 _].
    split; [|done]. by destruct (pt_OwnerReferences p).
  - apply applyPatch_same in H as [? ?]. by split.
Qed.

Lemma patchRow_writes st k ns n f st1 old r :
  (∀ k, catalogWf k (cat st k)) → patchOf k f → patchRow C st k ns n f = Ok (st1, old, r) →
  writeRow C st k r (negb (bool_decide (k = KFile))) = Ok st1 ∧
  writable st k r (negb (bool_decide (k = KFile))).
Proof.
  intros Hwf Hp H. unfold patchRow in H. res_inv. split; [done|].
  destruct (patchOf_same _ _ _ _ Hp Hb0) as [Hs Ho].
  apply (byName_found st k) in Hb; [|done]. eapply replace_writable; [done..|].
  intros E%negb_false_iff%bool_decide_eq_true_1. by rewrite Ho.
Qed.

(** Closing an effect: the later changes leave the tables alone. *)
Lemma eff_written st st1 k r sync now ty l st' :
  writeRow C st k r sync = Ok st1 → writable st k r sync →
  publish C now ty k r l st1 = st' → effect st st'.
Proof. intros Hw Hf <-. eapply eff_write; [done..|]. apply tablesEq_publish. Qed.

Lemma catalog_steps st st' :
  (∀ k, catalogWf k (cat st k)) →
  (∃ now k r, st' = (create C now k st r).1) ∨ (∃ now k r v, st' = (update C now k st r v).1) ∨
  (∃ now k uid v, st' = (remove C now k st uid v).1) ∨
  (∃ now uid v b, st' = (deleteProduct C now st uid v b).1) ∨
  (∃ now k ns n f, patchOf k f ∧ st' = (patch C now k st ns n f).1) ∨
  (∃ now uid v f t, st' = (MarkProductTerminating C now st uid v f t).1) → effect st st'.
Proof.
  intros Hwf [(now & k & r & ->)|[(now & k & r & v & ->)|[(now & k & uid & v & ->)|
    [(now & uid & v & b & ->)|[(now & k & ns & n & f & Hp & ->)|(now & uid & v & f & t & ->)]]]]].
  - destruct r as [r|]; [|by apply eff_none]. apply (txn_ind (effect st)); [by apply eff_none|].
    intros st' [] H. res_inv. apply createRow_writes in Hb as (? & ? & _); [|done].
    by eapply eff_written.
  - destruct r as [r|]; [|by apply eff_none]. apply (txn_ind (effect st)); [by apply eff_none|].
    intros st' [] H. res_inv.
    apply updateRow_writes in Hb as (_ & old & _ & _ & [(-> & -> & _)|(-> & ? & ?)]); [| |done].
    + by apply eff_none.
    + by eapply eff_written.
  - apply (txn_ind (effect st)); [by apply eff_none|]. intros st' [] H. res_inv.
    eapply eff_remove; [done|]. apply tablesEq_publish.
  - apply (txn_ind (effect st)); [by apply eff_none|]. intros st' [] H. res_inv.
    eapply eff_remove; [done|]. eapply tablesEq_trans; [|apply tablesEq_publish]. done.
  - apply (txn_ind (effect st)); [by apply eff_none|]. intros st' r' H. res_inv.
    apply patchRow_writes in Hb as [? ?]; [|done..]. by eapply eff_written.
  - apply (txn_ind (effect st)); [by apply eff_none|]. intros st' r' H. res_inv.
    rewrite firstId_rows in Hb. case_match; res_inv; [by apply eff_none|].
    eapply eff_written; [done| |done].
    pose proof (Hwf KProduct) as (Hk & _). apply Hk in Hb as E. injection E as E.
    eapply (replace_writable _ _ a); [done|by rewrite E|done|done].
Qed.

Lemma category_steps st st' :
  (∀ k, catalogWf k (cat st k)) →
  (∃ now ns n p, st' = (UpdateCategoryTaxonomyStatus C D now st ns n p).1) ∨
  (∃ now uid, st' = (DeleteCategoryTaxonomy C now st uid).1) ∨
  (∃ now ns n v t, st' = (MarkCategoryTaxonomyDeletion C D now st ns n v t).1) ∨
  (∃ now ns n v uid, st' = (CompleteCategoryTaxonomyDeletion C now st ns n v uid).1) → effect st st'.
Proof.
  intros Hwf [(now & ns & n & p & ->)|[(now & uid & ->)|[(now & ns & n & v & t & ->)|
    (now & ns & n & v & uid & ->)]]]; (apply (txn_ind (effect st)); [by apply eff_none|]); intros st' x H.
  - apply bind_Ok in H as ([[st1 old] r] & Hp & H).
    apply patchRow_writes in Hp as [Hw Hf]; [|done|constructor].
    apply bind_Ok in H as (st2 & H2 & H). injection H as <- <-.
    eapply eff_write; [done..|]. eapply tablesEq_trans; [|apply tablesEq_publish].
    destruct (pt_Resolved p); res_inv; done.
  - res_inv. eapply eff_remove; [done|]. eapply tablesEq_trans; [|apply tablesEq_publish]. done.
  - apply bind_Ok in H as (old & Ho%orFail_Ok & H).
    apply (byName_found st KCategoryTaxonomy) in Ho; [|done].
    case_match; res_inv; [by apply eff_none|]. eapply eff_written; [done| |done].
    eapply (replace_writable _ _ old); [done..| |done].
    unfold MarkCategoryTaxonomyTerminating in Hb0.
    destruct (readDoc D _); simplify_eq/=. by repeat split.
  - apply bind_Ok in H as (c & Hc%orFail_Ok & H).
    apply (byName_found st KCategoryTaxonomy) in Hc; [|done]. res_inv.
    apply andb_true_iff in Hb as [[_ Hu%bool_decide_eq_true_1]%andb_true_iff _].
    eapply (eff_remove _ _ KCategoryTaxonomy (r_UID x) None
      (setCatalog KCategoryTaxonomy a3 (setOwners a1 st)) x).
    + unfold removeRow. rewrite firstId_rows, Hc. cbn [orFail bind_result guard_].
      rewrite Hb1. cbn [orFail bind_result guard_]. by rewrite Hb3.
    + eapply tablesEq_trans; [|apply tablesEq_publish]. done.
Qed.

Lemma absent_true {A} (o : option A) : absent o = true → o = None.
Proof. by destruct o. Qed.

(** A namespace whose name is taken by itself, or by nobody, is free. *)
Lemma namespace_free st n :
  namesWf st → "" ∉ ixNamespaceName n →
  (∀ o, firstUnique (st_namespaces st) ixNamespaceName [nsName n] = Some o → nsUID o = nsUID n) →
  ∀ u s, rows (st_namespaces st) !! u = Some s → ixNamespaceName s = ixNamespaceName n →
    u = namespaceId n.
Proof.
  intros (_ & (Hk & Hu & _) & _) Hn Ho u s Hs E.
  rewrite <- (Hk _ _ Hs). unfold namespaceId. f_equal. apply Ho.
  apply firstUnique_rows; [done..|]. eauto.
Qed.
Lemma repository_free st r :
  namesWf st → "" ∉ ixRepositoryName r →
  (∀ o, firstUnique (st_repositories st) ixRepositoryName [rp_Namespace r; rpName r] = Some o →
     rpUID o = rpUID r) →
  ∀ u s, rows (st_repositories st) !! u = Some s → ixRepositoryName s = ixRepositoryName r →
    u = repositoryRowId r.
Proof.
  intros (_ & _ & (Hk & Hu & _) & _) Hn Ho u s Hs E.
  rewrite <- (Hk _ _ Hs). unfold repositoryRowId. f_equal. apply Ho.
  apply firstUnique_rows; [done..|]. eauto.
Qed.

(** Normalising twice changes nothing that identifies a row. *)
Lemma normalizeMeta_ids u m : m_UID (normalizeMeta u m) = u ∧ m_Name (normalizeMeta u m) = m_Name m.
Proof. unfold normalizeMeta. cbv zeta. repeat case_match; done. Qed.

Lemma normalizeNamespace_uid n : nsUID (NormalizeNamespaceContract (NormalizeNamespaceContract n)) =
  nsUID (NormalizeNamespaceContract n).
Proof.
  unfold nsUID, NormalizeNamespaceContract. simpl.
  rewrite !(proj1 (normalizeMeta_ids _ _)). repeat case_bool_decide; congruence.
Qed.
Lemma normalizeNamespace_name n : nsName (NormalizeNamespaceContract n) = nsName n.
Proof. unfold nsName, NormalizeNamespaceContract. simpl. apply normalizeMeta_ids. Qed.
Lemma onNamespaceMeta_status s n : nsUID (onNamespaceMeta (setStatus s) n) = nsUID n ∧
  nsName (onNamespaceMeta (setStatus s) n) = nsName n ∧ n_ID (onNamespaceMeta (setStatus s) n) = n_ID n.
Proof. done. Qed.
(** A namespace with both identifiers set, or neither. *)
Lemma renormalize_uid n :
  (nsUID n = "" → n_ID n = "") → nsUID (NormalizeNamespaceContract n) = nsUID n.
Proof.
  unfold nsUID, NormalizeNamespaceContract. simpl. rewrite !(proj1 (normalizeMeta_ids _ _)).
  intros H. case_bool_decide; [|done]. by rewrite H.
Qed.
Lemma normalized_ids n :
  nsUID (NormalizeNamespaceContract n) = "" → n_ID (NormalizeNamespaceContract n) = "".
Proof.
  unfold nsUID, NormalizeNamespaceContract. simpl. rewrite !(proj1 (normalizeMeta_ids _ _)).
  repeat case_bool_decide; congruence.
Qed.

Lemma namespace_steps st st' :
  namesWf st →
  (∃ now n, st' = (CreateNamespace C now st n).1) ∨
  (∃ now n v, st' = (UpdateNamespace C now st n v).1) ∨
  (∃ now n v, st' = (MarkNamespaceDeletion C now st n v).1) ∨
  (∃ now uid, st' = (DeleteNamespace C now st uid).1) ∨
  (∃ now uid v, st' = (DeleteNamespaceWithResourceVersion C now st uid v).1) → effect st st'.
Proof.
  intros Hwf.
  assert (∀ n st1, insertNamespace st n = Ok st1 →
    (∀ o, firstUnique (st_namespaces st) ixNamespaceName [nsName n] = Some o → nsUID o = nsUID n) →
    ∀ st', tablesEq st1 st' → effect st st') as Hins.
  { intros n st1 H Ho st2 Ht. unfold insertNamespace in H. res_inv.
    eapply eff_namespace; [done| |done]. apply insertRow_rows in Hb as (_ & _ & Hn & _).
    by apply namespace_free. }
  intros [(now & [n|] & ->)|[(now & [n|] & v & ->)|[(now & [n|] & v & ->)|[(now & uid & ->)|
    (now & uid & v & ->)]]]]; try (by apply eff_none);
    (apply (txn_ind (effect st)); [by apply eff_none|]); intros st' x H.
  - res_inv. eapply Hins; [done| |done]. intros o Ho.
    unfold normalizedNamespaceCopy in Ho. rewrite normalizeNamespace_name in Ho.
    apply absent_true in Hb1. by rewrite Ho in Hb1.
  - res_inv. unfold normalizedNamespaceCopy in *.
    eapply Hins; [done| |done]. intros o Ho. rewrite normalizeNamespace_name in Ho.
    simpl in Ho. rewrite Ho in Hb5. apply bool_decide_eq_true_1 in Hb5. rewrite Hb5.
    rewrite renormalize_uid; [done|]. apply normalized_ids.
  - res_inv. unfold normalizedNamespaceCopy in *.
    eapply Hins; [done| |done]. intros o Ho. rewrite normalizeNamespace_name in Ho.
    rewrite renormalize_uid; [|apply normalized_ids].
    destruct Hwf as (_ & (Hk & Hu & _) & _).
    apply firstUnique_found in Ho as (Hne & u & Ho & En); [|done].
    rewrite firstId_rows in Hb0. apply andb_true_iff in Hb1 as [_ E%bool_decide_eq_true_1].
    rewrite !normalizeNamespace_name in E.
    assert (u = [nsUID (NormalizeNamespaceContract n)]) as ->.
    { eapply Hu; [exact Ho|exact Hb0|]. rewrite En. unfold ixNamespaceName. f_equal.
      rewrite (proj1 (proj2 (onNamespaceMeta_status _ _))), normalizeNamespace_name. done. }
    rewrite Hb0 in Ho. injection Ho as ->. apply Hk in Hb0. by injection Hb0.
  - unfold dropNamespace in H. res_inv. by eapply eff_dropNamespace.
  - unfold dropNamespace in H. res_inv. by eapply eff_dropNamespace.
Qed.

Lemma normalizeRepository_name r : rpName (NormalizeRepositoryContract r) = rpName r.
Proof. unfold rpName, NormalizeRepositoryContract. simpl. apply normalizeMeta_ids. Qed.
(** Renormalising a repository already in canonical form keeps its identity. *)
Lemma renormalize_repository f r :
  (∀ m, m_UID (f m) = m_UID m ∧ m_Name (f m) = m_Name m) →
  let c := NormalizeRepositoryContract r in
  let c' := NormalizeRepositoryContract (onRepositoryMeta f c) in
  rpUID c' = rpUID c ∧ rpName c' = rpName c ∧ rp_Namespace c' = rp_Namespace c.
Proof.
  intros Hf. unfold rpUID, rpName, NormalizeRepositoryContract. simpl.
  rewrite !(proj1 (normalizeMeta_ids _ _)), !(proj2 (normalizeMeta_ids _ _)).
  rewrite !(proj1 (Hf _)), !(proj2 (Hf _)).
  rewrite !(proj1 (normalizeMeta_ids _ _)), !(proj2 (normalizeMeta_ids _ _)).
  split_and!; repeat case_bool_decide; congruence.
Qed.

Lemma renormalize_repository_id r :
  let c := NormalizeRepositoryContract r in
  rpUID (NormalizeRepositoryContract c) = rpUID c ∧
  rpName (NormalizeRepositoryContract c) = rpName c ∧
  rp_Namespace (NormalizeRepositoryContract c) = rp_Namespace c.
Proof.
  pose proof (renormalize_repository id r) as H. cbv zeta in *.
  replace (onRepositoryMeta id (NormalizeRepositoryContract r)) with (NormalizeRepositoryContract r)
    in H by (by destruct (NormalizeRepositoryContract r)).
  by apply H.
Qed.

Lemma insertRepository_effect st r st1 st' :
  namesWf st → insertRepository st r = Ok st1 →
  (∀ o, firstUnique (st_repositories st) ixRepositoryName [rp_Namespace r; rpName r] = Some o →
     rpUID o = rpUID r) →
  (rows (st_deleted st) !! repositoryRowId r = None ∨
   is_Some (rows (st_repositories st) !! repositoryRowId r)) →
  tablesEq st1 st' → effect st st'.
Proof.
  intros Hwf H Ho Hd Ht. unfold insertRepository in H. res_inv.
  eapply eff_repository; [done| |done]. apply insertRow_rows in Hb as (_ & _ & Hn & _).
  split; [|done]. by apply repository_free.
Qed.

(** A repository in canonical form: normalising it again, or with a new status,
    keeps its identity. *)
Definition canonical (c : Repository) : Prop :=
  ∀ f, (∀ m, m_UID (f m) = m_UID m ∧ m_Name (f m) = m_Name m) →
  let c' := NormalizeRepositoryContract (onRepositoryMeta f c) in
  rpUID c' = rpUID c ∧ rpName c' = rpName c ∧ rp_Namespace c' = rp_Namespace c.
Lemma canonical_normalized r : canonical (NormalizeRepositoryContract r).
Proof. intros f Hf. by apply renormalize_repository. Qed.

Lemma createRepositoryTxn_effect st now c b st' x :
  namesWf st → canonical c → createRepositoryTxn C now st c b = Ok (st', x) → effect st st'.
Proof.
  intros Hwf Hc H. unfold createRepositoryTxn in H. res_inv.
  apply absent_true in Hb0, Hb3. rewrite firstId_rows in Hb0.
  destruct (Hc id) as (E1 & E2 & E3); [done|]. unfold normalizedRepositoryCopy in *.
  replace (onRepositoryMeta id c) with c in E1, E2, E3 by (by destruct c).
  match goal with H : insertRepository _ _ = Ok _ |- _ =>
    eapply (insertRepository_effect _ _ _ _ Hwf H); [| |apply tablesEq_journal] end.
  - rewrite E2, E3, Hb3. done.
  - left. unfold repositoryRowId. unfold rpUID in *. by rewrite E1.
Qed.
Lemma createRepository_effect st now o b : namesWf st → effect st (createRepository C now st o b).1.
Proof.
  intros Hwf. destruct o as [r|]; [|by apply eff_none].
  apply (txn_ind (effect st)); [by apply eff_none|]. intros st' x.
  apply createRepositoryTxn_effect; [done|apply canonical_normalized].
Qed.

Lemma updateRepositoryTxn_effect st now c v st' x :
  namesWf st → canonical c → updateRepositoryTxn C now st c v = Ok (st', x) → effect st st'.
Proof.
  intros Hwf Hc H. unfold updateRepositoryTxn in H.
  apply bind_Ok in H as (raw & Hraw%orFail_Ok & H). rewrite firstId_rows in Hraw.
  apply bind_Ok in H as ([] & _ & H). apply bind_Ok in H as ([] & _ & H).
  apply bind_Ok in H as (status & _ & H). apply bind_Ok in H as ([] & _ & H).
  apply bind_Ok in H as ([] & Hname%guard_Ok & H). unfold writeRepository in H. cbv zeta in H.
  destruct (bool_decide _); [res_inv; by apply eff_none|]. res_inv.
  destruct (Hc (setStatus status)) as (E1 & E2 & E3); [done|]. unfold normalizedRepositoryCopy in *.
  match goal with H : insertRepository _ _ = Ok _ |- _ =>
    eapply (insertRepository_effect _ _ _ _ Hwf H); [| |apply tablesEq_journal] end.
  - rewrite E1, E2, E3. intros o Ho. rewrite Ho in Hname. by apply bool_decide_eq_true_1 in Hname.
  - right. unfold repositoryRowId. unfold rpUID in *. rewrite E1. by eexists.
Qed.
Lemma UpdateRepository_effect st now o v : namesWf st → effect st (UpdateRepository C now st o v).1.
Proof.
  intros Hwf. destruct o as [r|]; [|by apply eff_none].
  apply (txn_ind (effect st)); [by apply eff_none|]. intros st' x.
  apply updateRepositoryTxn_effect; [done|apply canonical_normalized].
Qed.

Lemma DeleteRepository_effect st now uid : namesWf st → effect st (DeleteRepository C now st uid).1.
Proof.
  intros Hwf. apply (txn_ind (effect st)); [by apply eff_none|]. intros st' x H.
  res_inv. by eapply eff_dropRepository.
Qed.

Lemma CompleteRepository_effect st now uid v : namesWf st → effect st (CompleteRepositoryDeletion C now st uid v).1.
Proof.
  intros Hwf. apply (txn_ind (effect st)); [by apply eff_none|]. intros st' x H.
  apply bind_Ok in H as (r & Hr%orFail_Ok & H). rewrite firstId_rows in Hr.
  apply bind_Ok in H as ([] & _ & H). apply bind_Ok in H as ([] & Hc%guard_Ok & H).
  apply bind_Ok in H as (m & Hm & H). res_inv.
  pose proof Hwf as (_ & _ & (Hk & _) & _). apply Hk in Hr as E. injection E as E.
  eapply (eff_completeRepository _ _ r); [|done|done| | |done].
  + unfold repositoryRowId. by rewrite E.
  + unfold rpUID. rewrite E. by apply negb_true_iff.
  + destruct (firstUnique _ _ _); res_inv; [right; by eexists|by left].
Qed.

Lemma mapping_by_repository st id m :
  namesWf st → mappingByRepository st id = Some m ↔
  id ≠ "" ∧ ∃ u, rows (st_mappings st) !! u = Some m ∧ mp_RepositoryID m = id.
Proof.
  intros (_ & _ & _ & (_ & Hu & _)). unfold mappingByRepository. split.
  - intros (Hne & u & Hm & E)%firstUnique_found; [|done]. injection E as E.
    split; [set_solver|eauto].
  - intros (Hne & u & Hm & E). apply firstUnique_rows; [done|set_solver|].
    exists u. split; [done|]. unfold ixMappingRepository. by rewrite E.
Qed.

Lemma mapping_steps st st' :
  namesWf st →
  (∃ m, st' = (CreateNamespaceMapping st m).1) ∨ (∃ ns a b, st' = (RenameRepository st ns a b).1) ∨
  (∃ ns n, st' = (DeleteNamespaceMapping st ns n).1) → effect st st'.
Proof.
  intros Hwf [([m|] & ->)|[(ns & a & b & ->)|(ns & n & ->)]]; try (by apply eff_none);
    (apply (txn_ind (effect st)); [by apply eff_none|]); intros st' x H.
  - set (c := NormalizeNamespaceMappingContract m) in *. cbv zeta in H.
    destruct (mappingByName st _ _); [case_bool_decide; res_inv; by apply eff_none|].
    destruct (mappingByRepository st (mp_RepositoryID c)) as [e|] eqn:Er.
    { cbv zeta in H. case_match; res_inv. by apply eff_none. }
    res_inv. unfold insertMapping in Hb. res_inv. eapply eff_mapping; [|done].
    exists (st_mappings st). split; [by left|]. split; [done|]. intros u s Hs E.
    apply insertRow_rows in Hb0 as (_ & _ & Hne & _). exfalso.
    assert (mappingByRepository st (mp_RepositoryID c) = Some s) as Hx; [|congruence].
    apply mapping_by_repository; [done|]. split; [unfold ixMappingRepository in Hne; set_solver|].
    eauto.
  - apply bind_Ok in H as (old & Hold%orFail_Ok & H). unfold mappingByName in Hold.
    rewrite firstId_rows in Hold. case_bool_decide as Eab; res_inv; [by apply eff_none|].
    pose proof Hwf as (_ & _ & _ & (Hk & Hu & Hne)). apply Hk in Hold as E. injection E as En Ea.
    unfold insertMapping in Hb1. res_inv. set (mp := NormalizeNamespaceMappingContract _) in *.
    assert (mp_Name mp = b) as Emb by done.
    assert (mp_RepositoryID mp = mp_RepositoryID old) as Emr.
    { unfold mp, NormalizeNamespaceMappingContract. simpl. by case_bool_decide. }
    match goal with
    | Hi : insertRow _ _ mp = Some ?m, Hd : deleteRow _ old = Some ?t |- _ =>
        apply (eff_mapping _ _ mp m); [exists t; rename Hd into Hdel|done]
    end.
    split_and!; [|done|].
    + right. exists old. split_and!; [|exact Hold|done|done].
      unfold mappingId. rewrite Emb. congruence.
    + apply deleteRow_rows in Hdel as ->. intros u s [Hou Hs]%lookup_delete_Some E. exfalso.
      apply Hou.
      eapply Hu; [exact Hold|exact Hs|]. unfold ixMappingRepository. by rewrite E, Emr.
  - res_inv. by eapply eff_dropMapping.
Qed.

Lemma storeStep_effect st st' : namesWf st → storeStep st st' → effect st st'.
Proof.
  intros Hwf Hs. pose proof (proj1 Hwf) as Hk. destruct Hs.
  1-4: apply catalog_steps; naive_solver.
  1: apply catalog_steps; [done|]; do 4 right; left; eauto 10.
  1: apply catalog_steps; [done|]; do 5 right; eauto 10.
  1: destruct p; by apply eff_none.
  1-4: apply category_steps; [done|]; naive_solver.
  1-5: apply namespace_steps; [done|]; naive_solver.
  1: by apply createRepository_effect.
  1: by apply UpdateRepository_effect.
  1: by apply DeleteRepository_effect.
  1: by apply CompleteRepository_effect.
  all: apply mapping_steps; [done|]; naive_solver.
Qed.

(** ** Reachable stores *)

Lemma emptyStore_namesWf epoch retention : namesWf (emptyStore epoch retention).
Proof.
  assert (∀ k, catalogWf k (cat (emptyStore epoch retention) k)) as Hk.
  { intros k. simpl. rewrite rows_emptyTable.
    split_and!; [by intros ???|by intros ?????|by intros ??????|by intros ???]. }
  refine (conj Hk (conj _ (conj _ _))); simpl; rewrite rows_emptyTable;
    (split_and!; [by intros ???|by intros ?????|by intros ???]).
Qed.

Lemma reachable_namesWf epoch retention st :
  rtc storeStep (emptyStore epoch retention) st → namesWf st.
Proof.
  intros Hr. apply (rtc_preserves _ _ (λ st st' Hw Hs, effect_namesWf _ _ (storeStep_effect _ _ Hw Hs) Hw)
    _ _ Hr). apply emptyStore_namesWf.
Qed.

Lemma getByName_stored st k ns n r :
  namesWf st → getByName st k ns n = Ok r ↔ ∃ u, cat st k !! u = Some r ∧ r_Namespace r = ns ∧ r_Name r = n.
Proof.
  intros (Hk & _). unfold getByName. split.
  - intros H%orFail_Ok. apply firstUnique_found in H as (_ & u & Hu & E); [|apply (Hk k)].
    injection E as E1 E2. eauto.
  - intros (u & Hu & <- & <-). destruct (Hk k) as (_ & _ & _ & Hreq).
    destruct (required_named k r) as [H1 H2]; [by eapply Hreq|].
    rewrite (proj2 (byName_rows st k (r_Namespace r) (r_Name r) r (Hk k) H1 H2)); eauto.
Qed.

(** C27: names identify. In every store the datastore can reach, through any
    sequence of its operations, two resources of a kind with the same namespace
    and name are the same, as are two variants with the same SKU in a namespace,
    two namespaces with the same name, two repositories with the same name in a
    namespace and two mappings of the same repository; and looking a resource
    up by name finds it exactly if it is stored. *)
Theorem names_identify epoch retention st :
  rtc storeStep (emptyStore epoch retention) st →
  (∀ k u v r s, cat st k !! u = Some r → cat st k !! v = Some s →
     r_Namespace r = r_Namespace s → r_Name r = r_Name s → u = v ∧ r = s) ∧
  (∀ u v r s, cat st KProductVariant !! u = Some r → cat st KProductVariant !! v = Some s →
     r_Namespace r = r_Namespace s → r_SKU r = r_SKU s → u = v ∧ r = s) ∧
  (∀ u v n o, rows (st_namespaces st) !! u = Some n → rows (st_namespaces st) !! v = Some o →
     nsName n = nsName o → u = v ∧ n = o) ∧
  (∀ u v r s, rows (st_repositories st) !! u = Some r → rows (st_repositories st) !! v = Some s →
     rp_Namespace r = rp_Namespace s → rpName r = rpName s → u = v ∧ r = s) ∧
  (∀ u v m n, rows (st_mappings st) !! u = Some m → rows (st_mappings st) !! v = Some n →
     mp_RepositoryID m = mp_RepositoryID n → u = v ∧ m = n) ∧
  ∀ k ns n r, getByName st k ns n = Ok r ↔
    ∃ u, cat st k !! u = Some r ∧ r_Namespace r = ns ∧ r_Name r = n.
Proof.
  intros Hr%reachable_namesWf. pose proof Hr as (Hk & (_ & Hn & _) & (_ & Hp & _) & (_ & Hm & _)).
  assert (∀ A (m : gmap (list string) A) u v a b, u = v → m !! u = Some a → m !! v = Some b →
    u = v ∧ a = b) as Hsame by (intros; subst; split; congruence).
  split_and!.
  - intros k u v r s Hu Hv E1 E2. eapply Hsame; [|done..].
    eapply (proj1 (proj2 (Hk k))); [done..|]. unfold ixNameNamespace. congruence.
  - intros u v r s Hu Hv E1 E2. eapply Hsame; [|done..].
    eapply (proj1 (proj2 (proj2 (Hk KProductVariant)))); [done..|]. unfold ixSKU. congruence.
  - intros u v r s Hu Hv E. eapply Hsame; [|done..].
    eapply Hn; [done..|]. unfold ixNamespaceName, nsName in *. congruence.
  - intros u v r s Hu Hv E1 E2. eapply Hsame; [|done..].
    eapply Hp; [done..|]. unfold ixRepositoryName, rpName in *. congruence.
  - intros u v r s Hu Hv E. eapply Hsame; [|done..].
    eapply Hm; [done..|]. unfold ixMappingRepository. congruence.
  - intros k ns n r. by apply getByName_stored.
Qed.

(** ** No update is lost *)

Lemma publish_catalog now ty k r l st k' : st_catalog (publish C now ty k r l st) k' = st_catalog st k'.
Proof. unfold publish. by case_match. Qed.

Lemma update_Ok now k st r v :
  (update C now k st (Some r) v).2 = Ok tt → ∃ st1 o, updateRow C st k r v = Ok (st1, o) ∧
  ∀ k', st_catalog (update C now k st (Some r) v).1 k' = st_catalog st1 k'.
Proof.
  unfold update. destruct (updateRow C st k r v) as [[st1 o]|e]; [|done]. simpl. intros _.
  exists st1, o. split; [done|]. intros k'. destruct o; [apply publish_catalog|done].
Qed.

End laws.
