(* ===== verification/MemOwners.v ===== *)
(** * The in-memory datastore: references and tombstones

    The reverse owner-reference projection answers for the references that are
    stored, and a completed repository deletion is final. *)

From S2P Require Import Prelude ResourceVersion Entities DeletionStatus WatchJournal MemTable.
From S2P Require Import MemStore Pagination MemCatalog MemCategory MemTenancy MemLaws.
From Stdlib Require Import Ascii.

(** ** Identifiers of projections *)

Definition nulChar : ascii := ascii_of_nat 0.

Lemma app_nul_inj s1 s2 u1 u2 :
  hasChar nulChar u1 = false → hasChar nulChar u2 = false →
  s1 +:+ nul +:+ u1 = s2 +:+ nul +:+ u2 → s1 = s2 ∧ u1 = u2.
Proof.
  intros H1 H2. assert (∀ s u, hasChar nulChar (s +:+ nul +:+ u) = true) as Hin.
  { induction s as [|c s IH]; intros u; simpl; [done|]. by rewrite IH, orb_true_r. }
  revert s2. induction s1 as [|c s1 IH]; intros [|d s2]; simpl; intros E.
  - by injection E.
  - injection E as _ E. change (u1 = s2 +:+ nul +:+ u2) in E. rewrite E in H1.
    by rewrite Hin in H1.
  - injection E as _ E. change (s1 +:+ nul +:+ u1 = u2) in E. rewrite <- E in H2.
    by rewrite Hin in H2.
  - injection E as -> E. apply IH in E as [-> ->]. done.
Qed.

Lemma projectionID_inj n r o k u n' r' o' k' u' :
  hasChar nulChar u = false → hasChar nulChar u' = false →
  hasChar nulChar k = false → hasChar nulChar k' = false →
  projectionID n r o k u = projectionID n' r' o' k' u' → k = k' ∧ u = u'.
Proof.
  intros Hu Hu' Hk Hk' E. unfold projectionID in E.
  assert (∀ n r o k u, n +:+ nul +:+ r +:+ nul +:+ o +:+ nul +:+ k +:+ nul +:+ u =
    (n +:+ nul +:+ r +:+ nul +:+ o +:+ nul +:+ k) +:+ nul +:+ u) as Hg1.
  { intros. by rewrite !str_app_assoc. }
  assert (∀ n r o k, n +:+ nul +:+ r +:+ nul +:+ o +:+ nul +:+ k =
    (n +:+ nul +:+ r +:+ nul +:+ o) +:+ nul +:+ k) as Hg2.
  { intros. by rewrite !str_app_assoc. }
  rewrite (Hg1 n), (Hg1 n') in E. apply app_nul_inj in E as [E ->]; [|done..].
  rewrite (Hg2 n), (Hg2 n') in E. by apply app_nul_inj in E as [_ ->].
Qed.

Section owners.
Context `{TR : !Table Resource resourceId} `{TN : !Table Namespace namespaceId}.
Context `{TG : !Table Repository repositoryRowId} `{TM : !Table NamespaceMapping mappingId}.
Context `{TO : !Table OwnerProjection projectionRowId} `{TA : !Table AncestorRow ancestorRowId}.
Context (C : Codecs) (D : StatusCodec).
Notation Store := (Store (TR := TR) (TN := TN) (TG := TG) (TM := TM) (TO := TO) (TA := TA)).
Implicit Types st : Store.
Notation cat st k := (rows (st_catalog st k)).

(** The references a resource carries, and their projections: a later reference
    to the same owner in the same repository replaces an earlier one. *)
Definition refsOf (r : Resource) : list OwnerReference :=
  if bool_decide (m_OwnerReferences (r_meta r) = "") then []
  else default [] (decodeRefs C (m_OwnerReferences (r_meta r))).
Definition addProjection (kind : string) (r : Resource) (m : gmap (list string) OwnerProjection)
    (ref : OwnerReference) : gmap (list string) OwnerProjection :=
  if bool_decide (or_UID ref = "") then m
  else <[projectionRowId (projectionOf kind r ref) := projectionOf kind r ref]> m.
Definition projectionsOf (kind : string) (r : Resource) : gmap (list string) OwnerProjection :=
  foldl (addProjection kind r) ∅ (refsOf r).

Lemma foldl_addProjection kind r l : ∀ m,
  foldl (addProjection kind r) m l = foldl (addProjection kind r) ∅ l ∪ m.
Proof.
  induction l as [|ref l IH]; intros m; simpl; [by rewrite (left_id_L ∅ (∪))|].
  rewrite IH, (IH (addProjection kind r ∅ ref)). rewrite <- (assoc_L (∪)). f_equal.
  unfold addProjection. case_bool_decide; [by rewrite (left_id_L ∅ (∪))|].
  by rewrite <- insert_union_l, (left_id_L ∅ (∪)).
Qed.

Lemma projectionsOf_row kind r key p :
  projectionsOf kind r !! key = Some p →
  key = [op_ID p] ∧ op_DependentKind p = kind ∧ op_DependentUID p = r_UID r ∧
  ∃ n g o, op_ID p = projectionID n g o kind (r_UID r).
Proof.
  unfold projectionsOf. assert (∀ l m, (∀ key p, m !! key = Some p →
    key = [op_ID p] ∧ op_DependentKind p = kind ∧ op_DependentUID p = r_UID r ∧
    ∃ n g o, op_ID p = projectionID n g o kind (r_UID r)) →
    ∀ key p, foldl (addProjection kind r) m l !! key = Some p →
    key = [op_ID p] ∧ op_DependentKind p = kind ∧ op_DependentUID p = r_UID r ∧
    ∃ n g o, op_ID p = projectionID n g o kind (r_UID r)) as H.
  { induction l as [|ref l IH]; intros m Hm; [done|]. simpl. apply IH. intros key' p'.
    unfold addProjection. case_bool_decide; [apply Hm|].
    intros [[<- <-]|[_ ?]]%lookup_insert_Some; [|by apply Hm].
    split_and!; [done..|]. unfold projectionOf. simpl. eauto. }
  apply H. by intros ?? ?.
Qed.

(** ** The two writes of the projection table *)

Lemma delete_rows l : ∀ (t t' : table TO),
  foldRes (λ t p, match deleteRow t p with Some t => Ok t | None => Err SDatabase end) t l = Ok t' →
  ∀ key, rows t' !! key = if decide (key ∈ projectionRowId <$> l) then None else rows t !! key.
Proof.
  induction l as [|p l IH]; intros t t' H key; simpl in H.
  - simplify_eq. rewrite decide_False; [done|]. apply not_elem_of_nil.
  - destruct (deleteRow t p) as [t1|] eqn:E; [|done]. rewrite (IH _ _ H).
    apply deleteRow_rows in E. rewrite E.
    destruct (decide (key = projectionRowId p)) as [->|].
    + rewrite lookup_delete_eq. rewrite (decide_True (P := _ ∈ _ <$> p :: l)) by (by left).
      by case_decide.
    + rewrite lookup_delete_ne by done. repeat case_decide; set_solver.
Qed.

Lemma deleteProjections_rows (t t' : table TO) kind uid :
  kind ≠ "" → uid ≠ "" → keyed projectionRowId (rows t) →
  deleteOwnerReferenceProjections t kind uid = Ok t' →
  ∀ key p, rows t' !! key = Some p ↔ rows t !! key = Some p ∧ ixDependent p ≠ [kind; uid].
Proof.
  intros Hk Hu Hkeyed H key p. unfold deleteOwnerReferenceProjections in H.
  rewrite (delete_rows _ _ _ H). assert ("" ∉ [kind; uid]) as Hne by set_solver.
  assert (key ∈ projectionRowId <$> getBy t ixDependent [kind; uid] ↔
    ∃ q, rows t !! key = Some q ∧ ixDependent q = [kind; uid]) as Hin.
  { rewrite list_elem_of_fmap. split.
    - intros (q & -> & (v & Hv & Hq)%getBy_rows); [|done]. exists q. by rewrite (Hkeyed _ _ Hv).
    - intros (q & Hq & E). exists q. split; [by rewrite (Hkeyed _ _ Hq)|].
      apply getBy_rows; eauto. }
  case_decide as Hd; rewrite Hin in Hd; naive_solver.
Qed.

Lemma insert_rows kind r l : ∀ (t t' : table TO),
  foldRes (λ t ref, if bool_decide (or_UID ref = "") then Ok t else
    match insertRow requiredProjection t (projectionOf kind r ref) with
    | Some t => Ok t | None => Err SDatabase end) t l = Ok t' →
  rows t' = foldl (addProjection kind r) (rows t) l.
Proof.
  induction l as [|ref l IH]; intros t t' H; simpl in *; [by simplify_eq|].
  unfold addProjection at 2. case_bool_decide; [by apply IH|].
  destruct (insertRow _ t _) as [t1|] eqn:E; [|done].
  rewrite (IH _ _ H). by apply insertRow_rows in E as (-> & _).
Qed.

Lemma sync_rows (t t' : table TO) kind r :
  kind ≠ "" → r_UID r ≠ "" → keyed projectionRowId (rows t) →
  syncOwnerReferenceProjections C t kind r = Ok t' →
  ∀ key p, rows t' !! key = Some p ↔
    projectionsOf kind r !! key = Some p ∨
    (projectionsOf kind r !! key = None ∧ rows t !! key = Some p ∧ ixDependent p ≠ [kind; r_UID r]).
Proof.
  intros Hk Hu Hkeyed H key p. unfold syncOwnerReferenceProjections in H.
  destruct (deleteOwnerReferenceProjections t kind (r_UID r)) as [t1|] eqn:Ed; [|done].
  pose proof (deleteProjections_rows _ _ _ _ Hk Hu Hkeyed Ed) as Hd.
  assert (rows t' = projectionsOf kind r ∪ rows t1) as ->.
  { unfold projectionsOf, refsOf. case_bool_decide.
    - simplify_eq. cbn [foldl]. by rewrite (left_id_L ∅ (∪)).
    - destruct (decodeRefs C _) as [refs|]; [|done]. simpl.
      rewrite <- foldl_addProjection. by apply insert_rows. }
  rewrite lookup_union_Some_raw, Hd. done.
Qed.

(** ** The mirror *)

Section mirror.
(** The identifier index of the catalogue tables accepts UUIDs only. *)
Context (Huuid : ∀ r, validRow (Table := TR) r = true →
  r_UID r ≠ "" ∧ hasChar nulChar (r_UID r) = false).

(** Projections that differ at most in the recorded version. *)
Definition unversioned (p : OwnerProjection) : OwnerProjection :=
  mkProjection (op_ID p) (op_Namespace p) (op_RepositoryID p) (op_OwnerUID p) (op_BlockKey p)
    (op_DependentUID p) (op_DependentKind p) (op_Name p) "".

Definition mirrored st : Prop :=
  keyed projectionRowId (rows (st_owners st)) ∧
  (∀ key p, rows (st_owners st) !! key = Some p → ∃ k r p',
     op_DependentKind p = kindText k ∧ cat st k !! [op_DependentUID p] = Some r ∧
     projectionsOf (kindText k) r !! key = Some p' ∧ unversioned p = unversioned p') ∧
  (∀ k u r key p', cat st k !! u = Some r → projectionsOf (kindText k) r !! key = Some p' →
     ∃ p, rows (st_owners st) !! key = Some p ∧ unversioned p = unversioned p').

Lemma kindText_plain k : hasChar nulChar (kindText k) = false ∧ kindText k ≠ "".
Proof. by destruct k. Qed.
Lemma unversioned_dependent p p' : unversioned p = unversioned p' → ixDependent p = ixDependent p'.
Proof. intros E. injection E as. unfold ixDependent. congruence. Qed.

Lemma projections_disjoint k r k' r' key p p' :
  validRow (Table := TR) r = true → validRow (Table := TR) r' = true →
  projectionsOf (kindText k) r !! key = Some p → projectionsOf (kindText k') r' !! key = Some p' →
  k = k' ∧ r_UID r = r_UID r'.
Proof using Huuid.
  intros Hv Hv' (E1 & _ & _ & n & g & o & I1)%projectionsOf_row
    (E2 & _ & _ & n' & g' & o' & I2)%projectionsOf_row.
  assert (op_ID p = op_ID p') as E by congruence. rewrite I1, I2 in E.
  apply projectionID_inj in E as [?%kindText_inj ?]; [done|by apply Huuid..|by apply kindText_plain|
    by apply kindText_plain].
Qed.

(** Rows with the same references have the same projections, versions apart. *)
Lemma projections_same k old r key p :
  sameIdentity old r → m_OwnerReferences (r_meta old) = m_OwnerReferences (r_meta r) →
  projectionsOf k r !! key = Some p →
  ∃ p', projectionsOf k old !! key = Some p' ∧ unversioned p = unversioned p'.
Proof.
  intros (E1 & E2 & E3 & E4 & _) Eo. unfold projectionsOf, refsOf. rewrite Eo.
  generalize (if bool_decide (m_OwnerReferences (r_meta r) = "") then []
    else default [] (decodeRefs C (m_OwnerReferences (r_meta r)))) as l. intros l.
  assert (∀ l m m', (∀ key p, m !! key = Some p → ∃ p', m' !! key = Some p' ∧
    unversioned p = unversioned p') → ∀ key p, foldl (addProjection k r) m l !! key = Some p →
    ∃ p', foldl (addProjection k old) m' l !! key = Some p' ∧ unversioned p = unversioned p') as H.
  { clear l key p. induction l as [|ref l IH]; intros m m' Hm; [done|]. simpl. apply IH.
    intros key p. unfold addProjection. case_bool_decide; [apply Hm|].
    assert (unversioned (projectionOf k r ref) = unversioned (projectionOf k old ref)) as Eu.
    { unfold unversioned, projectionOf. simpl. by rewrite E1, E2, E3, E4. }
    assert (projectionRowId (projectionOf k r ref) = projectionRowId (projectionOf k old ref)) as Ei.
    { unfold projectionRowId. f_equal. by injection Eu. }
    rewrite Ei. intros [[<- <-]|[Hne ?]]%lookup_insert_Some.
    - eexists. by rewrite lookup_insert_eq.
    - rewrite lookup_insert_ne by done. by apply Hm. }
  apply H. by intros ???.
Qed.

Lemma sameIdentity_sym r s : sameIdentity r s → sameIdentity s r.
Proof. unfold sameIdentity. naive_solver. Qed.

Lemma mirrored_write st k r sync st1 :
  namesWf st → mirrored st → writeRow C st k r sync = Ok st1 → writable C st k r sync →
  mirrored st1.
Proof using Huuid.
  intros (Hwf & _) (Hkey & Hto & Hfrom) (Erow & Eoth & _ & _ & Hv & Hown)%writeRow_spec [_ Hwr].
  destruct (Huuid _ Hv) as [Hu _]. destruct (kindText_plain k) as [_ Hkt].
  assert (∀ k' u s, cat st1 k' !! u = Some s →
    (k' = k ∧ u = [r_UID r] ∧ s = r) ∨ ((k' ≠ k ∨ u ≠ [r_UID r]) ∧ cat st k' !! u = Some s)) as Hcat.
  { intros k' u s Hs. destruct (decide (k' = k)) as [->|].
    - rewrite Erow in Hs. apply lookup_insert_Some in Hs as [[<- <-]|[? ?]]; auto.
    - rewrite Eoth in Hs by done. auto. }
  assert (∀ k' u, (k' ≠ k ∨ u ≠ [r_UID r]) → cat st1 k' !! u = cat st k' !! u) as Hsame.
  { intros k' u Hne. destruct (decide (k' = k)) as [->|]; [|by rewrite Eoth].
    rewrite Erow. rewrite lookup_insert_ne; [done|]. destruct Hne; congruence. }
  destruct sync.
  - destruct Hown as (o & Hsync & Eo).
    pose proof (sync_rows _ _ _ _ Hkt Hu Hkey Hsync) as Hrows. unfold mirrored. rewrite Eo.
    split_and!.
    + intros key p [Hp|(_ & Hp & _)]%Hrows; [|by apply Hkey].
      by apply projectionsOf_row in Hp as (-> & _).
    + intros key p [Hp|(_ & Hp & Hd)]%Hrows.
      * pose proof (projectionsOf_row _ _ _ _ Hp) as (_ & Ek & Eu & _).
        exists k, r, p. rewrite Eu, Erow, lookup_insert_eq. done.
      * destruct (Hto _ _ Hp) as (k' & s & p' & Ek & Hs & Hp' & Euv).
        exists k', s, p'. rewrite Hsame; [done|].
        destruct (decide (k' = k)) as [->|]; [right|by left]. intros E. apply Hd.
        unfold ixDependent. injection E as ->. by rewrite Ek.
    + intros k' u s key p' Hs Hp'. apply Hcat in Hs as [(-> & -> & ->)|[Hne Hs]].
      * exists p'. split; [|done]. apply Hrows. by left.
      * destruct (Hfrom _ _ _ _ _ Hs Hp') as (p & Hp & Euv).
        exists p. split; [|done]. apply Hrows. right.
        pose proof (Hwf k') as (Hku & _ & _ & Hval). destruct (Hval _ _ Hs) as [_ Hvs].
        assert (u = [r_UID s]) as -> by (symmetry; by apply Hku).
        split_and!; [|done|].
        -- destruct (projectionsOf (kindText k) r !! key) as [q|] eqn:Eq; [|done].
           destruct (projections_disjoint _ _ _ _ _ _ _ Hv Hvs Eq Hp') as [-> E].
           rewrite E in Hne. by destruct Hne.
        -- rewrite (unversioned_dependent _ _ Euv). apply projectionsOf_row in Hp' as (_ & E1 & E2 & _).
           unfold ixDependent. rewrite E1, E2. intros E. injection E as E3%kindText_inj E4.
           subst. rewrite E4 in Hne. by destruct Hne.
  - destruct Hwr as [[? _]|(old & Hold & Hid & Href)]; [done|]. specialize (Href eq_refl).
    unfold mirrored. rewrite Hown. split_and!; [done| |].
    + intros key p Hp. destruct (Hto _ _ Hp) as (k' & s & p' & Ek & Hs & Hp' & Euv).
      destruct (decide (k' = k ∧ [op_DependentUID p] = [r_UID r])) as [[-> E]|Hne].
      * rewrite E in Hs. rewrite Hold in Hs. injection Hs as <-.
        destruct (projections_same (kindText k) r old key p') as (q & Hq & Eq); [by apply sameIdentity_sym|
          done|done|].
        exists k, r, q. rewrite E, Erow, lookup_insert_eq. split_and!; [done..|congruence].
      * exists k', s, p'. rewrite Hsame; [done|].
        destruct (decide (k' = k)); [right|by left]. intros E. by apply Hne.
    + intros k' u s key p' Hs Hp'. apply Hcat in Hs as [(-> & -> & ->)|[Hne Hs]].
      * destruct (projections_same (kindText k) old r key p') as (q & Hq & Eq); [done..|].
        destruct (Hfrom _ _ _ _ _ Hold Hq) as (p & Hp & E). exists p. split; [done|congruence].
      * by apply (Hfrom k' u s).
Qed.

Lemma mirrored_remove st k uid v st1 old :
  namesWf st → mirrored st → removeRow st k uid v = Ok (st1, old) → mirrored st1.
Proof using Huuid.
  intros (Hwf & _) (Hkey & Hto & Hfrom) (Hold & Erow & Eoth & _ & Hdel)%removeRow_spec.
  pose proof (Hwf k) as (Hku & _ & _ & Hval). destruct (Hval _ _ Hold) as [_ Hv].
  assert ([r_UID old] = [uid]) as Eu by (by apply Hku). injection Eu as Eu. subst uid.
  destruct (Huuid _ Hv) as [Hu _]. destruct (kindText_plain k) as [_ Hkt].
  pose proof (deleteProjections_rows _ _ _ _ Hkt Hu Hkey Hdel) as Hrows.
  assert (∀ k' u s, cat st1 k' !! u = Some s ↔
    (k' ≠ k ∨ u ≠ [r_UID old]) ∧ cat st k' !! u = Some s) as Hcat.
  { intros k' u s. destruct (decide (k' = k)) as [->|].
    - rewrite Erow, lookup_delete_Some. unfold resourceId. split.
      + intros [Hne ?]. split; [right; congruence|done].
      + intros [[?|Hne] ?]; [done|]. split; [congruence|done].
    - rewrite Eoth by done. split; [intros; split; [by left|done]|by intros [_ ?]]. }
  split_and!.
  - intros key p [Hp _]%Hrows. by apply Hkey.
  - intros key p [Hp Hd]%Hrows. destruct (Hto _ _ Hp) as (k' & s & p' & Ek & Hs & Hp' & Euv).
    exists k', s, p'. split; [done|]. split; [|done]. apply Hcat. split; [|done].
    destruct (decide (k' = k)) as [->|]; [right|by left]. intros E. apply Hd.
    unfold ixDependent. injection E as ->. by rewrite Ek.
  - intros k' u s key p' [Hne Hs]%Hcat Hp'. destruct (Hfrom _ _ _ _ _ Hs Hp') as (p & Hp & Euv).
    exists p. split; [|done]. apply Hrows. split; [done|].
    rewrite (unversioned_dependent _ _ Euv). apply projectionsOf_row in Hp' as (_ & E1 & E2 & _).
    unfold ixDependent. rewrite E1, E2. intros E. injection E as E3%kindText_inj E4. subst k'.
    pose proof (Hwf k) as (Hk' & _). rewrite <- (Hk' _ _ Hs : [r_UID s] = u), E4 in Hne.
    by destruct Hne.
Qed.

Lemma mirrored_ext st st' :
  (∀ k, st_catalog st' k = st_catalog st k) → st_owners st' = st_owners st →
  mirrored st → mirrored st'.
Proof.
  intros Hc Ho (H1 & H2 & H3). unfold mirrored. rewrite Ho. split_and!; [done| |].
  - intros key p Hp. destruct (H2 _ _ Hp) as (k & r & p' & ?). exists k, r, p'. by rewrite Hc.
  - intros k u r key p'. rewrite Hc. apply H3.
Qed.

Lemma effect_mirrored st st' : effect C st st' → namesWf st → mirrored st → mirrored st'.
Proof using Huuid.
  intros Heff Hwf Hm.
  destruct Heff as [Ht|k r sync st1 Hw Hwr Ht|k uid v st1 old Hw Ht|n t Hi Hf Ht|n t Hd Ht|
    r t Hi Hf Ht|r t Hd Ht|r t d m Hrow Hd Hi Hc Hmap Ht|mp m Hi Ht|mp m Hd Ht];
    destruct Ht as (Hc' & Ho & _); (eapply mirrored_ext; [exact Hc'|exact Ho|]).
  - done.
  - by eapply mirrored_write.
  - by eapply mirrored_remove.
  - by eapply (mirrored_ext st).
  - by eapply (mirrored_ext st).
  - by eapply (mirrored_ext st).
  - by eapply (mirrored_ext st).
  - by eapply (mirrored_ext st).
  - by eapply (mirrored_ext st).
  - by eapply (mirrored_ext st).
Qed.

Lemma reachable_mirrored epoch retention st :
  rtc (storeStep C D) (emptyStore epoch retention) st → mirrored st.
Proof using Huuid.
  intros Hr. apply (rtc_preserves _ (λ st, namesWf st ∧ mirrored st)) in Hr as [_ ?]; [done| |].
  - intros st1 st2 [Hw Hm] Hs. apply storeStep_effect in Hs; [|done].
    split; [by eapply effect_namesWf|by eapply effect_mirrored].
  - split; [apply emptyStore_namesWf|]. split_and!; simpl; rewrite rows_emptyTable; by intros ???.
Qed.

End mirror.

(** ** Tombstones *)

(** A repository with a tombstone is not stored, and no resource belongs to it
    if its identifier is a UUID. *)
Definition buried st : Prop :=
  ∀ id d, rows (st_deleted st) !! [id] = Some d →
    id ≠ "" ∧ rows (st_repositories st) !! [id] = None ∧
    (parsesUUID C id = true → ∀ k u r, cat st k !! u = Some r → r_RepositoryID r ≠ id).

Definition keepsTombs st st' : Prop :=
  ∀ u, is_Some (rows (st_deleted st) !! u) → is_Some (rows (st_deleted st') !! u).

Lemma hasCatalogResources_false st id :
  hasCatalogResources st id = false → id ≠ "" → ∀ k u r, cat st k !! u = Some r → r_RepositoryID r ≠ id.
Proof.
  intros H Hne k u r Hr E. unfold hasCatalogResources in H.
  assert (k ∈ catalogTables) as Hk by (destruct k; set_solver).
  assert (existsb (λ k, match getBy (st_catalog st k) ixRepositoryID [id] with
    [] => false | _ => true end) catalogTables = true) as Ht; [|congruence].
  apply existsb_exists. exists k. split; [by apply list_elem_of_In|].
  assert (r ∈ getBy (st_catalog st k) ixRepositoryID [id]) as Hin.
  { apply getBy_rows; [set_solver|]. exists u. unfold ixRepositoryID. by rewrite E. }
  by destruct (getBy _ _ _); [apply not_elem_of_nil in Hin|].
Qed.

Lemma parents_not_deleted st ns id d :
  catalogParentsActive C st ns id = None → id ≠ "" → parsesUUID C id = true →
  rows (st_deleted st) !! [id] ≠ Some d.
Proof.
  unfold catalogParentsActive. intros H Hne Hp Hd. destruct (namespaceFence C st ns); [done|].
  rewrite bool_decide_eq_false_2, Hp, firstId_rows, Hd in H by done. done.
Qed.

Lemma buried_ext st st' :
  (∀ k, st_catalog st' k = st_catalog st k) → sameTenancy st st' → buried st → buried st'.
Proof.
  intros Hc (_ & E2 & E3 & _) H id d. rewrite E3. intros Hd. destruct (H id d Hd) as (H1 & H2 & H3).
  rewrite E2. split_and!; [done..|]. intros Hp k u r. rewrite Hc. by apply H3.
Qed.

Lemma buried_write st k r sync st1 :
  buried st → writeRow C st k r sync = Ok st1 → writable C st k r sync → buried st1.
Proof.
  intros Hb (Erow & Eoth & (_ & E2 & E3 & _) & _)%writeRow_spec [_ Hwr] id d. rewrite E2, E3.
  intros Hd. destruct (Hb id d Hd) as (H1 & H2 & H3). split_and!; [done..|].
  intros Hp k' u s Hs. destruct (decide (k' = k)) as [->|]; [|rewrite Eoth in Hs by done; by eapply H3].
  rewrite Erow in Hs. apply lookup_insert_Some in Hs as [[_ <-]|[_ Hs]]; [|by eapply H3].
  destruct Hwr as [[_ Hpar]|(old & Hold & (_ & _ & _ & E & _) & _)].
  - intros E. rewrite E in Hpar. by eapply parents_not_deleted.
  - rewrite <- E. by eapply H3.
Qed.

Lemma buried_remove st k uid v st1 old : buried st → removeRow st k uid v = Ok (st1, old) → buried st1.
Proof.
  intros Hb (_ & Erow & Eoth & (_ & E2 & E3 & _) & _)%removeRow_spec id d. rewrite E2, E3.
  intros Hd. destruct (Hb id d Hd) as (H1 & H2 & H3). split_and!; [done..|].
  intros Hp k' u s Hs. destruct (decide (k' = k)) as [->|]; [|rewrite Eoth in Hs by done; by eapply H3].
  rewrite Erow in Hs. apply lookup_delete_Some in Hs as [_ Hs]. by eapply H3.
Qed.

Lemma normalized_row_uid r : rpUID r ≠ "" → rpUID (normalizedRepositoryCopy r) = rpUID r.
Proof.
  intros Hne. unfold rpUID, normalizedRepositoryCopy, NormalizeRepositoryContract. simpl.
  rewrite (proj1 (normalizeMeta_ids _ _)). by rewrite bool_decide_eq_false_2.
Qed.

(** Stored repositories have identifiers. *)
Definition identified st : Prop :=
  ∀ u r, rows (st_repositories st) !! u = Some r → rpUID r ≠ "".

Lemma effect_identified st st' : effect C st st' → identified st → identified st'.
Proof.
  intros Heff Hid.
  assert (∀ st1, tablesEq st1 st' → identified st1 → identified st') as Hext.
  { intros st1 (_ & _ & _ & E & _) H. unfold identified. by rewrite E. }
  destruct Heff as [Ht|k r sync st1 Hw _ Ht|k uid v st1 old Hw Ht|n t _ _ Ht|n t _ Ht|
    r t Hi _ Ht|r t Hd Ht|r t d m _ Hd _ _ _ Ht|mp m _ Ht|mp m _ Ht];
    apply (Hext _ Ht); try done.
  - apply writeRow_spec in Hw as (_ & _ & (_ & E & _) & _). unfold identified. by rewrite E.
  - apply removeRow_spec in Hw as (_ & _ & _ & (_ & E & _) & _). unfold identified. by rewrite E.
  - apply insertRow_rows in Hi as (E & Hne & _). unfold identified. simpl. rewrite E.
    intros u s [[<- <-]|[_ ?]]%lookup_insert_Some; [|by eapply Hid].
    unfold repositoryRowId in Hne. rewrite not_elem_of_cons in Hne. unfold rpUID. naive_solver.
  - apply deleteRow_rows in Hd as E. unfold identified. simpl. rewrite E.
    intros u s [_ ?]%lookup_delete_Some. by eapply Hid.
  - apply deleteRow_rows in Hd as E. unfold identified. simpl. rewrite E.
    intros u s [_ ?]%lookup_delete_Some. by eapply Hid.
Qed.

Lemma effect_buried st st' : effect C st st' → identified st → buried st → buried st'.
Proof.
  intros Heff Hid Hb.
  assert (∀ st1, tablesEq st1 st' → buried st1 → buried st') as Hext.
  { intros st1 (Hc & _ & Ht) H. by eapply buried_ext. }
  destruct Heff as [Ht|k r sync st1 Hw Hwr Ht|k uid v st1 old Hw Ht|n t _ _ Ht|n t _ Ht|
    r t Hi Hf Ht|r t Hd Ht|r t d m Hrow Hd Hi Hc Hmap Ht|mp m _ Ht|mp m _ Ht];
    apply (Hext _ Ht); try done.
  - by eapply buried_write.
  - by eapply buried_remove.
  - apply insertRow_rows in Hi as (E & _). intros id d Hdel. simpl in Hdel |- *.
    destruct (Hb id d Hdel) as (H1 & H2 & H3). split_and!; [done| |done]. rewrite E.
    rewrite lookup_insert_ne; [done|]. intros Eid. destruct Hf as [_ [Hn|[s Hs]]];
      rewrite Eid in *; congruence.
  - apply deleteRow_rows in Hd as E. intros id d Hdel. simpl in Hdel |- *.
    destruct (Hb id d Hdel) as (H1 & H2 & H3). split_and!; [done| |done]. rewrite E.
    by apply lookup_delete_None; right.
  - apply deleteRow_rows in Hd as Er. apply insertRow_rows in Hi as (Ed & _).
    assert (rpUID r ≠ "") as Hne by (by eapply Hid).
    assert (repositoryRowId (normalizedRepositoryCopy r) = [rpUID r]) as Eid.
    { unfold repositoryRowId. f_equal. by apply normalized_row_uid. }
    rewrite Eid in Ed. intros id d' Hdel. simpl in Hdel |- *. rewrite Ed in Hdel. rewrite Er.
    apply lookup_insert_Some in Hdel as [[E _]|[E Hdel]].
    + injection E as <-. split_and!; [done|apply lookup_delete_eq|]. intros _.
      by apply hasCatalogResources_false.
    + destruct (Hb id d' Hdel) as (H1 & H2 & H3). split_and!; [done| |done].
      by apply lookup_delete_None; right.
Qed.

Lemma effect_keepsTombs st st' : effect C st st' → keepsTombs st st'.
Proof.
  intros Heff.
  assert (∀ st1, tablesEq st1 st' → keepsTombs st st1 → keepsTombs st st') as Hext.
  { intros st1 (_ & _ & _ & _ & E & _) H. unfold keepsTombs. by rewrite E. }
  destruct Heff as [Ht|k r sync st1 Hw Hwr Ht|k uid v st1 old Hw Ht|n t _ _ Ht|n t _ Ht|
    r t Hi Hf Ht|r t Hd Ht|r t d m Hrow Hd Hi Hc Hmap Ht|mp m _ Ht|mp m _ Ht];
    apply (Hext _ Ht); try (by intros ??).
  - apply writeRow_spec in Hw as (_ & _ & (_ & _ & E & _) & _). unfold keepsTombs. by rewrite E.
  - apply removeRow_spec in Hw as (_ & _ & _ & (_ & _ & E & _) & _). unfold keepsTombs. by rewrite E.
  - apply insertRow_rows in Hi as (E & _). intros u [x Hx]. simpl. rewrite E.
    destruct (decide (u = repositoryRowId (normalizedRepositoryCopy r))) as [->|].
    + rewrite lookup_insert_eq. by eexists.
    + rewrite lookup_insert_ne by done. by eexists.
Qed.

Lemma steps_buried st st' :
  rtc (storeStep C D) st st' → namesWf st → identified st → buried st →
  namesWf st' ∧ identified st' ∧ buried st' ∧ keepsTombs st st'.
Proof.
  induction 1 as [st|st st1 st2 Hs Hr IH]; intros Hw Hi Hb; [by split_and!; [..|intros ??]|].
  apply storeStep_effect in Hs as He; [|done].
  destruct IH as (? & ? & ? & Hk); [by eapply effect_namesWf|by eapply effect_identified|
    by eapply effect_buried|].
  split_and!; [done..|]. intros u Hu. apply Hk. by apply (effect_keepsTombs _ _ He).
Qed.

Lemma emptyStore_buried epoch retention :
  identified (emptyStore epoch retention) ∧ buried (emptyStore epoch retention).
Proof.
  split; [intros u r|intros id d]; simpl; by rewrite rows_emptyTable.
Qed.

(** Nothing of the repository is stored. *)
Definition gone st (uid : string) : Prop :=
  GetRepository st uid = Err SNotFound ∧
  ∀ k u r, cat st k !! u = Some r → r_RepositoryID r ≠ uid.

(** C30: a completed repository deletion is final. Once it succeeds, then after
    any further operations the repository is not found, no resource of any kind
    belongs to it, creating a repository with its identifier is refused as a
    conflict, and creating any resource in it is refused. *)
Theorem repository_deletion_final epoch retention st now uid expected st1 st2 :
  rtc (storeStep C D) (emptyStore epoch retention) st →
  CompleteRepositoryDeletion C now st uid expected = (st1, Ok tt) →
  rtc (storeStep C D) st1 st2 → parsesUUID C uid = true →
  gone st2 uid ∧
  (∀ t r b, rpUID (NormalizeRepositoryContract r) = uid →
     createRepository C t st2 (Some r) b = (st2, Err SConflict)) ∧
  ∀ t k r, r_RepositoryID r = uid → ∃ e, create C t k st2 (Some r) = (st2, Err e).
Proof.
  intros Hr Hc Hr2 Hp. destruct (emptyStore_buried epoch retention) as [Hi0 Hb0].
  destruct (steps_buried _ _ Hr (emptyStore_namesWf epoch retention) Hi0 Hb0) as (Hw & Hi & Hb & _).
  assert (storeStep C D st st1) as Hs.
  { pose proof (step_CompleteRepository C D st now uid expected) as Hs. by rewrite Hc in Hs. }
  assert (is_Some (rows (st_deleted st1) !! [uid])) as Htomb.
  { unfold CompleteRepositoryDeletion, txn in Hc.
    match type of Hc with context [match ?m with _ => _ end] => destruct m as [[x []]|e] eqn:Em end;
      [|done]. injection Hc as ->. res_inv. cbn [st_deleted recordCommittedRepository setJournal
        setRepositories setMappings].
    rewrite firstId_rows in Hb1. destruct Hw as (_ & _ & (Hk & _) & _).
    apply Hk in Hb1 as Eid. injection Eid as Eid.
    match goal with H : insertRow _ _ _ = Some _ |- _ => apply insertRow_rows in H as (E & _) end.
    unfold recordCommittedRepository. simpl. rewrite E. exists (normalizedRepositoryCopy a).
    assert (repositoryRowId (normalizedRepositoryCopy a) = [uid]) as ->; [|apply lookup_insert_eq].
    unfold repositoryRowId. f_equal. rewrite <- Eid. apply normalized_row_uid. by eapply Hi. }
  pose proof (storeStep_effect _ _ _ _ Hw Hs) as He.
  destruct (steps_buried _ _ Hr2) as (Hw2 & Hi2 & Hb2 & Hk2);
    [by eapply effect_namesWf|by eapply effect_identified|by eapply effect_buried|].
  destruct (Hk2 _ Htomb) as [d Hd]. destruct (Hb2 uid d Hd) as (Hne & Hgone & Hnone).
  refine (conj (conj _ _) (conj _ _)).
  - unfold GetRepository. by rewrite firstId_rows, Hgone.
  - by apply Hnone.
  - intros t r b E. unfold createRepository, createRepositoryTxn. rewrite E, firstId_rows, Hd.
    by rewrite bool_decide_eq_false_2.
  - intros t k r E. unfold create, createRow.
    destruct (catalogParentsActive C st2 (r_Namespace r) (r_RepositoryID r)) as [e|] eqn:Ep.
    + by exists e.
    + exfalso. rewrite E in Ep. by eapply parents_not_deleted.
Qed.

(** ** Terminating products *)

(** The listings of non-blocking product dependents agree. *)
Definition sameDependents st st' : Prop := ∀ scope owner after limit,
  ListNonBlockingProductOwnerDependents st' scope owner after limit =
  ListNonBlockingProductOwnerDependents st scope owner after limit.

(** Marking a product for deletion leaves its dependents entry behind. The
    product gets a new version, but the listings of dependents are what they
    were before: they give the product with the version it had, so a caller
    that, like the decoupling of a category, skips entries whose version is not
    current, skips this product for as long as nothing else rewrites it. *)
Theorem mark_leaves_stale_dependents epoch retention st now uid expected finalizer t st' r :
  rtc (storeStep C D) (emptyStore epoch retention) st →
  MarkProductTerminating C now st uid expected finalizer t = (st', Ok r) →
  (∃ old, get st KProduct uid = Ok old ∧ m_DeletionTimestamp (r_meta old) = None) →
  get st' KProduct uid = Ok r ∧ r_ResourceVersion r ≠ expected ∧ sameDependents st st'.
Proof.
  intros Hr H (old & Hold & Hdel). apply reachable_namesWf in Hr as [Hwf _].
  unfold get in Hold. apply orFail_Ok in Hold. unfold MarkProductTerminating in H.
  rewrite Hold in H. cbn [orFail bind_result] in H. rewrite Hdel in H.
  case_bool_decide as Hv; [|done]. cbn [guard_ bind_result] in H. cbv zeta in H.
  set (r' := onMeta _ old) in H.
  destruct (writeRow C st KProduct r' false) as [st1|] eqn:Hw; [|done]. injection H as <- <-.
  apply writeRow_spec in Hw as (Erow & _ & _ & _ & _ & Eown).
  rewrite firstId_rows in Hold. pose proof (Hwf KProduct) as (Hk & _).
  assert (r_UID r' = uid) as Eu by (apply Hk in Hold; by injection Hold).
  split_and!.
  - unfold get. rewrite publish_catalog, firstId_rows, Erow, Eu, lookup_insert_eq. done.
  - change (nextResourceVersion (r_ResourceVersion old) ≠ expected). rewrite Hv.
    apply nextResourceVersion_ne.
  - intros scope owner after limit. unfold ListNonBlockingProductOwnerDependents.
    assert (st_owners (publish C now ResourceWatchModified KProduct r' (m_Labels (r_meta old)) st1) =
      st_owners st) as ->; [|done]. rewrite <- Eown. by apply tablesEq_publish.
Qed.

(** ** Category memberships *)

(** The two indexes of category memberships are inverse to each other. *)
Definition membersOf st (key : string) : gset string := default ∅ (st_categoryProducts st !! key).
Definition categoriesOf st (uid : string) : list string := default [] (st_productCategories st !! uid).
Definition membershipWf st : Prop := ∀ key uid, uid ∈ membersOf st key ↔ key ∈ categoriesOf st uid.

Lemma dropMember_spec uid cp key key' uid' :
  uid' ∈ default ∅ (dropMember uid cp key !! key' : option (gset string)) ↔
  uid' ∈ default ∅ (cp !! key') ∧ ¬ (key' = key ∧ uid' = uid).
Proof.
  unfold dropMember. destruct (cp !! key) as [ms|] eqn:E.
  - destruct (decide (key' = key)) as [->|].
    + rewrite E. case_bool_decide as Hb.
      * rewrite lookup_delete_eq. simpl. set_solver.
      * rewrite lookup_insert_eq. simpl. set_solver.
    + case_bool_decide; rewrite ?lookup_delete_ne, ?lookup_insert_ne by done; naive_solver.
  - split; [|naive_solver]. intros H. split; [done|]. intros [-> _]. rewrite E in H. set_solver.
Qed.
Lemma addMember_spec uid cp key key' uid' :
  uid' ∈ default ∅ (addMember uid cp key !! key' : option (gset string)) ↔
  uid' ∈ default ∅ (cp !! key') ∨ (key' = key ∧ uid' = uid).
Proof.
  unfold addMember. destruct (decide (key' = key)) as [->|].
  - rewrite lookup_insert_eq. simpl. set_solver.
  - rewrite lookup_insert_ne by done. naive_solver.
Qed.
Lemma foldl_drop uid keys key' uid' : ∀ cp,
  uid' ∈ default ∅ (foldl (dropMember uid) cp keys !! key' : option (gset string)) ↔
  uid' ∈ default ∅ (cp !! key') ∧ ¬ (key' ∈ keys ∧ uid' = uid).
Proof.
  induction keys as [|k keys IH]; intros cp; simpl; [set_solver|].
  rewrite IH, dropMember_spec. set_solver.
Qed.
Lemma foldl_add uid keys key' uid' : ∀ cp,
  uid' ∈ default ∅ (foldl (addMember uid) cp keys !! key' : option (gset string)) ↔
  uid' ∈ default ∅ (cp !! key') ∨ (key' ∈ keys ∧ uid' = uid).
Proof.
  induction keys as [|k keys IH]; intros cp; simpl; [set_solver|].
  rewrite IH, addMember_spec. set_solver.
Qed.
Lemma elem_of_membershipKeys ns cs key :
  key ∈ membershipKeys ns cs ↔ ∃ c, c ∈ cs ∧ c ≠ "" ∧ key = categoryProductKey ns c.
Proof.
  unfold membershipKeys. assert (∀ l, key ∈ foldl (λ keys uid, if bool_decide (uid = "") then keys else
    let k := categoryProductKey ns uid in if bool_decide (k ∈ keys) then keys else keys ++ [k]) l cs ↔
    key ∈ l ∨ ∃ c, c ∈ cs ∧ c ≠ "" ∧ key = categoryProductKey ns c) as H.
  { induction cs as [|c cs IH]; intros l; simpl; [set_solver|]. rewrite IH.
    repeat case_bool_decide; set_solver. }
  rewrite H. set_solver.
Qed.

(** A product is listed in exactly the categories it was last resolved to.
    Replacing its memberships keeps the two indexes inverse to each other, and
    afterwards it is a member of a category key exactly when a non-empty
    category of the list has that key in the product's namespace; nobody else's
    memberships change. *)
Theorem membership_replaced st p cs :
  membershipWf st →
  let st' := (ReplaceCategoryProductMembership st (Some p) cs).1 in
  membershipWf st' ∧
  (∀ key, r_UID p ∈ membersOf st' key ↔
     ∃ c, c ∈ cs ∧ c ≠ "" ∧ key = categoryProductKey (r_Namespace p) c) ∧
  (∀ key uid, uid ≠ r_UID p → uid ∈ membersOf st' key ↔ uid ∈ membersOf st key).
Proof.
  intros Hwf st'. unfold st', ReplaceCategoryProductMembership. cbn [fst].
  set (keys := membershipKeys (r_Namespace p) cs).
  set (cp := foldl (addMember (r_UID p)) (foldl (dropMember (r_UID p)) (st_categoryProducts st)
    (default [] (st_productCategories st !! r_UID p))) keys).
  assert (∀ key uid, uid ∈ default ∅ (cp !! key) ↔
    (uid ∈ membersOf st key ∧ ¬ (key ∈ categoriesOf st (r_UID p) ∧ uid = r_UID p)) ∨
    (key ∈ keys ∧ uid = r_UID p)) as Hcp.
  { intros key uid. unfold cp. by rewrite foldl_add, foldl_drop. }
  assert (∀ key, r_UID p ∈ default ∅ (cp !! key) ↔ key ∈ keys) as Hself.
  { intros key. rewrite Hcp, (Hwf key (r_UID p)). naive_solver. }
  unfold membershipWf, membersOf, categoriesOf. cbn [setMembership st_categoryProducts
    st_productCategories]. split_and!.
  - intros key uid. destruct (decide (uid = r_UID p)) as [->|].
    + by rewrite lookup_insert_eq, Hself.
    + rewrite lookup_insert_ne by done. rewrite Hcp. specialize (Hwf key uid).
      unfold categoriesOf in Hwf. rewrite <- Hwf. naive_solver.
  - intros key. rewrite Hself. apply elem_of_membershipKeys.
  - intros key uid Hne. rewrite Hcp. unfold membersOf. naive_solver.
Qed.
End owners.
