(* ===== verification/MemWatch.v ===== *)
(** * Watches mirror the datastore

    The in-memory datastore publishes each committed change of a file, a
    product or a category in its journal. This file follows the log of all
    changes along the operations of the datastore: at any time, replaying the
    events of a kind gives what is stored, and a filtered watch the part of it
    that matches. *)

From S2P Require Import Prelude ResourceVersion Entities DeletionStatus WatchJournal MemTable.
From S2P Require Import MemStore Pagination MemCatalog MemCategory MemTenancy MemLaws WatchFilter.

Section watch.
Context `{TR : !Table Resource resourceId} `{TN : !Table Namespace namespaceId}.
Context `{TG : !Table Repository repositoryRowId} `{TM : !Table NamespaceMapping mappingId}.
Context `{TO : !Table OwnerProjection projectionRowId} `{TA : !Table AncestorRow ancestorRowId}.
Context (C : Codecs) (D : StatusCodec).
Notation Store := (Store (TR := TR) (TN := TN) (TG := TG) (TM := TM) (TO := TO) (TA := TA)).
Implicit Types st : Store.
Notation cat st k := (rows (st_catalog st k)).
Notation seqOf st := (namespaceWatchSequence (st_journal st)).

(** The event an operation added to the journal, if it advanced it. *)
Definition newEvent st st' : option ResourceWatchEvent :=
  if decide (seqOf st' = seqOf st) then None else last (namespaceWatchEvents (st_journal st')).
(** A resource keeps its namespace and its name, by which manifests identify it. *)
Definition keepsNames st st' : Prop :=
  ∀ k u r r', publishes k = true → cat st k !! u = Some r → cat st' k !! u = Some r' →
    r_Namespace r = r_Namespace r' ∧ r_Name r = r_Name r'.
(** An operation of the datastore, with the log of all events. *)
Definition loggedStep (x x' : Store * list ResourceWatchEvent) : Prop :=
  storeStep C D x.1 x'.1 ∧ keepsNames x.1 x'.1 ∧ x'.2 = x.2 ++ option_list (newEvent x.1 x'.1).

(** ** What operations publish *)

Definition sameCatalog st st' : Prop := ∀ k, publishes k = true → cat st' k = cat st k.
Definition otherKinds st st' k : Prop := ∀ k', k' ≠ k → cat st' k' = cat st k'.
Inductive published st st' : Prop :=
| pub_silent : sameCatalog st st' → st_journal st' = st_journal st → published st st'
| pub_tenancy now ty kind ns name uid l pv pl :
    sameCatalog st st' → kind = "Namespace" ∨ kind = "Repository" →
    st_journal st' = recordCommitted (st_journal st) now ty kind ns name uid l pv pl → published st st'
| pub_added k r now :
    publishes k = true → otherKinds st st' k → freeFor k (cat st k) r → cat st k !! [r_UID r] = None →
    cat st' k = <[[r_UID r] := r]> (cat st k) →
    st_journal st' = recordCommitted (st_journal st) now ResourceWatchAdded (kindText k) (r_Namespace r) (r_Name r)
                       (r_UID r) (m_Labels (r_meta r)) None (marshalResource C r) → published st st'
| pub_modified k old r now :
    publishes k = true → otherKinds st st' k → cat st k !! [r_UID r] = Some old →
    cat st' k = <[[r_UID r] := r]> (cat st k) →
    st_journal st' = recordCommitted (st_journal st) now ResourceWatchModified (kindText k) (r_Namespace r) (r_Name r)
                       (r_UID r) (m_Labels (r_meta r)) (m_Labels (r_meta old)) (marshalResource C r) → published st st'
| pub_deleted k old now :
    publishes k = true → otherKinds st st' k → cat st k !! [r_UID old] = Some old →
    cat st' k = delete [r_UID old] (cat st k) →
    st_journal st' = recordCommitted (st_journal st) now ResourceWatchDeleted (kindText k) (r_Namespace old) (r_Name old)
                       (r_UID old) (m_Labels (r_meta old)) None None → published st st'.

Lemma published_refl st : published st st.
Proof. by apply pub_silent. Qed.
Lemma writeRow_journal st k r sync st1 : writeRow C st k r sync = Ok st1 → st_journal st1 = st_journal st.
Proof. unfold writeRow. intros H. destruct sync; res_inv; done. Qed.
Lemma removeRow_journal st k uid v st1 old : removeRow st k uid v = Ok (st1, old) → st_journal st1 = st_journal st.
Proof. unfold removeRow. intros H. res_inv. done. Qed.
Lemma publish_journal now ty k r l st :
  publishes k = true →
  st_journal (publish C now ty k r l st) =
  recordCommitted (st_journal st) now ty (kindText k) (r_Namespace r) (r_Name r) (r_UID r) (m_Labels (r_meta r)) l
    (match ty with ResourceWatchAdded | ResourceWatchModified => marshalResource C r | _ => None end).
Proof. unfold publish. by intros ->. Qed.
Lemma publish_quiet now ty k r l st : publishes k = false → publish C now ty k r l st = st.
Proof. unfold publish. by intros ->. Qed.

(** A written row, published as a change of the row it replaces. *)
Lemma published_write st k r sync st1 now old st' :
  writeRow C st k r sync = Ok st1 → cat st k !! [r_UID r] = Some old →
  (∀ k', st_catalog st' k' = st_catalog (publish C now ResourceWatchModified k r (m_Labels (r_meta old)) st1) k') →
  st_journal st' = st_journal (publish C now ResourceWatchModified k r (m_Labels (r_meta old)) st1) → published st st'.
Proof.
  intros Hw Ho Hc Hj. pose proof (writeRow_journal _ _ _ _ _ Hw) as Ej. apply writeRow_spec in Hw as (E & Hother & _).
  assert (∀ k', st_catalog st' k' = st_catalog st1 k') as Hcat by (intros k'; by rewrite Hc, publish_catalog).
  destruct (publishes k) eqn:Ep.
  - rewrite publish_journal, Ej in Hj by done. apply (pub_modified _ _ k old r now); [done| |done| |done].
    + intros k' Hne. rewrite Hcat. by apply Hother.
    + by rewrite Hcat.
  - rewrite publish_quiet, Ej in Hj by done. apply pub_silent; [|done]. intros k' Hk'. rewrite Hcat.
    apply Hother. congruence.
Qed.
Lemma published_added st k r now st1 :
  writeRow C st k r true = Ok st1 → freeFor k (cat st k) r → cat st k !! [r_UID r] = None →
  published st (publish C now ResourceWatchAdded k r None st1).
Proof.
  intros Hw Hf Ho. pose proof (writeRow_journal _ _ _ _ _ Hw) as Ej. apply writeRow_spec in Hw as (E & Hother & _).
  destruct (publishes k) eqn:Ep.
  - apply (pub_added _ _ k r now); [done| |done|done| |].
    + intros k' Hne. rewrite publish_catalog. by apply Hother.
    + by rewrite publish_catalog.
    + by rewrite publish_journal, Ej.
  - rewrite publish_quiet by done. apply pub_silent; [|done]. intros k' Hk'. apply Hother. congruence.
Qed.
(** A removed row, with the changes of other tables that go with it. *)
Lemma published_removed st k uid v st1 old now st' :
  (∀ k, catalogWf k (cat st k)) → removeRow st k uid v = Ok (st1, old) →
  (∀ k', st_catalog st' k' = st_catalog st1 k') → st_journal st' = st_journal st1 →
  published st (publish C now ResourceWatchDeleted k old None st').
Proof.
  intros Hwf Hr Hc Hj. pose proof (removeRow_journal _ _ _ _ _ _ Hr) as Ej. apply removeRow_spec in Hr as (Ho & E & Hother & _).
  pose proof (proj1 (Hwf k) _ _ Ho) as Eid. unfold resourceId in Eid, E. injection Eid as Eid. subst uid.
  destruct (publishes k) eqn:Ep.
  - apply (pub_deleted _ _ k old now); [done| |done| |].
    + intros k' Hne. rewrite publish_catalog, Hc. by apply Hother.
    + by rewrite publish_catalog, Hc.
    + by rewrite publish_journal, Hj, Ej.
  - rewrite publish_quiet by done. apply pub_silent; [|by rewrite Hj]. intros k' Hk'. rewrite Hc. apply Hother. congruence.
Qed.

Lemma catalog_published st st' :
  (∀ k, catalogWf k (cat st k)) →
  (∃ now k r, st' = (create C now k st r).1) ∨ (∃ now k r v, st' = (update C now k st r v).1) ∨
  (∃ now k uid v, st' = (remove C now k st uid v).1) ∨
  (∃ now uid v b, st' = (deleteProduct C now st uid v b).1) ∨
  (∃ now k ns n f, patchOf D k f ∧ st' = (patch C now k st ns n f).1) ∨
  (∃ now uid v f t, st' = (MarkProductTerminating C now st uid v f t).1) → published st st'.
Proof.
  intros Hwf [(now & k & r & ->)|[(now & k & r & v & ->)|[(now & k & uid & v & ->)|
    [(now & uid & v & b & ->)|[(now & k & ns & n & f & Hp & ->)|(now & uid & v & f & t & ->)]]]]].
  - destruct r as [r|]; [|apply published_refl]. apply (txn_ind (published st)); [apply published_refl|].
    intros st' [] H. res_inv. apply createRow_writes in Hb as (Hw & [Hf _] & Hn); [|done].
    by apply published_added.
  - destruct r as [r|]; [|apply published_refl]. apply (txn_ind (published st)); [apply published_refl|].
    intros st' [] H. res_inv.
    apply updateRow_writes in Hb as (_ & old & Ho & _ & [(-> & -> & _)|(-> & Hw & _)]); [| |done].
    + apply published_refl.
    + by eapply published_write.
  - apply (txn_ind (published st)); [apply published_refl|]. intros st' [] H. res_inv.
    by eapply published_removed.
  - apply (txn_ind (published st)); [apply published_refl|]. intros st' [] H. res_inv.
    by eapply published_removed.
  - apply (txn_ind (published st)); [apply published_refl|]. intros st' r' H. res_inv.
    pose proof Hb as Hrow. unfold patchRow in Hrow. res_inv. apply (byName_found st k) in Hb0; [|done].
    destruct (patchOf_same _ _ _ _ _ Hp Hb1) as [(Eu & _) _]. rewrite Eu in Hb0. by eapply published_write.
  - apply (txn_ind (published st)); [apply published_refl|]. intros st' r' H. res_inv.
    rewrite firstId_rows in Hb. case_match; res_inv; [apply published_refl|].
    eapply published_write; [done| |done|done]. simpl. pose proof (Hwf KProduct) as (Hk & _).
    apply Hk in Hb as E. injection E as E. by rewrite <- E in Hb.
Qed.
Lemma category_published st st' :
  (∀ k, catalogWf k (cat st k)) →
  (∃ now ns n p, st' = (UpdateCategoryTaxonomyStatus C D now st ns n p).1) ∨
  (∃ now uid, st' = (DeleteCategoryTaxonomy C now st uid).1) ∨
  (∃ now ns n v t, st' = (MarkCategoryTaxonomyDeletion C D now st ns n v t).1) ∨
  (∃ now ns n v uid, st' = (CompleteCategoryTaxonomyDeletion C now st ns n v uid).1) → published st st'.
Proof.
  intros Hwf [(now & ns & n & p & ->)|[(now & uid & ->)|[(now & ns & n & v & t & ->)|
    (now & ns & n & v & uid & ->)]]]; (apply (txn_ind (published st)); [apply published_refl|]); intros st' x H.
  - apply bind_Ok in H as ([[st1 old] r] & Hp & H). apply bind_Ok in H as (st2 & H2 & H). injection H as <- <-.
    unfold patchRow in Hp. res_inv. apply (byName_found st KCategoryTaxonomy) in Hb; [|done].
    destruct (patchOf_same D KCategoryTaxonomy _ _ _ (patch_category D p) Hb0) as [(Eu & _) _]. rewrite Eu in Hb.
    eapply published_write; [done|exact Hb| |].
    + intros k'. rewrite !publish_catalog. destruct (pt_Resolved p); res_inv; done.
    + rewrite !publish_journal by done. destruct (pt_Resolved p); res_inv; done.
  - res_inv. by eapply published_removed.
  - apply bind_Ok in H as (old & Ho%orFail_Ok & H).
    apply (byName_found st KCategoryTaxonomy) in Ho; [|done].
    case_match; res_inv; [apply published_refl|]. eapply published_write; [done| |done|done].
    unfold MarkCategoryTaxonomyTerminating in Hb0. destruct (readDoc D _); simplify_eq/=. done.
  - apply bind_Ok in H as (c & Hc%orFail_Ok & H).
    apply (byName_found st KCategoryTaxonomy) in Hc; [|done]. res_inv.
    eapply (published_removed st KCategoryTaxonomy (r_UID x) None
      (setCatalog KCategoryTaxonomy a3 (setOwners a1 st)) x); [done| |done|done].
    unfold removeRow. rewrite firstId_rows, Hc. cbn [orFail bind_result guard_].
    rewrite Hb1. cbn [orFail bind_result guard_]. by rewrite Hb3.
Qed.
(** Operations on namespaces, repositories and mappings publish at most a change
    of those. *)
Lemma tenancy_published st st' :
  (∃ now n, st' = (CreateNamespace C now st n).1) ∨ (∃ now n v, st' = (UpdateNamespace C now st n v).1) ∨
  (∃ now n v, st' = (MarkNamespaceDeletion C now st n v).1) ∨ (∃ now uid, st' = (DeleteNamespace C now st uid).1) ∨
  (∃ now uid v, st' = (DeleteNamespaceWithResourceVersion C now st uid v).1) ∨
  (∃ now r b, st' = (createRepository C now st r b).1) ∨ (∃ now r v, st' = (UpdateRepository C now st r v).1) ∨
  (∃ now uid, st' = (DeleteRepository C now st uid).1) ∨ (∃ now uid v, st' = (CompleteRepositoryDeletion C now st uid v).1)
  → published st st'.
Proof.
  assert (∀ now ty n l st1, st_journal st1 = st_journal st → (∀ k, st_catalog st1 k = st_catalog st k) →
    published st (recordCommittedNamespace C now ty n l st1)) as Hn.
  { intros now ty n l st1 Hj Hc. eapply pub_tenancy; [|by left|by unfold recordCommittedNamespace; simpl; rewrite Hj].
    intros k _. simpl. by rewrite Hc. }
  assert (∀ now ty n l st1, st_journal st1 = st_journal st → (∀ k, st_catalog st1 k = st_catalog st k) →
    published st (recordCommittedRepository C now ty n l st1)) as Hr.
  { intros now ty n l st1 Hj Hc. eapply pub_tenancy; [|by right|by unfold recordCommittedRepository; simpl; rewrite Hj].
    intros k _. simpl. by rewrite Hc. }
  intros [(now & [n|] & ->)|[(now & [n|] & v & ->)|[(now & [n|] & v & ->)|[(now & uid & ->)|[(now & uid & v & ->)|
    [(now & [r|] & b & ->)|[(now & [r|] & v & ->)|[(now & uid & ->)|(now & uid & v & ->)]]]]]]]];
    try (by apply published_refl); (apply (txn_ind (published st)); [apply published_refl|]); intros st' x H.
  - unfold insertNamespace in H. res_inv. by apply Hn.
  - unfold insertNamespace in H. res_inv. by apply Hn.
  - unfold insertNamespace in H. res_inv. by apply Hn.
  - unfold dropNamespace in H. res_inv. by apply Hn.
  - unfold dropNamespace in H. res_inv. by apply Hn.
  - unfold createRepositoryTxn, insertRepository in H. res_inv. by apply Hr.
  - unfold updateRepositoryTxn in H. res_inv. unfold writeRepository, insertRepository in H. cbv zeta in H.
    case_hyp H; res_inv; [apply published_refl|by apply Hr].
  - res_inv. by apply Hr.
  - apply bind_Ok in H as (r & Hb & H). apply bind_Ok in H as ([] & _ & H). apply bind_Ok in H as ([] & _ & H).
    apply bind_Ok in H as (m & _ & H). res_inv. by apply Hr.
Qed.
Lemma mapping_published st st' :
  (∃ m, st' = (CreateNamespaceMapping st m).1) ∨ (∃ ns a b, st' = (RenameRepository st ns a b).1) ∨
  (∃ ns n, st' = (DeleteNamespaceMapping st ns n).1) → published st st'.
Proof.
  intros [([m|] & ->)|[(ns & a & b & ->)|(ns & n & ->)]]; try (by apply published_refl);
    (apply (txn_ind (published st)); [apply published_refl|]); intros st' x H.
  - cbv zeta in H. destruct (mappingByName st _ _); [case_bool_decide; res_inv; apply published_refl|].
    destruct (mappingByRepository st _); [cbv zeta in H; case_match; res_inv; apply published_refl|].
    unfold insertMapping in H. res_inv. by apply pub_silent.
  - apply bind_Ok in H as (old & _ & H). case_bool_decide; unfold insertMapping in H; res_inv; [apply published_refl|].
    by apply pub_silent.
  - res_inv. by apply pub_silent.
Qed.
Lemma storeStep_published st st' : namesWf st → storeStep C D st st' → published st st'.
Proof.
  intros Hwf Hs. pose proof (proj1 Hwf) as Hk. destruct Hs.
  1-4: apply catalog_published; naive_solver.
  1: apply catalog_published; [done|]; do 4 right; left; eauto 10.
  1: apply catalog_published; [done|]; do 5 right; eauto 10.
  1: destruct p; by apply pub_silent.
  1-4: apply category_published; [done|]; naive_solver.
  1-9: apply tenancy_published; naive_solver.
  all: apply mapping_published; naive_solver.
Qed.

(** ** The log and the tables agree *)

Definition stored (k : CatalogKind) st (m : View) : Prop :=
  ∀ ns n v, m !! (ns, n) = Some v ↔
    ∃ u (r : Resource), cat st k !! u = Some r ∧ r_Namespace r = ns ∧ r_Name r = n ∧ v = (m_Labels (r_meta r), marshalResource C r).
(** The payload of an event is the marshalled resource with the labels of the
    envelope. *)
Definition honest (e : ResourceWatchEvent) : Prop :=
  ∀ s, ev_Payload e = Some s → ∃ r, marshalResource C r = Some s ∧ m_Labels (r_meta r) = ev_SelectorLabels e.
Definition agree st (h : list ResourceWatchEvent) : Prop :=
  logged h (st_journal st) ∧
  ∀ k, publishes k = true →
    truthfulLog (kindText k) h ∧ stored k st (kindView (kindText k) h) ∧
    Forall (λ e, ev_Kind e = kindText k → honest e) h.

Lemma pushed h st st' now ty kind ns name uid l pv pl :
  logged h (st_journal st) → (Z.of_nat (length h) < 2 ^ 64 - 1)%Z →
  st_journal st' = recordCommitted (st_journal st) now ty kind ns name uid l pv pl →
  ∃ e, newEvent st st' = Some e ∧ logged (h ++ [e]) (st_journal st') ∧
    ev_Type e = ty ∧ ev_Kind e = kind ∧ ev_Namespace e = ns ∧ ev_Name e = name ∧ ev_Payload e = pl ∧
    ev_SelectorLabels e = l ∧ ev_PreviousSelectorLabels e = pv.
Proof.
  intros Hl Hsm Hj.
  assert (∃ e, last (namespaceWatchEvents (st_journal st')) = Some e ∧
    ev_Type e = ty ∧ ev_Kind e = kind ∧ ev_Namespace e = ns ∧ ev_Name e = name ∧ ev_Payload e = pl ∧
    ev_SelectorLabels e = l ∧ ev_PreviousSelectorLabels e = pv) as (e & He & Hf).
  { rewrite Hj. unfold recordCommitted, push. cbn [namespaceWatchEvents]. rewrite last_snoc. eexists. by split. }
  exists e. pose proof (journalStep_logged h (st_journal st) (Some e) (st_journal st')) as HS.
  assert (logged (h ++ [e]) (st_journal st')) as Hl'.
  { apply HS; [|done|done]. eapply step_record; [by symmetry|done]. }
  split; [|done]. unfold newEvent. rewrite decide_False; [done|]. destruct Hl as [-> _], Hl' as [-> _].
  rewrite length_app. simpl. lia.
Qed.

(** A row that is written under its name. *)
Lemma stored_write k st st' m r e ty :
  (ty = ResourceWatchAdded ∨ ty = ResourceWatchModified) → ev_Type e = ty →
  ev_Namespace e = r_Namespace r → ev_Name e = r_Name r → ev_Payload e = marshalResource C r →
  ev_SelectorLabels e = m_Labels (r_meta r) →
  (∀ u s, cat st k !! u = Some s → r_Namespace s = r_Namespace r → r_Name s = r_Name r → u = [r_UID r]) →
  (∀ s, cat st k !! [r_UID r] = Some s → r_Namespace s = r_Namespace r ∧ r_Name s = r_Name r) →
  cat st' k = <[[r_UID r] := r]> (cat st k) → stored k st m → stored k st' (observe m e).
Proof.
  intros Hty Ety E1 E2 E3 E4 Hfree Hsame Hc Hm ns n v.
  assert (observe m e = <[(r_Namespace r, r_Name r) := (m_Labels (r_meta r), marshalResource C r)]> m) as ->.
  { unfold observe, eventKey. rewrite Ety, E1, E2, E3, E4. by destruct Hty as [->| ->]. }
  rewrite Hc, lookup_insert_Some. split.
  - intros [[[= <- <-] <-]|[Hne Hv]].
    + exists [r_UID r], r. by rewrite lookup_insert_eq.
    + apply Hm in Hv as (u & s & Hu & <- & <- & ->). exists u, s. rewrite lookup_insert_ne; [done|].
      intros <-. apply Hne. destruct (Hsame s Hu) as [-> ->]. done.
  - intros (u & s & [[<- <-]|[Hu Hs]]%lookup_insert_Some & <- & <- & ->); [by left|]. right.
    split; [|apply Hm; by exists u, s]. intros [= H1 H2]. apply Hu. symmetry. by apply (Hfree u s).
Qed.
Lemma stored_delete k st st' m r e :
  catalogWf k (cat st k) → ev_Type e = ResourceWatchDeleted → ev_Namespace e = r_Namespace r → ev_Name e = r_Name r →
  cat st k !! [r_UID r] = Some r → cat st' k = delete [r_UID r] (cat st k) → stored k st m → stored k st' (observe m e).
Proof.
  intros Hwf Ety E1 E2 Hr Hc Hm ns n v. destruct Hwf as (_ & Hu & _).
  assert (observe m e = delete (r_Namespace r, r_Name r) m) as -> by (unfold observe, eventKey; by rewrite Ety, E1, E2).
  rewrite Hc, lookup_delete_Some, (Hm ns n v). split.
  - intros [Hne (u & s & Hs & <- & <- & ->)]. exists u, s. rewrite lookup_delete_ne; [done|]. intros <-. by simplify_eq.
  - intros (u & s & [Hne Hs]%lookup_delete_Some & <- & <- & ->). split; [|by exists u, s]. intros [= H1 H2].
    apply Hne. eapply Hu; [exact Hr|exact Hs|]. unfold ixNameNamespace. congruence.
Qed.
Lemma stored_same k st st' m : cat st' k = cat st k → stored k st m → stored k st' m.
Proof. unfold stored. by intros ->. Qed.

(** Another event of the log: of a kind that is published, or of another. *)
Lemma agree_silent h e st st' :
  logged (h ++ [e]) (st_journal st') → (∀ k, publishes k = true → ev_Kind e ≠ kindText k) → sameCatalog st st' →
  agree st h → agree st' (h ++ [e]).
Proof.
  intros Hl Hk Hc [_ Ha]. split; [done|]. intros k Hp. destruct (Ha k Hp) as (Ht & Hs & Hh). split_and!.
  - apply truthfulLog_snoc. split; [done|]. by intros []%Hk.
  - rewrite kindView_snoc, decide_False by auto. eapply stored_same; [by apply Hc|done].
  - apply Forall_app_2; [done|]. apply Forall_singleton. by intros []%Hk.
Qed.
Lemma agree_event k h e st st' :
  logged (h ++ [e]) (st_journal st') → ev_Kind e = kindText k → publishes k = true → otherKinds st st' k → honest e →
  (truthful (kindView (kindText k) h) e ∧ stored k st' (observe (kindView (kindText k) h) e)) →
  agree st h → agree st' (h ++ [e]).
Proof.
  intros Hl Hk Hp Ho Hh [Ht Hs] [_ Ha]. split; [done|]. intros k' Hp'. destruct (Ha k' Hp') as (Ht' & Hs' & Hh').
  split_and!.
  - apply truthfulLog_snoc. split; [done|]. rewrite Hk. by intros <-%kindText_inj.
  - rewrite kindView_snoc. case_decide as E.
    + rewrite Hk in E. by apply kindText_inj in E as <-.
    + eapply stored_same; [|done]. apply Ho. intros ->. congruence.
  - apply Forall_app_2; [done|]. by apply Forall_singleton.
Qed.

(** The row an event is about, by its name. *)
Lemma stored_lookup k st m u r e :
  stored k st m → cat st k !! u = Some r → ev_Namespace e = r_Namespace r → ev_Name e = r_Name r →
  m !! eventKey e = Some (m_Labels (r_meta r), marshalResource C r).
Proof. intros Hs Hu E1 E2. unfold eventKey. rewrite E1, E2. apply Hs. by exists u, r. Qed.

Lemma published_agree st st' h :
  namesWf st → published st st' → keepsNames st st' → (Z.of_nat (length h) < 2 ^ 64 - 1)%Z → agree st h →
  agree st' (h ++ option_list (newEvent st st')).
Proof.
  intros Hwf Hp Hkeep Hsm Ha. pose proof Ha as [Hl Hk].
  destruct Hp as [Hc Hj|now ty kind ns name uid l pv pl Hc Hkind Hj|k r now Hpk Ho Hf Hn Hc Hj|k old r now Hpk Ho Hold Hc Hj
    |k old now Hpk Ho Hold Hc Hj].
  { assert (newEvent st st' = None) as -> by (unfold newEvent; rewrite Hj; by rewrite decide_True).
    rewrite app_nil_r. split; [by rewrite Hj|]. intros k Hpk. destruct (Hk k Hpk) as (H1 & H2 & H3). split_and!; [done| |done].
    eapply stored_same; [by apply Hc|done]. }
  all: destruct (pushed h st st' _ _ _ _ _ _ _ _ _ Hl Hsm Hj) as (e & -> & Hl' & E1 & E2 & E3 & E4 & E5 & E6 & E7); cbn [option_list].
  { apply (agree_silent h e st); [done| |done|done]. intros k _. rewrite E2. by destruct Hkind as [->| ->], k. }
  all: apply (agree_event k h e st); [done|done|done|done|intros s Hs| |done];
    [first [rewrite E6; exists r; split; congruence|congruence]|]; destruct (Hk k Hpk) as (_ & Hs & _).
  - assert (∀ u s, cat st k !! u = Some s → r_Namespace s = r_Namespace r → r_Name s = r_Name r → u = [r_UID r]) as Hfree.
    { intros u s Hu H1 H2. apply (proj1 Hf u s Hu). unfold ixNameNamespace. congruence. }
    split.
    + unfold truthful. rewrite E1. unfold eventKey. rewrite E3, E4. apply eq_None_not_Some. intros [v Hv].
      apply Hs in Hv as (u & s & Hu & H1 & H2 & _). pose proof (Hfree u s Hu H1 H2) as ->. congruence.
    + eapply (stored_write k st st' _ r e ResourceWatchAdded); try done; [by left|]. intros s Hs'. congruence.
  - destruct (Hkeep k [r_UID r] old r Hpk Hold) as [N1 N2]; [by rewrite Hc, lookup_insert_eq|]. split.
    + unfold truthful. rewrite E1, E7. exists (marshalResource C old). eapply stored_lookup; [done..| |]; congruence.
    + eapply (stored_write k st st' _ r e ResourceWatchModified); try done; [by right| |].
      * intros u s Hu H1 H2. destruct (proj1 Hwf k) as (_ & Hq & _). eapply Hq; [exact Hu|exact Hold|].
        unfold ixNameNamespace. congruence.
      * intros s Hs'. by simplify_eq.
  - split; [|by eapply stored_delete; [apply Hwf|done..]].
    unfold truthful. rewrite E1, E6. exists (marshalResource C old). by eapply stored_lookup.
Qed.

(** ** Reachable stores *)

Lemma loggedStep_length x x' : loggedStep x x' → length x.2 ≤ length x'.2.
Proof. intros (_ & _ & ->). rewrite length_app. lia. Qed.
Lemma logged_agree epoch retention x :
  rtc loggedStep (emptyStore epoch retention, []) x → (Z.of_nat (length x.2) < 2 ^ 64 - 1)%Z →
  namesWf x.1 ∧ agree x.1 x.2.
Proof.
  revert x. apply (rtc_ind_r (λ x, (Z.of_nat (length x.2) < 2 ^ 64 - 1)%Z → namesWf x.1 ∧ agree x.1 x.2)); [intros Hsm|intros y z Hxy Hyz IH Hsm].
  - split; [apply emptyStore_namesWf|]. split.
    + split; [done|]. split; [exists 0; by split|]. done.
    + intros k Hp. split_and!; [done| |by constructor]. intros ns n v. split; [done|].
      intros (u & r & Hu & _). simpl in Hu. by rewrite rows_emptyTable in Hu.
  - pose proof (loggedStep_length _ _ Hyz). destruct Hyz as (Hs & Hn & Eh). destruct IH as [Hwf Ha]; [lia|].
    split; [eapply effect_namesWf; [by eapply storeStep_effect|done]|]. rewrite Eh.
    eapply published_agree; [done|by eapply storeStep_published|done|lia|done].
Qed.
Lemma stored_byName k st ns n (v : Labels * option string) m :
  namesWf st → stored k st m →
  m !! (ns, n) = Some v ↔
  ∃ r, getByName st k ns n = Ok r ∧ v = (m_Labels (r_meta r), marshalResource C r).
Proof.
  intros Hwf Hs. rewrite (Hs ns n v). setoid_rewrite (λ r, getByName_stored st k ns n r Hwf). naive_solver.
Qed.

Section claim.
Context {Any : Type} (Sprint : Any → string) (decodeLabels : string → option Labels).
(** The projection a kind's watch uses. *)
Definition serveKind (k : CatalogKind) (ns : option string) (sel : option (LabelSelectorInput (Any := Any)))
  : ResourceWatchEvent → option ResourceWatchEvent :=
  match k with
  | KProduct => serveProduct Sprint decodeLabels ns sel
  | _ => serveCatalog Sprint (kindText k) ns sel
  end.
(** The payload of a resource without labels decodes without labels. *)
Hypothesis decodes : ∀ r s, marshalResource C r = Some s → m_Labels (r_meta r) = None →
  default None (decodeLabels s) = None.

Lemma serveKind_view k ns sel m es :
  Forall (λ e, ev_Kind e = kindText k → honest e) es →
  observeAll m (omap (serveKind k ns sel) es) = observeAll m (omap (serveCatalog Sprint (kindText k) ns sel) es).
Proof.
  destruct k; try done. intros Hes. apply serveProduct_view. eapply Forall_impl; [exact Hes|]. simpl.
  intros e He Hk. specialize (He Hk). unfold currentLabels, payloadLabels.
  destruct (ev_SelectorLabels e) eqn:El; [done|].
  destruct (ev_Type e); try done; (destruct (ev_Payload e) as [s|] eqn:Ep; [|done]); case_bool_decide; try done;
    destruct (He s Ep) as (r & Hm & Hr); by apply (decodes r s); [|congruence].
Qed.

End claim.
End watch.
