(* ===== verification/MemExamples.v ===== *)
(** * The in-memory datastore: a worked session

    A concrete database (finite maps), concrete codecs and a short history: a
    namespace, two repositories, a category, and a product that refers to it.
    The theorems on reachable stores are applied to it. *)

From S2P Require Import Prelude ResourceVersion Entities DeletionStatus WatchJournal MemTable.
From S2P Require Import MemStore Pagination MemCatalog MemCategory MemTenancy MemLaws MemOwners.
From S2P Require Import WatchFilter MemWatch.
From Stdlib Require Import Ascii.

Module Session.

(** Identifiers are non-empty and free of the separator. *)
Definition plainUID (r : Resource) : bool :=
  negb (bool_decide (r_UID r = "")) && negb (hasChar nulChar (r_UID r)).
#[local] Instance TR : Table Resource resourceId := mapTable resourceId plainUID.
#[local] Instance TN : Table Namespace namespaceId := mapTable namespaceId (λ _, true).
#[local] Instance TG : Table Repository repositoryRowId := mapTable repositoryRowId (λ _, true).
#[local] Instance TM : Table NamespaceMapping mappingId := mapTable mappingId (λ _, true).
#[local] Instance TO : Table OwnerProjection projectionRowId :=
  mapTable projectionRowId (λ _, true).
#[local] Instance TA : Table AncestorRow ancestorRowId := mapTable ancestorRowId (λ _, true).

Lemma plainUID_spec r :
  validRow (Table := TR) r = true → r_UID r ≠ "" ∧ hasChar nulChar (r_UID r) = false.
Proof.
  simpl. unfold plainUID. rewrite andb_true_iff, !negb_true_iff. intros [H%bool_decide_eq_false ?].
  done.
Qed.

(** Status documents; the initial one has its two members. *)
Definition docs : JSON := mkJSON
  (λ s, if bool_decide (s = initialStatus)
        then Some {["observedGeneration" := "0"; "conditions" := "[]"]} else toFields exJSON s)
  (ofFields exJSON) (toList exJSON) (ofList exJSON).
(** A list of references is written as its blocking owner, if any. *)
Definition refs (s : string) : option (list OwnerReference) :=
  Some [mkOwnerRef "v1" "CategoryTaxonomy" "shoes" "category-1" (bool_decide (s = "blocking")) ""].
Definition C : Codecs := mkCodecs docs (λ r, Some (r_Name r)) (λ n, Some (m_Name (n_meta n)))
  (λ r, Some (m_Name (rp_meta r))) refs (λ s, negb (bool_decide (s = ""))).
Definition D : StatusCodec := mkStatusCodec (λ _, Some emptyDoc) (λ _, "{}") (λ _, []) Some (λ _, Some 0%Z).

Definition meta (uid name version owners : string) (deleted : option Z) : Meta :=
  mkMeta "v1" "" uid name 1 version "" 0 "alice" 0 "alice" None None owners [] deleted "" "" ""
    "" "" "".
Definition resource (uid name version owners : string) : Resource :=
  mkResource (meta uid name version owners None) "shop" "repo-1" "" "" "" "".
Definition shop : Namespace := mkNamespace (meta "ns-1" "shop" "1" "" None) "Shop" "free" "".
Definition repository (uid name : string) (deleted : option Z) : Repository :=
  mkRepository (meta uid name "1" "" deleted) "shop" uid "main" "" 0 0 "" "".

Definition s0 := emptyStore (TR := TR) (TN := TN) (TG := TG) (TM := TM) (TO := TO) (TA := TA)
  "epoch" [].
Definition s1 := (CreateNamespace C 1 s0 (Some shop)).1.
Definition s2 := (createRepository C 2 s1 (Some (repository "repo-1" "catalog" None)) true).1.
Definition s3 := (createRepository C 3 s2 (Some (repository "repo-2" "archive" (Some 3%Z))) true).1.
Definition s4 := (create C 4 KCategoryTaxonomy s3
  (Some (resource "category-1" "shoes" "1" ""))).1.
Definition s5 := (create C 5 KProduct s4
  (Some (resource "product-1" "boot" "1" "blocking"))).1.
Definition s6 := (create C 6 KProduct s5
  (Some (resource "product-2" "sandal" "1" "weak"))).1.

Lemma session : rtc (storeStep C D) s0 s6.
Proof.
  apply (rtc_l _ _ s1); [exact (step_CreateNamespace C D s0 1 (Some shop))|].
  apply (rtc_l _ _ s2);
    [exact (step_CreateRepository C D s1 2 (Some (repository "repo-1" "catalog" None)) true)|].
  apply (rtc_l _ _ s3);
    [exact (step_CreateRepository C D s2 3 (Some (repository "repo-2" "archive" (Some 3%Z))) true)|].
  apply (rtc_l _ _ s4);
    [exact (step_create C D s3 4 KCategoryTaxonomy (Some (resource "category-1" "shoes" "1" "")))|].
  apply (rtc_l _ _ s5);
    [exact (step_create C D s4 5 KProduct (Some (resource "product-1" "boot" "1" "blocking")))|].
  apply (rtc_l _ _ s6);
    [exact (step_create C D s5 6 KProduct (Some (resource "product-2" "sandal" "1" "weak")))|].
  apply rtc_refl.
Qed.

(** Every step of the session succeeded. *)
Example session_stored :
  r_Name <$> allRows (st_catalog s6 KCategoryTaxonomy) = ["shoes"] ∧
  length (allRows (st_catalog s6 KProduct)) = 2 ∧ length (allRows (st_owners s6)) = 2 ∧
  length (allRows (st_repositories s6)) = 2.
Proof. vm_compute. done. Qed.

Definition boot : Resource := resource "product-1" "boot" "1" "blocking".
Definition sandal : Resource := resource "product-2" "sandal" "1" "weak".
Definition boot' (owners : string) : Resource := resource "product-1" "boot" "2" owners.

Lemma names_identify_witness :
  getByName s6 KProduct "shop" "boot" = Ok boot ∧
  ∀ u r, rows (st_catalog s6 KProduct) !! u = Some r → r_Namespace r = "shop" → r_Name r = "boot" →
    r = boot.
Proof.
  assert (getByName s6 KProduct "shop" "boot" = Ok boot) as Hb by (vm_compute; reflexivity).
  destruct (names_identify C D "epoch" [] s6 session) as (H & _ & _ & _ & _ & Hget).
  split; [exact Hb|]. apply Hget in Hb as (v & Hv & E1 & E2). intros u r Hr F1 F2.
  apply (H KProduct u v r boot Hr Hv); congruence.
Defined.



Definition s7 := (CompleteRepositoryDeletion C 7 s6 "repo-2" "1").1.

Lemma repository_deletion_final_witness :
  CompleteRepositoryDeletion C 7 s6 "repo-2" "1" = (s7, Ok tt) ∧
  GetRepository s7 "repo-2" = Err SNotFound ∧
  (createRepository C 8 s7 (Some (repository "repo-2" "again" None)) true).2 = Err SConflict.
Proof.
  assert (CompleteRepositoryDeletion C 7 s6 "repo-2" "1" = (s7, Ok tt)) as H.
  { rewrite (surjective_pairing (CompleteRepositoryDeletion C 7 s6 "repo-2" "1")).
    apply f_equal2; [reflexivity|vm_compute; reflexivity]. }
  split; [exact H|].
  destruct (repository_deletion_final C D "epoch" [] s6 7 "repo-2" "1" s7 s7 session H
    (rtc_refl _ _) eq_refl) as ((Hg & _) & Hc & _).
  split; [exact Hg|]. rewrite Hc; [reflexivity|vm_compute; reflexivity].
Defined.

(** The decoupling of the category reads version "1" where "2" is stored. *)
Lemma mark_leaves_stale_dependents_witness :
  ∃ st r, MarkProductTerminating C 7 s6 "product-2" "1" "f" 9 = (st, Ok r) ∧
  get st KProduct "product-2" = Ok r ∧ r_ResourceVersion r = "2" ∧
  dp_ResourceVersion <$>
    (ListNonBlockingProductOwnerDependents st (mkScope "shop" "repo-1") "category-1" "" 10).1 = ["1"].
Proof.
  exists (MarkProductTerminating C 7 s6 "product-2" "1" "f" 9).1,
    (onMeta (λ m, setVersion "2" (setDeletion ["f"] (Some 9%Z) m)) sandal).
  assert (MarkProductTerminating C 7 s6 "product-2" "1" "f" 9 =
    ((MarkProductTerminating C 7 s6 "product-2" "1" "f" 9).1,
     Ok (onMeta (λ m, setVersion "2" (setDeletion ["f"] (Some 9%Z) m)) sandal))) as H.
  { rewrite (surjective_pairing (MarkProductTerminating C 7 s6 "product-2" "1" "f" 9)) at 1.
    apply f_equal2; [reflexivity|vm_compute; reflexivity]. }
  split; [exact H|].
  destruct (mark_leaves_stale_dependents C D "epoch" [] s6 7 "product-2" "1" "f" 9 _ _ session H)
    as (Hg & _ & Hl).
  { exists sandal. split; vm_compute; reflexivity. }
  split; [exact Hg|]. split; [reflexivity|]. rewrite Hl. vm_compute. reflexivity.
Defined.

Lemma membership_replaced_witness :
  membershipWf s6 ∧
  "product-1" ∈ membersOf (ReplaceCategoryProductMembership s6 (Some boot) ["category-1"; ""]).1
    (categoryProductKey "shop" "category-1").
Proof.
  assert (membershipWf s6) as Hwf.
  { intros key uid. unfold membersOf, categoriesOf.
    replace (st_categoryProducts s6) with (∅ : gmap string (gset string)) by (vm_compute; reflexivity).
    replace (st_productCategories s6) with (∅ : gmap string (list string)) by (vm_compute; reflexivity).
    rewrite !lookup_empty. simpl. split; intros H%elem_of_nil || intros H; set_solver. }
  split; [exact Hwf|].
  destruct (membership_replaced s6 boot ["category-1"; ""] Hwf) as (_ & H & _).
  apply H. exists "category-1". split; [by left|]. split; [discriminate|reflexivity].
Defined.

(** A watch of the winter products, from before they exist: the boot leaves the
    selector, the hat stays. *)
Definition labelled (uid name version season : string) : Resource :=
  onMeta (λ m, mkMeta (m_APIVersion m) (m_Kind m) (m_UID m) (m_Name m) (m_Generation m) (m_ResourceVersion m)
    (m_Revision m) (m_CreationTimestamp m) (m_CreationActor m) (m_UpdateTimestamp m) (m_UpdateActor m)
    (Some {["season" := season]}) (m_Annotations m) (m_OwnerReferences m) (m_Finalizers m) (m_DeletionTimestamp m)
    (m_SourcePath m) (m_GitCommitSHA m) (m_GitRef m) (m_Spec m) (m_Body m) (m_Status m))
    (resource uid name version "").
Definition t1 := (create C 5 KProduct s4 (Some (labelled "product-1" "boot" "1" "winter"))).1.
Definition t2 := (create C 6 KProduct t1 (Some (labelled "product-2" "hat" "1" "winter"))).1.
Definition t3 := (update C 7 KProduct t2 (Some (labelled "product-1" "boot" "2" "summer")) "1").1.
Definition winter : LabelSelectorInput (Any := string) := mkSelectorInput {["season" := "winter"]} [].

Definition keepsNamesOf (k : CatalogKind) (st st' : Store (TR := TR) (TN := TN) (TG := TG) (TM := TM) (TO := TO) (TA := TA)) : bool :=
  forallb (λ ur, match rows (st_catalog st' k) !! ur.1 with
                 | Some r' => bool_decide (r_Namespace ur.2 = r_Namespace r') && bool_decide (r_Name ur.2 = r_Name r')
                 | None => true
                 end) (map_to_list (rows (st_catalog st k))).
Lemma keepsNames_checked st st' :
  keepsNamesOf KProduct st st' && keepsNamesOf KFile st st' && keepsNamesOf KCategoryTaxonomy st st' = true → keepsNames st st'.
Proof.
  intros [[H1 H2]%andb_true_iff H3]%andb_true_iff k u r r' Hp Hr Hr'.
  assert (keepsNamesOf k st st' = true) as H by by destruct k. unfold keepsNamesOf in H. rewrite forallb_forall in H.
  specialize (H (u, r)). rewrite <- list_elem_of_In, elem_of_map_to_list in H. specialize (H Hr). cbn [fst snd] in H.
  rewrite Hr' in H. by rewrite andb_true_iff, !bool_decide_eq_true in H.
Qed.
Definition log (s s' : Store (TR := TR) (TN := TN) (TG := TG) (TM := TM) (TO := TO) (TA := TA)) (h : list ResourceWatchEvent) :=
  h ++ option_list (newEvent s s').
Lemma logOnce s s' h :
  storeStep C D s s' →
  keepsNamesOf KProduct s s' && keepsNamesOf KFile s s' && keepsNamesOf KCategoryTaxonomy s s' = true →
  loggedStep C D (s, h) (s', log s s' h).
Proof. intros Hs Hk. split; [done|]. by split; [apply keepsNames_checked|]. Qed.
Definition winterLog : list ResourceWatchEvent :=
  log t2 t3 (log t1 t2 (log s4 t1 (log s3 s4 (log s2 s3 (log s1 s2 (log s0 s1 [])))))).
Lemma winter_session : rtc (loggedStep C D) (s0, []) (t3, winterLog).
Proof.
  eapply rtc_l; [apply logOnce; [exact (step_CreateNamespace C D s0 1 (Some shop))|vm_compute; reflexivity]|].
  eapply rtc_l; [apply logOnce; [exact (step_CreateRepository C D s1 2 (Some (repository "repo-1" "catalog" None)) true)|vm_compute; reflexivity]|].
  eapply rtc_l; [apply logOnce; [exact (step_CreateRepository C D s2 3 (Some (repository "repo-2" "archive" (Some 3%Z))) true)|vm_compute; reflexivity]|].
  eapply rtc_l; [apply logOnce; [exact (step_create C D s3 4 KCategoryTaxonomy (Some (resource "category-1" "shoes" "1" "")))|vm_compute; reflexivity]|].
  eapply rtc_l; [apply logOnce; [exact (step_create C D s4 5 KProduct (Some (labelled "product-1" "boot" "1" "winter")))|vm_compute; reflexivity]|].
  eapply rtc_l; [apply logOnce; [exact (step_create C D t1 6 KProduct (Some (labelled "product-2" "hat" "1" "winter")))|vm_compute; reflexivity]|].
  apply rtc_once, logOnce; [exact (step_update C D t2 7 KProduct (Some (labelled "product-1" "boot" "2" "summer")) "1")|vm_compute; reflexivity].
Qed.
(** The labels the codec of the session reads back: it writes none. *)
Definition noLabels : string → option Labels := λ _, None.

End Session.
