(* ===== verification/GraphqlLimits.v ===== *)
(** * Bounds on GraphQL operations

    [middleware/security/graphql_limits.go]: [ValidateOperation] walks a
    parsed operation before it is executed, following fragment spreads, and
    refuses what exceeds the configured limits; [limitedSchema.Complexity]
    charges a field by the size of the page it asks for. Fragments may refer to
    each other in a cycle; a budget of visits ends the walk.

    The parser's nodes are the types below. How the parser turns the arguments
    of a field and the variables of the request into values
    ([ast.Field.ArgumentMap]) is a parameter, and so is the complexity callback
    of the generated schema. *)

From S2P Require Import Prelude Pagination.

(** ** Values

    What a decoded argument can be, as far as the checks distinguish. A finite
    [float64] is [m * 2 ^ e]; an [int] has 64 bits. *)
Inductive Value : Type :=
| VNil
| VInt (n : Z)
| VInt64 (n : Z)
| VInt32 (n : Z)
| VFloat64 (m e : Z)
| VFloatSpecial
| VSlice (elems : list Value)
| VOther.
#[global] Instance Value_nil_dec v : Decision (v = VNil).
Proof. destruct v; (by left) || (by right). Defined.

(** [int(value)] of a float: towards zero, or the least integer when the result
    does not fit (as on amd64). *)
Definition truncate (m e : Z) : Z := if (0 <=? e)%Z then (m * 2 ^ e)%Z else Z.quot m (2 ^ (- e)).
Definition intOfFloat (m e : Z) : Z :=
  let q := truncate m e in if (- 2 ^ 63 <=? q)%Z && (q <? 2 ^ 63)%Z then q else (- 2 ^ 63)%Z.
Definition floatIs (n m e : Z) : bool :=
  if (0 <=? e)%Z then (n =? m * 2 ^ e)%Z else (n * 2 ^ (- e) =? m)%Z.

Definition integer (value : Value) : Z * bool :=
  match value with
  | VInt n => (n, true)
  | VInt64 n => (n, true)
  | VInt32 n => (n, true)
  | VFloat64 m e => let n := intOfFloat m e in (n, floatIs n m e)
  | VFloatSpecial => ((- 2 ^ 63)%Z, false)
  | _ => (0%Z, false)
  end.
Definition listSize (value : Value) : Z :=
  match value with VSlice elems => Z.of_nat (length elems) | _ => 0%Z end.

(** ** Operations *)

Record Limits : Type := mkLimits {
  DocumentBytes : Z;
  Depth : Z;
  Aliases : Z;
  RootFields : Z;
  Directives : Z;
  FragmentVisits : Z;
  PageSize : Z;
  NodeIDs : Z;
  Complexity_ : Z;
}.
(** [GraphQLLimits] is validated with [gt=0]. *)
Definition validLimits (l : Limits) : Prop :=
  (0 < DocumentBytes l ∧ 0 < Depth l ∧ 0 < Aliases l ∧ 0 < RootFields l ∧ 0 < Directives l ∧
   0 < FragmentVisits l ∧ 0 < PageSize l ∧ 0 < NodeIDs l ∧ 0 < Complexity_ l)%Z.

Record FieldDefinition : Type := mkFieldDef { fd_Type : string; fd_Arguments : list string }.

Section operation.
Context {Arg Vars : Type}.
Context (ArgumentMap : FieldDefinition → list Arg → Vars → gmap string Value).

Inductive Selection : Type :=
| SField (name alias : string) (directives : list string) (definition : option FieldDefinition)
    (arguments : list Arg) (set : list Selection)
| SInline (directives : list string) (set : list Selection)
| SSpread (name : string) (directives : list string).
Record FragmentDefinition : Type := mkFragment {
  fr_Name : string; fr_Directives : list string; fr_Set : list Selection }.
Record OperationDefinition : Type := mkOperation {
  o_Directives : list string; o_Set : list Selection }.
Record OperationContext : Type := mkContext {
  op_RawQuery : string;
  op_Operation : option OperationDefinition;
  op_Fragments : list FragmentDefinition;
  op_Variables : Vars;
}.
(** [FragmentDefinitionList.ForName]. *)
Definition ForName (fragments : list FragmentDefinition) (name : string) : option FragmentDefinition :=
  snd <$> list_find (λ f, fr_Name f = name) fragments.

Record Counters : Type := mkCounters { n_visits : Z; n_aliases : Z; n_roots : Z; n_directives : Z }.

(** ** The walk *)

Section walk.
Context (op : OperationContext) (limit : Limits).

(** The arguments of a field: a page size must be an integer within the limit,
    also when it is left to the default, and a list of ids must be short. *)
Definition badPage (args : gmap string Value) (name : string) : bool :=
  let value := default VNil (args !! name) in
  if decide (value = VNil) then false
  else let (n, ok) := integer value in negb ok || (n <? 0)%Z || (PageSize limit <? n)%Z.
Definition givenPage (args : gmap string Value) (name : string) : bool :=
  let value := default VNil (args !! name) in
  if decide (value = VNil) then false else (0 <? (integer value).1)%Z.
Definition paginated (def : FieldDefinition) : bool :=
  bool_decide ("first" ∈ fd_Arguments def) || bool_decide ("last" ∈ fd_Arguments def).
Definition checkArguments (name : string) (def : FieldDefinition) (arguments : list Arg) : option string :=
  let args := ArgumentMap def arguments (op_Variables op) in
  if badPage args "first" then Some "MAX_PAGE_SIZE_EXCEEDED" else
  if badPage args "last" then Some "MAX_PAGE_SIZE_EXCEEDED" else
  let explicitPage := givenPage args "first" || givenPage args "last" in
  if paginated def && negb explicitPage && (PageSize limit <? DefaultPageSize)%Z
  then Some "MAX_PAGE_SIZE_EXCEEDED" else
  if bool_decide (name = "nodes") && (NodeIDs limit <? listSize (default VNil (args !! "ids")))%Z
  then Some "MAX_NODE_IDS_EXCEEDED" else None.

Definition isAlias (name alias : string) : bool :=
  negb (bool_decide (alias = "")) && negb (bool_decide (alias = name)).
(** One selection, up to the walk of what it contains: an error, or the
    counters, the selections inside and their depth. *)
Definition enter (sel : Selection) (depth : Z) (c : Counters)
  : result string (Counters * list Selection * Z) :=
  match sel with
  | SField name alias dirs def arguments set =>
      if (Depth limit <? depth + 1)%Z then Err "MAX_DEPTH_EXCEEDED" else
      let roots := (n_roots c + if (depth =? 0)%Z then 1 else 0)%Z in
      if (depth =? 0)%Z && (RootFields limit <? roots)%Z then Err "MAX_ROOT_FIELDS_EXCEEDED" else
      let aliases := (n_aliases c + if isAlias name alias then 1 else 0)%Z in
      if (Aliases limit <? aliases)%Z then Err "MAX_ALIASES_EXCEEDED" else
      let c := mkCounters (n_visits c) aliases roots (n_directives c + Z.of_nat (length dirs)) in
      match def ≫= (λ def, checkArguments name def arguments) with
      | Some code => Err code
      | None => Ok (c, set, depth + 1)%Z
      end
  | SInline dirs set =>
      Ok (mkCounters (n_visits c) (n_aliases c) (n_roots c) (n_directives c + Z.of_nat (length dirs)), set, depth)
  | SSpread name dirs =>
      let directives := (n_directives c + Z.of_nat (length dirs))%Z in
      match ForName (op_Fragments op) name with
      | None => Ok (mkCounters (n_visits c) (n_aliases c) (n_roots c) directives, [], depth)
      | Some def =>
          Ok (mkCounters (n_visits c) (n_aliases c) (n_roots c)
                (directives + Z.of_nat (length (fr_Directives def))), fr_Set def, depth)
      end
  end.
(** [walk]; [None] is running out of fuel. *)
Fixpoint walk (fuel : nat) (set : list Selection) (depth : Z) (c : Counters)
  : option (result string Counters) :=
  match fuel with
  | 0 => None
  | S fuel =>
  match set with
  | [] => Some (Ok c)
  | sel :: rest =>
      let c := mkCounters (n_visits c + 1) (n_aliases c) (n_roots c) (n_directives c) in
      if (FragmentVisits limit <? n_visits c)%Z then Some (Err "MAX_FRAGMENT_VISITS_EXCEEDED") else
      match enter sel depth c with
      | Err code => Some (Err code)
      | Ok (c, inside, depth') =>
          match walk fuel inside depth' c with
          | None => None
          | Some (Err code) => Some (Err code)
          | Some (Ok c) =>
              if (Directives limit <? n_directives c)%Z then Some (Err "MAX_DIRECTIVES_EXCEEDED")
              else walk fuel rest depth c
          end
      end
  end
  end.
End walk.

(** The error code, or [None] when the operation is admitted. *)
Definition ValidateOperation (op : OperationContext) (limit : Limits) : option (option string) :=
  if (DocumentBytes limit <? Z.of_nat (String.length (op_RawQuery op)))%Z
  then Some (Some "MAX_DOCUMENT_SIZE_EXCEEDED") else
  match op_Operation op with
  | None => Some (Some "MAX_ROOT_FIELDS_EXCEEDED")
  | Some o =>
      match walk op limit (Z.to_nat (FragmentVisits limit) + 2) (o_Set o) 0
              (mkCounters 0 0 0 (Z.of_nat (length (o_Directives o)))) with
      | None => None
      | Some (Err code) => Some (Some code)
      | Some (Ok _) => Some None
      end
  end.

(** ** The expanded operation

    The selections an operation comes to, each spread replaced by its fragment,
    with their depth. An operation has one exactly when its fragments do not
    lead back to themselves. *)
Section expansion.
Context (op : OperationContext) (limit : Limits).

Definition inside (sel : Selection) (depth : Z) : list Selection * Z :=
  match sel with
  | SField _ _ _ _ _ set => (set, depth + 1)%Z
  | SInline _ set => (set, depth)
  | SSpread name _ => (default [] (fr_Set <$> ForName (op_Fragments op) name), depth)
  end.
Inductive expands : list Selection → Z → list (Selection * Z) → Prop :=
| expands_nil depth : expands [] depth []
| expands_cons sel rest depth occs occs' :
    expands (inside sel depth).1 (inside sel depth).2 occs → expands rest depth occs' →
    expands (sel :: rest) depth ((sel, depth) :: occs ++ occs').

(** What a selection counts for. *)
Definition aliasesOf (occ : Selection * Z) : Z :=
  match occ.1 with SField name alias _ _ _ _ => if isAlias name alias then 1 else 0 | _ => 0 end.
Definition rootsOf (occ : Selection * Z) : Z :=
  match occ.1 with SField _ _ _ _ _ _ => if (occ.2 =? 0)%Z then 1 else 0 | _ => 0 end.
Definition directivesOf (occ : Selection * Z) : Z :=
  match occ.1 with
  | SField _ _ dirs _ _ _ | SInline dirs _ => Z.of_nat (length dirs)
  | SSpread name dirs =>
      Z.of_nat (length dirs + length (default [] (fr_Directives <$> ForName (op_Fragments op) name)))
  end.
Definition total (f : Selection * Z → Z) (occs : list (Selection * Z)) : Z :=
  foldr (λ occ n, f occ + n)%Z 0%Z occs.
Definition admissible (occ : Selection * Z) : Prop :=
  match occ.1 with
  | SField name _ _ def arguments _ =>
      (occ.2 + 1 ≤ Depth limit)%Z ∧ def ≫= (λ def, checkArguments op limit name def arguments) = None
  | _ => True
  end.
Record withinLimits (dirs : Z) (occs : list (Selection * Z)) : Prop := {
  wl_visits : (Z.of_nat (length occs) ≤ FragmentVisits limit)%Z;
  wl_aliases : (total aliasesOf occs ≤ Aliases limit)%Z;
  wl_roots : (total rootsOf occs ≤ RootFields limit)%Z;
  wl_directives : occs ≠ [] → (dirs + total directivesOf occs ≤ Directives limit)%Z;
  wl_fields : Forall admissible occs;
}.

Lemma total_app f occs occs' : total f (occs ++ occs') = (total f occs + total f occs')%Z.
Proof. unfold total. induction occs as [|occ occs IH]; simpl; lia. Qed.
Lemma total_nonneg f occs : (∀ occ, 0 ≤ f occ)%Z → (0 ≤ total f occs)%Z.
Proof. intros Hf. unfold total. induction occs as [|occ occs IH]; simpl; [lia|]. specialize (Hf occ). lia. Qed.
Lemma aliasesOf_nonneg occ : (0 ≤ aliasesOf occ)%Z.
Proof. unfold aliasesOf. destruct occ.1; try lia. destruct (isAlias _ _); lia. Qed.
Lemma rootsOf_nonneg occ : (0 ≤ rootsOf occ)%Z.
Proof. unfold rootsOf. destruct occ.1; try lia. destruct (_ =? _)%Z; lia. Qed.
Lemma directivesOf_nonneg occ : (0 ≤ directivesOf occ)%Z.
Proof. unfold directivesOf. destruct occ.1; lia. Qed.

Definition plus (c : Counters) (occs : list (Selection * Z)) : Counters :=
  mkCounters (n_visits c + Z.of_nat (length occs)) (n_aliases c + total aliasesOf occs)
    (n_roots c + total rootsOf occs) (n_directives c + total directivesOf occs).
Definition visited (c : Counters) : Counters :=
  mkCounters (n_visits c + 1) (n_aliases c) (n_roots c) (n_directives c).
Lemma plus_nil c : plus c [] = c.
Proof. unfold plus. destruct c; simpl. f_equal; lia. Qed.
Lemma plus_cons c occ occs occs' :
  plus (plus (plus c [occ]) occs) occs' = plus c (occ :: occs ++ occs').
Proof.
  unfold plus. simpl. rewrite !total_app, !length_app. f_equal; lia.
Qed.

(** [enter] counts the selection and goes inside. *)
Lemma enter_Ok sel depth c c' set depth' :
  enter op limit sel depth (visited c) = Ok (c', set, depth') ↔
  c' = plus c [(sel, depth)] ∧ (set, depth') = inside sel depth ∧ admissible (sel, depth) ∧
  (match sel with SField _ _ _ _ _ _ =>
     (depth = 0%Z → (n_roots c' ≤ RootFields limit)%Z) ∧ (n_aliases c' ≤ Aliases limit)%Z | _ => True end).
Proof.
  unfold plus, visited, total, aliasesOf, rootsOf, directivesOf, admissible, inside.
  destruct sel as [name alias dirs def arguments set0|dirs set0|name dirs]; cbn [foldr fst snd length enter].
  - cbn [n_visits n_aliases n_roots n_directives].
    destruct (Z.ltb_spec (Depth limit) (depth + 1)); [split; [done|lia]|].
    destruct ((depth =? 0)%Z && _) eqn:Er.
    { apply andb_true_iff in Er as [E1%Z.eqb_eq E2%Z.ltb_lt]. split; [done|].
      intros (-> & _ & _ & Hr & _). simpl in Hr. rewrite (proj2 (Z.eqb_eq depth 0)) in * by done.
      specialize (Hr E1). lia. }
    destruct (Z.ltb_spec (Aliases limit) (n_aliases c + if isAlias name alias then 1 else 0));
      [split; [done|intros (-> & _ & _ & _ & Ha); simpl in Ha; lia]|].
    destruct (def ≫= _) as [code|]; [split; [done|naive_solver]|].
    split; [intros [= <- <- <-]|intros (-> & [= -> ->] & _)].
    + split; [f_equal; lia|]. split_and!; [done..| |simpl; lia]. intros ->. simpl in *.
      by apply Z.ltb_ge in Er.
    + repeat f_equal; lia.
  - split; [intros [= <- <- <-]|intros (-> & [= -> ->] & _)]; [split_and!; try done; f_equal|do 4 f_equal]; simpl; lia.
  - destruct (ForName (op_Fragments op) name) as [def|]; cbn [fmap option_fmap option_map default];
      (split; [intros [= <- <- <-]|intros (-> & [= -> ->] & _)]; [split_and!; try done; f_equal|do 4 f_equal]; simpl; lia).
Qed.

(** ** The walk is exact *)

Record okCounters (c : Counters) : Prop := {
  oc_visits : (n_visits c ≤ FragmentVisits limit)%Z;
  oc_aliases : (n_aliases c ≤ Aliases limit)%Z;
  oc_roots : (n_roots c ≤ RootFields limit)%Z;
}.
Lemma okCounters_part c occs occs' : okCounters (plus c (occs ++ occs')) → okCounters (plus c occs).
Proof.
  intros [H1 H2 H3]. unfold plus in *. simpl in *. rewrite !total_app, length_app in *.
  pose proof (total_nonneg _ occs' aliasesOf_nonneg). pose proof (total_nonneg _ occs' rootsOf_nonneg).
  split; simpl; lia.
Qed.
Lemma okCounters_before c occs : okCounters (plus c occs) → okCounters c.
Proof. intros H. rewrite <- (plus_nil c). by apply (okCounters_part c [] occs). Qed.
Lemma enter_counters sel depth c c' set depth' :
  okCounters c → (n_visits c < FragmentVisits limit)%Z →
  enter op limit sel depth (visited c) = Ok (c', set, depth') → okCounters c'.
Proof.
  intros [H1 H2 H3] Hv (-> & _ & _ & H)%enter_Ok. unfold plus, total, aliasesOf, rootsOf in *. simpl in *.
  destruct sel; simpl in *; split; simpl; try lia. destruct (Z.eqb_spec depth 0); [|lia]. by apply H.
Qed.

Lemma walk_sound fuel set depth c c' :
  okCounters c → walk op limit fuel set depth c = Some (Ok c') →
  ∃ occs, expands set depth occs ∧ c' = plus c occs ∧ Forall admissible occs ∧ okCounters c' ∧
    (occs ≠ [] → (n_directives c' ≤ Directives limit)%Z).
Proof.
  revert set depth c c'. induction fuel as [|fuel IH]; intros set depth c c' Hc; simpl; [done|].
  destruct set as [|sel rest].
  { intros [= <-]. exists []. rewrite plus_nil. split_and!; try done; constructor. }
  fold (visited c). destruct (Z.ltb_spec (FragmentVisits limit) (n_visits c + 1)) as [|Hv]; [done|].
  destruct (enter op limit sel depth (visited c)) as [[[c1 set1] d1]|code] eqn:Ee; [|done].
  assert (okCounters c1) as Hc1 by (eapply enter_counters; [exact Hc|lia|exact Ee]).
  apply enter_Ok in Ee as (-> & Ei & Ha & _).
  destruct (walk op limit fuel set1 d1 _) as [[c2|code]|] eqn:E1; try done.
  destruct (IH _ _ _ _ Hc1 E1) as (occs & X1 & -> & A1 & Hc2 & _).
  destruct (Z.ltb_spec (Directives limit) (n_directives (plus (plus c [(sel, depth)]) occs))) as [|Hd]; [done|].
  intros E2. destruct (IH _ _ _ _ Hc2 E2) as (occs' & X2 & -> & A2 & Hc3 & Hd').
  exists ((sel, depth) :: occs ++ occs'). split_and!.
  - constructor; [by rewrite <- Ei|done].
  - apply plus_cons.
  - constructor; [done|by apply Forall_app].
  - done.
  - intros _. destruct occs' as [|occ occs']; [by rewrite plus_nil|by apply Hd'].
Qed.

Lemma walk_complete set depth occs :
  expands set depth occs → ∀ fuel c, Forall admissible occs → okCounters (plus c occs) →
  (occs ≠ [] → (n_directives (plus c occs) ≤ Directives limit)%Z) → length occs < fuel →
  walk op limit fuel set depth c = Some (Ok (plus c occs)).
Proof.
  induction 1 as [depth|sel rest depth occs occs' H1 IH1 H2 IH2]; intros fuel c Ha Hc Hd Hf.
  - destruct fuel; [simpl in *; lia|]. by rewrite plus_nil.
  - destruct fuel as [|fuel]; [simpl in *; lia|]. simpl in Hf. rewrite length_app in Hf.
    apply Forall_cons in Ha as [Ha [Ha1 Ha2]%Forall_app]. specialize (Hd ltac:(done)).
    rewrite <- plus_cons in Hc, Hd.
    set (c1 := plus c [(sel, depth)]) in *. set (c2 := plus c1 occs) in *.
    assert (okCounters c2) as Hc2 by (by eapply okCounters_before).
    assert (okCounters c1) as Hc1 by (by eapply okCounters_before).
    assert (n_directives c2 ≤ Directives limit)%Z as Hd2.
    { pose proof (total_nonneg _ occs' directivesOf_nonneg).
      change (n_directives (plus c2 occs')) with (n_directives c2 + total directivesOf occs')%Z in Hd. lia. }
    simpl. fold (visited c).
    destruct (Z.ltb_spec (FragmentVisits limit) (n_visits c + 1)) as [Hv|_];
      [destruct Hc1 as [Hv1 _ _]; unfold c1, plus in Hv1; simpl in Hv1; lia|].
    destruct (inside sel depth) as [set1 d1] eqn:Ei. simpl in H1, IH1.
    assert (enter op limit sel depth (visited c) = Ok (c1, set1, d1)) as ->.
    { apply enter_Ok. split_and!; [done|by rewrite Ei|done|]. destruct Hc1 as [_ ? ?]. by destruct sel. }
    rewrite IH1; [|done|done| |lia].
    + fold c2. rewrite (proj2 (Z.ltb_ge _ _)) by done. rewrite IH2; [|done|done| |lia].
      * unfold c2, c1. by rewrite plus_cons.
      * intros _. exact Hd.
    + intros _. exact Hd2.
Qed.

(** Every selection costs a visit, so the budget bounds the recursion. *)
Lemma walk_total fuel set depth c :
  (n_visits c ≤ FragmentVisits limit)%Z → (FragmentVisits limit - n_visits c + 2 ≤ Z.of_nat fuel)%Z →
  ∃ r, walk op limit fuel set depth c = Some r ∧
    (∀ c', r = Ok c' → (n_visits c ≤ n_visits c' ≤ FragmentVisits limit)%Z).
Proof.
  revert set depth c. induction fuel as [|fuel IH]; intros set depth c Hv Hf; [lia|].
  destruct set as [|sel rest]; simpl; [eexists; split; [done|]; intros c' [= <-]; lia|]. fold (visited c).
  destruct (Z.ltb_spec (FragmentVisits limit) (n_visits c + 1)); [by eexists|].
  destruct (enter op limit sel depth (visited c)) as [[[c1 set1] d1]|code] eqn:Ee; [|by eexists].
  apply enter_Ok in Ee as (-> & _ & _ & _).
  destruct (IH set1 d1 (plus c [(sel, depth)])) as (r1 & -> & H1); [simpl; lia..|].
  destruct r1 as [c2|code]; [|by eexists]. specialize (H1 c2 eq_refl). simpl in H1.
  destruct (_ <? _)%Z; [by eexists|].
  destruct (IH rest depth c2) as (r2 & -> & H2); [lia..|]. eexists. split; [done|].
  intros c' Hc'. specialize (H2 c' Hc'). lia.
Qed.
End expansion.

End operation.

(** ** Complexity

    The schema, as far as the cost of a field depends on it, and the callback
    of the generated code, which may know the cost of the field. *)
Inductive TypeKind : Type := KScalar | KEnum | KOther.
Record TypeDefinition : Type := mkType { td_Kind : TypeKind; td_Fields : gmap string FieldDefinition }.

(** Arithmetic on [int]. *)
Definition int (n : Z) : Z := ((n + 2 ^ 63) mod 2 ^ 64 - 2 ^ 63)%Z.
Lemma int_small n : (- 2 ^ 63 ≤ n < 2 ^ 63)%Z → int n = n.
Proof. intros H. unfold int. rewrite Z.mod_small; lia. Qed.

Section complexity.
Context (types : gmap string TypeDefinition) (limit : Limits).
Context (generated : string → string → Z → gmap string Value → Z * bool).

Definition fieldOf (typeName fieldName : string) : option FieldDefinition :=
  types !! typeName ≫= λ def, td_Fields def !! fieldName.
Definition isLeaf (def : FieldDefinition) : bool :=
  match types !! fd_Type def with
  | Some (mkType KScalar _) | Some (mkType KEnum _) => true
  | _ => false
  end.
Definition fieldCost (typeName fieldName : string) (child : Z) (args : gmap string Value) : Z :=
  let (cost, known) := generated typeName fieldName child args in
  if known then cost else
  match fieldOf typeName fieldName with
  | Some def => if isLeaf def then 0%Z else int (1 + child)
  | None => int (1 + child)
  end.
(** The larger of the page sizes asked for, 0 when there is none. *)
Definition requested (args : gmap string Value) : Z :=
  foldl (λ r name, let (n, ok) := integer (default VNil (args !! name)) in
                   if ok && (0 <? n)%Z then Z.max r n else r) 0%Z ["first"; "last"].
Definition factor (typeName fieldName : string) (args : gmap string Value) : Z :=
  let f := match fieldOf typeName fieldName with
           | Some def => if paginated def
                         then (if (0 <? requested args)%Z then requested args else DefaultPageSize) else 1%Z
           | None => 1%Z
           end in
  let ids := default VNil (args !! "ids") in
  if bool_decide (fieldName = "nodes") && negb (bool_decide (ids = VNil)) then listSize ids else f.
Definition Complexity (typeName fieldName : string) (child : Z) (args : gmap string Value) : Z * bool :=
  if bool_decide (typeName = "Query") && (bool_decide (fieldName = "__schema") || bool_decide (fieldName = "__type"))
  then (100%Z, true) else
  let cost := fieldCost typeName fieldName child args in
  let factor := factor typeName fieldName args in
  if (0 <? factor)%Z && (Z.quot (Complexity_ limit) factor <? cost)%Z
  then (int (Complexity_ limit + 1), true) else (int (cost * factor), true).

Lemma factor_nonneg typeName fieldName args : (0 ≤ factor typeName fieldName args)%Z.
Proof.
  unfold factor. destruct (_ && _).
  - unfold listSize. case_match; lia.
  - destruct (fieldOf _ _); [|lia]. destruct (paginated _); [|lia].
    destruct (Z.ltb_spec 0 (requested args)); unfold DefaultPageSize; lia.
Qed.
(** The charge saturates one above the limit instead of overflowing: it exceeds
    the limit exactly when the cost times the size of the page does. *)
Theorem Complexity_saturates typeName fieldName child args :
  (0 < Complexity_ limit < 2 ^ 63 - 1)%Z → (0 ≤ fieldCost typeName fieldName child args)%Z →
  typeName ≠ "Query" →
  (Complexity typeName fieldName child args).1 =
    Z.min (Complexity_ limit + 1) (fieldCost typeName fieldName child args * factor typeName fieldName args).
Proof.
  intros Hl Hc Ht. unfold Complexity. rewrite bool_decide_eq_false_2 by done. cbn [andb].
  pose proof (factor_nonneg typeName fieldName args) as Hf.
  set (f := factor typeName fieldName args) in *. set (c := fieldCost typeName fieldName child args) in *.
  destruct (Z.ltb_spec 0 f) as [Hp|]; cbn [andb].
  - rewrite Z.quot_div_nonneg by lia. destruct (Z.ltb_spec (Complexity_ limit / f) c) as [Hlt|Hge]; simpl.
    + rewrite int_small by lia.
      assert (Complexity_ limit < c * f)%Z; [|lia].
      pose proof (Z.mul_succ_div_gt (Complexity_ limit) f Hp). nia.
    + assert (c * f ≤ Complexity_ limit)%Z by (pose proof (Z.mul_div_le (Complexity_ limit) f Hp); nia).
      rewrite int_small by nia. lia.
  - assert (f = 0)%Z as -> by lia. rewrite Z.mul_0_r, int_small by lia. cbn [fst]. lia.
Qed.
End complexity.

(** ** Examples *)

Definition defaultLimits : Limits := mkLimits 65536 15 30 20 100 1000 250 50 1000.
(** The arguments of the examples are given by value. *)
Definition exArguments (_ : FieldDefinition) (args : list (string * Value)) (_ : unit) : gmap string Value :=
  list_to_map args.
Notation exSelection := (Selection (Arg := string * Value)).
Definition leaf (name : string) : exSelection := SField name "" [] None [] [].
Definition products (first : Z) (set : list exSelection) : exSelection :=
  SField "products" "" [] (Some (mkFieldDef "Product" ["first"; "last"])) [("first", VInt64 first)] set.
Definition exOperation (set : list exSelection) (fragments : list FragmentDefinition) : OperationContext :=
  mkContext "{...}" (Some (mkOperation [] set)) fragments tt.

Example page_at_limit :
  ValidateOperation exArguments (exOperation [products 250 [leaf "id"]] []) defaultLimits = Some None.
Proof. vm_compute. reflexivity. Qed.
Example page_over_limit :
  ValidateOperation exArguments (exOperation [products 251 [leaf "id"]] []) defaultLimits =
  Some (Some "MAX_PAGE_SIZE_EXCEEDED").
Proof. vm_compute. reflexivity. Qed.
(** Two fragments that contain each other. *)
Example cyclic_fragments :
  ValidateOperation exArguments
    (exOperation [SSpread "A" []] [mkFragment "A" [] [SSpread "B" []]; mkFragment "B" [] [SSpread "A" []]])
    defaultLimits = Some (Some "MAX_FRAGMENT_VISITS_EXCEEDED").
Proof. vm_compute. reflexivity. Qed.

