(* ===== verification/Auth.v ===== *)
(** * Identities

    Principals and their validation ([gitstore-api/internal/auth/types.go]), the
    chain of authentication providers ([registry.go]), and the registered
    authorization actions ([actions_generated.go]). *)

From S2P Require Import Prelude Entities.
From Stdlib Require Import Ascii.

(** ** Text *)

(** A Go string is a sequence of bytes; [runes] is its decoding, if it is valid
    UTF-8 ([unicode/utf8]). *)
Definition byteOf (a : ascii) : Z := Z.of_nat (nat_of_ascii a).
Definition within (lo hi x : Z) : bool := (lo <=? x)%Z && (x <=? hi)%Z.
Definition continues (x : Z) : bool := within 128 191 x.
Definition second3 (x y : Z) : bool :=
  if (x =? 224)%Z then within 160 191 y else if (x =? 237)%Z then within 128 159 y else continues y.
Definition second4 (x y : Z) : bool :=
  if (x =? 240)%Z then within 144 191 y else if (x =? 244)%Z then within 128 143 y else continues y.
Fixpoint runes (s : string) : option (list Z) :=
  match s with
  | EmptyString => Some []
  | String a s1 =>
      let x := byteOf a in
      if (x <? 128)%Z then cons x <$> runes s1 else
      match s1 with
      | EmptyString => None
      | String b s2 =>
          let y := byteOf b in
          if within 194 223 x && continues y
          then cons ((x - 192) * 64 + (y - 128))%Z <$> runes s2 else
          match s2 with
          | EmptyString => None
          | String c s3 =>
              let z := byteOf c in
              if within 224 239 x && second3 x y && continues z
              then cons ((x - 224) * 4096 + (y - 128) * 64 + (z - 128))%Z <$> runes s3 else
              match s3 with
              | EmptyString => None
              | String d s4 =>
                  let w := byteOf d in
                  if within 240 244 x && second4 x y && continues z && continues w
                  then cons ((x - 240) * 262144 + (y - 128) * 4096 + (z - 128) * 64 + (w - 128))%Z
                         <$> runes s4
                  else None
              end
          end
      end
  end.
Definition ValidString (s : string) : bool := match runes s with Some _ => true | None => false end.

(** [unicode.IsSpace] and [unicode.IsControl]. *)
Definition IsSpace (r : Z) : bool :=
  within 9 13 r || bool_decide (r ∈ [32; 133; 160; 5760; 8232; 8233; 8239; 8287; 12288]%Z) ||
  within 8192 8202 r.
Definition IsControl (r : Z) : bool := within 0 31 r || within 127 159 r.
Definition length_ (s : string) : Z := Z.of_nat (String.length s).

Definition hasPrefix (p s : string) : bool :=
  match cutPrefix p s with Some _ => true | None => false end.
Definition trimPrefix (p s : string) : string := default s (cutPrefix p s).
(** [strings.ContainsAny(s, ":/")] *)
Definition hasSeparator (s : string) : bool := hasChar ":" s || hasChar "/" s.

(** ** Principals *)

(** A dynamic value: a string, an object with its string members ([None] for a
    member of another type), or anything else. *)
Inductive Any : Type :=
| AString (s : string)
| AObject (members : gmap string (option string))
| AOther.

Record Principal : Type := mkPrincipal {
  Subject : string;
  Issuer : string;
  Tenant : string;
  p_Namespace : string;
  Groups : list string;
  Scopes : list string;
  Claims : gmap string Any;
  AuthMethod : string;
  ExpiresAt : Z;
  TokenID : string;
  ServiceAccountUID : string;
}.
Definition setGroups (gs : list string) (p : Principal) : Principal :=
  mkPrincipal (Subject p) (Issuer p) (Tenant p) (p_Namespace p) gs (Scopes p) (Claims p)
    (AuthMethod p) (ExpiresAt p) (TokenID p) (ServiceAccountUID p).
Definition Anonymous : Principal := mkPrincipal "anon" "gitstore" "" "" [] [] ∅ "none" 0 "" "".

Definition MaxPrincipalGroups : nat := 256.
Definition saMethod (m : string) : bool :=
  bool_decide (m = "serviceaccount-jwt") || bool_decide (m = "serviceaccount-assertion").

Definition trustedText (s : string) : bool :=
  match runes s with
  | Some rs => negb (bool_decide (s = "")) && (length_ s <=? 256)%Z && negb (existsb IsControl rs)
  | None => false
  end.

Definition ValidExternalUsername (subject : string) : bool :=
  negb (bool_decide (subject = "")) && negb (bool_decide (subject = "anon")) &&
  (length_ subject <=? 256)%Z && ValidString subject &&
  negb (hasPrefix "system:" subject) && negb (hasPrefix "serviceaccount:" subject).

Definition ValidTrustedPrincipal (o : option Principal) : bool :=
  match o with
  | None => false
  | Some p =>
      if negb (trustedText (Subject p)) || negb (trustedText (AuthMethod p)) ||
         (MaxPrincipalGroups <? length (Groups p)) then false else
      if negb (forallb trustedText (Groups p)) then false else
      if bool_decide (Subject p = "system:api")
      then bool_decide (AuthMethod p = "internal") && bool_decide (ServiceAccountUID p = "") else
      match cutPrefix "system:serviceaccount:" (Subject p) with
      | Some name => trustedText name && negb (hasSeparator name) &&
                     trustedText (ServiceAccountUID p) && saMethod (AuthMethod p)
      | None =>
          if bool_decide (Subject p = "anon")
          then bool_decide (AuthMethod p = "none") && bool_decide (ServiceAccountUID p = "") else
          ValidExternalUsername (Subject p) && bool_decide (ServiceAccountUID p = "") &&
          negb (bool_decide (AuthMethod p = "internal")) &&
          negb (bool_decide (AuthMethod p = "none")) &&
          negb (hasPrefix "serviceaccount-" (AuthMethod p))
      end
  end.

(** The groups the boundary assigns itself: they are dropped from what a
    provider claims. *)
Definition synthesized : list string :=
  ["system:authenticated"; "system:unauthenticated"; "system:serviceaccounts"].

(** The loop over the claimed groups; [seen] is what was kept so far. *)
Fixpoint claimedGroups (seen : list string) (gs : list string) : option (list string) :=
  match gs with
  | [] => Some seen
  | g :: gs =>
      if bool_decide (g = "") || (256 <? length_ g)%Z || negb (ValidString g) then None else
      if bool_decide (g ∈ synthesized) || bool_decide (g ∈ seen) then claimedGroups seen gs
      else claimedGroups (seen ++ [g]) gs
  end.

Definition saProvider (provider : string) : bool := saMethod provider.
Definition anonymousClaim (provider : string) (p : Principal) : bool :=
  bool_decide (provider = "anonymous") && bool_decide (Subject p = "anon") &&
  bool_decide (AuthMethod p = "none") && bool_decide (ServiceAccountUID p = "").

(** Is the claimed identity one this provider may vouch for? *)
Definition vouched (provider : string) (p : Principal) : bool :=
  if saProvider provider then
    match cutPrefix "system:serviceaccount:" (Subject p) with
    | Some name => negb (bool_decide (name = "")) && negb (hasSeparator name) &&
                   (length_ (Subject p) <=? 256)%Z && ValidString name &&
                   negb (bool_decide (ServiceAccountUID p = "")) &&
                   bool_decide (AuthMethod p = provider)
    | None => false
    end
  else
    ValidExternalUsername (Subject p) && bool_decide (ServiceAccountUID p = "") &&
    negb (bool_decide (AuthMethod p = "none")) && negb (bool_decide (AuthMethod p = "internal")) &&
    negb (hasPrefix "serviceaccount-" (AuthMethod p)).

Definition normalizeAuthenticatedPrincipal (provider : string) (o : option Principal)
  : option Principal :=
  match o with
  | None => None
  | Some p =>
      if MaxPrincipalGroups <? length (Groups p) then None else
      if anonymousClaim provider p then Some (setGroups ["system:unauthenticated"] p) else
      if negb (vouched provider p) then None else
      match claimedGroups [] (Groups p) with
      | None => None
      | Some kept =>
          let groups := kept ++ ["system:authenticated"] ++
                        (if saProvider provider then ["system:serviceaccounts"] else []) in
          let normalized := setGroups groups p in
          if ValidTrustedPrincipal (Some normalized) then Some normalized else None
      end
  end.

(** ** Decisions *)

Inductive Outcome : Type := OutcomeAllow | OutcomeDeny | OutcomeChallenge.
#[global] Instance Outcome_eq_dec : EqDecision Outcome.
Proof. solve_decision. Defined.

(** The request identifier, filled in by callers, and the time are left out. *)
Record Decision_ : Type := mkDecision {
  d_Outcome : Outcome;
  d_Reason : string;
  d_Provider : string;
  d_PolicyDigest : string;
}.
Definition Allow (provider reason : string) : Decision_ := mkDecision OutcomeAllow reason provider "".
Definition Deny (provider reason : string) : Decision_ := mkDecision OutcomeDeny reason provider "".
Definition Challenge (provider reason : string) : Decision_ :=
  mkDecision OutcomeChallenge reason provider "".

(** ** The chain of providers *)

Section chain.
Context {Request Err_ : Type} (errText : Err_ → string) (notSupported : Err_ → bool).

(** [AuthNProvider] *)
Record AuthNProvider : Type := mkProvider {
  Name : string;
  Authenticate : Request → option Principal * Decision_ * option Err_;
  Revoke : string → Z → option Err_;
  Refresh : string → result Err_ (string * Z);
  Issue : string → result Err_ (string * Z);
}.

(** [ChainedAuthN.Authenticate] *)
Fixpoint chainAuthenticate (providers : list AuthNProvider) (req : Request)
  : option Principal * Decision_ * option Err_ :=
  match providers with
  | [] => (None, Deny "chain" "credentials present but no provider accepted them", None)
  | p :: rest =>
      match Authenticate p req with
      | (_, _, Some e) => (None, Deny (Name p) ("provider error: " +:+ errText e), Some e)
      | (principal, d, None) =>
          match d_Outcome d with
          | OutcomeAllow =>
              match normalizeAuthenticatedPrincipal (Name p) principal with
              | None => (None, Deny (Name p) "invalid or reserved authenticated identity", None)
              | Some n => (Some n, d, None)
              end
          | OutcomeDeny => (None, d, None)
          | OutcomeChallenge => chainAuthenticate rest req
          end
      end
  end.

(** [ChainedAuthN.RevokeSession]: every provider is asked; the first error other
    than not being supported stops. [None] is success, [Some (inl tt)] is
    [ErrNotSupported]. *)
Fixpoint chainRevoke (providers : list AuthNProvider) (supported : bool) (jti : string) (exp : Z)
  : option (unit + Err_) :=
  match providers with
  | [] => if supported then None else Some (inl tt)
  | p :: rest =>
      match Revoke p jti exp with
      | None => chainRevoke rest true jti exp
      | Some e => if notSupported e then chainRevoke rest supported jti exp else Some (inr e)
      end
  end.

(** [RefreshSession] and [IssueSession]: the first provider that supports it. *)
Fixpoint firstSupported (f : AuthNProvider → result Err_ (string * Z)) (providers : list AuthNProvider)
  : result (unit + Err_) (string * Z) :=
  match providers with
  | [] => Err (inl tt)
  | p :: rest =>
      match f p with
      | Ok r => Ok r
      | Err e => if notSupported e then firstSupported f rest else Err (inr e)
      end
  end.
Definition chainRefresh (providers : list AuthNProvider) (token : string) :=
  firstSupported (λ p, Refresh p token) providers.
Definition chainIssue (providers : list AuthNProvider) (subject : string) :=
  firstSupported (λ p, Issue p subject) providers.
End chain.
Arguments AuthNProvider : clear implicits.

(** ** Registered actions *)

Record ActionDefinition : Type := mkAction {
  a_Action : string;
  a_Kind : string;
  a_Scope : string;
  a_Resource : string;
  a_Verb : string;
  a_Reserved : bool;
}.
#[global] Instance ActionDefinition_eq_dec : EqDecision ActionDefinition.
Proof. solve_decision. Defined.

Definition authorizationActions : list ActionDefinition :=
  [mkAction "catalogRelease.create" "catalogRelease" "namespace" "catalogRelease" "create" true;
   mkAction "categoryTaxonomy.create" "categoryTaxonomy" "namespace" "categoryTaxonomy" "create" false;
   mkAction "categoryTaxonomy.delete" "categoryTaxonomy" "namespace" "categoryTaxonomy" "delete" false;
   mkAction "categoryTaxonomy.list" "categoryTaxonomy" "namespace" "categoryTaxonomy" "list" false;
   mkAction "categoryTaxonomy.purge" "categoryTaxonomy" "namespace" "categoryTaxonomy" "purge" false;
   mkAction "categoryTaxonomy.read" "categoryTaxonomy" "namespace" "categoryTaxonomy" "read" false;
   mkAction "categoryTaxonomy.status.write" "categoryTaxonomy" "namespace" "categoryTaxonomy/status" "write" false;
   mkAction "categoryTaxonomy.transfer" "categoryTaxonomy" "namespace" "categoryTaxonomy" "transfer" false;
   mkAction "categoryTaxonomy.update" "categoryTaxonomy" "namespace" "categoryTaxonomy" "update" false;
   mkAction "categoryTaxonomy.watch" "categoryTaxonomy" "namespace" "categoryTaxonomy" "watch" false;
   mkAction "collection.create" "collection" "namespace" "collection" "create" false;
   mkAction "collection.delete" "collection" "namespace" "collection" "delete" false;
   mkAction "collection.list" "collection" "namespace" "collection" "list" false;
   mkAction "collection.read" "collection" "namespace" "collection" "read" false;
   mkAction "collection.status.write" "collection" "namespace" "collection/status" "write" false;
   mkAction "collection.transfer" "collection" "namespace" "collection" "transfer" false;
   mkAction "collection.update" "collection" "namespace" "collection" "update" false;
   mkAction "collection.watch" "collection" "namespace" "collection" "watch" false;
   mkAction "file.create" "file" "namespace" "file" "create" false;
   mkAction "file.delete" "file" "namespace" "file" "delete" false;
   mkAction "file.list" "file" "namespace" "file" "list" false;
   mkAction "file.read" "file" "namespace" "file" "read" false;
   mkAction "file.status.write" "file" "namespace" "file/status" "write" false;
   mkAction "file.transfer" "file" "namespace" "file" "transfer" false;
   mkAction "file.update" "file" "namespace" "file" "update" false;
   mkAction "file.watch" "file" "namespace" "file" "watch" false;
   mkAction "iam.manage" "iam" "cluster" "iam" "manage" true;
   mkAction "namespace.create" "namespace" "cluster" "namespace" "create" false;
   mkAction "namespace.delete" "namespace" "cluster" "namespace" "delete" false;
   mkAction "namespace.list" "namespace" "cluster" "namespace" "list" false;
   mkAction "namespace.purge" "namespace" "cluster" "namespace" "purge" false;
   mkAction "namespace.read" "namespace" "cluster" "namespace" "read" false;
   mkAction "namespace.status.write" "namespace" "cluster" "namespace/status" "write" false;
   mkAction "namespace.system-repository.provision" "namespace" "cluster" "namespace/system-repository" "provision" false;
   mkAction "namespace.transfer" "namespace" "cluster" "namespace" "transfer" false;
   mkAction "namespace.update" "namespace" "cluster" "namespace" "update" false;
   mkAction "namespace.watch" "namespace" "cluster" "namespace" "watch" false;
   mkAction "product.create" "product" "namespace" "product" "create" false;
   mkAction "product.delete" "product" "namespace" "product" "delete" false;
   mkAction "product.list" "product" "namespace" "product" "list" false;
   mkAction "product.management.list" "product" "namespace" "product/management" "list" false;
   mkAction "product.management.read" "product" "namespace" "product/management" "read" false;
   mkAction "product.purge" "product" "namespace" "product" "purge" false;
   mkAction "product.read" "product" "namespace" "product" "read" false;
   mkAction "product.status.write" "product" "namespace" "product/status" "write" false;
   mkAction "product.transfer" "product" "namespace" "product" "transfer" false;
   mkAction "product.update" "product" "namespace" "product" "update" false;
   mkAction "product.watch" "product" "namespace" "product" "watch" false;
   mkAction "productVariant.create" "productVariant" "namespace" "productVariant" "create" false;
   mkAction "productVariant.delete" "productVariant" "namespace" "productVariant" "delete" false;
   mkAction "productVariant.list" "productVariant" "namespace" "productVariant" "list" false;
   mkAction "productVariant.management.list" "productVariant" "namespace" "productVariant/management" "list" false;
   mkAction "productVariant.management.read" "productVariant" "namespace" "productVariant/management" "read" false;
   mkAction "productVariant.read" "productVariant" "namespace" "productVariant" "read" false;
   mkAction "productVariant.status.write" "productVariant" "namespace" "productVariant/status" "write" false;
   mkAction "productVariant.transfer" "productVariant" "namespace" "productVariant" "transfer" false;
   mkAction "productVariant.update" "productVariant" "namespace" "productVariant" "update" false;
   mkAction "productVariant.watch" "productVariant" "namespace" "productVariant" "watch" false;
   mkAction "publication.create" "publication" "namespace" "publication" "create" true;
   mkAction "publication.read" "publication" "namespace" "publication" "read" true;
   mkAction "repository.contents.read" "repository" "namespace" "repository/contents" "read" false;
   mkAction "repository.contents.write" "repository" "namespace" "repository/contents" "write" false;
   mkAction "repository.create" "repository" "namespace" "repository" "create" false;
   mkAction "repository.delete" "repository" "namespace" "repository" "delete" false;
   mkAction "repository.list" "repository" "namespace" "repository" "list" false;
   mkAction "repository.purge" "repository" "namespace" "repository" "purge" false;
   mkAction "repository.read" "repository" "namespace" "repository" "read" false;
   mkAction "repository.status.write" "repository" "namespace" "repository/status" "write" false;
   mkAction "repository.transfer" "repository" "namespace" "repository" "transfer" false;
   mkAction "repository.update" "repository" "namespace" "repository" "update" false;
   mkAction "repository.watch" "repository" "namespace" "repository" "watch" false;
   mkAction "serviceAccount.create" "serviceAccount" "cluster" "serviceAccount" "create" false;
   mkAction "serviceAccount.delete" "serviceAccount" "cluster" "serviceAccount" "delete" false;
   mkAction "serviceAccount.key.rotate" "serviceAccount" "cluster" "serviceAccount/key" "rotate" false;
   mkAction "serviceAccount.list" "serviceAccount" "cluster" "serviceAccount" "list" false;
   mkAction "serviceAccount.read" "serviceAccount" "cluster" "serviceAccount" "read" false;
   mkAction "serviceAccount.token.issue" "serviceAccount" "cluster" "serviceAccount/token" "issue" false;
   mkAction "serviceAccount.update" "serviceAccount" "cluster" "serviceAccount" "update" false;
   mkAction "workflow.bundle.install" "workflow" "namespace" "workflow/bundle" "install" true;
   mkAction "workflow.definition.manage" "workflow" "namespace" "workflow/definition" "manage" true;
   mkAction "workflow.execution.transition" "workflow" "namespace" "workflow/execution" "transition" true;
   mkAction "workflow.release.approve" "workflow" "namespace" "workflow/release" "approve" true].
Definition authorizationActionIndex : gmap string ActionDefinition :=
  foldl (λ m a, <[a_Action a := a]> m) ∅ authorizationActions.
Definition LookupAction (action : string) : option ActionDefinition :=
  authorizationActionIndex !! action.

(** ** Authenticated identities *)

Lemma claimedGroups_spec gs : ∀ seen kept, claimedGroups seen gs = Some kept →
  (∀ g, g ∈ kept → g ∈ seen ∨ g ∈ gs) ∧ (∀ g, g ∈ seen → g ∈ kept) ∧
  ((∀ g, g ∈ seen → g ∉ synthesized) → ∀ g, g ∈ kept → g ∉ synthesized).
Proof.
  induction gs as [|g gs IH]; intros seen kept; simpl.
  { intros [= <-]. split_and!; auto. }
  destruct (_ || _ || _); [done|]. case_bool_decide as H1; cbn [orb]; [|case_bool_decide as H2];
    intros (Ha & Hb & Hc)%IH; clear IH; (split_and!).
  - intros x Hx%Ha. rewrite elem_of_cons. tauto.
  - auto.
  - auto.
  - intros x Hx%Ha. rewrite elem_of_cons. tauto.
  - auto.
  - auto.
  - intros x Hx%Ha. rewrite elem_of_cons, elem_of_app, list_elem_of_singleton in *. tauto.
  - intros x Hx. apply Hb, elem_of_app. auto.
  - intros Hs. apply Hc. intros x [Hx| ->%list_elem_of_singleton]%elem_of_app; auto.
Qed.

(** What the boundary guarantees of the principal it lets in. *)
Definition soundIdentity (provider : string) (claimed p : Principal) : Prop :=
  Subject p = Subject claimed ∧ AuthMethod p = AuthMethod claimed ∧
  ServiceAccountUID p = ServiceAccountUID claimed ∧
  ValidTrustedPrincipal (Some p) = true ∧
  ("system:unauthenticated" ∈ Groups p ↔ provider = "anonymous" ∧ Subject p = "anon") ∧
  ("system:authenticated" ∈ Groups p ↔ Subject p ≠ "anon") ∧
  ("system:serviceaccounts" ∈ Groups p ↔ saProvider provider = true) ∧
  (hasPrefix "system:" (Subject p) = true → saProvider provider = true ∧ ServiceAccountUID p ≠ "") ∧
  (∀ g, g ∈ Groups p → g ∉ synthesized → g ∈ Groups claimed).

Lemma hasPrefix_app p q s : hasPrefix (p +:+ q) s = true → hasPrefix p s = true.
Proof.
  unfold hasPrefix. revert s. induction p as [|c p IH]; intros s; simpl; [done|].
  destruct s as [|d s]; [done|]. case_bool_decide; [apply IH|done].
Qed.

Lemma normalize_sound provider claimed p :
  normalizeAuthenticatedPrincipal provider (Some claimed) = Some p → soundIdentity provider claimed p.
Proof.
  unfold normalizeAuthenticatedPrincipal. destruct (_ <? _); [done|].
  destruct (anonymousClaim provider claimed) eqn:Ea.
  { intros [= <-]. unfold anonymousClaim in Ea. rewrite !andb_true_iff, !bool_decide_eq_true in Ea.
    destruct Ea as [[[-> Es] Em] Eu]. unfold soundIdentity.
    assert (ValidTrustedPrincipal (Some (setGroups ["system:unauthenticated"] claimed)) = true) as ->.
    { unfold ValidTrustedPrincipal. cbn [setGroups Subject AuthMethod Groups ServiceAccountUID].
      by rewrite Es, Em, Eu. }
    cbn [setGroups Subject AuthMethod Groups ServiceAccountUID]. rewrite Es.
    unfold synthesized. split_and!; try done; set_solver. }
  destruct (vouched provider claimed) eqn:Ev; [|done]. cbn [negb].
  destruct (claimedGroups [] (Groups claimed)) as [kept|] eqn:Ek; [|done].
  cbv zeta. destruct (ValidTrustedPrincipal (Some _)) eqn:Et; [|done]. intros [= <-].
  apply claimedGroups_spec in Ek as (Hin & _ & Hns).
  assert (∀ g, g ∈ kept → g ∉ synthesized) as Hk by (apply Hns; set_solver).
  assert (Subject claimed ≠ "anon") as Hanon.
  { intros E. unfold vouched, ValidExternalUsername in Ev. rewrite E in Ev.
    destruct (saProvider provider); done. }
  assert (hasPrefix "system:" (Subject claimed) = true → saProvider provider = true ∧
    ServiceAccountUID claimed ≠ "") as Hsys.
  { intros Hp. unfold vouched in Ev. destruct (saProvider provider).
    - destruct (cutPrefix _ _); [|done]. rewrite !andb_true_iff, !negb_true_iff,
        !bool_decide_eq_false in Ev. tauto.
    - unfold ValidExternalUsername in Ev. rewrite Hp in Ev. simpl in Ev.
      by rewrite !andb_false_r in Ev. }
  refine (conj eq_refl (conj eq_refl (conj eq_refl (conj Et _)))).
  cbn [setGroups Subject AuthMethod Groups ServiceAccountUID].
  unfold synthesized in *. clear Ev Et Ea Hns.
  split_and!; [..|exact Hsys|]; clear Hsys; destruct (saProvider provider); set_solver.
Qed.

(** C33: only vouched identities get in. A principal the chain of providers
    admits comes from one provider, which allowed it after all earlier ones
    passed the request on; it is the identity that provider claimed, checked;
    its built-in groups say how it was authenticated and cannot be claimed; a
    system subject is a service account of a service-account provider; and
    every other group was claimed by the provider. *)
Theorem authenticated_identity_sound {Request Err_} (errText : Err_ → string)
    (providers : list (AuthNProvider Request Err_)) req p d e :
  chainAuthenticate errText providers req = (Some p, d, e) →
  ∃ pre pr post claimed, providers = pre ++ pr :: post ∧
    Forall (λ q, ∃ c d', Authenticate q req = (c, d', None) ∧ d_Outcome d' = OutcomeChallenge) pre ∧
    Authenticate pr req = (Some claimed, d, None) ∧ d_Outcome d = OutcomeAllow ∧ e = None ∧
    soundIdentity (Name pr) claimed p.
Proof.
  induction providers as [|pr rest IH]; simpl; [done|].
  destruct (Authenticate pr req) as [[c d'] [x|]] eqn:Ea; [done|].
  destruct (d_Outcome d') eqn:Eo; [|done|].
  - destruct (normalizeAuthenticatedPrincipal (Name pr) c) as [n|] eqn:En; [|done].
    intros [= <- <- <-]. destruct c as [claimed|]; [|done]. apply normalize_sound in En.
    exists [], pr, rest, claimed. by split_and!.
  - intros (pre & pr' & post & claimed & -> & Hpre & H)%IH.
    exists (pr :: pre), pr', post, claimed. split; [done|]. split; [|done]. constructor; eauto.
Qed.

Definition exUser : Principal := mkPrincipal "alice" "i" "" "" ["devs"; "system:serviceaccounts"] []
  ∅ "static-users" 0 "" "".
Definition exProvider (name : string) (a : option Principal * Decision_ * option string)
  : AuthNProvider () string :=
  mkProvider name (λ _, a) (λ _ _, None) (λ _, Err "") (λ _, Err "").
Lemma authenticated_identity_sound_witness :
  ∃ p, chainAuthenticate id [exProvider "basic" (None, Challenge "basic" "", None);
    exProvider "static-users" (Some exUser, Allow "static-users" "ok", None)] () =
    (Some p, Allow "static-users" "ok", None) ∧
  "system:serviceaccounts" ∉ Groups p ∧ "system:authenticated" ∈ Groups p.
Proof.
  exists (setGroups ["devs"; "system:authenticated"] exUser).
  assert (chainAuthenticate id [exProvider "basic" (None, Challenge "basic" "", None);
    exProvider "static-users" (Some exUser, Allow "static-users" "ok", None)] () =
    (Some (setGroups ["devs"; "system:authenticated"] exUser), Allow "static-users" "ok", None)) as H
    by (vm_compute; reflexivity).
  split; [exact H|].
  destruct (authenticated_identity_sound id _ () _ _ _ H)
    as (pre & pr & post & claimed & E & Hpre & Ha & _ & _ & Hs).
  destruct Hs as (_ & _ & _ & _ & _ & H2 & H3 & _).
  assert (Name pr = "static-users") as En.
  { destruct pre as [|q [|q' pre]]; simpl in E; [|by injection E as _ <- _|].
    - injection E as <- _. vm_compute in Ha. discriminate Ha.
    - exfalso. apply (f_equal length) in E. simpl in E. rewrite length_app in E. simpl in E. lia. }
  rewrite En in H3. split; [intros Hin%H3; discriminate Hin|]. apply H2. discriminate.
Defined.

(** ** The registry of actions *)

Lemma foldl_insert_lookup {A} (key : A → string) l : ∀ (m : gmap string A) k d,
  NoDup (key <$> l) →
  foldl (λ m a, <[key a := a]> m) m l !! k = Some d ↔
  (d ∈ l ∧ key d = k) ∨ (k ∉ key <$> l ∧ m !! k = Some d).
Proof.
  induction l as [|a l IH]; intros m k d Hnd; simpl; [set_solver|].
  apply NoDup_cons in Hnd as [Ha Hnd]. rewrite IH by done. rewrite !elem_of_cons.
  destruct (decide (k = key a)) as [->|Hne].
  - rewrite lookup_insert_eq. split.
    + intros [[Hd E]|[_ [= ->]]]; [|by left; auto]. left. auto.
    + intros [[[->|Hd] E]|[Hn _]]; [right; auto|left; auto|exfalso; apply Hn; auto].
  - rewrite lookup_insert_ne by done. split.
    + intros [[Hd E]|[Hn Hm]]; [left; auto|right; split; [|done]; intros [?|?]; done].
    + intros [[[->|Hd] E]|[Hn Hm]]; [by destruct Hne|left; auto|right; auto].
Qed.

Lemma authorizationActions_NoDup : NoDup (a_Action <$> authorizationActions).
Proof. apply (bool_decide_unpack _). vm_compute. exact I. Qed.

Lemma LookupAction_spec action d :
  LookupAction action = Some d ↔ d ∈ authorizationActions ∧ a_Action d = action.
Proof.
  unfold LookupAction, authorizationActionIndex.
  rewrite (foldl_insert_lookup a_Action) by apply authorizationActions_NoDup.
  rewrite lookup_empty. naive_solver.
Qed.
