(* ===== verification/RbacPolicy.v ===== *)
(** * Access policies

    The policy document of [gitstore-api/internal/auth/provider/rbaclocal/policy.go]:
    its data, the decoding of conditions, the expansion of rules into registered
    actions, and its validation. *)

From S2P Require Import Prelude Entities Auth.
From stdpp Require Import sorting.
From Stdlib Require Import Ascii.
#[local] Open Scope go_scope.

Definition PolicyAPIVersion : string := "rbac.authorization.gitstore.dev/v1beta1".
Definition maxPolicyBindings : nat := 1000.
Definition maxPolicyRules : nat := 2000.

(** ** The document *)

Record Condition : Type := mkCondition {
  Token : string;
  Attr : string;
  Op : string;
  Value : option string;
  Values : list string;
}.
Record Rule : Type := mkRule {
  Resources : list string;
  Verbs : list string;
  ResourceNames : list string;
  When : list Condition;
  actions : list ActionDefinition; (* filled in by validation *)
}.
Notation RoleDefinition := (list Rule).
Record RoleRef : Type := mkRoleRef { rr_Kind : string; rr_Name : string }.
Record SubjectRef : Type := mkSubjectRef { sr_Kind : string; sr_Name : string }.
#[global] Instance RoleRef_eq_dec : EqDecision RoleRef.
Proof. solve_decision. Defined.
#[global] Instance RoleRef_countable : Countable RoleRef.
Proof.
  refine (inj_countable' (λ r, (rr_Kind r, rr_Name r)) (λ p, mkRoleRef p.1 p.2) _). by intros [].
Defined.
#[global] Instance SubjectRef_eq_dec : EqDecision SubjectRef.
Proof. solve_decision. Defined.
#[global] Instance SubjectRef_countable : Countable SubjectRef.
Proof.
  refine (inj_countable' (λ r, (sr_Kind r, sr_Name r)) (λ p, mkSubjectRef p.1 p.2) _). by intros [].
Defined.
Record Binding : Type := mkBinding {
  b_Namespace : option string;
  b_RoleRef : RoleRef;
  b_Subjects : list SubjectRef;
}.
Record Policy : Type := mkPolicy {
  APIVersion : string;
  Kind : string;
  ClusterRoles : gmap string RoleDefinition;
  Roles : gmap string RoleDefinition;
  ClusterRoleBindings : list Binding;
  RoleBindings : list Binding;
  DefaultDeny : option bool;
  digest : string;
}.

(** ** Conditions *)

(** [yaml.Node] *)
Inductive NodeKind : Type := DocumentNode | SequenceNode | MappingNode | ScalarNode | AliasNode.
#[global] Instance NodeKind_eq_dec : EqDecision NodeKind.
Proof. solve_decision. Defined.
Inductive Node : Type := mkNode (kind : NodeKind) (tag value : string) (content : list Node).
Definition nodeKind (n : Node) : NodeKind := let 'mkNode k _ _ _ := n in k.
Definition nodeValue (n : Node) : string := let 'mkNode _ _ v _ := n in v.
Definition nodeContent (n : Node) : list Node := let 'mkNode _ _ _ c := n in c.
(** A scalar with the string tag. *)
Definition textNode (n : Node) : option string :=
  let 'mkNode k t v _ := n in
  if bool_decide (k = ScalarNode) && bool_decide (t = "!!str") then Some v else None.

(** The fields of a condition mapping: keys and values alternate, a later key
    replaces an earlier one. The parser gives every key its value. [None] is an
    unknown key. *)
Fixpoint conditionFields (fields : gmap string Node) (content : list Node)
  : option (gmap string Node) :=
  match content with
  | key :: value :: rest =>
      if bool_decide (nodeValue key ∈ ["attr"; "op"; "value"; "values"])
      then conditionFields (<[nodeValue key := value]> fields) rest else None
  | _ => Some fields
  end.

(** [Condition.UnmarshalYAML]; [None] is an error. *)
Definition UnmarshalYAML (node : Node) : option Condition :=
  match textNode node with
  | Some token =>
      if bool_decide (token = "owner") || bool_decide (token = "targetOwnerMember")
      then Some (mkCondition token "" "" None []) else None
  | None =>
      if negb (bool_decide (nodeKind node = MappingNode)) then None else
      fields ← conditionFields ∅ (nodeContent node);
      attr ← (fields !! "attr") ≫= textNode;
      op ← (fields !! "op") ≫= textNode;
      if negb (bool_decide (attr ∈ ["namespace"; "tier"; "visibility"])) then None else
      if bool_decide (op ∈ ["eq"; "neq"]) then
        value ← (fields !! "value") ≫= textNode;
        match fields !! "values" with
        | None => Some (mkCondition "" attr op (Some value) [])
        | Some _ => None
        end
      else if bool_decide (op ∈ ["in"; "notIn"]) then
        n ← fields !! "values";
        if negb (bool_decide (nodeKind n = SequenceNode)) ||
           negb ((1 <=? length (nodeContent n)) && (length (nodeContent n) <=? 64)) ||
           match fields !! "value" with Some _ => true | None => false end then None else
        values ← mapM textNode (nodeContent n);
        Some (mkCondition "" attr op None values)
      else None
  end.

(** ** Actions *)

Definition validIdentifier (s : string) : bool :=
  match runes s with
  | Some rs => existsb (λ r, negb (IsSpace r)) rs && (length_ s <=? 256)%Z
  | None => false
  end.

(** The first error of a list of checks. *)
Fixpoint firstError {E A} (f : A → option E) (l : list A) : option E :=
  match l with
  | [] => None
  | x :: l => match f x with Some e => Some e | None => firstError f l end
  end.

Inductive ExpandError : Type :=
| PartialResource | PartialVerb
| UnknownResource (r : string)
| UnknownPair (r v : string).

Definition wildcard (w s : string) : bool := bool_decide (w = "*") || bool_decide (w = s).
Definition matchesPair (r v : string) (a : ActionDefinition) : bool :=
  wildcard r (a_Resource a) && wildcard v (a_Verb a).
Definition partialWildcard (s : string) : bool := negb (bool_decide (s = "*")) && hasChar "*" s.

Definition checkVerb (r v : string) : option ExpandError :=
  if partialWildcard v then Some PartialVerb else
  if existsb (matchesPair r v) authorizationActions then None else Some (UnknownPair r v).
Definition checkResource (verbs : list string) (r : string) : option ExpandError :=
  if partialWildcard r then Some PartialResource else
  if negb (bool_decide (r = "*") || existsb (λ a, bool_decide (a_Resource a = r)) authorizationActions)
  then Some (UnknownResource r) else firstError (checkVerb r) verbs.

Definition matchedActions (resources verbs : list string) : list string :=
  r ← resources; v ← verbs; a_Action <$> filter (λ a, matchesPair r v a = true) authorizationActions.
Definition ExpandActions (resources verbs : list string) : result ExpandError (list ActionDefinition) :=
  match firstError (checkResource verbs) resources with
  | Some e => Err e
  | None => Ok (filter (λ a, a_Action a ∈ matchedActions resources verbs) authorizationActions)
  end.

(** ** Validation *)

Inductive PolicyError : Type :=
| WrongVersion | DefaultDenyFalse | TooManyRoles | TooManyBindings | TooManyRules
| BadRoleName | RuleBounds (role : string) (i : nat) | BadResourceName
| BadActions (role : string) (i : nat) (e : ExpandError)
| ClusterScoped (role kind : string)
| ClusterBinding (i : nat) | NamespaceBinding (i : nat)
| NoRoleName | BadRoleKind | UndefinedRole (kind name : string)
| SubjectCount | BadSubjectName | ReservedUser | LegacyServiceAccount | QualifiedServiceAccount
| BadSubjectKind.

Definition setActions (a : list ActionDefinition) (r : Rule) : Rule :=
  mkRule (Resources r) (Verbs r) (ResourceNames r) (When r) a.

Definition ruleInBounds (r : Rule) : bool :=
  (1 <=? length (Resources r)) && (length (Resources r) <=? 128) &&
  (1 <=? length (Verbs r)) && (length (Verbs r) <=? 32) &&
  (length (ResourceNames r) <=? 256) && (length (When r) <=? 16).

Definition validateRule (cluster : bool) (name : string) (i : nat) (r : Rule)
  : result PolicyError Rule :=
  if negb (ruleInBounds r) then Err (RuleBounds name i) else
  if negb (forallb validIdentifier (ResourceNames r)) then Err BadResourceName else
  match ExpandActions (Resources r) (Verbs r) with
  | Err e => Err (BadActions name i e)
  | Ok acts =>
      match firstError (λ a, if negb cluster && bool_decide (a_Scope a = "cluster")
                             then Some (ClusterScoped name (a_Kind a)) else None) acts with
      | Some e => Err e
      | None => Ok (setActions acts r)
      end
  end.
Fixpoint validateRules (cluster : bool) (name : string) (i : nat) (rules : list Rule)
  : result PolicyError (list Rule) :=
  match rules with
  | [] => Ok []
  | r :: rules =>
      let! r := validateRule cluster name i r in
      let! rules := validateRules cluster name (S i) rules in
      Ok (r :: rules)
  end.

(** The names of a map of roles, sorted. *)
Definition sortedNames (roles : gmap string RoleDefinition) : list string :=
  merge_sort str_le (map_to_list roles).*1.

(** One tier of roles; [n] counts the rules so far. *)
Fixpoint validateRoles (cluster : bool) (names : list string) (roles : gmap string RoleDefinition)
    (n : nat) : result PolicyError (gmap string RoleDefinition * nat) :=
  match names with
  | [] => Ok (roles, n)
  | name :: names =>
      if negb (validIdentifier name) then Err BadRoleName else
      let role := default [] (roles !! name) in
      let n := n + length role in
      if maxPolicyRules <? n then Err TooManyRules else
      let! role := validateRules cluster name 0 role in
      validateRoles cluster names (<[name := role]> roles) n
  end.

Definition validateSubject (s : SubjectRef) : option PolicyError :=
  if negb (validIdentifier (sr_Name s)) then Some BadSubjectName else
  if bool_decide (sr_Kind s = "User") then
    if hasPrefix "system:" (sr_Name s) && negb (bool_decide (sr_Name s = "system:api"))
    then Some ReservedUser else
    if hasPrefix "serviceaccount:" (sr_Name s) then Some LegacyServiceAccount else None
  else if bool_decide (sr_Kind s = "ServiceAccount") then
    if hasSeparator (sr_Name s) then Some QualifiedServiceAccount else None
  else if bool_decide (sr_Kind s = "Group") then None else Some BadSubjectKind.

(** The roles a reference of that kind is looked up in. *)
Definition tierOf (p : Policy) (kind : string) : option (gmap string RoleDefinition) :=
  if bool_decide (kind = "ClusterRole") then Some (ClusterRoles p) else
  if bool_decide (kind = "Role") then Some (Roles p) else None.

Definition validateBinding (p : Policy) (cluster : bool) (i : nat) (b : Binding) : option PolicyError :=
  let ref := b_RoleRef b in
  if cluster && (match b_Namespace b with Some _ => true | None => false end ||
                 negb (bool_decide (rr_Kind ref = "ClusterRole"))) then Some (ClusterBinding i) else
  if negb cluster && match b_Namespace b with Some n => negb (validIdentifier n) | None => true end
  then Some (NamespaceBinding i) else
  if negb (validIdentifier (rr_Name ref)) then Some NoRoleName else
  match tierOf p (rr_Kind ref) with
  | None => Some BadRoleKind
  | Some roles =>
      match roles !! rr_Name ref with
      | None => Some (UndefinedRole (rr_Kind ref) (rr_Name ref))
      | Some _ =>
          if negb ((1 <=? length (b_Subjects b)) && (length (b_Subjects b) <=? 64))
          then Some SubjectCount else firstError validateSubject (b_Subjects b)
      end
  end.
Definition validateBindings (p : Policy) (cluster : bool) (bs : list Binding) : option PolicyError :=
  firstError (λ ib, validateBinding p cluster ib.1 ib.2) (imap pair bs).

Definition setRoles (cr r : gmap string RoleDefinition) (p : Policy) : Policy :=
  mkPolicy (APIVersion p) (Kind p) cr r (ClusterRoleBindings p) (RoleBindings p) (DefaultDeny p)
    (digest p).

(** The policy with the actions of its rules filled in. *)
Definition validatePolicy (p : Policy) : result PolicyError Policy :=
  if negb (bool_decide (APIVersion p = PolicyAPIVersion)) ||
     negb (bool_decide (Kind p = "RbacLocalConfiguration")) then Err WrongVersion else
  if bool_decide (DefaultDeny p = Some false) then Err DefaultDenyFalse else
  if 200 <? size (ClusterRoles p) + size (Roles p) then Err TooManyRoles else
  if maxPolicyBindings <? length (ClusterRoleBindings p) + length (RoleBindings p)
  then Err TooManyBindings else
  let! (cr, n) := validateRoles true (sortedNames (ClusterRoles p)) (ClusterRoles p) 0 in
  let! (r, _) := validateRoles false (sortedNames (Roles p)) (Roles p) n in
  let p := setRoles cr r p in
  match validateBindings p true (ClusterRoleBindings p) with
  | Some e => Err e
  | None => match validateBindings p false (RoleBindings p) with Some e => Err e | None => Ok p end
  end.

(** ** What validation establishes *)

Lemma firstError_None {E A} (f : A → option E) l :
  firstError f l = None ↔ ∀ x, x ∈ l → f x = None.
Proof.
  induction l as [|x l IH]; simpl; [set_solver|]. destruct (f x) eqn:E1.
  - split; [done|]. intros H. rewrite H in E1 by (by left). done.
  - rewrite IH. setoid_rewrite elem_of_cons. naive_solver.
Qed.

(** A rule covers an action if some resource and some verb of it select it. *)
Definition ruleCovers (resources verbs : list string) (a : ActionDefinition) : Prop :=
  ∃ r v, r ∈ resources ∧ v ∈ verbs ∧ matchesPair r v a = true.

Lemma action_unique a b :
  a ∈ authorizationActions → b ∈ authorizationActions → a_Action a = a_Action b → a = b.
Proof.
  intros Ha Hb E.
  pose proof (proj2 (LookupAction_spec (a_Action a) a) (conj Ha eq_refl)) as H1.
  pose proof (proj2 (LookupAction_spec (a_Action a) b) (conj Hb (eq_sym E))) as H2.
  rewrite H1 in H2. by injection H2.
Qed.

Lemma elem_of_matchedActions rs vs a :
  a ∈ authorizationActions → a_Action a ∈ matchedActions rs vs ↔ ruleCovers rs vs a.
Proof.
  intros Ha. unfold matchedActions, ruleCovers. rewrite list_elem_of_bind. split.
  - intros (r & H & Hr). apply list_elem_of_bind in H as (v & H & Hv).
    apply list_elem_of_fmap in H as (b & E & [Hm Hb]%list_elem_of_filter).
    rewrite (action_unique a b) in * by done. eauto.
  - intros (r & v & Hr & Hv & Hm). exists r. split; [|done]. apply list_elem_of_bind. exists v.
    split; [|done]. apply list_elem_of_fmap. exists a. split; [done|]. by apply list_elem_of_filter.
Qed.

Lemma ExpandActions_covers rs vs acts a :
  ExpandActions rs vs = Ok acts → a ∈ acts ↔ a ∈ authorizationActions ∧ ruleCovers rs vs a.
Proof.
  unfold ExpandActions. destruct (firstError _ _); [done|]. intros [= <-].
  rewrite list_elem_of_filter. split; intros [H1 H2]; split; auto; by apply elem_of_matchedActions.
Qed.

(** Registered texts contain no wildcard. *)
Lemma registered_plain a :
  a ∈ authorizationActions → hasChar "*" (a_Resource a) = false ∧ hasChar "*" (a_Verb a) = false.
Proof.
  assert (Forall (λ a, hasChar "*" (a_Resource a) = false ∧ hasChar "*" (a_Verb a) = false)
    authorizationActions) as H by (apply (bool_decide_unpack _); vm_compute; exact I).
  rewrite Forall_forall in H. apply H.
Qed.

(** A rule grants what it spells out. Expanding resources and verbs
    succeeds exactly if every resource is registered or the wildcard and every
    pair selects some action; it then lists, in the order of the registry, the
    actions that some resource and some verb select. *)
Theorem ExpandActions_correct resources verbs :
  (is_ok (ExpandActions resources verbs) = true ↔
   ∀ r, r ∈ resources → (r = "*" ∨ ∃ a, a ∈ authorizationActions ∧ a_Resource a = r) ∧
     ∀ v, v ∈ verbs → ∃ a, a ∈ authorizationActions ∧ matchesPair r v a = true) ∧
  ∀ acts, ExpandActions resources verbs = Ok acts →
    sublist acts authorizationActions ∧
    ∀ a, a ∈ acts ↔ a ∈ authorizationActions ∧ ruleCovers resources verbs a.
Proof.
  assert (∀ w s, hasChar "*" s = false → wildcard w s = true → partialWildcard w = false) as Hw.
  { intros w s Hs. unfold wildcard, partialWildcard. rewrite orb_true_iff, !bool_decide_eq_true.
    intros [->| ->]; [done|]. by rewrite Hs, andb_false_r. }
  assert (∀ r v, checkVerb r v = None ↔ ∃ a, a ∈ authorizationActions ∧ matchesPair r v a = true) as Hv.
  { intros r v. unfold checkVerb. split.
    - destruct (partialWildcard v); [done|]. destruct (existsb _ _) eqn:E; [|done]. intros _.
      apply existsb_exists in E as (a & Ha & Hm). exists a. by rewrite list_elem_of_In.
    - intros (a & Ha & Hm). pose proof Hm as [_ Hm2]%andb_true_iff.
      rewrite (Hw v (a_Verb a)) by (done || apply registered_plain, Ha).
      assert (existsb (matchesPair r v) authorizationActions = true) as ->; [|done].
      apply existsb_exists. exists a. by rewrite <- list_elem_of_In. }
  assert (∀ r, checkResource verbs r = None ↔
    (r = "*" ∨ ∃ a, a ∈ authorizationActions ∧ a_Resource a = r) ∧
    ∀ v, v ∈ verbs → ∃ a, a ∈ authorizationActions ∧ matchesPair r v a = true) as Hr.
  { intros r. setoid_rewrite <- Hv. rewrite <- firstError_None. unfold checkResource. split.
    - destruct (partialWildcard r); [done|]. destruct (_ || _) eqn:E; [|done]. simpl. intros H.
      split; [|done]. apply orb_true_iff in E as [E|E]; [left; by apply bool_decide_eq_true in E|].
      apply existsb_exists in E as (a & Ha & E%bool_decide_eq_true). right. exists a.
      by rewrite list_elem_of_In.
    - intros [Hr H]. assert (partialWildcard r = false) as ->.
      { destruct Hr as [->|(a & Ha & <-)]; [done|]. apply (Hw _ (a_Resource a));
          [apply registered_plain, Ha|]. unfold wildcard.
        by rewrite (bool_decide_eq_true_2 (a_Resource a = a_Resource a)), orb_true_r. }
      assert (bool_decide (r = "*") || existsb (λ a, bool_decide (a_Resource a = r))
        authorizationActions = true) as ->; [|done].
      apply orb_true_iff. destruct Hr as [->|(a & Ha & <-)]; [by left|]. right.
      apply existsb_exists. exists a. split; [by apply list_elem_of_In|]. by apply bool_decide_eq_true_2. }
  split.
  - setoid_rewrite <- Hr. rewrite <- firstError_None. unfold ExpandActions.
    by destruct (firstError _ _).
  - intros acts H. split; [|intros a; by apply ExpandActions_covers].
    unfold ExpandActions in H. destruct (firstError _ _); [done|]. injection H as <-.
    apply sublist_filter.
Qed.
