(* ===== verification/RbacEval.v ===== *)
(** * Access decisions

    The evaluator of [gitstore-api/internal/auth/provider/rbaclocal/provider.go]:
    a policy is compiled into bit sets of bindings by subject and rules by
    action; a request is decided by scanning the sets. [None] is a run-time
    panic: an index out of range or a nil pointer. *)

From S2P Require Import Prelude Entities Auth RbacPolicy.
From Stdlib Require Import Ascii.
From stdpp Require Import sorting pretty.

(** ** Bit sets *)

(** Sets of small numbers in words of 64 bits. *)
Notation Words := (list Z).
Definition setBit (ws : Words) (n : nat) : option Words :=
  w ← ws !! (n / 64); Some (<[n / 64 := Z.lor w (Z.shiftl 1 (Z.of_nat (n mod 64)))]> ws).
Definition testBit (ws : Words) (n : nat) : option bool :=
  w ← ws !! (n / 64);
  Some (negb (Z.land w (Z.shiftl 1 (Z.of_nat (n mod 64))) =? 0)%Z).
Definition unionWords (a b : Words) : Words := zip_with Z.lor a b.

(** [bindingSet], and the words of the visited rules. *)
Definition emptyBindings : Words := replicate ((maxPolicyBindings + 63) / 64) 0%Z.
Definition emptyVisited : Words := replicate ((maxPolicyRules * 2 + 63) / 64) 0%Z.

(** [bits.TrailingZeros64] *)
Definition TrailingZeros64 (x : Z) : nat :=
  default 64 (head (filter (λ i, Z.testbit x (Z.of_nat i) = true) (seq 0 64))).

(** ** Compilation *)

Record compiledRule : Type := mkCompiledRule {
  cr_id : nat;
  cr_index : nat;
  cr_names : gset string;
  cr_conditions : list (Condition * gset string);
}.
Notation compiledRole := (gmap string (list compiledRule)).
Record compiledBinding : Type := mkCompiledBinding {
  cb_diagnostic : string;
  cb_roleName : string;
  cb_namespace : string;
  cb_cluster : bool;
  cb_role : option compiledRole;
}.
Record compiledPolicy : Type := mkCompiled {
  cp_digest : string;
  cp_bySubject : gmap SubjectRef Words;
  cp_bindings : list compiledBinding;
  cp_ruleCount : nat;
  cp_roleCount : nat;
}.

Definition compileRule (id index : nat) (r : Rule) : compiledRule :=
  mkCompiledRule id index (list_to_set (ResourceNames r))
    ((λ c, (c, list_to_set (Values c))) <$> When r).
Definition addRule (c : compiledRule) (role : compiledRole) (acts : list ActionDefinition)
  : compiledRole :=
  foldl (λ m a, <[a_Action a := default [] (m !! a_Action a) ++ [c]]> m) role acts.
(** [n] numbers the rules of the whole policy, [i] those of the role. *)
Fixpoint compileRules (n i : nat) (role : compiledRole) (rules : list Rule) : compiledRole :=
  match rules with
  | [] => role
  | r :: rules => compileRules (S n) (S i) (addRule (compileRule n i r) role (actions r)) rules
  end.

Fixpoint compileRoles (kind : string) (defs : gmap string RoleDefinition) (names : list string)
    (st : gmap RoleRef compiledRole * nat) : gmap RoleRef compiledRole * nat :=
  match names with
  | [] => st
  | name :: names =>
      let rules := default [] (defs !! name) in
      compileRoles kind defs names
        (<[mkRoleRef kind name := compileRules st.2 0 ∅ rules]> st.1, st.2 + length rules)
  end.

Definition compileBinding (roles : gmap RoleRef compiledRole) (cluster : bool) (tier : string)
    (i : nat) (b : Binding) : compiledBinding :=
  mkCompiledBinding (tier +:+ "[" +:+ pretty i +:+ "]")
    (rr_Kind (b_RoleRef b) +:+ "/" +:+ rr_Name (b_RoleRef b)) (default "" (b_Namespace b)) cluster
    (roles !! b_RoleRef b).
(** Record the binding under each of its subjects. *)
Fixpoint indexSubjects (id : nat) (ix : gmap SubjectRef Words) (ss : list SubjectRef)
  : option (gmap SubjectRef Words) :=
  match ss with
  | [] => Some ix
  | s :: ss =>
      ws ← setBit (default emptyBindings (ix !! s)) id;
      indexSubjects id (<[s := ws]> ix) ss
  end.
Fixpoint compileBindings (roles : gmap RoleRef compiledRole) (cluster : bool) (tier : string)
    (i : nat) (bs : list Binding) (st : gmap SubjectRef Words * list compiledBinding)
  : option (gmap SubjectRef Words * list compiledBinding) :=
  match bs with
  | [] => Some st
  | b :: bs =>
      ix' ← indexSubjects (length st.2) st.1 (b_Subjects b);
      compileBindings roles cluster tier (S i) bs (ix', st.2 ++ [compileBinding roles cluster tier i b])
  end.

Definition compilePolicy (p : Policy) : option compiledPolicy :=
  let st := compileRoles "ClusterRole" (ClusterRoles p) (sortedNames (ClusterRoles p)) (∅, 0) in
  let st := compileRoles "Role" (Roles p) (sortedNames (Roles p)) st in
  bs ← compileBindings st.1 true "clusterRoleBindings" 0 (ClusterRoleBindings p) (∅, []);
  bs ← compileBindings st.1 false "roleBindings" 0 (RoleBindings p) bs;
  Some (mkCompiled (digest p) bs.1 bs.2 st.2 (size (ClusterRoles p) + size (Roles p))).

(** ** Requests *)

Record ResourceContext : Type := mkContext {
  rc_Kind : string;
  rc_Name : string;
  rc_OwnerSub : string;
  rc_Attrs : gmap string Any;
}.
Definition attrText (r : ResourceContext) (k : string) : option string :=
  match rc_Attrs r !! k with Some (AString s) => Some s | _ => None end.

(** The subject of the principal itself; [Some None] for the anonymous one. *)
Definition ownSubject (p : Principal) : option (option SubjectRef) :=
  match cutPrefix "system:serviceaccount:" (Subject p) with
  | Some name =>
      if negb (validIdentifier name) || hasSeparator name ||
         bool_decide (ServiceAccountUID p = "") || negb (saMethod (AuthMethod p)) then None
      else Some (Some (mkSubjectRef "ServiceAccount" name))
  | None =>
      if bool_decide (Subject p = "system:api") then
        if bool_decide (AuthMethod p = "internal")
        then Some (Some (mkSubjectRef "User" (Subject p))) else None
      else if hasPrefix "system:" (Subject p) || hasPrefix "serviceaccount:" (Subject p) then None
      else if bool_decide (AuthMethod p = "none") then
        if bool_decide (Subject p = "anon") then Some None else None
      else if negb (bool_decide (ServiceAccountUID p = "")) || saMethod (AuthMethod p) then None
      else Some (Some (mkSubjectRef "User" (Subject p)))
  end.
Definition groupRefused (p : Principal) (own : option SubjectRef) (g : string) : bool :=
  negb (validIdentifier g) ||
  (bool_decide (AuthMethod p = "none") &&
   bool_decide (g ∈ ["system:authenticated"; "system:serviceaccounts"; "system:masters"])) ||
  (negb (bool_decide (AuthMethod p = "none")) && bool_decide (g = "system:unauthenticated")) ||
  (bool_decide (g = "system:serviceaccounts") &&
   negb match own with Some s => bool_decide (sr_Kind s = "ServiceAccount") | None => false end).
Definition principalSubjects (o : option Principal) : option (list SubjectRef) :=
  p ← o;
  if negb (validIdentifier (Subject p)) || bool_decide (AuthMethod p = "") ||
     (MaxPrincipalGroups <? length (Groups p)) then None else
  own ← ownSubject p;
  if existsb (groupRefused p own) (Groups p) then None else
  Some (match own with Some s => [s] | None => [] end ++ (mkSubjectRef "Group" <$> Groups p)).

Definition ownerMatches (owner : string) (p : Principal) : bool :=
  negb (bool_decide (owner = "")) &&
  (bool_decide (owner = Subject p) || bool_decide (owner ∈ Groups p)).

Definition targetOwner (value : option Any) : option string :=
  match value with
  | Some (AObject ms) =>
      if negb (bool_decide (size ms = 2)) then None else
      kind ← mjoin (ms !! "kind");
      name ← mjoin (ms !! "name");
      if negb (validIdentifier name) then None else
      if bool_decide (kind = "User") then
        if hasPrefix "system:" name || hasPrefix "serviceaccount:" name then None
        else Some (EncodeOwnerSubject OwnerKindUser name)
      else if bool_decide (kind = "Group") then
        if hasPrefix "system:" name && negb (hasPrefix "system:group:" name) then None else
        let name := trimPrefix "system:group:" name in
        if negb (validIdentifier name) then None else Some (EncodeOwnerSubject OwnerKindGroup name)
      else if bool_decide (kind = "ServiceAccount") then
        if hasSeparator name then None else Some (EncodeOwnerSubject OwnerKindServiceAccount name)
      else None
  | _ => None
  end.

Definition conditionMatches (c : Condition * gset string) (r : ResourceContext) (owner member : bool)
  : option bool :=
  let (c, values) := c in
  if bool_decide (Token c = "owner") then Some owner else
  if bool_decide (Token c = "targetOwnerMember") then Some member else
  match attrText r (Attr c) with
  | None => Some false
  | Some value =>
      if (256 <? length_ value)%Z then Some false else
      if bool_decide (Op c = "eq") then v ← Value c; Some (bool_decide (value = v)) else
      if bool_decide (Op c = "neq") then v ← Value c; Some (negb (bool_decide (value = v))) else
      if bool_decide (Op c = "in") then Some (bool_decide (value ∈ values)) else
      if bool_decide (Op c = "notIn") then Some (negb (bool_decide (value ∈ values))) else Some false
  end.
Fixpoint conditionsMatch (cs : list (Condition * gset string)) (r : ResourceContext)
    (owner member : bool) : option bool :=
  match cs with
  | [] => Some true
  | c :: cs =>
      m ← conditionMatches c r owner member;
      if (m : bool) then conditionsMatch cs r owner member else Some false
  end.

(** ** The decision *)

Definition name_ : string := "rbac-local".
Definition decide_ (d : Decision_) (dig : string) : Decision_ :=
  mkDecision (d_Outcome d) (d_Reason d) (d_Provider d) dig.

(** A scan stops with a decision, or goes on with the rules visited so far and
    the reason to give if nothing grants. *)
Inductive scan : Type := Stop (d : Decision_) | Go (visited : Words) (reason : string).

Section request.
Context (snap : compiledPolicy) (def : ActionDefinition) (action : string) (r : ResourceContext).
Context (owner member : bool).

(** A transfer needs the owner, or an unconditional cluster rule; and a target
    the principal belongs to, or an unconditional rule. *)
Definition transferRefused (cluster unconditional : bool) : bool :=
  bool_decide (a_Verb def = "transfer") &&
  (negb (owner || (cluster && unconditional)) || negb (member || unconditional)).
Definition isNil {A} (l : list A) : bool := match l with [] => true | _ => false end.

Fixpoint tryRules (b : compiledBinding) (rules : list compiledRule) (visited : Words) (reason : string)
  : option scan :=
  match rules with
  | [] => Some (Go visited reason)
  | c :: rules =>
      let key := cr_id c * 2 + (if cb_cluster b then 1 else 0) in
      seen ← testBit visited key;
      if (seen : bool) then tryRules b rules visited reason else
      visited ← setBit visited key;
      if negb (bool_decide (cr_names c = ∅)) &&
         (negb (bool_decide (rc_Name r ∈ cr_names c)) || bool_decide (rc_Name r = ""))
      then tryRules b rules visited "instance mismatch" else
      matched ← conditionsMatch (cr_conditions c) r owner member;
      if negb matched then tryRules b rules visited "condition missing or false" else
      if transferRefused (cb_cluster b) (isNil (cr_conditions c))
      then tryRules b rules visited "transfer constraint" else
      Some (Stop (decide_ (Allow name_ ("policy=" +:+ cp_digest snap +:+ " binding=" +:+
        cb_diagnostic b +:+ " role=" +:+ cb_roleName b +:+ " rule=" +:+ pretty (cr_index c)))
        (cp_digest snap)))
  end.

Definition namespaceOf : string := default "" (attrText r "namespace").
Definition outOfScope (b : compiledBinding) : bool :=
  negb (cb_cluster b) &&
  (negb (bool_decide (a_Scope def = "namespace")) || bool_decide (namespaceOf = "") ||
   negb (bool_decide (namespaceOf = cb_namespace b))).

Definition tryBinding (id : nat) (visited : Words) (reason : string) : option scan :=
  b ← cp_bindings snap !! id;
  role ← cb_role b;
  match default [] (role !! action) with
  | [] => Some (Go visited reason)
  | rules => if outOfScope b then Some (Go visited "binding scope mismatch")
             else tryRules b rules visited reason
  end.

(** The bits of a word, lowest first; a word has at most 64. *)
Fixpoint scanWord (fuel : nat) (word : nat) (matches : Z) (visited : Words) (reason : string)
  : option scan :=
  match fuel with
  | 0 => None
  | S fuel =>
      if (matches =? 0)%Z then Some (Go visited reason) else
      let bit := TrailingZeros64 matches in
      let matches := Z.land matches (matches - 1) in
      s ← tryBinding (word * 64 + bit) visited reason;
      match s with
      | Stop d => Some (Stop d)
      | Go visited reason => scanWord fuel word matches visited reason
      end
  end.
Fixpoint scanWords (word : nat) (ws : Words) (visited : Words) (reason : string) : option scan :=
  match ws with
  | [] => Some (Go visited reason)
  | w :: ws =>
      s ← scanWord 65 word w visited reason;
      match s with
      | Stop d => Some (Stop d)
      | Go visited reason => scanWords (S word) ws visited reason
      end
  end.
End request.

Definition candidatesOf (snap : compiledPolicy) (subjects : list SubjectRef) : Words :=
  foldl (λ acc s, unionWords acc (default emptyBindings (cp_bySubject snap !! s)))
    emptyBindings subjects.

(** The target of a transfer; [None] refuses the request. *)
Definition targetFor (def : ActionDefinition) (r : ResourceContext) : option string :=
  if bool_decide (a_Verb def = "transfer") then targetOwner (rc_Attrs r !! "targetOwnerRef")
  else Some "".

Definition Authorize (snapshot : option compiledPolicy) (principal : option Principal)
    (action : string) (r : ResourceContext) : option Decision_ :=
  let deny reason := decide_ (Deny name_ reason)
                       (match snapshot with Some s => cp_digest s | None => "" end) in
  match snapshot, LookupAction action, principal, principalSubjects principal with
  | Some snap, Some def, Some p, Some subjects =>
      if negb (bool_decide (rc_Kind r = a_Kind def)) || (256 <? length_ (rc_Name r))%Z ||
         (256 <? length_ (rc_OwnerSub r))%Z then Some (deny "invalid authorization request") else
      match targetFor def r with
      | None => Some (deny "transfer requires valid targetOwnerRef")
      | Some target =>
          if bool_decide ("system:masters" ∈ Groups p)
          then Some (decide_ (Allow name_ ("trusted system:masters; policy=" +:+ cp_digest snap))
                       (cp_digest snap)) else
          s ← scanWords snap def action r (ownerMatches (rc_OwnerSub r) p) (ownerMatches target p)
                0 (candidatesOf snap subjects) emptyVisited "no matching binding";
          match s with
          | Stop d => Some d
          | Go _ reason => Some (deny ("policy=" +:+ cp_digest snap +:+ " " +:+ reason))
          end
      end
  | _, _, _, _ => Some (deny "invalid authorization request")
  end.
