(* ===== verification/RbacLaws.v ===== *)
(** * Access decisions are what the policy says

    The compiled evaluator against the policy document: bit sets, shared rules
    and the skipping of rules already tried change neither what is granted nor
    what is refused, and no validated policy makes it panic. *)

From S2P Require Import Prelude Entities Auth RbacPolicy RbacEval.
From Stdlib Require Import Ascii.
From stdpp Require Import sorting pretty.

(** ** Words of bits *)

Definition word64 (w : Z) : Prop := (0 ≤ w < 2 ^ 64)%Z.
(** The members of a word, in order. *)
Definition bitsOf (x : Z) : list nat := filter (λ i, Z.testbit x (Z.of_nat i) = true) (seq 0 64).

Lemma elem_of_bitsOf x i : i ∈ bitsOf x ↔ Z.testbit x (Z.of_nat i) = true ∧ i < 64.
Proof. unfold bitsOf. rewrite list_elem_of_filter, elem_of_seq. naive_solver lia. Qed.

Lemma testbit_high x i : word64 x → (64 ≤ i)%Z → Z.testbit x i = false.
Proof.
  intros [H0 H1] Hi. destruct (decide (x = 0%Z)) as [->|]; [apply Z.bits_0|].
  apply Z.bits_above_log2; [done|]. apply Z.lt_le_trans with 64%Z; [|done].
  apply Z.log2_lt_pow2; lia.
Qed.
Lemma word64_zero x : word64 x → bitsOf x = [] → x = 0%Z.
Proof.
  intros Hx E. apply Z.bits_inj_0. intros i. destruct (Z.testbit x i) eqn:Hi; [|done].
  destruct (decide (i < 0)%Z); [by rewrite Z.testbit_neg_r in Hi|].
  destruct (decide (64 ≤ i)%Z); [by rewrite testbit_high in Hi|].
  assert (Z.to_nat i ∈ bitsOf x) as Hin.
  { apply elem_of_bitsOf. rewrite Z2Nat.id by lia. split; [done|lia]. }
  rewrite E in Hin. by apply not_elem_of_nil in Hin.
Qed.

(** [x & (x - 1)] clears the lowest bit of [x]. *)
Lemma clear_lowest x k i :
  (0 ≤ k)%Z → (∀ j, (0 ≤ j < k)%Z → Z.testbit x j = false) → Z.testbit x k = true → (0 ≤ i)%Z →
  Z.testbit (Z.land x (x - 1)) i = Z.testbit x i && negb (i =? k)%Z.
Proof.
  intros Hk Hlow Hbit Hi. rewrite Z.land_spec.
  destruct (decide (i < k)%Z) as [Hlt|Hge]; [by rewrite Hlow by lia|].
  set (m := (x / 2 ^ (k + 1))%Z).
  assert (x / 2 ^ k = 2 * m + 1)%Z as Hdiv.
  { unfold m. rewrite Z.pow_add_r, <- Z.div_div by lia. change (2 ^ 1)%Z with 2%Z.
    pose proof (Z.div_mod (x / 2 ^ k) 2 ltac:(lia)) as Hd.
    assert ((x / 2 ^ k) mod 2 = 1)%Z as Hm; [|lia].
    rewrite <- Z.bit0_mod, Z.div_pow2_bits, Z.add_0_l, Hbit by lia. done. }
  assert (x mod 2 ^ k = 0)%Z as Hmod.
  { apply Z.bits_inj_0. intros j. destruct (decide (0 ≤ j < k)%Z).
    - by rewrite Z.mod_pow2_bits_low, Hlow by lia.
    - destruct (decide (j < 0)%Z); [by rewrite Z.testbit_neg_r|]. apply Z.mod_pow2_bits_high; lia. }
  assert (0 < 2 ^ k)%Z as Hp by (apply Z.pow_pos_nonneg; lia).
  assert ((x - 1) / 2 ^ k = 2 * m)%Z as Hdiv1.
  { pose proof (Z.div_mod x (2 ^ k) ltac:(lia)) as Hx. symmetry.
    apply Z.div_unique_pos with (2 ^ k - 1)%Z; [lia|]. rewrite Hdiv, Hmod in Hx. lia. }
  assert (∀ y, Z.testbit y i = Z.testbit (y / 2 ^ k) (i - k)) as Hshift.
  { intros y. rewrite Z.div_pow2_bits by lia. f_equal. lia. }
  rewrite (Hshift x), (Hshift (x - 1)%Z), Hdiv, Hdiv1. destruct (Z.eqb_spec i k) as [->|Hne].
  - rewrite Z.sub_diag, Z.testbit_even_0. cbn [negb]. by rewrite !andb_false_r.
  - replace (i - k)%Z with (Z.succ (i - k - 1)) by lia.
    rewrite Z.testbit_even_succ, Z.testbit_odd_succ by lia. by destruct (Z.testbit m _).
Qed.

Lemma filter_seq_head (P : nat → Prop) `{∀ x, Decision (P x)} n : ∀ s k rest,
  filter P (seq s n) = k :: rest → ∀ j, s ≤ j < k → ¬ P j.
Proof.
  induction n as [|n IH]; intros s k rest; cbn [seq]; [done|]. rewrite filter_cons.
  destruct (decide (P s)) as [Hs|Hs].
  - intros [= <- _] j Hj. lia.
  - intros E j Hj. destruct (decide (j = s)) as [->|]; [done|]. eapply IH; [done|lia].
Qed.
Lemma word64_land x y : word64 x → (0 ≤ y)%Z → word64 (Z.land x y).
Proof.
  intros [H0 H1] Hy. assert (0 ≤ Z.land x y)%Z as Hl by (apply Z.land_nonneg; lia).
  split; [done|]. destruct (decide (Z.land x y = 0)%Z) as [->|]; [lia|].
  apply Z.log2_lt_pow2; [lia|]. apply Z.le_lt_trans with (Z.log2 x).
  - pose proof (Z.log2_land x y H0 Hy). lia.
  - apply Z.log2_lt_pow2; [|done]. destruct (decide (x = 0)%Z) as [->|]; [by rewrite Z.land_0_l in *|lia].
Qed.

Lemma bitsOf_step x :
  word64 x → x ≠ 0%Z →
  bitsOf x = TrailingZeros64 x :: bitsOf (Z.land x (x - 1)) ∧ word64 (Z.land x (x - 1)).
Proof.
  intros Hx Hne. unfold TrailingZeros64. fold (bitsOf x).
  destruct (bitsOf x) as [|k rest] eqn:E; [by apply word64_zero in E|]. simpl.
  assert (k ∈ bitsOf x) as [Hk Hk64]%elem_of_bitsOf by (rewrite E; by left).
  assert (∀ j, (0 ≤ j < Z.of_nat k)%Z → Z.testbit x j = false) as Hlow.
  { intros j Hj. apply not_true_iff_false. rewrite <- (Z2Nat.id j) by lia.
    apply (filter_seq_head _ _ _ _ _ E). lia. }
  assert (∀ i : nat, Z.testbit (Z.land x (x - 1)) (Z.of_nat i) =
    Z.testbit x (Z.of_nat i) && negb (bool_decide (i = k))) as Hclear.
  { intros i. rewrite (clear_lowest x (Z.of_nat k)) by (done || lia). f_equal. f_equal.
    destruct (Z.eqb_spec (Z.of_nat i) (Z.of_nat k)); case_bool_decide; lia. }
  split.
  - f_equal. assert (NoDup (k :: rest)) as [Hnk _]%NoDup_cons.
    { rewrite <- E. unfold bitsOf. apply NoDup_filter, NoDup_seq. }
    transitivity (filter (λ i, i ≠ k) (k :: rest)).
    + rewrite filter_cons_False by auto. symmetry. apply filter_all, Forall_forall.
      intros i Hi ->. done.
    + rewrite <- E. unfold bitsOf. rewrite list_filter_filter. apply list_filter_iff. intros i.
      rewrite Hclear, andb_true_iff, negb_true_iff, bool_decide_eq_false. tauto.
  - apply word64_land; [done|]. destruct Hx. lia.
Qed.

(** ** Bit sets *)

Definition wordsWf (n : nat) (ws : Words) : Prop := length ws = n ∧ Forall word64 ws.
Definition bit (ws : Words) (k : nat) : bool :=
  match ws !! (k / 64) with Some w => Z.testbit w (Z.of_nat (k mod 64)) | None => false end.

Lemma land_bit w j : (0 ≤ j)%Z → negb (Z.land w (Z.shiftl 1 j) =? 0)%Z = Z.testbit w j.
Proof.
  intros Hj. assert (∀ i, Z.testbit (Z.land w (Z.shiftl 1 j)) i = Z.testbit w i && (j =? i)%Z) as Hb.
  { intros i. rewrite Z.land_spec, Z.shiftl_1_l. destruct (decide (0 ≤ i)%Z).
    - by rewrite Z.pow2_bits_eqb.
    - by rewrite !(Z.testbit_neg_r _ i) by lia. }
  destruct (Z.testbit w j) eqn:E.
  - apply negb_true_iff, Z.eqb_neq. intros H0. specialize (Hb j).
    rewrite H0, Z.bits_0, E, Z.eqb_refl in Hb. done.
  - apply negb_false_iff, Z.eqb_eq, Z.bits_inj_0. intros i. rewrite Hb.
    destruct (Z.eqb_spec j i) as [<-|]; [by rewrite E|apply andb_false_r].
Qed.
Lemma word64_lor a b : word64 a → word64 b → word64 (Z.lor a b).
Proof.
  intros [Ha Ha'] [Hb Hb']. assert (0 ≤ Z.lor a b)%Z by (apply Z.lor_nonneg; lia).
  split; [done|]. destruct (decide (Z.lor a b = 0)%Z) as [->|]; [lia|].
  assert (∀ x, (0 ≤ x < 2 ^ 64)%Z → (Z.log2 x < 64)%Z) as Hl.
  { intros x [H1 H2]. destruct (decide (x = 0)%Z) as [->|]; [done|]. apply Z.log2_lt_pow2; lia. }
  apply Z.log2_lt_pow2; [lia|]. rewrite Z.log2_lor by done. apply Z.max_lub_lt; by apply Hl.
Qed.
Lemma word64_bit (j : nat) : j < 64 → word64 (Z.shiftl 1 (Z.of_nat j)).
Proof.
  intros Hj. rewrite Z.shiftl_1_l. split; [apply Z.pow_nonneg; lia|]. apply Z.pow_lt_mono_r; lia.
Qed.

Lemma words_lookup n ws k : wordsWf n ws → k < 64 * n → ∃ w, ws !! (k / 64) = Some w ∧ word64 w.
Proof.
  intros [Hl Hw] Hk. assert (k / 64 < length ws) as Hlt by (rewrite Hl; apply Nat.Div0.div_lt_upper_bound; lia).
  apply lookup_lt_is_Some in Hlt as [w E]. exists w. split; [done|]. by eapply Forall_lookup_1.
Qed.
Lemma testBit_spec n ws k : wordsWf n ws → k < 64 * n → testBit ws k = Some (bit ws k).
Proof.
  intros Hws Hk. destruct (words_lookup _ _ _ Hws Hk) as (w & E & _). unfold testBit, bit.
  rewrite E. cbn [mbind option_bind]. by rewrite land_bit by lia.
Qed.
Lemma setBit_spec n ws k : wordsWf n ws → k < 64 * n →
  ∃ ws', setBit ws k = Some ws' ∧ wordsWf n ws' ∧ ∀ j, bit ws' j = bit ws j || bool_decide (j = k).
Proof.
  intros Hws Hk. destruct (words_lookup _ _ _ Hws Hk) as (w & E & Hw). unfold setBit.
  rewrite E. cbn [mbind option_bind]. eexists. split; [done|].
  assert (k mod 64 < 64) as Hm by (apply Nat.mod_upper_bound; lia).
  destruct Hws as [Hl Hf]. split.
  - split; [by rewrite length_insert|]. apply Forall_insert; [done|].
    apply word64_lor; [done|by apply word64_bit].
  - intros j. unfold bit. destruct (decide (j / 64 = k / 64)) as [Ej|Nj].
    + rewrite Ej, list_lookup_insert_eq, E by (apply lookup_lt_is_Some; eauto).
      rewrite Z.lor_spec, Z.shiftl_1_l, Z.pow2_bits_eqb by lia. f_equal.
      case_bool_decide as Hjk; [subst; apply Z.eqb_refl|]. apply Z.eqb_neq. intros Hz. apply Hjk.
      rewrite (Nat.div_mod_eq j 64), (Nat.div_mod_eq k 64), Ej. lia.
    + rewrite list_lookup_insert_ne by done. rewrite bool_decide_eq_false_2, orb_false_r; [done|].
      by intros ->.
Qed.
Lemma unionWords_spec n a b : wordsWf n a → wordsWf n b →
  wordsWf n (unionWords a b) ∧ ∀ j, bit (unionWords a b) j = bit a j || bit b j.
Proof.
  intros [La Fa] [Lb Fb]. unfold unionWords. split.
  - split; [rewrite length_zip_with; lia|]. apply Forall_lookup. intros i w Hi.
    apply lookup_zip_with_Some in Hi as (x & y & -> & Hx & Hy).
    apply word64_lor; [exact (Forall_lookup_1 _ _ _ _ Fa Hx)|exact (Forall_lookup_1 _ _ _ _ Fb Hy)].
  - intros j. unfold bit. rewrite lookup_zip_with.
    destruct (a !! (j / 64)) as [x|] eqn:Ea, (b !! (j / 64)) as [y|] eqn:Eb; simpl.
    + apply Z.lor_spec.
    + apply lookup_lt_Some in Ea. apply lookup_ge_None in Eb. lia.
    + apply lookup_lt_Some in Eb. apply lookup_ge_None in Ea. lia.
    + done.
Qed.
Lemma replicate_wf n : wordsWf n (replicate n 0%Z) ∧ ∀ j, bit (replicate n 0%Z) j = false.
Proof.
  split; [split; [apply length_replicate|]|].
  - apply Forall_replicate. split; lia.
  - intros j. unfold bit. destruct (replicate n 0%Z !! (j / 64)) as [w|] eqn:E; [|done].
    apply lookup_replicate in E as [-> _]. apply Z.bits_0.
Qed.

(** The numbers in the words from the [word]th on. *)
Fixpoint idsOf (word : nat) (ws : Words) : list nat :=
  match ws with
  | [] => []
  | w :: ws => ((λ b, word * 64 + b) <$> bitsOf w) ++ idsOf (S word) ws
  end.
Lemma elem_of_idsOf ws : ∀ word id,
  id ∈ idsOf word ws ↔ word * 64 ≤ id ∧ bit ws (id - word * 64) = true.
Proof.
  induction ws as [|w ws IH]; intros word id; cbn [idsOf].
  { unfold bit. rewrite lookup_nil. set_solver. }
  rewrite elem_of_app, IH, list_elem_of_fmap. setoid_rewrite elem_of_bitsOf.
  assert (∀ d, d < 64 → bit (w :: ws) d = Z.testbit w (Z.of_nat d)) as Hlow.
  { intros d Hd. unfold bit. by rewrite Nat.div_small, Nat.mod_small by done. }
  assert (∀ d, bit (w :: ws) (64 + d) = bit ws d) as Hhigh.
  { intros d. unfold bit. replace (64 + d) with (d + 1 * 64) by lia.
    rewrite Nat.div_add, Nat.Div0.mod_add, Nat.add_1_r by lia. done. }
  split.
  - intros [(b & -> & Hb & Hlt)|[Hge Hb]].
    + split; [lia|]. rewrite Hlow by lia. rewrite <- Hb. do 2 f_equal. lia.
    + split; [lia|]. rewrite <- Hb, <- Hhigh. f_equal. lia.
  - intros [Hge Hb]. destruct (decide (id - word * 64 < 64)) as [Hlt|Hnlt].
    + left. exists (id - word * 64). rewrite <- (Hlow _ Hlt). split_and!; [lia|done|done].
    + right. split; [lia|]. rewrite <- Hb, <- Hhigh. f_equal. lia.
Qed.

(** ** Scanning *)

Section scanning.
Context (snap : compiledPolicy) (def : ActionDefinition) (action : string) (r : ResourceContext).
Context (owner member : bool).
Notation tryRules := (tryRules snap def r owner member).
Notation tryBinding := (tryBinding snap def action r owner member).
Notation scanWord := (scanWord snap def action r owner member).
Notation scanWords := (scanWords snap def action r owner member).

Fixpoint scanIds (ids : list nat) (visited : Words) (reason : string) : option scan :=
  match ids with
  | [] => Some (Go visited reason)
  | id :: ids =>
      s ← tryBinding id visited reason;
      match s with Stop d => Some (Stop d) | Go visited reason => scanIds ids visited reason end
  end.
Lemma scanIds_app l l' visited reason :
  scanIds (l ++ l') visited reason =
  (s ← scanIds l visited reason;
   match s with Stop d => Some (Stop d) | Go visited reason => scanIds l' visited reason end).
Proof.
  revert visited reason. induction l as [|id l IH]; intros visited reason; simpl; [done|].
  destruct (tryBinding id visited reason) as [[d|v t]|]; simpl; auto.
Qed.

Lemma scanWord_ids fuel : ∀ word x visited reason, word64 x → length (bitsOf x) < fuel →
  scanWord fuel word x visited reason = scanIds ((λ b, word * 64 + b) <$> bitsOf x) visited reason.
Proof.
  induction fuel as [|fuel IH]; intros word x visited reason Hx Hf; [lia|]. cbn [RbacEval.scanWord].
  destruct (Z.eqb_spec x 0) as [->|Hne]; [done|].
  destruct (bitsOf_step x Hx Hne) as [E Hx']. rewrite E in Hf |- *. cbn [fmap list_fmap scanIds length] in *.
  destruct (tryBinding _ visited reason) as [[d|v t]|]; cbn [mbind option_bind]; try done.
  apply IH; [done|lia].
Qed.
Lemma scanWords_ids ws : ∀ word visited reason, Forall word64 ws →
  scanWords word ws visited reason = scanIds (idsOf word ws) visited reason.
Proof.
  induction ws as [|w ws IH]; intros word visited reason; [done|].
  intros [Hw Hws]%Forall_cons. cbn [RbacEval.scanWords idsOf]. rewrite scanIds_app, scanWord_ids; [|done|].
  - destruct (scanIds _ visited reason) as [[d|v t]|]; cbn [mbind option_bind]; try done. by apply IH.
  - unfold bitsOf. eapply Nat.le_lt_trans; [apply length_filter|]. rewrite length_seq. lia.
Qed.

(** The rules of the policy, by number. *)
Context (all : list compiledRule).
Definition numbered : Prop := ∀ id b role act c, cp_bindings snap !! id = Some b →
  cb_role b = Some role → c ∈ default [] (role !! act) → all !! cr_id c = Some c.
Definition linked : Prop := ∀ id b, cp_bindings snap !! id = Some b → is_Some (cb_role b).
Definition decodable : Prop := ∀ c, c ∈ all →
  is_Some (conditionsMatch (cr_conditions c) r owner member).

(** A compiled rule grants the request under a binding of that kind. *)
Definition ruleAllows (cluster : bool) (c : compiledRule) : Prop :=
  (cr_names c = ∅ ∨ rc_Name r ∈ cr_names c ∧ rc_Name r ≠ "") ∧
  conditionsMatch (cr_conditions c) r owner member = Some true ∧
  transferRefused def owner member cluster (isNil (cr_conditions c)) = false.

(** Only rules that do not grant are marked as visited. *)
Definition keyOf (cluster : bool) (c : compiledRule) : nat := cr_id c * 2 + (if cluster then 1 else 0).
Definition visitedWf (visited : Words) : Prop :=
  wordsWf ((maxPolicyRules * 2 + 63) / 64) visited ∧
  ∀ cluster c, c ∈ all → all !! cr_id c = Some c → bit visited (keyOf cluster c) = true →
    ¬ ruleAllows cluster c.

(** What a scan has found, when [found] says whether something granted. *)
Definition scanned (found : Prop) (s : scan) : Prop :=
  match s with
  | Stop d => found ∧ d_Outcome d = OutcomeAllow ∧ d_PolicyDigest d = cp_digest snap
  | Go visited _ => ¬ found ∧ visitedWf visited
  end.
Lemma scanned_or (P Q : Prop) s : ¬ P → scanned Q s → scanned (P ∨ Q) s.
Proof. destruct s; simpl; tauto. Qed.

Lemma keyOf_inj k k' c c' : all !! cr_id c = Some c → all !! cr_id c' = Some c' →
  keyOf k c = keyOf k' c' → k = k' ∧ c = c'.
Proof.
  unfold keyOf. intros H H' E. assert (cr_id c = cr_id c') as Ei by (destruct k, k'; lia).
  rewrite Ei in *. split; [destruct k, k'; done || lia|congruence].
Qed.
Lemma visitedWf_mark visited cluster c :
  length all ≤ maxPolicyRules → visitedWf visited → all !! cr_id c = Some c →
  testBit visited (keyOf cluster c) = Some (bit visited (keyOf cluster c)) ∧
  ∃ visited', setBit visited (keyOf cluster c) = Some visited' ∧
    (¬ ruleAllows cluster c → visitedWf visited').
Proof.
  intros Hlen [Hwf Hv] Hc. assert (keyOf cluster c < 64 * ((maxPolicyRules * 2 + 63) / 64)) as Hk.
  { apply lookup_lt_Some in Hc. change (64 * ((maxPolicyRules * 2 + 63) / 64)) with 4032.
    change maxPolicyRules with 2000 in Hlen. unfold keyOf. destruct cluster; lia. }
  split; [by eapply testBit_spec|].
  destruct (setBit_spec _ _ _ Hwf Hk) as (ws' & -> & Hwf' & Hbit). exists ws'. split; [done|].
  intros Hno. split; [done|]. intros k' c' Hin Hc'. rewrite Hbit, orb_true_iff, bool_decide_eq_true.
  intros [Hb|Hb]; [by apply Hv|]. by destruct (keyOf_inj _ _ _ _ Hc' Hc Hb) as [-> ->].
Qed.

Lemma tryRules_spec b rules : length all ≤ maxPolicyRules → decodable → ∀ visited reason,
  (∀ c, c ∈ rules → all !! cr_id c = Some c) → visitedWf visited →
  ∃ s, tryRules b rules visited reason = Some s ∧
    scanned (∃ c, c ∈ rules ∧ ruleAllows (cb_cluster b) c) s.
Proof.
  intros Hlen Hdec. induction rules as [|c rules IH]; intros visited reason Hall Hv.
  { eexists. split; [done|]. split; [set_solver|done]. }
  assert (all !! cr_id c = Some c) as Hc by (apply Hall; by left).
  destruct (visitedWf_mark visited (cb_cluster b) c Hlen Hv Hc) as (Ht & v' & Hset & Hmark).
  assert (∀ v t, visitedWf v → ¬ ruleAllows (cb_cluster b) c →
    ∃ s, tryRules b rules v t = Some s ∧
      scanned (∃ c', c' ∈ c :: rules ∧ ruleAllows (cb_cluster b) c') s) as Hskip.
  { intros v t Hv1 Hno. destruct (IH v t) as (s & Hs & H); [set_solver|done|].
    exists s. split; [done|]. destruct s; simpl in *; [|destruct H; split; [|done]]; [|set_solver].
    split; [set_solver|tauto]. }
  cbn [RbacEval.tryRules]. fold (keyOf (cb_cluster b) c). rewrite Ht. cbn [mbind option_bind].
  destruct (bit visited (keyOf (cb_cluster b) c)) eqn:Eb.
  { apply Hskip; [done|]. apply Hv; [by eapply list_elem_of_lookup_2|done..]. }
  rewrite Hset. cbn [mbind option_bind].
  destruct (Hdec c) as [m Hm]; [by eapply list_elem_of_lookup_2|].
  destruct (negb (bool_decide (cr_names c = ∅)) && _) eqn:En.
  { apply Hskip; [apply Hmark|]; intros ([Hn|[Hn Hn']] & _); repeat case_bool_decide; done. }
  rewrite Hm. cbn [mbind option_bind].
  destruct m; simpl; [|apply Hskip; [apply Hmark|]; intros (_ & Hm' & _); congruence].
  destruct (transferRefused _ _ _ _ _) eqn:Et;
    [apply Hskip; [apply Hmark|]; intros (_ & _ & Ht'); congruence|].
  eexists. split; [done|]. split; [|done]. exists c. split; [by left|]. split_and!; [|done..].
  repeat case_bool_decide; simpl in En; try done; auto.
Qed.

Definition bindingAllows (b : compiledBinding) : Prop :=
  ∃ role c, cb_role b = Some role ∧ c ∈ default [] (role !! action) ∧
    outOfScope def r b = false ∧ ruleAllows (cb_cluster b) c.

Lemma tryBinding_spec id visited reason :
  length all ≤ maxPolicyRules → decodable → numbered → linked → id < length (cp_bindings snap) →
  visitedWf visited →
  ∃ s, tryBinding id visited reason = Some s ∧
    scanned (∃ b, cp_bindings snap !! id = Some b ∧ bindingAllows b) s.
Proof.
  intros Hlen Hdec Hnum Hlink [b Hb]%lookup_lt_is_Some Hv. destruct (Hlink _ _ Hb) as [role Hrole].
  unfold RbacEval.tryBinding. rewrite Hb. cbn [mbind option_bind]. rewrite Hrole.
  cbn [mbind option_bind].
  assert (∀ P Q s, scanned P s → (P ↔ Q) → scanned Q s) as Hiff.
  { intros P Q s. destruct s; simpl; tauto. }
  destruct (default [] (role !! action)) as [|c rules] eqn:Er.
  { eexists. split; [done|]. split; [|done]. intros (b' & Hb' & role' & c' & Hr' & Hin & _).
    simplify_eq. rewrite Er in Hin. by apply not_elem_of_nil in Hin. }
  destruct (outOfScope def r b) eqn:Eo.
  { eexists. split; [done|]. split; [|done]. intros (b' & Hb' & role' & c' & Hr' & _ & Hs & _).
    simplify_eq. congruence. }
  rewrite <- Er. destruct (tryRules_spec b (default [] (role !! action)) Hlen Hdec visited reason)
    as (s & Hs & H); [by intros; eapply Hnum|done|].
  exists s. split; [done|]. eapply Hiff; [done|]. unfold bindingAllows. split.
  - intros (c' & Hc' & Ha). exists b. split; [done|]. by exists role, c'.
  - intros (b' & Hb' & role' & c' & Hr' & Hin & _ & Ha). simplify_eq. eauto.
Qed.

Lemma scanIds_spec ids : length all ≤ maxPolicyRules → decodable → numbered → linked →
  ∀ visited reason, (∀ id, id ∈ ids → id < length (cp_bindings snap)) → visitedWf visited →
  ∃ s, scanIds ids visited reason = Some s ∧
    scanned (∃ id b, id ∈ ids ∧ cp_bindings snap !! id = Some b ∧ bindingAllows b) s.
Proof.
  intros Hlen Hdec Hnum Hlink. induction ids as [|id ids IH]; intros visited reason Hids Hv.
  { eexists. split; [done|]. split; [set_solver|done]. }
  destruct (tryBinding_spec id visited reason) as (s & Hs & H); [done..|apply Hids; by left|done|].
  cbn [scanIds]. rewrite Hs. cbn [mbind option_bind]. destruct s as [d|v t].
  - eexists. split; [done|]. destruct H as ((b & Hb & Ha) & H). split; [|done].
    exists id, b. split; [by left|done].
  - destruct H as [Hno Hv']. destruct (IH v t) as (s & Hs' & H'); [set_solver|done|].
    exists s. split; [done|]. destruct s; simpl in *.
    + destruct H' as ((i & b & Hi & H') & Hd). split; [|done]. exists i, b. split; [by right|done].
    + destruct H' as [Hno' Hv'']. split; [|done]. intros (i & b & [->|Hi]%elem_of_cons & Hb).
      * apply Hno. by exists b.
      * apply Hno'. by exists i, b.
Qed.
End scanning.

(** ** Compilation *)

Lemma addRule_spec c acts : ∀ (role : compiledRole) act x,
  x ∈ default [] (addRule c role acts !! act) ↔
  x ∈ default [] (role !! act) ∨ (x = c ∧ act ∈ a_Action <$> acts).
Proof.
  induction acts as [|a acts IH]; intros role act x; [cbn; set_solver|].
  change (addRule c role (a :: acts)) with
    (addRule c (<[a_Action a := default [] (role !! a_Action a) ++ [c]]> role) acts).
  rewrite IH, fmap_cons. destruct (decide (act = a_Action a)) as [->|].
  - rewrite lookup_insert_eq. simpl default.
    rewrite elem_of_app, list_elem_of_singleton, elem_of_cons. tauto.
  - rewrite lookup_insert_ne by done. rewrite elem_of_cons. naive_solver.
Qed.

Lemma compileRules_spec rules : ∀ n i (role : compiledRole) act x,
  x ∈ default [] (compileRules n i role rules !! act) ↔
  x ∈ default [] (role !! act) ∨
  ∃ j rule, rules !! j = Some rule ∧ act ∈ a_Action <$> actions rule ∧ x = compileRule (n + j) (i + j) rule.
Proof.
  induction rules as [|rule rules IH]; intros n i role act x; cbn [compileRules].
  { split; [auto|]. intros [?|(j & rule & H & _)]; [done|]. by rewrite lookup_nil in H. }
  rewrite IH, addRule_spec. split.
  - intros [[H|[-> H]]|(j & rl & Hj & Ha & ->)]; [by left|right; exists 0, rule|right; exists (S j), rl].
    + by rewrite !Nat.add_0_r.
    + split_and!; [done..|]. f_equal; lia.
  - intros [H|([|j] & rl & Hj & Ha & ->)]; [by left; left| |].
    + injection Hj as ->. left. right. by rewrite !Nat.add_0_r.
    + right. exists j, rl. split_and!; [done..|]. f_equal; lia.
Qed.

(** The compiled roles are those of the tiers, and their rules are numbered. *)
Definition compiledAs (all : list compiledRule) (rules : list Rule) (role : compiledRole) : Prop :=
  ∃ n, role = compileRules n 0 ∅ rules ∧
    ∀ j rule, rules !! j = Some rule → all !! (n + j) = Some (compileRule (n + j) j rule).

Lemma compiledAs_more all more rules role : compiledAs all rules role → compiledAs (all ++ more) rules role.
Proof. intros (n & -> & H). exists n. split; [done|]. intros j rule Hj. by apply lookup_app_l_Some, H. Qed.

Lemma compileRoles_spec kind defs names : ∀ roles all, NoDup names →
  ∃ more, (compileRoles kind defs names (roles, length all)).2 = length (all ++ more) ∧
    length more = sum_list ((λ n, length (default [] (defs !! n))) <$> names) ∧
    (∀ c, c ∈ more → ∃ name rule id i, name ∈ names ∧ rule ∈ default [] (defs !! name) ∧
       c = compileRule id i rule) ∧
    let roles' := (compileRoles kind defs names (roles, length all)).1 in
    (∀ name, name ∈ names → ∃ role, roles' !! mkRoleRef kind name = Some role ∧
       compiledAs (all ++ more) (default [] (defs !! name)) role) ∧
    (∀ ref, (rr_Kind ref = kind → rr_Name ref ∉ names) → roles' !! ref = roles !! ref).
Proof.
  induction names as [|name names IH]; intros roles all Hnd.
  { exists []. rewrite app_nil_r. cbn. split_and!; [done..|set_solver|set_solver|done]. }
  apply NoDup_cons in Hnd as [Hn Hnd]. cbn [compileRoles fst snd].
  set (rules := default [] (defs !! name)).
  set (new := imap (λ j rule, compileRule (length all + j) j rule) rules).
  assert (length new = length rules) as Hlen by apply length_imap.
  destruct (IH (<[mkRoleRef kind name := compileRules (length all) 0 ∅ rules]> roles) (all ++ new) Hnd)
    as (more & H1 & H2 & H3 & H4 & H5).
  rewrite length_app, Hlen in H1, H4, H5. exists (new ++ more). rewrite app_assoc.
  split_and!; [done| | | |].
  - rewrite length_app, H2, Hlen. done.
  - intros c [Hc|Hc]%elem_of_app.
    + apply list_elem_of_lookup_1 in Hc as [j Hj]. unfold new in Hj. rewrite list_lookup_imap in Hj.
      destruct (rules !! j) as [rule|] eqn:Ej; [|done]. injection Hj as <-.
      exists name, rule, (length all + j), j. split_and!; [by left| |done]. by eapply list_elem_of_lookup_2.
    + destruct (H3 c Hc) as (nm & rule & id & i & Hnm & Hrest). exists nm, rule, id, i. split; [by right|done].
  - intros nm [->|Hnm]%elem_of_cons; [|by apply H4].
    rewrite H5 by (simpl; auto). rewrite lookup_insert_eq. eexists. split; [done|].
    apply compiledAs_more. exists (length all). split; [done|]. intros j rule Hj.
    rewrite lookup_app_r by lia. replace (length all + j - length all) with j by lia.
    unfold new. rewrite list_lookup_imap. fold rules in Hj. by rewrite Hj.
  - intros ref Href. rewrite H5 by set_solver. rewrite lookup_insert_ne; [done|].
    intros <-. apply (Href eq_refl). by left.
Qed.

Lemma indexSubjects_spec id ss : id < 1024 → ∀ ix,
  (∀ s ws, ix !! s = Some ws → wordsWf 16 ws) →
  ∃ ix', indexSubjects id ix ss = Some ix' ∧ (∀ s ws, ix' !! s = Some ws → wordsWf 16 ws) ∧
    ∀ s j, bit (default emptyBindings (ix' !! s)) j =
      bit (default emptyBindings (ix !! s)) j || bool_decide (j = id ∧ s ∈ ss).
Proof.
  intros Hid. induction ss as [|s ss IH]; intros ix Hix; cbn [indexSubjects].
  { exists ix. split_and!; [done..|]. intros s j. rewrite bool_decide_eq_false_2 by set_solver.
    by rewrite orb_false_r. }
  assert (wordsWf 16 (default emptyBindings (ix !! s))) as Hs.
  { destruct (ix !! s) eqn:E; [by eapply Hix|apply (replicate_wf 16)]. }
  destruct (setBit_spec 16 _ id Hs) as (ws & -> & Hws & Hbit); [lia|]. cbn [mbind option_bind].
  destruct (IH (<[s := ws]> ix)) as (ix' & -> & Hwf & Hb).
  { intros s' ws'. rewrite lookup_insert_Some. intros [[<- <-]|[_ ?]]; [done|by eapply Hix]. }
  exists ix'. split_and!; [done..|]. intros s' j. rewrite Hb. destruct (decide (s' = s)) as [->|Hne].
  - rewrite lookup_insert_eq. cbn [default]. rewrite Hbit, <- orb_assoc. f_equal.
    repeat case_bool_decide; simpl; try done; set_solver.
  - rewrite lookup_insert_ne by done. f_equal. apply bool_decide_ext. set_solver.
Qed.

Lemma compileBindings_spec roles cluster tier bs : ∀ i ix (cs : list compiledBinding),
  length cs + length bs ≤ maxPolicyBindings → (∀ s ws, ix !! s = Some ws → wordsWf 16 ws) →
  ∃ ix', compileBindings roles cluster tier i bs (ix, cs) =
      Some (ix', cs ++ imap (λ j, compileBinding roles cluster tier (i + j)) bs) ∧
    (∀ s ws, ix' !! s = Some ws → wordsWf 16 ws) ∧
    ∀ s j, bit (default emptyBindings (ix' !! s)) j = true ↔
      bit (default emptyBindings (ix !! s)) j = true ∨
      ∃ b, length cs ≤ j ∧ bs !! (j - length cs) = Some b ∧ s ∈ b_Subjects b.
Proof.
  induction bs as [|b bs IH]; intros i ix cs Hlen Hix; cbn [compileBindings fst snd].
  { exists ix. rewrite app_nil_r. split_and!; [done..|]. intros s j. split; [auto|].
    intros [?|(b & _ & H & _)]; [done|]. by rewrite lookup_nil in H. }
  change maxPolicyBindings with 1000 in *. simpl in Hlen.
  destruct (indexSubjects_spec (length cs) (b_Subjects b) ltac:(lia) ix Hix) as (ix1 & -> & Hwf1 & Hb1).
  cbn [mbind option_bind].
  destruct (IH (S i) ix1 (cs ++ [compileBinding roles cluster tier i b])) as (ix2 & -> & Hwf2 & Hb2);
    [rewrite length_app; simpl; lia|done|].
  exists ix2. split_and!; [|done|].
  - rewrite <- app_assoc. cbn [imap app]. do 3 f_equal. rewrite Nat.add_0_r. f_equal.
    apply imap_ext. intros j x _. cbn. f_equal. lia.
  - intros s j. rewrite Hb2, Hb1, orb_true_iff, bool_decide_eq_true, length_app. cbn [length].
    split.
    + intros [[H|[-> Hs]]|(b' & Hle & Hb' & Hs)]; [by left| |].
      * right. exists b. rewrite Nat.sub_diag. split_and!; [lia|done|done].
      * right. exists b'. split_and!; [lia| |done].
        replace (j - length cs) with (S (j - (length cs + 1))) by lia. done.
    + intros [H|(b' & Hle & Hb' & Hs)]; [by left; left|].
      destruct (j - length cs) as [|j'] eqn:Ej.
      * injection Hb' as ->. left. right. split; [lia|done].
      * right. exists b'. split_and!; [lia| |done].
        replace (j - (length cs + 1)) with j' by lia. done.
Qed.
