(* ===== verification/RbacExact.v ===== *)
(** * What a policy grants

    The meaning of a policy document, stated on the document itself, and the
    theorem that the compiled evaluator decides exactly by it. *)

From S2P Require Import Prelude Entities Auth RbacPolicy RbacEval RbacLaws.
From Stdlib Require Import Ascii.
From stdpp Require Import sorting pretty.

(** ** The meaning of a policy *)

Section meaning.
Context (def : ActionDefinition) (r : ResourceContext) (owner member : bool).

Definition conditionHolds (c : Condition) : Prop :=
  (Token c = "owner" ∧ owner = true) ∨
  (Token c = "targetOwnerMember" ∧ member = true) ∨
  (Token c = "" ∧ ∃ v, attrText r (Attr c) = Some v ∧ (length_ v ≤ 256)%Z ∧
   ((Op c = "eq" ∧ Value c = Some v) ∨ (Op c = "neq" ∧ Value c ≠ Some v) ∨
    (Op c = "in" ∧ v ∈ Values c) ∨ (Op c = "notIn" ∧ v ∉ Values c))).

Definition ruleGrants (cluster : bool) (rule : Rule) : Prop :=
  ruleCovers (Resources rule) (Verbs rule) def ∧
  (ResourceNames rule = [] ∨ rc_Name r ∈ ResourceNames rule ∧ rc_Name r ≠ "") ∧
  Forall conditionHolds (When rule) ∧
  (a_Verb def = "transfer" →
   (owner = true ∨ cluster = true ∧ When rule = []) ∧ (member = true ∨ When rule = [])).

Definition roleOf (p : Policy) (ref : RoleRef) : option RoleDefinition :=
  tierOf p (rr_Kind ref) ≫= (.!! rr_Name ref).

(** A binding in a namespace grants nothing outside it, and nothing that is
    scoped to the cluster. *)
Definition bindingGrants (p : Policy) (subjects : list SubjectRef) (cluster : bool) (b : Binding) : Prop :=
  (∃ s, s ∈ b_Subjects b ∧ s ∈ subjects) ∧
  (∃ role rule, roleOf p (b_RoleRef b) = Some role ∧ rule ∈ role ∧ ruleGrants cluster rule) ∧
  (cluster = false → a_Scope def = "namespace" ∧
     ∃ ns, b_Namespace b = Some ns ∧ ns ≠ "" ∧ attrText r "namespace" = Some ns).

Definition policyGrants (p : Policy) (subjects : list SubjectRef) : Prop :=
  (∃ b, b ∈ ClusterRoleBindings p ∧ bindingGrants p subjects true b) ∨
  (∃ b, b ∈ RoleBindings p ∧ bindingGrants p subjects false b).
End meaning.

(** Every condition of the policy came out of the decoder. *)
Definition conditionsDecoded (p : Policy) : Prop :=
  ∀ kind roles name rules rule c, tierOf p kind = Some roles → roles !! name = Some rules →
    rule ∈ rules → c ∈ When rule → ∃ node, UnmarshalYAML node = Some c.

(** ** Conditions *)

Lemma UnmarshalYAML_wf node c : UnmarshalYAML node = Some c →
  Token c = "owner" ∨ Token c = "targetOwnerMember" ∨
  (Token c = "" ∧ Attr c ∈ ["namespace"; "tier"; "visibility"] ∧ (((Op c = "eq" ∨ Op c = "neq") ∧ is_Some (Value c)) ∨ Op c = "in" ∨ Op c = "notIn")).
Proof.
  unfold UnmarshalYAML. destruct (textNode node) as [token|].
  { repeat case_bool_decide; simpl; try done; intros [= <-]; simpl; auto. }
  destruct (negb _); [done|]. intros H. repeat (apply bind_Some in H as (? & _ & H)).
  case_bool_decide as Hat; [|done]. cbn [negb] in H. case_bool_decide as Hop.
  - apply bind_Some in H as (v & _ & H). destruct (_ !! "values"); [done|]. injection H as <-.
    right; right. split_and!; [done..|]. left. simpl. set_solver.
  - case_bool_decide as Hop'; [|done]. apply bind_Some in H as (n & _ & H).
    destruct (_ || _ || _); [done|]. apply bind_Some in H as (vs & _ & H). injection H as <-.
    right; right. split_and!; [done..|]. right. simpl. set_solver.
Qed.

Lemma conditionMatches_spec c r owner member :
  (∃ node, UnmarshalYAML node = Some c) →
  ∃ b, conditionMatches (c, list_to_set (Values c)) r owner member = Some b ∧
    (b = true ↔ conditionHolds r owner member c).
Proof.
  intros [node H%UnmarshalYAML_wf]. unfold conditionMatches, conditionHolds.
  destruct H as [Ht|[Ht|(Ht & _ & Hop)]]; rewrite Ht.
  - rewrite bool_decide_eq_true_2 by done. exists owner. split; [done|]. naive_solver.
  - rewrite (bool_decide_eq_false_2 (_ = "owner")), bool_decide_eq_true_2 by done.
    exists member. split; [done|]. naive_solver.
  - rewrite (bool_decide_eq_false_2 (_ = "owner")), (bool_decide_eq_false_2 (_ = "targetOwnerMember"))
      by done.
    destruct (attrText r (Attr c)) as [v|]; [|exists false; split; [done|naive_solver]].
    destruct (Z.ltb_spec 256 (length_ v)) as [Hl|Hl].
    { exists false. split; [done|]. split; [done|]. intros [?|[?|(_ & v' & [= <-] & ? & _)]]; naive_solver lia. }
    destruct Hop as [[[Ho|Ho] [w Hw]]|[Ho|Ho]]; rewrite Ho;
      rewrite ?(bool_decide_eq_false_2 (_ = "eq")), ?(bool_decide_eq_false_2 (_ = "neq")),
        ?(bool_decide_eq_false_2 (_ = "in")), ?bool_decide_eq_true_2 by done; cbn [mbind option_bind];
      rewrite ?Hw; cbn [mbind option_bind]; eexists; (split; [done|]).
    + rewrite bool_decide_eq_true. naive_solver.
    + rewrite negb_true_iff, bool_decide_eq_false. naive_solver.
    + rewrite bool_decide_eq_true, elem_of_list_to_set. naive_solver.
    + rewrite negb_true_iff, bool_decide_eq_false, elem_of_list_to_set. naive_solver.
Qed.

Lemma conditionsMatch_spec cs r owner member :
  (∀ c, c ∈ cs → ∃ node, UnmarshalYAML node = Some c) →
  ∃ b, conditionsMatch ((λ c, (c, list_to_set (Values c))) <$> cs) r owner member = Some b ∧
    (b = true ↔ Forall (conditionHolds r owner member) cs).
Proof.
  induction cs as [|c cs IH]; intros Hdec.
  { exists true. split; [done|]. split; [constructor|done]. }
  destruct (conditionMatches_spec c r owner member) as (b & E & Hb); [apply Hdec; by left|].
  rewrite fmap_cons. cbn [conditionsMatch]. rewrite E. cbn [mbind option_bind]. destruct b.
  - destruct IH as (b' & E' & Hb'); [intros; apply Hdec; by right|]. exists b'. split; [done|].
    rewrite Hb', Forall_cons, <- Hb. naive_solver.
  - exists false. split; [done|]. rewrite Forall_cons, <- Hb. naive_solver.
Qed.

(** ** Validation *)

Definition validated (rule rule' : Rule) : Prop :=
  ∃ acts, ExpandActions (Resources rule) (Verbs rule) = Ok acts ∧ rule' = setActions acts rule ∧
    forallb validIdentifier (ResourceNames rule) = true.

Lemma validateRules_spec cluster name rules : ∀ i rules',
  validateRules cluster name i rules = Ok rules' → Forall2 validated rules rules'.
Proof.
  induction rules as [|rule rules IH]; intros i rules'; cbn [validateRules].
  { intros [= <-]. constructor. }
  destruct (validateRule cluster name i rule) as [rule'|] eqn:E; [|done]. cbn [bind_result].
  destruct (validateRules cluster name (S i) rules) as [rest|] eqn:E'; [|done]. cbn [bind_result].
  intros [= <-]. constructor; [|by eapply IH]. unfold validateRule in E.
  destruct (negb (ruleInBounds rule)); [done|]. destruct (forallb _ _) eqn:En; [|done]. cbn [negb] in E.
  destruct (ExpandActions _ _) as [acts|] eqn:Ea; [|done].
  destruct (firstError _ acts); [done|]. injection E as <-. by exists acts.
Qed.

Notation ruleSum roles names := (sum_list ((λ x, length (default [] (roles !! x))) <$> names)).

Lemma validateRoles_spec cluster names : ∀ roles n roles' n', NoDup names →
  validateRoles cluster names roles n = Ok (roles', n') →
  n' = n + ruleSum roles names ∧ (n ≤ maxPolicyRules → n' ≤ maxPolicyRules) ∧
  (∀ x, x ∈ names → ∃ rules', roles' !! x = Some rules' ∧
     Forall2 validated (default [] (roles !! x)) rules') ∧
  (∀ x, x ∉ names → roles' !! x = roles !! x).
Proof.
  induction names as [|name names IH]; intros roles n roles' n' Hnd; cbn [validateRoles].
  { intros [= <- <-]. cbn. split_and!; [lia|done|set_solver|done]. }
  apply NoDup_cons in Hnd as [Hn Hnd]. destruct (negb (validIdentifier name)); [done|].
  destruct (Nat.ltb_spec maxPolicyRules (n + length (default [] (roles !! name)))) as [|Hle]; [done|].
  destruct (validateRules cluster name 0 _) as [rules|] eqn:E; [|done]. cbn [bind_result].
  intros (H1 & H2 & H3 & H4)%IH; [|done]. apply validateRules_spec in E.
  assert (∀ x, x ∈ names → <[name := rules]> roles !! x = roles !! x) as Hsame.
  { intros x Hx. apply lookup_insert_ne. by intros <-. }
  split_and!.
  - rewrite H1, fmap_cons. cbn [sum_list_with]. rewrite Nat.add_assoc. f_equal. f_equal.
    apply list_fmap_ext. intros i x Hx. rewrite Hsame; [done|]. by eapply list_elem_of_lookup_2.
  - intros _. by apply H2.
  - intros x [->|Hx]%elem_of_cons.
    + exists rules. split; [|done]. rewrite H4 by done. apply lookup_insert_eq.
    + destruct (H3 x Hx) as (rs & Hrs & HF). rewrite Hsame in HF by done. eauto.
  - intros x [Hne Hx]%not_elem_of_cons. rewrite H4 by done. by apply lookup_insert_ne.
Qed.

Lemma elem_of_sortedNames roles x : x ∈ sortedNames roles ↔ is_Some (roles !! x).
Proof.
  unfold sortedNames. rewrite merge_sort_Permutation, list_elem_of_fmap. split.
  - intros ([k v] & -> & H%elem_of_map_to_list). by exists v.
  - intros [v Hv]. exists (x, v). split; [done|]. by apply elem_of_map_to_list.
Qed.
Lemma sortedNames_NoDup roles : NoDup (sortedNames roles).
Proof. unfold sortedNames. rewrite merge_sort_Permutation. apply NoDup_fst_map_to_list. Qed.

Lemma sum_list_perm {A} (f : A → nat) l l' : l ≡ₚ l' → sum_list (f <$> l) = sum_list (f <$> l').
Proof. induction 1; cbn; lia. Qed.

(** A tier of roles before and after its validation. *)
Definition tierValidated (roles roles' : gmap string RoleDefinition) : Prop :=
  ∀ x, option_Forall2 (Forall2 validated) (roles !! x) (roles' !! x).

Lemma validateTier_spec cluster roles n roles' n' :
  validateRoles cluster (sortedNames roles) roles n = Ok (roles', n') →
  tierValidated roles roles' ∧ (n ≤ maxPolicyRules → n' ≤ maxPolicyRules) ∧
  n' = n + ruleSum roles' (sortedNames roles').
Proof.
  intros (H1 & H2 & H3 & H4)%validateRoles_spec; [|apply sortedNames_NoDup].
  assert (tierValidated roles roles') as Ht.
  { intros x. destruct (roles !! x) as [rules|] eqn:Er.
    - destruct (H3 x) as (rs & -> & HF); [by apply elem_of_sortedNames|]. rewrite Er in HF.
      by constructor.
    - rewrite H4, Er; [constructor|]. rewrite elem_of_sortedNames, Er. by intros []. }
  split_and!; [done|done|]. rewrite H1. f_equal.
  transitivity (ruleSum roles' (sortedNames roles)).
  - f_equal. apply list_fmap_ext. intros i x Hx.
    specialize (Ht x). destruct (roles !! x), (roles' !! x); inversion Ht; subst; [|done].
    simpl. by eapply Forall2_length.
  - apply sum_list_perm. apply NoDup_Permutation; [apply sortedNames_NoDup..|]. intros x.
    rewrite !elem_of_sortedNames. specialize (Ht x).
    destruct (roles !! x), (roles' !! x); inversion Ht; subst; split; intros []; eauto.
Qed.

Lemma validateBinding_ok p cluster i b : validateBinding p cluster i b = None →
  is_Some (roleOf p (b_RoleRef b)) ∧
  (cluster = false → ∃ ns, b_Namespace b = Some ns ∧ ns ≠ "").
Proof.
  unfold validateBinding, roleOf. destruct (cluster && _); [done|].
  destruct (negb cluster && _) eqn:En; [done|]. destruct (negb (validIdentifier _)); [done|].
  destruct (tierOf p _) as [tier|]; [|done]. destruct (tier !! _) as [role|] eqn:Er; [|done]. intros _.
  split; [cbn; rewrite Er; by eexists|]. intros ->. destruct (b_Namespace b) as [ns|]; [|done].
  exists ns. split; [done|]. by intros ->.
Qed.
Lemma validateBindings_ok p cluster bs : validateBindings p cluster bs = None →
  ∀ b, b ∈ bs → is_Some (roleOf p (b_RoleRef b)) ∧
    (cluster = false → ∃ ns, b_Namespace b = Some ns ∧ ns ≠ "").
Proof.
  unfold validateBindings. intros H b [i Hi]%list_elem_of_lookup_1.
  rewrite firstError_None in H. apply (validateBinding_ok p cluster i), (H (i, b)).
  apply list_elem_of_lookup. exists i. by rewrite list_lookup_imap, Hi.
Qed.

(** What a successful validation says of the policy it returns. *)
Record policyValid (p0 p : Policy) : Prop := mkValid {
  valid_cluster : tierValidated (ClusterRoles p0) (ClusterRoles p);
  valid_roles : tierValidated (Roles p0) (Roles p);
  valid_cbs : ClusterRoleBindings p = ClusterRoleBindings p0;
  valid_rbs : RoleBindings p = RoleBindings p0;
  valid_digest : digest p = digest p0;
  valid_bindings : length (ClusterRoleBindings p) + length (RoleBindings p) ≤ maxPolicyBindings;
  valid_rules : ruleSum (ClusterRoles p) (sortedNames (ClusterRoles p)) +
                ruleSum (Roles p) (sortedNames (Roles p)) ≤ maxPolicyRules;
  valid_cb : ∀ b, b ∈ ClusterRoleBindings p → is_Some (roleOf p (b_RoleRef b));
  valid_rb : ∀ b, b ∈ RoleBindings p → is_Some (roleOf p (b_RoleRef b)) ∧
               ∃ ns, b_Namespace b = Some ns ∧ ns ≠ "";
}.
Lemma validatePolicy_valid p0 p : validatePolicy p0 = Ok p → policyValid p0 p.
Proof.
  unfold validatePolicy. destruct (_ || _); [done|]. destruct (bool_decide _); [done|].
  destruct (200 <? _); [done|].
  destruct (Nat.ltb_spec maxPolicyBindings
    (length (ClusterRoleBindings p0) + length (RoleBindings p0))) as [|Hb]; [done|].
  destruct (validateRoles true _ _ _) as [[cr n]|] eqn:E1; [|done]. cbn [bind_result].
  destruct (validateRoles false _ _ _) as [[rs n']|] eqn:E2; [|done]. cbn [bind_result].
  set (p' := setRoles cr rs p0).
  destruct (validateBindings p' true _) eqn:E3; [done|].
  destruct (validateBindings p' false _) eqn:E4; [done|]. intros [= <-].
  apply validateTier_spec in E1 as (T1 & B1 & S1), E2 as (T2 & B2 & S2).
  pose proof (validateBindings_ok _ _ _ E3) as H3. pose proof (validateBindings_ok _ _ _ E4) as H4.
  constructor; try done.
  - cbn. specialize (B1 (Nat.le_0_l _)). specialize (B2 B1). cbn in S1, S2. lia.
  - intros b Hin. by apply H3.
  - intros b Hin. destruct (H4 b Hin) as [? Hns]. split; [done|by apply Hns].
Qed.

(** ** The compiled policy *)

Record compiledOk (p : Policy) (snap : compiledPolicy) (all : list compiledRule)
    (roles : gmap RoleRef compiledRole) : Prop := mkCompiledOk {
  ok_digest : cp_digest snap = digest p;
  ok_rules : length all ≤ maxPolicyRules;
  ok_bindings : cp_bindings snap =
    imap (compileBinding roles true "clusterRoleBindings") (ClusterRoleBindings p) ++
    imap (compileBinding roles false "roleBindings") (RoleBindings p);
  ok_words : ∀ s, wordsWf 16 (default emptyBindings (cp_bySubject snap !! s));
  ok_subjects : ∀ s j, bit (default emptyBindings (cp_bySubject snap !! s)) j = true ↔
    ∃ b, (ClusterRoleBindings p ++ RoleBindings p) !! j = Some b ∧ s ∈ b_Subjects b;
  ok_roles : ∀ ref rules, roleOf p ref = Some rules →
    ∃ role, roles !! ref = Some role ∧ compiledAs all rules role;
  ok_all : ∀ c, c ∈ all → ∃ kind tier name rules rule id i, tierOf p kind = Some tier ∧
    tier !! name = Some rules ∧ rule ∈ rules ∧ c = compileRule id i rule;
}.

Lemma tierOf_cases p kind tier : tierOf p kind = Some tier →
  (kind = "ClusterRole" ∧ tier = ClusterRoles p) ∨ (kind = "Role" ∧ tier = Roles p).
Proof. unfold tierOf. repeat case_bool_decide; naive_solver. Qed.

Lemma compilePolicy_ok p :
  length (ClusterRoleBindings p) + length (RoleBindings p) ≤ maxPolicyBindings →
  ruleSum (ClusterRoles p) (sortedNames (ClusterRoles p)) +
    ruleSum (Roles p) (sortedNames (Roles p)) ≤ maxPolicyRules →
  ∃ snap all roles, compilePolicy p = Some snap ∧ compiledOk p snap all roles.
Proof.
  intros Hb Hr. unfold compilePolicy.
  destruct (compileRoles_spec "ClusterRole" (ClusterRoles p) (sortedNames (ClusterRoles p)) ∅ []
    (sortedNames_NoDup _)) as (m1 & L1 & N1 & A1 & R1 & _).
  destruct (compileRoles "ClusterRole" _ _ _) as [roles1 n1] eqn:E1. cbn [fst snd app length] in *.
  subst n1.
  destruct (compileRoles_spec "Role" (Roles p) (sortedNames (Roles p)) roles1 m1
    (sortedNames_NoDup _)) as (m2 & L2 & N2 & A2 & R2 & F2).
  destruct (compileRoles "Role" _ _ _) as [roles n2] eqn:E2. cbn [fst snd] in *.
  assert (∀ s ws, (∅ : gmap SubjectRef Words) !! s = Some ws → wordsWf 16 ws) as H0
    by (intros s ws; by rewrite lookup_empty).
  destruct (compileBindings_spec roles true "clusterRoleBindings" (ClusterRoleBindings p) 0 ∅ [])
    as (ix1 & -> & W1 & B1); [cbn; lia|done|]. cbn [mbind option_bind app].
  destruct (compileBindings_spec roles false "roleBindings" (RoleBindings p) 0 ix1
    (imap (λ j, compileBinding roles true "clusterRoleBindings" (0 + j)) (ClusterRoleBindings p)))
    as (ix2 & -> & W2 & B2); [by rewrite length_imap|done|]. cbn [mbind option_bind fst snd].
  rewrite length_imap in B2.
  eexists _, (m1 ++ m2), roles. split; [done|]. constructor; cbn; try done.
  - rewrite length_app, N1, N2. done.
  - intros s. destruct (ix2 !! s) eqn:E; [by eapply W2|apply (replicate_wf 16)].
  - intros s j. rewrite B2, B1, lookup_empty. cbn [default]. setoid_rewrite lookup_app_Some.
    rewrite (proj2 (replicate_wf 16)). setoid_rewrite Nat.sub_0_r. split.
    + intros [[?|(b & _ & Hj & Hs)]|(b & Hle & Hj & Hs)]; [done|exists b; auto|exists b; auto].
    + intros (b & [Hj|[Hle Hj]] & Hs); [left; right; exists b; auto using Nat.le_0_l|right; eauto].
  - intros ref rules Href. unfold roleOf in Href. apply bind_Some in Href as (tier & Ht & Hx).
    destruct ref as [kind name]. cbn in *.
    assert (name ∈ sortedNames tier) as Hin by (apply elem_of_sortedNames; eauto).
    apply tierOf_cases in Ht as [[-> ->]|[-> ->]].
    + destruct (R1 name Hin) as (role & Hrole & Hc). rewrite Hx in Hc. exists role.
      split; [by rewrite F2|]. by apply compiledAs_more.
    + destruct (R2 name Hin) as (role & Hrole & Hc). rewrite Hx in Hc. eauto.
  - intros c [Hc|Hc]%elem_of_app; [apply A1 in Hc|apply A2 in Hc];
      destruct Hc as (name & rule & id & i & [rules Hn]%elem_of_sortedNames & Hrule & ->);
      rewrite Hn in Hrule; [exists "ClusterRole", (ClusterRoles p)|exists "Role", (Roles p)];
      exists name, rules, rule, id, i; done.
Qed.

(** ** Compiled rules mean what the document says *)

Lemma ruleAllows_spec def r owner member cluster id i rule :
  (∀ c, c ∈ When rule → ∃ node, UnmarshalYAML node = Some c) →
  ruleAllows def r owner member cluster (compileRule id i rule) ↔
  (ResourceNames rule = [] ∨ rc_Name r ∈ ResourceNames rule ∧ rc_Name r ≠ "") ∧
  Forall (conditionHolds r owner member) (When rule) ∧
  (a_Verb def = "transfer" →
   (owner = true ∨ cluster = true ∧ When rule = []) ∧ (member = true ∨ When rule = [])).
Proof.
  intros Hdec. unfold ruleAllows, compileRule. cbn [cr_names cr_conditions].
  destruct (conditionsMatch_spec (When rule) r owner member Hdec) as (b & -> & Hb).
  assert ((list_to_set (ResourceNames rule) : gset string) = ∅ ↔ ResourceNames rule = []) as Hn.
  { destruct (ResourceNames rule); split; try done; set_solver. }
  rewrite Hn, elem_of_list_to_set, <- Hb.
  assert (Some b = Some true ↔ b = true) as -> by naive_solver.
  assert (transferRefused def owner member cluster
    (isNil ((λ c, (c, list_to_set (Values c) : gset string)) <$> When rule)) = false ↔
    (a_Verb def = "transfer" →
     (owner = true ∨ cluster = true ∧ When rule = []) ∧ (member = true ∨ When rule = []))) as ->; [|done].
  unfold transferRefused. rewrite (bool_decide_decide (a_Verb def = "transfer")).
  destruct (decide (a_Verb def = "transfer")); [|naive_solver].
  destruct (When rule), owner, member, cluster; simpl; naive_solver.
Qed.

Lemma covered_actions rule rule' action def :
  validated rule rule' → def ∈ authorizationActions ∧ a_Action def = action →
  action ∈ a_Action <$> actions rule' ↔ ruleCovers (Resources rule) (Verbs rule) def.
Proof.
  intros (acts & Ha & -> & _) [Hdef Eact]. cbn [setActions actions].
  rewrite list_elem_of_fmap. split.
  - intros (a & -> & Hin). apply (ExpandActions_covers _ _ _ a Ha) in Hin as [Hreg Hc].
    by rewrite (action_unique def a).
  - intros Hc. exists def. split; [done|]. by apply (ExpandActions_covers _ _ _ def Ha).
Qed.

Lemma outOfScope_spec def r roles cluster tier i b :
  (cluster = false → ∃ ns, b_Namespace b = Some ns ∧ ns ≠ "") →
  outOfScope def r (compileBinding roles cluster tier i b) = false ↔
  (cluster = false → a_Scope def = "namespace" ∧
     ∃ ns, b_Namespace b = Some ns ∧ ns ≠ "" ∧ attrText r "namespace" = Some ns).
Proof.
  intros Hns. unfold outOfScope, namespaceOf, compileBinding. cbn [cb_cluster cb_namespace].
  destruct cluster; cbn [negb andb]; [done|]. destruct (Hns eq_refl) as (ns & -> & Hne). cbn [default].
  rewrite !orb_false_iff, negb_false_iff, negb_false_iff, bool_decide_eq_false, !bool_decide_eq_true.
  destruct (attrText r "namespace") as [v|]; simpl; naive_solver.
Qed.

Lemma roleOf_validated p0 p ref :
  policyValid p0 p → option_Forall2 (Forall2 validated) (roleOf p0 ref) (roleOf p ref).
Proof.
  intros [Hc Hr _ _ _ _ _ _ _]. unfold roleOf, tierOf.
  repeat case_bool_decide; cbn [mbind option_bind]; [apply Hc|apply Hr|constructor].
Qed.
Lemma decoded_validated p0 p : policyValid p0 p → conditionsDecoded p0 → conditionsDecoded p.
Proof.
  intros [Hc Hr _ _ _ _ _ _ _] Hdec kind tier name rules rule c Ht Hn Hin Hw.
  assert (∃ tier0, tierOf p0 kind = Some tier0 ∧ tierValidated tier0 tier) as (tier0 & Ht0 & Hv).
  { apply tierOf_cases in Ht as [[-> ->]|[-> ->]]; eauto. }
  specialize (Hv name). rewrite Hn in Hv. inversion Hv as [? ? HF E0 E1|]; subst.
  apply list_elem_of_lookup_1 in Hin as [j Hj].
  destruct (Forall2_lookup_r _ _ _ _ _ HF Hj) as (rule0 & Hj0 & acts & _ & -> & _).
  eapply (Hdec kind tier0 name _ rule0 c); [done|by rewrite <- E0| |done].
  by eapply list_elem_of_lookup_2.
Qed.

Section exact.
Context (p0 p : Policy) (Hvalid : policyValid p0 p) (Hdec : conditionsDecoded p0).
Context (snap : compiledPolicy) (all : list compiledRule) (roles : gmap RoleRef compiledRole).
Context (Hok : compiledOk p snap all roles).
Context (action : string) (def : ActionDefinition).
Context (Hact : def ∈ authorizationActions ∧ a_Action def = action).
Context (r : ResourceContext) (owner member : bool).

(** The binding at a position, with the tier it is in. *)
Lemma binding_at id cb : cp_bindings snap !! id = Some cb →
  ∃ cluster tier i b, cb = compileBinding roles cluster tier i b ∧
    (ClusterRoleBindings p ++ RoleBindings p) !! id = Some b ∧
    is_Some (roleOf p (b_RoleRef b)) ∧
    (cluster = true ∧ b ∈ ClusterRoleBindings p ∨ cluster = false ∧ b ∈ RoleBindings p) ∧
    (cluster = false → ∃ ns, b_Namespace b = Some ns ∧ ns ≠ "").
Proof using Hok Hvalid.
  destruct Hvalid as [_ _ _ _ _ _ _ Hcb Hrb]. rewrite (ok_bindings _ _ _ _ Hok).
  rewrite lookup_app_Some, length_imap, !list_lookup_imap. intros [H|[Hle H]].
  - destruct (ClusterRoleBindings p !! id) as [b|] eqn:E; [|done]. injection H as <-.
    exists true, "clusterRoleBindings", id, b. pose proof (list_elem_of_lookup_2 _ _ _ E).
    split_and!; [done|by apply lookup_app_l_Some|by apply Hcb|by left|done].
  - destruct (RoleBindings p !! _) as [b|] eqn:E; [|done]. injection H as <-.
    exists false, "roleBindings", (id - length (ClusterRoleBindings p)), b.
    pose proof (list_elem_of_lookup_2 _ _ _ E) as Hin. destruct (Hrb b Hin).
    split_and!; [done|by rewrite lookup_app_r by lia|done|by right|done].
Qed.

Lemma compiled_numbered : numbered snap all ∧ linked snap.
Proof using Hok Hvalid.
  split.
  - intros id cb role act c (cluster & tier & i & b & -> & _ & [rules Hr] & _)%binding_at Hrole Hc.
    destruct (ok_roles _ _ _ _ Hok _ _ Hr) as (role' & Hrole' & n & -> & Hall).
    cbn in Hrole. rewrite Hrole' in Hrole. injection Hrole as <-.
    apply compileRules_spec in Hc as [Hc|(j & rule & Hj & _ & ->)].
    + rewrite lookup_empty in Hc. by apply not_elem_of_nil in Hc.
    + by apply Hall.
  - intros id cb (cluster & tier & i & b & -> & _ & [rules Hr] & _)%binding_at.
    destruct (ok_roles _ _ _ _ Hok _ _ Hr) as (role & Hrole & _). by exists role.
Qed.

Lemma compiled_decodable : decodable r owner member all.
Proof using Hok Hvalid Hdec.
  intros c (kind & tier & name & rules & rule & id & i & Ht & Hn & Hin & ->)%(ok_all _ _ _ _ Hok).
  cbn [compileRule cr_conditions].
  destruct (conditionsMatch_spec (When rule) r owner member) as (b & -> & _); [|by eexists].
  intros c Hc. by eapply (decoded_validated p0 p Hvalid Hdec).
Qed.

(** The rules of a compiled role that apply to the action and grant it. *)
Lemma role_allows cluster rules role ref :
  roleOf p ref = Some rules → compiledAs all rules role →
  (∃ c, c ∈ default [] (role !! action) ∧ ruleAllows def r owner member cluster c) ↔
  ∃ role0 rule, roleOf p0 ref = Some role0 ∧ rule ∈ role0 ∧ ruleGrants def r owner member cluster rule.
Proof using Hvalid Hdec Hact.
  intros Hr (n & -> & Hall). pose proof (roleOf_validated p0 p ref Hvalid) as HF.
  rewrite Hr in HF. inversion HF as [rules0 ? HFr E0 E1|]; subst.
  assert (∀ j rule0 rule, rules0 !! j = Some rule0 → rules !! j = Some rule →
    ∀ c, c ∈ When rule → ∃ node, UnmarshalYAML node = Some c) as Hdc.
  { intros j rule0 rule _ Hj c Hc. unfold roleOf in Hr. apply bind_Some in Hr as (tier & Ht & Hx).
    eapply (decoded_validated p0 p Hvalid Hdec); [done|done|by eapply list_elem_of_lookup_2|done]. }
  split.
  - intros (c & Hc & Ha). apply compileRules_spec in Hc as [Hc|(j & rule & Hj & Hact' & ->)].
    { rewrite lookup_empty in Hc. by apply not_elem_of_nil in Hc. }
    destruct (Forall2_lookup_r _ _ _ _ _ HFr Hj) as (rule0 & Hj0 & Hval).
    exists rules0, rule0. split_and!; [done|by eapply list_elem_of_lookup_2|].
    apply (covered_actions _ _ _ _ Hval Hact) in Hact'.
    apply ruleAllows_spec in Ha; [|by eapply Hdc]. destruct Hval as (acts & _ & -> & _). by split.
  - intros (role0 & rule0 & [= <-] & Hin & Hcov & Hg).
    apply list_elem_of_lookup_1 in Hin as [j Hj0].
    destruct (Forall2_lookup_l _ _ _ _ _ HFr Hj0) as (rule & Hj & Hval).
    exists (compileRule (n + j) j rule). split.
    + apply compileRules_spec. right. exists j, rule. split_and!; [done| |done].
      by apply (covered_actions _ _ _ _ Hval Hact).
    + apply ruleAllows_spec; [by eapply Hdc|]. by destruct Hval as (acts & _ & -> & _).
Qed.

Lemma binding_allows cluster tier i b :
  is_Some (roleOf p (b_RoleRef b)) → (cluster = false → ∃ ns, b_Namespace b = Some ns ∧ ns ≠ "") →
  bindingAllows def action r owner member (compileBinding roles cluster tier i b) ↔
  (∃ role rule, roleOf p0 (b_RoleRef b) = Some role ∧ rule ∈ role ∧
     ruleGrants def r owner member cluster rule) ∧
  (cluster = false → a_Scope def = "namespace" ∧
     ∃ ns, b_Namespace b = Some ns ∧ ns ≠ "" ∧ attrText r "namespace" = Some ns).
Proof using Hok Hvalid Hdec Hact.
  intros [rules Hr] Hns. destruct (ok_roles _ _ _ _ Hok _ _ Hr) as (role & Hrole & Hc).
  rewrite <- (role_allows cluster rules role _ Hr Hc), <- (outOfScope_spec def r roles cluster tier i b Hns).
  unfold bindingAllows. cbn [compileBinding cb_role cb_cluster]. rewrite Hrole. split.
  - intros (role' & c & [= <-] & Hin & Hs & Ha). split; [by exists c|done].
  - intros [(c & Hin & Ha) Hs]. by exists role, c.
Qed.

Lemma candidates_spec subjects :
  wordsWf 16 (candidatesOf snap subjects) ∧
  ∀ id, bit (candidatesOf snap subjects) id = true ↔
    ∃ b s, (ClusterRoleBindings p ++ RoleBindings p) !! id = Some b ∧ s ∈ b_Subjects b ∧ s ∈ subjects.
Proof using Hok.
  clear -Hok. unfold candidatesOf. assert (∀ acc, wordsWf 16 acc →
    wordsWf 16 (foldl (λ acc s, unionWords acc (default emptyBindings (cp_bySubject snap !! s))) acc subjects) ∧
    ∀ id, bit (foldl (λ acc s, unionWords acc (default emptyBindings (cp_bySubject snap !! s))) acc subjects) id
      = true ↔ bit acc id = true ∨
      ∃ b s, (ClusterRoleBindings p ++ RoleBindings p) !! id = Some b ∧ s ∈ b_Subjects b ∧ s ∈ subjects) as H.
  { induction subjects as [|s subjects IH]; intros acc Hacc; cbn [foldl]; [split; [done|set_solver]|].
    destruct (unionWords_spec 16 acc _ Hacc (ok_words _ _ _ _ Hok s)) as [Hwf Hbit].
    destruct (IH _ Hwf) as [Hwf' Hbit']. split; [done|]. intros id.
    rewrite Hbit', Hbit, orb_true_iff, (ok_subjects _ _ _ _ Hok). setoid_rewrite elem_of_cons. split.
    - intros [[?|(b & Hb & Hs)]|(b & s' & Hb & Hs & Hin)]; [by left|right; exists b, s; auto|].
      right. exists b, s'. auto.
    - intros [?|(b & s' & Hb & Hs & [->|Hin])]; [by left; left|left; right; eauto|right; eauto]. }
  destruct (replicate_wf 16) as [Hz Hz0]. destruct (H emptyBindings Hz) as [H1 H2].
  split; [done|]. intros id. rewrite H2. unfold emptyBindings in *.
  change ((maxPolicyBindings + 63) / 64) with 16. rewrite Hz0.
  split; [by intros [?|?]|auto].
Qed.

Lemma scan_exact subjects :
  ∃ s, scanWords snap def action r owner member 0 (candidatesOf snap subjects) emptyVisited
         "no matching binding" = Some s ∧
    match s with
    | Stop d => policyGrants def r owner member p0 subjects ∧ d_Outcome d = OutcomeAllow ∧
                d_PolicyDigest d = digest p0
    | Go _ _ => ¬ policyGrants def r owner member p0 subjects
    end.
Proof using Hok Hvalid Hdec Hact.
  destruct (candidates_spec subjects) as [[_ Hw] Hbit]. destruct compiled_numbered as [Hnum Hlink].
  rewrite scanWords_ids by done.
  destruct (scanIds_spec snap def action r owner member all (idsOf 0 (candidatesOf snap subjects))
    (ok_rules _ _ _ _ Hok) compiled_decodable Hnum Hlink emptyVisited "no matching binding")
    as (s & Hs & H).
  { intros id [_ Hb]%elem_of_idsOf. rewrite Nat.sub_0_r in Hb. apply Hbit in Hb as (b & s & Hb & _).
    apply lookup_lt_Some in Hb. rewrite (ok_bindings _ _ _ _ Hok), length_app, !length_imap.
    by rewrite length_app in Hb. }
  { split; [apply replicate_wf|]. intros k c _ _. unfold emptyVisited.
    by rewrite (proj2 (replicate_wf _)). }
  exists s. split; [done|].
  assert ((∃ id b, id ∈ idsOf 0 (candidatesOf snap subjects) ∧ cp_bindings snap !! id = Some b ∧
    bindingAllows def action r owner member b) ↔ policyGrants def r owner member p0 subjects) as Hiff.
  { pose proof (valid_cbs _ _ Hvalid) as Ecb. pose proof (valid_rbs _ _ Hvalid) as Erb.
    unfold policyGrants, bindingGrants. split.
    - intros (id & cb & [_ Hid]%elem_of_idsOf & Hcb & Ha). rewrite Nat.sub_0_r in Hid.
      destruct (binding_at _ _ Hcb) as (cluster & tier & i & b & -> & Hb & Hr & Hin & Hns).
      apply Hbit in Hid as (b' & s' & Hb' & Hsb & Hss). rewrite Hb in Hb'. injection Hb' as <-.
      apply binding_allows in Ha as [Hg Hsc]; [|done..]. rewrite <- Ecb, <- Erb.
      destruct Hin as [[-> Hin]|[-> Hin]]; [left|right]; exists b; split_and!; eauto.
    - rewrite <- Ecb, <- Erb. intros H'.
      assert (∃ cluster b id tier i, (ClusterRoleBindings p ++ RoleBindings p) !! id = Some b ∧
        cp_bindings snap !! id = Some (compileBinding roles cluster tier i b) ∧
        bindingGrants def r owner member p0 subjects cluster b)
        as (cluster & b & id & tier & i & Hb & Hcb & (s' & Hsb & Hss) & Hg & Hsc).
      { rewrite (ok_bindings _ _ _ _ Hok).
        destruct H' as [(b & [j Hj]%list_elem_of_lookup_1 & Hg)|(b & [j Hj]%list_elem_of_lookup_1 & Hg)].
        - exists true, b, j, "clusterRoleBindings", j. split_and!; [by apply lookup_app_l_Some| |done].
          apply lookup_app_l_Some. by rewrite list_lookup_imap, Hj.
        - exists false, b, (length (ClusterRoleBindings p) + j), "roleBindings", j. split_and!; [| |done].
          + rewrite lookup_app_r by lia. by replace (_ + j - _) with j by lia.
          + rewrite lookup_app_r by (rewrite length_imap; lia). rewrite length_imap.
            replace (_ + j - _) with j by lia. by rewrite list_lookup_imap, Hj. }
      exists id, (compileBinding roles cluster tier i b). split_and!; [|done|].
      + apply elem_of_idsOf. rewrite Nat.sub_0_r. split; [lia|]. apply Hbit. eauto.
      + destruct (binding_at _ _ Hcb) as (cl & tr & i' & b' & E & Hb' & Hr & _ & Hns).
        rewrite Hb in Hb'. injection Hb' as <-. injection E as _ <-. by apply binding_allows. }
  destruct s as [d|v t]; simpl in H; [|tauto].
  rewrite (ok_digest _ _ _ _ Hok), (valid_digest _ _ Hvalid) in H. tauto.
Qed.
End exact.

(** The request is well formed: the action is registered for the kind of the
    resource, the principal is acceptable, and a transfer names its target. *)
Definition requestValid (principal : option Principal) (action : string) (r : ResourceContext)
    (def : ActionDefinition) (pr : Principal) (subjects : list SubjectRef) (target : string) : Prop :=
  LookupAction action = Some def ∧ principal = Some pr ∧ principalSubjects principal = Some subjects ∧
  rc_Kind r = a_Kind def ∧ (length_ (rc_Name r) ≤ 256)%Z ∧ (length_ (rc_OwnerSub r) ≤ 256)%Z ∧
  targetFor def r = Some target.

(** A request is allowed. *)
Definition grantedBy (p0 : Policy) (principal : option Principal) (action : string)
    (r : ResourceContext) : Prop :=
  ∃ def pr subjects target, requestValid principal action r def pr subjects target ∧
    ("system:masters" ∈ Groups pr ∨
     policyGrants def r (ownerMatches (rc_OwnerSub r) pr) (ownerMatches target pr) p0 subjects).

Lemma Authorize_decides p0 p snap all roles principal action r :
  policyValid p0 p → conditionsDecoded p0 → compiledOk p snap all roles →
  ∃ d, Authorize (Some snap) principal action r = Some d ∧ d_PolicyDigest d = digest p0 ∧
    d_Outcome d ≠ OutcomeChallenge ∧ (d_Outcome d = OutcomeAllow ↔ grantedBy p0 principal action r).
Proof.
  intros Hv Hdec Hok. unfold grantedBy.
  assert (cp_digest snap = digest p0) as Edig
    by (rewrite (ok_digest _ _ _ _ Hok); apply (valid_digest _ _ Hv)).
  unfold Authorize, requestValid.
  destruct (LookupAction action) as [def|] eqn:Ha;
    [|clear Ha; eexists; split; [done|]; naive_solver].
  apply LookupAction_spec in Ha.
  destruct principal as [pr|]; [|eexists; split; [done|]; naive_solver].
  destruct (principalSubjects (Some pr)) as [subjects|]; [|eexists; split; [done|]; naive_solver].
  destruct (negb _ || _ || _) eqn:Eb.
  { eexists. split; [done|]. split_and!; [done..|]. split; [done|].
    intros (def' & pr' & ss & t & ([= <-] & _ & _ & Hk & Hn & Ho & _) & _). exfalso.
    apply orb_true_iff in Eb as [[Eb|Eb]%orb_true_iff|Eb]; [|apply Z.ltb_lt in Eb; lia..].
    by rewrite bool_decide_eq_true_2 in Eb. }
  rewrite !orb_false_iff, negb_false_iff, bool_decide_eq_true, !Z.ltb_ge in Eb.
  destruct Eb as [[Hk Hn] Ho].
  destruct (targetFor def r) as [target|] eqn:Et.
  2:{ eexists. split; [done|]. split_and!; [done..|]. split; [done|].
      intros (def' & pr' & ss & t & ([= <-] & _ & _ & _ & _ & _ & Ht) & _). congruence. }
  case_bool_decide as Hm.
  { eexists. split; [done|]. split_and!; [done..|]. split; [|done]. intros _.
    exists def, pr, subjects, target. auto 10. }
  destruct (scan_exact p0 p Hv Hdec snap all roles Hok action def Ha r (ownerMatches (rc_OwnerSub r) pr)
    (ownerMatches target pr) subjects) as (s & -> & Hs). cbn [mbind option_bind].
  destruct s as [d|v t]; eexists; (split; [done|]).
  - destruct Hs as (Hg & Hout & Hd). rewrite Hout. split_and!; [done..|]. split; [|done]. intros _.
    exists def, pr, subjects, target. auto 10.
  - split_and!; [done..|]. split; [done|].
    intros (def' & pr' & ss & t' & ([= <-] & [= <-] & [= <-] & _ & _ & _ & Ht) & [?|Hg]); [done|].
    rewrite Et in Ht. injection Ht as <-. done.
Qed.


(** C35: the evaluator decides exactly by the policy. A validated policy
    compiles, and every request gets a decision, without an index out of range
    or a nil pointer; the decision is to allow exactly if the request is well
    formed and its principal is a master, or some binding of one of its
    subjects has a rule that covers the action and whose names, conditions,
    scope and transfer constraint the request meets. *)
Theorem Authorize_exact p0 p :
  validatePolicy p0 = Ok p → conditionsDecoded p0 →
  ∃ snap, compilePolicy p = Some snap ∧ ∀ principal action r,
  ∃ d, Authorize (Some snap) principal action r = Some d ∧ d_PolicyDigest d = digest p0 ∧
    d_Outcome d ≠ OutcomeChallenge ∧ (d_Outcome d = OutcomeAllow ↔ grantedBy p0 principal action r).
Proof.
  intros Hv%validatePolicy_valid Hdec.
  destruct (compilePolicy_ok p (valid_bindings _ _ Hv) (valid_rules _ _ Hv)) as (snap & all & roles & Hc & Hok).
  exists snap. split; [done|]. intros principal action r. by eapply Authorize_decides.
Qed.

(** ** An example *)

Definition exText (s : string) : Node := mkNode ScalarNode "!!str" s [].
Definition exOwner : Condition := mkCondition "owner" "" "" None [].
Definition exPolicy : Policy := mkPolicy PolicyAPIVersion "RbacLocalConfiguration"
  {["reader" := [mkRule ["product"; "file"] ["read"; "list"] [] [] []]]}
  {["editor" := [mkRule ["product"] ["*"] [] [exOwner] []]]}
  [mkBinding None (mkRoleRef "ClusterRole" "reader") [mkSubjectRef "Group" "system:authenticated"]]
  [mkBinding (Some "shop") (mkRoleRef "Role" "editor") [mkSubjectRef "User" "alice"]] None "digest".
Definition exAlice : Principal := mkPrincipal "alice" "" "" "" ["system:authenticated"] [] ∅
  "static-users" 0 "" "".
Definition exProduct (owner : string) : ResourceContext :=
  mkContext "product" "boot" owner {["namespace" := AString "shop"]}.

Lemma exPolicy_decoded : conditionsDecoded exPolicy.
Proof.
  intros kind tier name rules rule c [[_ ->]|[_ ->]]%tierOf_cases; cbn;
    intros [<- <-]%lookup_singleton_Some ->%list_elem_of_singleton; cbn.
  - intros H. by apply not_elem_of_nil in H.
  - intros ->%list_elem_of_singleton. by exists (exText "owner").
Qed.

(** Alice may delete her own product and nobody else's. *)
Lemma Authorize_exact_witness :
  ∃ p snap, validatePolicy exPolicy = Ok p ∧ compilePolicy p = Some snap ∧
  (∃ d, Authorize (Some snap) (Some exAlice) "product.delete" (exProduct "alice") = Some d ∧
     d_Outcome d = OutcomeAllow ∧ d_PolicyDigest d = "digest") ∧
  (∃ d, Authorize (Some snap) (Some exAlice) "product.delete" (exProduct "bob") = Some d ∧
     d_Outcome d = OutcomeDeny).
Proof.
  assert (∃ p, validatePolicy exPolicy = Ok p) as [p Hp] by (eexists; vm_compute; reflexivity).
  destruct (Authorize_exact exPolicy p Hp exPolicy_decoded) as (snap & Hc & H).
  exists p, snap. split; [exact Hp|]. split; [exact Hc|].
  destruct (H (Some exAlice) "product.delete" (exProduct "alice")) as (d & Hd & Hdig & _ & _).
  destruct (H (Some exAlice) "product.delete" (exProduct "bob")) as (d' & Hd' & _ & _ & _).
  vm_compute in Hp. injection Hp as <-. vm_compute in Hc. injection Hc as <-.
  split; [exists d|exists d']; (split; [assumption|]).
  - split; [|exact Hdig]. vm_compute in Hd. injection Hd as <-. reflexivity.
  - vm_compute in Hd'. injection Hd' as <-. reflexivity.
Defined.
