(* ===== verification/RbacProvider.v ===== *)
(** * The policy provider over time

    [RBACLocalProvider] of [rbaclocal/provider.go]: reloading the policy and
    installing the active users, both guarded by the check that every active
    user keeps some permission ([ValidateActiveUserPermissions] of
    [auth/registry.go]). *)

From S2P Require Import Prelude Entities Auth RbacPolicy RbacEval RbacLaws RbacExact.
From Stdlib Require Import Ascii.

(** ** Satisfiable grants *)

(** A loop that stops at the first [true]; [None] is a panic. *)
Fixpoint anyM {A} (f : A → option bool) (l : list A) : option bool :=
  match l with
  | [] => Some false
  | x :: l => b ← f x; if (b : bool) then Some true else anyM f l
  end.

(** The bits of a word in the order the loop takes them. *)
Fixpoint wordBits (fuel : nat) (x : Z) : list nat :=
  match fuel with
  | 0 => []
  | S fuel => if (x =? 0)%Z then [] else TrailingZeros64 x :: wordBits fuel (Z.land x (x - 1))
  end.

Definition attributes : list string := ["namespace"; "tier"; "visibility"].
Definition conditionValues (attribute : string) (cs : list (Condition * gset string)) : list string :=
  '(c, _) ← cs;
  if bool_decide (Attr c = attribute)
  then match Value c with Some v => [v] | None => [] end ++ Values c else [].
Definition choicesFor (b : compiledBinding) (c : compiledRule) (attribute : string) : list string :=
  if bool_decide (attribute = "namespace") && negb (cb_cluster b) then [cb_namespace b] else
  if bool_decide (attribute = "visibility") then ["public"; "internal"; "private"] else
  if bool_decide (attribute = "tier") then ["USER"; "ORGANIZATION"] else
  ["__other__"; "USER"; "ORGANIZATION"; "public"; "private"; "internal"] ++
  conditionValues attribute (cr_conditions c).

(** The conditions on the attribute hold, taking the principal for the owner. *)
Fixpoint satisfies (attribute : string) (attrs : gmap string Any) (cs : list (Condition * gset string))
  : option bool :=
  match cs with
  | [] => Some true
  | c :: cs =>
      if negb (bool_decide (Attr c.1 = attribute)) then satisfies attribute attrs cs else
      m ← conditionMatches c (mkContext "" "" "" attrs) true true;
      if (m : bool) then satisfies attribute attrs cs else Some false
  end.
(** The first choice that satisfies them, with the attributes as it leaves them. *)
Fixpoint tryChoices (attribute : string) (attrs : gmap string Any) (cs : list (Condition * gset string))
    (choices : list string) : option (option (gmap string Any)) :=
  match choices with
  | [] => Some None
  | v :: choices =>
      let attrs := <[attribute := AString v]> attrs in
      ok ← satisfies attribute attrs cs;
      if (ok : bool) then Some (Some attrs) else tryChoices attribute attrs cs choices
  end.
Fixpoint tryAttributes (b : compiledBinding) (c : compiledRule) (attrs : gmap string Any)
    (names : list string) : option (option (gmap string Any)) :=
  match names with
  | [] => Some (Some attrs)
  | a :: names =>
      found ← tryChoices a attrs (cr_conditions c) (choicesFor b c a);
      match found with
      | None => Some None
      | Some attrs => tryAttributes b c attrs names
      end
  end.

Definition zeroAction : ActionDefinition := mkAction "" "" "" "" "" false.
Definition rulePossible (b : compiledBinding) (def : ActionDefinition) (c : compiledRule) : option bool :=
  if (bool_decide (a_Verb def = "list") || bool_decide (a_Verb def = "watch")) &&
     negb (bool_decide (cr_names c = ∅)) then Some false else
  found ← tryAttributes b c
            (if cb_cluster b then ∅ else {["namespace" := AString (cb_namespace b)]}) attributes;
  Some (match found with Some _ => true | None => false end).
Definition actionPossible (b : compiledBinding) (entry : string * list compiledRule) : option bool :=
  let def := default zeroAction (LookupAction entry.1) in
  if negb (cb_cluster b) && bool_decide (a_Scope def = "cluster") then Some false
  else anyM (rulePossible b def) entry.2.
Definition bindingPossible (snap : compiledPolicy) (id : nat) : option bool :=
  b ← cp_bindings snap !! id;
  role ← cb_role b;
  anyM (actionPossible b) (map_to_list role).

Definition hasEffectivePermission (snapshot : option compiledPolicy) (principal : option Principal)
  : option bool :=
  match principalSubjects principal, snapshot with
  | Some subjects, Some snap =>
      anyM (λ s, anyM (λ wx, anyM (λ bit, bindingPossible snap (wx.1 * 64 + bit)) (wordBits 65 wx.2))
                   (imap pair (default emptyBindings (cp_bySubject snap !! s)))) subjects
  | _, _ => Some false
  end.

(** ** The provider *)

Record UserProfile : Type := mkUser {
  u_Subject : string;
  u_DisplayName : string;
  u_Email : string;
  u_Groups : list string;
  u_Active : bool;
}.
Definition localPrincipal (u : UserProfile) : Principal :=
  mkPrincipal (u_Subject u) "" "" "" (u_Groups u ++ ["system:authenticated"]) [] ∅ "static-users" 0 "" "".

(** [Some (Some subject)] names the first active user without a permission. *)
Fixpoint ValidateActiveUserPermissions (snapshot : option compiledPolicy)
    (users : list (option UserProfile)) : option (option string) :=
  match users with
  | [] => Some None
  | None :: users => ValidateActiveUserPermissions snapshot users
  | Some u :: users =>
      if negb (u_Active u) then ValidateActiveUserPermissions snapshot users else
      ok ← hasEffectivePermission snapshot (Some (localPrincipal u));
      if (ok : bool) then ValidateActiveUserPermissions snapshot users else Some (Some (u_Subject u))
  end.

Record RBACLocalProvider : Type := mkRbac {
  pv_snapshot : option compiledPolicy;
  pv_activeUsers : list (option UserProfile);
}.
Inductive ReloadError : Type := LoadFailed | IneffectiveUser (subject : string).

(** [Reload], given what loading the policy file gives; a rejected policy
    leaves the provider as it was. *)
Definition Reload (p : RBACLocalProvider) (loaded : option Policy)
  : option (RBACLocalProvider * option ReloadError) :=
  match loaded with
  | None => Some (p, Some LoadFailed)
  | Some policy =>
      candidate ← compilePolicy policy;
      bad ← ValidateActiveUserPermissions (Some candidate) (pv_activeUsers p);
      Some (match bad with
            | Some u => (p, Some (IneffectiveUser u))
            | None => (mkRbac (Some candidate) (pv_activeUsers p), None)
            end)
  end.
Definition SetActiveUsers (p : RBACLocalProvider) (users : list (option UserProfile))
  : option (RBACLocalProvider * option ReloadError) :=
  bad ← ValidateActiveUserPermissions (pv_snapshot p) users;
  Some (match bad with
        | Some u => (p, Some (IneffectiveUser u))
        | None => (mkRbac (pv_snapshot p) (filter (λ u, is_Some u) users), None)
        end).

(** The end of [parsePolicy]: what was decoded is validated, completed and
    labelled with the digest of the file. *)
Definition finishPolicy (dg : string) (p : Policy) : Policy :=
  mkPolicy (APIVersion p) (Kind p) (ClusterRoles p) (Roles p) (ClusterRoleBindings p) (RoleBindings p)
    (Some (default true (DefaultDeny p))) dg.
Definition parsePolicy (dg : string) (decoded : Policy) : result PolicyError Policy :=
  bind_result (validatePolicy decoded) (λ p, Ok (finishPolicy dg p)).

(** ** What the check finds *)

Lemma anyM_true {A} (f : A → option bool) l :
  anyM f l = Some true → ∃ x, x ∈ l ∧ f x = Some true.
Proof.
  induction l as [|x l IH]; cbn; [done|]. destruct (f x) as [[]|] eqn:E; cbn; [|intros H|done].
  - intros _. exists x. split; [by left|done].
  - destruct (IH H) as (y & Hy & Hf). exists y. split; [by right|done].
Qed.
Lemma anyM_total {A} (f : A → option bool) l :
  (∀ x, x ∈ l → is_Some (f x)) → is_Some (anyM f l).
Proof.
  induction l as [|x l IH]; intros H; cbn; [by eexists|].
  destruct (H x) as [b ->]; [by left|]. destruct b; cbn; [by eexists|]. apply IH. intros y Hy.
  apply H. by right.
Qed.

Lemma wordBits_spec fuel : ∀ x, word64 x → length (bitsOf x) < fuel → wordBits fuel x = bitsOf x.
Proof.
  induction fuel as [|fuel IH]; intros x Hx Hf; [lia|]. cbn [wordBits].
  destruct (Z.eqb_spec x 0) as [->|Hne]; [done|]. destruct (bitsOf_step x Hx Hne) as [E Hx'].
  rewrite E in *. f_equal. apply IH; [done|]. cbn [length] in Hf. lia.
Qed.

(** Scanning a set of words finds a number in it for which the test is true. *)
Lemma anyM_words (f : nat → option bool) n ws :
  wordsWf n ws → anyM (λ wx, anyM (λ b, f (wx.1 * 64 + b)) (wordBits 65 wx.2)) (imap pair ws) = Some true →
  ∃ id, bit ws id = true ∧ f id = Some true.
Proof.
  intros [_ Hw] H. apply anyM_true in H as ([w x] & Hin & H).
  apply list_elem_of_lookup in Hin as [i Hi]. rewrite list_lookup_imap in Hi.
  destruct (ws !! i) as [y|] eqn:Ey; [|done]. injection Hi as <- <-.
  apply anyM_true in H as (b & Hb & Hf). cbn [fst snd] in *. pose proof (Forall_lookup_1 _ _ _ _ Hw Ey) as Hy.
  rewrite wordBits_spec in Hb; [|done|].
  - apply elem_of_bitsOf in Hb as [Hb Hlt]. exists (i * 64 + b). split; [|done]. unfold bit.
    replace ((i * 64 + b) / 64) with i by (rewrite Nat.add_comm, Nat.div_add, Nat.div_small; lia).
    rewrite Ey. replace ((i * 64 + b) mod 64) with b; [done|].
    rewrite Nat.add_comm, Nat.Div0.mod_add, Nat.mod_small; lia.
  - unfold bitsOf. eapply Nat.le_lt_trans; [apply length_filter|]. rewrite length_seq. lia.
Qed.

Lemma conditionMatches_attr c k n s k' n' s' attrs attrs' :
  attrs !! Attr c.1 = attrs' !! Attr c.1 →
  conditionMatches c (mkContext k n s attrs) true true = conditionMatches c (mkContext k' n' s' attrs') true true.
Proof.
  intros E. destruct c as [c vs]. unfold conditionMatches, attrText. cbn [rc_Attrs].
  cbn [fst] in E. by rewrite E.
Qed.
Lemma satisfies_true a attrs cs : satisfies a attrs cs = Some true ↔
  ∀ c, c ∈ cs → Attr c.1 = a → conditionMatches c (mkContext "" "" "" attrs) true true = Some true.
Proof.
  induction cs as [|c cs IH]; cbn [satisfies]; [split; [intros _ c H; by apply not_elem_of_nil in H|done]|].
  case_bool_decide as Ha; cbn [negb].
  - destruct (conditionMatches c _ true true) as [[]|] eqn:E; cbn [mbind option_bind].
    + rewrite IH. split; [|intros H d Hd; apply H; by right].
      intros H d [->|Hd]%elem_of_cons Hda; [done|by apply H].
    + split; [done|]. intros H. rewrite <- E. apply H; [by left|done].
    + split; [done|]. intros H. rewrite <- E. apply H; [by left|done].
  - rewrite IH. split; [|intros H d Hd; apply H; by right].
    intros H d [->|Hd]%elem_of_cons Hda; [done|by apply H].
Qed.
Lemma satisfies_attr a attrs attrs' cs :
  attrs !! a = attrs' !! a → satisfies a attrs cs = satisfies a attrs' cs.
Proof.
  intros E. induction cs as [|c cs IH]; cbn [satisfies]; [done|]. case_bool_decide as Ha; cbn [negb]; [|done].
  rewrite (conditionMatches_attr c "" "" "" "" "" "" attrs attrs') by (by rewrite Ha).
  destruct (conditionMatches _ _ _ _) as [[]|]; cbn; auto.
Qed.
Lemma tryChoices_found a cs choices : ∀ attrs attrs', tryChoices a attrs cs choices = Some (Some attrs') →
  satisfies a attrs' cs = Some true ∧ (∃ v, v ∈ choices ∧ attrs' !! a = Some (AString v)) ∧
  ∀ k, k ≠ a → attrs' !! k = attrs !! k.
Proof.
  induction choices as [|v choices IH]; intros attrs attrs'; cbn [tryChoices]; [done|].
  destruct (satisfies a _ cs) as [[]|] eqn:E; cbn [mbind option_bind]; [| |done].
  - intros [= <-]. split_and!; [done| |intros k Hk; by apply lookup_insert_ne].
    exists v. split; [by left|apply lookup_insert_eq].
  - intros (H1 & (w & Hw & H2) & H3)%IH. split_and!; [done|exists w; split; [by right|done]|].
    intros k Hk. rewrite H3 by done. by apply lookup_insert_ne.
Qed.
Lemma tryAttributes_found b c names : ∀ attrs attrs', NoDup names →
  tryAttributes b c attrs names = Some (Some attrs') →
  (∀ a, a ∈ names → satisfies a attrs' (cr_conditions c) = Some true ∧
     ∃ v, v ∈ choicesFor b c a ∧ attrs' !! a = Some (AString v)) ∧
  ∀ k, k ∉ names → attrs' !! k = attrs !! k.
Proof.
  induction names as [|a names IH]; intros attrs attrs' Hnd; cbn [tryAttributes].
  { intros [= <-]. split; [|done]. intros a H. by apply not_elem_of_nil in H. }
  apply NoDup_cons in Hnd as [Ha Hnd].
  destruct (tryChoices a attrs _ _) as [[attrs1|]|] eqn:E; cbn [mbind option_bind]; [|done..].
  apply tryChoices_found in E as (H1 & H2 & H3). intros [Hin Hout]%IH; [|done]. split.
  - intros x [->|Hx]%elem_of_cons; [|by apply Hin]. pose proof (Hout a Ha) as Ea.
    rewrite (satisfies_attr a attrs' attrs1) by done. split; [done|]. destruct H2 as (v & Hv & Hl).
    exists v. split; [done|congruence].
  - intros k [Hk Hk']%not_elem_of_cons. rewrite Hout by done. by apply H3.
Qed.

(** ** Permissions found are permissions held *)

(** The condition on the target of a transfer is used on transfers only. *)
Definition memberOnTransfer (p : Policy) : Prop :=
  ∀ kind roles name rules rule c a, tierOf p kind = Some roles → roles !! name = Some rules →
    rule ∈ rules → c ∈ When rule → Token c = "targetOwnerMember" → a ∈ authorizationActions →
    ruleCovers (Resources rule) (Verbs rule) a → a_Verb a = "transfer".

Lemma registered_scope a : a ∈ authorizationActions → a_Scope a = "cluster" ∨ a_Scope a = "namespace".
Proof.
  assert (Forall (λ a, a_Scope a = "cluster" ∨ a_Scope a = "namespace") authorizationActions) as H
    by (apply (bool_decide_unpack _); vm_compute; exact I).
  rewrite Forall_forall in H. apply H.
Qed.

Lemma length_validIdentifier s : validIdentifier s = true → s ≠ "" ∧ (length_ s ≤ 256)%Z.
Proof.
  unfold validIdentifier. destruct (runes s) as [rs|] eqn:E; [|done].
  rewrite andb_true_iff, Z.leb_le. intros [H ?]. split; [|done]. intros ->. by injection E as <-.
Qed.

Section possible.
Context (p0 p : Policy) (Hvalid : policyValid p0 p) (Hdec : conditionsDecoded p0).
Context (Hmember : memberOnTransfer p0).
Context (snap : compiledPolicy) (all : list compiledRule) (roles : gmap RoleRef compiledRole).
Context (Hok : compiledOk p snap all roles).

(** The conditions of a rule hold of any resource with the attributes found. *)
Lemma found_conditions cs (attrs : gmap string Any) r member :
  (∀ c, c ∈ cs → ∃ node, UnmarshalYAML node = Some c) →
  (∀ c, c ∈ cs → Token c = "targetOwnerMember" → member = true) →
  (∀ a, a ∈ attributes → rc_Attrs r !! a = attrs !! a ∧
     satisfies a attrs ((λ c, (c, list_to_set (Values c))) <$> cs) = Some true) →
  Forall (conditionHolds r true member) cs.
Proof.
  intros Hd Hm Ha. apply Forall_forall. intros c Hc. destruct (Hd c Hc) as [node Hnode].
  destruct (UnmarshalYAML_wf _ _ Hnode) as [Ht|[Ht|(Ht & Hat & _)]].
  - by left.
  - right. left. split; [done|]. by apply (Hm c).
  - destruct (Ha _ Hat) as [Er Hs]. rewrite satisfies_true in Hs.
    destruct (conditionMatches_spec c (mkContext "" "" "" attrs) true true) as (b & Eb & Hb); [eauto|].
    rewrite Hs in Eb; [|apply list_elem_of_fmap; eauto|done]. injection Eb as <-.
    destruct (proj1 Hb eq_refl) as [[Ht' _]|[[Ht' _]|(_ & v & Hv & Hrest)]]; [congruence..|].
    right. right. split; [done|]. exists v. split; [|done]. unfold attrText in *. cbn [rc_Attrs] in Hv.
    by rewrite Er.
Qed.

(** What a possible binding grants: some registered action, on every resource
    with the attributes and the name found, to its owner. *)
Lemma possible_grants id : bindingPossible snap id = Some true →
  ∃ cb action def name (attrs : gmap string Any), cp_bindings snap !! id = Some cb ∧
    def ∈ authorizationActions ∧ a_Action def = action ∧ (length_ name ≤ 256)%Z ∧
    ∀ r member, rc_Name r = name → (∀ a, a ∈ attributes → rc_Attrs r !! a = attrs !! a) →
      (a_Verb def = "transfer" → member = true) → bindingAllows def action r true member cb.
Proof using Hvalid Hdec Hmember Hok.
  unfold bindingPossible. intros (cb & Hcb & H)%bind_Some. apply bind_Some in H as (role & Hrole & H).
  apply anyM_true in H as ([action rules] & Hin & H). apply elem_of_map_to_list in Hin.
  destruct (binding_at p0 p Hvalid snap all roles Hok id cb Hcb)
    as (cluster & tier & i & b & -> & _ & [rs Hr] & _ & Hns).
  destruct (ok_roles _ _ _ _ Hok _ _ Hr) as (role' & Hrole' & n & -> & Hall).
  cbn [compileBinding cb_role] in Hrole. rewrite Hrole' in Hrole. injection Hrole as <-.
  unfold actionPossible in H. cbn [fst snd] in H.
  destruct (negb _ && _) eqn:Esc; [done|]. apply anyM_true in H as (c & Hc & H).
  assert (c ∈ default [] (compileRules n 0 ∅ rs !! action)) as Hc' by (by rewrite Hin).
  pose proof Hc' as Hc''. apply compileRules_spec in Hc'' as [Hx|(j & rule & Hj & Hact & ->)].
  { rewrite lookup_empty in Hx. destruct (not_elem_of_nil _ Hx). }
  pose proof (roleOf_validated p0 p (b_RoleRef b) Hvalid) as HF. rewrite Hr in HF.
  inversion HF as [rules0 ? HFr E0 E1|]; subst.
  destruct (Forall2_lookup_r _ _ _ _ _ HFr Hj) as (rule0 & Hj0 & Hval).
  pose proof Hval as (acts & Hexp & -> & Hnames).
  apply list_elem_of_fmap in Hact as (def & -> & Hdef). cbn [setActions actions] in Hdef.
  apply (ExpandActions_covers _ _ _ _ Hexp) in Hdef as [Hreg Hcov].
  rewrite (proj2 (LookupAction_spec (a_Action def) def) (conj Hreg eq_refl)) in H, Esc.
  cbn [default] in H, Esc.
  unfold rulePossible in H. destruct (_ && _) in H; [done|].
  apply bind_Some in H as (found & Hf & H). destruct found as [attrs|]; [|done]. clear H.
  apply tryAttributes_found in Hf as [Hf _]; [|apply (bool_decide_unpack _); vm_compute; exact I].
  pose (name := default "" (head (ResourceNames rule0))).
  assert (ResourceNames rule0 = [] ∨ name ∈ ResourceNames rule0 ∧ name ≠ "" ∧ (length_ name ≤ 256)%Z) as Hn.
  { unfold name. destruct (ResourceNames rule0) as [|x xs]; [by left|right].
    cbn in Hnames. apply andb_true_iff in Hnames as [Hx _]. apply length_validIdentifier in Hx.
    split; [by left|done]. }
  exists (compileBinding roles cluster tier i b), (a_Action def), def, name, attrs.
  split; [done|]. split; [done|]. split; [done|].
  split; [destruct Hn as [E|(_ & _ & ?)]; [unfold name; rewrite E; by vm_compute|done]|].
  intros r member Hname Hattrs Htr.
  exists (compileRules n 0 ∅ rs), (compileRule (n + j) (0 + j) (setActions acts rule0)).
  split_and!; [done|done| |].
  - apply outOfScope_spec; [done|]. intros ->. destruct (Hns eq_refl) as (ns & Ens & Hne).
    cbn in Esc. apply bool_decide_eq_false in Esc.
    split; [by destruct (registered_scope _ Hreg)|]. exists ns. split_and!; [done..|].
    destruct (Hf "namespace") as (_ & v & Hv & Hl); [by left|].
    unfold attrText. rewrite (Hattrs "namespace") by (by left). rewrite Hl.
    unfold choicesFor in Hv. cbn in Hv. rewrite Ens in Hv. cbn in Hv.
    by apply list_elem_of_singleton in Hv as ->.
  - assert (∀ x, x ∈ When rule0 → ∃ node, UnmarshalYAML node = Some x) as Hdc.
    { intros x Hx. unfold roleOf in E0. symmetry in E0. apply bind_Some in E0 as (tr & Ht & Hl).
      eapply Hdec; [done|done|by eapply list_elem_of_lookup_2|done]. }
    apply ruleAllows_spec; [done|]. cbn [setActions ResourceNames When]. split_and!.
    + rewrite Hname. destruct Hn as [?|(? & ? & _)]; auto.
    + apply (found_conditions _ attrs); [done| |].
      * intros x Hx Ht. apply Htr. unfold roleOf in E0. symmetry in E0.
        apply bind_Some in E0 as (tr & Htier & Hl).
        eapply (Hmember _ tr _ _ rule0 x); [done|done|by eapply list_elem_of_lookup_2|done..].
      * intros a Ha. split; [by apply Hattrs|]. by apply Hf.
    + intros Hv. split; [by left|left; auto].
Qed.
End possible.

(** ** Active users keep access *)

(** What the provider is given is the outcome of [parsePolicy]. *)
Definition wellParsed (loaded : option Policy) : Prop :=
  ∀ policy, loaded = Some policy → ∃ dg p0, parsePolicy dg p0 = Ok policy ∧
    conditionsDecoded p0 ∧ memberOnTransfer p0.

Inductive providerStep : RBACLocalProvider → RBACLocalProvider → Prop :=
| step_Reload p loaded p' e : wellParsed loaded → Reload p loaded = Some (p', e) → providerStep p p'
| step_SetActiveUsers p users p' e : SetActiveUsers p users = Some (p', e) → providerStep p p'.
Definition newProvider : RBACLocalProvider := mkRbac None [].

(** The snapshot was compiled from some policy document. *)
Definition snapshotOf (p0 : Policy) (snap : compiledPolicy) : Prop :=
  conditionsDecoded p0 ∧ memberOnTransfer p0 ∧
  ∃ p all roles, policyValid p0 p ∧ compiledOk p snap all roles.

Lemma parsePolicy_snapshot dg p0 p snap :
  parsePolicy dg p0 = Ok p → conditionsDecoded p0 → memberOnTransfer p0 → compilePolicy p = Some snap →
  snapshotOf (finishPolicy dg p0) snap.
Proof.
  unfold parsePolicy. destruct (validatePolicy p0) as [p1|] eqn:E; [|done]. intros [= <-] Hd Hm Hc.
  apply validatePolicy_valid in E as [].
  split_and!; [exact Hd|exact Hm|]. exists (finishPolicy dg p1).
  destruct (compilePolicy_ok (finishPolicy dg p1)) as (snap' & all & roles & Hc' & Hok); [done..|].
  rewrite Hc in Hc'. injection Hc' as <-. exists all, roles. split; [by constructor|done].
Qed.

Lemma localPrincipal_subjects u subjects :
  principalSubjects (Some (localPrincipal u)) = Some subjects →
  validIdentifier (u_Subject u) = true ∧ hasPrefix "system:" (u_Subject u) = false ∧
  hasPrefix "serviceaccount:" (u_Subject u) = false.
Proof.
  unfold principalSubjects. cbn [mbind option_bind localPrincipal Subject AuthMethod Groups].
  destruct (validIdentifier (u_Subject u)); [|done]. destruct (_ || _ || _); [done|].
  unfold ownSubject. cbn [Subject AuthMethod ServiceAccountUID localPrincipal].
  destruct (cutPrefix _ _) as [name|].
  { destruct (negb (validIdentifier name) || hasSeparator name); done. }
  case_bool_decide; [done|]. destruct (hasPrefix "system:" _), (hasPrefix "serviceaccount:" _); done.
Qed.

Lemma targetOwner_user s :
  validIdentifier s = true → hasPrefix "system:" s = false → hasPrefix "serviceaccount:" s = false →
  targetOwner (Some (AObject {["kind" := Some "User"; "name" := Some s]})) = Some s.
Proof.
  intros H1 H2 H3. unfold targetOwner.
  assert (size ({["kind" := Some "User"; "name" := Some s]} : gmap string (option string)) = 2) as ->
    by (vm_compute; reflexivity).
  rewrite lookup_insert_eq, lookup_insert_ne, lookup_singleton_eq by done.
  cbn [mjoin option_join mbind option_bind bool_decide negb]. by rewrite H1, H2, H3.
Qed.

(** A user with an effective permission is allowed something. *)
Lemma effective_allows p0 snap u :
  snapshotOf p0 snap → hasEffectivePermission (Some snap) (Some (localPrincipal u)) = Some true →
  ∃ action r d, Authorize (Some snap) (Some (localPrincipal u)) action r = Some d ∧
    d_Outcome d = OutcomeAllow.
Proof.
  intros (Hdec & Hmem & p & all & roles & Hv & Hok). unfold hasEffectivePermission.
  destruct (principalSubjects _) as [subjects|] eqn:Es; [|done]. intros H.
  apply anyM_true in H as (s & Hs & H).
  apply (anyM_words (bindingPossible snap) 16) in H as (id & Hbit & Hp); [|apply (ok_words _ _ _ _ Hok)].
  destruct (possible_grants p0 p Hv Hdec Hmem snap all roles Hok id Hp)
    as (cb & action & def & name & attrs & Hcb & Hreg & Hact & Hname & Hall).
  pose (subject := u_Subject u).
  destruct (localPrincipal_subjects u subjects Es) as (Hid & Hp1 & Hp2).
  pose (r := mkContext (a_Kind def) name subject
    (<["targetOwnerRef" := AObject {["kind" := Some "User"; "name" := Some subject]}]> attrs)).
  assert (∃ target, targetFor def r = Some target ∧
    (a_Verb def = "transfer" → ownerMatches target (localPrincipal u) = true)) as (target & Ht & Htm).
  { unfold targetFor. rewrite (bool_decide_decide (a_Verb def = "transfer")).
    destruct (decide (a_Verb def = "transfer")); [|by exists ""]. exists subject. split.
    - cbn [rc_Attrs r]. rewrite lookup_insert_eq. by apply targetOwner_user.
    - intros _. unfold ownerMatches. cbn [localPrincipal Subject]. unfold subject.
      apply length_validIdentifier in Hid as [Hne _].
      by rewrite (bool_decide_eq_false_2 (_ = "")), bool_decide_eq_true_2. }
  destruct (Authorize_decides p0 p snap all roles (Some (localPrincipal u)) action r Hv Hdec Hok)
    as (d & Hd & _ & _ & Hiff).
  exists action, r, d. split; [done|]. apply Hiff. exists def, (localPrincipal u), subjects, target.
  split.
  { exact (conj (proj2 (LookupAction_spec _ _) (conj Hreg Hact)) (conj eq_refl (conj Es
      (conj eq_refl (conj Hname (conj (proj2 (length_validIdentifier _ Hid)) Ht)))))). }
  right. assert (ownerMatches (rc_OwnerSub r) (localPrincipal u) = true) as ->.
  { unfold ownerMatches. cbn [rc_OwnerSub r localPrincipal Subject]. unfold subject.
    apply length_validIdentifier in Hid as [Hne _].
    by rewrite (bool_decide_eq_false_2 (_ = "")), bool_decide_eq_true_2. }
  assert (bindingAllows def action r true (ownerMatches target (localPrincipal u)) cb) as Ha.
  { apply Hall; [done| |done]. intros a Hin. cbn [rc_Attrs r]. apply lookup_insert_ne.
    intros <-. revert Hin. apply (bool_decide_unpack _). vm_compute. exact I. }
  destruct (binding_at p0 p Hv snap all roles Hok id cb Hcb)
    as (cluster & tier & i & b & -> & Hb & Hr & Hin & Hns).
  apply (ok_subjects _ _ _ _ Hok) in Hbit as (b' & Hb' & Hsb). rewrite Hb in Hb'. injection Hb' as <-.
  apply (binding_allows p0 p Hv Hdec snap all roles Hok action def (conj Hreg Hact)) in Ha as [Hg Hsc]; [|done..].
  pose proof (valid_cbs _ _ Hv) as Ecb. pose proof (valid_rbs _ _ Hv) as Erb.
  rewrite Ecb, Erb in Hin. unfold policyGrants, bindingGrants.
  destruct Hin as [[-> Hin]|[-> Hin]]; [left|right]; exists b; split_and!; eauto.
Qed.

Lemma ValidateActive_ok snapshot users : ValidateActiveUserPermissions snapshot users = Some None →
  ∀ u, Some u ∈ users → u_Active u = true →
  hasEffectivePermission snapshot (Some (localPrincipal u)) = Some true.
Proof.
  induction users as [|[v|] users IH]; cbn [ValidateActiveUserPermissions].
  { intros _ u H. by apply not_elem_of_nil in H. }
  - destruct (u_Active v) eqn:Ev; cbn [negb].
    + destruct (hasEffectivePermission _ _) as [[]|] eqn:E; cbn [mbind option_bind]; [|done..].
      intros H u [[= ->]|Hu]%elem_of_cons Ha; [done|by apply IH].
    + intros H u [[= ->]|Hu]%elem_of_cons Ha; [congruence|by apply IH].
  - intros H u [?|Hu]%elem_of_cons Ha; [done|by apply IH].
Qed.

Definition providerInv (p : RBACLocalProvider) : Prop :=
  (∀ snap, pv_snapshot p = Some snap → ∃ p0, snapshotOf p0 snap) ∧
  ∀ u, Some u ∈ pv_activeUsers p → u_Active u = true →
    hasEffectivePermission (pv_snapshot p) (Some (localPrincipal u)) = Some true.

Lemma providerStep_inv p p' : providerInv p → providerStep p p' → providerInv p'.
Proof.
  intros Hinv Hstep. destruct Hstep as [q loaded q' e Hl H|q users q' e H];
    pose proof Hinv as [Hs Hu].
  - unfold Reload in H. destruct loaded as [policy|]; [|injection H as <- _; exact Hinv].
    apply bind_Some in H as (snap & Hc & H). apply bind_Some in H as (bad & Hb & H).
    destruct bad; injection H as <- <-; [exact Hinv|]. split; [|exact (ValidateActive_ok _ _ Hb)].
    intros s [= <-]. destruct (Hl policy eq_refl) as (dg & p0 & Hp & Hd & Hm).
    exists (finishPolicy dg p0). by eapply parsePolicy_snapshot.
  - unfold SetActiveUsers in H. apply bind_Some in H as (bad & Hb & H).
    destruct bad; injection H as <- <-; [exact Hinv|]. split; [exact Hs|]. intros u Hin%list_elem_of_filter.
    apply (ValidateActive_ok _ _ Hb). by apply Hin.
Qed.


Definition exActive : UserProfile := mkUser "alice" "Alice" "" [] true.
Definition exParsed : Policy :=
  match parsePolicy "digest" exPolicy with Ok p => p | Err _ => exPolicy end.
Definition exProvider1 : RBACLocalProvider :=
  match Reload newProvider (Some exParsed) with Some (p, _) => p | None => newProvider end.
Definition exProvider2 : RBACLocalProvider :=
  match SetActiveUsers exProvider1 [None; Some exActive] with Some (p, _) => p | None => newProvider end.

Lemma exPolicy_member : memberOnTransfer exPolicy.
Proof.
  intros kind tier name rules rule c a [[_ ->]|[_ ->]]%tierOf_cases; cbn;
    intros [<- <-]%lookup_singleton_Some ->%list_elem_of_singleton; cbn.
  - intros H. by apply not_elem_of_nil in H.
  - by intros ->%list_elem_of_singleton.
Qed.
Lemma exProvider_reachable : rtc providerStep newProvider exProvider2.
Proof.
  apply (rtc_l _ _ exProvider1).
  - apply (step_Reload _ (Some exParsed) _ None).
    + intros policy E. apply (inj Some) in E. rewrite <- E. exists "digest", exPolicy.
      split; [vm_compute; reflexivity|]. split; [apply exPolicy_decoded|apply exPolicy_member].
    + vm_compute. reflexivity.
  - apply rtc_once. apply (step_SetActiveUsers _ [None; Some exActive] _ None). vm_compute. reflexivity.
Qed.

(** ** Permissions that are found but not held *)

Definition exTarget : Condition := mkCondition "targetOwnerMember" "" "" None [].
Definition exHollow : Policy := mkPolicy PolicyAPIVersion "RbacLocalConfiguration"
  {["reader" := [mkRule ["product"] ["read"] [] [exTarget] []]]} ∅
  [mkBinding None (mkRoleRef "ClusterRole" "reader") [mkSubjectRef "User" "alice"]] [] None "digest".
Definition exHollowSnap : option compiledPolicy :=
  match validatePolicy exHollow with Ok p => compilePolicy p | Err _ => None end.

(** The check for an effective permission can be fooled. A policy whose
    only rule reads products under the condition on the target of a transfer
    passes validation and the check reports a permission for its user; but the
    condition never holds outside transfers, so every request is denied. *)
Theorem effective_permission_hollow :
  hasEffectivePermission exHollowSnap (Some (localPrincipal exActive)) = Some true ∧
  ∀ action r, ∃ d, Authorize exHollowSnap (Some (localPrincipal exActive)) action r = Some d ∧
    d_Outcome d = OutcomeDeny.
Proof.
  split; [vm_compute; reflexivity|]. intros action r.
  assert (∃ p, policyValid exHollow p ∧ exHollowSnap = compilePolicy p) as (p & Hv & ->).
  { unfold exHollowSnap. destruct (validatePolicy exHollow) as [p|] eqn:Ep.
    - exists p. split; [exact (validatePolicy_valid _ _ Ep)|reflexivity].
    - vm_compute in Ep. discriminate Ep. }
  assert (conditionsDecoded exHollow) as Hd.
  { intros kind tier name rules rule c [[_ ->]|[_ ->]]%tierOf_cases; cbn.
    - intros [<- <-]%lookup_singleton_Some ->%list_elem_of_singleton; cbn.
      intros ->%list_elem_of_singleton. by exists (exText "targetOwnerMember").
    - by rewrite lookup_empty. }
  destruct (compilePolicy_ok p (valid_bindings _ _ Hv) (valid_rules _ _ Hv))
    as (snap & all & roles & -> & Hok).
  destruct (Authorize_decides exHollow p snap all roles (Some (localPrincipal exActive)) action r
    Hv Hd Hok) as (d & Hd' & _ & Hch & Hiff).
  exists d. split; [exact Hd'|]. clear Hd'. destruct (d_Outcome d) eqn:Eo; [exfalso|done|done].
  destruct (proj1 Hiff eq_refl) as (def & pr & ss & target & (_ & [= <-] & _ & _ & _ & _ & Ht) & [Hm|Hg]).
  { apply elem_of_app in Hm as [Hm|Hm]; [by apply not_elem_of_nil in Hm|].
    by apply list_elem_of_singleton in Hm. }
  destruct Hg as [(b & Hb & _ & (role & rule & Hrole & Hrule & Hcov & _ & Hcond & _) & _)|(b & Hb & _)];
    [|by apply not_elem_of_nil in Hb].
  apply list_elem_of_singleton in Hb as ->. cbn in Hrole. injection Hrole as <-.
  apply list_elem_of_singleton in Hrule as ->. cbn in Hcond. apply Forall_cons in Hcond as [Hcond _].
  destruct Hcov as (res & v & ->%list_elem_of_singleton & ->%list_elem_of_singleton & Hpair).
  apply andb_true_iff in Hpair as [_ Hw]. unfold wildcard in Hw. cbn in Hw.
  apply bool_decide_eq_true in Hw. unfold targetFor in Ht. rewrite <- Hw in Ht. cbn in Ht.
  injection Ht as <-. by destruct Hcond as [[??]|[[??]|[??]]].
Qed.
