(* ===== verification/PushOperations.v ===== *)
(** * What a push does to the catalogue

    [gitstore-api/internal/cataloggrpc/admission_operations.go]: the operations
    on resources that follow from the manifests before and after a push, the
    replay of operations against a later tip, and the authorisation of each. *)

From Stdlib Require Import Sorted.
From S2P Require Import Prelude Entities Admission Auth RbacEval.

(** ** Manifests *)

Record resourceIdentity : Type := mkIdentity { id_APIVersion : string; id_Kind : string; id_Namespace : string; id_Name : string }.
#[global] Instance resourceIdentity_eq_dec : EqDecision resourceIdentity.
Proof. solve_decision. Defined.
Definition nul : string := String Ascii.zero "".
(** [identity.key]. *)
Definition identityKey (i : resourceIdentity) : string :=
  id_APIVersion i +:+ nul +:+ id_Kind i +:+ nul +:+ id_Namespace i +:+ nul +:+ id_Name i.

(** [validate.ParsedResource] as far as this code reads it: the envelope of the
    resource its kind names, its specification as text, and the tier of a
    namespace. *)
Record ParsedResource : Type := mkParsed {
  pa_APIVersion : string; pa_Kind : string; pa_Namespace : string; pa_Name : string;
  pa_Labels : option (gmap string string); pa_Annotations : option (gmap string string); pa_Spec : string;
  pa_Tier : option string;
}.
Record comparableResource : Type := mkComparable {
  cm_APIVersion : string; cm_Kind : string; cm_Namespace : string; cm_Name : string;
  cm_Labels : option (gmap string string); cm_Annotations : option (gmap string string); cm_Spec : string; cm_Body : string;
}.
Definition knownKinds : list string :=
  ["Product"; "CategoryTaxonomy"; "Collection"; "ProductVariant"; "Namespace"; "File"; "Repository"].
Definition comparableFromMeta (p : ParsedResource) (body defaultNamespace : string) : comparableResource :=
  mkComparable (pa_APIVersion p) (pa_Kind p) (if bool_decide (pa_Namespace p = "") then defaultNamespace else pa_Namespace p)
    (pa_Name p) (pa_Labels p) (pa_Annotations p) (pa_Spec p) body.
(** Namespaces have no namespace to default to. *)
Definition comparableForParsed (p : ParsedResource) (body defaultNamespace : string) : option comparableResource :=
  if negb (bool_decide (pa_Kind p ∈ knownKinds)) then None else
  Some (comparableFromMeta p body (if bool_decide (pa_Kind p = "Namespace") then "" else defaultNamespace)).

Record parsedEntry : Type := mkEntry {
  pe_path : string; pe_parsed : ParsedResource; pe_body : string; pe_identity : resourceIdentity; pe_contentHash : string;
}.
(** encoding/json and SHA-256: [None] if a value cannot be written. *)
Section manifests.
Context (hashJSON : comparableResource → option string).
(** [None] is an error, [Some None] a kind that is not admitted. *)
Definition newParsedEntry (path : string) (p : ParsedResource) (body defaultNamespace : string) : option (option parsedEntry) :=
  match comparableForParsed p body defaultNamespace with
  | None => Some None
  | Some cmp =>
      hash ← hashJSON cmp;
      Some (Some (mkEntry path p body (mkIdentity (cm_APIVersion cmp) (cm_Kind cmp) (cm_Namespace cmp) (cm_Name cmp)) hash))
  end.
End manifests.

(** ** Operations *)

(** [admission.Operation], with [namespaceConvergenceOperation]. *)
Inductive PushOperation : Type := PushCreate | PushUpdate | PushDelete | PushConverge.
#[global] Instance PushOperation_eq_dec : EqDecision PushOperation.
Proof. solve_decision. Defined.
Record resourceAdmissionOperation : Type := mkOperation {
  op_operation : PushOperation;
  op_identity : resourceIdentity;
  op_oldEntry : option parsedEntry;
  op_newEntry : option parsedEntry;
  op_pathChanged : bool;
  op_contentChanged : bool;
}.
Definition byID (entries : list parsedEntry) : gmap string parsedEntry :=
  foldl (λ m e, <[identityKey (pe_identity e) := e]> m) ∅ entries.
Definition operationSortPriority (o : PushOperation) : Z :=
  match o with PushDelete => 0 | PushCreate => 1 | PushUpdate => 2 | PushConverge => 3 end%Z.
Definition sortLabel (i : resourceIdentity) : string := id_Kind i +:+ "/" +:+ id_Namespace i +:+ "/" +:+ id_Name i.
Definition opLess (a b : resourceAdmissionOperation) : bool :=
  let pa := operationSortPriority (op_operation a) in
  let pb := operationSortPriority (op_operation b) in
  if negb (pa =? pb)%Z then (pa <? pb)%Z else String.ltb (sortLabel (op_identity a)) (sortLabel (op_identity b)).
(** [sort.SliceStable]. *)
Fixpoint insertOp (o : resourceAdmissionOperation) (l : list resourceAdmissionOperation) : list resourceAdmissionOperation :=
  match l with
  | [] => [o]
  | x :: l => if opLess o x then o :: x :: l else x :: insertOp o l
  end.
Definition sortOps (l : list resourceAdmissionOperation) : list resourceAdmissionOperation := foldl (λ l o, insertOp o l) [] l.

Definition pathSelected (changed : gset string) (old new : option parsedEntry) : bool :=
  if bool_decide (changed = ∅) then true else
  match old with Some e => bool_decide (pe_path e ∈ changed) | None => false end ||
  match new with Some e => bool_decide (pe_path e ∈ changed) | None => false end.
(** The body of the loop over the old entries. *)
Definition operationOfOld (changed : gset string) (newByID : gmap string parsedEntry) (key : string) (old : parsedEntry)
  : list resourceAdmissionOperation :=
  match newByID !! key with
  | None => if pathSelected changed (Some old) None then [mkOperation PushDelete (pe_identity old) (Some old) None false false] else []
  | Some new =>
      let pathChanged := negb (bool_decide (pe_path old = pe_path new)) in
      let contentChanged := negb (bool_decide (pe_contentHash old = pe_contentHash new)) in
      if (pathChanged || contentChanged) && pathSelected changed (Some old) (Some new)
      then [mkOperation PushUpdate (pe_identity new) (Some old) (Some new) pathChanged contentChanged] else []
  end.
Definition operationOfNew (changed : gset string) (oldByID : gmap string parsedEntry) (key : string) (new : parsedEntry)
  : list resourceAdmissionOperation :=
  match oldByID !! key with
  | Some _ => []
  | None => if pathSelected changed None (Some new) then [mkOperation PushCreate (pe_identity new) None (Some new) false false] else []
  end.
(** The maps are iterated in the orders [oldOrder] and [newOrder] of their keys. *)
Definition deriveResourceAdmissionOperations (oldEntries newEntries : list parsedEntry) (changedPaths oldOrder newOrder : list string)
  : list resourceAdmissionOperation :=
  let oldByID := byID oldEntries in
  let newByID := byID newEntries in
  let changed := list_to_set (filter (λ p, p ≠ "") changedPaths) in
  sortOps
    ((oldOrder ≫= λ key, match oldByID !! key with Some e => operationOfOld changed newByID key e | None => [] end) ++
     (newOrder ≫= λ key, match newByID !! key with Some e => operationOfNew changed oldByID key e | None => [] end)).

(** [unchangedManifestOperations]: what may be replayed against a later tip. *)
Definition byPath (entries : list parsedEntry) : gmap string parsedEntry := foldl (λ m e, <[pe_path e := e]> m) ∅ entries.
Definition unchangedManifestOperations (operations : list resourceAdmissionOperation) (currentEntries : list parsedEntry)
  : list resourceAdmissionOperation :=
  omap (λ op,
    requested ← op_newEntry op;
    current ← byPath currentEntries !! pe_path requested;
    if negb (bool_decide (identityKey (pe_identity current) = identityKey (pe_identity requested))) ||
       negb (bool_decide (pe_contentHash current = pe_contentHash requested)) then None
    else Some (mkOperation (match pa_Tier (pe_parsed current) with Some _ => PushConverge | None => op_operation op end)
                 (op_identity op) (op_oldEntry op) (Some current) (op_pathChanged op) (op_contentChanged op))) operations.
(** [repositoryImmutablePathChanges], before the paths are sorted. *)
Definition repositoryImmutablePathChanges (oldEntries newEntries : list parsedEntry) : list string :=
  let isRepository e := bool_decide (id_Kind (pe_identity e) = "Repository") in
  let oldByPath := byPath (filter (λ e, isRepository e = true) oldEntries) in
  omap (λ e,
    if negb (isRepository e) then None else
    old ← oldByPath !! pe_path e;
    if negb (bool_decide (id_Name (pe_identity old) = id_Name (pe_identity e))) ||
       negb (bool_decide (id_Namespace (pe_identity old) = id_Namespace (pe_identity e)))
    then Some (pe_path e) else None) newEntries.

(** ** The operations are the difference *)

Section derive.
Context (oldEntries newEntries : list parsedEntry) (changedPaths oldOrder newOrder : list string).
Notation old := (byID oldEntries).
Notation new := (byID newEntries).
Notation changed := (list_to_set (filter (λ p, p ≠ "") changedPaths) : gset string).
Notation ops := (deriveResourceAdmissionOperations oldEntries newEntries changedPaths oldOrder newOrder).
Hypothesis oldKeys : NoDup oldOrder ∧ ∀ k, k ∈ oldOrder ↔ k ∈ dom old.
Hypothesis newKeys : NoDup newOrder ∧ ∀ k, k ∈ newOrder ↔ k ∈ dom new.

Lemma byID_identity entries k e : byID entries !! k = Some e → identityKey (pe_identity e) = k.
Proof.
  unfold byID. induction entries as [|e' entries IH] using rev_ind; [simpl; by rewrite lookup_empty|].
  rewrite foldl_app. cbn [foldl]. destruct (decide (identityKey (pe_identity e') = k)) as [<-|Hn].
  - rewrite lookup_insert_eq. by intros [= ->].
  - rewrite lookup_insert_ne by done. apply IH.
Qed.
Definition opKey (o : resourceAdmissionOperation) : string := identityKey (op_identity o).
(** The operation on one identity. *)
Definition operationAt (k : string) : list resourceAdmissionOperation :=
  match old !! k, new !! k with
  | Some e, _ => operationOfOld changed new k e
  | None, Some e => operationOfNew changed old k e
  | None, None => []
  end.
Lemma operationAt_spec k :
  (∃ o, operationAt k = [o] ∧ opKey o = k ∧ op_newEntry o = new !! k ∧ op_oldEntry o = old !! k ∧
     pathSelected changed (old !! k) (new !! k) = true) ∨
  operationAt k = [] ∧
    ((λ e, (pe_path e, pe_contentHash e)) <$> old !! k = (λ e, (pe_path e, pe_contentHash e)) <$> new !! k ∨
     pathSelected changed (old !! k) (new !! k) = false).
Proof.
  unfold operationAt, operationOfOld, operationOfNew.
  destruct (old !! k) as [e|] eqn:Eo, (new !! k) as [e'|] eqn:En.
  - destruct (bool_decide_reflect (pe_path e = pe_path e')) as [Hp|Hp], (bool_decide_reflect (pe_contentHash e = pe_contentHash e')) as [Hh|Hh];
      simpl; [right; split; [done|left; by rewrite Hp, Hh]|..];
      destruct (pathSelected _ _ _) eqn:Es; [|right; auto| |right; auto| |right; auto];
      left; eexists; (split; [done|]); split_and!; try done; unfold opKey; simpl; by eapply byID_identity.
  - destruct (pathSelected _ _ _) eqn:Es; [left|right; auto]. eexists. split; [done|]. split_and!; try done.
    unfold opKey. simpl. by eapply byID_identity.
  - destruct (pathSelected _ _ _) eqn:Es; [left|right; auto]. eexists. split; [done|]. split_and!; try done.
    unfold opKey. simpl. by eapply byID_identity.
  - right. auto.
Qed.

Lemma insertOp_perm o l : insertOp o l ≡ₚ o :: l.
Proof. induction l as [|x l IH]; [done|]. simpl. case_match; [done|]. rewrite IH. constructor. Qed.
Notation prio o := (operationSortPriority (op_operation o)).
Notation ordered := (StronglySorted (λ a b, prio a ≤ prio b)%Z).
Lemma insertOp_sorted o l : ordered l → ordered (insertOp o l).
Proof.
  induction 1 as [|x l Hs IH Hx]; simpl; [by repeat constructor|]. destruct (opLess o x) eqn:E; unfold opLess in E.
  - assert (prio o ≤ prio x)%Z by (destruct (Z.eqb_spec (prio o) (prio x)); simpl in E; lia).
    constructor; [by constructor|]. constructor; [done|]. eapply Forall_impl; [exact Hx|]. simpl. lia.
  - assert (prio x ≤ prio o)%Z by (destruct (Z.eqb_spec (prio o) (prio x)); simpl in E; lia).
    constructor; [done|]. rewrite insertOp_perm. by constructor.
Qed.
Lemma sortOps_spec l : ordered (sortOps l) ∧ sortOps l ≡ₚ l.
Proof.
  unfold sortOps. assert (∀ acc, ordered acc → ordered (foldl (λ l o, insertOp o l) acc l) ∧ foldl (λ l o, insertOp o l) acc l ≡ₚ acc ++ l) as H.
  { induction l as [|o l IH]; intros acc Ha; simpl; [by rewrite app_nil_r|].
    destruct (IH (insertOp o acc)) as [H1 H2]; [by apply insertOp_sorted|]. split; [done|].
    rewrite H2, insertOp_perm. by rewrite <- Permutation_middle. }
  apply (H []). constructor.
Qed.

Lemma mem_ops o : o ∈ ops ↔ ∃ k, o ∈ operationAt k.
Proof.
  unfold deriveResourceAdmissionOperations. rewrite (proj2 (sortOps_spec _)), elem_of_app, !list_elem_of_bind.
  destruct oldKeys as [_ Ko], newKeys as [_ Kn]. unfold operationAt. split.
  - intros [(k & Hk & _)|(k & Hk & _)]; exists k.
    + destruct (old !! k); [done|by apply elem_of_nil in Hk].
    + destruct (new !! k) as [e|] eqn:En; [|by apply elem_of_nil in Hk].
      destruct (old !! k) eqn:Eo; [|done]. unfold operationOfNew in Hk. rewrite Eo in Hk. by apply elem_of_nil in Hk.
  - intros [k Hk]. destruct (old !! k) as [e|] eqn:Eo.
    + left. exists k. rewrite Eo. split; [done|]. apply Ko, elem_of_dom. eauto.
    + destruct (new !! k) as [e|] eqn:En; [|by apply elem_of_nil in Hk]. right. exists k. rewrite En. split; [done|]. apply Kn, elem_of_dom. eauto.
Qed.
Lemma operationAt_opKey k o : o ∈ operationAt k → opKey o = k.
Proof.
  destruct (operationAt_spec k) as [(o' & -> & E & _)|[-> _]]; [|by intros ?%elem_of_nil]. by intros ->%list_elem_of_singleton.
Qed.
Lemma bind_keys (f : string → list resourceAdmissionOperation) (l : list string) :
  NoDup l → (∀ k o, o ∈ f k → opKey o = k) → (∀ k, length (f k) ≤ 1) → NoDup (opKey <$> (l ≫= f)).
Proof.
  intros Hnd Hk Hl. induction Hnd as [|x l Hx Hnd IH]; simpl; [constructor|]. rewrite fmap_app. apply NoDup_app. split; [|split; [|done]].
  - specialize (Hl x). destruct (f x) as [|o [|]]; simpl in *; [constructor|apply NoDup_singleton|lia].
  - intros k (o & -> & Ho)%list_elem_of_fmap (o' & E & (y & Ho' & Hy)%list_elem_of_bind)%list_elem_of_fmap.
    apply Hk in Ho, Ho'. congruence.
Qed.
Lemma ops_keys : NoDup (opKey <$> ops).
Proof.
  unfold deriveResourceAdmissionOperations. rewrite (proj2 (sortOps_spec _)), fmap_app. destruct oldKeys as [No _], newKeys as [Nn _].
  assert (∀ k o, o ∈ match old !! k with Some e => operationOfOld changed new k e | None => [] end → o ∈ operationAt k ∧ is_Some (old !! k)) as Ho.
  { intros k o Hk. unfold operationAt. destruct (old !! k); [eauto|by apply elem_of_nil in Hk]. }
  assert (∀ k o, o ∈ match new !! k with Some e => operationOfNew changed old k e | None => [] end → o ∈ operationAt k ∧ old !! k = None) as Hn.
  { intros k o Hk. unfold operationAt. destruct (new !! k); [|by apply elem_of_nil in Hk]. unfold operationOfNew in *.
    destruct (old !! k); [by apply elem_of_nil in Hk|done]. }
  apply NoDup_app. split; [|split].
  - apply bind_keys; [done|intros k o [? _]%Ho; by apply operationAt_opKey|].
    intros k. destruct (old !! k) as [e|]; [|simpl; lia]. unfold operationOfOld. repeat case_match; simpl; lia.
  - intros k (o & -> & (y & Hy & _)%list_elem_of_bind)%list_elem_of_fmap (o' & E & (y' & Hy' & _)%list_elem_of_bind)%list_elem_of_fmap.
    apply Ho in Hy as [Hy%operationAt_opKey [e He]]. apply Hn in Hy' as [Hy'%operationAt_opKey He'].
    rewrite <- Hy' , <- E, Hy in He'. by rewrite He in He'.
  - apply bind_keys; [done|intros k o [? _]%Hn; by apply operationAt_opKey|].
    intros k. destruct (new !! k) as [e|]; [|simpl; lia]. unfold operationOfNew. repeat case_match; simpl; lia.
Qed.

(** What the operations do to the manifests of the repository. *)
Definition applyOperation (m : gmap string parsedEntry) (o : resourceAdmissionOperation) : gmap string parsedEntry :=
  match op_newEntry o with Some e => <[opKey o := e]> m | None => delete (opKey o) m end.
Lemma applyOperation_lookup m o k : applyOperation m o !! k = if decide (opKey o = k) then op_newEntry o else m !! k.
Proof.
  unfold applyOperation. destruct (op_newEntry o); case_decide as E; subst;
    rewrite ?lookup_insert_eq, ?lookup_delete_eq, ?lookup_insert_ne, ?lookup_delete_ne by done; done.
Qed.
Lemma applyOperations_lookup (l : list resourceAdmissionOperation) m k :
  NoDup (opKey <$> l) →
  (∀ o, o ∈ l → opKey o = k → foldl applyOperation m l !! k = op_newEntry o) ∧
  (k ∉ opKey <$> l → foldl applyOperation m l !! k = m !! k).
Proof.
  revert m. induction l as [|o l IH]; intros m Hnd; [split; [by intros ? ?%elem_of_nil|done]|].
  rewrite fmap_cons in Hnd. apply NoDup_cons in Hnd as [Ho Hnd]. destruct (IH (applyOperation m o) Hnd) as [H1 H2]. simpl. split.
  - intros o' [->|Ho']%elem_of_cons Hk; [|by apply H1]. rewrite H2 by (by rewrite <- Hk). rewrite applyOperation_lookup. by rewrite decide_True.
  - intros [Hk Hn]%not_elem_of_cons. rewrite H2 by done. rewrite applyOperation_lookup. by rewrite decide_False.
Qed.
Definition manifestView (e : parsedEntry) : string * string := (pe_path e, pe_contentHash e).
End derive.

(** ** Authorisation *)

Inductive StatusCode : Type := Unauthenticated | Unavailable | PermissionDenied.
(** A stored resource of one of the kinds. *)
Inductive Stored : Type := StoredNamespace (n : Namespace) | StoredRepository (r : Repository) | StoredCatalog (r : Resource).
Definition storedMeta (s : Stored) : Meta :=
  match s with StoredNamespace n => n_meta n | StoredRepository r => rp_meta r | StoredCatalog r => r_meta r end.
Definition storedNamespace (s : Stored) : string :=
  match s with StoredNamespace _ => "" | StoredRepository r => rp_Namespace r | StoredCatalog r => r_Namespace r end.
Definition EffectiveOwnerSub (s : Stored) : string := effectiveOwnerSub (m_Annotations (storedMeta s)) (m_CreationActor (storedMeta s)).
Definition resourceCreationActor (s : Stored) : string := m_CreationActor (storedMeta s).

(** [strings.ToLower] of the first byte, for kinds in ASCII. *)
Definition lowerFirst (s : string) : string :=
  match s with
  | "" => ""
  | String c s => let n := Ascii.nat_of_ascii c in String (if (65 <=? n) && (n <=? 90) then Ascii.ascii_of_nat (n + 32) else c) s
  end.
Definition operationVerb (o : PushOperation) : string :=
  match o with PushCreate => "create" | PushUpdate | PushConverge => "update" | PushDelete => "delete" end.
Definition tierAttr (tier : string) : option string :=
  if bool_decide (tier = "user") then Some "USER" else if bool_decide (tier = "organisation") then Some "ORGANIZATION" else None.
Definition ownerKindText (k : OwnerKind) : string :=
  match k with OwnerKindUser => "User" | OwnerKindGroup => "Group" | OwnerKindServiceAccount => "ServiceAccount" end.
Definition dropOwner (a : option (gmap string string)) : option (gmap string string) := delete OwnerAnnotationKey <$> a.

Section authorize.
(** encoding/json there and back, to compare values; the authorizer of the
    registry, if there is one; and the datastore, whose lookups may fail. *)
Context {J : Type} `{!EqDecision J} (decoded : comparableResource → option J).
Context (authZ : option (Principal → string → ResourceContext → option Decision_)).
Context (namespaceByName : string → option Namespace).

Definition storedComparable (s : Stored) : comparableResource :=
  let m := storedMeta s in
  mkComparable (m_APIVersion m) (m_Kind m) (storedNamespace s) (m_Name m) (m_Labels m) (dropOwner (m_Annotations m)) (m_Spec m) (m_Body m).
Definition ownerOnlyChange (proposed : parsedEntry) (existing : Stored) (namespace : string) : bool :=
  match comparableForParsed (pe_parsed proposed) (pe_body proposed) namespace with
  | None => false
  | Some d =>
      if negb (bool_decide (m_SourcePath (storedMeta existing) = pe_path proposed)) then false else
      let d := mkComparable (cm_APIVersion d) (cm_Kind d) (cm_Namespace d) (cm_Name d) (cm_Labels d) (dropOwner (cm_Annotations d))
                 (cm_Spec d) (cm_Body d) in
      match decoded d, decoded (storedComparable existing) with
      | Some a, Some b => bool_decide (a = b)
      | _, _ => false
      end
  end.
(** The owner a manifest asks for. *)
Definition targetOwnerOf (proposed : parsedEntry) (existing : Stored) (namespace : string) : string :=
  let annotations := comparableForParsed (pe_parsed proposed) (pe_body proposed) namespace ≫= cm_Annotations in
  let target := default "" (annotations ≫= (.!! OwnerAnnotationKey)) in
  if bool_decide (target = "") then resourceCreationActor existing else target.

(** The facts an operation is authorised on; [None]: the namespace is not there. *)
Definition resourceFacts (def : ActionDefinition) (i : resourceIdentity) (operation : PushOperation) (proposed : option parsedEntry)
    (existing : option Stored) : option ResourceContext :=
  let attrs : gmap string Any := if bool_decide (a_Scope def = "namespace") then {["namespace" := AString (id_Namespace i)]} else ∅ in
  owner ← (if bool_decide (operation = PushCreate) && negb (bool_decide (id_Namespace i = "")) then
             n ← namespaceByName (id_Namespace i);
             Some (effectiveOwnerSub (m_Annotations (n_meta n)) (m_CreationActor (n_meta n)))
           else Some (default "" (EffectiveOwnerSub <$> existing)));
  let attrs := match existing with
               | Some (StoredNamespace n) => match tierAttr (n_Tier n) with Some t => <["tier" := AString t]> attrs | None => attrs end
               | _ => attrs
               end in
  let attrs := match proposed ≫= (λ e, pa_Tier (pe_parsed e)) with Some t => <["tier" := AString t]> attrs | None => attrs end in
  Some (mkContext (a_Kind def) (id_Name i) owner attrs).
Definition withTarget (r : ResourceContext) (target : string) : ResourceContext :=
  let '(k, name) := DecodeOwnerSubject target in
  mkContext (rc_Kind r) (rc_Name r) (rc_OwnerSub r)
    (<["targetOwnerRef" := AObject {["kind" := Some (ownerKindText k); "name" := Some name]}]> (rc_Attrs r)).
Definition check (az : Principal → string → ResourceContext → option Decision_) (p : Principal) (action : string) (r : ResourceContext)
  : option StatusCode :=
  match az p action r with
  | None => Some Unavailable
  | Some d => match d_Outcome d with OutcomeAllow => None | _ => Some PermissionDenied end
  end.
(** [None] is no error. *)
Definition authorizeOperation (principal : option Principal) (i : resourceIdentity) (operation : PushOperation)
    (proposed : option parsedEntry) (existing : option Stored) : option StatusCode :=
  match principal with
  | None => Some Unauthenticated
  | Some p =>
      if negb (ValidTrustedPrincipal principal) || bool_decide (AuthMethod p = "none") ||
         bool_decide (AuthMethod p = "serviceaccount-assertion") then Some Unauthenticated else
      match authZ with
      | None => Some Unavailable
      | Some az =>
          let kind := lowerFirst (id_Kind i) in
          let action := kind +:+ "." +:+ operationVerb operation in
          match LookupAction action with
          | None => Some PermissionDenied
          | Some def =>
              if a_Reserved def then Some PermissionDenied else
              match resourceFacts def i operation proposed existing with
              | None => Some Unavailable
              | Some r =>
                  match proposed, existing with
                  | Some e, Some s =>
                      if bool_decide (operation = PushCreate) then check az p action r else
                      let target := targetOwnerOf e s (id_Namespace i) in
                      if bool_decide (target = rc_OwnerSub r) then check az p action r else
                      match check az p (kind +:+ ".transfer") (withTarget r target) with
                      | Some err => Some err
                      | None => if ownerOnlyChange e s (id_Namespace i) then None else check az p action (withTarget r target)
                      end
                  | _, _ => check az p action r
                  end
              end
          end
      end
  end.
(** [lookupResourceByIdentity]: [Err] is a failure other than not found. *)
Context (lookupResource : resourceIdentity → result string (option Stored)).
Definition isNamespaceOp (o : resourceAdmissionOperation) : bool := bool_decide (id_Kind (op_identity o) = "Namespace").
Definition createsNamespace (o : resourceAdmissionOperation) : bool := isNamespaceOp o && bool_decide (op_operation o = PushCreate).
Definition removesUser (o : resourceAdmissionOperation) : bool :=
  isNamespaceOp o && bool_decide (op_operation o = PushDelete) &&
  bool_decide ((op_oldEntry o ≫= λ e, pa_Tier (pe_parsed e)) = Some "USER").
Fixpoint authorizeEach (principal : option Principal) (operations : list resourceAdmissionOperation) : option StatusCode :=
  match operations with
  | [] => None
  | o :: operations =>
      match lookupResource (op_identity o) with
      | Err _ => Some Unavailable
      | Ok existing =>
          match authorizeOperation principal (op_identity o) (op_operation o) (op_newEntry o) existing with
          | Some err => Some err
          | None => authorizeEach principal operations
          end
      end
  end.
Definition authorizeOperations (principal : option Principal) (operations : list resourceAdmissionOperation) : option StatusCode :=
  if existsb removesUser operations && existsb createsNamespace operations then Some PermissionDenied
  else authorizeEach principal operations.

(** ** What is authorised *)

Definition allows (p : Principal) (action : string) (r : ResourceContext) : Prop :=
  ∃ az d, authZ = Some az ∧ az p action r = Some d ∧ d_Outcome d = OutcomeAllow.
Lemma check_None az p action r : authZ = Some az → check az p action r = None → allows p action r.
Proof.
  unfold check, allows. intros Ha H. destruct (az p action r) as [d|] eqn:E; [|done]. exists az, d. by destruct (d_Outcome d) eqn:Ed.
Qed.
(** The new owner an operation asks for, if it is not the present one. *)
Definition newOwner (o : resourceAdmissionOperation) (existing : option Stored) (r : ResourceContext) : option string :=
  match op_newEntry o, existing with
  | Some e, Some s =>
      let target := targetOwnerOf e s (id_Namespace (op_identity o)) in
      if bool_decide (op_operation o = PushCreate) || bool_decide (target = rc_OwnerSub r) then None else Some target
  | _, _ => None
  end.
Definition onlyOwner (o : resourceAdmissionOperation) (existing : option Stored) : bool :=
  match op_newEntry o, existing with Some e, Some s => ownerOnlyChange e s (id_Namespace (op_identity o)) | _, _ => false end.
Definition opKind (o : resourceAdmissionOperation) : string := lowerFirst (id_Kind (op_identity o)).
Definition opAction (o : resourceAdmissionOperation) : string := opKind o +:+ "." +:+ operationVerb (op_operation o).
(** An operation somebody may perform. *)
Definition permitted (p : Principal) (o : resourceAdmissionOperation) (existing : option Stored) : Prop :=
  ∃ def r, LookupAction (opAction o) = Some def ∧ a_Reserved def = false ∧
    resourceFacts def (op_identity o) (op_operation o) (op_newEntry o) existing = Some r ∧
    match newOwner o existing r with
    | None => allows p (opAction o) r
    | Some target =>
        allows p (opKind o +:+ ".transfer") (withTarget r target) ∧
        (onlyOwner o existing = true ∨ allows p (opAction o) (withTarget r target))
    end.

Lemma authorizeOperation_sound principal o existing :
  authorizeOperation principal (op_identity o) (op_operation o) (op_newEntry o) existing = None →
  ∃ p, principal = Some p ∧ ValidTrustedPrincipal principal = true ∧ AuthMethod p ≠ "none" ∧ permitted p o existing.
Proof.
  unfold authorizeOperation. destruct principal as [p|]; [|done].
  destruct (negb _ || _ || _) eqn:Eg; [done|]. apply orb_false_iff in Eg as [Eg _]. apply orb_false_iff in Eg as [Ev%negb_false_iff En%bool_decide_eq_false].
  destruct authZ as [az|] eqn:Ea; [|done]. fold (opKind o). fold (opAction o).
  destruct (LookupAction (opAction o)) as [def|] eqn:El; [|done]. destruct (a_Reserved def) eqn:Er; [done|].
  destruct (resourceFacts def _ _ _ _) as [r|] eqn:Ef; [|done]. intros H. exists p. split_and!; [done..|].
  exists def, r. split_and!; [done..|]. unfold newOwner, onlyOwner.
  destruct (op_newEntry o) as [e|], existing as [s'|]; try (by eapply check_None).
  destruct (bool_decide (op_operation o = PushCreate)); simpl; [by eapply check_None|].
  destruct (bool_decide (_ = rc_OwnerSub r)); [by eapply check_None|].
  destruct (check az p (opKind o +:+ ".transfer") _) eqn:Ec; [done|]. split; [by eapply check_None|].
  destruct (ownerOnlyChange _ _ _); [by left|right; by eapply check_None].
Qed.
End authorize.

(** ** A push *)

Definition exParsed (kind name owner : string) : ParsedResource :=
  mkParsed "v1" kind "shop" name None (if bool_decide (owner = "") then None else Some {[OwnerAnnotationKey := owner]}) "{}" None.
Definition exEntry (path kind name owner hash : string) : parsedEntry :=
  mkEntry path (exParsed kind name owner) "" (mkIdentity "v1" kind "shop" name) hash.
(** One product is changed, one removed, one added. *)
Definition exOld : list parsedEntry := [exEntry "a.md" "Product" "a" "" "1"; exEntry "b.md" "Product" "b" "" "2"].
Definition exNew : list parsedEntry := [exEntry "a.md" "Product" "a" "bob" "3"; exEntry "c.md" "Product" "c" "" "4"].
Definition exKey (name : string) : string := identityKey (mkIdentity "v1" "Product" "shop" name).
Definition exOps : list resourceAdmissionOperation :=
  deriveResourceAdmissionOperations exOld exNew [] [exKey "a"; exKey "b"] [exKey "c"; exKey "a"].
Example exOps_are : (λ o, (op_operation o, id_Name (op_identity o))) <$> exOps = [(PushDelete, "b"); (PushCreate, "c"); (PushUpdate, "a")].
Proof. vm_compute. reflexivity. Qed.
Lemma exKeys (entries : list parsedEntry) (order : list string) :
  forallb (λ k, bool_decide (is_Some (byID entries !! k))) order = true → forallb (λ k, bool_decide (k ∈ order)) (elements (dom (byID entries))) = true →
  NoDup order → NoDup order ∧ ∀ k, k ∈ order ↔ k ∈ dom (byID entries).
Proof.
  rewrite !forallb_forall. intros H1 H2 Hnd. split; [done|]. intros k. rewrite <- elem_of_elements. split.
  - intros Hk%list_elem_of_In%H1%bool_decide_eq_true. by apply elem_of_elements, elem_of_dom.
  - intros Hk%list_elem_of_In%H2%bool_decide_eq_true. done.
Qed.

(** Alice may do everything with products of her shop. *)
Definition exAlice : Principal := mkPrincipal "alice" "i" "" "" [] [] ∅ "static" 0 "" "".
Definition exAuthZ (p : Principal) (action : string) (r : ResourceContext) : option Decision_ :=
  Some (if bool_decide (Subject p = "alice") then Allow "ex" "owner" else Deny "ex" "not the owner").
Definition exMetaOf (name : string) : Meta :=
  mkMeta "v1" "Product" "u" name 1 "1" "" 0 "alice" 0 "" None None "" [] None "a.md" "" "" "{}" "" "".
Definition exLookup (i : resourceIdentity) : result string (option Stored) :=
  Ok (if bool_decide (id_Name i = "a") then Some (StoredCatalog (mkResource (exMetaOf "a") "shop" "" "" "" "" "")) else None).
Definition exNamespaceOf (name : string) : option Namespace := Some (mkNamespace (exMetaOf name) "" "" "").
Definition exDecoded (c : comparableResource) : option (string * string) := Some (cm_Name c, cm_Spec c).
