(* ===== verification/Sessions.v ===== *)
(** * Sessions of static users

    [auth/provider/staticusers] with the in-process stores of revocations
    ([datastore/memdb/backend.go], [memoryRevocationStore]): users, login, bearer
    tokens, logout and refresh. Calls of the provider interleave at each access
    to the revocations, and the theorem says what a session that was refreshed
    or logged out can still do. The JWT library is the interface [Jwt]. *)

From S2P Require Import Prelude Entities Auth.
From Stdlib Require Import Ascii.

(** ** JSON web tokens: what the providers rely on golang-jwt for *)

(** [jwt.RegisteredClaims] with the [sa_uid] of service account tokens. Dates
    are nanoseconds. *)
Record TokenClaims : Type := mkClaims {
  c_Issuer : string;
  c_Subject : string;
  c_Audience : list string;
  c_ExpiresAt : option Z;
  c_NotBefore : option Z;
  c_IssuedAt : option Z;
  c_ID : string;
  c_sa_uid : string;
}.
Record TokenHeader : Type := mkHeader { h_alg : string; h_typ : option string; h_kid : option string }.
Inductive VerifyKey : Type := HmacKey (secret : string) | PublicKey_ (alg bytes : string).
Record ParserOptions : Type := mkOptions {
  o_Leeway : Z;
  o_IssuedAt : bool;
  o_Issuer : option string;
  o_Audience : option string;
  o_ExpirationRequired : bool;
}.
(** [errors.Is(err, jwt.ErrTokenExpired)] and the text. *)
Record JwtError : Type := mkJwtError { je_expired : bool; je_text : string }.

(** [ParseWithClaims] is given the [GetExpirationTime] of the claims, the key
    function and the time; it returns the claims with the token's [Valid]. *)
Class Jwt : Type := {
  ParseUnverified : string → result string (TokenHeader * TokenClaims);
  Verifies : VerifyKey → string → bool;
  ParseWithClaims : ParserOptions → (TokenClaims → option Z) → (TokenHeader → result string VerifyKey) →
    Z → string → result JwtError (TokenClaims * bool);
  SignedString : string → TokenHeader → TokenClaims → result string string;

  (** Parsing succeeds only for a signed token whose claims are those the text
      carries, that is not past its expiry and was issued by whom and for whom
      the options ask. *)
  ParseWithClaims_sound o getExp key now bearer c valid :
    ParseWithClaims o getExp key now bearer = Ok (c, valid) →
    ∃ h k, ParseUnverified bearer = Ok (h, c) ∧ key h = Ok k ∧ Verifies k bearer = true ∧
      (∀ e, getExp c = Some e → (now < e + o_Leeway o)%Z) ∧
      (o_ExpirationRequired o = true → is_Some (getExp c)) ∧
      (∀ i, o_Issuer o = Some i → c_Issuer c = i) ∧
      (∀ a, o_Audience o = Some a → a ∈ c_Audience c);
}.

(** ** The file of users: users.go *)

Record UserEntry : Type := mkUser {
  u_Username : string;
  u_PasswordHash : string;
  u_DisplayName : string;
  u_Email : string;
}.
Record UserList : Type := mkUserList { ul_Version : string; ul_Users : list UserEntry }.
Inductive UsersError : Type :=
| UsersUnread | UsersMalformed | UsersVersion | UsersNone | UserEmpty | UserHashEmpty | UserReserved | UserDuplicated.

(** [strings.TrimSpace(s) == ""] *)
Definition blank (s : string) : bool :=
  match runes s with Some rs => forallb IsSpace rs | None => false end.

(** The loop of [parseUsers]. *)
Fixpoint addUsers (users : gmap string UserEntry) (us : list UserEntry) : result UsersError (gmap string UserEntry) :=
  match us with
  | [] => Ok users
  | u :: us =>
      if blank (u_Username u) then Err UserEmpty else
      if bool_decide (u_PasswordHash u = "") then Err UserHashEmpty else
      if negb (ValidExternalUsername (u_Username u)) then Err UserReserved else
      if bool_decide (is_Some (users !! u_Username u)) then Err UserDuplicated else
      addUsers (<[u_Username u := u]> users) us
  end.
(** [parseUsers]; [yaml.Unmarshal] is an argument. *)
Definition parseUsers (unmarshal : string → option UserList) (b : string)
  : result UsersError (gmap string UserEntry) :=
  match unmarshal b with
  | None => Err UsersMalformed
  | Some list =>
      if negb (bool_decide (ul_Version list = "v1")) then Err UsersVersion else
      if bool_decide (length (ul_Users list) = 0) then Err UsersNone else
      addUsers ∅ (ul_Users list)
  end.
(** [loadUsers] of a file with the contents [file], if it can be read. *)
Definition loadUsers (unmarshal : string → option UserList) (file : option string) :=
  match file with None => Err UsersUnread | Some b => parseUsers unmarshal b end.

(** ** The provider: provider.go *)

Record StaticUsersProvider : Type := mkStaticUsers {
  su_users : gmap string UserEntry;
  su_jwtSecret : string;
  su_jwtIssuer : string;
  su_jwtDuration : Z;
  su_refreshGrace : Z;
}.
Definition setUsers (users : gmap string UserEntry) (p : StaticUsersProvider) : StaticUsersProvider :=
  mkStaticUsers users (su_jwtSecret p) (su_jwtIssuer p) (su_jwtDuration p) (su_refreshGrace p).

Definition oneSecond : Z := 1000000000.
Definition oneMinute : Z := 60 * oneSecond.

(** [strings.TrimSuffix(s, "/")] *)
Fixpoint trimSlash (s : string) : string :=
  match s with
  | EmptyString => EmptyString
  | String c EmptyString => if bool_decide (c = "/"%char) then EmptyString else s
  | String c s => String c (trimSlash s)
  end.

Inductive UsersNewError : Type := NewUsers (e : UsersError) | NewSecret | NewStore.
Definition NewWithRevocationStore (load : string → result UsersError (gmap string UserEntry))
  (usersFile secret issuer : string) (ttl refreshGrace : Z) (revocations : bool)
  : result UsersNewError StaticUsersProvider :=
  match load (if bool_decide (usersFile = "") then "users.yaml" else usersFile) with
  | Err e => Err (NewUsers e)
  | Ok users =>
      if bool_decide (secret = "") then Err NewSecret else
      let issuer := trimSlash (if bool_decide (issuer = "") then "gitstore" else issuer) +:+ "/static-users" in
      let duration := if bool_decide (ttl ≠ 0)%Z then ttl else (24 * 60 * oneMinute)%Z in
      let grace := if bool_decide (refreshGrace ≠ 0)%Z then refreshGrace else oneMinute in
      if negb revocations then Err NewStore else Ok (mkStaticUsers users secret issuer duration grace)
  end.
(** A file that cannot be loaded leaves the users as they are. *)
Definition suReload (loaded : result UsersError (gmap string UserEntry)) (p : StaticUsersProvider)
  : StaticUsersProvider * option UsersError :=
  match loaded with Err e => (p, Some e) | Ok users => (setUsers users p, None) end.

(** [memdbDatastore.sessionRevocations]: until when a token identifier is
    revoked. The store of the provider itself is the same map. *)
Notation Revocations := (gmap string Z).
Definition StoreRevokeSession (jti : string) (expiresAt : Z) (m : Revocations) : Revocations := <[jti := expiresAt]> m.
(** [IsSessionRevoked] reads the row under one lock, judges what it read at a
    time of its own, and deletes under another lock. *)
Inductive Judged : Type := NotRevoked | StillRevoked | RowExpired.
Definition judgeRevocation (now : Z) (row : option Z) : Judged :=
  match row with
  | None => NotRevoked
  | Some expiresAt => if (expiresAt <? now)%Z then RowExpired else StillRevoked
  end.
Definition IsSessionRevoked (now : Z) (jti : string) (m : Revocations) : Revocations * bool :=
  match judgeRevocation now (m !! jti) with
  | NotRevoked => (m, false)
  | StillRevoked => (m, true)
  | RowExpired => (delete jti m, false)
  end.
Definition ConsumeSession (now : Z) (jti : string) (expiresAt : Z) (m : Revocations) : Revocations * bool :=
  match m !! jti with
  | Some current => if (now <? current)%Z then (m, false) else (<[jti := expiresAt]> m, true)
  | None => (<[jti := expiresAt]> m, true)
  end.

Definition suName : string := "static-users".
Inductive RefreshError : Type := ErrInvalidToken | ErrTokenTooOld | ErrTokenRevoked | ErrUserNotFound | ErrRandom | ErrSign.

Section provider.
Context `{J : Jwt} (decode64 : string → option string) (comparePassword : string → string → bool).
Implicit Types p : StaticUsersProvider.

(** [authenticateBasic]; [comparePassword] is [bcrypt.CompareHashAndPassword]. *)
Definition authenticateBasic p (encoded : string) : option Principal * Decision_ :=
  match decode64 encoded with
  | None => (None, Challenge suName "invalid basic auth encoding")
  | Some b =>
      match cut ":" b with
      | None => (None, Challenge suName "malformed basic auth credentials")
      | Some (name, password) =>
          match su_users p !! name with
          | None => (None, Challenge suName "unknown username")
          | Some u =>
              if negb (comparePassword (u_PasswordHash u) password)
              then (None, Challenge suName "invalid password")
              else (Some (mkPrincipal (u_Username u) (su_jwtIssuer p) "" "" [] [] ∅ suName 0 "" ""),
                    Allow suName "valid basic auth")
          end
      end
  end.

Definition hs256 (secret : string) (h : TokenHeader) : result string VerifyKey :=
  if bool_decide (h_alg h = "HS256") then Ok (HmacKey secret) else Err "unexpected signing method".
Definition leeway : ParserOptions := mkOptions (2 * oneMinute) false None None true.

(** [authenticateBearer] up to the revocation check, at time [now]. *)
Definition bearerClaims p (now : Z) (token : string) : Decision_ + TokenClaims :=
  match ParseWithClaims leeway c_ExpiresAt (hs256 (su_jwtSecret p)) now token with
  | Err e => inl (if je_expired e then Deny suName "token has expired"
                  else Challenge suName ("jwt parse failed: " +:+ je_text e))
  | Ok (claims, valid) =>
      if negb valid then inl (Challenge suName "jwt invalid") else
      if negb (bool_decide (c_Issuer claims = su_jwtIssuer p)) then inl (Challenge suName "jwt issuer is not accepted") else
      if blank (c_Subject claims) || blank (c_ID claims)
      then inl (Challenge suName "jwt subject and jti are required") else
      if negb (ValidExternalUsername (c_Subject claims))
      then inl (Deny suName "reserved or invalid username") else inr claims
  end.
Definition bearerPrincipal (claims : TokenClaims) : Principal :=
  mkPrincipal (c_Subject claims) (c_Issuer claims) "" "" [] [] ∅ suName (default 0%Z (c_ExpiresAt claims)) (c_ID claims) "".
Definition authenticateBearer p (now now' : Z) (token : string) (m : Revocations)
  : Revocations * (option Principal * Decision_) :=
  match bearerClaims p now token with
  | inl d => (m, (None, d))
  | inr claims =>
      match IsSessionRevoked now' (c_ID claims) m with
      | (m, true) => (m, (None, Deny suName "token has been revoked"))
      | (m, false) => (m, (Some (bearerPrincipal claims), Allow suName "valid jwt"))
      end
  end.

(** [Authenticate] on the header [Authorization]. *)
Definition suAuthenticate p (now now' : Z) (header : string) (m : Revocations)
  : Revocations * (option Principal * Decision_) :=
  if bool_decide (header = "") then (m, (None, Challenge suName "no authorization header")) else
  match cutPrefix "Bearer " header with
  | Some token => authenticateBearer p now now' token m
  | None =>
      match cutPrefix "Basic " header with
      | Some basic => (m, authenticateBasic p basic)
      | None => (m, (None, Challenge suName "unrecognized authorization scheme"))
      end
  end.

(** [jwt.NewNumericDate] keeps whole seconds. *)
Definition numericDate (t : Z) : Z := (t / oneSecond * oneSecond)%Z.
(** [issueToken]; [jti] is what [generateJTI] gave. *)
Definition issueToken p (now : Z) (jti : option string) (subject : string) : result RefreshError (string * Z) :=
  match su_users p !! subject with
  | None => Err ErrUserNotFound
  | Some _ =>
      let exp := (now + su_jwtDuration p)%Z in
      match jti with
      | None => Err ErrRandom
      | Some jti =>
          match SignedString (su_jwtSecret p) (mkHeader "HS256" (Some "JWT") None)
                  (mkClaims (su_jwtIssuer p) subject [] (Some (numericDate exp)) (Some (numericDate now))
                     (Some (numericDate now)) jti "") with
          | Err _ => Err ErrSign
          | Ok signed => Ok (signed, exp)
          end
      end
  end.

(** [RevokeSession]: until when, with the two times it reads. *)
Definition revokeUntil (now now' expiresAt : Z) : Z :=
  let until := (expiresAt + 2 * oneMinute)%Z in
  if (until <? now)%Z then (now' + 2 * oneMinute)%Z else until.
Definition suRevokeSession (now now' : Z) (jti : string) (expiresAt : Z) (m : Revocations) : Revocations :=
  StoreRevokeSession jti (revokeUntil now now' expiresAt) m.

(** [refreshClaims.GetExpirationTime]: the end of the year 9999. *)
Definition refreshExpiry (claims : TokenClaims) : option Z :=
  match c_ExpiresAt claims with None => None | Some _ => Some (253402300799 * oneSecond)%Z end.
(** [RefreshSession] up to the revocation check. *)
Definition refreshClaimsOf p (now now' : Z) (old : string) : result RefreshError TokenClaims :=
  match ParseWithClaims leeway refreshExpiry (hs256 (su_jwtSecret p)) now old with
  | Err _ => Err ErrInvalidToken
  | Ok (c, _) =>
      if negb (bool_decide (c_Issuer c = su_jwtIssuer p)) || blank (c_Subject c) then Err ErrInvalidToken else
      if bool_decide (c_ID c = "") then Err ErrInvalidToken else
      if match c_ExpiresAt c with Some e => (e + su_refreshGrace p <? now')%Z | None => false end
      then Err ErrTokenTooOld else Ok c
  end.
Definition refreshUntil (now : Z) (c : TokenClaims) : Z :=
  match c_ExpiresAt c with
  | Some e => if (now + 2 * oneMinute <? e + 2 * oneMinute)%Z then (e + 2 * oneMinute)%Z else (now + 2 * oneMinute)%Z
  | None => (now + 2 * oneMinute)%Z
  end.
(** The whole call, with the times it reads. *)
Definition RefreshSession p (n1 n2 n3 n4 n5 n6 : Z) (jti : option string) (old : string) (m : Revocations)
  : Revocations * result RefreshError (string * Z) :=
  match refreshClaimsOf p n1 n2 old with
  | Err e => (m, Err e)
  | Ok c =>
      match IsSessionRevoked n3 (c_ID c) m with
      | (m, true) => (m, Err ErrTokenRevoked)
      | (m, false) =>
          match su_users p !! c_Subject c with
          | None => (m, Err ErrInvalidToken)
          | Some _ =>
              match ConsumeSession n5 (c_ID c) (refreshUntil n4 c) m with
              | (m, false) => (m, Err ErrTokenRevoked)
              | (m, true) => (m, issueToken p n6 jti (c_Subject c))
              end
          end
      end
  end.

(** [GetBySubject] and [ListGroups]. *)
Definition GetBySubject p (s : string) : option (string * string * string) :=
  (λ u, (u_Username u, u_DisplayName u, u_Email u)) <$> su_users p !! s.
Definition ListGroups p (s : string) : option (list string) := (λ _, []) <$> GetBySubject p s.

(** ** Calls at once *)

(** Where a call of [authenticateBearer] or [RefreshSession] stands; [began] is
    when the expiry of its token was looked at. *)
Inductive Purpose : Type := Login | Renew.
Inductive SessionPhase : Type :=
| Checking
| Holding (expiresAt : Z)
| Deleting
| Passed
| Consuming (until : Z).
Record SessionCall : Type := mkSessionCall { k_goal : Purpose; k_claims : TokenClaims; k_began : Z; k_phase : SessionPhase }.
Definition inPhase (ph : SessionPhase) (k : SessionCall) : SessionCall := mkSessionCall (k_goal k) (k_claims k) (k_began k) ph.

Inductive SessionEvent : Type :=
| Accepted (jti : string) (began ended : Z)
| Refreshed (jti : string) (began ended : Z)
| Revoked (jti : string).

Record SessionSys : Type := mkSessionSys {
  x_now : Z;
  x_provider : StaticUsersProvider;
  x_revocations : Revocations;
  x_calls : gmap nat SessionCall;
  x_log : list SessionEvent;
}.
Definition onCalls (f : gmap nat SessionCall → gmap nat SessionCall) (x : SessionSys) : SessionSys :=
  mkSessionSys (x_now x) (x_provider x) (x_revocations x) (f (x_calls x)) (x_log x).
Definition onRevocations (m : Revocations) (x : SessionSys) : SessionSys :=
  mkSessionSys (x_now x) (x_provider x) m (x_calls x) (x_log x).
Definition logged_ (es : list SessionEvent) (x : SessionSys) : SessionSys :=
  mkSessionSys (x_now x) (x_provider x) (x_revocations x) (x_calls x) (x_log x ++ es).
(** A call that passed the check: a login is done, a refresh goes on. *)
Definition letThrough (i : nat) (k : SessionCall) (x : SessionSys) : SessionSys :=
  match k_goal k with
  | Login => logged_ [Accepted (c_ID (k_claims k)) (k_began k) (x_now x)] (onCalls (delete i) x)
  | Renew => onCalls (<[i := inPhase Passed k]>) x
  end.

(** [expiryOf] is the expiry of the tokens the secret signed with an
    identifier. A logout names the expiry of the token it was called with. *)
Context (expiryOf : string → Z).

Inductive session_step : SessionSys → SessionSys → Prop :=
| step_time x t : (x_now x ≤ t)%Z →
    session_step x (mkSessionSys t (x_provider x) (x_revocations x) (x_calls x) (x_log x))
| step_reload x loaded :
    session_step x (mkSessionSys (x_now x) (suReload loaded (x_provider x)).1 (x_revocations x) (x_calls x) (x_log x))
| step_revoke x jti n n' : (n ≤ n' ≤ x_now x)%Z →
    session_step x (logged_ [Revoked jti] (onRevocations (suRevokeSession n n' jti (expiryOf jti) (x_revocations x)) x))
| step_login x i token c : x_calls x !! i = None → bearerClaims (x_provider x) (x_now x) token = inr c →
    session_step x (onCalls (<[i := mkSessionCall Login c (x_now x) Checking]>) x)
| step_renew x i n n' old c : x_calls x !! i = None → (n ≤ n' ≤ x_now x)%Z →
    refreshClaimsOf (x_provider x) n n' old = Ok c →
    session_step x (onCalls (<[i := mkSessionCall Renew c n' Checking]>) x)
| step_read x i k : x_calls x !! i = Some k → k_phase k = Checking →
    session_step x (match x_revocations x !! c_ID (k_claims k) with
            | None => letThrough i k x
            | Some u => onCalls (<[i := inPhase (Holding u) k]>) x
            end)
| step_judge x i k u n : x_calls x !! i = Some k → k_phase k = Holding u → (n ≤ x_now x)%Z →
    session_step x (match judgeRevocation n (Some u) with
            | RowExpired => onCalls (<[i := inPhase Deleting k]>) x
            | _ => onCalls (delete i) x
            end)
| step_delete x i k : x_calls x !! i = Some k → k_phase k = Deleting →
    session_step x (letThrough i k (onRevocations (delete (c_ID (k_claims k)) (x_revocations x)) x))
| step_active x i k n : x_calls x !! i = Some k → k_phase k = Passed → (n ≤ x_now x)%Z →
    is_Some (su_users (x_provider x) !! c_Subject (k_claims k)) →
    session_step x (onCalls (<[i := inPhase (Consuming (refreshUntil n (k_claims k))) k]>) x)
| step_consume x i k u m : x_calls x !! i = Some k → k_phase k = Consuming u →
    ConsumeSession (x_now x) (c_ID (k_claims k)) u (x_revocations x) = (m, true) →
    session_step x (logged_ [Refreshed (c_ID (k_claims k)) (k_began k) (x_now x)] (onCalls (delete i) (onRevocations m x)))
| step_refused x i : session_step x (onCalls (delete i) x).
End provider.

(** ** What a session that is over can still do *)

Section theorems.
Context `{J : Jwt} (secret : string) (grace : Z) (expiryOf : string → Z).

(** The tokens the secret signed that share an identifier share their expiry:
    identifiers are drawn from 128 random bits. *)
Hypothesis one_expiry : ∀ token h c e, ParseUnverified token = Ok (h, c) →
  Verifies (HmacKey secret) token = true → c_ExpiresAt c = Some e → e = expiryOf (c_ID c).

Definition endsSession (j : string) (e : SessionEvent) : Prop :=
  match e with Accepted _ _ _ => False | Refreshed j' _ _ | Revoked j' => j' = j end.
(** What happens with a session that was refreshed or revoked before. *)
Definition over (j : string) (e : SessionEvent) : Prop :=
  match e with
  | Accepted j' began ended => j' = j → (began < expiryOf j + 2 * oneMinute ∧ expiryOf j + 2 * oneMinute ≤ ended)%Z
  | Refreshed j' began ended => j' = j → (began ≤ expiryOf j + grace ∧ expiryOf j + 2 * oneMinute ≤ ended)%Z
  | Revoked _ => True
  end.
Definition settledIn (j : string) (l : list SessionEvent) : Prop := ∃ e, e ∈ l ∧ endsSession j e.
Definition spent (l : list SessionEvent) : Prop := ∀ l1 e l2 j, l = l1 ++ e :: l2 → endsSession j e → Forall (over j) l2.

Lemma settledIn_snoc j l e : settledIn j (l ++ [e]) ↔ settledIn j l ∨ endsSession j e.
Proof. unfold settledIn. set_solver. Qed.
Lemma spent_snoc l e' : spent l → (∀ j, settledIn j l → over j e') → spent (l ++ [e']).
Proof.
  intros Hl He l1 e l2 j E Hs. destruct l2 as [|z l2 _] using rev_ind; [constructor|].
  rewrite app_comm_cons, app_assoc in E. apply app_inj_tail in E as [-> ->].
  apply Forall_app. split; [by eapply Hl|]. constructor; [|done]. apply He. exists e. set_solver.
Qed.

Definition phaseOk (now exp : Z) (k : SessionCall) : Prop :=
  match k_phase k with
  | Checking => True
  | Holding u => (exp + 2 * oneMinute ≤ u)%Z
  | Deleting => (exp + 2 * oneMinute ≤ now)%Z
  | Passed => k_goal k = Renew
  | Consuming u => k_goal k = Renew ∧ (exp + 2 * oneMinute ≤ u)%Z
  end.
Definition sessionCallOk (now : Z) (k : SessionCall) : Prop :=
  c_ExpiresAt (k_claims k) = Some (expiryOf (c_ID (k_claims k))) ∧
  (k_began k < expiryOf (c_ID (k_claims k)) + 2 * oneMinute ∨ k_goal k = Renew)%Z ∧
  (k_began k ≤ expiryOf (c_ID (k_claims k)) + grace ∨ k_goal k = Login)%Z ∧
  phaseOk now (expiryOf (c_ID (k_claims k))) k.
Record SessionInv (x : SessionSys) : Prop := {
  si_provider : su_jwtSecret (x_provider x) = secret ∧ su_refreshGrace (x_provider x) = grace;
  si_rows : map_Forall (λ j u, expiryOf j + 2 * oneMinute ≤ u)%Z (x_revocations x);
  si_calls : map_Forall (λ _ k, sessionCallOk (x_now x) k) (x_calls x);
  si_settled : ∀ j, settledIn j (x_log x) → x_revocations x !! j = None → (expiryOf j + 2 * oneMinute ≤ x_now x)%Z;
  si_log : spent (x_log x);
}.

Definition startsWith (now : Z) (p : StaticUsersProvider) : SessionSys := mkSessionSys now p ∅ ∅ [].
Lemma inv_start now p : su_jwtSecret p = secret → su_refreshGrace p = grace → SessionInv (startsWith now p).
Proof.
  intros Hs Hg. split; simpl; [done|apply map_Forall_empty|apply map_Forall_empty| |].
  - intros j (e & He & _). by apply not_elem_of_nil in He.
  - intros [|] ????; done.
Qed.

(** *** The times and claims of a call *)

Lemma bearerClaims_expiry p now token c : su_jwtSecret p = secret → bearerClaims p now token = inr c →
  c_ExpiresAt c = Some (expiryOf (c_ID c)) ∧ (now < expiryOf (c_ID c) + 2 * oneMinute)%Z.
Proof.
  intros Hs. unfold bearerClaims. destruct (ParseWithClaims _ _ _ _ _) as [[c' v]|e] eqn:E; [|done].
  intros H. repeat case_match; simplify_eq.
  apply ParseWithClaims_sound in E as (h & k & Hu & Hk & Hv & He & Hr & _).
  unfold hs256 in Hk. case_match; simplify_eq. destruct (Hr eq_refl) as [e Ee].
  rewrite Ee. specialize (He e Ee). assert (e = expiryOf (c_ID c)) as -> by (by eapply one_expiry). done.
Qed.
Lemma refreshClaims_expiry p n n' old c : su_jwtSecret p = secret → su_refreshGrace p = grace →
  refreshClaimsOf p n n' old = Ok c →
  c_ExpiresAt c = Some (expiryOf (c_ID c)) ∧ (n' ≤ expiryOf (c_ID c) + grace)%Z.
Proof.
  intros Hs Hg. unfold refreshClaimsOf. destruct (ParseWithClaims _ _ _ _ _) as [[c' v]|e] eqn:E; [|done].
  intros H. repeat case_match; simplify_eq.
  all: apply ParseWithClaims_sound in E as (h & k & Hu & Hk & Hv & _ & Hr & _).
  all: unfold hs256 in Hk; case_match; simplify_eq; destruct (Hr eq_refl) as [e' Ee]; unfold refreshExpiry in Ee;
    case_match; simplify_eq.
  match goal with Hc : c_ExpiresAt c = Some ?z |- _ =>
    assert (z = expiryOf (c_ID c)) as Hz by (by eapply one_expiry) end.
  rewrite <- Hz. split; [done|].
  match goal with H : (_ <? _)%Z = false |- _ => apply Z.ltb_ge in H end. lia.
Qed.
Lemma revokeUntil_late n n' e : (n ≤ n')%Z → (e + 2 * oneMinute ≤ revokeUntil n n' e)%Z.
Proof. intros ?. unfold revokeUntil, oneMinute, oneSecond. destruct (Z.ltb_spec (e + 2 * (60 * 1000000000)) n); lia. Qed.
Lemma refreshUntil_late n c e : c_ExpiresAt c = Some e → (e + 2 * oneMinute ≤ refreshUntil n c)%Z.
Proof. intros Hc. unfold refreshUntil. rewrite Hc. destruct (Z.ltb_spec (n + 2 * oneMinute) (e + 2 * oneMinute)); lia. Qed.

Lemma callOk_later t t' k : (t ≤ t')%Z → sessionCallOk t k → sessionCallOk t' k.
Proof. intros ? (? & ? & ? & Hp). repeat (split; [done|]). unfold phaseOk in *. case_match; [done| |lia|done..]. done. Qed.
Lemma callOk_phase now k ph : sessionCallOk now k → phaseOk now (expiryOf (c_ID (k_claims k))) (inPhase ph k) → sessionCallOk now (inPhase ph k).
Proof. intros (? & ? & ? & _) Hp. done. Qed.

(** *** Every step keeps the invariant *)

Lemma inv_set_call x i k : SessionInv x → sessionCallOk (x_now x) k → SessionInv (onCalls (<[i := k]>) x).
Proof. intros [] Hk. split; simpl; [done..| |done|done]. by apply map_Forall_insert_2. Qed.
Lemma inv_drop_call x i : SessionInv x → SessionInv (onCalls (delete i) x).
Proof. intros []. split; simpl; [done..| |done|done]. by apply map_Forall_delete. Qed.
(** A row of a session may go once its token has run out. *)
Lemma inv_delete_row x j : SessionInv x → (expiryOf j + 2 * oneMinute ≤ x_now x)%Z →
  SessionInv (onRevocations (delete j (x_revocations x)) x).
Proof.
  intros [] Hj. split; simpl; [done| |done| |done]; [by apply map_Forall_delete|].
  intros j' Hs. destruct (decide (j' = j)) as [->|Hne]; [done|]. rewrite lookup_delete_ne by done. by apply si_settled0.
Qed.
Lemma inv_put_row x j u : SessionInv x → (expiryOf j + 2 * oneMinute ≤ u)%Z →
  SessionInv (onRevocations (<[j := u]> (x_revocations x)) x).
Proof.
  intros [] Hj. split; simpl; [done| |done| |done]; [by apply map_Forall_insert_2|].
  intros j' Hs. destruct (decide (j' = j)) as [->|Hne]; [by rewrite lookup_insert_eq|]. rewrite lookup_insert_ne by done.
  by apply si_settled0.
Qed.
Lemma inv_log_event x e : SessionInv x → (∀ j, endsSession j e → is_Some (x_revocations x !! j)) →
  (∀ j, settledIn j (x_log x) → over j e) → SessionInv (logged_ [e] x).
Proof.
  intros [] He Ho. split; simpl; [done..| |by apply spent_snoc].
  intros j [Hs|Hs]%settledIn_snoc Hn; [by apply si_settled0|]. destruct (He j Hs). congruence.
Qed.

(** Passing the check: only when the row is missing, at this moment. *)
Lemma inv_letThrough x i k : SessionInv x → sessionCallOk (x_now x) k →
  x_revocations x !! c_ID (k_claims k) = None → SessionInv (letThrough i k x).
Proof.
  intros HI Hk Hn. unfold letThrough. destruct (k_goal k) eqn:Hg.
  - apply inv_log_event; [by apply inv_drop_call|done|]. intros j Hs <-. simpl in Hs.
    destruct Hk as (_ & [?|?] & _); [|congruence]. split; [done|]. by apply (si_settled x HI).
  - apply inv_set_call; [done|]. by apply callOk_phase.
Qed.
Lemma inv_consume x i k u m : SessionInv x → sessionCallOk (x_now x) k → k_phase k = Consuming u →
  ConsumeSession (x_now x) (c_ID (k_claims k)) u (x_revocations x) = (m, true) →
  SessionInv (logged_ [Refreshed (c_ID (k_claims k)) (k_began k) (x_now x)] (onCalls (delete i) (onRevocations m x))).
Proof.
  intros HI Hk Hp Hc. destruct Hk as (_ & _ & Hb & Hph). unfold phaseOk in Hph. rewrite Hp in Hph. destruct Hph as [Hg Hu].
  set (j := c_ID (k_claims k)) in *. assert (m = <[j := u]> (x_revocations x) ∧
    (settledIn j (x_log x) → expiryOf j + 2 * oneMinute ≤ x_now x)%Z) as [-> Hold].
  { unfold ConsumeSession in Hc. destruct (x_revocations x !! j) as [v|] eqn:Ej.
    - destruct (Z.ltb_spec (x_now x) v); simplify_eq. split; [done|]. intros _.
      pose proof (si_rows x HI j v Ej). simpl in *. lia.
    - simplify_eq. split; [done|]. intros Hs. by apply (si_settled x HI). }
  apply inv_log_event; [by apply inv_drop_call, inv_put_row| |].
  - intros j' <-. simpl. by rewrite lookup_insert_eq.
  - simpl. intros j' Hs <-. split; [|by apply Hold]. destruct Hb; [done|congruence].
Qed.

Lemma inv_step x y : session_step expiryOf x y → SessionInv x → SessionInv y.
Proof.
  intros Hs HI. destruct (HI) as [[Hsec Hgr] Hrows Hcalls _ _].
  destruct Hs as [x t Ht|x loaded|x jti n n' Hn|x i token c _ Hc|x i n n' old c _ Hn Hc|x i k Hk Hp|x i k u n Hk Hp Hn
    |x i k Hk Hp|x i k n Hk Hp Hn _|x i k u m Hk Hp Hm|x i]; try (pose proof (Hcalls i k Hk) as Hok; simpl in Hok).
  - destruct HI. split; simpl; [done|done| | |done].
    + eapply map_Forall_impl; [done|]. intros ???; by eapply callOk_later.
    + intros j ??. transitivity (x_now x); auto.
  - destruct HI. split; simpl; [|done..]. unfold suReload. by destruct loaded.
  - apply inv_log_event; simpl.
    + apply inv_put_row; [done|]. apply revokeUntil_late. lia.
    + intros j <-. unfold suRevokeSession, StoreRevokeSession. by rewrite lookup_insert_eq.
    + done.
  - apply inv_set_call; [done|]. apply bearerClaims_expiry in Hc as []; [|done]. unfold sessionCallOk, phaseOk; split_and!; simpl; auto.
  - apply inv_set_call; [done|]. apply refreshClaims_expiry in Hc as []; [|done..]. unfold sessionCallOk, phaseOk; split_and!; simpl; auto.
  - case_match eqn:Er; [|by apply inv_letThrough]. apply inv_set_call, callOk_phase; [done..|].
    by apply (Hrows _ _ Er).
  - unfold judgeRevocation. destruct (Z.ltb_spec u n); [|by apply inv_drop_call]. apply inv_set_call, callOk_phase; [done..|].
    destruct Hok as (_ & _ & _ & Hu). unfold phaseOk in *. rewrite Hp in Hu. simpl. lia.
  - apply inv_letThrough; [|done|simpl; by rewrite lookup_delete_eq]. apply inv_delete_row; [done|].
    destruct Hok as (_ & _ & _ & Hu). unfold phaseOk in Hu. by rewrite Hp in Hu.
  - destruct (Hok) as (He & _ & _ & Hu). unfold phaseOk in Hu. rewrite Hp in Hu.
    apply inv_set_call, callOk_phase; [done..|]. split; [done|]. by apply refreshUntil_late.
  - by eapply inv_consume.
  - by apply inv_drop_call.
Qed.
Lemma inv_reached now p x : su_jwtSecret p = secret → su_refreshGrace p = grace →
  rtc (session_step expiryOf) (startsWith now p) x → SessionInv x.
Proof.
  intros Hs Hg Hr. assert (SessionInv (startsWith now p)) as HI by (by apply inv_start).
  induction Hr as [|? ? ? Hs' _ IH]; [done|]. apply IH. by eapply inv_step.
Qed.
End theorems.

(** C25: a session that is over stays over. In every interleaving of logins,
    bearer requests, logouts and refreshes, with the check and the removal of an
    expired revocation as separate steps: once a session was refreshed or
    revoked, it is refreshed again only by a call that took at least the two
    minutes less the grace period after the first look at its token, so never
    when calls are shorter; and a bearer request with it passes only if the last
    moment of the token passed during the request. *)
Theorem sessions_stay_over `{J : Jwt} (expiryOf : string → Z) now p x l1 e l2 j :
  (∀ token h c e, ParseUnverified token = Ok (h, c) → Verifies (HmacKey (su_jwtSecret p)) token = true →
     c_ExpiresAt c = Some e → e = expiryOf (c_ID c)) →
  rtc (session_step expiryOf) (startsWith now p) x →
  x_log x = l1 ++ e :: l2 → endsSession j e →
  (∀ began ended, Refreshed j began ended ∈ l2 → (2 * oneMinute - su_refreshGrace p ≤ ended - began)%Z) ∧
  (∀ began ended, Accepted j began ended ∈ l2 →
     (began < expiryOf j + 2 * oneMinute ≤ ended)%Z).
Proof.
  intros Hone Hr Hl Hs. pose proof (inv_reached _ _ _ Hone _ _ _ eq_refl eq_refl Hr) as HI.
  pose proof (si_log _ _ _ _ HI _ _ _ _ Hl Hs) as Hall. rewrite Forall_forall in Hall.
  split; intros b t Hin; specialize (Hall _ Hin eq_refl); lia.
Qed.

(** ** The users of a file *)

Lemma usersMap_none (us : list UserEntry) n : n ∉ (u_Username <$> us) →
  (list_to_map ((λ u, (u_Username u, u)) <$> us) : gmap string UserEntry) !! n = None.
Proof. intros Hn. apply not_elem_of_list_to_map_1. by rewrite <- list_fmap_compose. Qed.

(** A file is accepted when every user has a name of a person and a password,
    and the names differ; the provider then knows exactly these users. *)
Theorem addUsers_exact us users m :
  addUsers users us = Ok m ↔
  Forall (λ u, blank (u_Username u) = false ∧ u_PasswordHash u ≠ "" ∧ ValidExternalUsername (u_Username u) = true ∧
               users !! u_Username u = None) us ∧
  NoDup (u_Username <$> us) ∧
  m = list_to_map ((λ u, (u_Username u, u)) <$> us) ∪ users.
Proof.
  revert users. induction us as [|u us IH]; intros users; simpl.
  { rewrite NoDup_nil, (left_id_L ∅ (∪)). naive_solver. }
  rewrite Forall_cons, NoDup_cons. destruct (blank (u_Username u)); [naive_solver|].
  case_bool_decide; [naive_solver|]. destruct (ValidExternalUsername (u_Username u)) eqn:Ev; simpl; [|naive_solver].
  case_bool_decide as Hin; [destruct Hin as [? Hin]; rewrite Hin; naive_solver|].
  apply eq_None_not_Some in Hin. rewrite IH, <- insert_union_l. split.
  - intros (Hall & Hnd & ->). assert (u_Username u ∉ (u_Username <$> us)) as Hu.
    { intros (v & Hv & Hinv)%list_elem_of_fmap. rewrite Forall_forall in Hall. destruct (Hall v Hinv) as (_&_&_&Hn).
      by rewrite <- Hv, lookup_insert_eq in Hn. }
    split_and!; try done; [|by rewrite insert_union_r by (by apply usersMap_none)].
    eapply Forall_impl; [done|]. simpl. intros v (?&?&?&[]%lookup_insert_None). done.
  - intros ((_ & Hall) & (Hu & Hnd) & ->). split_and!; [|done|by rewrite insert_union_r by (by apply usersMap_none)].
    apply Forall_forall. intros v Hv. rewrite Forall_forall in Hall. destruct (Hall v Hv) as (?&?&?&?).
    split_and!; try done. rewrite lookup_insert_ne; [done|]. intros E. apply Hu. rewrite E. by apply list_elem_of_fmap_2.
Qed.

(** ** A library of tokens given by a table, and a run *)

#[export] Instance VerifyKey_eq_dec : EqDecision VerifyKey.
Proof. solve_decision. Defined.

Section table.
Context (tokens : list (string * (TokenHeader * TokenClaims * VerifyKey))).
Definition tokenOf (bearer : string) : option (TokenHeader * TokenClaims * VerifyKey) :=
  snd <$> List.find (λ t, bool_decide (t.1 = bearer)) tokens.
Definition fits (o : ParserOptions) (exp : option Z) (now : Z) (c : TokenClaims) : bool :=
  match exp with None => negb (o_ExpirationRequired o) | Some e => (now <? e + o_Leeway o)%Z end &&
  match o_Issuer o with None => true | Some i => bool_decide (c_Issuer c = i) end &&
  match o_Audience o with None => true | Some a => bool_decide (a ∈ c_Audience c) end.
Definition tableParse (o : ParserOptions) (getExp : TokenClaims → option Z)
  (key : TokenHeader → result string VerifyKey) (now : Z) (bearer : string) : result JwtError (TokenClaims * bool) :=
  match tokenOf bearer with
  | None => Err (mkJwtError false "malformed")
  | Some (h, c, k0) =>
      match key h with
      | Err e => Err (mkJwtError false e)
      | Ok k => if bool_decide (k = k0)
                then if fits o (getExp c) now c then Ok (c, true) else Err (mkJwtError true "claims")
                else Err (mkJwtError false "signature")
      end
  end.
#[refine] Instance tableJwt : Jwt := {|
  ParseUnverified bearer := match tokenOf bearer with Some (h, c, _) => Ok (h, c) | None => Err "malformed" end;
  Verifies k bearer := match tokenOf bearer with Some (_, _, k0) => bool_decide (k = k0) | None => false end;
  ParseWithClaims := tableParse;
  SignedString _ _ c := Ok (c_ID c);
|}.
Proof.
  intros o getExp key now bearer c valid. unfold tableParse. destruct (tokenOf bearer) as [[[h c'] k0]|]; [|done].
  destruct (key h) as [k|] eqn:Ek; [|done]. case_bool_decide; [|done]. destruct (fits _ _ _ _) eqn:Hf; [|done].
  intros [= <- <-]. unfold fits in Hf. rewrite !andb_true_iff in Hf. destruct Hf as [[He Hi] Ha].
  exists h, k. split_and!; [done|done|by apply bool_decide_eq_true_2| | | |].
  - intros e E. rewrite E in He. by apply Z.ltb_lt.
  - intros Er. rewrite Er in He. destruct (getExp c'); [done|discriminate].
  - intros i E. rewrite E in Hi. by apply bool_decide_eq_true in Hi.
  - intros a E. rewrite E in Ha. by apply bool_decide_eq_true in Ha.
Defined.
End table.

(** A token that runs out after an hour, and a provider whose grace period is
    [grace]. *)
Definition exClaims : TokenClaims := mkClaims "gitstore/static-users" "alice" [] (Some (60 * oneMinute)%Z) None None "j1" "".
Definition exTokens : list (string * (TokenHeader * TokenClaims * VerifyKey)) :=
  [("t1", (mkHeader "HS256" None None, exClaims, HmacKey "s"))].
#[local] Instance exJwt : Jwt := tableJwt exTokens.
Definition exStaticUsers (grace : Z) : StaticUsersProvider :=
  mkStaticUsers {[ "alice" := mkUser "alice" "h" "" "" ]} "s" "gitstore/static-users" (60 * oneMinute)%Z grace.

(** With a grace period beyond the two minutes that revocations outlive their
    token, a session its user logged out of is refreshed: here, three minutes
    after its token ran out. With the default of a minute the token is too old. *)
Lemma long_grace_revives :
  let m := suRevokeSession 0 0 "j1" (60 * oneMinute)%Z ∅ in
  let t := (63 * oneMinute)%Z in
  (authenticateBearer (exStaticUsers (10 * oneMinute)%Z) 0 0 "t1" m).2 = (None, Deny suName "token has been revoked") ∧
  (RefreshSession (exStaticUsers (10 * oneMinute)%Z) t t t t t t (Some "j2") "t1" m).2 = Ok ("j2", (123 * oneMinute)%Z) ∧
  (RefreshSession (exStaticUsers oneMinute) t t t t t t (Some "j2") "t1" m).2 = Err ErrTokenTooOld.
Proof. vm_compute. done. Qed.

Lemma sessions_stay_over_witness :
  ∃ x, rtc (session_step (λ _, 60 * oneMinute)%Z) (startsWith 0 (exStaticUsers (10 * oneMinute)%Z)) x ∧
    x_log x = [] ++ Revoked "j1" :: [Refreshed "j1" (63 * oneMinute)%Z (63 * oneMinute)%Z] ∧
    ∀ began ended, Refreshed "j1" began ended ∈ [Refreshed "j1" (63 * oneMinute)%Z (63 * oneMinute)%Z] →
      (2 * oneMinute - 10 * oneMinute ≤ ended - began)%Z.
Proof.
  assert (∃ x, rtc (session_step (λ _, 60 * oneMinute)%Z) (startsWith 0 (exStaticUsers (10 * oneMinute)%Z)) x ∧
    x_log x = [] ++ Revoked "j1" :: [Refreshed "j1" (63 * oneMinute)%Z (63 * oneMinute)%Z]) as (x & Hr & Hl).
  { eexists. split.
    - eapply rtc_l; [apply (step_revoke _ _ "j1" 0 0); vm_compute; done|].
      eapply rtc_l; [apply (step_time _ _ (63 * oneMinute)%Z); vm_compute; done|].
      eapply rtc_l; [apply (step_renew _ _ 0 (63 * oneMinute)%Z (63 * oneMinute)%Z "t1" exClaims); vm_compute; done|].
      eapply rtc_l; [apply (step_read _ _ 0 (mkSessionCall Renew exClaims (63 * oneMinute)%Z Checking)); vm_compute; done|].
      eapply rtc_l; [eapply (step_judge _ _ 0 _ _ (63 * oneMinute)%Z); vm_compute; done|].
      eapply rtc_l; [eapply (step_delete _ _ 0); vm_compute; done|].
      eapply rtc_l; [eapply (step_active _ _ 0 _ (63 * oneMinute)%Z); first [reflexivity | vm_compute; done | eexists; reflexivity]|].
      eapply rtc_l; [eapply (step_consume _ _ 0); vm_compute; done|]. apply rtc_refl.
    - vm_compute. done. }
  exists x. split; [done|]. split; [done|].
  refine (proj1 (sessions_stay_over _ _ _ x [] _ _ "j1" _ Hr Hl eq_refl)).
  intros token h c e Hp _ He. simpl in Hp. unfold tokenOf in Hp. simpl in Hp. case_bool_decide; simplify_eq/=. done.
Defined.
