(* ===== verification/ServiceAccounts.v ===== *)
(** * Service accounts

    [datastore/serviceaccount.go], and the operations on service accounts and on
    used assertions of [datastore/memdb/backend.go] and
    [datastore/scylla/serviceaccount.go]. Used assertions are the interface
    [ReplayStore], of which both stores are instances. *)

From S2P Require Import Prelude ResourceVersion Entities MemTable MemStore Pagination Auth Sessions.
From Stdlib Require Import Ascii.
#[local] Open Scope go_scope.

(** ** Accounts *)

Record ServiceAccountPublicKey : Type := mkPublicKey {
  pk_KeyID : string;
  pk_Algorithm : string;
  pk_PublicKey : string;
  pk_EnrolledAt : Z;
}.
Record ServiceAccount : Type := mkAccount {
  sa_UID : string;
  sa_Name : string;
  sa_Disabled : bool;
  sa_Generation : Z;
  sa_ResourceVersion : string;
  sa_CreationTimestamp : Z;
  sa_CreationActor : string;
  sa_UpdateTimestamp : Z;
  sa_UpdateActor : string;
  sa_PublicKeys : list ServiceAccountPublicKey;
  sa_DeletionTimestamp : option Z;
}.

Definition ServiceAccountSubject (name : string) : string := "system:serviceaccount:" +:+ name.
Definition ParseServiceAccountSubject (subject : string) : option string :=
  match cutPrefix "system:serviceaccount:" subject with
  | None => None
  | Some name =>
      if bool_decide (name = "") || hasSeparator name || (256 <? length_ subject)%Z then None else Some name
  end.

(** Keys and versions after an update; the version and the clock are those of
    the call. *)
Definition withKeys (now : Z) (keys : list ServiceAccountPublicKey) (a : ServiceAccount) : ServiceAccount :=
  mkAccount (sa_UID a) (sa_Name a) (sa_Disabled a) (sa_Generation a + 1) (nextResourceVersion (sa_ResourceVersion a))
    (sa_CreationTimestamp a) (sa_CreationActor a) now (sa_UpdateActor a) keys (sa_DeletionTimestamp a).
Definition keptKeys (remove : list string) (keys : list ServiceAccountPublicKey) : list ServiceAccountPublicKey :=
  filter (λ k, pk_KeyID k ∉ remove) keys.
(** The loop that refuses a repeated key. *)
Fixpoint distinctKeys (seen : list string) (keys : list ServiceAccountPublicKey) : bool :=
  match keys with
  | [] => true
  | k :: keys => if bool_decide (pk_KeyID k ∈ seen) then false else distinctKeys (pk_KeyID k :: seen) keys
  end.
Definition ApplyServiceAccountKeyUpdate (now : Z) (a : ServiceAccount) (add : list ServiceAccountPublicKey)
  (removeKeyIDs : list string) (expected : string) : result StoreError ServiceAccount :=
  if negb (bool_decide (sa_ResourceVersion a = expected)) then Err SConflict else
  let kept := keptKeys removeKeyIDs (sa_PublicKeys a) ++ add in
  if bool_decide (length kept = 0) then Err SInvalidArgument else
  if negb (distinctKeys [] kept) then Err SInvalidArgument else Ok (withKeys now kept a).
(** [AdvanceServiceAccountSystemVersion] with the flag it is called for. *)
Definition withDisabled (now : Z) (disabled : bool) (a : ServiceAccount) : ServiceAccount :=
  mkAccount (sa_UID a) (sa_Name a) disabled (sa_Generation a) (nextResourceVersion (sa_ResourceVersion a))
    (sa_CreationTimestamp a) (sa_CreationActor a) now (sa_UpdateActor a) (sa_PublicKeys a) (sa_DeletionTimestamp a).

(** ** Accounts in memory *)

Definition accountId (a : ServiceAccount) : list string := [sa_UID a].
Definition accountName (a : ServiceAccount) : list string := [sa_Name a].

Section accounts.
Context `{TA : !Table ServiceAccount accountId}.
Implicit Types t : table TA.

Definition commitAccount t (r : result StoreError (table TA)) : table TA * result StoreError unit :=
  match r with Ok t' => (t', Ok ()) | Err e => (t, Err e) end.
Definition CreateServiceAccount t (o : option ServiceAccount) : table TA * result StoreError unit :=
  match o with
  | None => (t, Err SInvalidArgument)
  | Some a =>
      commitAccount t (
        let! _ := guard_ (bool_decide (firstId t [sa_UID a] = None)) SAlreadyExists in
        let! _ := guard_ (bool_decide (firstUnique t accountName [sa_Name a] = None)) SAlreadyExists in
        orFail (insertRow accountName t a) SDatabase)
  end.
Definition GetServiceAccountByUID t (uid : string) : result StoreError ServiceAccount :=
  orFail (firstId t [uid]) SNotFound.
Definition GetServiceAccountBySubject t (name : string) : result StoreError ServiceAccount :=
  orFail (firstUnique t accountName [name]) SNotFound.
Definition ListServiceAccounts (decode64 : string → option string) (readTime : string → option Z) t (page : PageParams)
  : PageResult ServiceAccount :=
  paginateSlice decode64 readTime (λ a, (sa_CreationTimestamp a, sa_UID a)) (allRows t) page.
Definition UpdateServiceAccountKeys t (now : Z) (uid : string) (add : list ServiceAccountPublicKey)
  (removeKeyIDs : list string) (expected : string) : table TA * result StoreError ServiceAccount :=
  match (let! raw := orFail (firstId t [uid]) SNotFound in
         let! updated := ApplyServiceAccountKeyUpdate now raw add removeKeyIDs expected in
         let! t' := orFail (insertRow accountName t updated) SDatabase in
         Ok (t', updated)) with
  | Ok (t', updated) => (t', Ok updated)
  | Err e => (t, Err e)
  end.
Definition SetServiceAccountDisabled t (now : Z) (uid : string) (disabled : bool) : table TA * result StoreError unit :=
  commitAccount t (
    let! raw := orFail (firstId t [uid]) SNotFound in
    orFail (insertRow accountName t (withDisabled now disabled raw)) SDatabase).
Definition DeleteServiceAccount t (uid : string) : table TA * result StoreError unit :=
  commitAccount t (
    let! raw := orFail (firstId t [uid]) SNotFound in
    orFail (deleteRow t raw) SDatabase).
End accounts.

(** ** Used assertions *)

(** What the provider relies on: a digest that was consumed is held until the
    expiry it was consumed with; while it is held nobody consumes it again. A
    call reads its clock at [n] and takes effect at [now]. *)
Class ReplayStore (S : Type) : Type := {
  consumes (n now : Z) (digest : string) (expiresAt : Z) : S → S → result StoreError bool → Prop;
  ages (now : Z) : S → S → Prop;
  held : S → string → option Z;
  wellKept : S → Prop;

  consumes_kept n now d e s s' r : wellKept s → consumes n now d e s s' r → wellKept s';
  ages_kept now s s' : wellKept s → ages now s s' → wellKept s';
  consumes_once n now d e s s' : wellKept s → (n ≤ now)%Z → consumes n now d e s s' (Ok true) →
    (n < e)%Z ∧ (∀ u, held s d = Some u → (u ≤ now)%Z) ∧ (∃ u, held s' d = Some u ∧ (e ≤ u)%Z);
  consumes_keeps n now d e s s' r d' u : wellKept s → (n ≤ now)%Z → consumes n now d e s s' r →
    held s d' = Some u → (now < u)%Z →
    ∃ u', held s' d' = Some u' ∧ (u ≤ u')%Z;
  ages_keeps now s s' d u : ages now s s' → held s d = Some u → (now < u)%Z → held s' d = Some u;
}.

(** The text of the expiry that the rows are indexed by is left to the index. *)
Record AssertionReplay : Type := mkAssertionReplay { rp_JTIDigest : string; rp_ExpiresAt : Z }.
Definition replayId (r : AssertionReplay) : list string := [rp_JTIDigest r].
Definition serviceAccountAssertionReplayPruneLimit : nat := 256.

Section replays.
Context `{TR : !Table AssertionReplay replayId}.
(** [txn.LowerBound] on the index of expiries, of which each row is one. *)
Context (byExpiry : table TR → list AssertionReplay).
Implicit Types t : table TR.

(** [pruneServiceAccountAssertionReplays]: the iterator shows the table as it
    was when it was made. *)
Fixpoint pruneRows (limit : nat) (now : Z) (it : list AssertionReplay) t : option (table TR) :=
  match limit, it with
  | 0, _ | _, [] => Some t
  | S limit, r :: it =>
      if (now <? rp_ExpiresAt r)%Z then Some t
      else t' ← deleteRow t r; pruneRows limit now it t'
  end.
Definition pruneServiceAccountAssertionReplays (now : Z) t : option (table TR) :=
  pruneRows serviceAccountAssertionReplayPruneLimit now (byExpiry t) t.
Definition TryConsumeServiceAccountAssertion (now : Z) (digest : string) (expiresAt : Z) t
  : table TR * result StoreError bool :=
  if bool_decide (digest = "") then (t, Err SInvalidArgument) else
  if negb (now <? expiresAt)%Z then (t, Err SInvalidArgument) else
  match pruneServiceAccountAssertionReplays now t with
  | None => (t, Err SDatabase)
  | Some t' =>
      let fresh t' := match insertRow (λ _, []) t' (mkAssertionReplay digest expiresAt) with
                      | None => (t, Err SDatabase) | Some t'' => (t'', Ok true) end in
      match firstId t' [digest] with
      | None => fresh t'
      | Some replay =>
          if (now <? rp_ExpiresAt replay)%Z then (t, Ok false)
          else match deleteRow t' replay with None => (t, Err SDatabase) | Some t' => fresh t' end
      end
  end.
End replays.

(** In ScyllaDB a row lives for whole seconds from when it is written. *)
Definition maxServiceAccountAssertionReplayTTL : Z := 2147483647.
Definition serviceAccountAssertionReplayTTL (now expiresAt : Z) : result StoreError Z :=
  let remaining := (expiresAt - now)%Z in
  if (remaining <=? 0)%Z then Err SInvalidArgument else
  let seconds := (if bool_decide (Z.rem remaining oneSecond ≠ 0)
                  then Z.quot remaining oneSecond + 1 else Z.quot remaining oneSecond)%Z in
  if (maxServiceAccountAssertionReplayTTL <? seconds)%Z then Err SInvalidArgument else Ok seconds.
(** The conditional insert: a request that fails may have been applied. *)
Definition insertReplay (now ttl : Z) (digest : string) (m : gmap string Z) : gmap string Z * bool :=
  match m !! digest with
  | Some dies => if (now <? dies)%Z then (m, false) else (<[digest := (now + ttl * oneSecond)%Z]> m, true)
  | None => (<[digest := (now + ttl * oneSecond)%Z]> m, true)
  end.
Definition scyllaConsumes (n now : Z) (digest : string) (expiresAt : Z) (m m' : gmap string Z) (r : result StoreError bool)
  : Prop :=
  if bool_decide (digest = "") then m' = m ∧ r = Err SInvalidArgument else
  match serviceAccountAssertionReplayTTL n expiresAt with
  | Err e => m' = m ∧ r = Err e
  | Ok ttl => (m' = (insertReplay now ttl digest m).1 ∧ r = Ok (insertReplay now ttl digest m).2) ∨
              ((m' = m ∨ m' = (insertReplay now ttl digest m).1) ∧ r = Err SDatabase)
  end.

Lemma replayTTL_enough n e ttl : serviceAccountAssertionReplayTTL n e = Ok ttl → (n < e ∧ e - n ≤ ttl * oneSecond)%Z.
Proof.
  unfold serviceAccountAssertionReplayTTL. destruct (Z.leb_spec (e - n) 0); [done|].
  set (q := Z.quot (e - n) oneSecond). set (m := Z.rem (e - n) oneSecond).
  assert (e - n = oneSecond * q + m ∧ 0 ≤ m < oneSecond)%Z as [E [? ?]].
  { split; [apply Z.quot_rem'|]. apply Z.rem_bound_pos; unfold oneSecond; lia. }
  case_match; [done|]. intros [= <-]. split; [lia|]. unfold oneSecond in *. case_bool_decide; lia.
Qed.
#[export] Program Instance scyllaReplays : ReplayStore (gmap string Z) := {|
  consumes := scyllaConsumes;
  ages now m m' := ∀ d u, m !! d = Some u → (now < u)%Z → m' !! d = Some u;
  held m d := m !! d;
  wellKept _ := True;
|}.
Next Obligation. done. Qed.
Next Obligation. done. Qed.
Next Obligation.
  intros n now d e m m' _ Hn. unfold scyllaConsumes. case_bool_decide; [by intros [_ ?]|].
  destruct (serviceAccountAssertionReplayTTL n e) as [ttl|] eqn:Et; [|by intros [_ ?]]. apply replayTTL_enough in Et as [? ?].
  intros [[-> Hr]|[_ ?]]; [|done]. injection Hr as Hr. unfold insertReplay in *. destruct (m !! d) as [u|] eqn:Ed.
  - destruct (Z.ltb_spec now u); [done|]. split; [lia|]. split; [intros ? [= <-]; lia|]. simpl. rewrite lookup_insert_eq.
    eexists. split; [done|]. lia.
  - split; [lia|]. split; [done|]. simpl. rewrite lookup_insert_eq. eexists. split; [done|]. lia.
Qed.
Next Obligation.
  intros n now d e m m' r d' u _ Hn. unfold scyllaConsumes. intros Hc Hd Hu.
  assert (m' = m ∨ ∃ ttl, m' = (insertReplay now ttl d m).1) as [->|[ttl ->]].
  { case_bool_decide; [naive_solver|]. case_match; naive_solver. }
  { by exists u. }
  exists u. split; [|done]. unfold insertReplay. destruct (decide (d' = d)) as [->|Hne].
  - rewrite Hd. destruct (Z.ltb_spec now u); [done|lia].
  - repeat case_match; simpl; rewrite ?lookup_insert_ne by done; done.
Qed.
Next Obligation. intros now m m' d u Ha Hd Hu. by apply Ha. Qed.

Section memory.
Context `{TR : !Table AssertionReplay replayId} (byExpiry : table TR → list AssertionReplay).
Hypothesis byExpiry_rows : ∀ t r, r ∈ byExpiry t → ∃ u, rows t !! u = Some r.
Implicit Types t : table TR.
Definition heldRow t (d : string) : option Z := rp_ExpiresAt <$> rows t !! [d].

(** Pruning deletes expired rows only. *)
Lemma pruneRows_rows limit now it : ∀ t t', pruneRows limit now it t = Some t' →
  (keyed replayId (rows t) → keyed replayId (rows t')) ∧
  (∀ u r, rows t' !! u = Some r → rows t !! u = Some r) ∧
  (∀ u r, rows t !! u = Some r → Forall (λ s, replayId s = u → now < rp_ExpiresAt s)%Z it → rows t' !! u = Some r).
Proof.
  revert it. induction limit as [|limit IH]; intros it t t' H; [by simplify_eq/=|].
  destruct it as [|r it]; simpl in H; [by simplify_eq/=|]. destruct (Z.ltb_spec now (rp_ExpiresAt r)); [by simplify_eq/=|].
  destruct (deleteRow t r) as [t1|] eqn:Ed; [|done]. simpl in H. destruct (IH _ _ _ H) as (Hk & Hsub & Hkeep).
  pose proof (deleteRow_rows _ _ _ Ed) as Er. split_and!.
  - intros Ht. apply Hk. by eapply keyed_delete.
  - intros u s Hs. apply Hsub in Hs. rewrite Er in Hs. by apply lookup_delete_Some in Hs as [_ ?].
  - intros u s Hs [Hr Hall]%Forall_cons. apply Hkeep; [|done]. rewrite Er, lookup_delete_ne; [done|].
    intros E. specialize (Hr E). lia.
Qed.
Lemma prune_keeps now t t' d u : keyed replayId (rows t) →
  pruneServiceAccountAssertionReplays byExpiry now t = Some t' →
  keyed replayId (rows t') ∧ (∀ v, heldRow t' d = Some v → heldRow t d = Some v) ∧
  (heldRow t d = Some u → (now < u)%Z → heldRow t' d = Some u).
Proof.
  intros Hk Hp. destruct (pruneRows_rows _ _ _ _ _ Hp) as (Hk' & Hsub & Hkeep). split; [by apply Hk'|]. unfold heldRow. split.
  - intros v (r & Hr & ->)%fmap_Some. apply Hsub in Hr. by rewrite Hr.
  - intros (r & Hr & ->)%fmap_Some Hu. erewrite Hkeep; [done..|]. apply Forall_forall. intros s (v & Hs)%byExpiry_rows E.
    pose proof (Hk _ _ Hs) as E'. rewrite E in E'. subst v. simplify_eq. done.
Qed.

(** A call that consumes the digest: it was not held, and now it is. *)
Definition takes (n : Z) (d : string) (e : Z) t t' : Prop :=
  (n < e)%Z ∧ keyed replayId (rows t') ∧ heldRow t' d = Some e ∧
  (∀ u, heldRow t d = Some u → (u ≤ n)%Z) ∧
  (∀ d' u, heldRow t d' = Some u → (n < u)%Z → heldRow t' d' = Some u).
Lemma fresh_takes n d e t t2 t3 : (n < e)%Z → keyed replayId (rows t2) → (∀ u, heldRow t d = Some u → (u ≤ n)%Z) →
  (∀ d' u, heldRow t d' = Some u → (n < u)%Z → heldRow t2 d' = Some u) →
  insertRow (λ _, []) t2 (mkAssertionReplay d e) = Some t3 → takes n d e t t3.
Proof.
  intros Hn Hk2 Hold Hkeep Ei. pose proof (insertRow_rows _ _ _ _ Ei) as (Er & _). split_and!; try done.
  - by eapply keyed_insert.
  - unfold heldRow. rewrite Er. simpl. by rewrite lookup_insert_eq.
  - intros d' u Hd Hu. unfold heldRow. rewrite Er. simpl. destruct (decide (d' = d)) as [->|Hne].
    + specialize (Hold u Hd). lia.
    + rewrite lookup_insert_ne by (by intros [=]). by apply Hkeep.
Qed.
Lemma TryConsume_cases n d e t t' r : keyed replayId (rows t) →
  TryConsumeServiceAccountAssertion byExpiry n d e t = (t', r) →
  (t' = t ∧ r ≠ Ok true) ∨ (r = Ok true ∧ takes n d e t t').
Proof.
  intros Hk. unfold TryConsumeServiceAccountAssertion. case_bool_decide; [intros; simplify_eq; by left|].
  destruct (Z.ltb_spec n e); simpl; [|intros; simplify_eq; by left].
  destruct (pruneServiceAccountAssertionReplays _ _ _) as [t1|] eqn:Ep; [|intros; simplify_eq; by left].
  destruct (prune_keeps n t t1 d 0 Hk Ep) as (Hk1 & Hsub & _).
  assert (∀ d' u, heldRow t d' = Some u → (n < u)%Z → heldRow t1 d' = Some u) as Hkeep1.
  { intros d' u Hd Hu. by apply (prune_keeps n t t1 d' u Hk Ep). }
  rewrite firstId_rows. destruct (rows t1 !! [d]) as [r0|] eqn:Er0.
  - destruct (Z.ltb_spec n (rp_ExpiresAt r0)); [intros; simplify_eq; by left|].
    assert (heldRow t d = Some (rp_ExpiresAt r0)) as Hd0 by (apply Hsub; unfold heldRow; by rewrite Er0).
    destruct (deleteRow t1 r0) as [t2|] eqn:Ed; [|intros; simplify_eq; by left].
    destruct (insertRow _ t2 _) as [t3|] eqn:Ei; intros E; simplify_eq; [right|by left]. split; [done|].
    eapply fresh_takes; [done|by eapply keyed_delete| | |done].
    + intros u Hu. rewrite Hd0 in Hu. by simplify_eq.
    + intros d' u Hd Hu. unfold heldRow. rewrite (deleteRow_rows _ _ _ Ed), (Hk1 _ _ Er0), lookup_delete_ne; [by apply Hkeep1|].
      intros [= <-]. rewrite Hd0 in Hd. simplify_eq. lia.
  - destruct (insertRow _ t1 _) as [t3|] eqn:Ei; intros E; simplify_eq; [right|by left]. split; [done|].
    eapply fresh_takes; [done|done| |done|done]. intros u Hu. destruct (Z.leb_spec u n); [done|].
    specialize (Hkeep1 d u Hu ltac:(lia)). unfold heldRow in Hkeep1. by rewrite Er0 in Hkeep1.
Qed.

#[program] Definition memReplays : ReplayStore (table TR) := {|
  consumes n _ d e t t' r := TryConsumeServiceAccountAssertion byExpiry n d e t = (t', r);
  ages _ t t' := t' = t;
  held := heldRow;
  wellKept t := keyed replayId (rows t);
|}.
Next Obligation. intros n now d e t t' r Hk Hc. by destruct (TryConsume_cases _ _ _ _ _ _ Hk Hc) as [[-> _]|(_&_&?&_)]. Qed.
Next Obligation. intros now t t' Hk ->. done. Qed.
Next Obligation.
  intros n now d e t t' Hk Hn Hc. destruct (TryConsume_cases _ _ _ _ _ _ Hk Hc) as [[_ ?]|(_&?&_&Hd&Hold&_)]; [done|].
  split; [done|]. split; [|by exists e]. intros u Hu%Hold. lia.
Qed.
Next Obligation.
  intros n now d e t t' r d' u Hk Hn Hc Hd Hu. exists u. split; [|done].
  destruct (TryConsume_cases _ _ _ _ _ _ Hk Hc) as [[-> _]|(_&_&_&_&_&Hkeep)]; [done|]. apply Hkeep; [done|lia].
Qed.
Next Obligation. intros now t t' d u -> Hd _. done. Qed.
End memory.

(** ** What accounts promise *)

(** A subject names an account exactly when it is the subject of its name. *)
Theorem ServiceAccountSubject_roundtrip subject name :
  ParseServiceAccountSubject subject = Some name ↔
  subject = ServiceAccountSubject name ∧ name ≠ "" ∧ hasSeparator name = false ∧ (length_ subject ≤ 256)%Z.
Proof.
  unfold ParseServiceAccountSubject, ServiceAccountSubject. split.
  - destruct (cutPrefix _ subject) as [n|] eqn:E; [|done]. apply cutPrefix_Some in E. case_bool_decide; [done|].
    destruct (hasSeparator n) eqn:Hs; [done|]. destruct (Z.ltb_spec 256 (length_ subject)); [done|]. simpl. intros [= <-]. done.
  - intros (-> & Hn & Hs & Hl). rewrite cutPrefix_app, bool_decide_eq_false_2, Hs by done.
    destruct (Z.ltb_spec 256 (length_ ("system:serviceaccount:" +:+ name))); [lia|done].
Qed.

Lemma distinctKeys_spec keys : ∀ seen, distinctKeys seen keys = true ↔
  NoDup (pk_KeyID <$> keys) ∧ (∀ k, k ∈ (pk_KeyID <$> keys) → k ∉ seen).
Proof.
  induction keys as [|k keys IH]; intros seen; simpl.
  { rewrite NoDup_nil. split; [|done]. intros _. split; [done|]. by intros ? ?%not_elem_of_nil. }
  rewrite NoDup_cons. case_bool_decide; [set_solver|]. rewrite IH. set_solver.
Qed.
(** Keys change only from the version the caller saw; the account keeps at least
    one key and no two keys share an identifier. *)
Theorem key_update_exact now a add remove expected a' :
  ApplyServiceAccountKeyUpdate now a add remove expected = Ok a' ↔
  sa_ResourceVersion a = expected ∧ keptKeys remove (sa_PublicKeys a) ++ add ≠ [] ∧
  NoDup (pk_KeyID <$> keptKeys remove (sa_PublicKeys a) ++ add) ∧
  a' = withKeys now (keptKeys remove (sa_PublicKeys a) ++ add) a.
Proof.
  unfold ApplyServiceAccountKeyUpdate. case_bool_decide; simpl; [|naive_solver].
  set (kept := keptKeys _ _ ++ add). case_bool_decide as Hl.
  { apply length_zero_iff_nil in Hl. naive_solver. }
  assert (kept ≠ []) by (intros E; by rewrite E in Hl).
  destruct (distinctKeys [] kept) eqn:Hd; simpl.
  - apply distinctKeys_spec in Hd as [Hd _]. naive_solver.
  - split; [done|]. intros (_ & _ & Hnd & _). assert (distinctKeys [] kept = true) as E; [|congruence].
    apply distinctKeys_spec. split; [done|]. set_solver.
Qed.

Section account_theorems.
Context `{TA : !Table ServiceAccount accountId}.
Implicit Types t : table TA.

(** What administrators do to accounts. *)
Inductive account_step : table TA → table TA → Prop :=
| account_create t o : account_step t (CreateServiceAccount t o).1
| account_keys t now uid add remove expected : account_step t (UpdateServiceAccountKeys t now uid add remove expected).1
| account_disable t now uid disabled : account_step t (SetServiceAccountDisabled t now uid disabled).1
| account_delete t uid : account_step t (DeleteServiceAccount t uid).1.
Definition accountsIdentified t : Prop := keyed accountId (rows t) ∧ uniqueOn accountName (rows t).

Lemma insert_same t a b t' : accountsIdentified t → firstId t [sa_UID a] = Some a → sa_UID b = sa_UID a → sa_Name b = sa_Name a →
  insertRow accountName t b = Some t' → accountsIdentified t'.
Proof.
  intros [Hk Hu] Ha Eu En Hi. rewrite firstId_rows in Ha. split; [by eapply keyed_insert|]. eapply uniqueOn_insert; [done..|].
  intros u s Hs E. unfold accountId. rewrite Eu. eapply Hu; [done..|]. unfold accountName in *. congruence.
Qed.
Lemma firstId_uid t uid a : accountsIdentified t → firstId t [uid] = Some a → sa_UID a = uid.
Proof. intros [Hk _] Ha. rewrite firstId_rows in Ha. specialize (Hk _ _ Ha). by injection Hk. Qed.
Lemma identified_step t t' : account_step t t' → accountsIdentified t → accountsIdentified t'.
Proof.
  intros Hs Hi. destruct Hs as [t [a|]|t now uid add remove expected|t now uid disabled|t uid]; [|done|..];
    unfold CreateServiceAccount, UpdateServiceAccountKeys, SetServiceAccountDisabled, DeleteServiceAccount, commitAccount,
      guard_, orFail, bind_result.
  - case_bool_decide as Hid; [|done]. case_bool_decide as Hn; [|done].
    destruct (insertRow _ t a) as [t'|] eqn:Ei; [|done]. destruct (insertRow_rows _ _ _ _ Ei) as (_ & _ & Hne & _).
    destruct Hi as [Hk Hu]. split; [by eapply keyed_insert|]. eapply uniqueOn_insert; [done..|]. intros u s Hs E.
    by destruct (firstUnique_none _ _ _ Hu Hne Hn u s Hs).
  - destruct (firstId t [uid]) as [a|] eqn:Ea; [|done].
    destruct (ApplyServiceAccountKeyUpdate _ _ _ _ _) as [b|] eqn:Eb; [|done].
    apply key_update_exact in Eb as (_ & _ & _ & ->). destruct (insertRow _ t _) as [t'|] eqn:Ei; [|done].
    eapply (insert_same t a); try exact Ei; try done. by rewrite (firstId_uid _ _ _ Hi Ea).
  - destruct (firstId t [uid]) as [a|] eqn:Ea; [|done]. destruct (insertRow _ t _) as [t'|] eqn:Ei; [|done].
    eapply (insert_same t a); try exact Ei; try done. by rewrite (firstId_uid _ _ _ Hi Ea).
  - destruct (firstId t [uid]) as [a|] eqn:Ea; [|done]. destruct (deleteRow t a) as [t'|] eqn:Ed; [|done].
    destruct Hi as [Hk Hu]. split; [by eapply keyed_delete|by eapply uniqueOn_delete].
Qed.

(** A name is one account: whatever was done to the accounts, a lookup by name
    finds the one row of that name, and nothing else is stored under its UID. *)
Theorem account_by_name t name a : rtc account_step emptyTable t →
  GetServiceAccountBySubject t name = Ok a ↔
  name ≠ "" ∧ sa_Name a = name ∧ rows t !! [sa_UID a] = Some a ∧
  ∀ u b, rows t !! u = Some b → sa_Name b = name → u = [sa_UID a].
Proof.
  intros Hr. assert (accountsIdentified emptyTable) as HI.
  { unfold accountsIdentified, keyed, uniqueOn. rewrite rows_emptyTable. split; by intros *; rewrite ?lookup_empty. }
  assert (accountsIdentified t) as [Hk Hu].
  { revert HI. induction Hr as [|? ? ? Hs _ IH]; [done|]. intros Hi. apply IH. by eapply identified_step. }
  unfold GetServiceAccountBySubject, orFail. split.
  - destruct (firstUnique t accountName [name]) as [b|] eqn:Ef; [|done]. intros [= ->].
    destruct (firstUnique_found _ _ _ _ Hu Ef) as (Hne & u & Ha & Hn). injection Hn as Hn.
    pose proof (Hk _ _ Ha) as E. unfold accountId in E. subst u. split_and!; [set_solver|done..|].
    intros v b Hb Hbn. eapply Hu; [done..|]. unfold accountName. congruence.
  - intros (Hne & Hn & Ha & _). assert (firstUnique t accountName [name] = Some a) as ->; [|done].
    apply firstUnique_rows; [done|set_solver|]. exists [sa_UID a]. unfold accountName. by rewrite Hn.
Qed.
End account_theorems.
