(* ===== verification/ServiceTokens.v ===== *)
(** * Tokens of service accounts

    [auth/provider/serviceaccountassertion] and [serviceaccountjwt]: a client
    proves with an assertion, signed by an enrolled key and used once, who it is,
    and is issued access tokens. Calls interleave with changes of the accounts
    and of the stores. *)

From S2P Require Import Prelude ResourceVersion Entities MemTable MemStore Pagination Auth Sessions ServiceAccounts.
From Stdlib Require Import Ascii.

(** ** Assertions: serviceaccountassertion/provider.go *)

Record AssertionProvider : Type := mkAssertionProvider { ap_assertionAudience : string; ap_clockSkew : Z }.
Definition assertionName : string := "serviceaccount-assertion".
Definition assertionTyp : string := "gitstore-sa-assertion+jwt".
Definition maxAssertionLifetime : Z := 60 * oneSecond.

(** What [x509.ParsePKIXPublicKey] gives. *)
Inductive PubKey : Type := EdKey (bytes : string) | EcKey (curve bytes : string) | OtherKey (type : string).

Definition findEnrolledKey (keys : list ServiceAccountPublicKey) (kid : string) : option ServiceAccountPublicKey :=
  if bool_decide (kid = "") then None else List.find (λ k, bool_decide (pk_KeyID k = kid)) keys.

(** What both providers ask of an account: it exists, is neither disabled nor
    deleted, and is the one the token names. *)
Definition liveAccount (provider : string) (r : result StoreError ServiceAccount) (uid : string)
  : (Decision_ * option StoreError) + ServiceAccount :=
  match r with
  | Err SNotFound => inl (Deny provider "service account not found", None)
  | Err e => inl (Deny provider "service account lookup failed", Some e)
  | Ok a =>
      if sa_Disabled a then inl (Deny provider "service account is disabled", None) else
      if bool_decide (is_Some (sa_DeletionTimestamp a)) then inl (Deny provider "service account is deleted", None) else
      if negb (bool_decide (sa_UID a = uid)) then inl (Deny provider "sa_uid does not match current service account", None)
      else inr a
  end.

Section assertion.
Context `{J : Jwt} (parsePKIX : string → result string PubKey) (quote : string → string) (digest : string → string).
Implicit Types p : AssertionProvider.

Definition parseEnrolledPublicKey (key : ServiceAccountPublicKey) : result string (string * VerifyKey) :=
  match parsePKIX (pk_PublicKey key) with
  | Err e => Err ("parse public key: " +:+ e)
  | Ok (EdKey b) =>
      if negb (bool_decide (pk_Algorithm key = "Ed25519"))
      then Err ("key is Ed25519 but Algorithm field says " +:+ quote (pk_Algorithm key))
      else Ok ("EdDSA", PublicKey_ "EdDSA" b)
  | Ok (EcKey curve b) =>
      if negb (bool_decide (pk_Algorithm key = "ECDSA-P256"))
      then Err ("key is ECDSA but Algorithm field says " +:+ quote (pk_Algorithm key))
      else if negb (bool_decide (curve = "P-256"))
      then Err ("unsupported ECDSA curve " +:+ quote curve +:+ " (only P-256 is supported)")
      else Ok ("ES256", PublicKey_ "ES256" b)
  | Ok (OtherKey t) => Err ("unsupported public key type " +:+ t)
  end.

(** Steps 1 and 2: what the token says of itself. *)
Definition peekAssertion (header : string) : Decision_ + (string * TokenHeader * TokenClaims * string) :=
  match cutPrefix "Bearer " header with
  | None => inl (Challenge assertionName "no bearer token")
  | Some bearer =>
      match ParseUnverified bearer with
      | Err e => inl (Challenge assertionName ("jwt parse failed: " +:+ e))
      | Ok (h, peek) =>
          if negb (bool_decide (default "" (h_typ h) = assertionTyp)) then inl (Challenge assertionName "typ header mismatch") else
          match ParseServiceAccountSubject (c_Subject peek) with
          | None => inl (Deny assertionName "subject is not a serviceaccount identifier")
          | Some name => inr (bearer, h, peek, name)
          end
      end
  end.
(** Steps 3 to 5: the signature and the claims, at time [now]. *)
Definition verifyAssertion p (now : Z) (bearer : string) (h : TokenHeader) (name : string) (a : ServiceAccount)
  : Decision_ + TokenClaims :=
  match findEnrolledKey (sa_PublicKeys a) (default "" (h_kid h)) with
  | None => inl (Deny assertionName "no enrolled key matches kid")
  | Some enrolledKey =>
      match parseEnrolledPublicKey enrolledKey with
      | Err e => inl (Deny assertionName ("enrolled key is unparsable: " +:+ e))
      | Ok (alg, pubKey) =>
          let expectedSubject := ServiceAccountSubject name in
          match ParseWithClaims (mkOptions (ap_clockSkew p) true (Some expectedSubject) (Some (ap_assertionAudience p)) false)
                  c_ExpiresAt
                  (λ h, if negb (bool_decide (h_alg h = alg)) then Err ("unexpected signing method: " +:+ h_alg h) else Ok pubKey)
                  now bearer with
          | Err e => inl (Deny assertionName ("assertion verification failed: " +:+ je_text e))
          | Ok (claims, valid) =>
              if negb valid then inl (Deny assertionName "assertion invalid") else
              if negb (bool_decide (c_Subject claims = expectedSubject)) then inl (Deny assertionName "sub does not match iss") else
              if negb (bool_decide (c_sa_uid claims = sa_UID a))
              then inl (Deny assertionName "sa_uid does not match current service account") else
              match c_IssuedAt claims, c_ExpiresAt claims with
              | Some iat, Some exp =>
                  if (exp - iat <=? 0)%Z || (maxAssertionLifetime <? exp - iat)%Z
                  then inl (Deny assertionName "assertion lifetime exceeds 60s bound") else
                  if bool_decide (c_ID claims = "") then inl (Deny assertionName "assertion missing jti") else inr claims
              | _, _ => inl (Deny assertionName "assertion missing iat/exp")
              end
          end
      end
  end.
(** Step 6: what the store is asked, and what its answer means. *)
Definition replayExpiry p (claims : TokenClaims) : Z := (default 0 (c_ExpiresAt claims) + ap_clockSkew p)%Z.
Definition assertionPrincipal (a : ServiceAccount) (claims : TokenClaims) : Principal :=
  mkPrincipal (c_Subject claims) (c_Issuer claims) "" "" [] [] ∅ assertionName (default 0%Z (c_ExpiresAt claims))
    (c_ID claims) (sa_UID a).
Definition finishAssertion (a : ServiceAccount) (claims : TokenClaims) (r : result StoreError bool)
  : option Principal * Decision_ * option StoreError :=
  match r with
  | Err e => (None, Deny assertionName "assertion replay check failed", Some e)
  | Ok false => (None, Deny assertionName "assertion jti already used", None)
  | Ok true => (Some (assertionPrincipal a claims), Allow assertionName "valid single-use client assertion", None)
  end.
Definition assertionAuthenticate {St} (consume : string → Z → St → St * result StoreError bool) p
  (lookup : string → result StoreError ServiceAccount) (now : Z) (header : string) (st : St)
  : St * (option Principal * Decision_ * option StoreError) :=
  match peekAssertion header with
  | inl d => (st, (None, d, None))
  | inr (bearer, h, peek, name) =>
      match liveAccount assertionName (lookup name) (c_sa_uid peek) with
      | inl (d, e) => (st, (None, d, e))
      | inr a =>
          match verifyAssertion p now bearer h name a with
          | inl d => (st, (None, d, None))
          | inr claims =>
              let '(st', r) := consume (digest (c_ID claims)) (replayExpiry p claims) st in
              (st', finishAssertion a claims r)
          end
      end
  end.
End assertion.

(** ** Access tokens: serviceaccountjwt *)

Record SigningKey : Type := mkSigningKey { sk_kid : string; sk_alg : string; sk_private : string; sk_public : VerifyKey }.
(** [keySet]: the first key signs, all of them verify. *)
Record KeySet : Type := mkKeySet { ks_active : option SigningKey; ks_byKID : gmap string SigningKey }.
Inductive KeySetError : Type := KeysEmpty | KeysNoBlock | KeyRefused (e : string).
(** The loop of [newKeySet] on what [parsePrivateKeyBlock] made of each block. *)
Fixpoint addKeys (ks : KeySet) (blocks : list (result string SigningKey)) : result KeySetError KeySet :=
  match blocks with
  | [] => Ok ks
  | Err e :: _ => Err (KeyRefused e)
  | Ok key :: blocks =>
      if bool_decide (is_Some (ks_byKID ks !! sk_kid key)) then addKeys ks blocks else
      addKeys (mkKeySet (match ks_active ks with None => Some key | Some k => Some k end)
                 (<[sk_kid key := key]> (ks_byKID ks))) blocks
  end.
Definition newKeySet (raw : string) (blocks : list (result string SigningKey)) : result KeySetError KeySet :=
  if bool_decide (raw = "") then Err KeysEmpty else
  match addKeys (mkKeySet None ∅) blocks with
  | Err e => Err e
  | Ok ks => if bool_decide (length blocks = 0) then Err KeysNoBlock else Ok ks
  end.

Record AccessProvider : Type := mkAccessProvider {
  jp_issuer : string;
  jp_audience : string;
  jp_keys : KeySet;
  jp_defaultTTL : Z;
  jp_maxTTL : Z;
  jp_clockSkew : Z;
}.
Definition durationOrDefault (value fallback : Z) : option Z :=
  if (value <? 0)%Z then None else if (value =? 0)%Z then Some fallback else Some value.

Definition accessName : string := "serviceaccount-jwt".

(** [revocationList] *)
Definition addRevocation (jti : string) (expiresAt : Z) (m : gmap string Z) : gmap string Z := <[jti := expiresAt]> m.
Definition isRevoked (jti : string) (m : gmap string Z) : bool := bool_decide (is_Some (m !! jti)).
Definition prune (now : Z) (m : gmap string Z) : gmap string Z := filter (λ r, ¬ (r.2 < now)%Z) m.

Section access.
Context `{J : Jwt} (quote : string → string).
Implicit Types p : AccessProvider.

Definition accessKey p (h : TokenHeader) : result string VerifyKey :=
  let kid := default "" (h_kid h) in
  match ks_byKID (jp_keys p) !! kid with
  | None => Err ("unknown or no-longer-trusted kid " +:+ quote kid)
  | Some key => if negb (bool_decide (sk_alg key = h_alg h)) then Err ("unexpected signing method: " +:+ h_alg h)
                else Ok (sk_public key)
  end.
Definition accessPrincipal (a : ServiceAccount) (claims : TokenClaims) : Principal :=
  mkPrincipal (c_Subject claims) (c_Issuer claims) "" "" [] [] ∅ accessName (default 0%Z (c_ExpiresAt claims))
    (c_ID claims) (sa_UID a).
Definition accessAuthenticate p (lookup : string → result StoreError ServiceAccount) (revocations : gmap string Z)
  (now : Z) (header : string) : option Principal * Decision_ * option StoreError :=
  match cutPrefix "Bearer " header with
  | None => (None, Challenge accessName "no bearer token", None)
  | Some bearer =>
      match ParseUnverified bearer with
      | Err e => (None, Challenge accessName ("jwt parse failed: " +:+ e), None)
      | Ok (_, peek) =>
          if negb (bool_decide (c_Issuer peek = jp_issuer p)) ||
             bool_decide (ParseServiceAccountSubject (c_Subject peek) = None)
          then (None, Challenge accessName "not a service account token", None) else
          match ParseWithClaims (mkOptions (jp_clockSkew p) false (Some (jp_issuer p)) (Some (jp_audience p)) false)
                  c_ExpiresAt (accessKey p) now bearer with
          | Err e => (None, Deny accessName ("token verification failed: " +:+ je_text e), None)
          | Ok (claims, valid) =>
              if negb valid then (None, Deny accessName "token invalid", None) else
              match ParseServiceAccountSubject (c_Subject claims) with
              | None => (None, Deny accessName "subject is not a serviceaccount identifier", None)
              | Some name =>
                  match liveAccount accessName (lookup name) (c_sa_uid claims) with
                  | inl (d, e) => (None, d, e)
                  | inr a =>
                      if negb (bool_decide (c_ID claims = "")) && isRevoked (c_ID claims) revocations
                      then (None, Deny accessName "token has been revoked", None)
                      else (Some (accessPrincipal a claims), Allow accessName "valid service account access token", None)
                  end
              end
          end
      end
  end.

(** [RevokeSession], with the two times it reads. *)
Definition accessRevokeSession p (now now' : Z) (jti : string) (expiresAt : Z) (m : gmap string Z) : gmap string Z :=
  let revokeUntil := (expiresAt + jp_clockSkew p)%Z in
  addRevocation jti (if (revokeUntil <? now)%Z then (now' + jp_clockSkew p)%Z else revokeUntil) m.

Inductive IssueError : Type := NoActiveKey | NoRandom | NotSigned.
Definition effectiveTTL p (requested : Z) : Z :=
  let ttl := if (requested <=? 0)%Z then jp_defaultTTL p else requested in
  if (jp_maxTTL p <? ttl)%Z then jp_maxTTL p else ttl.
Definition IssueAccessToken p (now : Z) (jti : option string) (a : ServiceAccount) (audience : string) (requestedTTL : Z)
  : result IssueError (string * Z) :=
  match ks_active (jp_keys p) with
  | None => Err NoActiveKey
  | Some key =>
      let audience := if blank audience then jp_audience p else audience in
      match jti with
      | None => Err NoRandom
      | Some jti =>
          let exp := (now + effectiveTTL p requestedTTL)%Z in
          match SignedString (sk_private key) (mkHeader (sk_alg key) (Some "JWT") (Some (sk_kid key)))
                  (mkClaims (jp_issuer p) (ServiceAccountSubject (sa_Name a)) [audience] (Some (numericDate exp))
                     (Some (numericDate now)) (Some (numericDate now)) jti (sa_UID a)) with
          | Err _ => Err NotSigned
          | Ok signed => Ok (signed, exp)
          end
      end
  end.
End access.

(** ** What a verified assertion shows *)

Section possession.
Context `{J : Jwt} (parsePKIX : string → result string PubKey) (quote digest : string → string) (p : AssertionProvider).

(** The bearer holds a key the account enrolled, and signed these claims about
    itself, for this server, less than a minute of validity, with it. *)
Definition possession (bearer name : string) (a : ServiceAccount) (claims : TokenClaims) (now : Z) : Prop :=
  (∃ h key alg pub, ParseUnverified bearer = Ok (h, claims) ∧ key ∈ sa_PublicKeys a ∧
     parseEnrolledPublicKey parsePKIX quote key = Ok (alg, pub) ∧ h_alg h = alg ∧ Verifies pub bearer = true) ∧
  c_Issuer claims = ServiceAccountSubject name ∧ c_Subject claims = ServiceAccountSubject name ∧
  c_sa_uid claims = sa_UID a ∧ ap_assertionAudience p ∈ c_Audience claims ∧ c_ID claims ≠ "" ∧
  ∃ iat exp, c_IssuedAt claims = Some iat ∧ c_ExpiresAt claims = Some exp ∧
    (0 < exp - iat ≤ maxAssertionLifetime)%Z ∧ (now < exp + ap_clockSkew p)%Z.

Lemma verifyAssertion_possession now bearer h name a claims :
  verifyAssertion parsePKIX quote p now bearer h name a = inr claims → possession bearer name a claims now.
Proof.
  unfold verifyAssertion. destruct (findEnrolledKey _ _) as [key|] eqn:Ek; [|done].
  destruct (parseEnrolledPublicKey _ _ key) as [[alg pub]|] eqn:Epk; [|done].
  destruct (ParseWithClaims _ _ _ _ _) as [[c v]|] eqn:Ep; [|done].
  apply ParseWithClaims_sound in Ep as (h' & k & Hu & Hk & Hv & He & _ & Hi & Ha). simpl in *.
  case_bool_decide as Halg; simplify_eq/=. destruct v; [|done]. simpl.
  case_bool_decide as Hs; [|done]. case_bool_decide as Huid; [|done]. simpl.
  destruct (c_IssuedAt c) as [iat|] eqn:Eiat; [|done]. destruct (c_ExpiresAt c) as [exp|] eqn:Eexp; [|done].
  destruct (Z.leb_spec (exp - iat) 0); [done|]. destruct (Z.ltb_spec maxAssertionLifetime (exp - iat)); [done|]. simpl.
  case_bool_decide; [done|]. intros [= <-]. unfold findEnrolledKey in Ek. case_bool_decide; [done|].
  apply List.find_some in Ek as [Hin%list_elem_of_In _]. unfold possession. split_and!; try done; [|by apply Hi|by apply Ha|].
  - by exists h', key, (h_alg h'), k.
  - exists iat, exp. split_and!; try done; try lia. by apply He.
Qed.

(** An assertion is proof of possession. A principal comes out of
    [assertionAuthenticate] only when the account its subject names is there,
    neither disabled nor deleted, and the token was signed by a key enrolled for
    that account, about that very account, for this server and for a minute at
    most; the principal is then that account, and its identifier was consumed. *)
Theorem assertion_proves_possession {St} (consume : string → Z → St → St * result StoreError bool) lookup now header st st'
  principal d e :
  assertionAuthenticate parsePKIX quote digest consume p lookup now header st = (st', (Some principal, d, e)) →
  ∃ bearer name a claims, header = "Bearer " +:+ bearer ∧ lookup name = Ok a ∧
    sa_Disabled a = false ∧ sa_DeletionTimestamp a = None ∧
    possession bearer name a claims now ∧
    consume (digest (c_ID claims)) (replayExpiry p claims) st = (st', Ok true) ∧
    Subject principal = ServiceAccountSubject name ∧ ServiceAccountUID principal = sa_UID a ∧
    TokenID principal = c_ID claims ∧ e = None ∧ d_Outcome d = OutcomeAllow.
Proof.
  unfold assertionAuthenticate. destruct (peekAssertion header) as [|[[[bearer h] peek] name]] eqn:Ep; [done|].
  destruct (liveAccount _ _ _) as [[]|a] eqn:El; [done|].
  destruct (verifyAssertion _ _ _ _ _ _ _ _) as [|claims] eqn:Ev; [done|]. apply verifyAssertion_possession in Ev.
  destruct (consume _ _ _) as [st1 r] eqn:Ec. destruct r as [[|]|]; [|done..]. intros [= <- <- <- <-].
  exists bearer, name, a, claims. unfold liveAccount in El. destruct (lookup name) as [a'|[]] eqn:Elk; [|done..].
  destruct (sa_Disabled a') eqn:Ed; [done|]. case_bool_decide as Hdel; [done|]. case_bool_decide; [|done]. injection El as ->.
  split_and!; try done; [|by apply eq_None_not_Some|apply Ev].
  unfold peekAssertion in Ep. destruct (cutPrefix "Bearer " header) as [b|] eqn:Eb; [|done].
  destruct (ParseUnverified b) as [[h' c']|]; [|done]. case_bool_decide; [|done]. simpl in Ep.
  destruct (ParseServiceAccountSubject _); [|done]. simplify_eq. by apply cutPrefix_Some.
Qed.
End possession.

(** ** Assertions are used once *)

(** A call of [assertionAuthenticate] has looked the account up, or has verified
    the token and is about to consume its identifier. *)
Inductive AssertionPhase : Type :=
| Looked (a : ServiceAccount)
| Verified (a : ServiceAccount) (claims : TokenClaims) (began : Z).
Record AssertionCall : Type := mkAssertionCall {
  ac_bearer : string;
  ac_header : TokenHeader;
  ac_name : string;
  ac_phase : AssertionPhase;
}.
Record Use : Type := mkUse {
  us_bearer : string;
  us_name : string;
  us_account : ServiceAccount;
  us_claims : TokenClaims;
  us_began : Z;
  us_ended : Z;
}.

Section uses.
Context `{J : Jwt} (parsePKIX : string → result string PubKey) (quote digest : string → string) (p : AssertionProvider).
Context {S : Type} `{RS : !ReplayStore S}.

Record Desk : Type := mkDesk {
  dk_now : Z;
  dk_lookup : string → result StoreError ServiceAccount;
  dk_store : S;
  dk_calls : gmap nat AssertionCall;
  dk_uses : list Use;
}.
Definition setCalls (f : gmap nat AssertionCall → gmap nat AssertionCall) (x : Desk) : Desk :=
  mkDesk (dk_now x) (dk_lookup x) (dk_store x) (f (dk_calls x)) (dk_uses x).

(** Accounts change at any time; replicas run any number of calls at once. *)
Inductive use_step : Desk → Desk → Prop :=
| use_time x t : (dk_now x ≤ t)%Z → use_step x (mkDesk t (dk_lookup x) (dk_store x) (dk_calls x) (dk_uses x))
| use_accounts x l : use_step x (mkDesk (dk_now x) l (dk_store x) (dk_calls x) (dk_uses x))
| use_ages x s : ages (dk_now x) (dk_store x) s → use_step x (mkDesk (dk_now x) (dk_lookup x) s (dk_calls x) (dk_uses x))
| use_look x i header bearer h peek name a : dk_calls x !! i = None → peekAssertion header = inr (bearer, h, peek, name) →
    liveAccount assertionName (dk_lookup x name) (c_sa_uid peek) = inr a →
    use_step x (setCalls (<[i := mkAssertionCall bearer h name (Looked a)]>) x)
| use_verify x i bearer h name a claims : dk_calls x !! i = Some (mkAssertionCall bearer h name (Looked a)) →
    verifyAssertion parsePKIX quote p (dk_now x) bearer h name a = inr claims →
    use_step x (setCalls (<[i := mkAssertionCall bearer h name (Verified a claims (dk_now x))]>) x)
| use_consume x i bearer h name a claims began n s r :
    dk_calls x !! i = Some (mkAssertionCall bearer h name (Verified a claims began)) → (began ≤ n ≤ dk_now x)%Z →
    consumes n (dk_now x) (digest (c_ID claims)) (replayExpiry p claims) (dk_store x) s r →
    use_step x (mkDesk (dk_now x) (dk_lookup x) s (delete i (dk_calls x))
                  (dk_uses x ++ match finishAssertion a claims r with
                                | (Some _, _, _) => [mkUse bearer name a claims began (dk_now x)]
                                | _ => []
                                end))
| use_drop x i : use_step x (setCalls (delete i) x).

Definition deskStart (now : Z) (lookup : string → result StoreError ServiceAccount) (s : S) : Desk :=
  mkDesk now lookup s ∅ [].

(** Uses of an identifier lie apart. *)
Definition apart (us : list Use) : Prop := ∀ us1 u us2 v, us = us1 ++ u :: us2 → v ∈ us2 →
  c_ID (us_claims v) = c_ID (us_claims u) → (replayExpiry p (us_claims u) ≤ us_ended v)%Z.
Record DeskInv (x : Desk) : Prop := {
  di_kept : wellKept (dk_store x);
  di_calls : map_Forall (λ _ c, match ac_phase c with
     | Looked _ => True
     | Verified a claims began => possession parsePKIX quote p (ac_bearer c) (ac_name c) a claims began
     end) (dk_calls x);
  di_uses : Forall (λ u, possession parsePKIX quote p (us_bearer u) (us_name u) (us_account u) (us_claims u) (us_began u))
              (dk_uses x);
  di_held : Forall (λ u, (replayExpiry p (us_claims u) ≤ dk_now x)%Z ∨
     ∃ e, held (dk_store x) (digest (c_ID (us_claims u))) = Some e ∧ (replayExpiry p (us_claims u) ≤ e)%Z) (dk_uses x);
  di_apart : apart (dk_uses x);
}.

Lemma apart_snoc us v : apart us →
  Forall (λ u, c_ID (us_claims v) = c_ID (us_claims u) → (replayExpiry p (us_claims u) ≤ us_ended v)%Z) us → apart (us ++ [v]).
Proof.
  intros Ha Hv us1 u us2 w E Hw He. destruct us2 as [|z us2 _] using rev_ind; [by apply not_elem_of_nil in Hw|].
  rewrite app_comm_cons, app_assoc in E. apply app_inj_tail in E as [-> ->].
  apply elem_of_app in Hw as [Hw| ->%list_elem_of_singleton]; [by eapply Ha|].
  rewrite Forall_forall in Hv. apply Hv; [|done]. set_solver.
Qed.

(** What is held stays held, or has run out. *)
Lemma held_later now (s s' : S) d e :
  (∀ e, held s d = Some e → (now < e)%Z → ∃ e', held s' d = Some e' ∧ (e ≤ e')%Z) →
  (e ≤ now)%Z ∨ (∃ u, held s d = Some u ∧ (e ≤ u)%Z) → (e ≤ now)%Z ∨ (∃ u, held s' d = Some u ∧ (e ≤ u)%Z).
Proof.
  intros Hk [?|(u & Hu & He)]; [by left|]. destruct (Z.leb_spec u now); [left; lia|].
  destruct (Hk u Hu ltac:(lia)) as (u' & Hu' & ?). right. exists u'. split; [done|lia].
Qed.

Lemma desk_consume x i bearer h name a claims began n s r : DeskInv x →
  dk_calls x !! i = Some (mkAssertionCall bearer h name (Verified a claims began)) → (began ≤ n ≤ dk_now x)%Z →
  consumes n (dk_now x) (digest (c_ID claims)) (replayExpiry p claims) (dk_store x) s r →
  DeskInv (mkDesk (dk_now x) (dk_lookup x) s (delete i (dk_calls x))
             (dk_uses x ++ match finishAssertion a claims r with
                           | (Some _, _, _) => [mkUse bearer name a claims began (dk_now x)] | _ => [] end)).
Proof.
  intros [Hk Hcalls Huses Hheld Hap] Hi Hn Hc. pose proof (Hcalls _ _ Hi) as Hp. simpl in Hp.
  assert (Forall (λ u, (replayExpiry p (us_claims u) ≤ dk_now x)%Z ∨
     ∃ e, held s (digest (c_ID (us_claims u))) = Some e ∧ (replayExpiry p (us_claims u) ≤ e)%Z) (dk_uses x)) as Hheld'.
  { eapply Forall_impl; [apply Hheld|]. intros u. simpl. apply held_later. intros e He Hlt.
    eapply (consumes_keeps n (dk_now x)); eauto. lia. }
  destruct r as [[|]|]; cbn [finishAssertion]; rewrite ?app_nil_r;
    [|split; simpl; [by eapply consumes_kept|by apply map_Forall_delete|done..]..].
  assert (n ≤ dk_now x)%Z as Hn' by lia. destruct (consumes_once _ _ _ _ _ _ Hk Hn' Hc) as (_ & Hold & Hnew).
  split; simpl; [by eapply consumes_kept|by apply map_Forall_delete| | |].
  - apply Forall_app. split; [done|]. by constructor.
  - apply Forall_app. split; [done|]. constructor; [|done]. by right.
  - apply apart_snoc; [done|]. eapply Forall_impl; [apply Hheld|]. simpl. intros u Hu E. rewrite E in Hold.
    destruct Hu as [|(e & He & ?)]; [done|]. specialize (Hold e He). lia.
Qed.
Lemma desk_step x y : use_step x y → DeskInv x → DeskInv y.
Proof.
  intros Hs HI. destruct (HI) as [Hk Hcalls Huses Hheld Hap].
  destruct Hs as [x t Ht|x l|x s Ha|x i header bearer h peek name a _ _ _|x i bearer h name a claims Hi Hv
    |x i bearer h name a claims began n s r Hi Hn Hc|x i].
  - split; simpl; try done. eapply Forall_impl; [apply Hheld|]. simpl. intros u [?|?]; [left; lia|by right].
  - by split.
  - split; simpl; try done; [by eapply ages_kept|]. eapply Forall_impl; [apply Hheld|]. simpl. intros u.
    apply held_later. intros e He Hlt. exists e. split; [|done]. by eapply ages_keeps.
  - split; simpl; try done. by apply map_Forall_insert_2.
  - split; simpl; try done. apply map_Forall_insert_2; [|done]. simpl. by eapply verifyAssertion_possession.
  - by eapply desk_consume.
  - split; simpl; try done. by apply map_Forall_delete.
Qed.
Lemma desk_reached now lookup s x : wellKept s → rtc use_step (deskStart now lookup s) x → DeskInv x.
Proof.
  intros Hs Hr. assert (DeskInv (deskStart now lookup s)) as HI.
  { split; simpl; [done|apply map_Forall_empty|constructor|constructor|]. intros [|] ????; done. }
  induction Hr as [|? ? ? Hst _ IH]; [done|]. apply IH. by eapply desk_step.
Qed.
End uses.

(** C18: an assertion is used once. On every store of used identifiers with the
    contract of [ReplayStore], in every interleaving of calls on any number of
    replicas, of changes of accounts and of rows that run out: after an
    assertion was accepted, an assertion with the same identifier, so in
    particular the same one, is accepted only by a call that ends when the first
    has run out, the tolerated clock skew included; and each accepted one showed
    possession of an enrolled key. *)
Theorem assertions_used_once `{J : Jwt} parsePKIX quote digest p {S : Type} `{RS : !ReplayStore S} now lookup (s : S) x us1 u us2 v :
  wellKept s → rtc (use_step parsePKIX quote digest p) (deskStart now lookup s) x →
  dk_uses x = us1 ++ u :: us2 → v ∈ us2 →
  possession parsePKIX quote p (us_bearer u) (us_name u) (us_account u) (us_claims u) (us_began u) ∧
  (c_ID (us_claims v) = c_ID (us_claims u) →
   ∃ exp, c_ExpiresAt (us_claims u) = Some exp ∧ (exp + ap_clockSkew p ≤ us_ended v)%Z).
Proof.
  intros Hs Hr Hu Hv. pose proof (desk_reached _ _ _ _ _ _ _ _ Hs Hr) as [_ _ Huses _ Hap].
  assert (possession parsePKIX quote p (us_bearer u) (us_name u) (us_account u) (us_claims u) (us_began u)) as Hp.
  { rewrite Forall_forall in Huses. apply Huses. rewrite Hu. set_solver. }
  split; [done|]. intros E. destruct (Hp) as (_&_&_&_&_&_&iat&exp&_&He&_). exists exp. split; [done|].
  specialize (Hap _ _ _ _ Hu Hv E). unfold replayExpiry in Hap. by rewrite He in Hap.
Qed.

(** ** What an access token shows *)

Section access_theorems.
Context `{J : Jwt} (quote : string → string).
Implicit Types p : AccessProvider.

(** A principal comes out only for a token a trusted key signed, while it is
    valid and not revoked, and while its account is enabled: disabling or
    deleting the account ends its tokens at once. *)
Theorem access_token_sound p lookup revocations now header principal d e :
  accessAuthenticate quote p lookup revocations now header = (Some principal, d, e) →
  ∃ bearer h claims key name a, header = "Bearer " +:+ bearer ∧ ParseUnverified bearer = Ok (h, claims) ∧
    ks_byKID (jp_keys p) !! default "" (h_kid h) = Some key ∧ Verifies (sk_public key) bearer = true ∧
    c_Issuer claims = jp_issuer p ∧ jp_audience p ∈ c_Audience claims ∧
    (∀ exp, c_ExpiresAt claims = Some exp → (now < exp + jp_clockSkew p)%Z) ∧
    c_Subject claims = ServiceAccountSubject name ∧ lookup name = Ok a ∧
    sa_Disabled a = false ∧ sa_DeletionTimestamp a = None ∧ sa_UID a = c_sa_uid claims ∧
    (c_ID claims ≠ "" → revocations !! c_ID claims = None) ∧
    Subject principal = c_Subject claims ∧ ServiceAccountUID principal = sa_UID a ∧ TokenID principal = c_ID claims.
Proof.
  unfold accessAuthenticate. destruct (cutPrefix _ header) as [bearer|] eqn:Eb; [|done]. apply cutPrefix_Some in Eb.
  destruct (ParseUnverified bearer) as [[h0 peek]|] eqn:Eu; [|done]. destruct (_ || _); [done|].
  destruct (ParseWithClaims _ _ _ _ _) as [[claims v]|] eqn:Ep; [|done].
  apply ParseWithClaims_sound in Ep as (h & k & Hu & Hk & Hv & He & _ & Hi & Ha). destruct v; [|done]. simpl in *.
  destruct (ParseServiceAccountSubject _) as [name|] eqn:Es; [|done]. apply ServiceAccountSubject_roundtrip in Es as [Es _].
  destruct (liveAccount _ _ _) as [[]|a] eqn:El; [done|]. unfold liveAccount in El.
  destruct (lookup name) as [a'|[]] eqn:Elk; [|done..].
  destruct (sa_Disabled a') eqn:Ed; [done|]. case_bool_decide as Hdel; [done|]. case_bool_decide as Huid; [|done]. injection El as ->.
  destruct (negb _ && _) eqn:Er; [done|]. intros [= <- <- <-].
  unfold accessKey in Hk. destruct (ks_byKID _ !! _) as [key|] eqn:Ekey; [|done]. destruct (bool_decide (sk_alg key = h_alg h)); [|done]. injection Hk as <-.
  rewrite Eu in Hu. injection Hu as -> ->.
  exists bearer, h, claims, key, name, a. split_and!; try done; [by apply Hi|by apply Ha|by apply eq_None_not_Some|].
  intros Hid. rewrite bool_decide_eq_false_2 in Er by done. unfold isRevoked in Er. simpl in Er.
  by apply bool_decide_eq_false, eq_None_not_Some in Er.
Qed.

(** The list of revocations as it is added to and pruned. *)
Inductive RevocationOp : Type := OpRevoke (now now' : Z) (jti : string) (expiresAt : Z) | OpPrune (now : Z).
Definition doRevocation p (o : RevocationOp) (m : gmap string Z) : gmap string Z :=
  match o with OpRevoke n n' jti e => accessRevokeSession p n n' jti e m | OpPrune now => prune now m end.
(** Operations of a time before [now] that name the expiry [exp] for [jti]. *)
Definition earlierOp (now : Z) (jti : string) (exp : Z) (o : RevocationOp) : Prop :=
  match o with OpRevoke n n' j e => (n ≤ n')%Z ∧ (j = jti → e = exp) | OpPrune n => (n ≤ now)%Z end.
Lemma revocation_lasts p now jti exp os : ∀ m, (0 ≤ jp_clockSkew p)%Z →
  (now < exp + jp_clockSkew p)%Z → Forall (earlierOp now jti exp) os →
  (∃ u, m !! jti = Some u ∧ (exp + jp_clockSkew p ≤ u)%Z) →
  ∃ u, foldl (λ m o, doRevocation p o m) m os !! jti = Some u ∧ (exp + jp_clockSkew p ≤ u)%Z.
Proof.
  induction os as [|o os IH]; intros m Hs Hn Hall Hm; [done|]. apply Forall_cons in Hall as [Ho Hall]. simpl.
  apply IH; [done..|]. destruct o as [n n' j e|n]; simpl in *.
  - unfold accessRevokeSession, addRevocation. destruct (decide (j = jti)) as [->|Hne]; [|by rewrite lookup_insert_ne].
    destruct Ho as [? Ho']. rewrite (Ho' eq_refl). rewrite lookup_insert_eq. eexists. split; [done|].
    destruct (Z.ltb_spec (exp + jp_clockSkew p) n); lia.
  - destruct Hm as (u & Hu & ?). exists u. split; [|done]. apply map_lookup_filter_Some. split; [done|]. simpl. lia.
Qed.
(** A revoked access token stays out for as long as it would have been valid,
    whatever is revoked and pruned meanwhile. *)
Theorem revoked_access_token p lookup m n n' os now bearer header h claims exp :
  header = "Bearer " +:+ bearer → ParseUnverified bearer = Ok (h, claims) →
  c_ExpiresAt claims = Some exp → c_ID claims ≠ "" → (0 ≤ jp_clockSkew p)%Z → (n ≤ n')%Z →
  Forall (earlierOp now (c_ID claims) exp) os →
  (accessAuthenticate quote p lookup
     (foldl (λ m o, doRevocation p o m) (accessRevokeSession p n n' (c_ID claims) exp m) os) now header).1.1 = None.
Proof.
  intros -> Hu He Hid Hs Hn Hall. destruct (accessAuthenticate _ _ _ _ _ _) as [[[principal|] d] e] eqn:E; [|done].
  apply access_token_sound in E as (b & h' & c & key & name & a & Hb & Hu' & _ & _ & _ & _ & Hexp & _ & _ & _ & _ & _ & Hr & _).
  assert (b = bearer) as -> by (simpl in Hb; by simplify_eq). rewrite Hu in Hu'. injection Hu' as <- <-.
  specialize (Hexp _ He). destruct (revocation_lasts p now (c_ID claims) exp os
    (accessRevokeSession p n n' (c_ID claims) exp m)) as (u & Hl & _); [done..| |].
  - unfold accessRevokeSession, addRevocation. rewrite lookup_insert_eq. eexists. split; [done|].
    destruct (Z.ltb_spec (exp + jp_clockSkew p) n); lia.
  - rewrite Hr in Hl by done. done.
Qed.

(** Tokens are issued for at most the configured time, whatever is asked. *)
Theorem issued_within_bounds p now jti a audience requested token exp :
  (0 < jp_defaultTTL p)%Z → (0 < jp_maxTTL p)%Z →
  IssueAccessToken p now jti a audience requested = Ok (token, exp) →
  (now < exp ≤ now + jp_maxTTL p)%Z ∧ ((0 < requested ≤ jp_maxTTL p)%Z → exp = (now + requested)%Z).
Proof.
  intros Hd Hm. unfold IssueAccessToken. destruct (ks_active _); [|done]. destruct jti; [|done].
  destruct (SignedString _ _ _); [|done]. intros [= _ <-]. unfold effectiveTTL.
  destruct (Z.leb_spec requested 0); [destruct (Z.ltb_spec (jp_maxTTL p) (jp_defaultTTL p))
    |destruct (Z.ltb_spec (jp_maxTTL p) requested)]; lia.
Qed.
End access_theorems.

(** ** A run *)

Definition exEnrolled : ServiceAccountPublicKey := mkPublicKey "k1" "Ed25519" "pub" 0.
Definition exAccount : ServiceAccount := mkAccount "u1" "ctl" false 1 "1" 0 "admin" 0 "admin" [exEnrolled] None.
Definition exAccounts (name : string) : result StoreError ServiceAccount :=
  if bool_decide (name = "ctl") then Ok exAccount else Err SNotFound.
Definition exAssertion : TokenClaims :=
  mkClaims "system:serviceaccount:ctl" "system:serviceaccount:ctl" ["aud"] (Some (60 * oneSecond)%Z) None (Some 0%Z) "a1" "u1".
Definition exHeader : TokenHeader := mkHeader "EdDSA" (Some assertionTyp) (Some "k1").
(** The same claims, signed a second time: another text, the same identifier. *)
Definition exAssertions : list (string * (TokenHeader * TokenClaims * VerifyKey)) :=
  [("t1", (exHeader, exAssertion, PublicKey_ "EdDSA" "pub")); ("t2", (exHeader, exAssertion, PublicKey_ "EdDSA" "pub"))].
#[local] Instance exAssertionJwt : Jwt := tableJwt exAssertions.
Definition exPKIX (der : string) : result string PubKey := Ok (EdKey der).
Definition exDesk : AssertionProvider := mkAssertionProvider "aud" 0.

Definition exConsume (d : string) (_ : Z) (m : gmap string Z) : gmap string Z * result StoreError bool :=
  let '(m, b) := insertReplay 0 60 d m in (m, Ok b).

(** The second use of the identifier is refused, also under another text. *)
Lemma assertion_refused_again :
  let once := assertionAuthenticate exPKIX id id exConsume exDesk exAccounts 0 in
  let '(m, (first, _, _)) := once "Bearer t1" ∅ in
  is_Some first ∧ (once "Bearer t2" m).2 = (None, Deny assertionName "assertion jti already used", None).
Proof. vm_compute. split; [by eexists|done]. Qed.

Lemma assertion_proves_possession_witness :
  ∃ bearer name a claims, "Bearer t1" = "Bearer " +:+ bearer ∧ exAccounts name = Ok a ∧
    sa_Disabled a = false ∧ sa_DeletionTimestamp a = None ∧
    possession exPKIX id exDesk bearer name a claims 0 ∧
    exConsume (c_ID claims) (replayExpiry exDesk claims) ∅ = ({[ "a1" := (60 * oneSecond)%Z ]}, Ok true) ∧
    Subject (assertionPrincipal exAccount exAssertion) = ServiceAccountSubject name ∧
    ServiceAccountUID (assertionPrincipal exAccount exAssertion) = sa_UID a ∧
    TokenID (assertionPrincipal exAccount exAssertion) = c_ID claims ∧ @None StoreError = None ∧
    d_Outcome (Allow assertionName "valid single-use client assertion") = OutcomeAllow.
Proof.
  apply (assertion_proves_possession exPKIX id id exDesk exConsume exAccounts 0 "Bearer t1" ∅).
  vm_compute. reflexivity.
Defined.

(** A call that verified the assertion in its last second and was then held up
    until it had run out. *)
Lemma assertions_used_once_witness :
  let u := mkUse "t1" "ctl" exAccount exAssertion 0 0 in
  let v := mkUse "t1" "ctl" exAccount exAssertion (59 * oneSecond)%Z (60 * oneSecond)%Z in
  ∃ x, rtc (use_step exPKIX id id exDesk) (deskStart 0 exAccounts (∅ : gmap string Z)) x ∧ dk_uses x = [] ++ u :: [v] ∧
    possession exPKIX id exDesk "t1" "ctl" exAccount exAssertion 0 ∧
    ∃ exp, c_ExpiresAt exAssertion = Some exp ∧ (exp + 0 ≤ 60 * oneSecond)%Z.
Proof.
  intros u v.
  assert (∃ x, rtc (use_step exPKIX id id exDesk) (deskStart 0 exAccounts (∅ : gmap string Z)) x ∧
    dk_uses x = [] ++ u :: [v]) as (x & Hr & Hl).
  { eexists. split.
    - eapply rtc_l; [apply (use_look _ _ _ _ _ 0 "Bearer t1" "t1" exHeader exAssertion "ctl" exAccount); vm_compute; reflexivity|].
      eapply rtc_l; [apply (use_verify _ _ _ _ _ 0 "t1" exHeader "ctl" exAccount exAssertion); vm_compute; reflexivity|].
      eapply rtc_l; [apply (use_consume _ _ _ _ _ 0 "t1" exHeader "ctl" exAccount exAssertion 0 0 {[ "a1" := (60 * oneSecond)%Z ]} (Ok true));
        [vm_compute; reflexivity|vm_compute; done|vm_compute; left; done]|].
      eapply rtc_l; [apply (use_time _ _ _ _ _ (59 * oneSecond)%Z); vm_compute; done|].
      eapply rtc_l; [apply (use_look _ _ _ _ _ 1 "Bearer t1" "t1" exHeader exAssertion "ctl" exAccount); vm_compute; reflexivity|].
      eapply rtc_l; [apply (use_verify _ _ _ _ _ 1 "t1" exHeader "ctl" exAccount exAssertion); vm_compute; reflexivity|].
      eapply rtc_l; [apply (use_time _ _ _ _ _ (60 * oneSecond)%Z); vm_compute; done|].
      eapply rtc_l; [apply (use_consume _ _ _ _ _ 1 "t1" exHeader "ctl" exAccount exAssertion (59 * oneSecond)%Z (59 * oneSecond)%Z
        {[ "a1" := (61 * oneSecond)%Z ]} (Ok true)); [vm_compute; reflexivity|vm_compute; done|vm_compute; left; done]|].
      apply rtc_refl.
    - vm_compute. reflexivity. }
  exists x. split; [done|]. split; [done|].
  destruct (assertions_used_once (RS := scyllaReplays) exPKIX id id exDesk 0 exAccounts (∅ : gmap string Z) x [] u [v] v I Hr Hl ltac:(by left)) as [Hp Ha].
  split; [exact Hp|]. exact (Ha eq_refl).
Defined.
